(* ===== verification/_CoqProject ===== *)
-Q . S2P
Prelude.v
Hash.v
MerkleAlgo.v
MerkleForest.v
MerkleSlices.v
MerkleProof.v
OrderedTree.v
Protocol.v
Digest.v
BlockTracker.v
StateStorage.v
StateStorageService.v
TransactionPool.v
TransactionPoolService.v
TransactionForwarder.v
TransactionWaiter.v
ConsensusContext.v
Encoding.v
TransientState.v
VirtualMachine.v
Execution.v
TransactionSet.v
ContractSdk.v
Committee.v
Deployments.v
PrebuiltContracts.v
Elections.v
ElectionKeys.v
ElectionVotes.v
ElectionResults.v
ElectionMirror.v
Sanitizer.v
ProcessorSdk.v
NativeProcessor.v
ElectionsInVm.v
TimestampFinder.v
EthereumLogs.v
BlockPersistence.v
BlockStorage.v
ServiceSync.v
BlockSync.v
BlockCodec.v
BlockFile.v
PublicApi.v
Transport.v
Gossip.v
BenchmarkConsensus.v
Management.v
LeanHelix.v
GoStd.v
GoTime.v
Config.v
ConfigFile.v
HttpServer.v
Metrics.v
TcpServer.v
MemoryTransport.v
Signer.v
