(* ===== verification/Prelude.v ===== *)
(** * Verification of the Orbs node

    The development models the services of an Orbs node as Rocq functions and
    proves what makes them correct.  Paths below are relative to src/.

    ** The program

    A node keeps a chain of blocks, each a transactions block and a results block.
    Clients send transactions to the public API, which puts them into the
    transaction pool.  A leader of consensus takes transactions from the pool,
    executes them on the virtual machine and builds a block with the consensus
    context; validators rebuild and compare it.  Block storage persists a committed
    block and feeds it to the state storage, which keeps the last revisions of the
    contracts' state and a Merkle forest over them, and to the transaction pool,
    which forgets what was committed.  A node that is behind gets blocks from its
    peers by block sync.  Nodes talk by gossip over TCP.  The virtual machine has
    its processors run contracts; the native processor runs those that are compiled
    into the node (elections, committee, deployments and others) and those that
    users deploy, through the contract SDK, whose calls lead back to the virtual
    machine.  Contracts read Ethereum through the cross chain connector.  Clients reach
    the public API over HTTP; the node reads its configuration from files, signs with its
    key or by a signer server, and publishes metrics.

    ** The files

    - Prelude: byte strings, [outcome] (a value, an error or a panic), machine
      words with their wrap-around, shared lemmas and tactics.
    - Hash: crypto/hash; SHA-256 as a class, and computed.  Encoding:
      crypto/encoding (strings with checksums), crypto/logic and crypto/bloom.
    - MerkleAlgo, MerkleForest, MerkleProof: crypto/merkle/merkle_algo.go and
      merkle_trie_forest.go; nodes with paths as values, the roots, [Update],
      [Forget], [GetProof], [Verify].  MerkleSlices: the same operations with the
      paths as slices of shared arrays, as Go has them.
    - OrderedTree: crypto/merkle/merkle_ordered_tree.go.
    - Protocol, Digest: the message types, crypto/digest, crypto/validators.
    - BlockTracker: synchronization/block_tracker.go.
    - StateStorage, StateStorageService: services/statestorage.
    - TransactionPool, TransactionPoolService: services/transactionpool.
      TransactionForwarder: its forwarder goroutine and the clients it serves.
      TransactionWaiter: the leader that waits for transactions.
    - ConsensusContext: services/consensuscontext.
    - TransientState, VirtualMachine, Execution, TransactionSet:
      services/virtualmachine; the state of a transaction, the service with the
      SDK handlers, and two files of properties.
    - ContractSdk: what contracts are written in, programs of SDK calls with a
      meaning on a flat store.  Committee, Deployments, PrebuiltContracts,
      Elections: the contracts of services/processor/native/repository.
      ElectionKeys, ElectionVotes, ElectionResults, ElectionMirror: properties of
      the elections.
    - Sanitizer: services/processor/native/sanitizer and its configuration.
      ProcessorSdk: services/processor/sdk, and the meaning of contract programs in
      the virtual machine.  NativeProcessor: services/processor/native.
      ElectionsInVm: the elections contract in the virtual machines of two nodes.
    - TimestampFinder: services/crosschainconnector/ethereum (finality.go,
      service.go, timestampfinder).  EthereumLogs: its events and logs.
    - BlockPersistence, BlockStorage, ServiceSync, BlockSync:
      services/blockstorage, its in-memory adapter, servicesync and internodesync.
    - BlockCodec, BlockFile: services/blockstorage/adapter/filesystem.
    - PublicApi: services/publicapi.
    - Transport: services/gossip/adapter/tcp.  TcpServer: its server with the main
      loop and the shutdown.  MemoryTransport: services/gossip/adapter/memory.  Gossip:
      services/gossip with its codecs.
    - BenchmarkConsensus: services/consensusalgo/benchmarkconsensus.  LeanHelix:
      services/consensusalgo/leanhelixconsensus.
    - Management: services/management.
    - GoStd, GoTime: what the files below use of Go's standard library, strings, paths,
      durations, floating point numbers, dates.
    - Config: config, the settings with their getters, the presets and the validator.
      ConfigFile: config/file_config.go and array_flags.go, configuration files.
    - HttpServer: bootstrap/httpserver, the router with its handlers.
    - Metrics: instrumentation/metric.
    - Signer: crypto/signer, services/signer and bootstrap/signer.

    A service's state is a record, a handler a function that returns the new state
    and an [outcome].  Where handlers interleave they are steps of a relation: the
    block tracker, block sync, the transaction forwarder and the leader that waits, the
    send queues of the transport, the TCP server, the in-memory transport, the registry of metrics, the
    waiters of the public API, and the network of the benchmark consensus.  A service reaches another, or code outside the repository, through a
    class or a record of operations with laws (StatePersistence, MerkleRevisions,
    BlockPersistence, BlockPairCommitter, PoolAgreement, SameExecution, ContractSdk,
    Natives, GossipMembuffers, NodeKeys, BenchmarkMessages, LeanHelixProofs, AbiCodec,
    TopologyConsumer, PkgErrors, Uint32Codec, MetricLibraries, VaultMessages); theorems of the client use the laws, and
    the implementations or examples discharge them.

    Contracts have two meanings: [ContractSdk.run] on a flat store, in which their
    own theorems are proved, and [ProcessorSdk.interp] with [exec], through the SDK
    adapters of the processor and the handlers of the virtual machine, which refines
    the first.

    ** What the theorems show

    - Merkle: an update gives the contents with the diffs applied, the root hash
      depends on the contents only, proofs are complete, the slices refine the
      values for the newest revision, and may corrupt older ones.
    - State: commits refine a history of diffs; reads and state hashes at a height
      are those of the history, on any node.
    - Execution: contexts are always destroyed, read-only contexts never write,
      failed transactions leave no trace, and a set of transactions can be split
      at any point into two that are committed one after the other.
    - Pool, consensus context and Lean Helix: the pools' invariants, no transaction is
      lost on its way to the network, overlooked by a leader that waits, or ordered
      twice, blocks a leader makes are those validators accept, and committed blocks
      are those other nodes verify.
    - Blocks: commit and validation on every branch, the file format's round trip,
      recovery from a torn file, lookups, and block sync: every interleaving
      extends the chain, and a node behind an honest peer catches up.
    - Contracts: no two keys of the elections clash; the count of votes ends and is
      exact whatever delegations there are; results do not depend on the order of
      Go's maps, take effect at their height, and rewards stay in their budget; of
      an address's delegations the latest counts; names of services stay unique;
      the ordered committee is a permutation.
    - Processor: contracts run in the virtual machine as their programs say, panics
      are caught, arguments are typed, the sanitizer refuses what it means to; and
      nodes agree on elections end to end.
    - Network: frames and messages arrive in order and unchanged from the sender's
      codec to the receiver's handler; the byte budget of a queue; a client that
      waits for a transaction gets its result; nodes of the benchmark consensus
      agree; the Ethereum block of a timestamp is found; contracts read the events that
      were emitted; committees and versions are
      those in force at a reference time.
    - Around the services: every setting has the value of the last configuration file
      that gives it; a transaction sent over HTTP is answered with what the public API
      found; both ways of signing agree; the TCP server ends after its connections, and
      may not end; the in-memory transport conserves messages and their order; the
      registry of metrics is a map.
    - Theorems about behaviour the code does not mean to have say so; they are
      listed with the findings of the manifest.

    ** Bounds and fuel

    64- and 32-bit arithmetic wraps ([u64_add], [wrap]).  Loops over lists are
    structural.  Fuel appears where the source recurs on something else: the
    scan of a block file takes its length in bytes, more than it has blocks; the
    halving of a sync response takes the number of blocks plus one; the levels of
    an ordered tree take its number of leaves; the recursion of the vote count
    takes the number of delegators plus one, which is shown to be enough whatever
    cycles the delegations have; the pages of guardians read from Ethereum take any
    number, for which the theorems hold; a decoder of gossip messages takes the
    number of payloads, and the reader of a connection the number of reads plus
    one; the parser of durations takes the length of the text
    ([GoStd.parse_terms_fuel]).  The thousand steps of the timestamp finder and the 32 rounds of the bit
    count are limits of the code.  Calls between contracts may not end, so
    [VirtualMachine.run_call] takes a depth, a result with some depth is the result
    with any larger one ([Execution.run_call_extends]), and theorems are about
    every depth.

    ** Not modelled

    - Code outside the repository: the membuffers encodings (class Membuffers,
      ArgumentArrays, with laws where used), Ed25519 and secp256k1, the Lean Helix
      library, the Ethereum client and its ABI encoding, the state and service
      helpers of the contract SDK (class ContractSdk), the Go parser, printer and
      compiler, reflection (class Natives), the JSON decoder, the moving average and
      histogram libraries (class MetricLibraries), and the profiler.
    - Goroutines, timers, channels and locks, except where the order of events is
      the subject; disk errors; dialing and listening; logs and process start-up.
      Services other than the TCP server update metrics without effect on the rest, and
      those updates are left out.
    - The JavaScript processor and the RPC connection of the cross chain connector: what
      the modelled services use of them is an argument.
    - The corrections of past elections (fix_*.go of the elections contract): no
      code calls them. *)

From stdpp Require Import base gmap list strings numbers.
From Stdlib Require Import ZArith Lia.

Open Scope Z_scope.

(** Go byte slices ([[]byte], [primitives.Sha256], [string] used as a map key):
    a list of byte values, each between 0 and 255. *)
Abbreviation bytes := (list Z).

Definition valid_bytes (s : bytes) : Prop := Forall (fun b => 0 <= b < 256) s.

(** The bytes of a Go string constant. *)
Definition go_string (s : string) : bytes :=
  map (fun c => Z.of_N (Ascii.N_of_ascii c)) (String.list_ascii_of_string s).

(** ** Go outcomes

    A Go function that returns [(T, error)] either returns a value, returns an
    error, or panics.  [Err] carries the error of the component, [Panic] stands
    for an unrecovered run-time panic. *)

Inductive outcome (E A : Type) : Type :=
| Ok (a : A)
| Err (e : E)
| Panic.
Arguments Ok {E A} a.
Arguments Err {E A} e.
Arguments Panic {E A}.

Definition bindO {E A B : Type} (m : outcome E A) (k : A -> outcome E B) : outcome E B :=
  match m with
  | Ok a => k a
  | Err e => Err e
  | Panic => Panic
  end.

Declare Scope go_scope.
Delimit Scope go_scope with go.
Notation "'let!' x := m 'in' k" := (bindO m (fun x => k))
  (at level 10, x pattern, k at level 200) : go_scope.
Open Scope go_scope.

Lemma bindO_Ok {E A B} (m : outcome E A) (k : A -> outcome E B) b :
  bindO m k = Ok b -> exists a, m = Ok a /\ k a = Ok b.
Proof. destruct m; simpl; intros; try done. eauto. Qed.

(** ** Machine integers

    [uint64], [uint32] and [uint16] values are integers in [0, 2^w); arithmetic
    wraps around as the Go specification says. *)

Definition wrap (w z : Z) : Z := z mod 2 ^ w.

Definition u64_add (a b : Z) : Z := wrap 64 (a + b).
Definition u64_sub (a b : Z) : Z := wrap 64 (a - b).
Definition u32_add (a b : Z) : Z := wrap 32 (a + b).
Definition u32_sub (a b : Z) : Z := wrap 32 (a - b).

Definition is_u64 (z : Z) : Prop := 0 <= z < 2 ^ 64.
Definition is_u32 (z : Z) : Prop := 0 <= z < 2 ^ 32.

Lemma wrap_small w z : 0 <= z < 2 ^ w -> wrap w z = z.
Proof. intros. unfold wrap. by apply Z.mod_small. Qed.

Lemma wrap_bound w z : 0 <= w -> 0 <= wrap w z < 2 ^ w.
Proof. intros. unfold wrap. apply Z.mod_pos_bound. lia. Qed.

Lemma wrap_add_l w a b : wrap w (wrap w a + b) = wrap w (a + b).
Proof. unfold wrap. by rewrite Zplus_mod_idemp_l. Qed.

Lemma wrap_add_r w a b : wrap w (a + wrap w b) = wrap w (a + b).
Proof. unfold wrap. by rewrite Zplus_mod_idemp_r. Qed.

Lemma wrap_sub_l w a b : wrap w (wrap w a - b) = wrap w (a - b).
Proof. unfold wrap. by rewrite Zminus_mod_idemp_l. Qed.

Lemma u64_add_small a b : 0 <= a + b < 2 ^ 64 -> u64_add a b = a + b.
Proof. apply wrap_small. Qed.

Lemma u64_sub_small a b : 0 <= a - b < 2 ^ 64 -> u64_sub a b = a - b.
Proof. apply wrap_small. Qed.

Lemma u32_add_small a b : 0 <= a + b < 2 ^ 32 -> u32_add a b = a + b.
Proof. apply wrap_small. Qed.

Lemma u32_sub_small a b : 0 <= a - b < 2 ^ 32 -> u32_sub a b = a - b.
Proof. apply wrap_small. Qed.

Lemma u64_sub_wrap a b : is_u64 a -> is_u64 b -> a < b -> u64_sub a b = a - b + 2 ^ 64.
Proof.
  unfold is_u64, u64_sub, wrap. intros.
  symmetry. apply (Z.mod_unique _ _ (-1)); lia.
Qed.

(** [words] removes the wrap-around that [lia] shows not to happen. *)
Create Rewrite HintDb words.
#[export] Hint Rewrite u64_add_small u64_sub_small u32_add_small u32_sub_small using lia : words.

Ltac words := autorewrite with words.

(** [lia_if] takes the branch of a conditional that [lia] decides. *)
Ltac lia_if :=
  match goal with
  | |- context [if ?b then _ else _] => first [replace b with true by lia | replace b with false by lia]
  end.

(** [inv_bind H] takes a run that returned a value apart into its steps. *)
Ltac inv_bind H :=
  let x := fresh "x" in let Hx := fresh "Hx" in
  apply bindO_Ok in H as (x & Hx & H).

(** ** Lists *)

Lemma take_min_length {A} n (l : list A) : take n l = take (Nat.min n (length l)) l.
Proof.
  destruct (decide (n <= length l)%nat); [by rewrite Nat.min_l by lia|].
  rewrite Nat.min_r by lia. by rewrite !take_ge by lia.
Qed.

Lemma take_length_take {A} n (l : list A) : take n l = take (length (take n l)) l.
Proof. rewrite length_take. apply take_min_length. Qed.

Lemma filter_none {A} (p : A -> bool) l : (forall x, x ∈ l -> p x = false) -> List.filter p l = [].
Proof.
  induction l as [|x l IH]; intros Hp; [done|]. cbn [List.filter]. rewrite (Hp x) by by left.
  apply IH. intros y Hy. apply Hp. by right.
Qed.

(** ** [bytes.Compare]: lexicographic *)

Fixpoint bytes_compare (a b : bytes) : comparison :=
  match a, b with
  | [], [] => Eq
  | [], _ :: _ => Lt
  | _ :: _, [] => Gt
  | x :: a', y :: b' => match x ?= y with Eq => bytes_compare a' b' | c => c end
  end.

Lemma bytes_compare_eq a b : bytes_compare a b = Eq -> a = b.
Proof.
  revert b. induction a as [|x a IH]; intros [|y b]; simpl; try done.
  destruct (Z.compare_spec x y) as [->| |]; try done. intros E. f_equal. auto.
Qed.

Lemma bytes_compare_antisym a b : bytes_compare b a = CompOpp (bytes_compare a b).
Proof.
  revert b. induction a as [|x a IH]; intros [|y b]; simpl; try done.
  rewrite (Z.compare_antisym x y). destruct (x ?= y); simpl; auto.
Qed.

Lemma bytes_compare_trans a b c : bytes_compare a b <> Gt -> bytes_compare b c <> Gt -> bytes_compare a c <> Gt.
Proof.
  revert b c. induction a as [|x a IH]; intros [|y b] [|z c]; cbn [bytes_compare]; try done.
  destruct (Z.compare_spec x y) as [->|Hxy|Hxy]; try done.
  - destruct (y ?= z); try done. apply IH.
  - destruct (Z.compare_spec y z) as [->|Hyz|Hyz]; try done; intros _ _.
    + by rewrite (proj2 (Z.compare_lt_iff x z)).
    + by rewrite (proj2 (Z.compare_lt_iff x z)) by lia.
Qed.

(** Closed comparisons of integers, by evaluation. *)
Ltac eval_Z := vm_compute; repeat split; congruence.
