(* ===== verification/Hash.v ===== *)
(** * Hashes (crypto/hash)

    [CalcSha256] over an abstract digest, and Go's crypto/sha256 (FIPS 180-4) as
    its executable instance. *)

From stdpp Require Import base list.
From Stdlib Require Import ZArith Lia.
From S2P Require Import Prelude.

(** Go's crypto/sha256 over one byte string. *)
Class Sha256 := sha256 : bytes -> bytes.

(** The parts are written to the digest one after the other. *)
Definition CalcSha256 `{Sha256} (data : list bytes) : bytes := sha256 (concat data).

Definition SHA256_HASH_SIZE_BYTES : nat := 32.

(** What the callers rely on: a digest is 32 bytes. *)
Class Sha256Laws `{Sha256} := sha256_bytes :
  forall data, length (sha256 data) = SHA256_HASH_SIZE_BYTES /\ valid_bytes (sha256 data).

Lemma CalcSha256_valid `{Sha256Laws} data : valid_bytes (CalcSha256 data).
Proof. apply sha256_bytes. Qed.

Lemma CalcSha256_length `{Sha256Laws} data : length (CalcSha256 data) = SHA256_HASH_SIZE_BYTES.
Proof. apply sha256_bytes. Qed.

(** ** SHA-256 *)

Module Sha2.

Definition w32 (z : Z) : Z := wrap 32 z.

Definition rotr (n x : Z) : Z := Z.lor (Z.shiftr x n) (w32 (Z.shiftl x (32 - n))).

Definition Ch (x y z : Z) : Z := Z.lxor (Z.land x y) (Z.land (2 ^ 32 - 1 - x) z).
Definition Maj (x y z : Z) : Z := Z.lxor (Z.lxor (Z.land x y) (Z.land x z)) (Z.land y z).
Definition Sigma0 (x : Z) : Z := Z.lxor (Z.lxor (rotr 2 x) (rotr 13 x)) (rotr 22 x).
Definition Sigma1 (x : Z) : Z := Z.lxor (Z.lxor (rotr 6 x) (rotr 11 x)) (rotr 25 x).
Definition sigma0 (x : Z) : Z := Z.lxor (Z.lxor (rotr 7 x) (rotr 18 x)) (Z.shiftr x 3).
Definition sigma1 (x : Z) : Z := Z.lxor (Z.lxor (rotr 17 x) (rotr 19 x)) (Z.shiftr x 10).

(** The constants are the first 32 fraction bits of roots of the first primes. *)
Definition is_prime (n : Z) : bool :=
  forallb (fun d => negb (n mod Z.of_nat d =? 0)) (seq 2 (Z.to_nat n - 2)).

Definition primes : list Z := List.filter is_prime (map Z.of_nat (seq 2 310)).

(** The integer cube root of a number below 2^108, bit by bit from the top. *)
Definition cbrt (z : Z) : Z :=
  foldl (fun r b => let r' := r + 2 ^ Z.of_nat b in if r' ^ 3 <=? z then r' else r)
    0 (rev (seq 0 36)).

Definition K : list Z := Eval vm_compute in map (fun p => w32 (cbrt (p * 2 ^ 96))) primes.

Definition H0 : list Z := Eval vm_compute in map (fun p => w32 (Z.sqrt (p * 2 ^ 64))) (take 8 primes).

(** Big-endian bytes of a [w]-byte word. *)
Fixpoint be_bytes (w : nat) (z : Z) : bytes :=
  match w with
  | O => []
  | S w' => Z.shiftr z (8 * Z.of_nat w') mod 256 :: be_bytes w' z
  end.

Definition be_word (bs : bytes) : Z := foldl (fun acc b => acc * 256 + b) 0 bs.

(** The padded message: a one bit, zeros, and the bit length in 8 bytes. *)
Definition pad (data : bytes) : bytes :=
  data ++ [0x80] ++ replicate (Z.to_nat ((55 - Z.of_nat (length data)) mod 64)) 0
    ++ be_bytes 8 (8 * Z.of_nat (length data)).

(** The message schedule, newest word first. *)
Fixpoint schedule (rounds : nat) (ws : list Z) : list Z :=
  match rounds with
  | O => ws
  | S n =>
      let w := w32 (sigma1 (nth 1 ws 0) + nth 6 ws 0 + sigma0 (nth 14 ws 0) + nth 15 ws 0) in
      schedule n (w :: ws)
  end.

Fixpoint chunks (n size : nat) (bs : bytes) : list bytes :=
  match n with
  | O => []
  | S n' => take size bs :: chunks n' size (drop size bs)
  end.

Definition round (st : list Z) (kw : Z * Z) : list Z :=
  match st with
  | [a; b; c; d; e; f; g; h] =>
      let T1 := h + Sigma1 e + Ch e f g + fst kw + snd kw in
      let T2 := Sigma0 a + Maj a b c in
      [w32 (T1 + T2); a; b; c; w32 (d + T1); e; f; g]
  | _ => st
  end.

Definition block (hs : list Z) (bs : bytes) : list Z :=
  let ws := rev (schedule 48 (rev (map be_word (chunks 16 4 bs)))) in
  zip_with (fun x y => w32 (x + y)) hs (foldl round hs (zip K ws)).

Definition digest (data : bytes) : bytes :=
  let msg := pad data in
  concat (map (be_bytes 4) (foldl block H0 (chunks (Nat.div (length msg) 64) 64 msg))).
End Sha2.

(** Go's SHA-256; the theorems hold for any digest, this one runs. *)
Definition crypto_sha256 : Sha256 := Sha2.digest.

Lemma be_bytes_valid w z : valid_bytes (Sha2.be_bytes w z).
Proof.
  induction w as [|w IH]; constructor; [|done]. by apply Z.mod_pos_bound.
Qed.

Lemma be_bytes_length w z : length (Sha2.be_bytes w z) = w.
Proof. induction w; simpl; congruence. Qed.

Lemma round_length st kw : length st = 8%nat -> length (Sha2.round st kw) = 8%nat.
Proof. by destruct st as [|? [|? [|? [|? [|? [|? [|? [|? [|]]]]]]]]]. Qed.

Lemma foldl_length {A} (f : list Z -> A -> list Z) n hs l :
  (forall st x, length st = n -> length (f st x) = n) -> length hs = n -> length (foldl f hs l) = n.
Proof. intros Hf. revert hs. induction l; simpl; auto. Qed.

Lemma block_length hs bs : length hs = 8%nat -> length (Sha2.block hs bs) = 8%nat.
Proof.
  intros Hl. unfold Sha2.block. rewrite length_zip_with, (foldl_length _ 8); auto using round_length.
  by rewrite Hl.
Qed.

Lemma concat_map_length {A} (f : A -> bytes) n l :
  (forall x, length (f x) = n) -> length (concat (map f l)) = (length l * n)%nat.
Proof. intros Hf. induction l; simpl; [done|]. rewrite length_app, Hf. lia. Qed.

#[export] Instance crypto_sha256_laws : Sha256Laws (H:=crypto_sha256).
Proof.
  intros data. unfold sha256, crypto_sha256, Sha2.digest. split.
  - rewrite (concat_map_length _ 4) by (intros; apply be_bytes_length).
    by rewrite (foldl_length _ 8) by (auto using block_length).
  - apply Forall_concat, List.Forall_map, Forall_true. intros. apply be_bytes_valid.
Qed.

(** The digest agrees with the vector the repository tests: the hash of the two
    chunks of "testing" is the hash of the whole. *)
Example CalcSha256_testing :
  CalcSha256 (H:=crypto_sha256) [[116; 101; 115]; [116; 105; 110; 103]] =
  [207; 128; 205; 138; 237; 72; 45; 93; 21; 39; 215; 220; 114; 252; 239; 248;
   78; 99; 38; 89; 40; 72; 68; 125; 45; 192; 176; 232; 125; 252; 154; 144].
Proof. vm_compute. reflexivity. Qed.
