(* ===== verification/MerkleAlgo.v ===== *)
(** * Merkle trie nodes (crypto/merkle/merkle_algo.go)

    The binary Patricia trie shared by the state forest and the ordered tree:
    nodes, copy-on-write insertion and the bottom-up collapse-and-hash pass.

    A [*node] pointer is a [node], [NilNode] being [nil].  The sandbox, a map
    from node pointers to dirty flags that lives for one update, is the
    [sandboxed] field of each node: [Some d] when the pointer is a key of the
    map.  A path is a slice of bytes that are all 0 or 1 ([toBin] and [toKey]
    produce no others), so it is a [list bool]. *)

From stdpp Require Import base list.
From Stdlib Require Import ZArith Lia.
From S2P Require Import Prelude Hash.

(** ** Nodes *)

Record dirtyNode := mkDirty { dirty_left : bool; dirty_right : bool }.

Inductive node : Type :=
| NilNode
| Node (path : list bool) (value hash : bytes) (left right : node)
    (sandboxed : option dirtyNode).

Definition isNil (n : node) : bool := match n with NilNode => true | _ => false end.

Definition node_path (n : node) : list bool :=
  match n with NilNode => [] | Node p _ _ _ _ _ => p end.
Definition node_value (n : node) : bytes :=
  match n with NilNode => [] | Node _ v _ _ _ _ => v end.
Definition node_hash (n : node) : bytes :=
  match n with NilNode => [] | Node _ _ h _ _ _ => h end.
Definition node_left (n : node) : node :=
  match n with NilNode => NilNode | Node _ _ _ l _ _ => l end.
Definition node_right (n : node) : node :=
  match n with NilNode => NilNode | Node _ _ _ _ r _ => r end.
Definition node_sandboxed (n : node) : option dirtyNode :=
  match n with NilNode => None | Node _ _ _ _ _ sb => sb end.

Section Algo.
Context `{Sha256}.

Definition GetZeroValueHash : bytes := CalcSha256 [[]].
Definition zeroValueHash : bytes := GetZeroValueHash.

Definition createNode (path : list bool) (valueHash : bytes) : node :=
  Node path valueHash [] NilNode NilNode None.

Definition hasValue (n : node) : bool := negb (bool_decide (zeroValueHash = node_value n)).

Definition isLeaf (n : node) : bool := isNil (node_left n) && isNil (node_right n).

Definition getChild (bit : bool) (n : node) : node :=
  if bit then node_right n else node_left n.

Definition setChild (bit : bool) (child : node) (n : node) : node :=
  match n with
  | NilNode => NilNode
  | Node p v h l r sb => if bit then Node p v h l child sb else Node p v h child r sb
  end.

Definition setPath (path : list bool) (n : node) : node :=
  match n with NilNode => NilNode | Node _ v h l r sb => Node path v h l r sb end.
Definition setValue (valueHash : bytes) (n : node) : node :=
  match n with NilNode => NilNode | Node p _ h l r sb => Node p valueHash h l r sb end.
Definition setHash (hash : bytes) (n : node) : node :=
  match n with NilNode => NilNode | Node p v _ l r sb => Node p v hash l r sb end.

Definition clone (n : node) : node :=
  match n with NilNode => NilNode | Node p v _ l r _ => Node p v [] l r None end.

(** [dirtyNodes.init] and [dirtyNodes.set]. *)
Definition dirty_init (n : node) : node :=
  match n with
  | NilNode => NilNode
  | Node p v h l r _ => Node p v h l r (Some (mkDirty false false))
  end.

Definition dirty_set (arc : bool) (n : node) : node :=
  match n with
  | NilNode => NilNode
  | Node p v h l r sb =>
      let d := default (mkDirty false false) sb in
      Node p v h l r
        (Some (if arc then mkDirty (dirty_left d) true else mkDirty true (dirty_right d)))
  end.

Definition inSandbox (n : node) : bool := bool_decide (is_Some (node_sandboxed n)).

(** [getOrClone]: a node that is not in the sandbox is copied into it.  The
    flag it then sets on the parent is set by the caller, which holds the
    parent ([updateOrCreateChild] below; the root has no parent). *)
Definition getOrClone (current : node) : node :=
  if inSandbox current then current else dirty_init (clone current).

Fixpoint hasPrefix (s p : list bool) {struct p} : bool :=
  match p, s with
  | [], _ => true
  | b :: p', c :: s' => eqb b c && hasPrefix s' p'
  | _ :: _, [] => false
  end.

Definition shouldUpdateCurrent (current : node) (path : list bool) : bool :=
  bool_decide (node_path current = path).
Definition shouldUpdateOrCreateChild (current : node) (path : list bool) : bool :=
  hasPrefix path (node_path current).
Definition shouldCreateParent (current : node) (path : list bool) : bool :=
  hasPrefix (node_path current) path.

(** The recursive call on the child behind [arc] is the argument [insertChild]. *)
Definition updateOrCreateChild (current : node) (path : list bool) (valueHash : bytes)
    (insertChild : bool -> list bool -> node) : node :=
  if negb (hasValue current) && isLeaf current then
    setValue valueHash (setPath path current)
  else
    match drop (length (node_path current)) path with
    | [] => current
    | childArc :: childPath =>
        let childNode := getChild childArc current in
        if negb (isNil childNode) then
          let current := if inSandbox childNode then current else dirty_set childArc current in
          setChild childArc (insertChild childArc childPath) current
        else if bool_decide (valueHash = zeroValueHash) then current
        else dirty_set childArc (setChild childArc (createNode childPath valueHash) current)
    end.

Definition createParent (current : node) (path : list bool) (valueHash : bytes) : node :=
  match drop (length path) (node_path current) with
  | [] => current
  | childArc :: childPath =>
      dirty_set childArc
        (setChild childArc (setPath childPath current) (createNode path valueHash))
  end.

Fixpoint commonPathIndex (a b : list bool) : nat :=
  match a, b with
  | x :: a', y :: b' => if eqb x y then S (commonPathIndex a' b') else 0%nat
  | _, _ => 0%nat
  end.

Definition lastCommonPathIndex (current : node) (path : list bool) : nat :=
  commonPathIndex (node_path current) path.

Definition createParentAndSibling (current : node) (path : list bool) (valueHash : bytes) : node :=
  let prefixLastIndex := lastCommonPathIndex current path in
  match drop prefixLastIndex (node_path current), drop prefixLastIndex path with
  | newCurrentArc :: currentPath, newChildArc :: childPath =>
      let newParent := createNode (take prefixLastIndex path) zeroValueHash in
      let newParent := dirty_set newCurrentArc
                         (setChild newCurrentArc (setPath currentPath current) newParent) in
      dirty_set newChildArc
        (setChild newChildArc (createNode childPath valueHash) newParent)
  | _, _ => current
  end.

Fixpoint insert (valueHash : bytes) (current : node) (path : list bool) : node :=
  match current with
  | NilNode => NilNode
  | Node _ _ _ cl cr _ =>
      let actual := getOrClone current in
      if shouldUpdateCurrent actual path then setValue valueHash actual
      else if shouldUpdateOrCreateChild actual path then
        updateOrCreateChild actual path valueHash
          (fun arc childPath => insert valueHash (if arc then cr else cl) childPath)
      else if shouldCreateParent actual path then createParent actual path valueHash
      else createParentAndSibling actual path valueHash
  end.

Definition collapseOnlyChild (current : node) (onlyChild : bool) : node :=
  let child := getChild onlyChild current in
  setPath (node_path current ++ onlyChild :: node_path child) (clone child).

(** The results of the recursive calls on the two children are the arguments
    [collapsedLeft] and [collapsedRight]. *)
Definition collapseDirtyChildren (current collapsedLeft collapsedRight : node) : node :=
  match node_sandboxed current with
  | None => current
  | Some d =>
      let current := if dirty_left d then setChild false collapsedLeft current else current in
      if dirty_right d then setChild true collapsedRight current else current
  end.

Fixpoint collapseAndHash (f : node -> bytes) (current : node) : node :=
  match current with
  | NilNode => NilNode
  | Node _ _ _ l r _ =>
      let current :=
        if negb (isLeaf current)
        then collapseDirtyChildren current (collapseAndHash f l) (collapseAndHash f r)
        else current in
      if negb (hasValue current) then
        if isLeaf current then NilNode
        else
          let current :=
            if negb (isNil (node_left current)) && isNil (node_right current)
            then collapseOnlyChild current false
            else if isNil (node_left current) && negb (isNil (node_right current))
            then collapseOnlyChild current true
            else current in
          setHash (f current) current
      else setHash (f current) current
  end.

(** ** Contents of a trie

    The value stored under a key, [zeroValueHash] when there is none: the
    reference meaning of a trie, a total function from keys to values. *)

Fixpoint strip (p k : list bool) : option (list bool) :=
  match p, k with
  | [], _ => Some k
  | b :: p', c :: k' => if eqb b c then strip p' k' else None
  | _ :: _, [] => None
  end.

Fixpoint get (n : node) (k : list bool) : bytes :=
  match n with
  | NilNode => zeroValueHash
  | Node p v _ l r _ =>
      match strip p k with
      | None => zeroValueHash
      | Some [] => v
      | Some (b :: k') => if b then get r k' else get l k'
      end
  end.

(** A trie at rest between two updates: no sandbox entries, every node either
    carries a value or has two children, and every hash is up to date. *)
Fixpoint clean (f : node -> bytes) (n : node) : Prop :=
  match n with
  | NilNode => True
  | Node p v h l r sb =>
      sb = None /\ (v <> zeroValueHash \/ (l <> NilNode /\ r <> NilNode)) /\
      h = f (Node p v [] l r None) /\ clean f l /\ clean f r
  end.

(** A trie in the middle of an update: a child that is not behind a dirty flag
    is clean, a child behind one is again in the middle of an update. *)
Fixpoint tracked (f : node -> bytes) (n : node) : Prop :=
  match n with
  | NilNode => True
  | Node _ _ _ l r sb =>
      let d := default (mkDirty false false) sb in
      (if dirty_left d then tracked f l else clean f l) /\
      (if dirty_right d then tracked f r else clean f r)
  end.

(** ** Prefix arithmetic *)

Lemma strip_Some p k t : strip p k = Some t <-> k = p ++ t.
Proof.
  revert k; induction p as [|b p IH]; intros k; simpl; [split; congruence|].
  destruct k as [|c k]; [done|].
  destruct b, c; simpl; rewrite ?IH; split; congruence.
Qed.

Lemma strip_app p q k : strip (p ++ q) k = strip p k ≫= strip q.
Proof.
  revert k; induction p as [|b p IH]; intros k; simpl; [done|].
  destruct k as [|c k]; [done|]. by destruct (eqb b c).
Qed.

Lemma strip_app_self p t : strip p (p ++ t) = Some t.
Proof. by apply strip_Some. Qed.

Lemma hasPrefix_spec s p : hasPrefix s p = true <-> exists t, s = p ++ t.
Proof.
  revert s; induction p as [|b p IH]; intros s; simpl; [split; eauto|].
  destruct s as [|c s]; [by split; [|intros (t & Ht)]|].
  rewrite andb_true_iff, IH, eqb_true_iff. split.
  - by intros [-> [t ->]]; exists t.
  - intros [t [= -> ->]]; eauto.
Qed.

(** Two paths neither of which is a prefix of the other split at
    [commonPathIndex] into a common part and two different arcs. *)
Lemma commonPathIndex_split a b :
  hasPrefix a b = false -> hasPrefix b a = false ->
  exists c x y s t, a = c ++ x :: s /\ b = c ++ y :: t /\ x <> y /\
    commonPathIndex a b = length c.
Proof.
  revert b; induction a as [|x a IH]; intros [|y b]; simpl; try done.
  destruct (eqb x y) eqn:E.
  - apply eqb_true_iff in E as ->. rewrite eqb_reflx. simpl. intros H1 H2.
    destruct (IH b H1 H2) as (c & x & z & s & t & -> & -> & ? & Hl).
    exists (y :: c), x, z, s, t. simpl. by rewrite Hl.
  - intros _ _. apply eqb_false_iff in E. by exists [], x, y, a, b.
Qed.

Lemma prefix_both_arcs (q p a b : list bool) :
  q `prefix_of` p ++ false :: a -> q `prefix_of` p ++ true :: b -> q `prefix_of` p.
Proof.
  revert q; induction p as [|x p IH]; intros [|y q] Ha Hb; simpl in *.
  - done.
  - apply prefix_cons_inv_1 in Ha, Hb. congruence.
  - apply prefix_nil.
  - pose proof (prefix_cons_inv_1 _ _ _ _ Ha) as ->.
    apply prefix_cons, IH; eauto using prefix_cons_inv_2.
Qed.

(** ** Insertion, case by case *)

Definition mark (arc : bool) (d : dirtyNode) : dirtyNode :=
  if arc then mkDirty (dirty_left d) true else mkDirty true (dirty_right d).

Abbreviation dirt sb := (default (mkDirty false false) sb).

Lemma getOrClone_Node p v h l r sb :
  exists h', getOrClone (Node p v h l r sb) = Node p v h' l r (Some (dirt sb)).
Proof.
  unfold getOrClone, inSandbox. case_bool_decide as Hs; simpl in *.
  - destruct sb as [d|]; [eauto|]. by destruct Hs.
  - destruct sb as [d|]; [|eauto]. by destruct Hs.
Qed.

Lemma hasValue_false n : hasValue n = false <-> node_value n = zeroValueHash.
Proof. unfold hasValue. case_bool_decide; naive_solver. Qed.

Lemma empty_leaf_spec p v h l r sb :
  if negb (hasValue (Node p v h l r sb)) && isLeaf (Node p v h l r sb)
  then v = zeroValueHash /\ l = NilNode /\ r = NilNode
  else v <> zeroValueHash \/ l <> NilNode \/ r <> NilNode.
Proof.
  unfold hasValue, isLeaf. simpl. case_bool_decide; simpl; [|by left].
  destruct l, r; simpl; naive_solver.
Qed.

(** What [insert] does to a node, by the way its path meets the key. *)
Lemma insert_cases (P : node -> Prop) vh p v h l r sb path :
  (forall h', path = p -> P (Node p vh h' l r (Some (dirt sb)))) ->
  (forall h', v = zeroValueHash -> l = NilNode -> r = NilNode ->
     P (Node path vh h' NilNode NilNode (Some (dirt sb)))) ->
  (forall h' arc rest c, path = p ++ arc :: rest -> c = (if arc then r else l) ->
     c <> NilNode ->
     P (setChild arc (insert vh c rest)
          (Node p v h' l r (Some (if inSandbox c then dirt sb else mark arc (dirt sb)))))) ->
  (forall h' arc rest, path = p ++ arc :: rest -> (if arc then r else l) = NilNode ->
     vh = zeroValueHash -> (v <> zeroValueHash \/ l <> NilNode \/ r <> NilNode) ->
     P (Node p v h' l r (Some (dirt sb)))) ->
  (forall h' arc rest, path = p ++ arc :: rest -> (if arc then r else l) = NilNode ->
     vh <> zeroValueHash -> (v <> zeroValueHash \/ l <> NilNode \/ r <> NilNode) ->
     P (setChild arc (createNode rest vh) (Node p v h' l r (Some (mark arc (dirt sb)))))) ->
  (forall h' arc rest, p = path ++ arc :: rest ->
     P (setChild arc (Node rest v h' l r (Some (dirt sb)))
          (Node path vh [] NilNode NilNode (Some (mark arc (mkDirty false false)))))) ->
  (forall h' c x s t, p = c ++ x :: s -> path = c ++ negb x :: t ->
     P (setChild (negb x) (createNode t vh)
          (setChild x (Node s v h' l r (Some (dirt sb)))
             (Node c zeroValueHash [] NilNode NilNode (Some (mkDirty true true)))))) ->
  P (insert vh (Node p v h l r sb) path).
Proof.
  intros Hupd Hrep Hchild Hnop Hnew Hpar Hsib. cbn [insert].
  destruct (getOrClone_Node p v h l r sb) as [h' ->].
  unfold shouldUpdateCurrent, shouldUpdateOrCreateChild, shouldCreateParent. cbn [node_path].
  case_bool_decide as E; [subst; by apply Hupd|].
  destruct (hasPrefix path p) eqn:Hpre.
  { apply hasPrefix_spec in Hpre as [t Ht].
    destruct t as [|arc rest]; [by rewrite app_nil_r in Ht; subst|].
    unfold updateOrCreateChild. cbn [node_path].
    pose proof (empty_leaf_spec p v h' l r (Some (dirt sb))) as Hnz.
    destruct (negb (hasValue _) && isLeaf _).
    - destruct Hnz as (? & -> & ->). by apply Hrep.
    - assert (drop (length p) path = arc :: rest) as -> by (rewrite Ht; apply drop_app_length).
      unfold getChild. cbn [node_left node_right].
      destruct (isNil (if arc then r else l)) eqn:Hnil; simpl.
      + assert ((if arc then r else l) = NilNode) as Hc by by destruct (if arc then r else l).
        case_bool_decide as Hz; [by eapply Hnop|].
        specialize (Hnew h' arc rest Ht Hc Hz Hnz). by destruct arc.
      + assert ((if arc then r else l) <> NilNode) as Hc by by destruct (if arc then r else l).
        specialize (Hchild h' arc rest _ Ht eq_refl Hc).
        by destruct (inSandbox _), arc. }
  destruct (hasPrefix p path) eqn:Hpre2.
  { apply hasPrefix_spec in Hpre2 as [t Ht].
    destruct t as [|arc rest]; [by rewrite app_nil_r in Ht; subst|].
    unfold createParent. cbn [node_path].
    assert (drop (length path) p = arc :: rest) as -> by (rewrite Ht; apply drop_app_length).
    specialize (Hpar h' arc rest Ht). by destruct arc. }
  destruct (commonPathIndex_split p path) as (c & x & y & s & t & Hp & Hk & Hxy & Hidx);
    [done..|].
  unfold createParentAndSibling, lastCommonPathIndex. cbn [node_path]. rewrite Hidx.
  assert (drop (length c) p = x :: s) as -> by (rewrite Hp; apply drop_app_length).
  assert (drop (length c) path = y :: t) as -> by (rewrite Hk; apply drop_app_length).
  assert (take (length c) path = c) as -> by (rewrite Hk; apply take_app_length).
  assert (y = negb x) as -> by by destruct x, y.
  specialize (Hsib h' c x s t Hp Hk). by destruct x.
Qed.

Lemma decide_app_head {A} (p t u : list bool) (x y : A) :
  (if decide (p ++ t = p ++ u) then x else y) = (if decide (t = u) then x else y).
Proof. apply decide_ext. split; [apply app_inv_head|congruence]. Qed.

Lemma decide_app_nil {A} (p t : list bool) (x y : A) :
  (if decide (p ++ t = p) then x else y) = (if decide (t = []) then x else y).
Proof.
  apply decide_ext. split; [|intros ->; apply app_nil_r].
  intros E. apply (app_inv_head p). by rewrite E, app_nil_r.
Qed.

Lemma strip_None_ne_nil p k : strip p k = None -> k <> p.
Proof. intros E ->. pose proof (strip_app_self p []) as E'. rewrite app_nil_r in E'. congruence. Qed.

Lemma strip_None_ne p k t : strip p k = None -> k <> p ++ t.
Proof. intros E ->. by rewrite strip_app_self in E. Qed.

Lemma get_leaf p v h sb k :
  get (Node p v h NilNode NilNode sb) k = if decide (k = p) then v else zeroValueHash.
Proof.
  simpl. destruct (strip p k) as [t|] eqn:E.
  - apply strip_Some in E as ->. rewrite decide_app_nil. by destruct t as [|[] t].
  - by rewrite decide_False by by apply strip_None_ne_nil.
Qed.

(** Reading a node one of whose children was replaced. *)
Lemma get_setChild arc c p v h l r sb k :
  get (setChild arc c (Node p v h l r sb)) k =
  match strip p k with
  | Some (b :: k') => if eqb b arc then get c k' else get (Node p v h l r sb) k
  | _ => get (Node p v h l r sb) k
  end.
Proof. destruct arc; simpl; by destruct (strip p k) as [[|[] t]|]. Qed.

(** Insertion updates one key of the contents and no other. *)
Lemma get_insert vh n path k :
  n <> NilNode ->
  get (insert vh n path) k = if decide (k = path) then vh else get n k.
Proof.
  revert path k. induction n as [|p v h l IHl r IHr sb]; [done|]. intros path k _.
  apply insert_cases.
  - intros h' ->. simpl. destruct (strip p k) as [t|] eqn:E.
    + apply strip_Some in E as ->. rewrite decide_app_nil. by destruct t as [|[] t].
    + by rewrite decide_False by by apply strip_None_ne_nil.
  - intros h' -> -> ->. rewrite !get_leaf. repeat case_decide; congruence.
  - intros h' arc rest c -> Hc Hnn. rewrite get_setChild. simpl.
    destruct (strip p k) as [t|] eqn:E.
    + apply strip_Some in E as ->. rewrite decide_app_head.
      destruct t as [|b t]; [done|]. subst c.
      destruct b, arc; simpl; rewrite ?IHl, ?IHr by done;
        repeat case_decide; congruence.
    + by rewrite decide_False by by apply strip_None_ne.
  - intros h' arc rest -> Hc -> _. simpl. destruct (strip p k) as [t|] eqn:E.
    + apply strip_Some in E as ->. rewrite decide_app_head.
      destruct t as [|[] t]; [done|..]; case_decide as Ht; try done;
        by simplify_eq/=.
    + by rewrite decide_False by by apply strip_None_ne.
  - intros h' arc rest -> Hc _ _. rewrite get_setChild. cbn [get].
    destruct (strip p k) as [t|] eqn:E.
    + apply strip_Some in E as ->. rewrite decide_app_head.
      destruct t as [|b t]; [done|]. unfold createNode.
      destruct b, arc; cbn [eqb]; rewrite ?get_leaf, ?Hc; cbn [get];
        repeat case_decide; congruence.
    + by rewrite decide_False by by apply strip_None_ne.
  - intros h' arc rest Hp. rewrite get_setChild. simpl. rewrite Hp, strip_app.
    destruct (strip path k) as [t|] eqn:E; simpl.
    + apply strip_Some in E as ->. rewrite decide_app_nil. by destruct t as [|[] t], arc.
    + by rewrite decide_False by by apply strip_None_ne_nil.
  - intros h' c x s t -> ->.
    destruct x; simpl; rewrite strip_app; destruct (strip c k) as [u|] eqn:E; simpl;
      try by rewrite decide_False by by apply strip_None_ne.
    all: apply strip_Some in E as ->; rewrite decide_app_head.
    all: destruct u as [|[] u]; cbn [eqb]; try done.
    all: pose proof (get_leaf t vh [] None u) as Hleaf; simpl in Hleaf.
    all: rewrite ?Hleaf; repeat case_decide; congruence.
Qed.

(** ** Dirty tracking *)

Context (f : node -> bytes).

(** A node hasher looks at a node's path and value and at its children's
    hashes, nothing else. *)
Class NodeHasher := node_hasher_ext : forall p v h h' l l' r r' sb sb',
  isNil l = isNil l' -> node_hash l = node_hash l' ->
  isNil r = isNil r' -> node_hash r = node_hash r' ->
  f (Node p v h l r sb) = f (Node p v h' l' r' sb').

Lemma clean_tracked n : clean f n -> tracked f n.
Proof. destruct n; simpl; [done|]. intros (-> & ? & ? & ? & ?). done. Qed.

Lemma clean_not_sandboxed n : clean f n -> inSandbox n = false.
Proof.
  destruct n as [|p v h l r sb]; [done|]. simpl. by intros [-> _].
Qed.

Lemma flag_tracked (b : bool) n : (if b then tracked f n else clean f n) -> tracked f n.
Proof. destruct b; [done|apply clean_tracked]. Qed.

Lemma insert_not_nil vh n path : n <> NilNode -> insert vh n path <> NilNode.
Proof.
  destruct n as [|p v h l r sb]; [done|]. intros _.
  apply insert_cases; intros; try done; repeat (destruct (_ : bool); try done);
    match goal with |- setChild ?a _ _ <> _ => by destruct a
                  | |- setChild _ _ (setChild ?a _ _) <> _ => by destruct a end.
Qed.

(** Insertion keeps the dirty flags ahead of every change. *)
Lemma insert_tracked vh n path : tracked f n -> tracked f (insert vh n path).
Proof.
  revert path. induction n as [|p v h l IHl r IHr sb]; [done|]. intros path [Hl Hr].
  apply insert_cases.
  - intros h' ->. by split.
  - intros h' -> -> ->. simpl. by destruct (dirty_left _), (dirty_right _).
  - intros h' arc rest c -> -> Hnn. destruct arc; simpl.
    + destruct (inSandbox r) eqn:Hs; simpl; split; try done.
      * destruct (dirty_right (dirt sb)) eqn:E; [by apply IHr|].
        by rewrite clean_not_sandboxed in Hs.
      * by apply IHr, (flag_tracked (dirty_right (dirt sb))).
    + destruct (inSandbox l) eqn:Hs; simpl; split; try done.
      * destruct (dirty_left (dirt sb)) eqn:E; [by apply IHl|].
        by rewrite clean_not_sandboxed in Hs.
      * by apply IHl, (flag_tracked (dirty_left (dirt sb))).
  - intros h' arc rest -> _ _ _. by split.
  - intros h' arc rest -> _ _ _. by destruct arc.
  - intros h' arc rest ->. by destruct arc.
  - intros h' c x s t -> ->. by destruct x.
Qed.

(** ** Collapse *)

(** The part of [collapseAndHash] after the children were processed. *)
Definition collapse_finish (current : node) : node :=
  if negb (hasValue current) then
    if isLeaf current then NilNode
    else
      let current :=
        if negb (isNil (node_left current)) && isNil (node_right current)
        then collapseOnlyChild current false
        else if isNil (node_left current) && negb (isNil (node_right current))
        then collapseOnlyChild current true
        else current in
      setHash (f current) current
  else setHash (f current) current.

Lemma collapse_unfold p v h l r sb :
  collapseAndHash f (Node p v h l r sb) =
  collapse_finish (Node p v h
    (if dirty_left (dirt sb) then collapseAndHash f l else l)
    (if dirty_right (dirt sb) then collapseAndHash f r else r) sb).
Proof.
  cbn [collapseAndHash]. unfold collapse_finish, collapseDirtyChildren.
  destruct l, r, sb as [[[] []]|]; reflexivity.
Qed.

Lemma isNil_false n : isNil n = false <-> n <> NilNode.
Proof. by destruct n. Qed.

Lemma get_finish n k : get (collapse_finish n) k = get n k.
Proof.
  destruct n as [|p v h l r sb]; [by unfold collapse_finish; simpl; case_match|].
  unfold collapse_finish. destruct (hasValue _) eqn:Hv; simpl negb; cbv iota; [done|].
  apply hasValue_false in Hv. simpl in Hv. subst v.
  destruct l as [|pl vl hl ll rl sl], r as [|pr vr hr lr rr sr]; simpl; try done.
  - by destruct (strip p k) as [[|[] t]|].
  - rewrite strip_app. destruct (strip p k) as [[|[] t]|]; simpl; done.
  - rewrite strip_app. destruct (strip p k) as [[|[] t]|]; simpl; done.
Qed.

(** Collapsing changes no content. *)
Lemma get_collapse n k : get (collapseAndHash f n) k = get n k.
Proof.
  revert k. induction n as [|p v h l IHl r IHr sb]; [done|]. intros k.
  rewrite collapse_unfold, get_finish. simpl.
  destruct (strip p k) as [[|[] t]|]; try done; by destruct (_ (dirt sb)).
Qed.

(** The sandbox is a local variable of an update: it is gone afterwards. *)
Fixpoint endSandbox (n : node) : node :=
  match n with
  | NilNode => NilNode
  | Node p v h l r _ => Node p v h (endSandbox l) (endSandbox r) None
  end.

Lemma endSandbox_isNil n : isNil (endSandbox n) = isNil n.
Proof. by destruct n. Qed.

Lemma endSandbox_hash n : node_hash (endSandbox n) = node_hash n.
Proof. by destruct n. Qed.

Lemma endSandbox_clean n : clean f n -> endSandbox n = n.
Proof.
  induction n as [|p v h l IHl r IHr sb]; [done|]. simpl.
  intros (-> & _ & _ & ? & ?). by rewrite IHl, IHr.
Qed.

Lemma get_endSandbox n k : get (endSandbox n) k = get n k.
Proof.
  revert k. induction n as [|p v h l IHl r IHr sb]; [done|]. intros k. simpl.
  by destruct (strip p k) as [[|[] t]|].
Qed.

Context `{!NodeHasher}.

Lemma node_hasher_settled p v h l r sb :
  f (Node p v h l r sb) = f (Node p v [] (endSandbox l) (endSandbox r) None).
Proof. apply node_hasher_ext; by rewrite ?endSandbox_isNil, ?endSandbox_hash. Qed.

Lemma clean_finish n :
  clean f (endSandbox (node_left n)) -> clean f (endSandbox (node_right n)) ->
  clean f (endSandbox (collapse_finish n)).
Proof.
  destruct n as [|p v h l r sb]; [by unfold collapse_finish; case_match|]. cbn [node_left node_right].
  intros Hl Hr. unfold collapse_finish.
  destruct (hasValue _) eqn:Hv; simpl negb; cbv iota.
  { cbn [setHash endSandbox clean]. split_and!; try done.
    - left. intros ->. by rewrite (proj2 (hasValue_false _)) in Hv.
    - apply node_hasher_settled. }
  destruct l as [|pl vl hl ll rl sl], r as [|pr vr hr lr rr sr]; cbn -[clean]; [done|..].
  - destruct Hr as (_ & ? & _ & ? & ?). split_and!; try done.
    apply (node_hasher_settled _ vr [] lr rr None).
  - destruct Hl as (_ & ? & _ & ? & ?). split_and!; try done.
    apply (node_hasher_settled _ vl [] ll rl None).
  - split_and!; try done; [by right|]. apply node_hasher_settled.
Qed.

(** An update that tracked its changes ends in a trie at rest. *)
Lemma collapse_clean n : tracked f n -> clean f (endSandbox (collapseAndHash f n)).
Proof.
  induction n as [|p v h l IHl r IHr sb]; [done|]. intros [Hl Hr].
  rewrite collapse_unfold. apply clean_finish; cbn [node_left node_right].
  - destruct (dirty_left _); [by apply IHl|]. by rewrite endSandbox_clean.
  - destruct (dirty_right _); [by apply IHr|]. by rewrite endSandbox_clean.
Qed.

(** ** A trie at rest is determined by its contents *)

Lemma get_prefix n k : get n k <> zeroValueHash -> node_path n `prefix_of` k.
Proof.
  destruct n as [|p v h l r sb]; [done|]. simpl.
  destruct (strip p k) as [t|] eqn:E; [|done].
  apply strip_Some in E as ->. intros _. by apply prefix_app_r.
Qed.

Lemma get_child p v h l r sb b k :
  get (Node p v h l r sb) (p ++ b :: k) = get (if b then r else l) k.
Proof. simpl. rewrite strip_app_self. by destruct b. Qed.

Lemma get_value p v h l r sb : get (Node p v h l r sb) p = v.
Proof. simpl. pose proof (strip_app_self p []) as E. rewrite app_nil_r in E. by rewrite E. Qed.

Lemma clean_inhabited n : clean f n -> n <> NilNode -> exists k, get n k <> zeroValueHash.
Proof.
  induction n as [|p v h l IHl r IHr sb]; [done|]. simpl clean.
  intros (-> & [Hv|[Hl Hr]] & _ & Hcl & Hcr) _.
  - exists p. by rewrite get_value.
  - destruct (IHl Hcl Hl) as [k Hk]. exists (p ++ false :: k). by rewrite get_child.
Qed.

Lemma clean_longest_prefix n q :
  clean f n -> n <> NilNode -> (forall k, get n k <> zeroValueHash -> q `prefix_of` k) ->
  q `prefix_of` node_path n.
Proof.
  destruct n as [|p v h l r sb]; [done|]. simpl clean.
  intros (-> & [Hv|[Hl Hr]] & _ & Hcl & Hcr) _ Hq; cbn [node_path].
  - apply Hq. by rewrite get_value.
  - destruct (clean_inhabited l Hcl Hl) as [kl Hkl], (clean_inhabited r Hcr Hr) as [kr Hkr].
    apply (prefix_both_arcs q p kl kr); apply Hq; by rewrite get_child.
Qed.

Lemma clean_empty n : clean f n -> (forall k, get n k = zeroValueHash) -> n = NilNode.
Proof.
  intros Hc Hg. destruct n; [done|]. destruct (clean_inhabited _ Hc) as [k Hk]; [done|].
  by rewrite Hg in Hk.
Qed.

Lemma clean_path_le n1 n2 :
  clean f n2 -> n2 <> NilNode -> (forall k, get n1 k = get n2 k) ->
  node_path n1 `prefix_of` node_path n2.
Proof.
  intros Hc Hn Hg. apply clean_longest_prefix; try done.
  intros k. rewrite <- Hg. apply get_prefix.
Qed.

Lemma clean_ext n1 n2 :
  clean f n1 -> clean f n2 -> (forall k, get n1 k = get n2 k) -> n1 = n2.
Proof.
  revert n2. induction n1 as [|p1 v1 h1 l1 IHl r1 IHr sb1]; intros n2 Hc1 Hc2 Hg.
  { symmetry. apply clean_empty; [done|]. intros k. by rewrite <- Hg. }
  destruct n2 as [|p2 v2 h2 l2 r2 sb2]; [by apply clean_empty|].
  assert (p1 = p2) as <-.
  { apply (anti_symm prefix).
    - by apply (clean_path_le (Node p1 v1 h1 l1 r1 sb1) (Node p2 v2 h2 l2 r2 sb2)).
    - apply (clean_path_le (Node p2 v2 h2 l2 r2 sb2) (Node p1 v1 h1 l1 r1 sb1)); try done. }
  assert (v1 = v2) as <-.
  { pose proof (Hg p1) as Hp. by rewrite !get_value in Hp. }
  destruct Hc1 as (-> & _ & -> & Hl1 & Hr1), Hc2 as (-> & _ & -> & Hl2 & Hr2).
  rewrite (IHl l2), (IHr r2); try done; intros k.
  - pose proof (Hg (p1 ++ true :: k)) as Hk. by rewrite !get_child in Hk.
  - pose proof (Hg (p1 ++ false :: k)) as Hk. by rewrite !get_child in Hk.
Qed.

End Algo.
