(* ===== verification/MerkleForest.v ===== *)
(** * The state Merkle forest (crypto/merkle/merkle_trie_forest.go)

    A forest keeps the root nodes of the recent state revisions.  [Update]
    applies a list of key/value diffs to the revision with a given root hash and
    appends the resulting root.

    Paths are values here.  In the code they are slices, and a collapse may write
    into an array that nodes of older revisions share, so the theorems speak of
    the newest revision; MerkleSlices.v has the arrays and relates the two. *)

From stdpp Require Import base list sorting.
From Stdlib Require Import ZArith Lia.
From S2P Require Import Prelude Hash MerkleAlgo.

Section Forest.
Context `{Sha256}.

(** ** Hashing a trie node *)

Definition hashBytes (parts : list bytes) : bytes := CalcSha256 parts.

(** A Go bit is a byte: 0 or 1. *)
Definition bit_byte (b : bool) : Z := if b then 1 else 0.

Definition generateLeafParts (n : node) : list bytes :=
  [node_value n; map bit_byte (node_path n)].

(** [copy] into a fresh array of 32 zero bytes. *)
Definition copy32 (src : bytes) : bytes :=
  take SHA256_HASH_SIZE_BYTES src ++ replicate (SHA256_HASH_SIZE_BYTES - length src) 0.

Definition generateNodeParts (n : node) : list bytes :=
  [copy32 (if isNil (node_left n) then [] else node_hash (node_left n));
   copy32 (if isNil (node_right n) then [] else node_hash (node_right n));
   map bit_byte (node_path n)].

Definition hashTrieNode (n : node) : bytes :=
  if isLeaf n then hashBytes (generateLeafParts n) else hashBytes (generateNodeParts n).

Definition createEmptyTrieNode : node :=
  let tmp := createNode [] zeroValueHash in setHash (hashTrieNode tmp) tmp.

(** ** Keys as bit strings *)

Definition toBinSize (s : bytes) : nat := length s * 8.

Definition toBin (s : bytes) (size : nat) : list bool :=
  map (fun i => Z.testbit (nth (i / 8) s 0) (Z.of_nat (7 - i mod 8))) (seq 0 size).

(** ** The forest *)

Record Forest := mkForest { roots : list node }.

Definition NewForest : Forest * bytes :=
  (mkForest [createEmptyTrieNode], node_hash createEmptyTrieNode).

(** The loop runs from the last root to the first. *)
Definition findRoot (f : Forest) (rootHash : bytes) : option node :=
  List.find (fun r => bool_decide (node_hash r = rootHash)) (rev (roots f)).

Definition appendRoot (f : Forest) (root : node) : Forest := mkForest (roots f ++ [root]).

Record TrieDiff := mkTrieDiff { Key : bytes; Value : bytes }.

Inductive forest_error := ErrMustStartWithValidRoot | ErrUnknownRoot.

Definition update_root (root : node) (diffs : list TrieDiff) : node :=
  let root := foldl (fun root diff =>
                       insert (Value diff) root (toBin (Key diff) (toBinSize (Key diff))))
                root diffs in
  let root := endSandbox (collapseAndHash hashTrieNode root) in
  if isNil root then createEmptyTrieNode else root.

Definition Update (f : Forest) (rootMerkle : bytes) (diffs : list TrieDiff)
    : outcome forest_error (Forest * bytes) :=
  match findRoot f rootMerkle with
  | None => Err ErrMustStartWithValidRoot
  | Some root =>
      let root := update_root root diffs in
      Ok (appendRoot f root, node_hash root)
  end.

(** The loop of [Forget] drops the first root with the hash. *)
Fixpoint forget_first (rootHash : bytes) (rs : list node) : list node :=
  match rs with
  | [] => []
  | r :: rs' => if bool_decide (node_hash r = rootHash) then rs' else r :: forget_first rootHash rs'
  end.

Definition Forget (f : Forest) (rootHash : bytes) : outcome forest_error Forest :=
  match roots f with
  | [] => Panic
  | r :: rs =>
      if bool_decide (node_hash r = rootHash) then Ok (mkForest rs)
      else Ok (mkForest (forget_first rootHash (roots f)))
  end.

(** ** Specification *)

(** The contents an update should produce: later diffs win. *)
Definition apply_diffs (m : list bool -> bytes) (diffs : list TrieDiff) : list bool -> bytes :=
  foldl (fun m diff k =>
           if decide (k = toBin (Key diff) (toBinSize (Key diff))) then Value diff else m k)
    m diffs.

(** A root between two updates: the empty trie, or a non-empty trie at rest. *)
Definition root_ok (r : node) : Prop :=
  r = createEmptyTrieNode \/ (r <> NilNode /\ clean hashTrieNode r).

Definition forest_ok (f : Forest) : Prop := Forall root_ok (roots f).

#[export] Instance hashTrieNode_hasher : NodeHasher hashTrieNode.
Proof.
  intros p v h h' l l' r r' sb sb' Hl Hlh Hr Hrh.
  unfold hashTrieNode, isLeaf, generateLeafParts, generateNodeParts. simpl.
  by rewrite Hl, Hlh, Hr, Hrh.
Qed.

Lemma get_createEmptyTrieNode k : get createEmptyTrieNode k = zeroValueHash.
Proof. unfold createEmptyTrieNode. simpl. by destruct k as [|[]]. Qed.

Lemma root_ok_tracked r : root_ok r -> r <> NilNode /\ tracked hashTrieNode r.
Proof. intros [->|[? ?]]; [done|]. by split; [|apply clean_tracked]. Qed.

Lemma root_ok_ext r1 r2 :
  root_ok r1 -> root_ok r2 -> (forall k, get r1 k = get r2 k) -> r1 = r2.
Proof.
  intros [->|[Hn1 Hc1]] [->|[Hn2 Hc2]] Hg; [done|..|by eapply clean_ext].
  - exfalso. apply Hn2, (clean_empty hashTrieNode); [done|].
    intros k. by rewrite <- Hg, get_createEmptyTrieNode.
  - exfalso. apply Hn1, (clean_empty hashTrieNode); [done|].
    intros k. by rewrite Hg, get_createEmptyTrieNode.
Qed.

Lemma inserts_spec root diffs :
  root <> NilNode -> tracked hashTrieNode root ->
  let root' := foldl (fun root diff =>
                 insert (Value diff) root (toBin (Key diff) (toBinSize (Key diff)))) root diffs in
  root' <> NilNode /\ tracked hashTrieNode root' /\
  forall k, get root' k = apply_diffs (get root) diffs k.
Proof.
  revert root. induction diffs as [|d diffs IH] using rev_ind; intros root Hn Ht; [done|].
  simpl. destruct (IH root Hn Ht) as (Hn' & Ht' & Hg). unfold apply_diffs.
  rewrite !foldl_app. simpl. split_and!.
  - by apply insert_not_nil.
  - by apply insert_tracked.
  - intros k. rewrite get_insert by done. unfold apply_diffs in Hg. by rewrite Hg.
Qed.

Lemma update_root_spec root diffs :
  root_ok root ->
  root_ok (update_root root diffs) /\
  forall k, get (update_root root diffs) k = apply_diffs (get root) diffs k.
Proof.
  intros [Hn Ht]%root_ok_tracked.
  destruct (inserts_spec root diffs Hn Ht) as (Hn' & Ht' & Hg).
  unfold update_root. revert Hn' Ht' Hg.
  generalize (foldl (fun root diff =>
    insert (Value diff) root (toBin (Key diff) (toBinSize (Key diff)))) root diffs) as root'.
  intros root' Hn' Ht' Hg.
  assert (forall k, get (endSandbox (collapseAndHash hashTrieNode root')) k
                    = apply_diffs (get root) diffs k) as Hget.
  { intros k. by rewrite get_endSandbox, get_collapse, Hg. }
  pose proof (collapse_clean hashTrieNode root' Ht') as Hc.
  destruct (isNil _) eqn:E.
  - split; [by left|]. intros k. rewrite <- Hget, get_createEmptyTrieNode.
    by destruct (endSandbox _).
  - apply isNil_false in E. split; [by right|done].
Qed.

Lemma findRoot_ok f h r : forest_ok f -> findRoot f h = Some r -> root_ok r /\ node_hash r = h.
Proof.
  intros Hf Hr. apply find_some in Hr as [Hin Heq%bool_decide_eq_true].
  split; [|done]. apply in_rev in Hin. unfold forest_ok in Hf.
  rewrite List.Forall_forall in Hf. by apply Hf.
Qed.
Lemma findRoot_appendRoot f r : findRoot (appendRoot f r) (node_hash r) = Some r.
Proof.
  unfold findRoot, appendRoot. simpl. rewrite rev_app_distr. simpl.
  by rewrite bool_decide_eq_true_2.
Qed.

Lemma findRoot_newest f r : last (roots f) = Some r -> findRoot f (node_hash r) = Some r.
Proof.
  intros (rs & E)%last_Some. unfold findRoot. rewrite E, rev_app_distr. simpl.
  by rewrite bool_decide_eq_true_2.
Qed.

Lemma newest_ok f r : forest_ok f -> last (roots f) = Some r -> root_ok r.
Proof. intros Hf Hr%findRoot_newest. by destruct (findRoot_ok _ _ _ Hf Hr). Qed.

Lemma apply_diffs_ext m m' diffs k :
  (forall k, m k = m' k) -> apply_diffs m diffs k = apply_diffs m' diffs k.
Proof.
  revert m m'. induction diffs as [|d diffs IH]; intros m m' Hm; [apply Hm|].
  simpl. apply IH. intros k'. by case_decide.
Qed.

(** Diffs with pairwise different keys commute. *)
Lemma apply_diffs_perm m diffs1 diffs2 k :
  diffs1 ≡ₚ diffs2 ->
  NoDup (map (fun d => toBin (Key d) (toBinSize (Key d))) diffs1) ->
  apply_diffs m diffs1 k = apply_diffs m diffs2 k.
Proof.
  intros Hp. revert m. induction Hp as [|x l1 l2 Hp IH|x y l|l1 l2 l3 Hp1 IH1 Hp2 IH2];
    intros m Hnd; simpl in *.
  - done.
  - apply NoDup_cons in Hnd as [_ Hnd]. by apply IH.
  - apply NoDup_cons in Hnd as [Hx _]. apply not_elem_of_cons in Hx as [Hx _].
    apply apply_diffs_ext. intros k'. repeat case_decide; congruence.
  - rewrite IH1 by done. apply IH2.
    by rewrite <- (Permutation_map (fun d => toBin (Key d) (toBinSize (Key d))) Hp1).
Qed.

(** ** Keys *)

Lemma toBin_length s size : length (toBin s size) = size.
Proof. unfold toBin. by rewrite length_map, length_seq. Qed.

Lemma toBin_bit s size i :
  (i < size)%nat ->
  nth i (toBin s size) false = Z.testbit (nth (i / 8) s 0) (Z.of_nat (7 - i mod 8)).
Proof.
  intros Hi. unfold toBin.
  rewrite (nth_indep _ false (Z.testbit (nth (0 / 8) s 0) (Z.of_nat (7 - 0 mod 8))))
    by by rewrite length_map, length_seq.
  rewrite (map_nth (fun i => Z.testbit (nth (i / 8) s 0) (Z.of_nat (7 - i mod 8)))).
  by rewrite seq_nth by done.
Qed.

Lemma byte_bits_inj a b :
  0 <= a < 256 -> 0 <= b < 256 ->
  (forall j, (j < 8)%nat -> Z.testbit a (Z.of_nat (7 - j)) = Z.testbit b (Z.of_nat (7 - j))) ->
  a = b.
Proof.
  intros Ha Hb Hbits. apply Z.bits_inj'. intros n Hn.
  destruct (Z.lt_ge_cases n 8) as [Hlt|Hge].
  - specialize (Hbits (7 - Z.to_nat n)%nat ltac:(lia)).
    by replace (Z.of_nat (7 - (7 - Z.to_nat n))) with n in Hbits by lia.
  - rewrite !Z.bits_above_log2; try done; try lia.
    all: match goal with |- Z.log2 ?x < _ =>
      destruct (Z.eq_dec x 0) as [->|]; [simpl; lia|];
      pose proof (Z.log2_lt_pow2 x 8 ltac:(lia)) as [Hlog _];
      specialize (Hlog ltac:(lia)); lia end.
Qed.

Lemma toBin_inj s t :
  valid_bytes s -> valid_bytes t ->
  toBin s (toBinSize s) = toBin t (toBinSize t) -> s = t.
Proof.
  intros Hs Ht E.
  assert (length s = length t) as Hlen.
  { apply (f_equal length) in E. rewrite !toBin_length in E. unfold toBinSize in E. lia. }
  apply (nth_ext s t 0 0 Hlen). intros i Hi.
  unfold valid_bytes in Hs, Ht. rewrite List.Forall_forall in Hs, Ht.
  apply byte_bits_inj; [apply Hs, nth_In; lia|apply Ht, nth_In; lia|].
  intros j Hj. apply (f_equal (fun l => nth (i * 8 + j) l false)) in E.
  unfold toBinSize in E. rewrite !toBin_bit in E by lia.
  assert (Nat.div (i * 8 + j) 8 = i) as Hdiv.
  { rewrite Nat.div_add_l by lia. rewrite Nat.div_small by lia. lia. }
  assert (Nat.modulo (i * 8 + j) 8 = j) as Hmod.
  { rewrite Nat.add_comm, Nat.Div0.mod_add. by apply Nat.mod_small. }
  by rewrite Hdiv, Hmod in E.
Qed.

Lemma toBin_keys_NoDup diffs :
  Forall (fun d => valid_bytes (Key d)) diffs -> NoDup (map Key diffs) ->
  NoDup (map (fun d => toBin (Key d) (toBinSize (Key d))) diffs).
Proof.
  induction diffs as [|d diffs IH]; simpl; [constructor|].
  intros [Hd Hv]%Forall_cons [Hnin Hnd]%NoDup_cons. apply NoDup_cons; split; [|by apply IH].
  intros Hin. apply Hnin. apply list_elem_of_fmap in Hin as (d' & E & Hd').
  apply list_elem_of_fmap. exists d'. split; [|done]. apply toBin_inj; [done| |done].
  rewrite Forall_forall in Hv. by apply Hv.
Qed.

(** ** Properties of [Update] *)


(** The root hash does not depend on the order in which the diffs of a block
    are applied: any permutation of diffs with different (well-formed) keys gives
    the same root, hash included. *)
Theorem Update_order_independent f r diffs1 diffs2 :
  forest_ok f -> last (roots f) = Some r -> diffs1 ≡ₚ diffs2 ->
  Forall (fun d => valid_bytes (Key d)) diffs1 -> NoDup (map Key diffs1) ->
  Update f (node_hash r) diffs1 = Update f (node_hash r) diffs2.
Proof.
  intros Hf Hr Hp Hv Hnd. unfold Update. rewrite findRoot_newest by done.
  pose proof (newest_ok f r Hf Hr) as Hok.
  destruct (update_root_spec r diffs1 Hok) as [Hok1 Hg1],
    (update_root_spec r diffs2 Hok) as [Hok2 Hg2].
  by rewrite (root_ok_ext _ _ Hok1 Hok2
    (fun k => eq_trans (Hg1 k) (eq_trans (apply_diffs_perm _ _ _ _ Hp (toBin_keys_NoDup _ Hv Hnd)) (eq_sym (Hg2 k))))).
Qed.

(** Forests built by the exported operations, each revision from the one before. *)
Inductive forest_reachable : Forest -> Prop :=
| reach_new : forest_reachable (fst NewForest)
| reach_update f r diffs f' h' :
    forest_reachable f -> last (roots f) = Some r -> Update f (node_hash r) diffs = Ok (f', h') ->
    forest_reachable f'
| reach_forget f h f' :
    forest_reachable f -> Forget f h = Ok f' -> forest_reachable f'.

Lemma forget_first_incl h rs r : r ∈ forget_first h rs -> r ∈ rs.
Proof.
  induction rs as [|x rs IH]; simpl; [done|].
  case_bool_decide; [by right|]. intros [->|?]%elem_of_cons; [by left|right; auto].
Qed.

Lemma forest_reachable_ok f : forest_reachable f -> forest_ok f.
Proof.
  induction 1 as [|f r diffs f' h' Hr IH Hlast HU|f h f' Hr IH HF].
  - by apply Forall_singleton; left.
  - unfold Update in HU. rewrite findRoot_newest in HU by done. simplify_eq.
    apply Forall_app. split; [done|]. apply Forall_singleton.
    apply update_root_spec. by apply (newest_ok f).
  - unfold Forget in HF. destruct (roots f) as [|r rs] eqn:Hrs; [done|].
    unfold forest_ok in *. rewrite Hrs in IH.
    case_bool_decide; simplify_eq; simpl.
    + by apply Forall_cons in IH as [_ ?].
    + rewrite Forall_forall in IH |- *. intros x Hx. apply IH.
      apply (forget_first_incl h (r :: rs)). done.
Qed.

(** Two forests whose newest revisions have the same contents have the same
    newest root hash, whatever updates, in whatever order, led to them. *)
Theorem forest_root_by_contents f1 f2 r1 r2 :
  forest_reachable f1 -> forest_reachable f2 -> last (roots f1) = Some r1 -> last (roots f2) = Some r2 ->
  (forall k, get r1 k = get r2 k) -> node_hash r1 = node_hash r2.
Proof.
  intros H1%forest_reachable_ok H2%forest_reachable_ok Hr1 Hr2 Hg.
  f_equal. apply root_ok_ext; [by apply (newest_ok f1)|by apply (newest_ok f2)|done].
Qed.

Lemma NewForest_ok : forest_ok (fst NewForest).
Proof. by apply Forall_singleton; left. Qed.

Lemma reach_update_root f r diffs :
  forest_reachable f -> last (roots f) = Some r -> forest_reachable (appendRoot f (update_root r diffs)).
Proof.
  intros Hf Hr. apply (reach_update f r diffs _ (node_hash (update_root r diffs)) Hf Hr).
  unfold Update. by rewrite findRoot_newest.
Qed.

End Forest.

(** ** Witnesses *)

Section Witness.
#[local] Existing Instance crypto_sha256.


Lemma Update_order_independent_witness :
  Update (fst NewForest) (snd NewForest) [mkTrieDiff [1] [7]; mkTrieDiff [2] [8]] =
  Update (fst NewForest) (snd NewForest) [mkTrieDiff [2] [8]; mkTrieDiff [1] [7]].
Proof.
  apply (Update_order_independent (fst NewForest) createEmptyTrieNode).
  - apply NewForest_ok.
  - reflexivity.
  - apply Permutation_swap.
  - repeat constructor; simpl; lia.
  - simpl. apply NoDup_cons. split; [by rewrite list_elem_of_singleton|apply NoDup_singleton].
Defined.

(** One block with two diffs, and two blocks with one diff each. *)
Lemma forest_root_by_contents_witness :
  let E := createEmptyTrieNode in
  let d1 := mkTrieDiff [1] [7] in let d2 := mkTrieDiff [2] [8] in
  node_hash (update_root E [d1; d2]) = node_hash (update_root (update_root E [d1]) [d2]).
Proof.
  intros E d1 d2.
  apply (forest_root_by_contents (appendRoot (fst NewForest) (update_root E [d1; d2]))
           (appendRoot (appendRoot (fst NewForest) (update_root E [d1])) (update_root (update_root E [d1]) [d2]))).
  - apply (reach_update_root _ _ _ reach_new eq_refl).
  - apply reach_update_root; [|apply last_snoc]. apply (reach_update_root _ _ _ reach_new eq_refl).
  - apply last_snoc.
  - apply last_snoc.
  - intros k. assert (root_ok E) as HE by by left.
    destruct (update_root_spec E [d1] HE) as [H1 G1].
    rewrite (proj2 (update_root_spec E [d1; d2] HE)), (proj2 (update_root_spec _ [d2] H1)).
    change (apply_diffs (get E) [d1; d2] k) with (apply_diffs (apply_diffs (get E) [d1]) [d2] k).
    apply apply_diffs_ext. intros k'. by rewrite G1.
Defined.
End Witness.
