(* ===== verification/MerkleSlices.v ===== *)
(** * Shared path arrays of the Merkle forest (crypto/merkle)

    The path of a node is a Go slice: an offset and a length in an array that
    other nodes share, those of older revisions included.  Inserting only slices
    paths again; [collapseOnlyChild] appends to one, which writes into the array
    behind it when its capacity allows.  This file has the trie operations with
    the arrays in a store, and relates them to the ones with paths as values. *)

From stdpp Require Import base list.
From Stdlib Require Import ZArith Lia.
From S2P Require Import Prelude Hash MerkleAlgo MerkleForest.

Local Open Scope nat_scope.

(** ** Slices *)

(** The arrays in order of allocation. *)
Abbreviation arrays := (list (list bool)).

Record slice := mkSlice { sl_array : nat; sl_off : nat; sl_len : nat }.

Definition cells (σ : arrays) (a : nat) : list bool := default [] (σ !! a).

Definition read (σ : arrays) (s : slice) : list bool := take (sl_len s) (drop (sl_off s) (cells σ (sl_array s))).

Definition capacity (σ : arrays) (s : slice) : nat := length (cells σ (sl_array s)) - sl_off s.

(** [s[k:]] and [s[:k]]: both reach to the end of the array. *)
Definition slice_from (s : slice) (k : nat) : slice := mkSlice (sl_array s) (sl_off s + k) (sl_len s - k).
Definition slice_to (s : slice) (k : nat) : slice := mkSlice (sl_array s) (sl_off s) k.

Definition make_slice (σ : arrays) (bits : list bool) : arrays * slice :=
  (σ ++ [bits], mkSlice (length σ) 0 (length bits)).

Definition overwrite (i : nat) (bits l : list bool) : list bool :=
  take i l ++ bits ++ drop (i + length bits) l.

Section Slices.
Context `{Sha256}.

(** How much an array that is full grows is up to the Go runtime: [grow] gives
    the capacity for an old capacity and a needed one, when it is not less. *)
Context (grow : nat -> nat -> nat).

Definition append (σ : arrays) (s : slice) (bits : list bool) : arrays * slice :=
  let n := sl_len s + length bits in
  if n <=? capacity σ s then
    (alter (overwrite (sl_off s + sl_len s) bits) (sl_array s) σ, mkSlice (sl_array s) (sl_off s) n)
  else
    (σ ++ [read σ s ++ bits ++ replicate (grow (capacity σ s) n - n) false], mkSlice (length σ) 0 n).

(** ** Tries *)

Inductive snode : Type :=
| SNil
| SNode (path : slice) (value hash : bytes) (left right : snode) (sandboxed : option dirtyNode).

Definition s_isNil (n : snode) : bool := match n with SNil => true | _ => false end.
Definition s_hash (n : snode) : bytes := match n with SNil => [] | SNode _ _ h _ _ _ => h end.
Definition s_inSandbox (n : snode) : bool :=
  match n with SNode _ _ _ _ _ (Some _) => true | _ => false end.
Definition s_setChild (bit : bool) (child n : snode) : snode :=
  match n with
  | SNil => SNil
  | SNode p v h l r sb => if bit then SNode p v h l child sb else SNode p v h child r sb
  end.
Definition s_createNode (path : slice) (valueHash : bytes) : snode :=
  SNode path valueHash [] SNil SNil None.
Definition s_setHash (hash : bytes) (n : snode) : snode :=
  match n with SNil => SNil | SNode p v _ l r sb => SNode p v hash l r sb end.

(** The trie that the nodes are in some state of the arrays. *)
Fixpoint erase (σ : arrays) (n : snode) : node :=
  match n with
  | SNil => NilNode
  | SNode p v h l r sb => Node (read σ p) v h (erase σ l) (erase σ r) sb
  end.

Fixpoint s_insert (σ : arrays) (valueHash : bytes) (current : snode) (path : slice) : snode :=
  match current with
  | SNil => SNil
  | SNode p v h l r sb =>
      let h := if s_inSandbox current then h else [] in
      let d := default (mkDirty false false) sb in
      if bool_decide (read σ p = read σ path) then SNode p valueHash h l r (Some d)
      else if hasPrefix (read σ path) (read σ p) then
        if bool_decide (zeroValueHash = v) && (s_isNil l && s_isNil r) then SNode path valueHash h l r (Some d)
        else
          match drop (sl_len p) (read σ path) with
          | [] => SNode p v h l r (Some d)
          | childArc :: _ =>
              let childPath := slice_from path (sl_len p + 1) in
              let child := if childArc then r else l in
              if negb (s_isNil child) then
                let d := if s_inSandbox child then d else mark childArc d in
                s_setChild childArc
                  (if childArc then s_insert σ valueHash r childPath else s_insert σ valueHash l childPath)
                  (SNode p v h l r (Some d))
              else if bool_decide (valueHash = zeroValueHash) then SNode p v h l r (Some d)
              else s_setChild childArc (s_createNode childPath valueHash)
                     (SNode p v h l r (Some (mark childArc d)))
          end
      else if hasPrefix (read σ p) (read σ path) then
        match drop (sl_len path) (read σ p) with
        | [] => SNode p v h l r (Some d)
        | childArc :: _ =>
            s_setChild childArc (SNode (slice_from p (sl_len path + 1)) v h l r (Some d))
              (SNode path valueHash [] SNil SNil (Some (mark childArc (mkDirty false false))))
        end
      else
        let prefixLastIndex := commonPathIndex (read σ p) (read σ path) in
        match drop prefixLastIndex (read σ p), drop prefixLastIndex (read σ path) with
        | newCurrentArc :: _, newChildArc :: _ =>
            s_setChild newChildArc (s_createNode (slice_from path (prefixLastIndex + 1)) valueHash)
              (s_setChild newCurrentArc (SNode (slice_from p (prefixLastIndex + 1)) v h l r (Some d))
                 (SNode (slice_to path prefixLastIndex) zeroValueHash [] SNil SNil
                    (Some (mark newChildArc (mark newCurrentArc (mkDirty false false))))))
        | _, _ => SNode p v h l r (Some d)
        end
  end.

Definition s_collapseOnlyChild (σ : arrays) (p : slice) (onlyChild : bool) (child : snode) : arrays * snode :=
  let '(σ, combinedPath) := append σ p [onlyChild] in
  match child with
  | SNil => (σ, SNil)
  | SNode cp v _ l r _ =>
      let '(σ, combinedPath) := append σ combinedPath (read σ cp) in
      (σ, SNode combinedPath v [] l r None)
  end.

(** The hasher reads the arrays as they are when it is called. *)
Definition s_hashed (f : node -> bytes) (result : arrays * snode) : arrays * snode :=
  let '(σ, n) := result in (σ, s_setHash (f (erase σ n)) n).

(** The part of [collapseAndHash] after the children were processed. *)
Definition s_collapse_finish (f : node -> bytes) (σ : arrays) (p : slice) (v h : bytes) (l r : snode)
    (sb : option dirtyNode) : arrays * snode :=
  if bool_decide (zeroValueHash = v) then
    if s_isNil l && s_isNil r then (σ, SNil)
    else if negb (s_isNil l) && s_isNil r then s_hashed f (s_collapseOnlyChild σ p false l)
    else if s_isNil l && negb (s_isNil r) then s_hashed f (s_collapseOnlyChild σ p true r)
    else s_hashed f (σ, SNode p v h l r sb)
  else s_hashed f (σ, SNode p v h l r sb).

(** A leaf has no children to collapse. *)
Fixpoint s_collapseAndHash (f : node -> bytes) (σ : arrays) (current : snode) : arrays * snode :=
  match current with
  | SNil => (σ, SNil)
  | SNode p v h l r sb =>
      let dirty := default (mkDirty false false) sb in
      let '(σ, l) := if dirty_left dirty then s_collapseAndHash f σ l else (σ, l) in
      let '(σ, r) := if dirty_right dirty then s_collapseAndHash f σ r else (σ, r) in
      s_collapse_finish f σ p v h l r sb
  end.

(** The sandbox is dropped at the end of an update. *)
Fixpoint s_endSandbox (n : snode) : snode :=
  match n with
  | SNil => SNil
  | SNode p v h l r _ => SNode p v h (s_endSandbox l) (s_endSandbox r) None
  end.

(** ** The forest *)

Record SForest := mkSForest { s_roots : list snode; s_arrays : arrays }.

Definition s_createEmptyTrieNode (σ : arrays) : arrays * snode :=
  let '(σ, path) := make_slice σ [] in
  s_hashed hashTrieNode (σ, s_createNode path zeroValueHash).

Definition s_NewForest : SForest * bytes :=
  let '(σ, emptyNode) := s_createEmptyTrieNode [] in (mkSForest [emptyNode] σ, s_hash emptyNode).

Definition s_findRoot (f : SForest) (rootHash : bytes) : option snode :=
  List.find (fun r => bool_decide (s_hash r = rootHash)) (rev (s_roots f)).

(** [toBin] makes a new array for every key. *)
Definition s_insert_diff (state : arrays * snode) (diff : TrieDiff) : arrays * snode :=
  let '(σ, root) := state in
  let '(σ, path) := make_slice σ (toBin (Key diff) (toBinSize (Key diff))) in
  (σ, s_insert σ (Value diff) root path).

Definition s_update_root (σ : arrays) (root : snode) (diffs : list TrieDiff) : arrays * snode :=
  let '(σ, root) := foldl s_insert_diff (σ, root) diffs in
  let '(σ, root) := s_collapseAndHash hashTrieNode σ root in
  let root := s_endSandbox root in
  if s_isNil root then s_createEmptyTrieNode σ else (σ, root).

Definition s_Update (f : SForest) (rootMerkle : bytes) (diffs : list TrieDiff)
    : outcome forest_error (SForest * bytes) :=
  match s_findRoot f rootMerkle with
  | None => Err ErrMustStartWithValidRoot
  | Some root =>
      let '(σ, root) := s_update_root (s_arrays f) root diffs in
      Ok (mkSForest (s_roots f ++ [root]) σ, s_hash root)
  end.

Fixpoint s_forget_first (rootHash : bytes) (rs : list snode) : list snode :=
  match rs with
  | [] => []
  | r :: rs' => if bool_decide (s_hash r = rootHash) then rs' else r :: s_forget_first rootHash rs'
  end.

Definition s_Forget (f : SForest) (rootHash : bytes) : outcome forest_error SForest :=
  match s_roots f with
  | [] => Panic
  | r :: rs =>
      if bool_decide (s_hash r = rootHash) then Ok (mkSForest rs (s_arrays f))
      else Ok (mkSForest (s_forget_first rootHash (s_roots f)) (s_arrays f))
  end.

(** ** Slices and the store *)

Definition valid (σ : arrays) (s : slice) : Prop :=
  sl_array s < length σ /\ sl_off s + sl_len s <= length (cells σ (sl_array s)).

(** [keeps P σ σ']: no array is dropped or resized, and the cells in [P] stay. *)
Definition keeps (P : nat -> nat -> Prop) (σ σ' : arrays) : Prop :=
  length σ <= length σ' /\
  forall a, a < length σ ->
    length (cells σ' a) = length (cells σ a) /\ forall i, P a i -> cells σ' a !! i = cells σ a !! i.

Lemma keeps_refl P σ : keeps P σ σ.
Proof. split; [done|]. by intros. Qed.

Lemma keeps_weaken (P Q : nat -> nat -> Prop) σ σ' :
  keeps P σ σ' -> (forall a i, a < length σ -> Q a i -> P a i) -> keeps Q σ σ'.
Proof. intros [Hl Hk] HQ. split; [done|]. intros a Ha. destruct (Hk a Ha) as [? Hc]. split; [done|]. eauto. Qed.

Lemma keeps_trans (P Q : nat -> nat -> Prop) σ1 σ2 σ3 :
  keeps P σ1 σ2 -> keeps Q σ2 σ3 -> (forall a i, a < length σ1 -> P a i -> Q a i) -> keeps P σ1 σ3.
Proof.
  intros [Hl1 Hk1] [Hl2 Hk2] HQ. split; [lia|]. intros a Ha.
  destruct (Hk1 a Ha) as [? Hc1], (Hk2 a ltac:(lia)) as [? Hc2]. split; [congruence|].
  intros i Hi. rewrite Hc2, Hc1 by auto. done.
Qed.

Lemma cells_app_l σ τ a : a < length σ -> cells (σ ++ τ) a = cells σ a.
Proof. intros. unfold cells. by rewrite lookup_app_l. Qed.

Lemma cells_app_new σ x : cells (σ ++ [x]) (length σ) = x.
Proof. unfold cells. by rewrite lookup_app_r, Nat.sub_diag. Qed.

Lemma keeps_app P σ τ : keeps P σ (σ ++ τ).
Proof. split; [rewrite length_app; lia|]. intros a Ha. by rewrite cells_app_l. Qed.

Lemma read_length σ s : valid σ s -> length (read σ s) = sl_len s.
Proof. intros [_ Hv]. unfold read. rewrite length_take, length_drop. lia. Qed.

Lemma read_lookup σ s i : i < sl_len s -> read σ s !! i = cells σ (sl_array s) !! (sl_off s + i).
Proof. intros. unfold read. by rewrite lookup_take, decide_True, lookup_drop. Qed.

Lemma read_kept P σ σ' s :
  valid σ s -> keeps P σ σ' ->
  (forall i, sl_off s <= i < sl_off s + sl_len s -> P (sl_array s) i) ->
  read σ' s = read σ s /\ valid σ' s.
Proof.
  intros [Ha Hv] [Hl Hk] HP. destruct (Hk _ Ha) as [Hlen Hc].
  assert (valid σ' s) as Hv' by (split; lia). split; [|done].
  apply list_eq_same_length with (n := sl_len s); [by apply read_length..|].
  intros i x y Hi. rewrite !read_lookup by done. rewrite Hc by (apply HP; lia). congruence.
Qed.

Lemma read_slice_from σ s k : read σ (slice_from s k) = drop k (read σ s).
Proof. unfold read. simpl. by rewrite skipn_firstn_comm, drop_drop. Qed.

Lemma read_slice_to σ s k : k <= sl_len s -> read σ (slice_to s k) = take k (read σ s).
Proof. intros. unfold read. simpl. by rewrite take_take, Nat.min_l. Qed.

Lemma valid_slice_from σ s k : valid σ s -> k <= sl_len s -> valid σ (slice_from s k).
Proof. intros [? ?] ?. split; simpl; lia. Qed.

Lemma valid_slice_to σ s k : valid σ s -> k <= sl_len s -> valid σ (slice_to s k).
Proof. intros [? ?] ?. split; simpl; lia. Qed.

Lemma make_slice_spec σ bits :
  let '(σ', s) := make_slice σ bits in
  valid σ' s /\ read σ' s = bits /\ sl_array s = length σ /\ sl_off s = 0 /\ length σ < length σ'.
Proof.
  unfold valid, read. simpl. rewrite cells_app_new, length_app, drop_0, take_ge by lia. simpl. split_and!; done || lia.
Qed.

Lemma overwrite_length i bits l : i + length bits <= length l -> length (overwrite i bits l) = length l.
Proof. intros. unfold overwrite. rewrite !length_app, length_take, length_drop. lia. Qed.

Lemma overwrite_lookup i bits l j :
  j < i \/ i + length bits <= j -> i + length bits <= length l -> overwrite i bits l !! j = l !! j.
Proof.
  intros Hj Hl. unfold overwrite. destruct Hj as [Hj|Hj].
  - rewrite lookup_app_l by (rewrite length_take; lia). by rewrite lookup_take, decide_True.
  - rewrite lookup_app_r by (rewrite length_take; lia). rewrite length_take, Nat.min_l by lia.
    rewrite lookup_app_r by lia. rewrite lookup_drop. f_equal. lia.
Qed.

Lemma cells_alter g σ a b :
  cells (alter g a σ) b = if decide (a = b /\ a < length σ) then g (cells σ b) else cells σ b.
Proof.
  unfold cells. case_decide as Hd.
  - destruct Hd as [-> Hb]. rewrite list_lookup_alter_eq. destruct (lookup_lt_is_Some_2 σ b Hb) as [x Hx].
    by rewrite Hx.
  - destruct (decide (a = b)) as [->|Hne]; [|by rewrite list_lookup_alter_ne].
    rewrite list_lookup_alter_eq. by rewrite (lookup_ge_None_2 σ b) by lia.
Qed.

(** Cells outside the ones [append] fills. *)
Definition outside (s : slice) (n : nat) (a i : nat) : Prop :=
  a <> sl_array s \/ i < sl_off s + sl_len s \/ sl_off s + sl_len s + n <= i.

Lemma append_spec σ s bits :
  valid σ s ->
  let '(σ', s') := append σ s bits in
  valid σ' s' /\ read σ' s' = read σ s ++ bits /\ sl_len s' = sl_len s + length bits /\
  keeps (outside s (length bits)) σ σ' /\
  ((sl_array s' = sl_array s /\ sl_off s' = sl_off s) \/ (length σ <= sl_array s' /\ sl_off s' = 0)).
Proof.
  intros [Ha Hv]. unfold append, capacity. destruct (Nat.leb_spec (sl_len s + length bits) (length (cells σ (sl_array s)) - sl_off s)) as [Hc|Hc].
  - unfold valid, read, keeps. simpl. rewrite length_alter, cells_alter, decide_True by done.
    rewrite overwrite_length by lia. split_and!; try lia; try done.
    + unfold overwrite. rewrite drop_app_le by (rewrite length_take; lia).
      rewrite (take_app_add' _ _ (sl_len s) (length bits)) by (rewrite length_drop, length_take; lia).
      rewrite take_app_le by lia. rewrite (take_ge bits) by lia. f_equal.
      rewrite skipn_firstn_comm. f_equal. lia.
    + intros a _. rewrite cells_alter. case_decide as Hd; [|by split].
      destruct Hd as [<- _]. split; [by rewrite overwrite_length by lia|].
      intros i [?|Hi]; [done|]. apply overwrite_lookup; lia.
  - unfold valid, read. simpl. rewrite cells_app_new. split_and!.
    + rewrite length_app. simpl. lia.
    + rewrite !length_app, length_take, length_drop. lia.
    + rewrite drop_0, app_assoc, take_app_le by (rewrite length_app, length_take, length_drop; lia).
      apply take_ge. rewrite length_app, length_take, length_drop. lia.
    + done.
    + apply keeps_app.
    + right. lia.
Qed.

(** ** Where the paths of a trie are

    An array holds paths of one branch only, and a cell of it belongs to one
    depth of the trie: [base a] is the depth of the first cell of array [a]. *)

Fixpoint uses (n : snode) (a : nat) : Prop :=
  match n with SNil => False | SNode p _ _ l r _ => sl_array p = a \/ uses l a \/ uses r a end.

Fixpoint placed (σ : arrays) (base : nat -> nat) (d : nat) (n : snode) : Prop :=
  match n with
  | SNil => True
  | SNode p _ _ l r _ =>
      valid σ p /\ base (sl_array p) + sl_off p = d /\ (forall a, uses l a -> uses r a -> False) /\
      placed σ base (d + sl_len p + 1) l /\ placed σ base (d + sl_len p + 1) r
  end.

Lemma placed_uses σ base d n a : placed σ base d n -> uses n a -> a < length σ.
Proof.
  revert d. induction n as [|p v h l IHl r IHr sb]; intros d; [done|].
  intros ([Hp _] & _ & _ & Hl & Hr) [<-|[Hu|Hu]]; eauto.
Qed.

(** A trie is not changed by writes at smaller depths or into other arrays. *)
Lemma placed_kept P σ σ' base base' d n :
  placed σ base d n -> keeps P σ σ' ->
  (forall a i, uses n a -> d <= base a + i -> P a i) -> (forall a, uses n a -> base' a = base a) ->
  placed σ' base' d n /\ erase σ' n = erase σ n.
Proof.
  intros Hn Hk. revert d Hn. induction n as [|p v h l IHl r IHr sb]; intros d; [done|].
  intros (Hp & Hb & Hd & Hl & Hr) HP Hbase. cbn [uses placed erase] in *.
  destruct (read_kept P σ σ' p Hp Hk) as [Hread Hp']; [intros i Hi; apply HP; [by left|lia]|].
  destruct (IHl _ Hl) as [Hl' ->]; [intros; apply HP; [tauto|lia]|intros; apply Hbase; tauto|].
  destruct (IHr _ Hr) as [Hr' ->]; [intros; apply HP; [tauto|lia]|intros; apply Hbase; tauto|].
  rewrite Hread, Hbase by by left. done.
Qed.

Lemma isNil_erase σ n : isNil (erase σ n) = s_isNil n.
Proof. by destruct n. Qed.

Lemma inSandbox_erase σ n : inSandbox (erase σ n) = s_inSandbox n.
Proof. destruct n as [|? ? ? ? ? [d|]]; done. Qed.

Lemma erase_setChild σ arc c n : erase σ (s_setChild arc c n) = setChild arc (erase σ c) (erase σ n).
Proof. by destruct n, arc. Qed.

Lemma getOrClone_erase σ p v h l r sb :
  getOrClone (erase σ (SNode p v h l r sb)) =
  erase σ (SNode p v (if s_inSandbox (SNode p v h l r sb) then h else []) l r
             (Some (default (mkDirty false false) sb))).
Proof. by destruct sb. Qed.

Lemma read_rest σ s k x rest : drop k (read σ s) = x :: rest -> read σ (slice_from s (k + 1)) = rest.
Proof. intros E. by rewrite read_slice_from, <- drop_drop, E. Qed.

(** Inserting only reads the arrays: it is insertion into the trie they hold. *)
Lemma s_insert_erase σ base d valueHash n path :
  placed σ base d n -> valid σ path ->
  erase σ (s_insert σ valueHash n path) = insert valueHash (erase σ n) (read σ path).
Proof.
  revert d path. induction n as [|p v h l IHl r IHr sb]; intros d path Hn Hpath; [done|].
  destruct Hn as (Hp & _ & _ & Hl & Hr). cbn [s_insert].
  change (erase σ (SNode p v h l r sb)) with (Node (read σ p) v h (erase σ l) (erase σ r) sb) at 1.
  cbn [insert]. change (Node (read σ p) v h (erase σ l) (erase σ r) sb) with (erase σ (SNode p v h l r sb)).
  rewrite getOrClone_erase. generalize (if s_inSandbox (SNode p v h l r sb) then h else []) as h'.
  generalize (default (mkDirty false false) sb) as dirty. intros dirty h'. cbn [erase].
  unfold shouldUpdateCurrent, shouldUpdateOrCreateChild, shouldCreateParent. cbn [node_path].
  case_bool_decide; [done|]. destruct (hasPrefix (read σ path) (read σ p)).
  { unfold updateOrCreateChild, hasValue, isLeaf. cbn [node_path node_value node_left node_right].
    rewrite negb_involutive, !isNil_erase. destruct (_ && _); [done|]. rewrite read_length by done.
    destruct (drop (sl_len p) (read σ path)) as [|arc rest] eqn:E; [done|].
    assert (sl_len p + 1 <= sl_len path).
    { apply (f_equal length) in E. rewrite length_drop, read_length in E by done. simpl in E. lia. }
    pose proof (read_rest _ _ _ _ _ E) as Hrest.
    pose proof (valid_slice_from σ path (sl_len p + 1) Hpath ltac:(done)) as Hv.
    assert (getChild arc (Node (read σ p) v h' (erase σ l) (erase σ r) (Some dirty)) =
            erase σ (if arc then r else l)) as -> by by destruct arc.
    rewrite isNil_erase, inSandbox_erase. destruct (negb (s_isNil _)).
    - rewrite erase_setChild. destruct arc; cbn [erase];
        [rewrite (IHr _ _ Hr Hv)|rewrite (IHl _ _ Hl Hv)]; rewrite Hrest;
        by destruct (s_inSandbox _).
    - case_bool_decide; [done|]. rewrite erase_setChild. cbn [erase s_createNode].
      rewrite Hrest. by destruct arc. }
  destruct (hasPrefix (read σ p) (read σ path)).
  { unfold createParent. cbn [node_path]. rewrite read_length by done.
    destruct (drop (sl_len path) (read σ p)) as [|arc rest] eqn:E; [done|].
    rewrite erase_setChild. cbn [erase]. rewrite (read_rest _ _ _ _ _ E). by destruct arc. }
  unfold createParentAndSibling, lastCommonPathIndex. cbn [node_path].
  set (k := commonPathIndex _ _).
  destruct (drop k (read σ p)) as [|x s] eqn:Ep; [done|].
  destruct (drop k (read σ path)) as [|y t'] eqn:Ek; [done|].
  assert (k <= sl_len path).
  { apply (f_equal length) in Ek. rewrite length_drop, read_length in Ek by done. simpl in Ek. lia. }
  rewrite !erase_setChild. cbn [erase s_createNode].
  rewrite (read_rest _ _ _ _ _ Ep), (read_rest _ _ _ _ _ Ek), read_slice_to by done. by destruct x, y.
Qed.

Lemma placed_setChild σ base d (arc : bool) c p v h l r sb :
  placed σ base d (SNode p v h l r sb) -> placed σ base (d + sl_len p + 1) c ->
  (forall a, uses c a -> uses (if arc then l else r) a -> False) ->
  placed σ base d (s_setChild arc c (SNode p v h l r sb)).
Proof.
  intros (Hp & Hb & Hd & Hl & Hr) Hc Hdisj. destruct arc; cbn in *; split_and!; try done.
  intros a ? ?. by apply (Hdisj a).
Qed.

Lemma uses_setChild arc c p v h l r sb a :
  uses (s_setChild arc c (SNode p v h l r sb)) a -> uses c a \/ uses (SNode p v h l r sb) a.
Proof. destruct arc; cbn; tauto. Qed.

Lemma drop_cons_le {A} k (l : list A) x rest : drop k l = x :: rest -> k + 1 <= length l.
Proof. intros E%(f_equal length). rewrite length_drop in E. simpl in E. lia. Qed.

(** What inserting does to the path of a node and to its children. *)
Lemma s_insert_cases (P : snode -> Prop) σ valueHash p v h l r sb path :
  valid σ p -> valid σ path ->
  (forall v' h' sb', P (SNode p v' h' l r sb')) ->
  (forall h' sb', l = SNil -> r = SNil -> P (SNode path valueHash h' SNil SNil sb')) ->
  (forall (arc : bool) h' sb', sl_len p + 1 <= sl_len path ->
     P (s_setChild arc (s_insert σ valueHash (if arc then r else l) (slice_from path (sl_len p + 1)))
          (SNode p v h' l r sb'))) ->
  (forall (arc : bool) h' sb', sl_len p + 1 <= sl_len path ->
     P (s_setChild arc (s_createNode (slice_from path (sl_len p + 1)) valueHash) (SNode p v h' l r sb'))) ->
  (forall arc h' sb' sb'', sl_len path + 1 <= sl_len p ->
     P (s_setChild arc (SNode (slice_from p (sl_len path + 1)) v h' l r sb')
          (SNode path valueHash [] SNil SNil sb''))) ->
  (forall k x y h' sb' sb'', k + 1 <= sl_len p -> k + 1 <= sl_len path ->
     P (s_setChild y (s_createNode (slice_from path (k + 1)) valueHash)
          (s_setChild x (SNode (slice_from p (k + 1)) v h' l r sb')
             (SNode (slice_to path k) zeroValueHash [] SNil SNil sb'')))) ->
  P (s_insert σ valueHash (SNode p v h l r sb) path).
Proof.
  intros Hp Hpath Hsame Hrep Hchild Hnew Hpar Hsib. cbn [s_insert].
  case_bool_decide; [done|]. destruct (hasPrefix (read σ path) (read σ p)).
  { destruct (_ && _) eqn:Hempty.
    { apply andb_true_iff in Hempty as [_ [? ?]%andb_true_iff]. destruct l, r; try done. by apply Hrep. }
    destruct (drop (sl_len p) (read σ path)) as [|arc rest] eqn:E; [done|].
    clear Hempty. apply drop_cons_le in E. rewrite read_length in E by done.
    destruct (negb _); [|case_bool_decide; [apply Hsame|by apply Hnew]]. specialize (Hchild arc). by destruct arc; apply Hchild. }
  destruct (hasPrefix (read σ p) (read σ path)).
  { destruct (drop (sl_len path) (read σ p)) as [|arc rest] eqn:E; [done|].
    apply drop_cons_le in E. rewrite read_length in E by done. by apply Hpar. }
  destruct (drop _ (read σ p)) as [|x s] eqn:Ep; [done|].
  destruct (drop _ (read σ path)) as [|y t] eqn:Ek; [done|].
  apply drop_cons_le in Ep, Ek. rewrite read_length in Ep, Ek by done. by apply Hsib.
Qed.

(** Inserting keeps the paths in place, if the key comes in an array of its own. *)
Lemma s_insert_placed σ base d valueHash n path :
  placed σ base d n -> valid σ path -> base (sl_array path) + sl_off path = d ->
  ~ uses n (sl_array path) ->
  placed σ base d (s_insert σ valueHash n path) /\
  forall a, uses (s_insert σ valueHash n path) a -> uses n a \/ a = sl_array path.
Proof.
  revert d path. induction n as [|p v h l IHl r IHr sb]; intros d path Hn Hpath Hb Hnew; [by split; auto|].
  pose proof Hn as (Hp & Hbp & Hd & Hl & Hr). cbn [uses] in Hnew.
  apply s_insert_cases; [done|done|..].
  - intros v' h' sb'. split; [done|by left].
  - intros h' sb' -> ->. split; [done|]. intros a [?|[[]|[]]]. by right.
  - intros arc h' sb' Hlen. pose proof (valid_slice_from σ path (sl_len p + 1) Hpath Hlen) as Hv.
    assert (placed σ base (d + sl_len p + 1)
        (s_insert σ valueHash (if arc then r else l) (slice_from path (sl_len p + 1))) /\
      forall a, uses (s_insert σ valueHash (if arc then r else l) (slice_from path (sl_len p + 1))) a ->
        uses (if arc then r else l) a \/ a = sl_array path) as [Hpl Hus].
    { destruct arc; [apply (IHr _ (slice_from path (sl_len p + 1)))|apply (IHl _ (slice_from path (sl_len p + 1)))];
        try done; cbn; tauto || lia. }
    split; [apply placed_setChild; [done|done|]|].
    + intros a [Ha| ->]%Hus Ha'; destruct arc; eauto; tauto.
    + intros a [[Ha| ->]%Hus|?]%uses_setChild; [left|by right|by left]. destruct arc; cbn; tauto.
  - intros arc h' sb' Hlen. pose proof (valid_slice_from σ path (sl_len p + 1) Hpath Hlen) as Hv.
    split; [apply placed_setChild; [done| |]|].
    + cbn. split_and!; try done. lia.
    + intros a [<-|[[]|[]]] Ha'. destruct arc; cbn in *; tauto.
    + intros a [[<-|[[]|[]]]|?]%uses_setChild; [by right|by left].
  - intros arc h' sb' sb'' Hlen. pose proof (valid_slice_from σ p (sl_len path + 1) Hp Hlen) as Hv.
    split; [apply placed_setChild; [done| |]|].
    + cbn. split_and!; try done; [lia|..].
      all: by replace (d + sl_len path + 1 + (sl_len p - (sl_len path + 1)) + 1) with (d + sl_len p + 1) by lia.
    + by intros a _; destruct arc.
    + intros a [?|[?|[[]|[]]]]%uses_setChild; [by left|by right].
  - intros k x y h' sb' sb'' Hkp Hkpath.
    pose proof (valid_slice_from σ p (k + 1) Hp Hkp) as Hvp.
    pose proof (valid_slice_from σ path (k + 1) Hpath Hkpath) as Hvk.
    pose proof (valid_slice_to σ path k Hpath ltac:(lia)) as Hvt.
    assert (placed σ base d (s_setChild x (SNode (slice_from p (k + 1)) v h' l r sb')
              (SNode (slice_to path k) zeroValueHash [] SNil SNil sb''))) as Hin.
    { apply placed_setChild; [done| |by intros a _; destruct x].
      cbn. split_and!; try done; [lia|..].
      all: by replace (d + k + 1 + (sl_len p - (k + 1)) + 1) with (d + sl_len p + 1) by lia. }
    assert (forall a, uses (SNode (slice_from p (k + 1)) v h' l r sb') a -> uses (SNode p v h l r sb) a) as Hcur by done.
    destruct x; cbn [s_setChild] in *; (split; [apply placed_setChild; [done| |]|]).
    1, 4: cbn; split_and!; try done; lia.
    1, 3: intros a [<-|[[]|[]]]; destruct y; intros Ha; try (by destruct Ha); apply Hcur in Ha; cbn in *; tauto.
    all: intros a [[<-|[[]|[]]]|Ha]%uses_setChild; [by right|]; cbn in Ha |- *; intuition congruence.
Qed.

(** ** Collapsing *)

(** [settles σ base d n out result]: from the trie [n], at depth [d], an operation
    made [out], whose trie reads as [result]; it wrote into arrays of [n] only, at
    depth [d] or deeper. *)
Definition settles (σ : arrays) (base : nat -> nat) (d : nat) (n : snode) (out : arrays * snode)
    (result : node) : Prop :=
  exists base', (forall a, a < length σ -> base' a = base a) /\
    placed out.1 base' d out.2 /\ erase out.1 out.2 = result /\
    keeps (fun a i => uses n a -> base a + i < d) σ out.1 /\
    forall a, uses out.2 a -> uses n a \/ length σ <= a.

Lemma settles_refl σ base d n : placed σ base d n -> settles σ base d n (σ, n) (erase σ n).
Proof. intros. exists base. cbn [fst snd]. split_and!; auto using keeps_refl. Qed.

Lemma settles_trans σ base d n σ1 n1 mid out result :
  settles σ base d n (σ1, n1) mid ->
  (forall base1, placed σ1 base1 d n1 -> erase σ1 n1 = mid -> settles σ1 base1 d n1 out result) ->
  settles σ base d n out result.
Proof.
  intros (base1 & Hb1 & Hp1 & Hmid & Hk1 & Hu1) Hnext. cbn [fst snd] in *.
  destruct (Hnext base1 Hp1 Hmid) as (base2 & Hb2 & Hp2 & He & Hk2 & Hu2). pose proof Hk1 as [Hlen _].
  exists base2. split_and!; [|done|done|..].
  - intros a Ha. rewrite Hb2, Hb1 by lia. done.
  - eapply keeps_trans; [done..|]. intros a i Ha HP [Hua|?]%Hu1; [|lia]. rewrite Hb1 by done. auto.
  - intros a [[?|?]%Hu1|?]%Hu2; [by left|by right|right; lia].
Qed.

(** Changing the data of the node, not its path or children. *)
Lemma settles_hashed f σ base d n out result :
  settles σ base d n out result -> settles σ base d n (s_hashed f out) (setHash (f result) result).
Proof.
  intros (base' & Hb & Hp & <- & Hk & Hu). destruct out as [σ' n']. exists base'. cbn in *.
  by destruct n'.
Qed.

Lemma s_collapseOnlyChild_settles σ base d p v h l r sb (arc : bool) :
  placed σ base d (SNode p v h l r sb) -> (if arc then r else l) <> SNil ->
  settles σ base d (SNode p v h l r sb) (s_collapseOnlyChild σ p arc (if arc then r else l))
    (collapseOnlyChild (erase σ (SNode p v h l r sb)) arc).
Proof.
  intros (Hp & Hb & Hd & Hl & Hr) Hc. unfold s_collapseOnlyChild, collapseOnlyChild.
  assert (placed σ base (d + sl_len p + 1) (if arc then r else l)) as Hchild by by destruct arc.
  assert (forall a, uses (if arc then r else l) a -> uses (SNode p v h l r sb) a) as Hsub
    by (destruct arc; cbn; tauto).
  assert (getChild arc (erase σ (SNode p v h l r sb)) = erase σ (if arc then r else l)) as -> by by destruct arc.
  destruct (if arc then r else l) as [|cp cv ch cl cr csb]; [done|]. clear Hc Hd Hl Hr.
  pose proof (append_spec σ p [arc] Hp) as H1. destruct (append σ p [arc]) as [σ1 c1].
  destruct H1 as (Hv1 & Hr1 & Hl1 & Hk1 & Hw1). 
  destruct (placed_kept _ σ σ1 base base _ _ Hchild Hk1) as [Hchild1 He1]; [|done|].
  { intros a i Ha Hi. unfold outside. destruct (decide (a = sl_array p)) as [->|]; [|by left]. simpl. lia. }
  destruct Hchild1 as (Hcp & Hcb & Hcd & Hcl & Hcr).
  pose proof (append_spec σ1 c1 (read σ1 cp) Hv1) as H2. destruct (append σ1 c1 (read σ1 cp)) as [σ2 c2].
  destruct H2 as (Hv2 & Hr2 & Hl2 & Hk2 & Hw2). pose proof Hp as [Hpa _]. pose proof Hk1 as [Hlen1 _].
  rewrite read_length in Hl2, Hk2 by done. simpl in Hl1.
  set (base' := fun a => if decide (a < length σ) then base a else d).
  assert (forall a, a < length σ -> base' a = base a) as Hbase' by (intros a Ha; unfold base'; by rewrite decide_True).
  assert (forall m, (forall a, uses m a -> uses (SNode cp cv ch cl cr csb) a) ->
    placed σ1 base (d + sl_len p + 1 + sl_len cp + 1) m ->
    placed σ2 base' (d + sl_len c2 + 1) m /\ erase σ2 m = erase σ1 m) as Hgrand.
  { intros m Hm Hpm. replace (d + sl_len c2 + 1) with (d + sl_len p + 1 + sl_len cp + 1) by lia.
    assert (forall a, uses m a -> a < length σ) as Hold by (intros a Ha; eapply placed_uses; [done|by apply Hm]).
    eapply placed_kept; [done|done| |by auto]. intros a i Ha Hi. unfold outside.
    destruct (decide (a = sl_array c1)) as [->|]; [|by left]. pose proof (Hold _ Ha).
    destruct Hw1 as [[E Eo]|[? _]]; [rewrite E in *|]; lia. }
  destruct (Hgrand cl) as [Hcl2 Hel]; [cbn; tauto|done|]. destruct (Hgrand cr) as [Hcr2 Her]; [cbn; tauto|done|].
  cbn [erase] in He1. injection He1 as Hrcp Hecl Hecr.
  exists base'. split_and!; [done|..].
  - cbn. split_and!; try done. destruct Hw2 as [[-> ->]|[Ha ->]];
      [destruct Hw1 as [[-> ->]|[Ha ->]]; [by rewrite Hbase'|]|]; unfold base'; rewrite decide_False by lia; lia.
  - cbn. rewrite Hr2, Hr1, Hel, Her, Hecl, Hecr, Hrcp, <- app_assoc. done.
  - cbn [fst]. eapply keeps_trans; [apply (keeps_weaken _ _ _ _ Hk1)|exact Hk2|].
    + intros a i Ha HP. unfold outside. destruct (decide (a = sl_array p)) as [->|]; [|by left].
      pose proof (HP ltac:(by left)). lia.
    + intros a i Ha HP. unfold outside. destruct (decide (a = sl_array c1)) as [->|]; [|by left].
      destruct Hw1 as [[E Eo]|[? _]]; [|lia]. rewrite E in *. pose proof (HP ltac:(by left)). lia.
  - intros a [<-|Ha]; [|left; apply Hsub; cbn; tauto].
    destruct Hw2 as [[-> _]|[? _]]; [destruct Hw1 as [[-> _]|[? _]]; [by left; left|by right]|right; lia].
Qed.

(** Operations on the two children, one after the other, do not disturb each
    other or the path of the node. *)
Lemma settles_children σ base d p v h l r sb σ1 l1 left out right :
  placed σ base d (SNode p v h l r sb) ->
  settles σ base (d + sl_len p + 1) l (σ1, l1) left ->
  (forall base1, placed σ1 base1 (d + sl_len p + 1) r -> settles σ1 base1 (d + sl_len p + 1) r out right) ->
  erase σ1 r = erase σ r /\
  settles σ base d (SNode p v h l r sb) (out.1, SNode p v h l1 out.2 sb) (Node (read σ p) v h left right sb).
Proof.
  intros Hn (base1 & Hb1 & Hp1 & <- & Hk1 & Hu1) Hright. cbn [fst snd] in *.
  pose proof Hn as (Hp & Hb & Hd & Hl & Hr). pose proof Hk1 as [Hlen1 _]. pose proof Hp as [Hpa _].
  destruct (placed_kept _ σ σ1 base base1 _ r Hr Hk1) as [Hr1 Her].
  { intros a i Hra Hi Hla. destruct (Hd a Hla Hra). }
  { intros a Ha. apply Hb1. by eapply placed_uses. }
  split; [done|]. destruct (Hright base1 Hr1) as (base2 & Hb2 & Hp2 & <- & Hk2 & Hu2). destruct out as [σ2 r2]. cbn [fst snd] in *.
  destruct (placed_kept _ σ1 σ2 base1 base2 _ l1 Hp1 Hk2) as [Hl2 Hel].
  { intros a i [Hla|?]%Hu1 Hi Hra; [destruct (Hd a Hla Hra)|].
    apply (placed_uses _ _ _ _ _ Hr) in Hra. lia. }
  { intros a Ha. apply Hb2. apply (placed_uses _ _ _ _ _ Hp1 Ha). }
  destruct (read_kept _ σ σ1 p Hp Hk1) as [Hread1 Hv1]; [intros i Hi _; lia|].
  destruct (read_kept _ σ1 σ2 p Hv1 Hk2) as [Hread2 Hv2]; [intros i Hi _; rewrite Hb1 by done; lia|].
  exists base2. cbn [fst snd placed erase uses]. split_and!; try done.
  - intros a Ha. by rewrite Hb2, Hb1 by lia.
  - by rewrite Hb2, Hb1 by lia.
  - intros a Hla Hra. pose proof (placed_uses _ _ _ _ _ Hp1 Hla). apply Hu1 in Hla.
    destruct (Hu2 _ Hra) as [Hra'|?]; [|lia]. pose proof (placed_uses _ _ _ _ _ Hr Hra').
    destruct Hla as [Hla|?]; [|lia]. eauto.
  - by rewrite Hread2, Hread1, Hel.
  - eapply keeps_trans; [apply (keeps_weaken _ _ _ _ Hk1)|exact Hk2|]; intros a i Ha HP Hua.
    + pose proof (HP ltac:(tauto)). lia.
    + pose proof (HP ltac:(tauto)). rewrite Hb1 by done. lia.
  - intros a [?|[[?|?]%Hu1|[?|?]%Hu2]]; [tauto|tauto|by right|tauto|right; lia].
Qed.

(** Collapsing gives the trie that collapsing with paths as values gives. *)
Lemma s_collapse_finish_settles f σ base d p v h l r sb :
  placed σ base d (SNode p v h l r sb) ->
  settles σ base d (SNode p v h l r sb) (s_collapse_finish f σ p v h l r sb)
    (collapse_finish f (erase σ (SNode p v h l r sb))).
Proof.
  intros Hn. unfold s_collapse_finish, collapse_finish, hasValue, isLeaf. cbn [erase node_value node_left node_right].
  rewrite negb_involutive, !isNil_erase. pose proof (settles_refl _ _ _ _ Hn) as Hsame.
  case_bool_decide; [|by apply settles_hashed].
  destruct l as [|lp lv lh ll lr lsb] eqn:El, r as [|rp rv rh rl rr rsb] eqn:Er; cbn [s_isNil negb andb].
  - exists base. split_and!; done || apply keeps_refl.
  - apply settles_hashed, (s_collapseOnlyChild_settles _ _ _ _ _ _ SNil _ _ true Hn). done.
  - apply settles_hashed, (s_collapseOnlyChild_settles _ _ _ _ _ _ _ SNil _ false Hn). done.
  - by apply settles_hashed.
Qed.

Lemma s_collapseAndHash_settles f σ base d n :
  placed σ base d n -> settles σ base d n (s_collapseAndHash f σ n) (collapseAndHash f (erase σ n)).
Proof.
  revert σ base d. induction n as [|p v h l IHl r IHr sb]; intros σ base d Hn; [by apply settles_refl|].
  pose proof Hn as (_ & _ & _ & Hl & Hr). cbn [s_collapseAndHash erase]. rewrite collapse_unfold.
  destruct (default (mkDirty false false) sb) as [dl dr]. cbn [dirty_left dirty_right].
  assert (settles σ base (d + sl_len p + 1) l (if dl then s_collapseAndHash f σ l else (σ, l))
            (if dl then collapseAndHash f (erase σ l) else erase σ l)) as Hleft
    by (destruct dl; [by apply IHl|by apply settles_refl]).
  destruct (if dl then _ else (σ, l)) as [σ1 l1].
  destruct (settles_children σ base d p v h l r sb σ1 l1 _ (if dr then s_collapseAndHash f σ1 r else (σ1, r))
              (if dr then collapseAndHash f (erase σ1 r) else erase σ1 r) Hn Hleft) as [Her Hch];
    [intros; destruct dr; [by apply IHr|by apply settles_refl]|].
  destruct (if dr then s_collapseAndHash f σ1 r else (σ1, r)) as [σ2 r2].
  eapply settles_trans; [exact Hch|]. intros base1 Hp1 He1. rewrite <- Her, <- He1.
  by apply s_collapse_finish_settles.
Qed.

(** ** The forest *)

Lemma erase_endSandbox σ n : erase σ (s_endSandbox n) = endSandbox (erase σ n).
Proof. induction n as [|p v h l IHl r IHr sb]; [done|]. cbn. by rewrite IHl, IHr. Qed.

Lemma uses_endSandbox n a : uses (s_endSandbox n) a <-> uses n a.
Proof. induction n as [|p v h l IHl r IHr sb]; [done|]. cbn. by rewrite IHl, IHr. Qed.

Lemma placed_endSandbox σ base d n : placed σ base d n -> placed σ base d (s_endSandbox n).
Proof.
  revert d. induction n as [|p v h l IHl r IHr sb]; intros d; [done|].
  intros (Hp & Hb & Hd & Hl & Hr). cbn. split_and!; auto.
  intros a. rewrite !uses_endSandbox. apply Hd.
Qed.

(** A trie at the root of the forest, whose paths are where they should be. *)
Definition root_reads (σ : arrays) (n : snode) (root : node) : Prop :=
  (exists base, placed σ base 0 n) /\ erase σ n = root.

Lemma createEmpty_reads σ :
  let '(σ', n) := s_createEmptyTrieNode σ in root_reads σ' n createEmptyTrieNode.
Proof.
  pose proof (make_slice_spec σ []) as Hm. unfold s_createEmptyTrieNode. destruct (make_slice σ []) as [σ1 path].
  destruct Hm as (Hv & Hread & Ha & Ho & _). split.
  - exists (fun _ => 0). cbn. rewrite Ho. split_and!; done.
  - cbn. rewrite Hread. done.
Qed.

Lemma insert_diff_reads σ n root diff :
  root_reads σ n root ->
  let '(σ', n') := s_insert_diff (σ, n) diff in
  root_reads σ' n' (insert (Value diff) root (toBin (Key diff) (toBinSize (Key diff)))).
Proof.
  intros [[base Hn] <-]. cbn [s_insert_diff].
  pose proof (make_slice_spec σ (toBin (Key diff) (toBinSize (Key diff)))) as Hm.
  destruct (make_slice σ _) as [σ1 path] eqn:Em. destruct Hm as (Hv & <- & Ha & Ho & _).
  assert (keeps (fun _ _ => True) σ σ1) as Hk by (unfold make_slice in Em; simplify_eq; apply keeps_app).
  set (base' := fun a => if decide (a < length σ) then base a else 0).
  destruct (placed_kept _ σ σ1 base base' 0 n Hn Hk) as [Hn1 <-]; [done|..].
  { intros a Hu. unfold base'. by rewrite decide_True by by eapply placed_uses. }
  split; [exists base'|by eapply s_insert_erase].
  apply s_insert_placed; [done|done|..].
  - unfold base'. rewrite decide_False by lia. lia.
  - intros Hu. apply (placed_uses _ _ _ _ _ Hn) in Hu. lia.
Qed.

Lemma update_root_reads σ n root diffs :
  root_reads σ n root ->
  let '(σ', n') := s_update_root σ n diffs in root_reads σ' n' (update_root root diffs).
Proof.
  intros Hn. unfold s_update_root, update_root.
  assert (root_reads (foldl s_insert_diff (σ, n) diffs).1 (foldl s_insert_diff (σ, n) diffs).2
    (foldl (fun root diff => insert (Value diff) root (toBin (Key diff) (toBinSize (Key diff)))) root diffs)) as Hins.
  { revert σ n root Hn. induction diffs as [|diff diffs IH]; intros σ n root Hn; [done|]. cbn [foldl].
    pose proof (insert_diff_reads σ n root diff Hn) as H1. destruct (s_insert_diff (σ, n) diff) as [σ1 n1]. by apply IH. }
  destruct (foldl s_insert_diff (σ, n) diffs) as [σ1 n1]. cbn [fst snd] in Hins.
  destruct Hins as [[base Hp] <-].
  destruct (s_collapseAndHash_settles hashTrieNode σ1 base 0 n1 Hp) as (base' & _ & Hp' & <- & _).
  destruct (s_collapseAndHash hashTrieNode σ1 n1) as [σ2 n2]. cbn [fst snd] in *.
  rewrite <- erase_endSandbox, isNil_erase. destruct (s_isNil (s_endSandbox n2)); [apply createEmpty_reads|].
  split; [exists base'; by apply placed_endSandbox|done].
Qed.

(** The forest with arrays and the forest with paths as values have the same
    root hashes, and the same newest trie. *)
Record refines (sf : SForest) (f : Forest) : Prop := {
  ref_hashes : map s_hash (s_roots sf) = map node_hash (roots f);
  ref_newest : exists n r, last (s_roots sf) = Some n /\ last (roots f) = Some r /\ root_reads (s_arrays sf) n r
}.

Lemma root_reads_hash σ n root : root_reads σ n root -> s_hash n = node_hash root.
Proof. intros [_ <-]. by destruct n. Qed.

Lemma refines_append sf f σ n r :
  map s_hash (s_roots sf) = map node_hash (roots f) -> root_reads σ n r ->
  refines (mkSForest (s_roots sf ++ [n]) σ) (appendRoot f r).
Proof.
  intros Hh Hn. split; cbn.
  - rewrite !map_app, Hh. cbn. by rewrite (root_reads_hash _ _ _ Hn).
  - exists n, r. by rewrite !last_snoc.
Qed.

Lemma Update_refines sf f r diffs :
  refines sf f -> last (roots f) = Some r ->
  exists sf' f' h, s_Update sf (node_hash r) diffs = Ok (sf', h) /\
    Update f (node_hash r) diffs = Ok (f', h) /\ refines sf' f'.
Proof.
  intros [Hh (n & r' & Hn & Hr & Hreads)] Hr'. rewrite Hr' in Hr. injection Hr as <-.
  unfold s_Update, Update. rewrite findRoot_newest by done.
  assert (s_findRoot sf (node_hash r) = Some n) as ->.
  { apply last_Some in Hn as [ns E]. unfold s_findRoot. rewrite E, rev_app_distr. cbn.
    by rewrite bool_decide_eq_true_2 by apply (root_reads_hash _ _ _ Hreads). }
  pose proof (update_root_reads _ _ _ diffs Hreads) as Hup. destruct (s_update_root _ n diffs) as [σ' n'].
  eexists _, _, _. split_and!; [done|by rewrite (root_reads_hash _ _ _ Hup)|]. by apply refines_append.
Qed.

Lemma forget_first_hashes h srs rs :
  map s_hash srs = map node_hash rs -> map s_hash (s_forget_first h srs) = map node_hash (forget_first h rs).
Proof.
  revert rs. induction srs as [|n srs IH]; intros [|r rs]; try done. cbn. intros [= Hn Hs].
  rewrite Hn. case_bool_decide; [done|]. cbn. by rewrite Hn, (IH rs).
Qed.

Lemma forget_first_last h rs r :
  h ∈ map node_hash rs -> last (forget_first h (rs ++ [r])) = Some r.
Proof.
  induction rs as [|x rs IH]; [by intros ?%elem_of_nil|]. cbn. intros [->|Hin]%elem_of_cons.
  - by rewrite bool_decide_eq_true_2, last_snoc.
  - case_bool_decide; [by rewrite last_snoc|]. by rewrite last_cons, IH.
Qed.

Lemma s_forget_first_last h rs r :
  h ∈ map s_hash rs -> last (s_forget_first h (rs ++ [r])) = Some r.
Proof.
  induction rs as [|x rs IH]; [by intros ?%elem_of_nil|]. cbn. intros [->|Hin]%elem_of_cons.
  - by rewrite bool_decide_eq_true_2, last_snoc.
  - case_bool_decide; [by rewrite last_snoc|]. by rewrite last_cons, IH.
Qed.

Lemma Forget_refines sf f rs r h :
  refines sf f -> roots f = rs ++ [r] -> h ∈ map node_hash rs ->
  exists sf' f', s_Forget sf h = Ok sf' /\ Forget f h = Ok f' /\ refines sf' f'.
Proof.
  intros [Hh (n & r' & Hn & Hr & Hreads)] Hroots Hin. rewrite Hroots, last_snoc in Hr. injection Hr as <-.
  apply last_Some in Hn as [ns Hs].
  assert (h ∈ map s_hash ns) as Hin'.
  { rewrite Hs, Hroots, !map_app in Hh. by apply app_inj_tail in Hh as [-> _]. }
  assert (s_Forget sf h = Ok (mkSForest (s_forget_first h (s_roots sf)) (s_arrays sf))) as ->.
  { unfold s_Forget. rewrite Hs. destruct (ns ++ [n]) eqn:E; [by destruct ns|]. cbn. by case_bool_decide. }
  assert (Forget f h = Ok (mkForest (forget_first h (roots f)))) as ->.
  { unfold Forget. rewrite Hroots. destruct (rs ++ [r]) eqn:E; [by destruct rs|]. cbn. by case_bool_decide. }
  eexists _, _. split_and!; [done..|]. split; cbn.
  - by apply forget_first_hashes.
  - exists n, r. by rewrite Hs, Hroots, s_forget_first_last, forget_first_last.
Qed.

End Slices.

(** ** An older revision that is overwritten *)

Section Overwritten.
#[local] Existing Instance crypto_sha256.

(** The nodes of an older revision are not safe: after a key is deleted, its leaf in
    the revision before reads as a different key, and looking the key up in that
    revision finds nothing, although its root hash is still the same. *)
Theorem older_revision_overwritten grow :
  let diffs := [mkTrieDiff [1%Z] [7%Z]; mkTrieDiff [2%Z] [8%Z]] in
  let key := toBin [2%Z] 8 in
  exists f1 h1 f2 h2 old,
    s_Update grow (fst s_NewForest) (snd s_NewForest) diffs = Ok (f1, h1) /\
    s_Update grow f1 h1 [mkTrieDiff [2%Z] zeroValueHash] = Ok (f2, h2) /\
    s_findRoot f1 h1 = Some old /\ s_findRoot f2 h1 = Some old /\
    get (erase (s_arrays f1) old) key = [8%Z] /\ get (erase (s_arrays f2) old) key = zeroValueHash.
Proof.
  cbv zeta. do 5 eexists. split_and!.
  - vm_compute. reflexivity.
  - vm_compute. reflexivity.
  - vm_compute. reflexivity.
  - vm_compute. reflexivity.
  - vm_compute. reflexivity.
  - vm_compute. reflexivity.
Qed.
End Overwritten.
