(* ===== verification/MerkleProof.v ===== *)
(** * Proofs of the Merkle forest (crypto/merkle/merkle_trie_forest.go)

    [GetProof] and [Verify]: proofs that a key has a value in the revision with a
    given root hash, or that it has none.  Paths are lists of bits; Go's slices
    and indices out of range are panics. *)

From stdpp Require Import base list.
From Stdlib Require Import ZArith Lia ZifyBool.
From S2P Require Import Prelude Hash MerkleAlgo MerkleForest.

(** ** Definitions *)

Record TrieProofNode := mkProofNode { otherChildHash : bytes; prefixSize : Z }.

(** The extra hashes are [nil] or a hash. *)
Record TrieProof := mkTrieProof {
  tp_nodes : list TrieProofNode;
  tp_path : list bool;
  extraHashLeft : option bytes;
  extraHashRight : option bytes
}.

Inductive proof_error := ErrProofUnknownRoot | ErrNotSelfConsistent | ErrProofLength.

(** [s[a:b]] *)
Definition slice (s : list bool) (a b : Z) : option (list bool) :=
  if (0 <=? a) && (a <=? b) && (b <=? Z.of_nat (length s))
  then Some (take (Z.to_nat (b - a)) (drop (Z.to_nat a) s)) else None.

(** [s[i]] *)
Definition index (s : list bool) (i : Z) : option bool :=
  if 0 <=? i then s !! Z.to_nat i else None.

(** [copy(s[a:a+len(t)], t)] *)
Definition overwrite (s : list bool) (a : nat) (t : list bool) : option (list bool) :=
  if Nat.leb (a + length t) (length s)
  then Some (take a s ++ t ++ drop (a + length t) s) else None.

Section TrieProofs.
Context `{Sha256}.

(** The loop of [GetProof]: the proof nodes of the path walked, the node it stops
    at ([nil] when it ran off the trie) and the length walked. *)
Fixpoint proof_walk (p : list bool) (current : node) (currentPathLen : nat)
    : outcome proof_error (list TrieProofNode * node * nat) :=
  match current with
  | NilNode => Panic
  | Node path _ _ l r _ =>
      if hasPrefix p path && Nat.ltb (length path) (length p) then
        match drop (length path) p with
        | [] => Panic
        | bit :: p' =>
            let sibling := if bit then l else r in
            let next := if bit then r else l in
            if isNil next then Ok ([], NilNode, (currentPathLen + length path)%nat)
            else if isNil sibling then Panic
            else
              let! out := (if bit then proof_walk p' r (currentPathLen + length path + 1)
                           else proof_walk p' l (currentPathLen + length path + 1)) in
              Ok (mkProofNode (node_hash sibling) (Z.of_nat (length path)) :: out.1.1, out.1.2, out.2)
        end
      else Ok ([], current, currentPathLen)
  end.

Definition GetProof (f : Forest) (rootHash path : bytes) : outcome proof_error TrieProof :=
  match findRoot f rootHash with
  | None => Err ErrProofUnknownRoot
  | Some root =>
      let path := toBin path (toBinSize path) in
      let! out := proof_walk path root 0 in
      let '(nodes, current, currentPathLen) := out in
      if isNil current then Ok (mkTrieProof nodes path None None)
      else
        let nodes := nodes ++ [mkProofNode (node_hash current) (Z.of_nat (length (node_path current)))] in
        match overwrite path currentPathLen (node_path current) with
        | None => Panic
        | Some path =>
            if isLeaf current then Ok (mkTrieProof nodes path (Some (node_value current)) None)
            else if isNil (node_left current) || isNil (node_right current) then Panic
            else Ok (mkTrieProof nodes path (Some (node_hash (node_left current)))
                       (Some (node_hash (node_right current))))
        end
  end.

Definition calculateLastNodePathIndex (nodes : list TrieProofNode) : Z :=
  foldl (fun acc n => acc + prefixSize n + 1) 0 (removelast nodes).

Definition pathBytes (p : list bool) : bytes := map bit_byte p.

(** The loop over the nodes before the last, from the last to the first. *)
Fixpoint consistent_loop (pathFromVerify : list bool) (revNodes : list TrieProofNode)
    (keyStartInd : Z) (currentHash : bytes) : option bytes :=
  match revNodes with
  | [] => Some currentHash
  | n :: rest =>
      let keyEndInd := keyStartInd - 1 in
      let keyStartInd := keyEndInd - prefixSize n in
      bit ← index pathFromVerify keyEndInd;
      prefix ← slice pathFromVerify keyStartInd keyEndInd;
      let currentHash :=
        if negb (bit : bool) then hashBytes [currentHash; otherChildHash n; pathBytes prefix]
        else hashBytes [otherChildHash n; currentHash; pathBytes prefix] in
      consistent_loop pathFromVerify rest keyStartInd currentHash
  end.

Definition lastNode (nodes : list TrieProofNode) : TrieProofNode :=
  default (mkProofNode [] 0) (last nodes).

Definition verifyProofIsSelfConsistent (rootHash : bytes) (nodes : list TrieProofNode)
    (pathFromVerify : list bool) (lastNodePathIndex : Z) : option bool :=
  currentHash ← consistent_loop pathFromVerify (rev (removelast nodes)) lastNodePathIndex
    (otherChildHash (lastNode nodes));
  Some (bool_decide (currentHash = rootHash)).

Definition verifyProofInclusion (nodes : list TrieProofNode) (verifyPath : list bool)
    (verifyValueHash : bytes) (lastNodePathIndex : Z) : option bool :=
  rest ← slice verifyPath lastNodePathIndex (Z.of_nat (length verifyPath));
  Some (bool_decide (otherChildHash (lastNode nodes) = hashBytes [verifyValueHash; pathBytes rest])).

Definition verifyProofExclusion (proof : TrieProof) (pathFromVerify : list bool)
    (lastNodePathIndex : Z) : outcome proof_error bool :=
  let pathLen := length (tp_path proof) in
  if bool_decide (pathLen <> length pathFromVerify) then Err ErrProofLength
  else
    match slice (tp_path proof) lastNodePathIndex
            (lastNodePathIndex + prefixSize (lastNode (tp_nodes proof))),
          slice (tp_path proof) 0 lastNodePathIndex, slice pathFromVerify 0 lastNodePathIndex,
          slice pathFromVerify lastNodePathIndex (Z.of_nat (length pathFromVerify)) with
    | Some lastNodePrefix, Some proofBegin, Some verifyBegin, Some verifyEnd =>
        let extraLeft := default [] (extraHashLeft proof) in
        let calculatedHash :=
          match extraHashRight proof with
          | Some extraRight => hashBytes [extraLeft; extraRight; pathBytes lastNodePrefix]
          | None => hashBytes [extraLeft; pathBytes lastNodePrefix]
          end in
        let isHashEqual := bool_decide (otherChildHash (lastNode (tp_nodes proof)) = calculatedHash) in
        let isBeginOfPathEqual := bool_decide (proofBegin = verifyBegin) in
        let isEndOfPathEqual :=
          if lastNodePathIndex <? Z.of_nat pathLen then bool_decide (lastNodePrefix = verifyEnd) else true in
        Ok (isHashEqual && isBeginOfPathEqual && negb isEndOfPathEqual)
    | _, _, _, _ => Panic
    end.

(** [proof] may be [nil]. *)
Definition Verify (rootHash : bytes) (proof : option TrieProof) (path valueHash : bytes)
    : outcome proof_error bool :=
  match proof with
  | None => Ok (bool_decide (valueHash = zeroValueHash))
  | Some proof =>
      if bool_decide (tp_nodes proof = []) then Ok (bool_decide (valueHash = zeroValueHash))
      else
        let lastNodePathIndex := calculateLastNodePathIndex (tp_nodes proof) in
        let pathFromVerify := toBin path (toBinSize path) in
        match verifyProofIsSelfConsistent rootHash (tp_nodes proof) pathFromVerify lastNodePathIndex with
        | None => Panic
        | Some false => Err ErrNotSelfConsistent
        | Some true =>
            if bool_decide (valueHash <> zeroValueHash) then
              match verifyProofInclusion (tp_nodes proof) pathFromVerify valueHash lastNodePathIndex with
              | Some b => Ok b
              | None => Panic
              end
            else verifyProofExclusion proof pathFromVerify lastNodePathIndex
        end
  end.
End TrieProofs.

(** ** Tries whose keys have one length *)

Section Completeness.
Context `{Sha256Laws}.

Definition uniform (n : node) (m : nat) : Prop := forall k, get n k <> zeroValueHash -> length k = m.

Lemma uniform_child p v h l r sb (bit : bool) m :
  uniform (Node p v h l r sb) m -> uniform (if bit then r else l) (m - length p - 1).
Proof.
  intros Hu k Hk. specialize (Hu (p ++ bit :: k)). rewrite get_child, length_app in Hu.
  specialize (Hu Hk). simpl in Hu. lia.
Qed.

Lemma child_inhabited p v h l r sb (bit : bool) :
  clean hashTrieNode (Node p v h l r sb) -> (if bit then r else l) <> NilNode ->
  exists k, get (Node p v h l r sb) (p ++ bit :: k) <> zeroValueHash.
Proof.
  intros (_ & _ & _ & Hl & Hr) Hn.
  destruct (clean_inhabited hashTrieNode (if bit then r else l)) as [k Hk]; [by destruct bit|done|].
  exists k. by rewrite get_child.
Qed.

(** A node is a leaf with a value at full depth, or has two children. *)
Lemma uniform_shape p v h l r sb m :
  clean hashTrieNode (Node p v h l r sb) -> uniform (Node p v h l r sb) m ->
  (l = NilNode /\ r = NilNode /\ v <> zeroValueHash /\ length p = m) \/
  (l <> NilNode /\ r <> NilNode /\ (length p < m)%nat).
Proof.
  intros Hc Hu.
  assert (forall bit : bool, (if bit then r else l) <> NilNode -> (length p < m)%nat) as Hlt.
  { intros bit Hn. destruct (child_inhabited p v h l r sb bit Hc Hn) as [k Hk%Hu].
    rewrite length_app in Hk. simpl in Hk. lia. }
  assert (v <> zeroValueHash -> length p = m) as Hval.
  { intros Hv. apply Hu. by rewrite get_value. }
  destruct Hc as (_ & [Hv|[Hl Hr]] & _); [|right; split_and!; try done; by apply (Hlt true)].
  left. specialize (Hval Hv). split_and!; try done.
  - destruct (isNil l) eqn:E; [by destruct l|]. apply isNil_false in E. specialize (Hlt false E). lia.
  - destruct (isNil r) eqn:E; [by destruct r|]. apply isNil_false in E. specialize (Hlt true E). lia.
Qed.

Lemma copy32_id h : length h = SHA256_HASH_SIZE_BYTES -> copy32 h = h.
Proof.
  intros E. unfold copy32. rewrite E, Nat.sub_diag, app_nil_r. apply take_ge. lia.
Qed.

Lemma clean_hash_length n : clean hashTrieNode n -> n <> NilNode -> length (node_hash n) = SHA256_HASH_SIZE_BYTES.
Proof.
  destruct n as [|p v h l r sb]; [done|]. intros (_ & _ & -> & _) _. simpl.
  unfold hashTrieNode, hashBytes. case_match; apply CalcSha256_length.
Qed.

Lemma clean_hash_internal p v h l r sb :
  clean hashTrieNode (Node p v h l r sb) -> l <> NilNode -> r <> NilNode ->
  h = hashBytes [node_hash l; node_hash r; pathBytes p].
Proof.
  intros (_ & _ & -> & Hcl & Hcr) Hl Hr. unfold hashTrieNode, isLeaf. cbn [node_left node_right].
  rewrite (proj2 (isNil_false l) Hl). cbn [andb]. unfold generateNodeParts. cbn [node_left node_right node_path].
  rewrite (proj2 (isNil_false l) Hl), (proj2 (isNil_false r) Hr).
  by rewrite !copy32_id by by apply clean_hash_length.
Qed.

(** ** Walking down and hashing up *)

(** The bits [pre] walked, the proof nodes collected and the hash rebuilt from them. *)
Inductive chain : list bool -> list TrieProofNode -> bytes -> bytes -> Prop :=
| chain_nil h : chain [] [] h h
| chain_cons path (bit : bool) other pre nodes h h' :
    chain pre nodes h h' ->
    chain (path ++ bit :: pre) (mkProofNode other (Z.of_nat (length path)) :: nodes) h
      (if negb bit then hashBytes [h'; other; pathBytes path] else hashBytes [other; h'; pathBytes path]).

Lemma chain_walked pre nodes h h' :
  chain pre nodes h h' -> forall acc,
  foldl (fun acc n => acc + prefixSize n + 1) acc nodes = acc + Z.of_nat (length pre).
Proof.
  induction 1 as [|path bit other pre nodes h h' _ IH]; intros acc; simpl; [lia|].
  rewrite IH, length_app. simpl. lia.
Qed.

Lemma slice_middle q path rest :
  slice (q ++ path ++ rest) (Z.of_nat (length q)) (Z.of_nat (length q) + Z.of_nat (length path)) = Some path.
Proof.
  unfold slice. rewrite !length_app.
  destruct (_ && _) eqn:E; [|lia].
  replace (Z.to_nat (Z.of_nat (length q) + Z.of_nat (length path) - Z.of_nat (length q)))
    with (length path) by lia.
  by rewrite Nat2Z.id, drop_app_length, take_app_length.
Qed.

Lemma index_middle q bit rest : index (q ++ bit :: rest) (Z.of_nat (length q)) = Some bit.
Proof.
  unfold index. lia_if.
  rewrite Nat2Z.id, lookup_app_r, Nat.sub_diag by lia. done.
Qed.

(** The loop of the verifier undoes the walk. *)
Lemma consistent_loop_chain pre nodes h h' :
  chain pre nodes h h' -> forall q rest more,
  consistent_loop (q ++ pre ++ rest) (rev nodes ++ more) (Z.of_nat (length q) + Z.of_nat (length pre)) h =
  consistent_loop (q ++ pre ++ rest) more (Z.of_nat (length q)) h'.
Proof.
  induction 1 as [|path bit other pre nodes h h' _ IH]; intros q rest more.
  { simpl. by rewrite Z.add_0_r. }
  simpl rev. rewrite <- app_assoc. simpl app.
  specialize (IH (q ++ path ++ [bit]) rest (mkProofNode other (Z.of_nat (length path)) :: more)).
  repeat (rewrite <- app_assoc in IH || rewrite <- app_assoc). simpl in IH |- *.
  rewrite !length_app in *. simpl in *.
  replace (Z.of_nat (length q) + Z.of_nat (length path + S (length pre)))
    with (Z.of_nat (length q + (length path + 1)) + Z.of_nat (length pre)) by lia.
  rewrite IH.
  replace (Z.of_nat (length q + (length path + 1)) - 1) with (Z.of_nat (length (q ++ path)))
    by (rewrite length_app; lia).
  rewrite (app_assoc q path (bit :: pre ++ rest)), index_middle. simpl.
  rewrite <- app_assoc.
  replace (Z.of_nat (length (q ++ path)) - Z.of_nat (length path)) with (Z.of_nat (length q))
    by (rewrite length_app; lia).
  replace (Z.of_nat (length (q ++ path))) with (Z.of_nat (length q) + Z.of_nat (length path))
    by (rewrite length_app; lia).
  by rewrite slice_middle.
Qed.

(** Where the walk stops: a node the remaining key does not lead below. *)
Record stop (current : node) (rest : list bool) : Prop := {
  stop_not_nil : current <> NilNode;
  stop_clean : clean hashTrieNode current;
  stop_uniform : uniform current (length rest);
  stop_here : hasPrefix rest (node_path current) &&
              Nat.ltb (length (node_path current)) (length rest) = false
}.

Lemma proof_walk_spec n p len :
  n <> NilNode -> clean hashTrieNode n -> uniform n (length p) ->
  exists pre rest nodes current,
    p = pre ++ rest /\ proof_walk p n len = Ok (nodes, current, (len + length pre)%nat) /\
    chain pre nodes (node_hash current) (node_hash n) /\
    stop current rest /\ get n p = get current rest.
Proof.
  revert p len. induction n as [|path v h l IHl r IHr sb]; [done|]. intros p len _ Hc Hu.
  cbn [proof_walk]. destruct (hasPrefix p path && Nat.ltb (length path) (length p)) eqn:Hstop.
  2:{ exists [], p, [], (Node path v h l r sb). rewrite Nat.add_0_r.
      split_and!; try done. constructor. }
  apply andb_true_iff in Hstop as [[t ->]%hasPrefix_spec Hlt%Nat.ltb_lt].
  rewrite length_app in Hlt. rewrite drop_app_length. destruct t as [|bit t]; [simpl in Hlt; lia|].
  destruct (uniform_shape _ _ _ _ _ _ _ Hc Hu) as [(_ & _ & _ & E)|(Hl & Hr & _)].
  { rewrite length_app in E. simpl in E. lia. }
  pose proof (clean_hash_internal _ _ _ _ _ _ Hc Hl Hr) as Hh. destruct Hc as (_ & _ & _ & Hcl & Hcr).
  pose proof (uniform_child _ _ _ _ _ _ bit _ Hu) as Hub.
  rewrite length_app in Hub. simpl in Hub.
  replace (length path + S (length t) - length path - 1)%nat with (length t) in Hub by lia.
  assert (exists pre rest nodes current, t = pre ++ rest /\
      proof_walk t (if bit then r else l) (len + length path + 1)
        = Ok (nodes, current, (len + length path + 1 + length pre)%nat) /\
      chain pre nodes (node_hash current) (node_hash (if bit then r else l)) /\
      stop current rest /\ get (if bit then r else l) t = get current rest)
    as (pre & rest & nodes & current & -> & Hw & Hch & Hst & Hg) by (destruct bit; eauto).
  exists (path ++ bit :: pre), rest, (mkProofNode (node_hash (if bit then l else r)) (Z.of_nat (length path)) :: nodes), current.
  rewrite <- app_assoc. split_and!; try done.
  - rewrite (proj2 (isNil_false (if bit then r else l)) ltac:(by destruct bit)).
    rewrite (proj2 (isNil_false (if bit then l else r)) ltac:(by destruct bit)).
    destruct bit; rewrite Hw; simpl; do 2 f_equal; rewrite length_app; simpl; lia.
  - simpl node_hash at 2. rewrite Hh. pose proof (chain_cons path bit (node_hash (if bit then l else r)) _ _ _ _ Hch) as Hcc.
    by destruct bit.
  - change ((bit :: pre) ++ rest) with (bit :: pre ++ rest). by rewrite get_child, Hg.
Qed.

Lemma stop_path_le current rest : stop current rest -> (length (node_path current) <= length rest)%nat.
Proof.
  intros [Hn Hc Hu _]. destruct current as [|p v h l r sb]; [done|].
  destruct (uniform_shape _ _ _ _ _ _ _ Hc Hu) as [(_ & _ & _ & ?)|(_ & _ & ?)]; simpl; lia.
Qed.

Lemma stop_full_path current rest :
  stop current rest -> length (node_path current) = length rest ->
  isLeaf current = true /\ node_value current <> zeroValueHash /\
  node_hash current = hashBytes [node_value current; pathBytes (node_path current)].
Proof.
  intros [Hn Hc Hu _] E. destruct current as [|p v h l r sb]; [done|]. simpl in E.
  destruct (uniform_shape _ _ _ _ _ _ _ Hc Hu) as [(-> & -> & Hv & _)|(_ & _ & ?)]; [|lia].
  destruct Hc as (_ & _ & -> & _). done.
Qed.

(** Stopping where the value is: the node is the key's leaf. *)
Lemma stop_included current rest :
  stop current rest -> get current rest <> zeroValueHash ->
  node_hash current = hashBytes [get current rest; pathBytes rest].
Proof.
  intros Hst Hg. pose proof (get_prefix _ _ Hg) as [t Ht].
  assert (length (node_path current) = length rest) as Hlen.
  { pose proof (stop_here _ _ Hst) as Hs. rewrite (proj2 (hasPrefix_spec _ _) (ex_intro _ t Ht)) in Hs.
    simpl in Hs. apply Nat.ltb_ge in Hs. pose proof (stop_path_le _ _ Hst). lia. }
  destruct (stop_full_path current rest Hst Hlen) as (_ & _ & ->).
  assert (t = []) as -> by (destruct t; [done|]; rewrite Ht, length_app in Hlen; simpl in Hlen; lia).
  rewrite app_nil_r in Ht. subst rest.
  destruct current as [|p v h l r sb]; [by destruct (stop_not_nil _ _ Hst)|]. by rewrite get_value.
Qed.

Lemma stop_excluded current rest :
  stop current rest -> get current rest = zeroValueHash -> node_path current <> rest.
Proof.
  intros Hst Hg E. destruct (stop_full_path current rest Hst) as (_ & Hv & _); [by rewrite E|].
  destruct current as [|p v h l r sb]; [by destruct (stop_not_nil _ _ Hst)|]. simpl in E. subst p.
  by rewrite get_value in Hg.
Qed.

Lemma slice_prefix pre rest : slice (pre ++ rest) 0 (Z.of_nat (length pre)) = Some pre.
Proof. apply (slice_middle [] pre rest). Qed.

Lemma slice_suffix pre rest :
  slice (pre ++ rest) (Z.of_nat (length pre)) (Z.of_nat (length (pre ++ rest))) = Some rest.
Proof.
  rewrite length_app, Nat2Z.inj_add. pose proof (slice_middle pre rest []) as E.
  by rewrite app_nil_r in E.
Qed.

(** The proof nodes of a walk that stopped are consistent with the key. *)
Lemma verify_consistent pre rest nodes n h h' :
  chain pre nodes h h' -> otherChildHash n = h ->
  calculateLastNodePathIndex (nodes ++ [n]) = Z.of_nat (length pre) /\
  verifyProofIsSelfConsistent h' (nodes ++ [n]) (pre ++ rest) (Z.of_nat (length pre)) = Some true.
Proof.
  intros Hch E. unfold calculateLastNodePathIndex, verifyProofIsSelfConsistent, lastNode.
  rewrite removelast_last, last_snoc. simpl. rewrite E. split.
  - apply (chain_walked _ _ _ _ Hch).
  - pose proof (consistent_loop_chain _ _ _ _ Hch [] rest []) as Hl.
    rewrite app_nil_r in Hl. simpl app in Hl. rewrite Z.add_0_l in Hl. rewrite Hl.
    simpl. by rewrite bool_decide_eq_true_2.
Qed.

(** The hash that an exclusion proof recomputes for the node it stops at. *)
Lemma stop_hash current rest :
  stop current rest ->
  node_hash current =
  if isLeaf current then hashBytes [node_value current; pathBytes (node_path current)]
  else hashBytes [node_hash (node_left current); node_hash (node_right current); pathBytes (node_path current)].
Proof.
  intros [Hn Hc Hu _]. destruct current as [|p v h l r sb]; [done|].
  destruct (uniform_shape _ _ _ _ _ _ _ Hc Hu) as [(-> & -> & _)|(Hl & Hr & _)].
  - by destruct Hc as (_ & _ & -> & _).
  - pose proof (clean_hash_internal _ _ _ _ _ _ Hc Hl Hr) as ->. unfold isLeaf. simpl.
    by rewrite (proj2 (isNil_false l) Hl).
Qed.

Lemma stop_two_children current rest :
  stop current rest -> isLeaf current = false ->
  isNil (node_left current) || isNil (node_right current) = false.
Proof.
  intros [Hn Hc Hu _] Hleaf. destruct current as [|p v h l r sb]; [done|].
  destruct (uniform_shape _ _ _ _ _ _ _ Hc Hu) as [(-> & -> & _)|(Hl & Hr & _)]; [done|].
  simpl. by rewrite (proj2 (isNil_false l) Hl), (proj2 (isNil_false r) Hr).
Qed.

Lemma verify_included nodes n pre rest v :
  otherChildHash n = hashBytes [v; pathBytes rest] ->
  verifyProofInclusion (nodes ++ [n]) (pre ++ rest) v (Z.of_nat (length pre)) = Some true.
Proof.
  intros E. unfold verifyProofInclusion, lastNode. rewrite slice_suffix, last_snoc. simpl.
  by rewrite bool_decide_eq_true_2.
Qed.

(** What [GetProof] returns for a walk that stopped at [current]. *)
Definition stopped_proof (nodes : list TrieProofNode) (current : node) (path : list bool) : TrieProof :=
  mkTrieProof (nodes ++ [mkProofNode (node_hash current) (Z.of_nat (length (node_path current)))]) path
    (Some (if isLeaf current then node_value current else node_hash (node_left current)))
    (if isLeaf current then None else Some (node_hash (node_right current))).

Lemma verify_excluded nodes current pre rest :
  stop current rest -> node_path current <> rest ->
  verifyProofExclusion
    (stopped_proof nodes current
       (pre ++ node_path current ++ drop (length (node_path current)) rest))
    (pre ++ rest) (Z.of_nat (length pre)) = Ok true.
Proof.
  intros Hst Hne. pose proof (stop_path_le _ _ Hst) as Hle.
  assert (rest <> []) as Hrest.
  { intros ->. apply Hne. apply nil_length_inv. simpl in Hle. lia. }
  unfold verifyProofExclusion, lastNode, stopped_proof. cbn [tp_path tp_nodes extraHashLeft extraHashRight].
  rewrite bool_decide_eq_false_2 by (rewrite !length_app, length_drop; lia).
  rewrite last_snoc. cbn [from_option prefixSize otherChildHash].
  replace (slice (pre ++ node_path current ++ _) 0 _) with (Some pre) by (symmetry; apply slice_prefix).
  unfold id. cbn [prefixSize otherChildHash].
  rewrite slice_middle, slice_prefix, slice_suffix.
  rewrite (bool_decide_eq_true_2 (pre = pre)) by done.
  replace (_ <? _) with true by (rewrite !length_app, length_drop; destruct rest; simpl in *; [done|lia]).
  rewrite (bool_decide_eq_false_2 (_ = rest)) by done.
  pose proof (stop_hash _ _ Hst) as Hh.
  by destruct (isLeaf current); cbn [from_option id]; rewrite (bool_decide_eq_true_2 _ Hh).
Qed.

Lemma GetProof_stopped f rootHash r path pre rest nodes current :
  findRoot f rootHash = Some r -> toBin path (toBinSize path) = pre ++ rest ->
  proof_walk (pre ++ rest) r 0 = Ok (nodes, current, length pre) -> stop current rest ->
  GetProof f rootHash path =
  Ok (stopped_proof nodes current (pre ++ node_path current ++ drop (length (node_path current)) rest)).
Proof.
  intros Hr E Hw Hst. unfold GetProof. rewrite Hr, E, Hw. cbn [bindO].
  rewrite (proj2 (isNil_false current) (stop_not_nil _ _ Hst)).
  unfold overwrite. pose proof (stop_path_le _ _ Hst) as Hle. rewrite length_app.
  replace (Nat.leb _ _) with true by (symmetry; apply Nat.leb_le; lia).
  rewrite take_app_length, drop_app_ge by lia.
  replace (length pre + length (node_path current) - length pre)%nat
    with (length (node_path current)) by lia.
  unfold stopped_proof. destruct (isLeaf current) eqn:Hleaf; [done|].
  by rewrite (stop_two_children _ _ Hst Hleaf).
Qed.

Lemma Verify_stopped rootHash path pre rest nodes current v :
  toBin path (toBinSize path) = pre ++ rest ->
  chain pre nodes (node_hash current) rootHash -> stop current rest -> get current rest = v ->
  Verify rootHash
    (Some (stopped_proof nodes current (pre ++ node_path current ++ drop (length (node_path current)) rest)))
    path v = Ok true.
Proof.
  intros E Hch Hst Hg. unfold Verify. cbn [stopped_proof tp_nodes].
  rewrite bool_decide_eq_false_2 by (by intros [_ ?]%app_nil).
  destruct (verify_consistent pre rest nodes
    (mkProofNode (node_hash current) (Z.of_nat (length (node_path current)))) _ _ Hch eq_refl) as [Hidx Hcons].
  rewrite Hidx, E, Hcons. case_bool_decide as Hv.
  - rewrite verify_included; [done|]. simpl. rewrite <- Hg. apply stop_included; [done|congruence].
  - apply verify_excluded; [done|]. apply stop_excluded; [done|].
    destruct (decide (v = zeroValueHash)); [congruence|done].
Qed.
End Completeness.

(** ** Properties *)

Section Properties.
Context `{Sha256Laws}.

(** Proofs of the forest are complete: in the newest revision, if its keys have the
    length of the given key, [GetProof] returns a proof and [Verify] accepts it for the
    value the revision holds there, the zero value (exclusion) included. *)
Theorem GetProof_complete f r path :
  forest_ok f -> last (roots f) = Some r ->
  uniform r (toBinSize path) -> (0 < length path)%nat ->
  exists proof, GetProof f (node_hash r) path = Ok proof /\
    Verify (node_hash r) (Some proof) path (get r (toBin path (toBinSize path))) = Ok true.
Proof.
  intros Hf Hlast Hu Hpos. pose proof (findRoot_newest f r Hlast) as Hr.
  destruct (newest_ok f r Hf Hlast) as [->|[Hn Hc]].
  - exists (mkTrieProof [] (toBin path (toBinSize path)) None None). unfold GetProof. rewrite Hr.
    assert (exists b p, toBin path (toBinSize path) = b :: p) as (b & p & E).
    { destruct (toBin path (toBinSize path)) eqn:E; [|by eauto].
      apply (f_equal length) in E. rewrite toBin_length in E. unfold toBinSize in E. simpl in E. lia. }
    rewrite E, get_createEmptyTrieNode. split; [by destruct b|]. simpl. by rewrite bool_decide_eq_true_2.
  - destruct (proof_walk_spec r (toBin path (toBinSize path)) 0 Hn Hc)
      as (pre & rest & nodes & current & E & Hw & Hch & Hst & Hg); [by rewrite toBin_length|].
    eexists. rewrite E in Hw. split; [by apply (GetProof_stopped f (node_hash r) r)|].
    by apply Verify_stopped.
Qed.

(** C38. Exclusion proofs are not sound: a revision that holds exactly one key accepts
    a forged proof that the key is absent, because a node is hashed without
    delimiting its value from its path; and the [nil] proof is accepted as the
    exclusion of any key under any root. *)
Theorem Verify_exclusion_forgery f rootHash r path v :
  forest_ok f -> findRoot f rootHash = Some r -> isLeaf r = true ->
  get r (toBin path (toBinSize path)) = v -> v <> zeroValueHash -> (0 < length path)%nat ->
  (exists forged, Verify rootHash (Some forged) path zeroValueHash = Ok true) /\
  (forall anyRoot anyPath, Verify anyRoot None anyPath zeroValueHash = Ok true).
Proof.
  intros Hf Hr Hleaf Hg Hv Hpos.
  split; [|intros; simpl; by rewrite bool_decide_eq_true_2].
  destruct (findRoot_ok f rootHash r Hf Hr) as [[->|[Hn Hc]] Hh].
  { by rewrite get_createEmptyTrieNode in Hg. }
  destruct r as [|p w h [] [] sb]; try done. rewrite get_leaf in Hg.
  case_decide as Ep; [|done]. subst w. destruct Hc as (_ & _ & -> & _).
  destruct p as [|b p].
  { apply (f_equal length) in Ep. rewrite toBin_length in Ep. unfold toBinSize in Ep. simpl in Ep. lia. }
  exists (mkTrieProof [mkProofNode rootHash (Z.of_nat (length p))] (p ++ [false]) (Some (v ++ [bit_byte b])) None).
  unfold Verify. cbn [tp_nodes]. rewrite bool_decide_eq_false_2 by done. rewrite Ep.
  unfold verifyProofIsSelfConsistent, calculateLastNodePathIndex. simpl.
  rewrite (bool_decide_eq_true_2 (rootHash = rootHash)) by done.
  rewrite bool_decide_eq_false_2 by naive_solver.
  unfold verifyProofExclusion. cbn [tp_path tp_nodes extraHashLeft extraHashRight].
  rewrite bool_decide_eq_false_2 by (rewrite length_app; simpl; lia).
  cbn [lastNode last from_option prefixSize otherChildHash]. unfold id. cbn [prefixSize].
  pose proof (slice_prefix p [false]) as Hsl. rewrite Z.add_0_l. rewrite Hsl.
  pose proof (slice_suffix [] (b :: p)) as Hs2. simpl app in Hs2. change (Z.of_nat (length [])) with 0 in Hs2.
  rewrite Hs2. change (slice (b :: p) 0 0) with (Some ([] : list bool)).
  replace (slice (p ++ [false]) 0 0) with (Some ([] : list bool)) by (symmetry; apply (slice_prefix [] (p ++ [false]))).
  rewrite (bool_decide_eq_true_2 ([] = [])) by done.
  replace (_ <? _) with true by (rewrite length_app; simpl; lia).
  rewrite (bool_decide_eq_false_2 (p = b :: p)).
  2:{ intros E. apply (f_equal length) in E. simpl in E. lia. }
  rewrite bool_decide_eq_true_2; [done|]. rewrite <- Hh. unfold hashTrieNode, hashBytes, CalcSha256. simpl.
  by rewrite !app_nil_r, <- app_assoc.
Qed.
(** The revision with one key. *)
Lemma one_key_root key v :
  v <> zeroValueHash ->
  let p := toBin key (toBinSize key) in
  update_root createEmptyTrieNode [mkTrieDiff key v] =
  Node p v (hashTrieNode (Node p v [] NilNode NilNode None)) NilNode NilNode None.
Proof.
  intros Hv p. destruct (update_root_spec createEmptyTrieNode [mkTrieDiff key v]) as [Hok Hg]; [by left|].
  apply root_ok_ext; [done| |].
  - right. split; [done|]. simpl. auto 10.
  - intros k. rewrite Hg, get_leaf. simpl. fold p. case_decide; [done|]. apply get_createEmptyTrieNode.
Qed.

Definition one_key_forest (key v : bytes) : Forest :=
  appendRoot (fst NewForest) (update_root createEmptyTrieNode [mkTrieDiff key v]).

Lemma one_key_forest_ok key v : forest_ok (one_key_forest key v).
Proof.
  apply forest_reachable_ok, (reach_update_root _ _ _ reach_new eq_refl).
Qed.

Lemma seven_not_zero : [7] <> zeroValueHash.
Proof. intros E. apply (f_equal length) in E. unfold zeroValueHash, GetZeroValueHash in E. by rewrite CalcSha256_length in E. Qed.

Lemma one_key_uniform key v :
  v <> zeroValueHash -> uniform (update_root createEmptyTrieNode [mkTrieDiff key v]) (toBinSize key).
Proof.
  intros Hv k. rewrite one_key_root, get_leaf by done. case_decide as E; [|done].
  intros _. by rewrite E, toBin_length.
Qed.
End Properties.

(** ** Witnesses *)

Section Witness.
#[local] Existing Instance crypto_sha256.

Lemma GetProof_complete_witness :
  let r := update_root createEmptyTrieNode [mkTrieDiff [1] [7]] in
  exists proof, GetProof (one_key_forest [1] [7]) (node_hash r) [2] = Ok proof /\
    Verify (node_hash r) (Some proof) [2] (get r (toBin [2] 8)) = Ok true.
Proof.
  intros r. apply (GetProof_complete (one_key_forest [1] [7]) r [2]).
  - apply one_key_forest_ok.
  - apply last_snoc.
  - apply (one_key_uniform [1] [7]), seven_not_zero.
  - simpl. lia.
Defined.

Lemma Verify_exclusion_forgery_witness :
  let r := update_root createEmptyTrieNode [mkTrieDiff [1] [7]] in
  exists forged, Verify (node_hash r) (Some forged) [1] zeroValueHash = Ok true.
Proof.
  intros r. apply (Verify_exclusion_forgery (one_key_forest [1] [7]) (node_hash r) r [1] [7]).
  - apply one_key_forest_ok.
  - apply findRoot_appendRoot.
  - unfold r. rewrite one_key_root by apply seven_not_zero. reflexivity.
  - unfold r. rewrite one_key_root by apply seven_not_zero. apply get_value.
  - apply seven_not_zero.
  - simpl. lia.
Defined.
End Witness.
