(* ===== verification/OrderedTree.v ===== *)
(** * Ordered Merkle trees (crypto/merkle/merkle_ordered_tree.go)

    The tree over the transactions or receipts of a block: the level-by-level
    calculation of its root, the trie built for proofs, proofs and their
    verification. *)

From stdpp Require Import base list.
From Stdlib Require Import ZArith Lia.
From S2P Require Import Prelude Hash MerkleAlgo.

(** ** Definitions *)

(** [int(math.Ceil(math.Log2(float64(n))))].  Log2 is exact on powers of two, and
    for any list that fits in memory the distance of [log2 n] from an integer is
    far above the rounding of a float64, so Ceil yields the exact ceiling.  (The
    result for 0, minus infinity, is used by no caller.) *)
Definition ceil_log2 (n : nat) : nat := Nat.log2_up n.

(** The bits of an index, most significant first. *)
Fixpoint toKey (index keySize : nat) : list bool :=
  match keySize with
  | O => []
  | S k => toKey (Nat.div2 index) k ++ [Nat.odd index]
  end.

Record OrderedTree := mkOrderedTree { ot_root : node; ot_keySize : nat; ot_maxKey : Z }.

Definition OrderedTreeProof := list bytes.

Definition FlattenOrderedTreeProof (proof : OrderedTreeProof) : bytes :=
  foldl (fun res v => res ++ v) [] proof.

Inductive tree_error := ErrIndexOutOfBounds | ErrProofMismatch.

Definition getEmptyHash : bytes := replicate 32 0.

Section Tree.
Context `{Sha256}.

Definition hashTwo (left right : bytes) : bytes :=
  match bytes_compare left right with
  | Gt => CalcSha256 [right; left]
  | _ => CalcSha256 [left; right]
  end.

(** One level.  [src] and [dst] are different slices in the first call and the same
    slice in the later ones ([aliased]), where the loop reads what it wrote. *)
Fixpoint collapse_pairs (aliased : bool) (src dst : list bytes) (j pairs : nat) : list bytes :=
  match pairs with
  | O => dst
  | S pairs' =>
      let from := if aliased then dst else src in
      let dst := <[(j / 2)%nat := hashTwo (nth (j - 1) from []) (nth j from [])]> dst in
      collapse_pairs aliased src dst (j + 2) pairs'
  end.

Definition calculateOrderedTreeRootCollapseOneLevel (aliased : bool) (src dst : list bytes)
    (size : nat) : list bytes * nat :=
  let dst := collapse_pairs aliased src dst 1 (size / 2) in
  let from := if aliased then dst else src in
  if bool_decide (size mod 2 <> 0)%nat
  then (<[(size / 2)%nat := nth (size - 1) from []]> dst, (size / 2 + 1)%nat)
  else (dst, (size / 2)%nat).

Fixpoint collapse_levels (iterations : nat) (nodes : list bytes) (n : nat) : list bytes :=
  match iterations with
  | O => nodes
  | S i =>
      let '(nodes, n) := calculateOrderedTreeRootCollapseOneLevel true nodes nodes n in
      collapse_levels i nodes n
  end.

Definition CalculateOrderedTreeRoot (values : list bytes) : bytes :=
  if bool_decide (length values = 0%nat) then getEmptyHash
  else
    let nodes := replicate (length values / 2 + 1) [] in
    let '(nodes, n) := calculateOrderedTreeRootCollapseOneLevel false values nodes (length values) in
    let iteration := ceil_log2 (length values) in
    nth 0 (collapse_levels (iteration - 1) nodes n) [].

(** A node with one child would make the Go code read a nil pointer; [create]
    never builds one ([create_root_tree] below). *)
Definition treeHash (n : node) : bytes :=
  if isLeaf n then node_value n else hashTwo (node_hash (node_left n)) (node_hash (node_right n)).

Definition create (values : list bytes) (keySize : nat) : node :=
  let root := Node [] [] [] NilNode NilNode None in
  if bool_decide (length values = 0%nat) then setHash getEmptyHash root
  else
    let root := foldl (fun root '(i, value) => insert value root (toKey i keySize))
                  root (zip (seq 0 (length values)) values) in
    endSandbox (collapseAndHash treeHash root).

Definition NewOrderedTree (values : list bytes) : OrderedTree :=
  let keySize := ceil_log2 (length values) in
  mkOrderedTree (create values keySize) keySize (Z.of_nat (length values) - 1).

Definition GetRoot (t : OrderedTree) : bytes := node_hash (ot_root t).

(** The loop of [GetProof] from [current] at bit [i] of the key. *)
Fixpoint proof_loop (keySize : nat) (keyInBytes : list bool) (current : node) (i : nat)
    : outcome tree_error OrderedTreeProof :=
  if Nat.ltb i keySize then
    match current with
    | NilNode => Panic
    | Node path _ _ l r _ =>
        let i := (i + length path)%nat in
        match (keyInBytes !! i : option bool) with
        | None => Panic
        | Some bit =>
            let other := if bit then l else r in
            let next := if bit then r else l in
            if isNil other || isNil next then Panic
            else if isLeaf next then Ok [node_hash other]
            else let! proof := (if bit then proof_loop keySize keyInBytes r (i + 1)
                                else proof_loop keySize keyInBytes l (i + 1)) in
                 Ok (node_hash other :: proof)
        end
    end
  else Ok [].

Definition GetProof (t : OrderedTree) (index : Z) : outcome tree_error OrderedTreeProof :=
  if (index <? 0) || (ot_maxKey t <? index) then Err ErrIndexOutOfBounds
  else proof_loop (ot_keySize t) (toKey (Z.to_nat index) (ot_keySize t)) (ot_root t) 0.

Definition Verify (value : bytes) (proof : OrderedTreeProof) (root : bytes)
    : outcome tree_error unit :=
  let current := foldl (fun current p => hashTwo current p) value (rev proof) in
  if bool_decide (root = current) then Ok tt else Err ErrProofMismatch.
End Tree.

(** ** The reference tree

    [mroot k vs] is the root over at most [2 ^ k] values: the first half of the
    index range against the rest, which may be empty. *)

Section Reference.
Context `{Sha256}.

Fixpoint mroot (k : nat) (vs : list bytes) : bytes :=
  match k with
  | O => nth 0 vs []
  | S k' =>
      if decide (length vs <= 2 ^ k')%nat then mroot k' vs
      else hashTwo (mroot k' (take (2 ^ k') vs)) (mroot k' (drop (2 ^ k') vs))
  end.

Lemma mroot_S k vs :
  mroot (S k) vs =
  if decide (length vs <= 2 ^ k)%nat then mroot k vs
  else hashTwo (mroot k (take (2 ^ k) vs)) (mroot k (drop (2 ^ k) vs)).
Proof. done. Qed.

(** One level of the bottom-up calculation. *)
Fixpoint pair_level (vs : list bytes) : list bytes :=
  match vs with
  | a :: b :: rest => hashTwo a b :: pair_level rest
  | _ => vs
  end.

Lemma hashTwo_comm a b : hashTwo a b = hashTwo b a.
Proof.
  unfold hashTwo. rewrite (bytes_compare_antisym a b).
  destruct (bytes_compare a b) eqn:E; simpl; try done.
  by apply bytes_compare_eq in E as ->.
Qed.

Lemma pair_level_length vs : length (pair_level vs) = Nat.div2 (S (length vs)).
Proof.
  induction vs as [vs IH] using (induction_ltof1 _ (@length bytes)). unfold ltof in IH.
  destruct vs as [|a [|b vs]]; simpl; try done. rewrite IH by (simpl; lia). done.
Qed.

Lemma pair_level_app vs1 vs2 :
  Nat.Even (length vs1) -> pair_level (vs1 ++ vs2) = pair_level vs1 ++ pair_level vs2.
Proof.
  induction vs1 as [vs IH] using (induction_ltof1 _ (@length bytes)). unfold ltof in IH.
  destruct vs as [|a [|b vs]]; simpl; intros He; [done|..].
  - by destruct He as [m Hm]; lia.
  - f_equal. apply IH; [simpl; lia|]. destruct He as [m Hm]. exists (m - 1)%nat. lia.
Qed.

Lemma div2_S_le m p : (Nat.div2 (S m) <= p)%nat <-> (m <= 2 * p)%nat.
Proof.
  pose proof (Nat.div2_odd (S m)) as Hd. destruct (Nat.odd (S m)); simpl Nat.b2n in Hd; lia.
Qed.

Lemma pair_level_split k vs :
  (2 ^ S k <= length vs)%nat ->
  take (2 ^ k) (pair_level vs) = pair_level (take (2 ^ S k) vs) /\
  drop (2 ^ k) (pair_level vs) = pair_level (drop (2 ^ S k) vs).
Proof.
  intros Hle. assert (2 ^ S k = 2 * 2 ^ k)%nat as Hpow by (simpl; lia).
  assert (length (pair_level (take (2 ^ S k) vs)) = 2 ^ k)%nat as Hl.
  { rewrite pair_level_length, length_take, Nat.min_l, Hpow by done.
    pose proof (Nat.div2_odd (S (2 * 2 ^ k))) as Hd. destruct (Nat.odd _); simpl Nat.b2n in Hd; lia. }
  rewrite <- (take_drop (2 ^ S k) vs) at 1 3. rewrite pair_level_app.
  - split; [apply take_app_length'|apply drop_app_length']; lia.
  - rewrite length_take, Nat.min_l by done. exists (2 ^ k)%nat. lia.
Qed.

(** Pairing the lowest level is building the tree one level lower. *)
Lemma mroot_pair_level k vs :
  (0 < length vs <= 2 ^ S k)%nat -> mroot (S k) vs = mroot k (pair_level vs).
Proof.
  revert vs. induction k as [|k IH]; intros vs Hlen.
  { simpl in Hlen. destruct vs as [|a [|b [|c vs]]]; simpl in *; try done; lia. }
  assert (2 ^ S k = 2 * 2 ^ k)%nat as Hpow by (simpl; lia).
  assert (2 ^ S (S k) = 2 * 2 ^ S k)%nat as Hpow2 by (simpl; lia).
  pose proof (pair_level_length vs) as Hpl. pose proof (div2_S_le (length vs) (2 ^ k)) as Hdiv.
  rewrite (mroot_S (S k)), (mroot_S k (pair_level vs)).
  destruct (decide (length vs <= 2 ^ S k)%nat) as [Hle|Hgt].
  - rewrite IH by lia. by rewrite decide_True by lia.
  - rewrite decide_False by lia. destruct (pair_level_split k vs) as [-> ->]; [lia|].
    rewrite !IH; [done|rewrite length_drop; lia|rewrite length_take; lia].
Qed.

Lemma pair_level_lookup vs m :
  pair_level vs !! m =
  if decide (2 * m + 1 < length vs)%nat
  then Some (hashTwo (nth (2 * m) vs []) (nth (2 * m + 1) vs []))
  else if decide (2 * m < length vs)%nat then Some (nth (2 * m) vs []) else None.
Proof.
  revert m. induction vs as [vs IH] using (induction_ltof1 _ (@length bytes)). unfold ltof in IH.
  intros m. destruct vs as [|a [|b vs]].
  - done.
  - destruct m; [done|]. simpl. repeat case_decide; try lia. done.
  - destruct m as [|m]; [done|].
    cbn [pair_level]. change ((hashTwo a b :: pair_level vs) !! S m) with (pair_level vs !! m).
    rewrite IH by (simpl; lia). replace (2 * S m)%nat with (S (S (2 * m))) by lia.
    simpl length. simpl nth. repeat case_decide; try lia; done.
Qed.

(** ** The level-by-level calculation *)

Lemma nth_insert_ne (l : list bytes) i j x : i <> j -> nth j (<[i:=x]> l) [] = nth j l [].
Proof. intros Hne. by rewrite !nth_lookup, list_lookup_insert_ne. Qed.

(** Writing at half the index one reads never disturbs a later read. *)
Lemma collapse_pairs_lookup (aliased : bool) src dst i pairs m :
  (i + pairs <= length dst)%nat ->
  let from := if aliased then dst else src in
  collapse_pairs aliased src dst (2 * i + 1) pairs !! m =
  if decide (i <= m < i + pairs)%nat
  then Some (hashTwo (nth (2 * m) from []) (nth (2 * m + 1) from [])) else dst !! m.
Proof.
  revert dst i. induction pairs as [|pairs IH]; intros dst i Hlen from.
  { simpl. by rewrite decide_False by lia. }
  cbn [collapse_pairs]. replace ((2 * i + 1) / 2)%nat with i.
  2:{ rewrite Nat.add_comm, Nat.mul_comm, Nat.div_add by lia. by simpl. }
  replace (2 * i + 1 + 2)%nat with (2 * S i + 1)%nat by lia.
  replace (2 * i + 1 - 1)%nat with (2 * i)%nat by lia.
  rewrite IH by (rewrite length_insert; lia). fold from.
  destruct (decide (m = i)) as [->|Hmi].
  - rewrite decide_False, decide_True by lia. by rewrite list_lookup_insert_eq by lia.
  - assert (forall j, (2 * S i <= j)%nat ->
      nth j (if aliased then <[i:=hashTwo (nth (2 * i) from []) (nth (2 * i + 1) from [])]> dst else src) []
      = nth j from []) as Hread.
    { intros j Hj. destruct aliased; [|done]. apply nth_insert_ne. lia. }
    rewrite list_lookup_insert_ne by lia.
    repeat case_decide; try lia; [|done]. by rewrite !Hread by lia.
Qed.

Lemma collapse_pairs_length aliased src dst j pairs :
  length (collapse_pairs aliased src dst j pairs) = length dst.
Proof.
  revert dst j. induction pairs as [|pairs IH]; intros dst j; [done|].
  cbn [collapse_pairs]. by rewrite IH, length_insert.
Qed.

Lemma nth_take_lt (l : list bytes) i n : (i < n)%nat -> nth i (take n l) [] = nth i l [].
Proof. intros Hi. by rewrite !nth_lookup, lookup_take_lt. Qed.

(** What the writes of one level leave in [dst], below the paired part. *)
Lemma paired_lookup (aliased : bool) src dst q m :
  (q <= length dst)%nat ->
  let from := if aliased then dst else src in
  collapse_pairs aliased src dst 1 q !! m =
  if decide (m < q)%nat
  then Some (hashTwo (nth (2 * m) from []) (nth (2 * m + 1) from [])) else dst !! m.
Proof.
  intros Hq from. pose proof (collapse_pairs_lookup aliased src dst 0 q m Hq) as Hp.
  simpl (2 * 0 + 1)%nat in Hp. rewrite Hp. repeat case_decide; try lia; done.
Qed.

Lemma collapse_even (aliased : bool) src dst q :
  let from := if aliased then dst else src in
  (2 * q <= length from)%nat -> (q <= length dst)%nat ->
  take q (collapse_pairs aliased src dst 1 q) = pair_level (take (2 * q) from).
Proof.
  intros from Hf Hq. apply list_eq. intros m.
  rewrite pair_level_lookup, length_take, Nat.min_l by done.
  destruct (decide (m < q)%nat) as [Hm|Hm].
  - rewrite lookup_take_lt, paired_lookup, !decide_True by lia. by rewrite !nth_take_lt by lia.
  - rewrite lookup_take_ge by lia. by rewrite !decide_False by lia.
Qed.

Lemma collapse_odd (aliased : bool) src dst q :
  let from := if aliased then dst else src in
  (2 * q + 1 <= length from)%nat -> (q + 1 <= length dst)%nat ->
  let dst' := collapse_pairs aliased src dst 1 q in
  take (q + 1) (<[q := nth (2 * q) (if aliased then dst' else src) []]> dst') =
  pair_level (take (2 * q + 1) from).
Proof.
  intros from Hf Hq dst'. apply list_eq. intros m.
  rewrite pair_level_lookup, length_take, Nat.min_l by done.
  assert (nth (2 * q) (if aliased then dst' else src) [] = nth (2 * q) from []) as ->.
  { unfold from, dst'. destruct aliased; [|done]. rewrite !nth_lookup, paired_lookup by lia.
    by rewrite decide_False by lia. }
  destruct (decide (m < q)%nat) as [Hm|Hm]; [|destruct (decide (m = q)) as [->|Hne]].
  - rewrite lookup_take_lt, list_lookup_insert_ne by lia. unfold dst'.
    rewrite paired_lookup, !decide_True by lia. by rewrite !nth_take_lt by lia.
  - rewrite lookup_take_lt, list_lookup_insert_eq by (unfold dst'; rewrite ?collapse_pairs_length; lia).
    rewrite decide_False, decide_True by lia. by rewrite nth_take_lt by lia.
  - rewrite lookup_take_ge by lia. by rewrite !decide_False by lia.
Qed.

Lemma collapse_level_spec (aliased : bool) src dst size :
  let from := if aliased then dst else src in
  (size <= length from)%nat -> (Nat.div2 (S size) <= length dst)%nat ->
  let out := calculateOrderedTreeRootCollapseOneLevel aliased src dst size in
  take out.2 out.1 = pair_level (take size from) /\ length out.1 = length dst /\
  out.2 = Nat.div2 (S size).
Proof.
  intros from Hsize Hdst. unfold calculateOrderedTreeRootCollapseOneLevel.
  destruct (Nat.Even_or_Odd size) as [[q ->]|[q ->]].
  - replace (2 * q / 2)%nat with q by (rewrite Nat.mul_comm, Nat.div_mul; lia).
    replace ((2 * q) mod 2)%nat with 0%nat by (rewrite Nat.mul_comm, Nat.Div0.mod_mul; lia).
    rewrite Nat.div2_succ_double in *. simpl (bool_decide _). cbv iota. cbn [fst snd].
    split_and!; [by apply collapse_even|apply collapse_pairs_length|done].
  - replace ((2 * q + 1) / 2)%nat with q by (rewrite Nat.mul_comm, Nat.div_add_l; simpl; lia).
    replace ((2 * q + 1) mod 2)%nat with 1%nat
      by (rewrite Nat.add_comm, Nat.mul_comm, Nat.Div0.mod_add; done).
    assert (Nat.div2 (S (2 * q + 1)) = q + 1)%nat as E.
    { replace (S (2 * q + 1)) with (2 * (q + 1))%nat by lia. apply Nat.div2_double. }
    rewrite E in *. simpl (bool_decide _). cbv iota. cbn [fst snd].
    replace (2 * q + 1 - 1)%nat with (2 * q)%nat by lia.
    split_and!; [by apply collapse_odd|by rewrite length_insert, collapse_pairs_length|done].
Qed.

Lemma collapse_levels_spec iterations nodes n :
  (0 < n <= 2 ^ iterations)%nat -> (n <= length nodes)%nat ->
  nth 0 (collapse_levels iterations nodes n) [] = mroot iterations (take n nodes).
Proof.
  revert nodes n. induction iterations as [|i IH]; intros nodes n Hn Hlen.
  { simpl. by rewrite nth_take_lt by lia. }
  assert (2 ^ S i = 2 * 2 ^ i)%nat as Hpow by (simpl; lia).
  pose proof (div2_S_le n (2 ^ i)) as Hd. pose proof (div2_S_le n n) as Hd2.
  pose proof (div2_S_le n 0) as Hd0.
  destruct (collapse_level_spec true nodes nodes n) as (Ht & Hl & Hn'); [lia|lia|].
  cbn [collapse_levels]. destruct (calculateOrderedTreeRootCollapseOneLevel _ _ _ _) as [nodes' n'].
  cbn [fst snd] in Ht, Hl, Hn'. subst n'.
  rewrite IH, Ht by lia. symmetry. apply mroot_pair_level.
  rewrite length_take. lia.
Qed.

Lemma ceil_log2_bounds n : (0 < n)%nat -> (n <= 2 ^ ceil_log2 n)%nat.
Proof. intros. by apply Nat.log2_log2_up_spec. Qed.

(** The bottom-up calculation yields the root of the reference tree. *)
Lemma CalculateOrderedTreeRoot_mroot values :
  values <> [] -> CalculateOrderedTreeRoot values = mroot (ceil_log2 (length values)) values.
Proof.
  intros Hne. unfold CalculateOrderedTreeRoot.
  rewrite bool_decide_eq_false_2 by by destruct values.
  assert (0 < length values)%nat as Hpos by (destruct values; simpl; [done|lia]).
  set (nodes := replicate (length values / 2 + 1) ([] : bytes)).
  assert (Nat.div2 (S (length values)) <= length nodes)%nat as Hfit.
  { unfold nodes. rewrite length_replicate, Nat.div2_div.
    pose proof (Nat.div_mod_eq (length values) 2) as Hdm.
    pose proof (Nat.mod_upper_bound (length values) 2 ltac:(lia)) as Hmod.
    rewrite <- Nat.div2_div. apply div2_S_le. lia. }
  destruct (collapse_level_spec false values nodes (length values)) as (Ht & Hl & Hn'); [done|done|].
  destruct (calculateOrderedTreeRootCollapseOneLevel _ _ _ _) as [nodes' n']. cbn [fst snd] in Ht, Hl, Hn'.
  rewrite firstn_all in Ht. pose proof (div2_S_le (length values) 0) as Hd0.
  pose proof (ceil_log2_bounds _ Hpos) as Hlog.
  destruct (ceil_log2 (length values)) as [|i] eqn:E.
  - destruct values as [|v [|w values]]; simpl in *; [done| |lia].
    subst n'. assert (nodes' !! 0%nat = Some v) as Hv.
    { rewrite <- (lookup_take_lt nodes' 1 0) by lia. by rewrite Ht. }
    by rewrite nth_lookup, Hv.
  - replace (S i - 1)%nat with i by lia. pose proof (div2_S_le (length values) (2 ^ i)) as Hd.
    rewrite collapse_levels_spec by (simpl in Hlog; lia).
    rewrite Ht. symmetry. apply mroot_pair_level. lia.
Qed.
End Reference.

(** ** Keys *)

Lemma toKey_length i k : length (toKey i k) = k.
Proof. revert i. induction k as [|k IH]; intros i; [done|]. simpl. rewrite length_app, IH. simpl. lia. Qed.

Lemma toKey_low i k : (i < 2 ^ k)%nat -> toKey i (S k) = false :: toKey i k.
Proof.
  revert i. induction k as [|k IH]; intros i Hi.
  { simpl in Hi. by replace i with 0%nat by lia. }
  change (toKey i (S (S k))) with (toKey (Nat.div2 i) (S k) ++ [Nat.odd i]).
  rewrite IH; [done|]. rewrite Nat.div2_div. apply Nat.Div0.div_lt_upper_bound. simpl in Hi. lia.
Qed.

Lemma toKey_high i k : (i < 2 ^ k)%nat -> toKey (2 ^ k + i) (S k) = true :: toKey i k.
Proof.
  revert i. induction k as [|k IH]; intros i Hi.
  { simpl in Hi. by replace i with 0%nat by lia. }
  change (toKey (2 ^ S k + i) (S (S k))) with (toKey (Nat.div2 (2 ^ S k + i)) (S k) ++ [Nat.odd (2 ^ S k + i)]).
  replace (2 ^ S k + i)%nat with (i + 2 * 2 ^ k)%nat by (simpl; lia).
  rewrite Nat.odd_add_mul_2, !Nat.div2_div, (Nat.mul_comm 2 (2 ^ k)), Nat.div_add by lia.
  rewrite Nat.add_comm, IH; [by rewrite <- Nat.div2_div|].
  apply Nat.Div0.div_lt_upper_bound. simpl in Hi. lia.
Qed.

Section Trie.
Context `{Sha256}.

(** The trie over [vs] with keys of [k] bits below the prefix [p]. *)
Fixpoint tree (k : nat) (p : list bool) (vs : list bytes) : node :=
  match k with
  | O => Node p (nth 0 vs []) (nth 0 vs []) NilNode NilNode None
  | S k' =>
      if decide (length vs <= 2 ^ k')%nat then tree k' (p ++ [false]) vs
      else Node p zeroValueHash (hashTwo (mroot k' (take (2 ^ k') vs)) (mroot k' (drop (2 ^ k') vs)))
             (tree k' [] (take (2 ^ k') vs)) (tree k' [] (drop (2 ^ k') vs)) None
  end.

(** Its contents. *)
Fixpoint at_key (k : nat) (vs : list bytes) (t : list bool) : bytes :=
  match k, t with
  | O, [] => match vs with [] => zeroValueHash | v :: _ => v end
  | S k', b :: t' => at_key k' (if b then drop (2 ^ k') vs else take (2 ^ k') vs) t'
  | _, _ => zeroValueHash
  end.

Lemma tree_hash k p vs : node_hash (tree k p vs) = mroot k vs.
Proof. revert p vs. induction k as [|k IH]; intros p vs; simpl; [done|]. by case_decide. Qed.

Lemma tree_not_nil k p vs : tree k p vs <> NilNode.
Proof. revert p vs. induction k as [|k IH]; intros p vs; simpl; [done|]. by case_decide. Qed.

Lemma at_key_nil k t : at_key k [] t = zeroValueHash.
Proof.
  revert t. induction k as [|k IH]; intros [|b t]; simpl; try done.
  by destruct b; rewrite ?drop_nil, ?take_nil.
Qed.

Lemma at_key_snoc k vs v t :
  (length vs < 2 ^ k)%nat ->
  at_key k (vs ++ [v]) t = if decide (t = toKey (length vs) k) then v else at_key k vs t.
Proof.
  revert vs t. induction k as [|k IH]; intros vs t Hlen.
  { simpl in Hlen. destruct vs; simpl in *; [|lia]. destruct t; [done|]. by rewrite decide_False. }
  destruct t as [|b t].
  { rewrite decide_False; [done|]. intros E. apply (f_equal length) in E. by rewrite toKey_length in E. }
  assert (2 ^ S k = 2 * 2 ^ k)%nat as Hpow by (simpl; lia). cbn [at_key].
  destruct (decide (length vs < 2 ^ k)%nat) as [Hlt|Hge].
  - rewrite toKey_low by done. rewrite !take_ge, !drop_ge by (rewrite ?length_app; simpl; lia).
    destruct b; [by rewrite decide_False, !at_key_nil|].
    rewrite IH by done. repeat case_decide; congruence.
  - assert (toKey (length vs) (S k) = true :: toKey (length vs - 2 ^ k) k) as ->.
    { rewrite <- toKey_high by lia. f_equal. lia. }
    rewrite take_app_le, drop_app_le by lia.
    destruct b; [|by rewrite decide_False].
    rewrite IH by (rewrite length_drop; lia). rewrite length_drop. repeat case_decide; congruence.
Qed.

Lemma tree_get k p vs key :
  (0 < length vs <= 2 ^ k)%nat ->
  get (tree k p vs) key =
  match strip p key with None => zeroValueHash | Some t => at_key k vs t end.
Proof.
  revert p vs key. induction k as [|k IH]; intros p vs key Hlen.
  { destruct vs as [|v vs]; [simpl in *; lia|]. simpl. destruct (strip p key) as [[|[] ?]|]; done. }
  assert (2 ^ S k = 2 * 2 ^ k)%nat as Hpow by (simpl; lia). cbn [tree].
  case_decide as Hle.
  - rewrite IH, strip_app by lia. destruct (strip p key) as [[|b t]|]; simpl; try done.
    rewrite take_ge, drop_ge by lia. by destruct b; [rewrite at_key_nil|].
  - cbn [get]. destruct (strip p key) as [[|b t]|]; try done.
    destruct b; rewrite IH; simpl; rewrite ?length_drop, ?length_take; lia || done.
Qed.

Lemma treeHash_two l r p v h sb :
  l <> NilNode -> r <> NilNode -> treeHash (Node p v h l r sb) = hashTwo (node_hash l) (node_hash r).
Proof. by destruct l, r. Qed.

Lemma tree_clean k p vs :
  (0 < length vs <= 2 ^ k)%nat -> Forall (fun v => v <> zeroValueHash) vs -> clean treeHash (tree k p vs).
Proof.
  revert p vs. induction k as [|k IH]; intros p vs Hlen Hnz.
  { destruct vs as [|v vs]; [simpl in *; lia|]. apply Forall_cons in Hnz as [Hv _]. simpl. auto 10. }
  assert (2 ^ S k = 2 * 2 ^ k)%nat as Hpow by (simpl; lia). cbn [tree].
  case_decide as Hle; [apply IH; [lia|done]|].
  cbn [clean]. split_and!; try done.
  - right. split; apply tree_not_nil.
  - rewrite treeHash_two by apply tree_not_nil. by rewrite !tree_hash.
  - apply IH; [rewrite length_take; lia|by apply Forall_take].
  - apply IH; [rewrite length_drop; lia|by apply Forall_drop].
Qed.

#[export] Instance treeHash_hasher : NodeHasher treeHash.
Proof.
  intros p v h h' l l' r r' sb sb' Hl Hlh Hr Hrh. unfold treeHash, isLeaf. simpl.
  by rewrite Hl, Hlh, Hr, Hrh.
Qed.

(** The root keeps the empty value it starts with when the keys are not empty. *)
Definition root_tree (k : nat) (vs : list bytes) : node :=
  match k with
  | O => tree O [] vs
  | S k' =>
      Node [] [] (hashTwo (mroot k' (take (2 ^ k') vs)) (mroot k' (drop (2 ^ k') vs)))
        (tree k' [] (take (2 ^ k') vs)) (tree k' [] (drop (2 ^ k') vs)) None
  end.

Lemma root_tree_get k vs key :
  (2 ^ k < length vs <= 2 ^ S k)%nat ->
  get (root_tree (S k) vs) key = if decide (key = []) then [] else at_key (S k) vs key.
Proof.
  intros Hlen. assert (2 ^ S k = 2 * 2 ^ k)%nat as Hpow by (simpl; lia).
  destruct key as [|b key]; [done|]. rewrite decide_False by done. cbn [root_tree get strip at_key].
  destruct b; rewrite tree_get; simpl; rewrite ?length_drop, ?length_take; lia || done.
Qed.

Lemma inserts_zip_snoc k root values v :
  foldl (fun root '(i, value) => insert value root (toKey i k)) root
    (zip (seq 0 (length (values ++ [v]))) (values ++ [v])) =
  insert v (foldl (fun root '(i, value) => insert value root (toKey i k)) root
    (zip (seq 0 (length values)) values)) (toKey (length values) k).
Proof.
  rewrite length_app. simpl. rewrite Nat.add_1_r, seq_S, zip_with_app by by rewrite length_seq.
  by rewrite foldl_app.
Qed.

(** The trie that [create] collapses: its contents, with every change tracked. *)
Lemma inserts_contents k values :
  (length values <= 2 ^ S k)%nat ->
  let root := foldl (fun root '(i, value) => insert value root (toKey i (S k)))
                (Node [] [] [] NilNode NilNode None) (zip (seq 0 (length values)) values) in
  root <> NilNode /\ tracked treeHash root /\
  forall key, get root key = if decide (key = []) then [] else at_key (S k) values key.
Proof.
  induction values as [|v values IH] using rev_ind; intros Hlen; cbn zeta.
  { split_and!; try done. intros [|b key]; [done|]. rewrite decide_False, at_key_nil by done. by destruct b. }
  rewrite length_app in Hlen. simpl in Hlen. destruct IH as (Hn & Ht & Hg); [simpl; lia|].
  rewrite inserts_zip_snoc. split_and!.
  - by apply insert_not_nil.
  - by apply insert_tracked.
  - intros key. rewrite get_insert, Hg by done. rewrite at_key_snoc by (simpl; lia).
    destruct (decide (key = [])) as [->|]; [|done].
    rewrite decide_False; [done|]. intros E. apply (f_equal length) in E. by rewrite toKey_length in E.
Qed.

Lemma zeroValueHash_not_empty `{!Sha256Laws} : [] <> zeroValueHash.
Proof.
  intros E. apply (f_equal length) in E. unfold zeroValueHash, GetZeroValueHash in E.
  by rewrite CalcSha256_length in E.
Qed.

Lemma ceil_log2_tight n k : ceil_log2 n = S k -> (2 ^ k < n <= 2 ^ S k)%nat.
Proof.
  intros E. unfold ceil_log2 in E. destruct (Nat.log2_up_spec n) as [Hlo Hhi].
  - destruct n as [|[|n]]; simpl in E; try done; lia.
  - rewrite E in Hlo, Hhi. by simpl pred in Hlo.
Qed.

Lemma ceil_log2_0 n : (0 < n)%nat -> ceil_log2 n = 0%nat -> n = 1%nat.
Proof. intros Hn E. pose proof (ceil_log2_bounds n Hn) as Hb. rewrite E in Hb. simpl in Hb. lia. Qed.

(** The trie [create] builds is the reference tree. *)
Lemma create_root_tree `{!Sha256Laws} values :
  values <> [] -> Forall (fun v => v <> zeroValueHash) values ->
  create values (ceil_log2 (length values)) = root_tree (ceil_log2 (length values)) values.
Proof.
  intros Hne Hnz. assert (0 < length values)%nat as Hpos by (destruct values; simpl; [done|lia]).
  unfold create. rewrite bool_decide_eq_false_2 by lia.
  destruct (ceil_log2 (length values)) as [|k] eqn:E.
  - apply (ceil_log2_0 _ Hpos) in E. destruct values as [|v [|]]; try done.
    apply Forall_cons in Hnz as [Hv _].
    apply (clean_ext treeHash);
      [apply collapse_clean; [apply _|by apply insert_tracked]|apply tree_clean; [simpl; lia|by constructor]|].
    intros key. change (root_tree 0 [v]) with (tree 0 [] [v]).
    rewrite get_endSandbox, get_collapse, tree_get by (simpl; lia).
    change (foldl _ _ _) with (insert v (Node [] [] [] NilNode NilNode None) []).
    rewrite get_insert by done. by destruct key as [|[] ?].
  - apply ceil_log2_tight in E. destruct (inserts_contents k values) as (Hn & Ht & Hg); [lia|].
    apply (clean_ext treeHash); [apply collapse_clean; [apply _|exact Ht]| |].
    + cbn [root_tree clean]. assert (2 ^ S k = 2 * 2 ^ k)%nat as Hpow by (simpl; lia).
      split_and!; try done; [left; apply zeroValueHash_not_empty|..].
      * rewrite treeHash_two by apply tree_not_nil. by rewrite !tree_hash.
      * apply tree_clean; [rewrite length_take; lia|by apply Forall_take].
      * apply tree_clean; [rewrite length_drop; lia|by apply Forall_drop].
    + intros key. by rewrite get_endSandbox, get_collapse, root_tree_get, Hg.
Qed.

Lemma root_tree_hash values :
  values <> [] -> node_hash (root_tree (ceil_log2 (length values)) values)
                  = mroot (ceil_log2 (length values)) values.
Proof.
  intros Hne. destruct (ceil_log2 (length values)) as [|k] eqn:E; [done|].
  apply ceil_log2_tight in E. simpl. by rewrite decide_False by lia.
Qed.
End Trie.

(** ** Proofs *)

Section Proofs.
Context `{Sha256}.

Lemma tree_isLeaf k p vs :
  (0 < length vs <= 2 ^ k)%nat -> isLeaf (tree k p vs) = bool_decide (length vs = 1%nat).
Proof.
  revert p vs. induction k as [|k IH]; intros p vs Hlen.
  { simpl in *. by rewrite bool_decide_eq_true_2 by lia. }
  assert (2 ^ S k = 2 * 2 ^ k)%nat as Hpow by (simpl; lia).
  assert (0 < 2 ^ k)%nat as Hpos by (apply Nat.neq_0_lt_0, Nat.pow_nonzero; lia).
  cbn [tree]. case_decide; [apply IH; lia|]. rewrite bool_decide_eq_false_2 by lia.
  unfold isLeaf. cbn [node_left node_right].
  by rewrite (proj2 (isNil_false _) (tree_not_nil k [] _)).
Qed.

Lemma mroot_single k v : mroot k [v] = v.
Proof.
  induction k as [|k IH]; [done|]. rewrite mroot_S, decide_True; [done|].
  simpl. apply Nat.neq_0_lt_0, Nat.pow_nonzero. lia.
Qed.

(** A proof for the [idx]-th value of [vs] at [current]. *)
Definition proves (keySize : nat) (key : list bool) (current : node) (i : nat) (vs : list bytes)
    (idx : nat) (root : bytes) : Prop :=
  exists proof, proof_loop keySize key current i = Ok proof /\
    foldl hashTwo (nth idx vs []) (rev proof) = root.

(** One step of the loop, at a node whose children are reference trees. *)
Lemma proof_loop_step keySize key k p v h lvs rvs i (bit : bool) t idx :
  length key = keySize -> drop i key = p ++ bit :: t ->
  (0 < length lvs <= 2 ^ k)%nat -> (0 < length rvs <= 2 ^ k)%nat ->
  let vs := if bit then rvs else lvs in
  (idx < length vs)%nat ->
  ((2 <= length vs)%nat ->
     proves keySize key (tree k [] vs) (i + length p + 1) vs idx (mroot k vs)) ->
  proves keySize key (Node p v h (tree k [] lvs) (tree k [] rvs) None) i vs idx
    (hashTwo (mroot k lvs) (mroot k rvs)).
Proof.
  intros Hkey Hdrop Hl Hr vs Hidx IH.
  assert (length (drop i key) = length key - i)%nat as Hlen by apply length_drop.
  rewrite Hdrop, length_app in Hlen. simpl in Hlen.
  assert (key !! (i + length p)%nat = Some bit) as Hbit.
  { rewrite <- lookup_drop, Hdrop, lookup_app_r, Nat.sub_diag by lia. done. }
  unfold proves. cbn [proof_loop]. replace (Nat.ltb i keySize) with true
    by (symmetry; apply Nat.ltb_lt; lia).
  rewrite Hbit. rewrite (proj2 (isNil_false (if bit then _ else _)) ltac:(destruct bit; apply tree_not_nil)).
  rewrite (proj2 (isNil_false (if bit then _ else _)) ltac:(destruct bit; apply tree_not_nil)).
  cbn [orb].
  assert (forall a b : list bytes, (if bit then tree k [] a else tree k [] b) = tree k [] (if bit then a else b))
    as Hsel by by destruct bit.
  rewrite !Hsel, tree_hash, tree_isLeaf by (subst vs; destruct bit; lia). fold vs.
  assert (forall x, hashTwo (mroot k vs) (mroot k (if bit then lvs else rvs)) = x ->
            hashTwo (mroot k lvs) (mroot k rvs) = x) as Hside.
  { intros x <-. unfold vs. destruct bit; [apply hashTwo_comm|done]. }
  case_bool_decide as H1.
  - eexists. split; [done|]. simpl. symmetry. apply Hside. f_equal.
    destruct vs as [|w [|]]; try done. simpl in Hidx. replace idx with 0%nat by lia. apply mroot_single.
  - destruct (IH ltac:(lia)) as (proof & Hp & Hf). clear IH.
    exists (mroot k (if bit then lvs else rvs) :: proof). split.
    + unfold vs in Hp. destruct bit; by rewrite Hp.
    + simpl. rewrite foldl_app. simpl. rewrite Hf. symmetry. by apply Hside.
Qed.

(** The half of the values a key's first bit selects, and the index in it. *)
Lemma toKey_split idx k (vs : list bytes) :
  (2 ^ k < length vs <= 2 ^ S k)%nat -> (idx < length vs)%nat ->
  exists (bit : bool) idx', let half := if bit then drop (2 ^ k) vs else take (2 ^ k) vs in
    toKey idx (S k) = bit :: toKey idx' k /\ (idx' < length half)%nat /\ nth idx' half [] = nth idx vs [].
Proof.
  intros Hlen Hidx. assert (2 ^ S k = 2 * 2 ^ k)%nat as Hpow by (simpl; lia).
  destruct (decide (idx < 2 ^ k)%nat) as [Hlt|Hge].
  - exists false, idx. cbn zeta. rewrite length_take, nth_take_lt by done.
    split_and!; [by apply toKey_low|lia|done].
  - exists true, (idx - 2 ^ k)%nat. cbn zeta. rewrite length_drop. split_and!; [|lia|].
    + rewrite <- toKey_high by lia. f_equal. lia.
    + rewrite !nth_lookup, lookup_drop. do 2 f_equal. lia.
Qed.

Lemma proof_loop_halves keySize key k p v h vs i idx :
  (forall p vs i idx, drop i key = p ++ toKey idx k -> (idx < length vs)%nat ->
     (2 <= length vs <= 2 ^ k)%nat -> proves keySize key (tree k p vs) i vs idx (mroot k vs)) ->
  length key = keySize -> drop i key = p ++ toKey idx (S k) ->
  (2 ^ k < length vs <= 2 ^ S k)%nat -> (idx < length vs)%nat ->
  proves keySize key
    (Node p v h (tree k [] (take (2 ^ k) vs)) (tree k [] (drop (2 ^ k) vs)) None) i vs idx (mroot (S k) vs).
Proof.
  intros IH Hkey Hdrop Hlen Hidx. assert (2 ^ S k = 2 * 2 ^ k)%nat as Hpow by (simpl; lia).
  assert (0 < 2 ^ k)%nat as Hpos by (apply Nat.neq_0_lt_0, Nat.pow_nonzero; lia).
  rewrite mroot_S, decide_False by lia.
  destruct (toKey_split idx k vs Hlen Hidx) as (bit & idx' & E & Hidx' & Hnth).
  rewrite E in Hdrop. unfold proves. rewrite <- Hnth.
  apply (proof_loop_step keySize key k p v h (take (2 ^ k) vs) (drop (2 ^ k) vs) i bit (toKey idx' k) idx');
    rewrite ?length_take, ?length_drop; try lia; try done.
  intros H2. apply IH; [|done|destruct bit; rewrite ?length_take, ?length_drop in *; lia].
  rewrite <- Nat.add_assoc, <- drop_drop, Hdrop, drop_app_ge by lia.
  by replace (length p + 1 - length p)%nat with 1%nat by lia.
Qed.

Lemma proof_loop_tree keySize key k p vs i idx :
  length key = keySize -> drop i key = p ++ toKey idx k -> (idx < length vs)%nat ->
  (2 <= length vs <= 2 ^ k)%nat -> proves keySize key (tree k p vs) i vs idx (mroot k vs).
Proof.
  intros Hkey. revert p vs i idx. induction k as [|k IH]; intros p vs i idx Hdrop Hidx Hlen.
  { simpl in Hlen. lia. }
  assert (2 ^ S k = 2 * 2 ^ k)%nat as Hpow by (simpl; lia).
  cbn [tree]. case_decide as Hle.
  - rewrite mroot_S, decide_True by done. apply IH; try done; [|lia].
    rewrite Hdrop, toKey_low by lia. by rewrite <- app_assoc.
  - apply proof_loop_halves; try done. lia.
Qed.

Lemma root_tree_proves values idx :
  (idx < length values)%nat ->
  let k := ceil_log2 (length values) in
  proves k (toKey idx k) (root_tree k values) 0 values idx (mroot k values).
Proof.
  intros Hidx. cbn zeta. destruct (ceil_log2 (length values)) as [|k] eqn:E.
  - apply ceil_log2_0 in E; [|lia]. destruct values as [|v [|]]; try done.
    exists []. split; [done|]. simpl in *. by replace idx with 0%nat by lia.
  - apply ceil_log2_tight in E. apply proof_loop_halves; try done.
    + intros. apply proof_loop_tree; try done. apply toKey_length.
    + apply toKey_length.
Qed.
End Proofs.

(** ** Properties *)

Section Properties.
Context `{Sha256Laws}.

(** The root calculated level by level, in place, is the root of the trie built
    for proofs, for any list of values none of which is the hash of the empty
    string; the two also agree on the empty list. *)
Theorem CalculateOrderedTreeRoot_trie values :
  Forall (fun v => v <> zeroValueHash) values ->
  CalculateOrderedTreeRoot values = GetRoot (NewOrderedTree values).
Proof.
  intros Hnz. destruct values as [|v values]; [done|].
  unfold GetRoot, NewOrderedTree. cbn [ot_root].
  by rewrite CalculateOrderedTreeRoot_mroot, create_root_tree, root_tree_hash.
Qed.

(** A proof is made for every index, and accepted. *)
Lemma GetProof_Verify values index :
  Forall (fun v => v <> zeroValueHash) values ->
  if decide (0 <= index < Z.of_nat (length values)) then
    exists proof, GetProof (NewOrderedTree values) index = Ok proof /\
      Verify (nth (Z.to_nat index) values []) proof (CalculateOrderedTreeRoot values) = Ok tt
  else GetProof (NewOrderedTree values) index = Err ErrIndexOutOfBounds.
Proof.
  intros Hnz. unfold GetProof, NewOrderedTree. cbn [ot_root ot_keySize ot_maxKey].
  case_decide as Hidx.
  - lia_if.
    assert (values <> []) as Hne by (intros ->; simpl in Hidx; lia).
    rewrite CalculateOrderedTreeRoot_mroot, create_root_tree by done.
    destruct (root_tree_proves values (Z.to_nat index)) as (proof & Hp & Hf); [lia|].
    exists proof. split; [done|]. unfold Verify. by rewrite bool_decide_eq_true_2.
  - by lia_if.
Qed.

(** Proofs are complete: for every index of the tree [GetProof] returns a proof,
    and [Verify] accepts it for the value at that index and the root calculated
    level by level; an index out of range is an error. *)
Theorem GetProof_verifies values index :
  Forall (fun v => v <> zeroValueHash) values ->
  if decide (0 <= index < Z.of_nat (length values)) then
    exists proof, GetProof (NewOrderedTree values) index = Ok proof /\
      Verify (nth (Z.to_nat index) values []) proof (CalculateOrderedTreeRoot values) = Ok tt
  else GetProof (NewOrderedTree values) index = Err ErrIndexOutOfBounds.
Proof. apply GetProof_Verify. Qed.
Lemma short_not_zero v : length v <> SHA256_HASH_SIZE_BYTES -> v <> zeroValueHash.
Proof. intros Hl ->. apply Hl, CalcSha256_length. Qed.

Lemma three_values_ok : Forall (fun v => v <> zeroValueHash) [[1]; [2]; [3]].
Proof. repeat constructor; by apply short_not_zero. Qed.
End Properties.

(** ** Witnesses *)

Section Witness.
#[local] Existing Instance crypto_sha256.

Lemma CalculateOrderedTreeRoot_trie_witness :
  CalculateOrderedTreeRoot [[1]; [2]; [3]] = GetRoot (NewOrderedTree [[1]; [2]; [3]]).
Proof. apply CalculateOrderedTreeRoot_trie. exact three_values_ok. Defined.

Lemma GetProof_verifies_witness :
  exists proof, GetProof (NewOrderedTree [[1]; [2]; [3]]) 2 = Ok proof /\
    Verify [3] proof (CalculateOrderedTreeRoot [[1]; [2]; [3]]) = Ok tt.
Proof. exact (GetProof_verifies [[1]; [2]; [3]] 2 three_values_ok). Defined.
End Witness.
