(* ===== verification/Protocol.v ===== *)
(** * Protocol data (the orbs-spec types the services exchange)

    The generated orbs-spec types are read through their accessors; a value here
    is the record of what the accessors the services call return.  Equality of
    two such values stands for equality of the messages' contents. *)

From stdpp Require Import base list.
From Stdlib Require Import ZArith.
From S2P Require Import Prelude.

(** ** State diffs *)

Record StateRecord := mkStateRecord { sr_Key : bytes; sr_Value : bytes }.

Record ContractStateDiff := mkContractStateDiff {
  csd_ContractName : bytes;
  csd_StateDiffs : list StateRecord
}.

(** ** Block headers *)

Record TransactionsBlockHeader := mkTxHeader {
  txh_ProtocolVersion : Z;
  txh_VirtualChainId : Z;
  txh_BlockHeight : Z;
  txh_PrevBlockHashPtr : bytes;
  txh_Timestamp : Z;
  txh_TransactionsMerkleRootHash : bytes;
  txh_MetadataHash : bytes;
  txh_NumSignedTransactions : Z;
  txh_BlockProposerAddress : bytes
}.

Record ResultsBlockHeader := mkRxHeader {
  rxh_ProtocolVersion : Z;
  rxh_VirtualChainId : Z;
  rxh_BlockHeight : Z;
  rxh_PrevBlockHashPtr : bytes;
  rxh_Timestamp : Z;
  rxh_ReceiptsMerkleRootHash : bytes;
  rxh_StateDiffHash : bytes;
  rxh_TransactionsBlockHashPtr : bytes;
  rxh_PreExecutionStateMerkleRootHash : bytes;
  rxh_NumTransactionReceipts : Z;
  rxh_NumContractStateDiffs : Z;
  rxh_BlockProposerAddress : bytes
}.

#[export] Instance StateRecord_eq_dec : EqDecision StateRecord.
Proof. solve_decision. Defined.
#[export] Instance ContractStateDiff_eq_dec : EqDecision ContractStateDiff.
Proof. solve_decision. Defined.
#[export] Instance TransactionsBlockHeader_eq_dec : EqDecision TransactionsBlockHeader.
Proof. solve_decision. Defined.
#[export] Instance ResultsBlockHeader_eq_dec : EqDecision ResultsBlockHeader.
Proof. solve_decision. Defined.

(** ** Transactions and receipts *)

(** [sg_Eddsa] is the public key when the signer's scheme is Eddsa. *)
Record Signer := mkSigner { sg_Raw : bytes; sg_Eddsa : option bytes }.

Record Transaction := mkTransaction {
  tx_ProtocolVersion : Z;
  tx_VirtualChainId : Z;
  tx_Timestamp : Z;
  tx_Signer : Signer;
  tx_ContractName : bytes;
  tx_MethodName : bytes;
  tx_InputArgumentArray : bytes
}.

Record SignedTransaction := mkSignedTransaction {
  stx_Transaction : Transaction;
  stx_Signature : bytes
}.

Record TransactionReceipt := mkReceipt {
  tr_Txhash : bytes;
  tr_ExecutionResult : Z;
  tr_OutputArgumentArray : bytes;
  tr_OutputEventsArray : bytes
}.

Inductive TransactionStatus :=
| TRANSACTION_STATUS_RESERVED
| TRANSACTION_STATUS_COMMITTED
| TRANSACTION_STATUS_DUPLICATE_TRANSACTION_ALREADY_COMMITTED
| TRANSACTION_STATUS_PENDING
| TRANSACTION_STATUS_DUPLICATE_TRANSACTION_ALREADY_PENDING
| TRANSACTION_STATUS_PRE_ORDER_VALID
| TRANSACTION_STATUS_NO_RECORD_FOUND
| TRANSACTION_STATUS_REJECTED_UNSUPPORTED_VERSION
| TRANSACTION_STATUS_REJECTED_VIRTUAL_CHAIN_MISMATCH
| TRANSACTION_STATUS_REJECTED_TIMESTAMP_WINDOW_EXCEEDED
| TRANSACTION_STATUS_REJECTED_SIGNATURE_MISMATCH
| TRANSACTION_STATUS_REJECTED_UNKNOWN_SIGNER_SCHEME
| TRANSACTION_STATUS_REJECTED_GLOBAL_PRE_ORDER
| TRANSACTION_STATUS_REJECTED_VIRTUAL_CHAIN_PRE_ORDER
| TRANSACTION_STATUS_REJECTED_SMART_CONTRACT_PRE_ORDER
| TRANSACTION_STATUS_REJECTED_TIMESTAMP_AHEAD_OF_NODE_TIME
| TRANSACTION_STATUS_REJECTED_CONGESTION
| TRANSACTION_STATUS_REJECTED_NODE_OUT_OF_SYNC.

(** ** Blocks

    A container carries its header; a [nil] container is [None] where the code
    allows one. *)

Inductive BlockProofType := ProofNone | ProofBenchmarkConsensus | ProofLeanHelix.

Record BlockProof := mkBlockProof { bp_Type : BlockProofType; bp_Raw : bytes }.

Record TransactionsBlockContainer := mkTxBlock {
  txb_Header : TransactionsBlockHeader;
  txb_Metadata : bytes;
  txb_SignedTransactions : list SignedTransaction;
  txb_BlockProof : BlockProof
}.

Record ResultsBlockContainer := mkRxBlock {
  rxb_Header : ResultsBlockHeader;
  rxb_TransactionReceipts : list TransactionReceipt;
  rxb_ContractStateDiffs : list ContractStateDiff;
  rxb_BlockProof : BlockProof
}.

Record BlockPairContainer := mkBlockPair {
  bpc_TransactionsBlock : TransactionsBlockContainer;
  bpc_ResultsBlock : ResultsBlockContainer
}.

(** ** Wire encoding

    [Raw()]: the membuffers encoding of a message, a library the services call. *)

Class Membuffers := {
  raw_Transaction : Transaction -> bytes;
  raw_SignedTransaction : SignedTransaction -> bytes;
  raw_TransactionReceipt : TransactionReceipt -> bytes;
  raw_ContractStateDiff : ContractStateDiff -> bytes;
  raw_TransactionsBlockHeader : TransactionsBlockHeader -> bytes;
  raw_ResultsBlockHeader : ResultsBlockHeader -> bytes;
  (** what the builders make when no field is set *)
  raw_EmptyMetadata : bytes;
  empty_TransactionsBlockProof : BlockProof;
  empty_ResultsBlockProof : BlockProof
}.

#[export] Instance Signer_eq_dec : EqDecision Signer.
Proof. solve_decision. Defined.
#[export] Instance Transaction_eq_dec : EqDecision Transaction.
Proof. solve_decision. Defined.
#[export] Instance SignedTransaction_eq_dec : EqDecision SignedTransaction.
Proof. solve_decision. Defined.
#[export] Instance TransactionReceipt_eq_dec : EqDecision TransactionReceipt.
Proof. solve_decision. Defined.
#[export] Instance TransactionStatus_eq_dec : EqDecision TransactionStatus.
Proof. solve_decision. Defined.
#[export] Instance BlockProofType_eq_dec : EqDecision BlockProofType.
Proof. solve_decision. Defined.

(** A concrete encoding, for evaluating examples: the fields one after the other. *)
Definition plain_Transaction (t : Transaction) : bytes :=
  [tx_ProtocolVersion t; tx_VirtualChainId t; tx_Timestamp t] ++ sg_Raw (tx_Signer t)
    ++ tx_ContractName t ++ tx_MethodName t ++ tx_InputArgumentArray t.

Definition plain_membuffers : Membuffers := {|
  raw_Transaction := plain_Transaction;
  raw_SignedTransaction t := plain_Transaction (stx_Transaction t) ++ stx_Signature t;
  raw_TransactionReceipt r :=
    tr_Txhash r ++ [tr_ExecutionResult r] ++ tr_OutputArgumentArray r ++ tr_OutputEventsArray r;
  raw_ContractStateDiff d :=
    csd_ContractName d ++ concat (map (fun r => sr_Key r ++ sr_Value r) (csd_StateDiffs d));
  raw_TransactionsBlockHeader h :=
    [txh_ProtocolVersion h; txh_VirtualChainId h; txh_BlockHeight h; txh_Timestamp h]
      ++ txh_PrevBlockHashPtr h ++ txh_TransactionsMerkleRootHash h ++ txh_MetadataHash h
      ++ txh_BlockProposerAddress h;
  raw_ResultsBlockHeader h :=
    [rxh_ProtocolVersion h; rxh_VirtualChainId h; rxh_BlockHeight h; rxh_Timestamp h]
      ++ rxh_PrevBlockHashPtr h ++ rxh_ReceiptsMerkleRootHash h ++ rxh_StateDiffHash h
      ++ rxh_TransactionsBlockHashPtr h ++ rxh_BlockProposerAddress h;
  raw_EmptyMetadata := [];
  empty_TransactionsBlockProof := mkBlockProof ProofNone [];
  empty_ResultsBlockProof := mkBlockProof ProofNone []
|}.
