(* ===== verification/Digest.v ===== *)
(** * Digests and block validators (crypto/digest, crypto/validators)

    Hashes of transactions, receipts, headers and blocks, transaction ids, and the
    validators that compare a header with the contents of its block. *)

From stdpp Require Import base list.
From Stdlib Require Import ZArith Lia ZifyBool.
From S2P Require Import Prelude Hash MerkleAlgo OrderedTree Protocol.

Section Digest.
Context `{Sha256, Membuffers}.

Definition CalcTxHash (transaction : Transaction) : bytes := CalcSha256 [raw_Transaction transaction].

Definition CalcReceiptHash (receipt : TransactionReceipt) : bytes :=
  CalcSha256 [raw_TransactionReceipt receipt].

Definition CalcReceiptHashes (receipts : list TransactionReceipt) : list bytes := map CalcReceiptHash receipts.

Definition CalcTransactionMetaDataHash (metaData : bytes) : bytes := CalcSha256 [metaData].

(** [nil] blocks hash to [nil]. *)
Definition CalcTransactionsBlockHash (transactionsBlock : option TransactionsBlockContainer) : bytes :=
  match transactionsBlock with
  | None => []
  | Some b => CalcSha256 [raw_TransactionsBlockHeader (txb_Header b)]
  end.

Definition CalcResultsBlockHash (resultsBlock : option ResultsBlockContainer) : bytes :=
  match resultsBlock with
  | None => []
  | Some b => CalcSha256 [raw_ResultsBlockHeader (rxb_Header b)]
  end.

Definition CalcBlockHash (transactionsBlock : option TransactionsBlockContainer)
    (resultsBlock : option ResultsBlockContainer) : bytes :=
  match transactionsBlock, resultsBlock with
  | Some _, Some _ =>
      CalcSha256 [CalcTransactionsBlockHash transactionsBlock; CalcResultsBlockHash resultsBlock]
  | _, _ => []
  end.

Definition CalcTransactionsMerkleRoot (txs : list SignedTransaction) : bytes :=
  CalculateOrderedTreeRoot (map (fun tx => CalcTxHash (stx_Transaction tx)) txs).

Definition CalcReceiptsMerkleRoot (receipts : list TransactionReceipt) : bytes :=
  CalculateOrderedTreeRoot (CalcReceiptHashes receipts).

Definition CalcStateDiffHash (stateDiffs : list ContractStateDiff) : bytes :=
  CalcSha256 (map raw_ContractStateDiff stateDiffs).

Definition CalcNewBlockTimestamp (prevBlockTimestamp now : Z) : Z :=
  if prevBlockTimestamp <? now then now else u64_add prevBlockTimestamp 1.

(** ** Transaction ids *)

Definition TX_ID_SIZE_BYTES : nat := 8 + 32.

(** [membuffers.WriteUint64] and [GetUint64]: little endian. *)
Fixpoint le_bytes (w : nat) (z : Z) : bytes :=
  match w with O => [] | S w' => z mod 256 :: le_bytes w' (z / 256) end.

Fixpoint le_word (bs : bytes) : Z :=
  match bs with [] => 0 | b :: bs' => b + 256 * le_word bs' end.

(** [copy(res[8:], txHash)] into a zeroed buffer. *)
Definition GenerateTxId (txHash : bytes) (txTimestamp : Z) : bytes :=
  le_bytes 8 txTimestamp ++ take 32 txHash ++ replicate (32 - length txHash) 0.

Definition CalcTxId (transaction : Transaction) : bytes :=
  GenerateTxId (CalcTxHash transaction) (tx_Timestamp transaction).

Inductive digest_error := ErrTxIdLength.

Definition ExtractTxId (txId : bytes) : outcome digest_error (bytes * Z) :=
  if bool_decide (length txId <> TX_ID_SIZE_BYTES) then Err ErrTxIdLength
  else Ok (drop 8 txId, le_word (take 8 txId)).

(** ** Block validators *)

Inductive block_error :=
| ErrMismatchedTxMerkleRoot
| ErrMismatchedMetadataHash
| ErrMismatchedReceiptsRootHash
| ErrMismatchedStateDiffHash
| ErrMismatchedBlockHash
| ErrNilBlock.

Definition ValidateTransactionsBlockMerkleRoot (b : TransactionsBlockContainer) : outcome block_error unit :=
  if bool_decide (txh_TransactionsMerkleRootHash (txb_Header b)
                  = CalcTransactionsMerkleRoot (txb_SignedTransactions b))
  then Ok tt else Err ErrMismatchedTxMerkleRoot.

Definition ValidateTransactionsBlockMetadataHash (b : TransactionsBlockContainer) : outcome block_error unit :=
  if bool_decide (txh_MetadataHash (txb_Header b) = CalcTransactionMetaDataHash (txb_Metadata b))
  then Ok tt else Err ErrMismatchedMetadataHash.

Definition ValidateReceiptsMerkleRoot (b : ResultsBlockContainer) : outcome block_error unit :=
  if bool_decide (rxh_ReceiptsMerkleRootHash (rxb_Header b)
                  = CalcReceiptsMerkleRoot (rxb_TransactionReceipts b))
  then Ok tt else Err ErrMismatchedReceiptsRootHash.

Definition ValidateResultsBlockStateDiffHash (b : ResultsBlockContainer) : outcome block_error unit :=
  if bool_decide (rxh_StateDiffHash (rxb_Header b) = CalcStateDiffHash (rxb_ContractStateDiffs b))
  then Ok tt else Err ErrMismatchedStateDiffHash.

Definition ValidateBlockHash (expectedBlockHash : bytes)
    (transactionsBlock : option TransactionsBlockContainer)
    (resultsBlock : option ResultsBlockContainer) : outcome block_error unit :=
  match transactionsBlock, resultsBlock with
  | Some _, Some _ =>
      if bool_decide (expectedBlockHash = CalcBlockHash transactionsBlock resultsBlock)
      then Ok tt else Err ErrMismatchedBlockHash
  | _, _ => Err ErrNilBlock
  end.
End Digest.

(** ** Lemmas *)

Lemma le_bytes_length w z : length (le_bytes w z) = w.
Proof. revert z. induction w; intros z; simpl; [done|]. by rewrite IHw. Qed.

Lemma le_word_bytes w z : 0 <= z < 256 ^ Z.of_nat w -> le_word (le_bytes w z) = z.
Proof.
  revert z. induction w as [|w IH]; intros z Hz; [simpl in *; lia|].
  rewrite Nat2Z.inj_succ, Z.pow_succ_r in Hz by lia. cbn [le_bytes le_word].
  rewrite IH; [pose proof (Z.div_mod z 256 ltac:(lia)); lia|].
  split; [apply Z.div_pos; lia|apply Z.div_lt_upper_bound; lia].
Qed.

Section Properties.
Context `{Sha256, Membuffers}.

(** A transaction id determines the hash and the timestamp it was made from. *)
Theorem ExtractTxId_GenerateTxId txHash txTimestamp :
  length txHash = 32%nat -> is_u64 txTimestamp ->
  ExtractTxId (GenerateTxId txHash txTimestamp) = Ok (txHash, txTimestamp).
Proof.
  intros Hl Hts. unfold ExtractTxId, GenerateTxId.
  rewrite Hl, Nat.sub_diag. change (replicate 0 0) with ([] : bytes). rewrite app_nil_r, take_ge by lia.
  rewrite bool_decide_eq_false_2 by (rewrite length_app, le_bytes_length, Hl; unfold TX_ID_SIZE_BYTES; lia).
  rewrite drop_app_length', take_app_length' by by rewrite le_bytes_length.
  rewrite le_word_bytes; [done|]. unfold is_u64 in Hts. simpl. lia.
Qed.

(** A proposed block timestamp is later than the previous block's. *)
Theorem CalcNewBlockTimestamp_increases prevBlockTimestamp now :
  is_u64 prevBlockTimestamp -> prevBlockTimestamp < 2 ^ 64 - 1 ->
  prevBlockTimestamp < CalcNewBlockTimestamp prevBlockTimestamp now.
Proof.
  unfold is_u64, CalcNewBlockTimestamp. intros Hp Hlt.
  destruct (Z.ltb_spec prevBlockTimestamp now); [lia|]. words. lia.
Qed.
Lemma ordered_root_swap (a b : bytes) rest :
  CalculateOrderedTreeRoot (a :: b :: rest) = CalculateOrderedTreeRoot (b :: a :: rest).
Proof.
  rewrite !CalculateOrderedTreeRoot_mroot by done.
  change (length (b :: a :: rest)) with (length (a :: b :: rest)).
  pose proof (ceil_log2_bounds (length (a :: b :: rest)) ltac:(simpl; lia)) as Hb.
  destruct (ceil_log2 (length (a :: b :: rest))) as [|k]; [simpl in Hb; lia|].
  rewrite !mroot_pair_level by (simpl in *; lia). cbn [pair_level]. by rewrite hashTwo_comm.
Qed.

(** The transactions root does not commit to the order of the transactions: the
    pairs of the tree are hashed in sorted order, so a block whose first two
    transactions are swapped is validated against the same header. *)
Theorem merkle_root_ignores_order header metadata proof t1 t2 rest :
  ValidateTransactionsBlockMerkleRoot (mkTxBlock header metadata (t1 :: t2 :: rest) proof) =
  ValidateTransactionsBlockMerkleRoot (mkTxBlock header metadata (t2 :: t1 :: rest) proof).
Proof.
  unfold ValidateTransactionsBlockMerkleRoot, CalcTransactionsMerkleRoot. simpl.
  by rewrite ordered_root_swap.
Qed.
End Properties.

(** ** Witnesses *)

Lemma ExtractTxId_GenerateTxId_witness :
  ExtractTxId (GenerateTxId (replicate 32 7) 1571000000000000000) = Ok (replicate 32 7, 1571000000000000000).
Proof. apply ExtractTxId_GenerateTxId; [reflexivity|unfold is_u64; lia]. Defined.

Lemma CalcNewBlockTimestamp_increases_witness : 10 < CalcNewBlockTimestamp 10 3.
Proof. apply CalcNewBlockTimestamp_increases; [unfold is_u64; lia|lia]. Defined.
