(* ===== verification/BlockTracker.v ===== *)
(** * Waiting for a block height (synchronization/block_tracker.go)

    A tracker holds the height of the last block and a latch that is closed and
    replaced on every increment.  A latch is the number of increments made before
    it was created: it is closed as soon as the tracker holds a later one. *)

From stdpp Require Import base list.
From Stdlib Require Import ZArith Lia.
From S2P Require Import Prelude.

Record BlockTracker := mkTracker {
  graceDistance : Z;
  currentHeight : Z;
  latch : nat
}.

Definition NewBlockTracker (startingHeight graceDist : Z) : BlockTracker :=
  mkTracker graceDist startingHeight 0.

Inductive tracker_error := ErrOutsideGraceRange | ErrAbortedWhileWaiting.

(** An unexpected height is a panic. *)
Definition IncrementTo (t : BlockTracker) (height : Z) : outcome tracker_error BlockTracker :=
  if bool_decide (height <> u64_add (currentHeight t) 1) then Panic
  else Ok (mkTracker (graceDistance t) (u64_add (currentHeight t) 1) (S (latch t))).

(** What the services tell about committed heights ([BlockHeightReporter]): the
    default reporter does nothing, the acceptance network passes a tracker. *)
Class HeightReporter (R : Type) := hr_IncrementTo : R -> Z -> outcome tracker_error R.

Record NopHeightReporter := mkNopHeightReporter {}.

#[export] Instance nop_reporter : HeightReporter NopHeightReporter := fun r _ => Ok r.
#[export] Instance tracker_reporter : HeightReporter BlockTracker := IncrementTo.

Definition readAtomicHeightAndLatch (t : BlockTracker) : Z * nat := (currentHeight t, latch t).

Definition latchClosed (t : BlockTracker) (l : nat) : bool := Nat.ltb l (latch t).

(** ** [WaitForBlock]

    The call is a small state machine: it returns at once or waits on a latch;
    a waiting call leaves its [select] when the context is done or when its latch
    is closed, and then reads height and latch again. *)

Inductive waiter :=
| Waiting (observedHeight : Z) (currentLatch : nat)
| Returned (err : option tracker_error).

Definition wait_loop (t : BlockTracker) (requestedHeight : Z) : waiter :=
  let '(h, l) := readAtomicHeightAndLatch t in
  if h <? requestedHeight then Waiting h l else Returned None.

Definition wait_call (t : BlockTracker) (requestedHeight : Z) : waiter :=
  if requestedHeight <=? currentHeight t then Returned None
  else if u64_add (currentHeight t) (graceDistance t) <? requestedHeight
  then Returned (Some ErrOutsideGraceRange)
  else wait_loop t requestedHeight.

Definition wait_ctx_done (w : waiter) : waiter :=
  match w with
  | Waiting _ _ => Returned (Some ErrAbortedWhileWaiting)
  | Returned _ => w
  end.

(** [None] while the latch is open: the [select] does not take this branch. *)
Definition wait_latch (t : BlockTracker) (requestedHeight : Z) (w : waiter) : option waiter :=
  match w with
  | Waiting _ l => if latchClosed t l then Some (wait_loop t requestedHeight) else None
  | Returned _ => None
  end.

(** A tracker and one caller waiting for [requestedHeight], interleaved with the
    increments of other goroutines.  Heights count blocks, so an increment starts
    below the largest [uint64]. *)
Inductive tracker_step (requestedHeight : Z) : BlockTracker * waiter -> BlockTracker * waiter -> Prop :=
| step_increment t t' w height :
    0 <= currentHeight t < 2 ^ 64 - 1 ->
    IncrementTo t height = Ok t' -> tracker_step requestedHeight (t, w) (t', w)
| step_ctx_done t w :
    tracker_step requestedHeight (t, w) (t, wait_ctx_done w)
| step_latch t w w' :
    wait_latch t requestedHeight w = Some w' -> tracker_step requestedHeight (t, w) (t, w').

Inductive tracker_reachable (requestedHeight : Z) : BlockTracker * waiter -> Prop :=
| tracker_init t : tracker_reachable requestedHeight (t, wait_call t requestedHeight)
| tracker_next s s' :
    tracker_reachable requestedHeight s -> tracker_step requestedHeight s s' ->
    tracker_reachable requestedHeight s'.

(** What a waiter knows about the tracker it reads. *)
Definition waiter_ok (requestedHeight : Z) (t : BlockTracker) (w : waiter) : Prop :=
  match w with
  | Waiting h l => h < requestedHeight /\ (l <= latch t)%nat /\ (l = latch t -> h = currentHeight t)
  | Returned None => requestedHeight <= currentHeight t
  | Returned (Some _) => True
  end.

Lemma IncrementTo_Ok t height t' :
  IncrementTo t height = Ok t' ->
  height = u64_add (currentHeight t) 1 /\ currentHeight t' = height /\
  latch t' = S (latch t) /\ graceDistance t' = graceDistance t.
Proof. unfold IncrementTo. case_bool_decide; intros; simplify_eq. simpl. split_and!; try done; lia. Qed.

Lemma IncrementTo_next t height :
  height = u64_add (currentHeight t) 1 ->
  IncrementTo t height = Ok (mkTracker (graceDistance t) height (S (latch t))).
Proof. intros ->. unfold IncrementTo. by rewrite bool_decide_eq_false_2 by naive_solver. Qed.

Lemma wait_loop_ok t r : waiter_ok r t (wait_loop t r).
Proof. unfold wait_loop. simpl. destruct (_ <? _) eqn:E; simpl; [split_and!|]; lia. Qed.

Lemma wait_call_ok t r : waiter_ok r t (wait_call t r).
Proof.
  unfold wait_call. destruct (_ <=? _) eqn:E; [simpl; lia|].
  destruct (_ <? _); [done|]. apply wait_loop_ok.
Qed.

Lemma tracker_reachable_ok r t w : tracker_reachable r (t, w) -> waiter_ok r t w.
Proof.
  remember (t, w) as s eqn:E. intros Hr. revert t w E.
  induction Hr as [t|s s' Hr IH Hs]; intros t' w' ?; simplify_eq; [apply wait_call_ok|].
  inversion Hs as [t0 t1 w0 height Hb HI|t0 w0|t0 w0 w1 HL]; subst.
  - apply IncrementTo_Ok in HI as (-> & Hc & Hl & _). specialize (IH _ _ eq_refl).
    rewrite u64_add_small in Hc by lia.
    destruct w' as [h l|[]]; simpl in *; [|done|lia].
    destruct IH as (? & ? & ?). split_and!; lia.
  - specialize (IH _ _ eq_refl). by destruct w0 as [|[]].
  - destruct w0 as [h l|e]; simpl in *; [|done].
    destruct (latchClosed _ _); simplify_eq. apply wait_loop_ok.
Qed.

(** No wake-up is lost: in every interleaving, a caller that still waits when
    the tracker has reached its height finds its latch closed, and the step it can
    then take returns without an error. *)
Theorem WaitForBlock_no_lost_wakeup requestedHeight t h l :
  tracker_reachable requestedHeight (t, Waiting h l) -> requestedHeight <= currentHeight t ->
  wait_latch t requestedHeight (Waiting h l) = Some (Returned None).
Proof.
  intros Hr Hge. apply tracker_reachable_ok in Hr as (Hlt & Hle & Heq). simpl.
  unfold latchClosed, wait_loop. simpl.
  assert (l < latch t)%nat by (destruct (Nat.eq_dec l (latch t)); lia).
  replace (Nat.ltb l (latch t)) with true by (symmetry; by apply Nat.ltb_lt).
  destruct (Z.ltb_spec (currentHeight t) requestedHeight); [lia|done].
Qed.

(** A call that returns without an error returns when the requested block is
    committed, in every interleaving. *)
Theorem WaitForBlock_ok_reached requestedHeight t :
  tracker_reachable requestedHeight (t, Returned None) -> requestedHeight <= currentHeight t.
Proof. apply tracker_reachable_ok. Qed.

(** A caller waits for block 6 at height 5; the block arrives; the caller returns. *)
Lemma waiting_for_6 :
  tracker_reachable 6 (mkTracker 5 6 1, wait_loop (mkTracker 5 5 0) 6).
Proof.
  apply (tracker_next 6 (mkTracker 5 5 0, wait_call (mkTracker 5 5 0) 6)); [apply tracker_init|].
  apply (step_increment 6 _ _ _ 6); [simpl; lia|reflexivity].
Qed.

Lemma WaitForBlock_no_lost_wakeup_witness :
  wait_latch (mkTracker 5 6 1) 6 (Waiting 5 0) = Some (Returned None).
Proof. apply WaitForBlock_no_lost_wakeup; [exact waiting_for_6|simpl; lia]. Defined.

Lemma WaitForBlock_ok_reached_witness : 6 <= currentHeight (mkTracker 5 6 1).
Proof.
  apply WaitForBlock_ok_reached.
  apply (tracker_next 6 (mkTracker 5 6 1, Waiting 5 0)); [exact waiting_for_6|].
  apply step_latch. reflexivity.
Defined.
