(* ===== verification/StateStorage.v ===== *)
(** * State storage (services/statestorage)

    The in-memory persistence of the committed state, the rolling revisions that
    keep the most recent state diffs in memory on top of it, and the service that
    commits diffs and answers reads at a block height. *)

From stdpp Require Import base gmap list.
From Stdlib Require Import ZArith Lia.
From S2P Require Import Prelude Hash MerkleAlgo MerkleForest BlockTracker.

(** ** Chain state (adapter/persistence.go) *)

Abbreviation ContractState := (gmap bytes bytes).
Abbreviation ChainState := (gmap bytes (gmap bytes bytes)).

(** [diff[contract][key]]: reading a missing contract yields no record. *)
Definition chain_lookup (d : ChainState) (contract key : bytes) : option bytes :=
  m ← d !! contract; m !! key.

Definition chain_records (d : ChainState) : list (bytes * bytes * bytes) :=
  concat (map (fun '(c, m) => map (fun '(k, v) => (c, k, v)) (map_to_list m)) (map_to_list d)).

(** Go ranges over a map in an unspecified order; two nodes, or two calls, may
    see different ones. *)
Class GoMapOrder := {
  chain_range : ChainState -> list (bytes * bytes * bytes);
  chain_range_perm d : chain_range d ≡ₚ chain_records d
}.

Definition isZeroValue (value : bytes) : bool := bool_decide (value = []).
Definition newZeroValue : bytes := [].

Inductive state_error :=
| ErrFailedToUpdateMerkle
| ErrHeightTooNew
| ErrHeightTooOld
| ErrNoMerkleHash
| ErrPersistence
| ErrMissingContractName
| ErrNotYetCommitted (e : tracker_error)
| ErrUnsupportedHeight
| ErrNoValueFound.

(** ** Interfaces of the rolling revisions *)

Class StatePersistence (P : Type) := {
  Write : P -> Z -> Z -> bytes -> bytes -> ChainState -> outcome (state_error * P) P;
  Read : P -> bytes -> bytes -> outcome state_error (bytes * bool);
  ReadMetadata : P -> outcome state_error (Z * Z * bytes * bytes)
}.

Class MerkleRevisions (M : Type) := {
  mr_Update : M -> bytes -> list TrieDiff -> outcome forest_error (M * bytes);
  mr_Forget : M -> bytes -> outcome forest_error M
}.

(** ** The in-memory persistence (adapter/memory/memory_persistence.go) *)

Record InMemoryStatePersistence := mkPersistence {
  fullState : ChainState;
  sp_height : Z;
  sp_ts : Z;
  sp_proposer : bytes;
  sp_merkleRoot : bytes
}.

Definition writeOneRecord (fs : ChainState) (c key value : bytes) : ChainState :=
  let fs := match fs !! c with None => <[c := ∅]> fs | Some _ => fs end in
  if isZeroValue value then alter (delete key) c fs
  else alter (<[key := value]>) c fs.

Section Memory.
Context {SHA : Sha256} {GMO : GoMapOrder}.

Definition NewStatePersistence : InMemoryStatePersistence :=
  mkPersistence ∅ 0 0 [] (snd NewForest).

Definition memory_Write (sp : InMemoryStatePersistence) (height ts : Z) (proposer root : bytes)
    (diff : ChainState) : outcome (state_error * InMemoryStatePersistence) InMemoryStatePersistence :=
  Ok (mkPersistence
        (foldl (fun fs '(c, k, v) => writeOneRecord fs c k v) (fullState sp) (chain_range diff))
        height (sp_ts sp) proposer root).

Definition memory_Read (sp : InMemoryStatePersistence) (contract key : bytes)
    : outcome state_error (bytes * bool) :=
  match chain_lookup (fullState sp) contract key with
  | Some record => Ok (record, true)
  | None => Ok ([], false)
  end.

Definition memory_ReadMetadata (sp : InMemoryStatePersistence)
    : outcome state_error (Z * Z * bytes * bytes) :=
  Ok (sp_height sp, sp_ts sp, sp_proposer sp, sp_merkleRoot sp).

#[export] Instance memory_persistence : StatePersistence InMemoryStatePersistence := {|
  Write := memory_Write; Read := memory_Read; ReadMetadata := memory_ReadMetadata
|}.

#[export] Instance forest_revisions : MerkleRevisions Forest := {|
  mr_Update := Update; mr_Forget := Forget
|}.
End Memory.

(** ** Rolling revisions (rolling_revisions.go) *)

Record revisionDiff := mkRevision {
  rd_diff : ChainState;
  rd_merkleRoot : bytes;
  rd_height : Z;
  rd_ts : Z;
  rd_proposer : bytes
}.

Record rollingRevisions (P M : Type) := mkRolling {
  persist : P;
  transientRevisions : Z;
  revisions : list revisionDiff;
  merkle : M;
  ls_currentHeight : Z;
  ls_currentTs : Z;
  ls_currentMerkleRoot : bytes;
  ls_currentProposer : bytes;
  ls_persistedHeight : Z;
  ls_persistedRoot : bytes;
  ls_persistedTs : Z;
  ls_persistedProposer : bytes
}.
Arguments mkRolling {P M}.
Arguments persist {P M}.
Arguments transientRevisions {P M}.
Arguments revisions {P M}.
Arguments merkle {P M}.
Arguments ls_currentHeight {P M}.
Arguments ls_currentTs {P M}.
Arguments ls_currentMerkleRoot {P M}.
Arguments ls_currentProposer {P M}.
Arguments ls_persistedHeight {P M}.
Arguments ls_persistedRoot {P M}.
Arguments ls_persistedTs {P M}.
Arguments ls_persistedProposer {P M}.

Section Rolling.
Context {SHA : Sha256} {GMO : GoMapOrder} {P M : Type} `{!StatePersistence P, !MerkleRevisions M}.

Implicit Types ls : rollingRevisions P M.

Definition newRollingRevisions (p : P) (transient : Z) (m : M)
    : outcome state_error (rollingRevisions P M) :=
  match ReadMetadata p with
  | Ok (h, ts, pa, r) => Ok (mkRolling p transient [] m h ts r pa h r ts pa)
  | _ => Panic
  end.

Definition getCurrentHeight ls : Z := ls_currentHeight ls.
Definition getCurrentTimestamp ls : Z := ls_currentTs ls.
Definition getCurrentProposerAddress ls : bytes := ls_currentProposer ls.

Definition toMerkleInput (diff : ChainState) : list TrieDiff :=
  map (fun '(contractName, key, value) =>
         mkTrieDiff (CalcSha256 [contractName; key]) (CalcSha256 [value])) (chain_range diff).

(** One round of the eviction loop: the oldest revision moves to persistence. *)
Definition evictOne ls (d : revisionDiff) (rest : list revisionDiff)
    : outcome (state_error * rollingRevisions P M) (rollingRevisions P M) :=
  match Write (persist ls) (rd_height d) (rd_ts d) (rd_proposer d) (rd_merkleRoot d) (rd_diff d) with
  | Ok p' =>
      match mr_Forget (merkle ls) (ls_persistedRoot ls) with
      | Ok m' =>
          Ok (mkRolling p' (transientRevisions ls) rest m'
                (ls_currentHeight ls) (ls_currentTs ls) (ls_currentMerkleRoot ls) (ls_currentProposer ls)
                (rd_height d) (rd_merkleRoot d) (rd_ts d) (rd_proposer d))
      | _ => Panic
      end
  | Err (e, p') =>
      Err (e, mkRolling p' (transientRevisions ls) (revisions ls) (merkle ls)
                (ls_currentHeight ls) (ls_currentTs ls) (ls_currentMerkleRoot ls) (ls_currentProposer ls)
                (ls_persistedHeight ls) (ls_persistedRoot ls) (ls_persistedTs ls) (ls_persistedProposer ls))
  | Panic => Panic
  end.

(** [revs] is the current value of [ls.revisions]. *)
Fixpoint evict_loop (revs : list revisionDiff) ls
    : outcome (state_error * rollingRevisions P M) (rollingRevisions P M) :=
  if transientRevisions ls <? Z.of_nat (length revs) then
    match revs with
    | [] => Panic
    | d :: rest => let! ls' := evictOne ls d rest in evict_loop rest ls'
    end
  else Ok ls.

Definition evictRevisions ls : outcome (state_error * rollingRevisions P M) (rollingRevisions P M) :=
  evict_loop (revisions ls) ls.

Definition addRevision ls (height ts : Z) (proposer : bytes) (diff : ChainState)
    : outcome (state_error * rollingRevisions P M) (rollingRevisions P M) :=
  match mr_Update (merkle ls) (ls_currentMerkleRoot ls) (toMerkleInput diff) with
  | Ok (m', newRoot) =>
      evictRevisions
        (mkRolling (persist ls) (transientRevisions ls)
           (revisions ls ++ [mkRevision diff newRoot height ts proposer]) m'
           height ts newRoot (ls_currentProposer ls)
           (ls_persistedHeight ls) (ls_persistedRoot ls) (ls_persistedTs ls) (ls_persistedProposer ls))
  | Err _ => Err (ErrFailedToUpdateMerkle, ls)
  | Panic => Panic
  end.

(** The loops run from the newest revision to the oldest: [revs] is reversed. *)
Fixpoint find_record (revs : list revisionDiff) (height : Z) (contract key : bytes) : option bytes :=
  match revs with
  | [] => None
  | r :: rest =>
      if height <? rd_height r then find_record rest height contract key
      else match chain_lookup (rd_diff r) contract key with
           | Some record => Some record
           | None => find_record rest height contract key
           end
  end.

Definition getRevisionRecord ls (height : Z) (contract key : bytes)
    : outcome state_error (bytes * bool) :=
  if ls_currentHeight ls <? height then Err ErrHeightTooNew
  else
    match find_record (rev (revisions ls)) height contract key with
    | Some record => Ok (record, negb (isZeroValue record))
    | None =>
        if height <? ls_persistedHeight ls then Err ErrHeightTooOld
        else Read (persist ls) contract key
    end.

Definition getRevisionHash ls (height : Z) : outcome state_error bytes :=
  match List.find (fun r => rd_height r =? height) (rev (revisions ls)) with
  | Some r => Ok (rd_merkleRoot r)
  | None =>
      if negb (height =? ls_persistedHeight ls) then Err ErrNoMerkleHash
      else Ok (ls_persistedRoot ls)
  end.
End Rolling.

(** ** What the revisions rely on

    The promises of the two collaborators, proved below for the in-memory
    persistence and for the Merkle forest. *)

Class StatePersistenceLaws (P : Type) `{StatePersistence P} := {
  persist_ok : P -> Prop;
  persisted : P -> bytes -> bytes -> bytes;
  Read_persisted p c k :
    persist_ok p -> Read p c k = Ok (persisted p c k, negb (isZeroValue (persisted p c k)));
  Write_persisted p height ts proposer root d :
    persist_ok p ->
    exists p', Write p height ts proposer root d = Ok p' /\ persist_ok p' /\
      forall c k, persisted p' c k = default (persisted p c k) (chain_lookup d c k)
}.

Class MerkleRevisionsLaws `{Sha256} (M : Type) `{MerkleRevisions M} := {
  mr_ok : M -> Prop;
  mr_hashes : M -> list bytes;
  mr_last : M -> list bool -> bytes;
  mr_Update_last m h diffs :
    mr_ok m -> last (mr_hashes m) = Some h ->
    exists m' h', mr_Update m h diffs = Ok (m', h') /\ mr_ok m' /\
      mr_hashes m' = mr_hashes m ++ [h'] /\
      forall k, mr_last m' k = apply_diffs (mr_last m) diffs k;
  mr_Forget_head m h hs :
    mr_ok m -> mr_hashes m = h :: hs -> hs <> [] ->
    exists m', mr_Forget m h = Ok m' /\ mr_ok m' /\ mr_hashes m' = hs /\
      forall k, mr_last m' k = mr_last m k;
  mr_hash_by_contents m1 m2 h1 h2 :
    mr_ok m1 -> mr_ok m2 -> last (mr_hashes m1) = Some h1 -> last (mr_hashes m2) = Some h2 ->
    (forall k, mr_last m1 k = mr_last m2 k) -> h1 = h2
}.

(** *** Records of a chain state *)

Lemma elem_of_chain_records d c k v :
  (c, k, v) ∈ chain_records d <-> chain_lookup d c k = Some v.
Proof.
  unfold chain_records, chain_lookup. rewrite list_elem_of_In, in_concat. split.
  - intros (l & Hl & Hin). apply in_map_iff in Hl as ([c' m] & <- & Hm).
    apply in_map_iff in Hin as ([k' v'] & ? & Hk). simplify_eq.
    apply list_elem_of_In, elem_of_map_to_list in Hm, Hk. rewrite Hm. done.
  - intros (m & Hm & Hk)%bind_Some.
    exists (map (fun '(k, v) => (c, k, v)) (map_to_list m)). split.
    + apply in_map_iff. exists (c, m). split; [done|]. by apply list_elem_of_In, elem_of_map_to_list.
    + apply in_map_iff. exists (k, v). split; [done|]. by apply list_elem_of_In, elem_of_map_to_list.
Qed.

Lemma NoDup_records_of_contract (c : bytes) (l : list (bytes * bytes)) :
  NoDup l.*1 -> NoDup (map fst (map (fun '(k, v) => (c, k, v)) l)).
Proof.
  induction l as [|[k v] l IH]; simpl; [constructor|].
  intros [Hnin Hnd]%NoDup_cons. apply NoDup_cons. split; [|auto].
  intros ([[c' k'] v'] & E & ([k0 v0] & ? & Hin)%list_elem_of_fmap)%list_elem_of_fmap. simplify_eq/=.
  apply Hnin, list_elem_of_fmap. by exists (k0, v0).
Qed.

Lemma chain_records_NoDup d : NoDup (map fst (chain_records d)).
Proof.
  unfold chain_records. pose proof (NoDup_fst_map_to_list d) as Hnd.
  induction (map_to_list d) as [|[c m] l IH]; simpl in *; [constructor|].
  apply NoDup_cons in Hnd as [Hnin Hnd]. rewrite map_app. apply NoDup_app. split_and!.
  - apply NoDup_records_of_contract, NoDup_fst_map_to_list.
  - intros x ([[c1 k1] v1] & -> & ([k0 v0] & ? & _)%list_elem_of_fmap)%list_elem_of_fmap. simplify_eq/=.
    intros ([[c2 k2] v2] & ? & Hin)%list_elem_of_fmap. simplify_eq/=.
    apply list_elem_of_In, in_concat in Hin as (l' & Hl' & Hin).
    apply in_map_iff in Hl' as ([c' m'] & <- & Hm'). apply in_map_iff in Hin as ([] & ? & ?).
    simplify_eq. apply Hnin, list_elem_of_fmap. exists (c2, m'). by rewrite list_elem_of_In.
  - by apply IH.
Qed.

Lemma find_chain_records d l c k :
  l ≡ₚ chain_records d ->
  snd <$> List.find (fun r => bool_decide (r.1 = (c, k))) l = chain_lookup d c k.
Proof.
  intros Hp. destruct (List.find _ l) as [[[c' k'] v]|] eqn:Hf; simpl.
  - apply find_some in Hf as [Hin E%bool_decide_eq_true]. simplify_eq/=. symmetry.
    apply elem_of_chain_records. rewrite <- Hp. by apply list_elem_of_In.
  - destruct (chain_lookup d c k) as [v|] eqn:E; [|done].
    apply elem_of_chain_records in E. rewrite <- Hp in E. apply list_elem_of_In in E.
    apply (List.find_none _ _ Hf) in E. by apply bool_decide_eq_false in E.
Qed.

Section MemoryLaws.
Context {SHA : Sha256} {GMO : GoMapOrder}.

Definition memory_persisted (p : InMemoryStatePersistence) (c k : bytes) : bytes :=
  default [] (chain_lookup (fullState p) c k).

(** The full state never holds a zero value. *)
Definition no_zero (fs : ChainState) : Prop := forall c k, chain_lookup fs c k <> Some [].

Lemma chain_lookup_writeOneRecord fs c k v c' k' :
  chain_lookup (writeOneRecord fs c k v) c' k' =
  if decide ((c', k') = (c, k)) then (if isZeroValue v then None else Some v)
  else chain_lookup fs c' k'.
Proof.
  unfold writeOneRecord, chain_lookup.
  set (fs1 := match fs !! c with None => <[c := ∅]> fs | Some _ => fs end).
  assert (exists m, fs1 !! c = Some m /\ forall j, m !! j = chain_lookup fs c j) as (m & Hm & Hj).
  { unfold fs1, chain_lookup. destruct (fs !! c) as [m|] eqn:E; [exists m; by rewrite ?E|].
    exists ∅. by rewrite lookup_insert_eq. }
  assert (forall c', c' <> c -> fs1 !! c' = fs !! c') as Hne.
  { intros c0 Hc0. unfold fs1. destruct (fs !! c); [done|]. by rewrite lookup_insert_ne. }
  destruct (decide (c' = c)) as [->|Hc].
  - destruct (isZeroValue v) eqn:Hz; rewrite lookup_alter_eq, Hm; simpl.
    all: case_decide as Hk; simplify_eq; rewrite ?lookup_delete_eq, ?lookup_insert_eq; try done.
    all: assert (k' <> k) by congruence; rewrite ?lookup_delete_ne, ?lookup_insert_ne by done.
    all: apply Hj.
  - rewrite decide_False by congruence.
    by destruct (isZeroValue v); rewrite lookup_alter_ne, Hne by done.
Qed.

Definition write_records (fs : ChainState) (rs : list (bytes * bytes * bytes)) : ChainState :=
  foldl (fun fs '(c, k, v) => writeOneRecord fs c k v) fs rs.

Lemma no_zero_write_records fs rs : no_zero fs -> no_zero (write_records fs rs).
Proof.
  revert fs. induction rs as [|[[c k] v] rs IH]; intros fs Hz; [done|].
  apply IH. intros c' k'. rewrite chain_lookup_writeOneRecord. case_decide; [|apply Hz].
  unfold isZeroValue. case_bool_decide; congruence.
Qed.

(** What a record list says about a key; keys are pairwise different. *)
Lemma write_records_lookup fs rs c k :
  NoDup (map fst rs) ->
  default [] (chain_lookup (write_records fs rs) c k) =
  default (default [] (chain_lookup fs c k)) (snd <$> List.find (fun r => bool_decide (r.1 = (c, k))) rs).
Proof.
  revert fs. induction rs as [|[[c0 k0] v0] rs IH]; intros fs Hnd; [done|].
  simpl in *. apply NoDup_cons in Hnd as [Hnin Hnd].
  unfold write_records in *. simpl. rewrite IH by done.
  rewrite chain_lookup_writeOneRecord. case_bool_decide as E.
  - rewrite decide_True by done. destruct (List.find _ rs) as [r|] eqn:Hf; simpl.
    + exfalso. apply find_some in Hf as [Hin Hr%bool_decide_eq_true].
      apply Hnin. rewrite E, <- Hr. by apply list_elem_of_In, in_map.
    + unfold isZeroValue. case_bool_decide; by subst.
  - by rewrite decide_False by congruence.
Qed.

#[export] Program Instance memory_persistence_laws
    : StatePersistenceLaws InMemoryStatePersistence := {|
  persist_ok p := no_zero (fullState p);
  persisted := memory_persisted
|}.
Next Obligation.
  intros p c k Hz. simpl. unfold memory_Read, memory_persisted, isZeroValue.
  destruct (chain_lookup (fullState p) c k) as [v|] eqn:E; simpl; [|done].
  rewrite bool_decide_eq_false_2; [done|]. intros ->. by apply (Hz c k).
Qed.
Next Obligation.
  intros p height ts proposer root d Hz. eexists. split; [done|]. simpl. split.
  - by apply no_zero_write_records.
  - intros c k. unfold memory_persisted. simpl.
    change (foldl _ (fullState p) (chain_range d)) with (write_records (fullState p) (chain_range d)).
    rewrite write_records_lookup.
    + f_equal. apply find_chain_records, chain_range_perm.
    + rewrite (Permutation_map fst (chain_range_perm d)). apply chain_records_NoDup.
Qed.

Lemma last_map_Some {A B} (f : A -> B) l y :
  last (map f l) = Some y -> exists x, y = f x /\ last l = Some x.
Proof.
  intros Hl. change (last (f <$> l) = Some y) in Hl. rewrite fmap_last in Hl.
  apply fmap_Some in Hl as (x & ? & ->). eauto.
Qed.

#[export] Program Instance forest_revisions_laws : MerkleRevisionsLaws Forest := {|
  mr_ok f := forest_ok f;
  mr_hashes f := map node_hash (roots f);
  mr_last f := get (default NilNode (last (roots f)))
|}.
Next Obligation.
  intros f h diffs Hf Hl. simpl. apply last_map_Some in Hl as (r & -> & Hr).
  pose proof (findRoot_newest f r Hr) as Hfind.
  destruct (findRoot_ok f _ r Hf Hfind) as [Hok _]. destruct (update_root_spec r diffs Hok) as [Hok' Hg].
  unfold Update. rewrite Hfind. eexists _, _. split_and!; [done|..].
  - apply Forall_app. auto.
  - simpl. by rewrite map_app.
  - intros k. simpl. rewrite last_snoc, Hr. apply Hg.
Qed.
Next Obligation.
  intros f h hs Hf Hh Hne. simpl. unfold Forget. destruct f as [[|r rs]]; simplify_eq/=.
  rewrite bool_decide_eq_true_2 by done. eexists. split_and!; try done; simpl.
  - by apply Forall_cons in Hf as [_ ?].
  - intros k. by destruct rs.
Qed.
Next Obligation.
  intros f1 f2 h1 h2 Hf1 Hf2 Hl1 Hl2 Hg. simpl in *.
  apply last_map_Some in Hl1 as (r1 & -> & Hr1), Hl2 as (r2 & -> & Hr2).
  rewrite Hr1, Hr2 in Hg. simpl in Hg. f_equal.
  apply root_ok_ext; [by apply (newest_ok f1)|by apply (newest_ok f2)|done].
Qed.
End MemoryLaws.

(** ** Specification of the rolling revisions

    The abstract state is the history of commits since a base state: the value of
    a key at a height is the last one written up to that height. *)

Record commit := mkCommit { cm_ts : Z; cm_proposer : bytes; cm_diff : ChainState }.

Definition spec_value (base : bytes -> bytes -> bytes) (hist : list commit) (c k : bytes) : bytes :=
  foldl (fun v cm => default v (chain_lookup (cm_diff cm) c k)) (base c k) hist.

(** The last write to a key, if any. *)
Definition last_write (hist : list commit) (c k : bytes) : option bytes :=
  foldl (fun o cm => match chain_lookup (cm_diff cm) c k with Some v => Some v | None => o end)
    None hist.

Lemma spec_value_last_write base h1 h2 c k :
  spec_value base (h1 ++ h2) c k = default (spec_value base h1 c k) (last_write h2 c k).
Proof.
  unfold spec_value, last_write. rewrite foldl_app.
  generalize (foldl (fun v cm => default v (chain_lookup (cm_diff cm) c k)) (base c k) h1) as v.
  intros v. induction h2 as [|cm h2 IH] using rev_ind; [done|].
  rewrite !foldl_app. simpl. rewrite IH. by destruct (chain_lookup (cm_diff cm) c k).
Qed.

(** The revisions hold the commits [cs] made after height [h]. *)
Fixpoint revs_match (h : Z) (cs : list commit) (rs : list revisionDiff) : Prop :=
  match cs, rs with
  | [], [] => True
  | cm :: cs', r :: rs' =>
      rd_diff r = cm_diff cm /\ rd_ts r = cm_ts cm /\ rd_proposer r = cm_proposer cm /\
      rd_height r = h + 1 /\ revs_match (h + 1) cs' rs'
  | _, _ => False
  end.

Lemma revs_match_length h cs rs : revs_match h cs rs -> length cs = length rs.
Proof.
  revert h rs. induction cs as [|cm cs IH]; intros h [|r rs]; simpl; try done.
  intros (_ & _ & _ & _ & Hm). f_equal. by eapply IH.
Qed.

Lemma revs_match_app h cs1 cs2 rs1 rs2 :
  revs_match h cs1 rs1 -> revs_match (h + Z.of_nat (length cs1)) cs2 rs2 ->
  revs_match h (cs1 ++ cs2) (rs1 ++ rs2).
Proof.
  revert h rs1. induction cs1 as [|cm cs1 IH]; intros h [|r rs1]; simpl; try done.
  - by rewrite Z.add_0_r.
  - intros (? & ? & ? & ? & Hm) Hm2. split_and!; try done. apply IH; [done|].
    by replace (h + 1 + Z.of_nat (length cs1)) with (h + Z.of_nat (S (length cs1))) by lia.
Qed.

Lemma revs_match_snoc_inv h cs rs r :
  revs_match h cs (rs ++ [r]) ->
  exists cs' cm, cs = cs' ++ [cm] /\ revs_match h cs' rs /\ rd_diff r = cm_diff cm /\
    rd_height r = h + Z.of_nat (length cs).
Proof.
  revert h cs. induction rs as [|r0 rs IH]; intros h [|cm cs] Hm; try done; simpl in Hm.
  - destruct Hm as (Hd & _ & _ & Hh & Hm). destruct cs; [|done].
    exists [], cm. simpl. split_and!; try done; lia.
  - destruct Hm as (? & ? & ? & ? & (cs' & cm' & -> & Hm' & Hd & Hh)%IH).
    exists (cm :: cs'), cm'. simpl. split_and!; try done.
    rewrite Hh, !length_app. simpl. lia.
Qed.

Lemma revs_match_lookup h cs rs i r :
  revs_match h cs rs -> rs !! i = Some r -> rd_height r = h + 1 + Z.of_nat i.
Proof.
  revert h cs i. induction rs as [|r0 rs IH]; intros h [|cm cs] [|i]; simpl; try done.
  - intros (_ & _ & _ & Hh & _) ?. simplify_eq. lia.
  - intros (_ & _ & _ & _ & Hm) Hi. rewrite (IH _ _ _ Hm Hi). lia.
Qed.

Lemma find_height_spec h cs rs height :
  revs_match h cs rs ->
  List.find (fun r => rd_height r =? height) (rev rs) =
  if h <? height then rs !! Z.to_nat (height - h - 1) else None.
Proof.
  revert cs. induction rs as [|r rs IH] using rev_ind; intros cs Hm.
  { by destruct (h <? height). }
  apply revs_match_snoc_inv in Hm as (cs' & cm & -> & Hm & _ & Hh).
  pose proof (revs_match_length _ _ _ Hm) as Hlen.
  rewrite length_app in Hh. simpl in Hh. rewrite rev_app_distr. simpl.
  destruct (Z.eqb_spec (rd_height r) height) as [<-|Hne].
  - lia_if. rewrite Hh, lookup_app_r by lia.
    by replace (Z.to_nat (h + Z.of_nat (length cs' + 1) - h - 1) - length rs)%nat with 0%nat by lia.
  - rewrite (IH cs' Hm). destruct (Z.ltb_spec h height); [|done].
    destruct (decide (Z.to_nat (height - h - 1) < length rs)%nat).
    + by rewrite lookup_app_l.
    + rewrite !lookup_ge_None_2; [done|rewrite length_app; simpl; lia|lia].
Qed.

Lemma find_record_spec h cs rs height c k :
  revs_match h cs rs ->
  find_record (rev rs) height c k = last_write (take (Z.to_nat (height - h)) cs) c k.
Proof.
  revert cs. induction rs as [|r rs IH] using rev_ind; intros cs Hm.
  { destruct cs; [by rewrite take_nil|done]. }
  apply revs_match_snoc_inv in Hm as (cs' & cm & -> & Hm & Hd & Hh).
  rewrite length_app in Hh. simpl in Hh. rewrite rev_app_distr. simpl.
  destruct (Z.ltb_spec height (rd_height r)).
  - rewrite take_app_le by lia. by apply IH.
  - rewrite take_ge by (rewrite length_app; simpl; lia).
    unfold last_write. rewrite foldl_app. simpl. rewrite Hd.
    destruct (chain_lookup (cm_diff cm) c k); [done|].
    rewrite (IH cs' Hm), take_ge by lia. done.
Qed.

Section Refinement.
Context {SHA : Sha256} {GMO : GoMapOrder} {P M : Type}.
Context `{!StatePersistence P, !StatePersistenceLaws P, !MerkleRevisions M, !MerkleRevisionsLaws M}.

(** The state below the first commit: its height, values and trie contents. *)
Context (h0 : Z) (base : bytes -> bytes -> bytes) (base_trie : list bool -> bytes).

Implicit Types ls : rollingRevisions P M.

Definition trie_contents (hist : list commit) : list bool -> bytes :=
  foldl (fun m cm => apply_diffs m (toMerkleInput (cm_diff cm))) base_trie hist.

(** [root] is the hash of a trie that holds the state after [hist]. *)
Definition root_for (hist : list commit) (root : bytes) : Prop :=
  exists m : M, mr_ok m /\ last (mr_hashes m) = Some root /\
    forall k, mr_last m k = trie_contents hist k.

(** [old] is persisted, [recent] is held in memory. *)
Record revisions_hold ls (old recent : list commit) : Prop := {
  rh_transient : 0 <= transientRevisions ls;
  rh_revs : revs_match (h0 + Z.of_nat (length old)) recent (revisions ls);
  rh_height : ls_currentHeight ls = h0 + Z.of_nat (length (old ++ recent));
  rh_persistedHeight : ls_persistedHeight ls = h0 + Z.of_nat (length old);
  rh_persist_ok : persist_ok (persist ls);
  rh_persisted c k : persisted (persist ls) c k = spec_value base old c k;
  rh_mr_ok : mr_ok (merkle ls);
  rh_hashes : mr_hashes (merkle ls) = ls_persistedRoot ls :: map rd_merkleRoot (revisions ls);
  rh_last_hash : last (mr_hashes (merkle ls)) = Some (ls_currentMerkleRoot ls);
  rh_last k : mr_last (merkle ls) k = trie_contents (old ++ recent) k;
  rh_persistedRoot : root_for old (ls_persistedRoot ls);
  rh_roots i r : revisions ls !! i = Some r -> root_for (old ++ take (S i) recent) (rd_merkleRoot r)
}.

(** The refinement relation: as much as [transientRevisions] allows is in memory. *)
Definition represents ls (hist : list commit) : Prop :=
  exists old recent, hist = old ++ recent /\ revisions_hold ls old recent /\
    Z.of_nat (length recent) = Z.min (Z.of_nat (length hist)) (transientRevisions ls).

(** *** Reading *)

Lemma getRevisionRecord_hold ls old recent height c k :
  revisions_hold ls old recent ->
  getRevisionRecord ls height c k =
  if h0 + Z.of_nat (length (old ++ recent)) <? height then Err ErrHeightTooNew
  else if height <? h0 + Z.of_nat (length old) then Err ErrHeightTooOld
  else let v := spec_value base (take (Z.to_nat (height - h0)) (old ++ recent)) c k in
       Ok (v, negb (isZeroValue v)).
Proof.
  intros Hr. unfold getRevisionRecord. rewrite (rh_height _ _ _ Hr).
  destruct (Z.ltb_spec (h0 + Z.of_nat (length (old ++ recent))) height) as [|Hle]; [done|].
  rewrite (find_record_spec _ _ _ _ _ _ (rh_revs _ _ _ Hr)), (rh_persistedHeight _ _ _ Hr).
  destruct (Z.ltb_spec height (h0 + Z.of_nat (length old))).
  - replace (Z.to_nat (height - (h0 + Z.of_nat (length old)))) with 0%nat by lia. by simpl.
  - rewrite take_app_ge by lia.
    replace (Z.to_nat (height - h0) - length old)%nat
      with (Z.to_nat (height - (h0 + Z.of_nat (length old)))) by lia.
    rewrite spec_value_last_write. destruct (last_write _ c k); simpl; [done|].
    rewrite (Read_persisted _ _ _ (rh_persist_ok _ _ _ Hr)). by rewrite (rh_persisted _ _ _ Hr).
Qed.

Lemma getRevisionHash_hold ls old recent height :
  revisions_hold ls old recent ->
  h0 + Z.of_nat (length old) <= height <= h0 + Z.of_nat (length (old ++ recent)) ->
  exists root, getRevisionHash ls height = Ok root /\
    root_for (take (Z.to_nat (height - h0)) (old ++ recent)) root.
Proof.
  intros Hr Hh. unfold getRevisionHash. pose proof (rh_revs _ _ _ Hr) as Hm.
  rewrite (find_height_spec _ _ _ height Hm), (rh_persistedHeight _ _ _ Hr).
  rewrite length_app in Hh. pose proof (revs_match_length _ _ _ Hm) as Hlen.
  destruct (Z.ltb_spec (h0 + Z.of_nat (length old)) height) as [Hlt|].
  - set (i := Z.to_nat (height - (h0 + Z.of_nat (length old)) - 1)).
    destruct (lookup_lt_is_Some_2 (revisions ls) i) as [r Hi]; [lia|].
    rewrite Hi. exists (rd_merkleRoot r). split; [done|].
    rewrite take_app_ge by lia.
    replace (Z.to_nat (height - h0) - length old)%nat with (S i) by lia.
    by apply (rh_roots _ _ _ Hr).
  - lia_if. simpl.
    exists (ls_persistedRoot ls). split; [done|].
    replace (Z.to_nat (height - h0)) with (length old) by lia. rewrite take_app_length.
    apply (rh_persistedRoot _ _ _ Hr).
Qed.

Lemma getRevisionHash_outside ls old recent height :
  revisions_hold ls old recent ->
  height < h0 + Z.of_nat (length old) \/ h0 + Z.of_nat (length (old ++ recent)) < height ->
  getRevisionHash ls height = Err ErrNoMerkleHash.
Proof.
  intros Hr Hh. unfold getRevisionHash. pose proof (rh_revs _ _ _ Hr) as Hm.
  rewrite (find_height_spec _ _ _ height Hm), (rh_persistedHeight _ _ _ Hr).
  rewrite length_app in Hh. pose proof (revs_match_length _ _ _ Hm) as Hlen.
  lia_if. simpl.
  destruct (Z.ltb_spec (h0 + Z.of_nat (length old)) height); [|done].
  by rewrite lookup_ge_None_2 by lia.
Qed.

(** *** Committing *)

Lemma spec_value_snoc hist cm c k :
  spec_value base (hist ++ [cm]) c k = default (spec_value base hist c k) (chain_lookup (cm_diff cm) c k).
Proof. unfold spec_value. by rewrite foldl_app. Qed.

Lemma evictOne_hold ls old cm recent d rest :
  revisions_hold ls old (cm :: recent) -> revisions ls = d :: rest ->
  exists ls', evictOne ls d rest = Ok ls' /\ revisions_hold ls' (old ++ [cm]) recent /\
    revisions ls' = rest /\ transientRevisions ls' = transientRevisions ls /\
    ls_currentTs ls' = ls_currentTs ls /\ ls_currentProposer ls' = ls_currentProposer ls.
Proof.
  intros [Htr Hrevs Hh Hph Hpok Hpd Hmok Hhs Hlh Hlast Hpr Hroots] E.
  rewrite E in *. destruct Hrevs as (Hd & Hts & Hprop & Hdh & Hrevs).
  unfold evictOne.
  destruct (Write_persisted (persist ls) (rd_height d) (rd_ts d) (rd_proposer d)
              (rd_merkleRoot d) (rd_diff d) Hpok) as (p' & -> & Hpok' & Hpd').
  destruct (mr_Forget_head (merkle ls) _ _ Hmok Hhs ltac:(done)) as (m' & -> & Hmok' & Hhs' & Hlast').
  eexists. split; [done|]. split; [|done].
  assert (forall l, (old ++ [cm]) ++ l = old ++ cm :: l) as Happ by (intros; by rewrite <- app_assoc).
  split; simpl; try done.
  - rewrite length_app. simpl.
    by replace (h0 + Z.of_nat (length old + 1)) with (h0 + Z.of_nat (length old) + 1) by lia.
  - by rewrite Happ.
  - rewrite Hdh, length_app. simpl. lia.
  - intros c k. by rewrite spec_value_snoc, Hpd', Hd, Hpd.
  - rewrite Hhs'. rewrite Hhs in Hlh. by simpl in Hlh.
  - intros k. by rewrite Hlast', Hlast, Happ.
  - apply (Hroots 0%nat d). done.
  - intros i r Hi. rewrite Happ. by apply (Hroots (S i) r).
Qed.

Lemma evict_loop_hold revs ls old recent :
  revisions_hold ls old recent -> revs = revisions ls ->
  exists ls' old' recent', evict_loop revs ls = Ok ls' /\ old' ++ recent' = old ++ recent /\
    revisions_hold ls' old' recent' /\
    Z.of_nat (length recent') = Z.min (Z.of_nat (length recent)) (transientRevisions ls) /\
    transientRevisions ls' = transientRevisions ls /\
    ls_currentTs ls' = ls_currentTs ls /\ ls_currentProposer ls' = ls_currentProposer ls.
Proof.
  revert ls old recent. induction revs as [|d revs IH]; intros ls old recent Hr E.
  all: pose proof (rh_transient _ _ _ Hr) as Htr.
  all: pose proof (revs_match_length _ _ _ (rh_revs _ _ _ Hr)) as Hlen; rewrite <- E in Hlen.
  all: cbn [evict_loop]; rewrite <- Hlen.
  all: destruct (Z.ltb_spec (transientRevisions ls) (Z.of_nat (length recent))) as [Hlt|Hge].
  - simpl in Hlen. lia.
  - exists ls, old, recent. split_and!; try done. lia.
  - destruct recent as [|cm recent]; [done|].
    destruct (evictOne_hold ls old cm recent d revs Hr (eq_sym E))
      as (ls1 & -> & Hr1 & E1 & Ht1 & Hts1 & Hp1). simpl.
    destruct (IH ls1 _ _ Hr1 (eq_sym E1)) as (ls' & old' & recent' & -> & Happ & Hr' & Hl & Ht & Hts & Hp).
    exists ls', old', recent'. rewrite Happ, <- app_assoc. simpl in Hlt.
    split_and!; try done; try congruence. rewrite Hl, Ht1. simpl. lia.
  - exists ls, old, recent. split_and!; try done. lia.
Qed.

Lemma append_hold ls old recent ts proposer diff m' root :
  revisions_hold ls old recent ->
  mr_ok m' -> mr_hashes m' = mr_hashes (merkle ls) ++ [root] ->
  (forall k, mr_last m' k = apply_diffs (mr_last (merkle ls)) (toMerkleInput diff) k) ->
  let height := ls_currentHeight ls + 1 in
  revisions_hold
    (mkRolling (persist ls) (transientRevisions ls)
       (revisions ls ++ [mkRevision diff root height ts proposer]) m'
       height ts root (ls_currentProposer ls)
       (ls_persistedHeight ls) (ls_persistedRoot ls) (ls_persistedTs ls) (ls_persistedProposer ls))
    old (recent ++ [mkCommit ts proposer diff]).
Proof.
  intros [Htr Hrevs Hh Hph Hpok Hpd Hmok Hhs Hlh Hlast Hpr Hroots] Hmok' Hhs' Hlast' height.
  pose proof (revs_match_length _ _ _ Hrevs) as Hlen.
  assert (forall k, mr_last m' k = trie_contents (old ++ recent ++ [mkCommit ts proposer diff]) k) as Hc.
  { intros k. rewrite Hlast', app_assoc. unfold trie_contents. rewrite foldl_app. simpl.
    by apply apply_diffs_ext. }
  split; simpl; try done.
  - apply revs_match_app; [done|]. simpl. split_and!; try done.
    unfold height. rewrite Hh, length_app. lia.
  - unfold height. rewrite Hh, !length_app. simpl. lia.
  - rewrite Hhs', Hhs, map_app. done.
  - by rewrite Hhs', last_snoc.
  - intros i r Hi. destruct (decide (i < length (revisions ls))%nat).
    + rewrite lookup_app_l in Hi by done. rewrite take_app_le by lia. by apply Hroots.
    + apply lookup_app_Some in Hi as [Hi%lookup_lt_Some|[Hge Hi]]; [lia|].
      apply list_lookup_singleton_Some in Hi as [Hi <-]. simpl.
      rewrite take_ge by (rewrite length_app; simpl; lia).
      exists m'. rewrite Hhs', last_snoc. done.
Qed.

Lemma addRevision_represents ls hist ts proposer diff :
  represents ls hist ->
  exists ls', addRevision ls (ls_currentHeight ls + 1) ts proposer diff = Ok ls' /\
    represents ls' (hist ++ [mkCommit ts proposer diff]) /\
    transientRevisions ls' = transientRevisions ls /\
    ls_currentTs ls' = ts /\ ls_currentProposer ls' = ls_currentProposer ls.
Proof.
  intros (old & recent & -> & Hr & Hmin). unfold addRevision, evictRevisions.
  destruct (mr_Update_last (merkle ls) _ (toMerkleInput diff) (rh_mr_ok _ _ _ Hr) (rh_last_hash _ _ _ Hr))
    as (m' & root & -> & Hmok' & Hhs' & Hlast').
  pose proof (append_hold ls old recent ts proposer diff m' root Hr Hmok' Hhs' Hlast') as Hr1.
  simpl in Hr1. destruct (evict_loop_hold _ _ _ _ Hr1 eq_refl)
    as (ls' & old' & recent' & -> & Happ & Hr' & Hl & Ht & Hts & Hp). simpl in *.
  exists ls'. split_and!; try done. exists old', recent'. rewrite Happ, app_assoc. split_and!; try done.
  rewrite Hl, Ht, !length_app. simpl. rewrite length_app in Hmin. lia.
Qed.

Lemma represents_height ls hist : represents ls hist -> ls_currentHeight ls = h0 + Z.of_nat (length hist).
Proof. intros (old & recent & -> & Hr & _). apply (rh_height _ _ _ Hr). Qed.

(** The number of persisted commits. *)
Lemma represents_old ls hist :
  represents ls hist ->
  exists old recent, hist = old ++ recent /\ revisions_hold ls old recent /\
    Z.of_nat (length old) = Z.max 0 (Z.of_nat (length hist) - transientRevisions ls).
Proof.
  intros (old & recent & -> & Hr & Hmin). exists old, recent. split_and!; try done.
  rewrite length_app in *. lia.
Qed.
End Refinement.

Section NewRevisions.
Context {SHA : Sha256} {GMO : GoMapOrder} {P M : Type}.
Context `{!StatePersistence P, !StatePersistenceLaws P, !MerkleRevisions M, !MerkleRevisionsLaws M}.

Lemma newRollingRevisions_represents (p : P) (m : M) transient h ts pa r :
  ReadMetadata p = Ok (h, ts, pa, r) -> persist_ok p -> mr_ok m -> mr_hashes m = [r] ->
  0 <= transient ->
  exists ls, newRollingRevisions p transient m = Ok ls /\
    represents h (persisted p) (mr_last m) ls [] /\
    transientRevisions ls = transient /\ ls_currentTs ls = ts /\ ls_currentProposer ls = pa.
Proof.
  intros Hmd Hp Hm Hh Ht. unfold newRollingRevisions. rewrite Hmd. eexists. split; [done|].
  split; [|done]. exists [], []. split_and!; [done| |simpl; lia].
  split; simpl; try done; try (by rewrite Hh); try lia.
  exists m. by rewrite Hh.
Qed.
End NewRevisions.

(** ** Independence of the map order *)

(** The trie keys of a diff are well formed and pairwise different. *)
Definition trie_keys_ok `{Sha256} (d : ChainState) : Prop :=
  let keys := map (fun r => CalcSha256 [r.1.1; r.1.2]) (chain_records d) in
  Forall valid_bytes keys /\ NoDup keys.

Section MapOrder.
Context `{Sha256}.

Lemma toMerkleInput_perm (O : GoMapOrder) d :
  toMerkleInput d ≡ₚ
  map (fun '(c, k, v) => mkTrieDiff (CalcSha256 [c; k]) (CalcSha256 [v])) (chain_records d).
Proof. unfold toMerkleInput. by rewrite chain_range_perm. Qed.

Lemma toMerkleInput_apply (O1 O2 : GoMapOrder) m d k :
  trie_keys_ok d ->
  apply_diffs m (toMerkleInput (GMO:=O1) d) k = apply_diffs m (toMerkleInput (GMO:=O2) d) k.
Proof.
  intros [Hv Hnd]. apply apply_diffs_perm; [by rewrite !toMerkleInput_perm|].
  assert (map Key (toMerkleInput (GMO:=O1) d)
          ≡ₚ map (fun r => CalcSha256 [r.1.1; r.1.2]) (chain_records d)) as Hkeys.
  { rewrite (Permutation_map Key (toMerkleInput_perm O1 d)), map_map.
    erewrite map_ext; [done|]. by intros [[? ?] ?]. }
  apply toBin_keys_NoDup.
  - rewrite <- Hkeys in Hv. by apply (List.Forall_map Key valid_bytes) in Hv.
  - by rewrite Hkeys.
Qed.

Lemma trie_contents_order (O1 O2 : GoMapOrder) base_trie hist k :
  Forall (fun cm => trie_keys_ok (cm_diff cm)) hist ->
  trie_contents (GMO:=O1) base_trie hist k = trie_contents (GMO:=O2) base_trie hist k.
Proof.
  revert k. induction hist as [|cm hist IH] using rev_ind; intros k Hok; [done|].
  apply Forall_app in Hok as [Hok [Hcm _]%Forall_cons].
  unfold trie_contents in *. rewrite !foldl_app. simpl.
  rewrite (toMerkleInput_apply O1 O2) by done. apply apply_diffs_ext. intros k'. by apply IH.
Qed.

Lemma root_for_order (O1 O2 : GoMapOrder) {M : Type} `{!MerkleRevisions M, !MerkleRevisionsLaws M}
    base_trie hist r1 r2 :
  Forall (fun cm => trie_keys_ok (cm_diff cm)) hist ->
  root_for (GMO:=O1) (M:=M) base_trie hist r1 ->
  root_for (GMO:=O2) (M:=M) base_trie hist r2 -> r1 = r2.
Proof.
  intros Hok (m1 & Hm1 & Hl1 & Hc1) (m2 & Hm2 & Hl2 & Hc2).
  apply (mr_hash_by_contents m1 m2); try done.
  intros k. rewrite Hc1, Hc2. by apply trie_contents_order.
Qed.
End MapOrder.
