(* ===== verification/StateStorageService.v ===== *)
(** * The state storage service (services/statestorage/service.go)

    Commits of state diffs, reads of keys and of state hashes at a block height,
    on top of the rolling revisions and the block tracker. *)

From stdpp Require Import base gmap list.
From Stdlib Require Import ZArith Lia.
From S2P Require Import Prelude Protocol Hash MerkleAlgo MerkleForest BlockTracker StateStorage.

Record service (P M R : Type) := mkService {
  StateStorageHistorySnapshotNum : Z;
  blockTracker : BlockTracker;
  heightReporter : R;
  s_revisions : rollingRevisions P M
}.
Arguments mkService {P M R}.
Arguments StateStorageHistorySnapshotNum {P M R}.
Arguments blockTracker {P M R}.
Arguments heightReporter {P M R}.
Arguments s_revisions {P M R}.

(** [nil] inputs are [None]. *)
Record CommitStateDiffInput := mkCommitInput {
  ci_ResultsBlockHeader : option ResultsBlockHeader;
  ci_ContractStateDiffs : option (list ContractStateDiff)
}.

Record ReadKeysInput := mkReadKeysInput {
  rk_BlockHeight : Z;
  rk_ContractName : bytes;
  rk_Keys : list bytes
}.

(** Assigning to a contract's map in a chain state that may lack it. *)
Definition inflate_records (m : gmap bytes bytes) (rs : list StateRecord) : gmap bytes bytes :=
  foldl (fun m r => <[sr_Key r := sr_Value r]> m) m rs.

Definition inflateChainState (csd : list ContractStateDiff) : ChainState :=
  foldl (fun result stateDiffs =>
           let contract := csd_ContractName stateDiffs in
           let contractMap := default ∅ (result !! contract) in
           <[contract := inflate_records contractMap (csd_StateDiffs stateDiffs)]> result)
    ∅ csd.

Section Service.
Context {SHA : Sha256} {GMO : GoMapOrder} {P M R : Type}.
Context `{!StatePersistence P, !MerkleRevisions M, !HeightReporter R}.

Implicit Types s : service P M R.

Definition NewStateStorage (snapshotNum graceDistance : Z) (persistence : P) (forest : M)
    (reporter : R) : outcome state_error (service P M R) :=
  let! revisions := newRollingRevisions persistence snapshotNum forest in
  Ok (mkService snapshotNum (NewBlockTracker 0 (wrap 16 graceDistance)) reporter revisions).

(** The error of a failed commit leaves the revisions as [addRevision] left them. *)
Definition CommitStateDiff s (input : CommitStateDiffInput)
    : outcome (state_error * service P M R) (service P M R * Z) :=
  match ci_ResultsBlockHeader input, ci_ContractStateDiffs input with
  | Some header, Some diffs =>
      let commitBlockHeight := rxh_BlockHeight header in
      let currentHeight := getCurrentHeight (s_revisions s) in
      if bool_decide (u64_add currentHeight 1 <> commitBlockHeight) then
        Ok (s, u64_add currentHeight 1)
      else
        match addRevision (s_revisions s) commitBlockHeight (rxh_Timestamp header)
                (rxh_BlockProposerAddress header) (inflateChainState diffs) with
        | Ok revisions =>
            match IncrementTo (blockTracker s) commitBlockHeight,
                  hr_IncrementTo (heightReporter s) commitBlockHeight with
            | Ok tracker, Ok reporter =>
                Ok (mkService (StateStorageHistorySnapshotNum s) tracker reporter revisions,
                    u64_add commitBlockHeight 1)
            | _, _ => Panic
            end
        | Err (e, revisions) =>
            Err (e, mkService (StateStorageHistorySnapshotNum s) (blockTracker s)
                      (heightReporter s) revisions)
        | Panic => Panic
        end
  | _, _ => Panic
  end.

(** [wait] is what [WaitForBlock] returned before the lock was taken. *)
Definition too_old s (height : Z) : bool :=
  u64_add height (StateStorageHistorySnapshotNum s) <=? getCurrentHeight (s_revisions s).

Fixpoint read_records s (height : Z) (contract : bytes) (keys : list bytes)
    : outcome state_error (list StateRecord) :=
  match keys with
  | [] => Ok []
  | key :: keys' =>
      match getRevisionRecord (s_revisions s) height contract key with
      | Ok (record, ok) =>
          let! rs := read_records s height contract keys' in
          Ok (mkStateRecord key (if ok then record else newZeroValue) :: rs)
      | Err e => Err e
      | Panic => Panic
      end
  end.

Definition ReadKeys s (wait : option tracker_error) (input : ReadKeysInput)
    : outcome state_error (list StateRecord) :=
  if bool_decide (rk_ContractName input = []) then Err ErrMissingContractName
  else match wait with
       | Some e => Err (ErrNotYetCommitted e)
       | None =>
           if too_old s (rk_BlockHeight input) then Err ErrUnsupportedHeight
           else
             let! records := read_records s (rk_BlockHeight input) (rk_ContractName input) (rk_Keys input) in
             if bool_decide (length records = 0%nat) then Err ErrNoValueFound else Ok records
       end.

Definition GetLastCommittedBlockInfo s : Z * Z * bytes :=
  (getCurrentHeight (s_revisions s), getCurrentTimestamp (s_revisions s),
   getCurrentProposerAddress (s_revisions s)).

Definition GetStateHash s (wait : option tracker_error) (height : Z) : outcome state_error bytes :=
  match wait with
  | Some e => Err (ErrNotYetCommitted e)
  | None =>
      if too_old s height then Err ErrUnsupportedHeight
      else getRevisionHash (s_revisions s) height
  end.
End Service.

(** ** The service refines the history of commits *)

Definition commit_of (header : ResultsBlockHeader) (diffs : list ContractStateDiff) : commit :=
  mkCommit (rxh_Timestamp header) (rxh_BlockProposerAddress header) (inflateChainState diffs).

(** A committed results block, as the callers pass it. *)
Definition block_input (header : ResultsBlockHeader) (diffs : list ContractStateDiff)
    : CommitStateDiffInput := mkCommitInput (Some header) (Some diffs).

Section Refinement.
Context {SHA : Sha256} {GMO : GoMapOrder} {P M R : Type}.
Context `{!StatePersistence P, !StatePersistenceLaws P, !MerkleRevisions M, !MerkleRevisionsLaws M}.
Context `{!HeightReporter R}.
Context (base : bytes -> bytes -> bytes) (base_trie : list bool -> bytes).

Implicit Types s : service P M R.

(** The tracker and the revisions agree on the height, and the revisions kept in
    memory are the configured snapshots. *)
Record service_ok s (hist : list commit) : Prop := {
  so_represents : represents 0 base base_trie (s_revisions s) hist;
  so_tracker : currentHeight (blockTracker s) = Z.of_nat (length hist);
  so_snapshots : transientRevisions (s_revisions s) = StateStorageHistorySnapshotNum s
}.

Lemma service_ok_height s hist :
  service_ok s hist -> getCurrentHeight (s_revisions s) = Z.of_nat (length hist).
Proof. intros Hs. apply (represents_height _ _ _ _ _ (so_represents _ _ Hs)). Qed.

Lemma CommitStateDiff_next s hist header diffs reporter' :
  service_ok s hist -> Z.of_nat (length hist) < 2 ^ 64 - 1 ->
  rxh_BlockHeight header = Z.of_nat (length hist) + 1 ->
  hr_IncrementTo (heightReporter s) (rxh_BlockHeight header) = Ok reporter' ->
  exists s',
    CommitStateDiff s (block_input header diffs) = Ok (s', u64_add (rxh_BlockHeight header) 1) /\
    service_ok s' (hist ++ [commit_of header diffs]) /\
    heightReporter s' = reporter' /\
    StateStorageHistorySnapshotNum s' = StateStorageHistorySnapshotNum s /\
    GetLastCommittedBlockInfo s' =
      (rxh_BlockHeight header, rxh_Timestamp header, (GetLastCommittedBlockInfo s).2).
Proof.
  intros Hs Hb Hh Hrep. unfold CommitStateDiff. simpl.
  rewrite (service_ok_height s hist Hs).
  rewrite bool_decide_eq_false_2 by (rewrite u64_add_small; lia).
  destruct (addRevision_represents 0 base base_trie (s_revisions s) hist (rxh_Timestamp header)
              (rxh_BlockProposerAddress header) (inflateChainState diffs) (so_represents _ _ Hs))
    as (ls' & Hadd & Hr' & Ht & Hts & Hp).
  pose proof (service_ok_height s hist Hs) as Hcur. unfold getCurrentHeight in Hcur.
  rewrite Hcur, <- Hh in Hadd. rewrite Hadd.
  rewrite IncrementTo_next by (rewrite (so_tracker _ _ Hs), u64_add_small; lia).
  rewrite Hrep. eexists. split; [done|]. split_and!; try done.
  - split; simpl; [done|rewrite Hh, length_app; simpl; lia|].
    rewrite Ht. apply (so_snapshots _ _ Hs).
  - unfold GetLastCommittedBlockInfo, getCurrentHeight, getCurrentTimestamp, getCurrentProposerAddress. simpl.
    rewrite (represents_height _ _ _ _ _ Hr'), Hts, Hp, length_app. simpl. do 2 f_equal. lia.
Qed.

(** The heights a read is served for: committed, and not older than the snapshots. *)
Definition readable s (hist : list commit) (height : Z) : Prop :=
  Z.max 0 (Z.of_nat (length hist) - StateStorageHistorySnapshotNum s + 1) <= height
    <= Z.of_nat (length hist).

Lemma too_old_readable s hist height :
  service_ok s hist -> 0 <= height ->
  height + StateStorageHistorySnapshotNum s < 2 ^ 64 ->
  too_old s height = bool_decide (height <= Z.of_nat (length hist) - StateStorageHistorySnapshotNum s).
Proof.
  intros Hs H0 Hov. unfold too_old. rewrite (service_ok_height s hist Hs).
  destruct (so_represents _ _ Hs) as (old & recent & _ & Hr & _).
  pose proof (rh_transient _ _ _ _ _ _ Hr) as Htr. rewrite (so_snapshots _ _ Hs) in Htr.
  words. case_bool_decide; [apply Z.leb_le|apply Z.leb_gt]; lia.
Qed.

Lemma read_records_readable s hist height contract keys :
  service_ok s hist -> readable s hist height ->
  read_records s height contract keys =
  Ok (map (fun k => mkStateRecord k (spec_value base (take (Z.to_nat height) hist) contract k)) keys).
Proof.
  intros Hs Hrd. unfold readable in Hrd. rewrite <- (so_snapshots _ _ Hs) in Hrd.
  destruct (represents_old _ _ _ _ _ (so_represents _ _ Hs)) as (old & recent & E & Hr & Hold).
  induction keys as [|key keys IH]; [done|]. simpl.
  rewrite (getRevisionRecord_hold _ _ _ _ _ _ height contract key Hr), <- E.
  lia_if.
  lia_if.
  rewrite IH. simpl. rewrite Z.sub_0_r. unfold isZeroValue. case_bool_decide as Hz; simpl; [|done].
  by rewrite Hz.
Qed.
End Refinement.

(** ** Properties of the service *)

Section Properties.
Context {SHA : Sha256} {GMO : GoMapOrder} {P M R : Type}.
Context `{!StatePersistence P, !StatePersistenceLaws P, !MerkleRevisions M, !MerkleRevisionsLaws M}.
Context `{!HeightReporter R}.

(** C1. A commit of the next height appends exactly that block's diff to the history
    the service represents, reports the following height as the next desired one,
    and updates the committed height and timestamp; a commit of any other height
    changes nothing and reports the height that is missing. *)
Theorem CommitStateDiff_refines base base_trie (s : service P M R) hist header diffs reporter' :
  service_ok base base_trie s hist -> Z.of_nat (length hist) < 2 ^ 64 - 1 ->
  hr_IncrementTo (heightReporter s) (rxh_BlockHeight header) = Ok reporter' ->
  let next := Z.of_nat (length hist) + 1 in
  if decide (rxh_BlockHeight header = next) then
    exists s',
      CommitStateDiff s (block_input header diffs) = Ok (s', u64_add next 1) /\
      service_ok base base_trie s' (hist ++ [commit_of header diffs]) /\
      heightReporter s' = reporter' /\
      StateStorageHistorySnapshotNum s' = StateStorageHistorySnapshotNum s /\
      (GetLastCommittedBlockInfo s').1 = (next, rxh_Timestamp header)
  else CommitStateDiff s (block_input header diffs) = Ok (s, next).
Proof.
  intros Hs Hb Hrep next. case_decide as Hh.
  - destruct (CommitStateDiff_next base base_trie s hist header diffs reporter' Hs Hb Hh Hrep)
      as (s' & HC & Hs' & Hr' & Hn & Hinfo).
    exists s'. rewrite Hinfo, <- Hh. done.
  - unfold CommitStateDiff. simpl. rewrite (service_ok_height _ _ s hist Hs), u64_add_small by lia.
    by rewrite bool_decide_eq_true_2 by done.
Qed.

(** A read that got past [WaitForBlock], in any interleaving with commits,
    returns for every key the last value written at or below the requested
    height, and the empty value for a key never written, whenever the height is
    within the configured snapshots; it fails for older heights, for an empty
    contract name and for an empty list of keys. *)
Theorem ReadKeys_spec base base_trie (s : service P M R) hist input :
  service_ok base base_trie s hist ->
  let height := rk_BlockHeight input in
  tracker_reachable height (blockTracker s, Returned None) ->
  0 <= height -> height + StateStorageHistorySnapshotNum s < 2 ^ 64 ->
  ReadKeys s None input =
  if decide (rk_ContractName input = []) then Err ErrMissingContractName
  else if decide (height <= Z.of_nat (length hist) - StateStorageHistorySnapshotNum s)
  then Err ErrUnsupportedHeight
  else if decide (rk_Keys input = []) then Err ErrNoValueFound
  else Ok (map (fun k => mkStateRecord k
             (spec_value base (take (Z.to_nat height) hist) (rk_ContractName input) k)) (rk_Keys input)).
Proof.
  intros Hs height Hw H0 Hov. unfold ReadKeys. fold height.
  apply tracker_reachable_ok in Hw. simpl in Hw. rewrite (so_tracker _ _ _ _ Hs) in Hw.
  case_bool_decide as Hc; case_decide; try done.
  rewrite (too_old_readable base base_trie s hist) by done.
  case_bool_decide as Hold; case_decide; try done.
  rewrite (read_records_readable base base_trie s hist) by (unfold readable; lia || done).
  simpl. rewrite length_map. by destruct (rk_Keys input).
Qed.

Lemma GetStateHash_readable base base_trie (s : service P M R) hist height :
  service_ok base base_trie s hist -> readable s hist height ->
  height + StateStorageHistorySnapshotNum s < 2 ^ 64 ->
  exists root, GetStateHash s None height = Ok root /\
    root_for (M:=M) base_trie (take (Z.to_nat height) hist) root.
Proof.
  intros Hs Hrd Hov. unfold GetStateHash.
  destruct (represents_old _ _ _ _ _ (so_represents _ _ _ _ Hs)) as (old & recent & E & Hr & Hold).
  rewrite (so_snapshots _ _ _ _ Hs) in Hold. unfold readable in Hrd.
  rewrite (too_old_readable base base_trie s hist) by (lia || done).
  rewrite bool_decide_eq_false_2 by lia.
  destruct (getRevisionHash_hold _ _ _ _ _ _ height Hr) as (root & HG & Hroot).
  { rewrite <- E. lia. }
  exists root. by rewrite <- E, Z.sub_0_r in Hroot.
Qed.
End Properties.

(** ** Nodes with the in-memory persistence *)

Section MemoryNode.
Context {SHA : Sha256} {GMO : GoMapOrder}.

Definition memory_service := service InMemoryStatePersistence Forest NopHeightReporter.

Definition no_state : bytes -> bytes -> bytes := fun _ _ => [].
Definition empty_trie : list bool -> bytes := fun _ => zeroValueHash.

(** A node that starts with no state and no height reporter. *)
Definition new_memory_service (snapshotNum graceDistance : Z) : outcome state_error memory_service :=
  NewStateStorage snapshotNum graceDistance NewStatePersistence (fst NewForest) mkNopHeightReporter.

(** Commits of a list of blocks, in order. *)
Fixpoint commit_blocks (s : memory_service) (blocks : list (ResultsBlockHeader * list ContractStateDiff))
    : outcome (state_error * memory_service) memory_service :=
  match blocks with
  | [] => Ok s
  | (header, diffs) :: rest =>
      let! out := CommitStateDiff s (block_input header diffs) in commit_blocks out.1 rest
  end.

(** The blocks that follow height [h]. *)
Fixpoint blocks_from (h : Z) (blocks : list (ResultsBlockHeader * list ContractStateDiff)) : Prop :=
  match blocks with
  | [] => True
  | (header, _) :: rest => rxh_BlockHeight header = h + 1 /\ blocks_from (h + 1) rest
  end.

Definition history (blocks : list (ResultsBlockHeader * list ContractStateDiff)) : list commit :=
  map (fun '(header, diffs) => commit_of header diffs) blocks.

Lemma represents_ext h0 base base' trie trie' (ls : rollingRevisions InMemoryStatePersistence Forest) :
  (forall c k, base c k = base' c k) -> (forall k, trie k = trie' k) ->
  represents h0 base trie ls [] -> represents h0 base' trie' ls [].
Proof.
  intros Hb Ht (old & recent & E & Hr & Hmin). symmetry in E. apply app_nil in E as [-> ->].
  exists [], []. split; [done|]. split; [|done].
  destruct Hr as [Htr Hrevs Hh Hph Hpok Hpd Hmok Hhs Hlh Hlast Hpr Hroots].
  destruct (revisions ls) eqn:Er; [|done].
  split; rewrite ?Er; try done.
  - intros c k. rewrite Hpd. apply Hb.
  - intros k. rewrite Hlast. apply Ht.
  - destruct Hpr as (m & ? & ? & Hl). exists m. split_and!; try done. intros k. rewrite Hl. apply Ht.
Qed.

Lemma new_memory_service_ok snapshotNum graceDistance :
  0 <= snapshotNum ->
  exists s, new_memory_service snapshotNum graceDistance = Ok s /\
    service_ok no_state empty_trie s [] /\ StateStorageHistorySnapshotNum s = snapshotNum /\
    GetLastCommittedBlockInfo s = (0, 0, []).
Proof.
  intros Hn. eexists. split; [done|]. split; [|done]. split; simpl; [|done..].
  destruct (newRollingRevisions_represents NewStatePersistence (fst NewForest) snapshotNum
              0 0 [] (snd NewForest)) as (ls & Hnew & Hr & _); try done.
  - by apply Forall_singleton; left.
  - unfold newRollingRevisions in Hnew. simplify_eq/=. eapply represents_ext, Hr; [done|]. intros k. apply get_createEmptyTrieNode.
Qed.

Lemma commit_blocks_ok s hist blocks :
  service_ok no_state empty_trie s hist -> blocks_from (Z.of_nat (length hist)) blocks ->
  Z.of_nat (length hist + length blocks) < 2 ^ 64 ->
  exists s', commit_blocks s blocks = Ok s' /\ service_ok no_state empty_trie s' (hist ++ history blocks) /\
    StateStorageHistorySnapshotNum s' = StateStorageHistorySnapshotNum s /\
    (GetLastCommittedBlockInfo s').2 = (GetLastCommittedBlockInfo s).2.
Proof.
  revert s hist. induction blocks as [|[header diffs] blocks IH]; intros s hist Hs Hb Hlt.
  { exists s. by rewrite app_nil_r. }
  destruct Hb as [Hh Hb]. simpl in Hlt.
  destruct (CommitStateDiff_next no_state empty_trie s hist header diffs (heightReporter s) Hs)
    as (s1 & HC & Hs1 & _ & Hn1 & Hi1); [lia|done|done|].
  simpl. rewrite HC. simpl.
  destruct (IH s1 _ Hs1) as (s' & -> & Hs' & Hn & Hi).
  { rewrite length_app. simpl. by replace (Z.of_nat (length hist + 1)) with (Z.of_nat (length hist) + 1) by lia. }
  { rewrite length_app. simpl. lia. }
  exists s'. rewrite <- app_assoc in Hs'. split_and!; try done; [congruence|].
  etrans; [exact Hi|]. by rewrite Hi1.
Qed.

(** A node that starts and commits [blocks]. *)
Definition node_after (snapshotNum graceDistance : Z)
    (blocks : list (ResultsBlockHeader * list ContractStateDiff))
    : outcome (state_error * memory_service) memory_service :=
  match new_memory_service snapshotNum graceDistance with
  | Ok s => commit_blocks s blocks
  | _ => Panic
  end.

Lemma node_after_ok snapshotNum graceDistance blocks :
  0 <= snapshotNum -> blocks_from 0 blocks -> Z.of_nat (length blocks) < 2 ^ 64 ->
  exists s, node_after snapshotNum graceDistance blocks = Ok s /\
    service_ok no_state empty_trie s (history blocks) /\
    StateStorageHistorySnapshotNum s = snapshotNum /\ (GetLastCommittedBlockInfo s).2 = [].
Proof.
  intros Hn Hb Hlt. unfold node_after.
  destruct (new_memory_service_ok snapshotNum graceDistance Hn) as (s0 & -> & Hs0 & Hn0 & Hi0).
  destruct (commit_blocks_ok s0 [] blocks Hs0 Hb Hlt) as (s & -> & Hs & Hns & His).
  exists s. rewrite His, Hi0. split_and!; try done. congruence.
Qed.

(** The service never reports a block proposer: after any number of commits the
    proposer address of the last committed block is still the one read from the
    persistence at start, the empty one. *)
Theorem last_committed_proposer_stale snapshotNum graceDistance blocks s :
  0 <= snapshotNum -> blocks_from 0 blocks -> Z.of_nat (length blocks) < 2 ^ 64 ->
  node_after snapshotNum graceDistance blocks = Ok s ->
  (GetLastCommittedBlockInfo s).1.1 = Z.of_nat (length blocks) /\
  (GetLastCommittedBlockInfo s).2 = [].
Proof.
  intros Hn Hb Hlt Hs. destruct (node_after_ok snapshotNum graceDistance blocks Hn Hb Hlt)
    as (s' & E & Hok & _ & Hi). rewrite E in Hs. simplify_eq. split; [|done].
  pose proof (service_ok_height _ _ _ _ Hok) as Hh. unfold history in Hh.
  by rewrite length_map in Hh.
Qed.
End MemoryNode.


(** A service whose persistence already holds a positive height cannot commit the
    next block: its tracker starts at zero, so the increment panics (or the
    revision is refused before). *)
Theorem restarted_service_cannot_commit `{Sha256, GoMapOrder, StatePersistence P, MerkleRevisions M}
    snapshotNum graceDistance (p : P) (m : M) s h ts pa r header diffs :
  ReadMetadata p = Ok (h, ts, pa, r) -> 0 < h < 2 ^ 64 - 1 ->
  NewStateStorage snapshotNum graceDistance p m mkNopHeightReporter = Ok s ->
  rxh_BlockHeight header = h + 1 ->
  forall out, CommitStateDiff s (block_input header diffs) <> Ok out.
Proof.
  unfold NewStateStorage, newRollingRevisions. intros -> Hh Hs Hb out HC. simplify_eq/=.
  unfold CommitStateDiff, getCurrentHeight in HC. simpl in HC.
  rewrite bool_decide_eq_false_2 in HC by (rewrite u64_add_small; lia).
  destruct (addRevision _ _ _ _ _) as [|[]|]; try done.
  unfold IncrementTo in HC. simpl in HC.
  rewrite bool_decide_eq_true_2 in HC; [done|]. rewrite Hb, u64_add_small; simpl; lia.
Qed.

(** ** Witnesses *)

Definition ascending_order : GoMapOrder := {|
  chain_range := chain_records; chain_range_perm d := reflexivity (chain_records d)
|}.
Definition descending_order : GoMapOrder := {|
  chain_range d := rev (chain_records d);
  chain_range_perm d := symmetry (Permutation_rev (chain_records d))
|}.
Definition header_at (height : Z) : ResultsBlockHeader :=
  mkRxHeader 1 42 height [] (1000 + height) [] [] [] [] 0 0 [9; 9].

(** Contract "c" writes keys 1 and 2 in one block, and key 1 again in the next. *)
Definition two_blocks : list (ResultsBlockHeader * list ContractStateDiff) :=
  [(header_at 1, [mkContractStateDiff [99] [mkStateRecord [1] [11]]]);
   (header_at 2, [mkContractStateDiff [99] [mkStateRecord [1] [22]]])].

Lemma two_blocks_from : blocks_from 0 two_blocks.
Proof. repeat split. Qed.

Lemma two_blocks_keys `{Sha256Laws} :
  Forall (fun cm => trie_keys_ok (cm_diff cm)) (history two_blocks).
Proof.
  repeat apply List.Forall_cons; [..|apply List.Forall_nil].
  all: split; [by apply Forall_singleton, CalcSha256_valid|apply NoDup_singleton].
Qed.

Section Witness.
#[local] Existing Instance crypto_sha256.
#[local] Existing Instance ascending_order.

Lemma CommitStateDiff_refines_witness :
  exists s s' : memory_service,
    CommitStateDiff s (block_input (header_at 1) []) = Ok (s', 2) /\
    CommitStateDiff s (block_input (header_at 7) []) = Ok (s, 1).
Proof.
  destruct (new_memory_service_ok 5 3 ltac:(lia)) as (s & _ & Hs & _ & _).
  pose proof (CommitStateDiff_refines no_state empty_trie s [] (header_at 1) [] (heightReporter s)
                Hs ltac:(simpl; lia) eq_refl) as (s' & HC & _).
  pose proof (CommitStateDiff_refines no_state empty_trie s [] (header_at 7) [] (heightReporter s)
                Hs ltac:(simpl; lia) eq_refl) as HC7.
  exists s, s'. split; [exact HC|exact HC7].
Defined.

Lemma ReadKeys_spec_witness :
  exists s : memory_service,
    ReadKeys s None (mkReadKeysInput 1 [99] [[1]; [3]]) =
      Ok [mkStateRecord [1] [11]; mkStateRecord [3] []].
Proof.
  destruct (node_after_ok 5 3 two_blocks ltac:(lia) two_blocks_from ltac:(simpl; lia))
    as (s & _ & Hs & Hn & _).
  exists s. rewrite (ReadKeys_spec no_state empty_trie s (history two_blocks)); simpl.
  - rewrite Hn. vm_compute. reflexivity.
  - exact Hs.
  - replace (Returned None) with (wait_call (blockTracker s) 1); [apply tracker_init|].
    unfold wait_call. rewrite (so_tracker _ _ _ _ Hs). reflexivity.
  - lia.
  - rewrite Hn. lia.
Defined.

Lemma last_committed_proposer_stale_witness :
  exists s, node_after 5 3 two_blocks = Ok s /\ (GetLastCommittedBlockInfo s).2 = [].
Proof.
  destruct (node_after_ok 5 3 two_blocks ltac:(lia) two_blocks_from ltac:(simpl; lia))
    as (s & HN & _). exists s. split; [exact HN|].
  apply (last_committed_proposer_stale 5 3 two_blocks s); [lia|exact two_blocks_from|simpl; lia|exact HN].
Defined.


Lemma restarted_service_cannot_commit_witness :
  let p := mkPersistence ∅ 8 1000 [] (snd NewForest) in
  exists s : memory_service,
    NewStateStorage 5 3 p (fst NewForest) mkNopHeightReporter = Ok s /\
    forall out, CommitStateDiff s (block_input (header_at 9) []) <> Ok out.
Proof.
  intros p. eexists. split; [reflexivity|].
  eapply (restarted_service_cannot_commit 5 3 p (fst NewForest)); [reflexivity|simpl; lia|reflexivity|reflexivity].
Defined.
End Witness.
