(* ===== verification/TransactionPool.v ===== *)
(** * Pending and committed transactions (services/transactionpool)

    The pending pool (a map by hash and a linked list by arrival), the committed
    pool and the validation of a transaction. *)

From stdpp Require Import base gmap list.
From Stdlib Require Import ZArith Lia ZifyBool.
From S2P Require Import Prelude Hash Protocol MerkleAlgo OrderedTree Digest.

(** ** The pending pool (pending_pool.go)

    A [*list.Element] is a number; the list holds its elements from front to
    back, and a removed element has no neighbours.  [pp_removed] records the calls
    of [onTransactionRemoved] and [pp_incremented] is the one-slot channel of the
    transaction waiter that [onNewTransaction] fills. *)

Record pendingTransaction := mkPending {
  pt_gatewayNodeAddress : bytes;
  pt_transaction : SignedTransaction;
  pt_listElement : nat
}.

Record pendingTxPool := mkPendingPool {
  pp_currentSizeInBytes : Z;
  pp_transactionsByHash : gmap bytes pendingTransaction;
  pp_transactionList : list (nat * SignedTransaction);
  pp_nextElement : nat;
  pp_removed : list (bytes * TransactionStatus);
  pp_incremented : bool
}.

Definition NewPendingPool : pendingTxPool := mkPendingPool 0 ∅ [] 0 [] false.

(** [list.Remove] *)
Definition list_remove (e : nat) (l : list (nat * SignedTransaction)) : list (nat * SignedTransaction) :=
  List.filter (fun x => negb (Nat.eqb x.1 e)) l.

(** [e.Prev()] in a list that still holds [e]: the element before it; [nil] once
    [e] was removed. *)
Fixpoint list_prev (e : nat) (l : list (nat * SignedTransaction)) : option (nat * SignedTransaction) :=
  match l with
  | x :: ((y :: _) as l') => if Nat.eqb y.1 e then Some x else list_prev e l'
  | _ => None
  end.

Record committedTransaction := mkCommitted {
  ct_receipt : TransactionReceipt;
  ct_blockHeight : Z;
  ct_blockTimestamp : Z
}.

Abbreviation committedTxPool := (gmap bytes committedTransaction).

Section Pools.
Context `{Sha256, Membuffers}.

Implicit Types p : pendingTxPool.

Definition hash_of (tx : SignedTransaction) : bytes := CalcTxHash (stx_Transaction tx).

Definition sizeOfSignedTransaction (transaction : SignedTransaction) : Z :=
  wrap 32 (Z.of_nat (length (raw_SignedTransaction transaction))).

(** [limit] is [p.pendingPoolSizeInBytes()]. *)
Definition pending_add p (limit : Z) (transaction : SignedTransaction) (gatewayNodeAddress : bytes)
    : outcome TransactionStatus (pendingTxPool * bytes) :=
  let size := sizeOfSignedTransaction transaction in
  if limit <? u32_add (pp_currentSizeInBytes p) size then
    Err TRANSACTION_STATUS_REJECTED_CONGESTION
  else
    let key := hash_of transaction in
    match pp_transactionsByHash p !! key with
    | Some _ => Err TRANSACTION_STATUS_DUPLICATE_TRANSACTION_ALREADY_PENDING
    | None =>
        let e := pp_nextElement p in
        Ok (mkPendingPool (u32_add (pp_currentSizeInBytes p) size)
              (<[key := mkPending gatewayNodeAddress transaction e]> (pp_transactionsByHash p))
              ((e, transaction) :: pp_transactionList p) (S e) (pp_removed p) true, key)
    end.

Definition pending_has p (transaction : SignedTransaction) : bool :=
  bool_decide (is_Some (pp_transactionsByHash p !! hash_of transaction)).

Definition pending_remove p (txHash : bytes) (removalReason : TransactionStatus)
    : pendingTxPool * option bytes :=
  match pp_transactionsByHash p !! txHash with
  | Some pendingTx =>
      (mkPendingPool
         (u32_sub (pp_currentSizeInBytes p) (sizeOfSignedTransaction (pt_transaction pendingTx)))
         (delete txHash (pp_transactionsByHash p))
         (list_remove (pt_listElement pendingTx) (pp_transactionList p))
         (pp_nextElement p) (pp_removed p ++ [(txHash, removalReason)]) (pp_incremented p),
       Some (pt_gatewayNodeAddress pendingTx))
  | None => (p, None)
  end.

(** The loop of [getBatch] over the elements from back to front. *)
Fixpoint batch_loop (elements : list (nat * SignedTransaction)) (maxNum sizeLimit : Z)
    (sizeInBytes : Z) (txs : list SignedTransaction) : list SignedTransaction :=
  match elements with
  | [] => txs
  | (_, tx) :: elements' =>
      if maxNum <=? wrap 32 (Z.of_nat (length txs)) then txs
      else
        let txSize := sizeOfSignedTransaction tx in
        if (0 <? sizeLimit) && (sizeLimit <? u32_add sizeInBytes txSize) then txs
        else batch_loop elements' maxNum sizeLimit (u32_add sizeInBytes txSize) (txs ++ [tx])
  end.

Definition getBatch p (maxNumOfTransactions sizeLimitInBytes : Z) : list SignedTransaction :=
  batch_loop (rev (pp_transactionList p)) maxNumOfTransactions sizeLimitInBytes 0 [].

Definition pending_get p (txHash : bytes) : option SignedTransaction :=
  pt_transaction <$> (pp_transactionsByHash p !! txHash).

(** One element per round; [e.Prev()] is read from the list as the round left it. *)
Fixpoint clear_loop (fuel : nat) p (e : option (nat * SignedTransaction)) (timestamp : Z) : pendingTxPool :=
  match fuel, e with
  | S fuel', Some (id, tx) =>
      let p :=
        if tx_Timestamp (stx_Transaction tx) <? timestamp
        then fst (pending_remove p (hash_of tx) TRANSACTION_STATUS_REJECTED_TIMESTAMP_WINDOW_EXCEEDED)
        else p in
      clear_loop fuel' p (list_prev id (pp_transactionList p)) timestamp
  | _, _ => p
  end.

(** Every round moves towards the front of a list that does not grow, so the
    length of the list is enough. *)
Definition pending_clearTransactionsOlderThan p (timestamp : Z) : pendingTxPool :=
  clear_loop (S (length (pp_transactionList p))) p (last (pp_transactionList p)) timestamp.

(** ** The committed pool (committed_pool.go) *)

Definition NewCommittedPool : committedTxPool := ∅.

Definition committed_add (c : committedTxPool) (receipt : TransactionReceipt) (blockHeight blockTs : Z)
    : committedTxPool :=
  <[tr_Txhash receipt := mkCommitted receipt blockHeight blockTs]> c.

Definition committed_get (c : committedTxPool) (txHash : bytes) : option committedTransaction := c !! txHash.

Definition committed_has (c : committedTxPool) (txHash : bytes) : bool :=
  bool_decide (is_Some (c !! txHash)).

(** The range visits every entry once and deletes by the receipt's hash; [order] is
    the order of this range. *)
Definition committed_clearTransactionsOlderThan (order : list committedTransaction)
    (c : committedTxPool) (futureTimestampGrace timestamp : Z) : committedTxPool :=
  foldl (fun c tx =>
           if u64_add (ct_blockTimestamp tx) futureTimestampGrace <? timestamp
           then delete (tr_Txhash (ct_receipt tx)) c else c) c order.

(** ** Validation of a transaction (validate_transaction.go) *)

Definition ProtocolVersion : Z := 1.
Definition ED25519_PUBLIC_KEY_SIZE_BYTES : nat := 32.

(** Durations are in nanoseconds. *)
Record validationContext := mkValidationContext {
  nodeSyncRejectInterval : Z;
  expiryWindow : Z;
  vc_futureTimestampGrace : Z;
  vc_virtualChainId : Z
}.

Implicit Types c : validationContext.

Definition validateProtocolVersion (tx : SignedTransaction) : outcome TransactionStatus unit :=
  if bool_decide (tx_ProtocolVersion (stx_Transaction tx) <> ProtocolVersion)
  then Err TRANSACTION_STATUS_REJECTED_UNSUPPORTED_VERSION else Ok tt.

Definition validateTransactionVirtualChainId c (tx : SignedTransaction) : outcome TransactionStatus unit :=
  if bool_decide (tx_VirtualChainId (stx_Transaction tx) = vc_virtualChainId c)
  then Ok tt else Err TRANSACTION_STATUS_REJECTED_VIRTUAL_CHAIN_MISMATCH.

Definition validateSignatureType (tx : SignedTransaction) : outcome TransactionStatus unit :=
  match sg_Eddsa (tx_Signer (stx_Transaction tx)) with
  | None => Err TRANSACTION_STATUS_REJECTED_UNKNOWN_SIGNER_SCHEME
  | Some publicKey =>
      if bool_decide (length publicKey <> ED25519_PUBLIC_KEY_SIZE_BYTES)
      then Err TRANSACTION_STATUS_REJECTED_SIGNATURE_MISMATCH else Ok tt
  end.

(** [currentTime] is [UnixNano] of the clock. *)
Definition validateNodeIsInSync c (currentTime lastCommittedBlockTimestamp : Z)
    : outcome TransactionStatus unit :=
  let threshold := wrap 64 (currentTime - nodeSyncRejectInterval c) in
  if lastCommittedBlockTimestamp <? threshold
  then Err TRANSACTION_STATUS_REJECTED_NODE_OUT_OF_SYNC else Ok tt.

Definition validateTransactionNotExpired c (tx : SignedTransaction) (proposedBlockTimestamp : Z)
    : outcome TransactionStatus unit :=
  let threshold := u64_sub proposedBlockTimestamp (expiryWindow c) in
  if tx_Timestamp (stx_Transaction tx) <? threshold
  then Err TRANSACTION_STATUS_REJECTED_TIMESTAMP_WINDOW_EXCEEDED else Ok tt.

Definition validateTransactionNotInFuture c (tx : SignedTransaction) (proposedBlockTimestamp : Z)
    : outcome TransactionStatus unit :=
  let tsWithGrace := u64_add proposedBlockTimestamp (vc_futureTimestampGrace c) in
  if tsWithGrace <? tx_Timestamp (stx_Transaction tx)
  then Err TRANSACTION_STATUS_REJECTED_TIMESTAMP_AHEAD_OF_NODE_TIME else Ok tt.

Definition ValidateAddedTransaction c (tx : SignedTransaction)
    (currentTime lastCommittedBlockTimestamp : Z) : outcome TransactionStatus unit :=
  let proposedBlockTimestamp := wrap 64 currentTime in
  let! _ := validateProtocolVersion tx in
  let! _ := validateSignatureType tx in
  let! _ := validateTransactionVirtualChainId c tx in
  let! _ := validateNodeIsInSync c currentTime lastCommittedBlockTimestamp in
  let! _ := validateTransactionNotExpired c tx proposedBlockTimestamp in
  validateTransactionNotInFuture c tx proposedBlockTimestamp.

Definition ValidateTransactionForOrdering c (tx : SignedTransaction) (proposedBlockTimestamp : Z)
    : outcome TransactionStatus unit :=
  let! _ := validateProtocolVersion tx in
  let! _ := validateSignatureType tx in
  let! _ := validateTransactionVirtualChainId c tx in
  let! _ := validateTransactionNotExpired c tx proposedBlockTimestamp in
  validateTransactionNotInFuture c tx proposedBlockTimestamp.
End Pools.

(** ** Invariant of the pending pool *)

Lemma NoDup_map_fst_inj {A B} (l : list (A * B)) a b b' :
  NoDup (map fst l) -> (a, b) ∈ l -> (a, b') ∈ l -> b = b'.
Proof.
  induction l as [|[x y] l IH]; intros Hnd; [by intros ?%elem_of_nil|]. simpl in Hnd.
  apply NoDup_cons in Hnd as [Hnin Hnd].
  intros [?|Hb]%elem_of_cons [?|Hb']%elem_of_cons; simplify_eq; [done|..].
  - exfalso. apply Hnin, list_elem_of_fmap. by exists (x, b').
  - exfalso. apply Hnin, list_elem_of_fmap. by exists (x, b).
  - by apply IH.
Qed.

Section Invariant.
Context `{Sha256, Membuffers}.

Implicit Types p : pendingTxPool.

Definition total_size (l : list (nat * SignedTransaction)) : Z :=
  foldr (fun x acc => sizeOfSignedTransaction x.2 + acc) 0 l.

(** The map and the list hold the same transactions, each element once, and the
    size counter is the sum of their sizes modulo 2^32. *)
Record pool_ok p : Prop := {
  po_list id tx : (id, tx) ∈ pp_transactionList p ->
    exists gw, pp_transactionsByHash p !! hash_of tx = Some (mkPending gw tx id);
  po_map k pt : pp_transactionsByHash p !! k = Some pt ->
    hash_of (pt_transaction pt) = k /\
    (pt_listElement pt, pt_transaction pt) ∈ pp_transactionList p;
  po_ids : NoDup (map fst (pp_transactionList p));
  po_next id tx : (id, tx) ∈ pp_transactionList p -> (id < pp_nextElement p)%nat;
  po_size : pp_currentSizeInBytes p = wrap 32 (total_size (pp_transactionList p))
}.

Lemma pool_ok_new : pool_ok NewPendingPool.
Proof.
  split; simpl; try done; [..|constructor|].
  - by intros id tx ?%elem_of_nil.
  - by intros id tx ?%elem_of_nil.
Qed.

Lemma pool_ok_add p limit tx gw p' key :
  pool_ok p -> pending_add p limit tx gw = Ok (p', key) -> pool_ok p'.
Proof.
  intros [Hl Hm Hids Hn Hs] Ha. unfold pending_add in Ha.
  destruct (_ <? _); [done|]. destruct (pp_transactionsByHash p !! hash_of tx) eqn:E; simplify_eq/=.
  split; simpl.
  - intros id t [?|Hin]%elem_of_cons; simplify_eq; [exists gw; by rewrite lookup_insert_eq|].
    destruct (Hl id t Hin) as [gw' Hgw]. exists gw'.
    rewrite lookup_insert_ne; [done|]. congruence.
  - intros k pt [[<- <-]|[Hne Hk]]%lookup_insert_Some; [split; [done|by left]|].
    destruct (Hm k pt Hk). split; [done|by right].
  - apply NoDup_cons. split; [|done]. intros ([id t] & ? & Hin)%list_elem_of_fmap. simplify_eq/=.
    apply Hn in Hin. lia.
  - intros id t [?|Hin]%elem_of_cons; simplify_eq; [lia|]. apply Hn in Hin. lia.
  - unfold u32_add. rewrite Hs, wrap_add_l. f_equal. lia.
Qed.

Lemma elem_of_list_remove e l x : x ∈ list_remove e l <-> x ∈ l /\ x.1 <> e.
Proof.
  unfold list_remove. rewrite !list_elem_of_In, List.filter_In. split; intros [? Hx]; split; try done.
  - apply negb_true_iff, Nat.eqb_neq in Hx. done.
  - by apply negb_true_iff, Nat.eqb_neq.
Qed.

Lemma list_remove_NoDup e l : NoDup (map fst l) -> NoDup (map fst (list_remove e l)).
Proof.
  induction l as [|x l IH]; simpl; [done|]. intros [Hnin Hnd]%NoDup_cons.
  destruct (negb _); [|auto]. simpl. apply NoDup_cons. split; [|auto].
  intros (y & Hy & [Hin _]%elem_of_list_remove)%list_elem_of_fmap. apply Hnin, list_elem_of_fmap. eauto.
Qed.

Lemma list_remove_id e l : e ∉ map fst l -> list_remove e l = l.
Proof.
  induction l as [|x l IH]; simpl; [done|]. intros [Hne Hnin]%not_elem_of_cons.
  rewrite (proj2 (Nat.eqb_neq x.1 e)) by congruence. simpl. f_equal. auto.
Qed.

Lemma list_remove_middle pre e tx post :
  NoDup (map fst (pre ++ (e, tx) :: post)) -> list_remove e (pre ++ (e, tx) :: post) = pre ++ post.
Proof.
  intros Hnd. rewrite map_app in Hnd. simpl in Hnd. apply NoDup_app in Hnd as (_ & Hd & Hnd).
  apply NoDup_cons in Hnd as [Hnin _].
  unfold list_remove. rewrite List.filter_app. simpl. rewrite Nat.eqb_refl. simpl. f_equal.
  - apply list_remove_id. intros Hin. apply (Hd e Hin). by left.
  - by apply list_remove_id.
Qed.

Lemma total_size_app l1 l2 : total_size (l1 ++ l2) = total_size l1 + total_size l2.
Proof. induction l1; simpl; lia. Qed.

Lemma total_size_remove e tx l :
  NoDup (map fst l) -> (e, tx) ∈ l -> total_size (list_remove e l) = total_size l - sizeOfSignedTransaction tx.
Proof.
  intros Hnd (pre & post & ->)%list_elem_of_split. rewrite list_remove_middle by done.
  rewrite !total_size_app. simpl. lia.
Qed.

Lemma pool_ok_remove p txHash reason : pool_ok p -> pool_ok (pending_remove p txHash reason).1.
Proof.
  intros Hok. pose proof Hok as [Hl Hm Hids Hn Hs]. unfold pending_remove.
  destruct (pp_transactionsByHash p !! txHash) as [[gw tx e]|] eqn:E; [|done].
  destruct (Hm _ _ E) as [<- Hin]. simpl in *. split; simpl.
  - intros id t [Ht Hne]%elem_of_list_remove. destruct (Hl id t Ht) as [gw' Hgw']. exists gw'.
    rewrite lookup_delete_ne; [done|]. intros Eh. rewrite Eh in E. by simplify_eq/=.
  - intros k pt [Hk Hpt]%lookup_delete_Some. destruct (Hm k pt Hpt) as [Hk' Hpt']. split; [done|].
    apply elem_of_list_remove. split; [done|]. simpl. intros Ee.
    destruct (Hl _ _ Hpt') as [gw1 H1']. destruct (Hl _ _ Hin) as [gw2 H2'].
    apply Hk. rewrite <- Hk'. rewrite Ee in Hpt'.
    assert (pt_transaction pt = tx) as ->; [|done].
    by apply (NoDup_map_fst_inj (pp_transactionList p) e).
  - by apply list_remove_NoDup.
  - intros id t [Ht _]%elem_of_list_remove. by apply (Hn id t).
  - unfold u32_sub. rewrite Hs, wrap_sub_l. by rewrite (total_size_remove e tx).
Qed.
(** ** Clearing *)

Lemma list_prev_middle pre e tx post :
  NoDup (map fst (pre ++ (e, tx) :: post)) -> list_prev e (pre ++ (e, tx) :: post) = last pre.
Proof.
  induction pre as [|x pre IH]; intros Hnd; simpl in Hnd.
  - apply NoDup_cons in Hnd as [Hnin _]. simpl. destruct post as [|y post]; [done|].
    simpl in Hnin. apply not_elem_of_cons in Hnin as [Hne Hnin].
    rewrite (proj2 (Nat.eqb_neq y.1 e)) by congruence. clear Hne.
    revert y Hnin. induction post as [|z post IHp]; intros y Hnin; [done|].
    simpl in Hnin. apply not_elem_of_cons in Hnin as [Hne Hnin].
    cbn [list_prev]. rewrite (proj2 (Nat.eqb_neq z.1 e)) by congruence. by apply IHp.
  - apply NoDup_cons in Hnd as [Hnin Hnd]. specialize (IH Hnd).
    destruct pre as [|y pre]; simpl in *; [by rewrite Nat.eqb_refl|].
    apply not_elem_of_cons in Hnin as [_ Hnin]. apply NoDup_cons in Hnd as [Hy _].
    destruct (Nat.eqb_spec y.1 e) as [Ey|]; [|by rewrite IH].
    exfalso. apply Hy. rewrite Ey, map_app. apply elem_of_app. right. by left.
Qed.

Lemma list_prev_absent e l : e ∉ map fst l -> list_prev e l = None.
Proof.
  induction l as [|x [|y l] IH]; intros Hnin; try done. cbn [list_prev].
  simpl in Hnin. apply not_elem_of_cons in Hnin as [_ Hnin].
  pose proof Hnin as [Hne _]%not_elem_of_cons.
  rewrite (proj2 (Nat.eqb_neq y.1 e)) by congruence. by apply IH.
Qed.

Definition expired (timestamp : Z) (x : nat * SignedTransaction) : bool :=
  tx_Timestamp (stx_Transaction x.2) <? timestamp.

(** Removing the first expired transaction, from the oldest on. *)
Definition remove_first_expired p (elements : list (nat * SignedTransaction)) (timestamp : Z) : pendingTxPool :=
  match List.find (expired timestamp) elements with
  | Some (_, tx) => (pending_remove p (hash_of tx) TRANSACTION_STATUS_REJECTED_TIMESTAMP_WINDOW_EXCEEDED).1
  | None => p
  end.

Lemma pending_remove_list p id tx reason :
  pool_ok p -> (id, tx) ∈ pp_transactionList p ->
  pp_transactionList (pending_remove p (hash_of tx) reason).1 = list_remove id (pp_transactionList p).
Proof.
  intros Hok Hin. destruct (po_list _ Hok id tx Hin) as [gw Hgw].
  unfold pending_remove. by rewrite Hgw.
Qed.

Lemma clear_loop_spec fuel p pre id tx post timestamp :
  pool_ok p -> pp_transactionList p = pre ++ (id, tx) :: post -> (length pre < fuel)%nat ->
  clear_loop fuel p (Some (id, tx)) timestamp =
  remove_first_expired p (rev (pre ++ [(id, tx)])) timestamp.
Proof.
  revert pre id tx post. induction fuel as [|fuel IH]; intros pre id tx post Hok E Hf; [lia|].
  pose proof (po_ids _ Hok) as Hids. rewrite E in Hids.
  cbn [clear_loop]. unfold remove_first_expired. rewrite rev_app_distr. cbn [rev app List.find expired snd].
  destruct (tx_Timestamp (stx_Transaction tx) <? timestamp) eqn:Hexp; unfold expired at 1; simpl snd; rewrite Hexp.
  - rewrite (pending_remove_list p id tx) by (done || (rewrite E; apply elem_of_app; right; by left)).
    rewrite list_prev_absent; [by destruct fuel|]. rewrite E.
    intros ([e t] & -> & [_ Hne]%elem_of_list_remove)%list_elem_of_fmap. done.
  - rewrite E, list_prev_middle by done.
    destruct pre as [|[id' tx'] pre _] using rev_ind; [by destruct fuel|].
    rewrite last_snoc. rewrite length_app in Hf. simpl in Hf.
    rewrite (IH pre id' tx' ((id, tx) :: post)); [done|done|by rewrite E, <- app_assoc|lia].
Qed.

Lemma pending_clear_spec p timestamp :
  pool_ok p ->
  pending_clearTransactionsOlderThan p timestamp =
  remove_first_expired p (rev (pp_transactionList p)) timestamp.
Proof.
  intros Hok. unfold pending_clearTransactionsOlderThan.
  destruct (pp_transactionList p) as [|[id tx] pre _] eqn:E using rev_ind; [done|].
  rewrite last_snoc, (clear_loop_spec _ p pre id tx []); [done|done|done|].
  rewrite length_app. lia.
Qed.

Lemma pool_ok_clear p timestamp : pool_ok p -> pool_ok (pending_clearTransactionsOlderThan p timestamp).
Proof.
  intros Hok. rewrite pending_clear_spec by done. unfold remove_first_expired.
  destruct (List.find _ _) as [[]|]; [|done]. by apply pool_ok_remove.
Qed.
End Invariant.

(** ** Properties of the pending pool *)

Section Properties.
Context `{Sha256, Membuffers}.

Implicit Types p : pendingTxPool.

Inductive pool_reachable : pendingTxPool -> Prop :=
| pool_new : pool_reachable NewPendingPool
| pool_add p limit tx gw p' key :
    pool_reachable p -> pending_add p limit tx gw = Ok (p', key) -> pool_reachable p'
| pool_remove p txHash reason :
    pool_reachable p -> pool_reachable (pending_remove p txHash reason).1
| pool_clear p timestamp :
    pool_reachable p -> pool_reachable (pending_clearTransactionsOlderThan p timestamp).

(** In every pool the exported operations can produce, the hash index and the
    arrival list hold the same transactions, each once and under its own hash,
    and the size counter is their total size modulo 2^32. *)
Theorem pending_pool_invariant p : pool_reachable p -> pool_ok p.
Proof.
  induction 1; eauto using pool_ok_new, pool_ok_add, pool_ok_remove, pool_ok_clear.
Qed.

(** The transactions in arrival order. *)
Definition queue p : list SignedTransaction := map snd (rev (pp_transactionList p)).

Lemma pending_by_hash p k :
  pool_ok p -> is_Some (pp_transactionsByHash p !! k) <-> k ∈ map hash_of (queue p).
Proof.
  intros Hok. unfold queue. rewrite map_map. split.
  - intros [pt Hpt]. destruct (po_map _ Hok k pt Hpt) as [<- Hin]. apply list_elem_of_fmap.
    exists (pt_listElement pt, pt_transaction pt). split; [done|].
    by apply list_elem_of_In, in_rev, list_elem_of_In in Hin.
  - intros ([id tx] & -> & Hin)%list_elem_of_fmap.
    apply list_elem_of_In, in_rev, list_elem_of_In in Hin.
    simpl. destruct (po_list _ Hok id tx Hin) as [gw ->]. eauto.
Qed.

(** [add] accepts a transaction exactly when no transaction with its hash is
    pending and it fits under the limit, and then appends it to the queue;
    otherwise it reports congestion or a duplicate.  (The sum is assumed to fit in
    the 32-bit counter.) *)
Theorem pending_add_spec p limit tx gw :
  pool_ok p ->
  let total := total_size (pp_transactionList p) + sizeOfSignedTransaction tx in
  0 <= total_size (pp_transactionList p) /\ total < 2 ^ 32 ->
  if decide (limit < total) then
    pending_add p limit tx gw = Err TRANSACTION_STATUS_REJECTED_CONGESTION
  else if decide (hash_of tx ∈ map hash_of (queue p)) then
    pending_add p limit tx gw = Err TRANSACTION_STATUS_DUPLICATE_TRANSACTION_ALREADY_PENDING
  else exists p', pending_add p limit tx gw = Ok (p', hash_of tx) /\
    queue p' = queue p ++ [tx] /\ total_size (pp_transactionList p') = total /\ total <= limit.
Proof.
  intros Hok total [Htot Hfit]. unfold pending_add. rewrite (po_size _ Hok).
  assert (0 <= sizeOfSignedTransaction tx) as Hsz by (apply wrap_bound; lia).
  unfold u32_add. rewrite wrap_add_l, wrap_small by lia. fold total.
  case_decide as Hlim; [by lia_if|].
  lia_if.
  case_decide as Hdup; [by apply pending_by_hash in Hdup as [pt ->]|].
  destruct (pp_transactionsByHash p !! hash_of tx) eqn:E.
  { exfalso. apply Hdup, pending_by_hash; [done|]. by rewrite E. }
  eexists. split; [done|]. unfold queue. simpl. rewrite map_app. split_and!; [done|lia|lia].
Qed.

Lemma total_size_nonneg l : 0 <= total_size l.
Proof.
  induction l as [|x l IH]; simpl; [lia|].
  assert (0 <= sizeOfSignedTransaction x.2) by (apply wrap_bound; lia). lia.
Qed.

Lemma batch_loop_spec elements maxNum sizeLimit sizeInBytes txs :
  0 <= sizeInBytes -> sizeInBytes + total_size elements < 2 ^ 32 ->
  Z.of_nat (length txs + length elements) < 2 ^ 32 ->
  exists n, batch_loop elements maxNum sizeLimit sizeInBytes txs = txs ++ take n (map snd elements) /\
    (n <= length elements)%nat /\
    (n = 0%nat \/ Z.of_nat (length txs + n) <= maxNum) /\
    (n = 0%nat \/ sizeLimit <= 0 \/ sizeInBytes + total_size (take n elements) <= sizeLimit) /\
    (n = length elements \/ maxNum <= Z.of_nat (length txs + n) \/
     (0 < sizeLimit < sizeInBytes + total_size (take (S n) elements))).
Proof.
  revert sizeInBytes txs. induction elements as [|[id tx] elements IH]; intros sz txs H0s Hsum Hlen.
  { exists 0%nat. rewrite app_nil_r. simpl. split_and!; auto. }
  simpl in Hsum, Hlen. cbn [batch_loop].
  assert (0 <= sizeOfSignedTransaction tx) as Hsz by (apply wrap_bound; lia).
  pose proof (total_size_nonneg elements) as Htot.
  rewrite wrap_small by lia. unfold u32_add. rewrite wrap_small by lia.
  destruct (Z.leb_spec maxNum (Z.of_nat (length txs))).
  { exists 0%nat. rewrite app_nil_r. simpl. split_and!; auto with lia. }
  destruct ((0 <? sizeLimit) && (sizeLimit <? sz + sizeOfSignedTransaction tx)) eqn:Eover.
  { exists 0%nat. rewrite app_nil_r. simpl. split_and!; auto with lia. }
  destruct (IH (sz + sizeOfSignedTransaction tx) (txs ++ [tx])) as (n & E & Hn & Hm & Hs & Hmax);
    [lia|lia|rewrite length_app; simpl; lia|].
  exists (S n). rewrite length_app in Hm, Hmax. simpl in Hm, Hmax.
  rewrite E, <- app_assoc. split; [done|]. simpl length.
  replace (total_size (take (S n) ((id, tx) :: elements)))
    with (sizeOfSignedTransaction tx + total_size (take n elements)) by done.
  replace (total_size (take (S (S n)) ((id, tx) :: elements)))
    with (sizeOfSignedTransaction tx + total_size (take (S n) elements)) by done.
  split_and!; [lia|lia| |lia].
  right. destruct Hs as [->|Hs]; [rewrite take_0; simpl; lia|lia].
Qed.

(** [getBatch] returns the oldest transactions in arrival order, as many as the
    count and size limits allow and no fewer: the next one would exceed a limit. *)
Theorem getBatch_spec p maxNumOfTransactions sizeLimitInBytes :
  total_size (pp_transactionList p) < 2 ^ 32 ->
  Z.of_nat (length (pp_transactionList p)) < 2 ^ 32 -> 0 <= maxNumOfTransactions ->
  exists n, getBatch p maxNumOfTransactions sizeLimitInBytes = take n (queue p) /\
    (n <= length (queue p))%nat /\ Z.of_nat n <= maxNumOfTransactions /\
    let size m := total_size (take m (rev (pp_transactionList p))) in
    (n = 0%nat \/ sizeLimitInBytes <= 0 \/ size n <= sizeLimitInBytes) /\
    (n = length (queue p) \/ Z.of_nat n = maxNumOfTransactions \/ 0 < sizeLimitInBytes < size (S n)).
Proof.
  intros Hsum Hlen Hmax0. unfold getBatch, queue.
  assert (total_size (rev (pp_transactionList p)) = total_size (pp_transactionList p)) as Hrev.
  { generalize (pp_transactionList p) as l. intros l. induction l as [|x l IHl]; [done|].
    cbn [rev]. rewrite total_size_app, IHl. simpl. lia. }
  destruct (batch_loop_spec (rev (pp_transactionList p)) maxNumOfTransactions sizeLimitInBytes 0 [])
    as (n & E & Hn & Hm & Hs & Hmx); [lia|lia|rewrite length_rev; simpl; lia|].
  exists n. rewrite E, length_map. simpl app. simpl length in *. cbn zeta.
  split_and!; [done|lia|lia|lia|lia].
Qed.

(** One call of [clearTransactionsOlderThan] on the pending pool removes only the
    oldest expired transaction: removing an element detaches it from the list, so
    the loop finds no predecessor and stops. *)
Theorem pending_clear_removes_one p timestamp :
  pool_ok p ->
  pending_clearTransactionsOlderThan p timestamp =
    match List.find (expired timestamp) (rev (pp_transactionList p)) with
    | None => p
    | Some (_, tx) => (pending_remove p (hash_of tx) TRANSACTION_STATUS_REJECTED_TIMESTAMP_WINDOW_EXCEEDED).1
    end /\
  (length (pp_transactionList p) <= S (length (pp_transactionList
     (pending_clearTransactionsOlderThan p timestamp))))%nat.
Proof.
  intros Hok. rewrite pending_clear_spec by done. split; [done|]. unfold remove_first_expired.
  destruct (List.find _ _) as [[id tx]|] eqn:E; [|lia].
  apply find_some in E as [Hin%in_rev%list_elem_of_In _].
  rewrite (pending_remove_list p id tx) by done.
  pose proof Hin as (pre & post & El)%list_elem_of_split.
  pose proof (po_ids _ Hok) as Hids. rewrite El in *. rewrite list_remove_middle by done.
  rewrite !length_app. simpl. lia.
Qed.
End Properties.

(** ** Witnesses *)

Section Witness.
#[local] Instance plain_hash : Sha256 := fun data => data.
#[local] Existing Instance plain_membuffers.

Definition tx_at (timestamp : Z) : SignedTransaction :=
  mkSignedTransaction
    (mkTransaction 1 42 timestamp (mkSigner [1] (Some (replicate 32 5))) [10] [11] []) [12].

(** Two transactions, added at times 3 and 4. *)
Definition pool1 : pendingTxPool := mkPendingPool 7 {[ hash_of (tx_at 3) := mkPending [9] (tx_at 3) 0 ]}
  [(0%nat, tx_at 3)] 1 [] true.
Definition pool2 : pendingTxPool :=
  mkPendingPool 14 (<[hash_of (tx_at 4) := mkPending [9] (tx_at 4) 1]> (pp_transactionsByHash pool1))
    [(1%nat, tx_at 4); (0%nat, tx_at 3)] 2 [] true.

Lemma pool1_add : pending_add NewPendingPool 100 (tx_at 3) [9] = Ok (pool1, hash_of (tx_at 3)).
Proof. reflexivity. Qed.
Lemma pool2_add : pending_add pool1 100 (tx_at 4) [9] = Ok (pool2, hash_of (tx_at 4)).
Proof. reflexivity. Qed.

Lemma pending_pool_invariant_witness : pool_ok pool2.
Proof.
  apply pending_pool_invariant. apply (pool_add pool1 100 (tx_at 4) [9] pool2 (hash_of (tx_at 4))); [|exact pool2_add].
  apply (pool_add NewPendingPool 100 (tx_at 3) [9] pool1 (hash_of (tx_at 3)));
    [apply pool_new|exact pool1_add].
Defined.

Lemma pool1_ok : pool_ok pool1.
Proof. apply (pool_ok_add _ _ _ _ _ _ pool_ok_new pool1_add). Qed.
Lemma pool2_ok : pool_ok pool2.
Proof. apply (pool_ok_add _ _ _ _ _ _ pool1_ok pool2_add). Qed.

Lemma pending_add_spec_witness :
  exists p', pending_add pool1 100 (tx_at 4) [9] = Ok (p', hash_of (tx_at 4)) /\
    queue p' = [tx_at 3; tx_at 4].
Proof.
  pose proof (pending_add_spec pool1 100 (tx_at 4) [9] pool1_ok) as Hs.
  destruct Hs as (p' & Ha & Hq & _); [vm_compute; split; congruence|].
  exists p'. split; [exact Ha|exact Hq].
Defined.

Lemma getBatch_spec_witness :
  exists n, getBatch pool2 1 0 = take n [tx_at 3; tx_at 4] /\ Z.of_nat n <= 1.
Proof.
  destruct (getBatch_spec pool2 1 0) as (n & Hb & _ & Hn & _); [vm_compute; congruence..|].
  exists n. split; [exact Hb|exact Hn].
Defined.

(** Both transactions are older than time 10; one of them stays. *)
Lemma pending_clear_removes_one_witness :
  queue (pending_clearTransactionsOlderThan pool2 10) = [tx_at 4].
Proof.
  destruct (pending_clear_removes_one pool2 10 pool2_ok) as [-> _]. reflexivity.
Defined.
End Witness.
