(* ===== verification/TransactionPoolService.v ===== *)
(** * The transaction pool service (services/transactionpool)

    Adding, forwarding, ordering, committing and looking up transactions, on top of
    the two pools, the block tracker and the virtual machine's pre-order check. *)

From stdpp Require Import base gmap list.
From Stdlib Require Import ZArith Lia ZifyBool.
From S2P Require Import Prelude Hash Protocol MerkleAlgo OrderedTree Digest BlockTracker TransactionPool.

(** The pre-order check of the virtual machine: a status per transaction, and an
    error. *)
Class PreOrderVM := TransactionSetPreOrder :
  list SignedTransaction -> Z -> Z -> list TransactionStatus * bool.

(** Recovering the signer of relayed transactions (secp256k1, a library). *)
Class NodeSignatures := VerifyNodeSignature : bytes -> bytes -> bytes -> bool.

Record TransactionPoolConfig := mkPoolConfig {
  NodeAddress : bytes;
  PendingPoolSizeInBytes : Z;
  TransactionExpirationWindow : Z;
  TransactionPoolNodeSyncRejectTime : Z;
  TransactionPoolFutureTimestampGraceTimeout : Z;
  VirtualChainId : Z
}.

Definition createValidationContext (config : TransactionPoolConfig) : validationContext :=
  mkValidationContext (TransactionPoolNodeSyncRejectTime config) (TransactionExpirationWindow config)
    (TransactionPoolFutureTimestampGraceTimeout config) (VirtualChainId config).

(** [resultsHandled] is what the result handlers were told: receipts of a block. *)
Record Service (R : Type) := mkTpService {
  tp_config : TransactionPoolConfig;
  tp_blockHeight : Z;
  tp_timestamp : Z;
  pendingPool : pendingTxPool;
  committedPool : committedTxPool;
  tp_blockTracker : BlockTracker;
  blockHeightReporter : R;
  forwardQueue : list SignedTransaction;
  resultsHandled : list (Z * Z * list TransactionReceipt)
}.
Arguments mkTpService {R}.
Arguments tp_config {R}.
Arguments tp_blockHeight {R}.
Arguments tp_timestamp {R}.
Arguments pendingPool {R}.
Arguments committedPool {R}.
Arguments tp_blockTracker {R}.
Arguments blockHeightReporter {R}.
Arguments forwardQueue {R}.
Arguments resultsHandled {R}.

Inductive pool_error :=
| ErrRejected (status : TransactionStatus)
| ErrWait (e : tracker_error)
| ErrPreOrder
| ErrAlreadyCommitted
| ErrForwardSignature.

Section Service.
Context `{Sha256, Membuffers, PreOrderVM, NodeSignatures} {R : Type} `{!HeightReporter R}.

Implicit Types s : Service R.

Definition NewTransactionPool (config : TransactionPoolConfig) (graceDistance : Z) (reporter : R) : Service R :=
  mkTpService config 0 0 NewPendingPool NewCommittedPool (NewBlockTracker 0 (wrap 16 graceDistance))
    reporter [] [].

Definition lastCommittedBlockHeightAndTime s : Z * Z := (tp_blockHeight s, tp_timestamp s).

Definition with_pending s (p : pendingTxPool) : Service R :=
  mkTpService (tp_config s) (tp_blockHeight s) (tp_timestamp s) p (committedPool s) (tp_blockTracker s)
    (blockHeightReporter s) (forwardQueue s) (resultsHandled s).

Definition with_committed s (c : committedTxPool) : Service R :=
  mkTpService (tp_config s) (tp_blockHeight s) (tp_timestamp s) (pendingPool s) c (tp_blockTracker s)
    (blockHeightReporter s) (forwardQueue s) (resultsHandled s).

(** ** Adding (add_new_transaction.go) *)

Record AddNewTransactionOutput := mkAddOutput {
  ao_receipt : option TransactionReceipt;
  ao_status : TransactionStatus;
  ao_blockHeight : Z;
  ao_blockTimestamp : Z
}.

Definition addTransactionOutputFor s (maybeReceipt : option TransactionReceipt)
    (status : TransactionStatus) : AddNewTransactionOutput :=
  mkAddOutput maybeReceipt status (tp_blockHeight s) (tp_timestamp s).

Definition validateSingleTransactionForPreOrder s (transaction : SignedTransaction) (now : Z)
    : outcome pool_error unit :=
  let estimatedCurrentBlockHeight := u64_add (tp_blockHeight s) 1 in
  let '(results, err) := TransactionSetPreOrder [transaction] estimatedCurrentBlockHeight (wrap 64 now) in
  if err : bool then Err ErrPreOrder
  else match results with
       | [status] =>
           if bool_decide (status <> TRANSACTION_STATUS_PRE_ORDER_VALID)
           then Err (ErrRejected status) else Ok tt
       | _ => Err ErrPreOrder
       end.

(** [None] when the transaction was added. *)
Definition addToPendingPoolAfterCheckingCommitted s (tx : SignedTransaction) (txHash : bytes)
    : Service R * option (AddNewTransactionOutput * option pool_error) :=
  match committed_get (committedPool s) txHash with
  | Some alreadyCommitted =>
      (s, Some (addTransactionOutputFor s (Some (ct_receipt alreadyCommitted))
                  TRANSACTION_STATUS_DUPLICATE_TRANSACTION_ALREADY_COMMITTED, None))
  | None =>
      match pending_add (pendingPool s) (PendingPoolSizeInBytes (tp_config s)) tx (NodeAddress (tp_config s)) with
      | Ok (p, _) => (with_pending s p, None)
      | Err status => (s, Some (addTransactionOutputFor s None status, Some (ErrRejected status)))
      | Panic => (s, Some (addTransactionOutputFor s None TRANSACTION_STATUS_RESERVED, None))
      end
  end.

Definition submit s (transactions : list SignedTransaction) : Service R :=
  mkTpService (tp_config s) (tp_blockHeight s) (tp_timestamp s) (pendingPool s) (committedPool s)
    (tp_blockTracker s) (blockHeightReporter s) (forwardQueue s ++ transactions) (resultsHandled s).

(** [now] is the clock at the call. *)
Definition AddNewTransaction s (tx : SignedTransaction) (now : Z)
    : Service R * AddNewTransactionOutput * option pool_error :=
  let txHash := hash_of tx in
  match ValidateAddedTransaction (createValidationContext (tp_config s)) tx now (tp_timestamp s) with
  | Err status => (s, addTransactionOutputFor s None status, Some (ErrRejected status))
  | _ =>
      match validateSingleTransactionForPreOrder s tx now with
      | Err e =>
          let status := match e with
                        | ErrRejected status => status
                        | _ => TRANSACTION_STATUS_REJECTED_SMART_CONTRACT_PRE_ORDER
                        end in
          (s, addTransactionOutputFor s None status, Some e)
      | _ =>
          match addToPendingPoolAfterCheckingCommitted s tx txHash with
          | (s, Some (output, err)) => (s, output, err)
          | (s, None) =>
              let s := submit s [tx] in
              (s, addTransactionOutputFor s None TRANSACTION_STATUS_PENDING, None)
          end
      end
  end.

(** ** Forwarding (forward_transactions.go) *)

(** hash/adler32 *)
Definition adler32 (data : bytes) : Z :=
  let '(a, b) := foldl (fun '(a, b) x => let a := (a + x) mod 65521 in (a, (b + a) mod 65521)) (1, 0) data in
  b * 65536 + a.

Definition HashTransactions (txs : list SignedTransaction) : bytes * list bytes :=
  let hashes := map hash_of txs in
  (Sha2.be_bytes 4 (adler32 (concat hashes)), hashes).

(** A transaction the pool does not accept is logged and skipped. *)
Definition add_forwarded s (sender : bytes) (tx : SignedTransaction) : Service R :=
  match pending_add (pendingPool s) (PendingPoolSizeInBytes (tp_config s)) tx sender with
  | Ok (p, _) => with_pending s p
  | _ => s
  end.

Definition HandleForwardedTransactions s (sender signature : bytes) (txs : list SignedTransaction)
    : outcome pool_error (Service R) :=
  let '(oneBigHash, _) := HashTransactions txs in
  if VerifyNodeSignature sender oneBigHash signature
  then Ok (foldl (fun s tx => add_forwarded s sender tx) s txs)
  else Err ErrForwardSignature.

Definition drainQueue s : Service R * list SignedTransaction :=
  (mkTpService (tp_config s) (tp_blockHeight s) (tp_timestamp s) (pendingPool s) (committedPool s)
     (tp_blockTracker s) (blockHeightReporter s) [] (resultsHandled s), forwardQueue s).

(** ** Ordering (get_transactions_for_ordering.go, validate_transactions_for_ordering.go) *)

Record transactionBatch := mkBatch {
  incomingTransactions : list SignedTransaction;
  transactionsToReject : list (bytes * TransactionStatus);
  transactionsForPreOrder : list SignedTransaction;
  validTransactions : list SignedTransaction
}.

Definition reject (r : transactionBatch) (txHash : bytes) (status : TransactionStatus) : transactionBatch :=
  mkBatch (incomingTransactions r) (transactionsToReject r ++ [(txHash, status)])
    (transactionsForPreOrder r) (validTransactions r).

Definition queueForPreOrderValidation (r : transactionBatch) (tx : SignedTransaction) : transactionBatch :=
  mkBatch (incomingTransactions r) (transactionsToReject r) (transactionsForPreOrder r ++ [tx])
    (validTransactions r).

Definition accept (r : transactionBatch) (tx : SignedTransaction) : transactionBatch :=
  mkBatch (incomingTransactions r) (transactionsToReject r) (transactionsForPreOrder r)
    (validTransactions r ++ [tx]).

Definition fetchUsing (p : pendingTxPool) (maxNum sizeLimit : Z) : transactionBatch :=
  mkBatch (getBatch p maxNum sizeLimit) [] [] [].

(** One transaction of the loop of [filterInvalidTransactions]. *)
Definition filter_one (validator : validationContext) (committed : committedTxPool)
    (proposedBlockTimestamp : Z) (r : transactionBatch) (tx : SignedTransaction) : transactionBatch :=
  let txHash := hash_of tx in
  match ValidateTransactionForOrdering validator tx proposedBlockTimestamp with
  | Err status => reject r txHash status
  | _ =>
      if committed_has committed txHash
      then reject r txHash TRANSACTION_STATUS_DUPLICATE_TRANSACTION_ALREADY_COMMITTED
      else queueForPreOrderValidation r tx
  end.

Definition filterInvalidTransactions (r : transactionBatch) (validator : validationContext)
    (committed : committedTxPool) (proposedBlockTimestamp : Z) : transactionBatch :=
  let r := foldl (filter_one validator committed proposedBlockTimestamp) r (incomingTransactions r) in
  mkBatch [] (transactionsToReject r) (transactionsForPreOrder r) (validTransactions r).

(** [preOrderCheck] returns no statuses along with an error. *)
Definition preOrderCheck (txs : list SignedTransaction) (height timestamp : Z)
    : list TransactionStatus * bool :=
  let '(results, err) := TransactionSetPreOrder txs height timestamp in
  if err : bool then ([], true) else (results, false).

Definition runPreOrderValidations (r : transactionBatch) (height timestamp : Z)
    : outcome pool_error (transactionBatch * bool) :=
  let '(results, err) := preOrderCheck (transactionsForPreOrder r) height timestamp in
  if bool_decide (length results <> length (transactionsForPreOrder r)) then Panic
  else
    let r := foldl (fun r '(tx, status) =>
      if bool_decide (status = TRANSACTION_STATUS_PRE_ORDER_VALID) then accept r tx
      else reject r (hash_of tx) status) r (zip (transactionsForPreOrder r) results) in
    Ok (mkBatch (incomingTransactions r) (transactionsToReject r) [] (validTransactions r), err).

Definition notifyRejections (r : transactionBatch) (p : pendingTxPool) : pendingTxPool :=
  foldl (fun p '(hash, status) => (pending_remove p hash status).1) p (transactionsToReject r).

Definition proposeBlockTimestampWithCurrentTime (prevBlockTimestamp now : Z) : Z :=
  CalcNewBlockTimestamp prevBlockTimestamp (wrap 64 now).

Record GetTransactionsForOrderingInput := mkOrderingInput {
  oi_CurrentBlockHeight : Z;
  oi_PrevBlockTimestamp : Z;
  oi_MaxNumberOfTransactions : Z;
  oi_MaxTransactionsSetSizeKb : Z
}.

(** The closure [runBatch]. *)
Definition runBatch s (input : GetTransactionsForOrderingInput) (proposedBlockTimestamp : Z)
    : outcome pool_error (transactionBatch * bool) :=
  let sizeLimit := wrap 32 (oi_MaxTransactionsSetSizeKb input * 1024) in
  let batch := fetchUsing (pendingPool s) (oi_MaxNumberOfTransactions input) sizeLimit in
  let batch := filterInvalidTransactions batch (createValidationContext (tp_config s)) (committedPool s)
                 proposedBlockTimestamp in
  runPreOrderValidations batch (oi_CurrentBlockHeight input) proposedBlockTimestamp.

(** The waiting loop: [later] are the service and clock at each wake-up before the
    timeout, while other goroutines change the pools. *)
Fixpoint batch_until (input : GetTransactionsForOrderingInput) s (now : Z) (later : list (Service R * Z))
    : outcome pool_error (Service R * transactionBatch * bool * Z) :=
  let proposedBlockTimestamp := proposeBlockTimestampWithCurrentTime (oi_PrevBlockTimestamp input) now in
  let! out := runBatch s input proposedBlockTimestamp in
  let '(batch, err) := out in
  match validTransactions batch, later with
  | [], (s', now') :: later' => batch_until input s' now' later'
  | _, _ => Ok (s, batch, err, proposedBlockTimestamp)
  end.

(** [wait] is what [WaitForBlock] returned. *)
Definition GetTransactionsForOrdering s (wait : option tracker_error)
    (input : GetTransactionsForOrderingInput) (now : Z) (later : list (Service R * Z))
    : outcome pool_error (Service R * (list SignedTransaction * Z) * bool) :=
  if bool_decide (oi_CurrentBlockHeight input = 1) then
    Ok (s, ([], proposeBlockTimestampWithCurrentTime (oi_PrevBlockTimestamp input) now), false)
  else match wait with
       | Some e => Err (ErrWait e)
       | None =>
           let! out := batch_until input s now later in
           let '(s, batch, err, proposedBlockTimestamp) := out in
           Ok (with_pending s (notifyRejections batch (pendingPool s)),
               (validTransactions batch, proposedBlockTimestamp), err)
       end.

(** The loop over the transactions of a proposed block. *)
Fixpoint validate_each s (txs : list SignedTransaction) (proposedBlockTimestamp : Z)
    : outcome pool_error unit :=
  match txs with
  | [] => Ok tt
  | tx :: txs' =>
      if committed_has (committedPool s) (hash_of tx) then Err ErrAlreadyCommitted
      else match ValidateTransactionForOrdering (createValidationContext (tp_config s)) tx proposedBlockTimestamp with
           | Err status => Err (ErrRejected status)
           | _ => validate_each s txs' proposedBlockTimestamp
           end
  end.

Definition ValidateTransactionsForOrdering s (wait : option tracker_error)
    (txs : list SignedTransaction) (currentBlockHeight currentBlockTimestamp : Z)
    : outcome pool_error unit :=
  match wait with
  | Some e => Err (ErrWait e)
  | None =>
      let! _ := validate_each s txs currentBlockTimestamp in
      let '(results, err) := TransactionSetPreOrder txs currentBlockHeight currentBlockTimestamp in
      match (if bool_decide (length results = length txs)
             then List.find (fun status => bool_decide (status <> TRANSACTION_STATUS_PRE_ORDER_VALID)) results
             else None) with
      | Some status => Err (ErrRejected status)
      | None => if err : bool then Err ErrPreOrder else Ok tt
      end
  end.

(** ** Committing (commit_transaction_receipts.go) *)

Record committer := mkCommitter {
  cm_adder : committedTxPool;
  cm_remover : pendingTxPool;
  myReceipts : list TransactionReceipt
}.

Definition amITheGatewayOf (nodeAddress : bytes) (removedTxGateway : option bytes) : bool :=
  bool_decide (removedTxGateway = Some nodeAddress).

Definition commit_receipts (nodeAddress : bytes) (blockHeight blockTime : Z) (c : committer)
    (receipts : list TransactionReceipt) : committer :=
  foldl (fun c receipt =>
    let adder := committed_add (cm_adder c) receipt blockHeight blockTime in
    let '(remover, gateway) := pending_remove (cm_remover c) (tr_Txhash receipt) TRANSACTION_STATUS_COMMITTED in
    mkCommitter adder remover
      (if amITheGatewayOf nodeAddress gateway then myReceipts c ++ [receipt] else myReceipts c))
    c receipts.

Record CommitTransactionReceiptsInput := mkCommitReceiptsInput {
  cr_LastCommittedBlockHeight : Z;
  cr_ResultsBlockHeader : ResultsBlockHeader;
  cr_TransactionReceipts : list TransactionReceipt
}.

(** The result: the next desired and the last committed height. *)
Definition CommitTransactionReceipts s (input : CommitTransactionReceiptsInput)
    : outcome pool_error (Service R * (Z * Z)) :=
  if bool_decide (cr_LastCommittedBlockHeight input <> u64_add (tp_blockHeight s) 1)
  then Ok (s, (u64_add (tp_blockHeight s) 1, tp_blockHeight s))
  else
    let newBh := rxh_BlockHeight (cr_ResultsBlockHeader input) in
    let ts := rxh_Timestamp (cr_ResultsBlockHeader input) in
    let c := commit_receipts (NodeAddress (tp_config s)) newBh ts
               (mkCommitter (committedPool s) (pendingPool s) []) (cr_TransactionReceipts input) in
    match IncrementTo (tp_blockTracker s) newBh, hr_IncrementTo (blockHeightReporter s) newBh with
    | Ok tracker, Ok reporter =>
        let handled := match myReceipts c with [] => [] | _ => [(newBh, ts, myReceipts c)] end in
        Ok (mkTpService (tp_config s) newBh ts (cm_remover c) (cm_adder c) tracker reporter (forwardQueue s)
              (resultsHandled s ++ handled), (u64_add newBh 1, newBh))
    | _, _ => Panic
    end.

(** ** Lookup and cleanup *)

Definition GetCommittedTransactionReceipt s (txHash : bytes) : TransactionStatus * option TransactionReceipt * Z * Z :=
  match pending_get (pendingPool s) txHash with
  | Some _ => (TRANSACTION_STATUS_PENDING, None, tp_blockHeight s, tp_timestamp s)
  | None =>
      match committed_get (committedPool s) txHash with
      | Some tx => (TRANSACTION_STATUS_COMMITTED, Some (ct_receipt tx), ct_blockHeight tx, ct_blockTimestamp tx)
      | None => (TRANSACTION_STATUS_NO_RECORD_FOUND, None, tp_blockHeight s, tp_timestamp s)
      end
  end.

(** What a removal tells the result handlers: nothing when it was a commit. *)
Definition onTransactionError (txHash : bytes) (removalReason : TransactionStatus)
    : option (bytes * TransactionStatus) :=
  if bool_decide (removalReason <> TRANSACTION_STATUS_COMMITTED) then Some (txHash, removalReason) else None.

(** The two cleaning processes, at one tick; [order] is the map order of the range. *)
Definition cleanup_threshold s : Z := u64_sub (tp_timestamp s) (TransactionExpirationWindow (tp_config s)).

Definition clean_pending s : Service R :=
  with_pending s (pending_clearTransactionsOlderThan (pendingPool s) (cleanup_threshold s)).

Definition clean_committed (order : list committedTransaction) s : Service R :=
  with_committed s (committed_clearTransactionsOlderThan order (committedPool s)
    (TransactionPoolFutureTimestampGraceTimeout (tp_config s)) (cleanup_threshold s)).
End Service.

(** ** Lemmas on batches *)

Section Batches.
Context `{Sha256, Membuffers, PreOrderVM, NodeSignatures} {R : Type} `{!HeightReporter R}.

Implicit Types s : Service R.

(** A transaction that may be ordered at a block time. *)
Definition orderable (validator : validationContext) (committed : committedTxPool) (timestamp : Z)
    (tx : SignedTransaction) : bool :=
  match ValidateTransactionForOrdering validator tx timestamp with
  | Err _ => false
  | _ => negb (committed_has committed (hash_of tx))
  end.

Lemma filterInvalidTransactions_spec validator committed ts incoming :
  let r := filterInvalidTransactions (mkBatch incoming [] [] []) validator committed ts in
  transactionsForPreOrder r = List.filter (orderable validator committed ts) incoming /\
  validTransactions r = [].
Proof.
  assert (forall r, let r' := foldl (filter_one validator committed ts) r incoming in
    transactionsForPreOrder r' = transactionsForPreOrder r ++ List.filter (orderable validator committed ts) incoming /\
    validTransactions r' = validTransactions r) as Hfold.
  { induction incoming as [|tx incoming IH]; intros r; simpl; [by rewrite app_nil_r|].
    destruct (IH (filter_one validator committed ts r tx)) as [-> ->].
    unfold filter_one, orderable.
    destruct (ValidateTransactionForOrdering validator tx ts); try destruct (committed_has _ _); simpl;
      by rewrite <- ?app_assoc. }
  apply (Hfold (mkBatch incoming [] [] [])).
Qed.

Lemma runPreOrderValidations_spec r height ts results :
  TransactionSetPreOrder (transactionsForPreOrder r) height ts = (results, false) ->
  length results = length (transactionsForPreOrder r) -> validTransactions r = [] ->
  exists r', runPreOrderValidations r height ts = Ok (r', false) /\
    validTransactions r' =
      map fst (List.filter (fun x => bool_decide (x.2 = TRANSACTION_STATUS_PRE_ORDER_VALID))
                 (zip (transactionsForPreOrder r) results)).
Proof.
  intros Hvm Hlen Hv. unfold runPreOrderValidations, preOrderCheck. rewrite Hvm.
  rewrite bool_decide_eq_false_2 by lia. eexists. split; [done|]. simpl.
  assert (forall l r, validTransactions (foldl (fun r '(tx, status) =>
      if bool_decide (status = TRANSACTION_STATUS_PRE_ORDER_VALID) then accept r tx
      else reject r (hash_of tx) status) r l) =
    validTransactions r ++ map fst (List.filter (fun x => bool_decide (x.2 = TRANSACTION_STATUS_PRE_ORDER_VALID)) l))
    as Hfold.
  { intros l. induction l as [|[tx st] l IH]; intros r0; simpl; [by rewrite app_nil_r|].
    rewrite IH. case_bool_decide; simpl; [by rewrite <- app_assoc|done]. }
  by rewrite Hfold, Hv.
Qed.
Lemma validate_each_spec s txs ts :
  validate_each s txs ts = Ok tt <->
  forallb (orderable (createValidationContext (tp_config s)) (committedPool s) ts) txs = true.
Proof.
  induction txs as [|tx txs IH]; [done|]. cbn [validate_each forallb].
  unfold orderable at 1. rewrite andb_true_iff, <- IH.
  destruct (committed_has _ _), (ValidateTransactionForOrdering _ tx ts); simpl;
    split; try done; try (by intros []); auto.
Qed.

(** Validation of one transaction never panics. *)
Lemma ValidateTransactionForOrdering_cases c tx ts :
  ValidateTransactionForOrdering c tx ts = Ok tt \/
  exists status, ValidateTransactionForOrdering c tx ts = Err status.
Proof.
  unfold ValidateTransactionForOrdering, validateProtocolVersion, validateSignatureType,
    validateTransactionVirtualChainId, validateTransactionNotExpired, validateTransactionNotInFuture.
  repeat (case_match; simpl; eauto).
Qed.

Lemma validate_each_total s txs ts :
  validate_each s txs ts = Ok tt \/ exists e, validate_each s txs ts = Err e.
Proof.
  induction txs as [|tx txs IH]; simpl; [by left|].
  destruct (committed_has _ _); [eauto|]. case_match; eauto.
Qed.

Lemma In_zip_map {A B} (f : A -> B) l x : In x (zip l (map f l)) -> x.2 = f x.1 /\ In x.1 l.
Proof.
  induction l as [|a l IH]; simpl; [done|]. intros [<-|Hin]; [auto|]. destruct (IH Hin). auto.
Qed.

(** The batch of a node whose virtual machine gives each transaction its status. *)
Lemma runBatch_spec s input ts f :
  (forall txs, TransactionSetPreOrder txs (oi_CurrentBlockHeight input) ts = (map f txs, false)) ->
  exists batch, runBatch s input ts = Ok (batch, false) /\
    forall tx, In tx (validTransactions batch) ->
      f tx = TRANSACTION_STATUS_PRE_ORDER_VALID /\
      orderable (createValidationContext (tp_config s)) (committedPool s) ts tx = true.
Proof.
  intros Hvm. unfold runBatch, fetchUsing.
  set (incoming := getBatch (pendingPool s) _ _).
  destruct (filterInvalidTransactions_spec (createValidationContext (tp_config s)) (committedPool s) ts incoming)
    as [Hpre Hval].
  destruct (runPreOrderValidations_spec
              (filterInvalidTransactions (mkBatch incoming [] [] []) (createValidationContext (tp_config s))
                 (committedPool s) ts) (oi_CurrentBlockHeight input) ts _ (Hvm _))
    as (r' & -> & Hv); [by rewrite length_map|done|].
  exists r'. split; [done|]. intros tx Hin. rewrite Hv, Hpre in Hin.
  apply in_map_iff in Hin as ([tx' st] & <- & Hin).
  apply List.filter_In in Hin as [Hz Hst%bool_decide_eq_true].
  apply In_zip_map in Hz as [Hf Hin]. simpl in *. apply List.filter_In in Hin as [_ Ho].
  split; congruence.
Qed.

Lemma find_all_valid (f : SignedTransaction -> TransactionStatus) txs :
  (forall tx, In tx txs -> f tx = TRANSACTION_STATUS_PRE_ORDER_VALID) ->
  List.find (fun status => bool_decide (status <> TRANSACTION_STATUS_PRE_ORDER_VALID)) (map f txs) = None.
Proof.
  induction txs as [|tx txs IH]; simpl; intros Hf; [done|].
  rewrite bool_decide_eq_false_2 by (rewrite Hf by auto; naive_solver). auto.
Qed.

Lemma ValidateTransactionsForOrdering_ok s txs height ts f :
  (forall txs, TransactionSetPreOrder txs height ts = (map f txs, false)) ->
  (forall tx, In tx txs -> f tx = TRANSACTION_STATUS_PRE_ORDER_VALID /\
     orderable (createValidationContext (tp_config s)) (committedPool s) ts tx = true) ->
  ValidateTransactionsForOrdering s None txs height ts = Ok tt.
Proof.
  intros Hvm Htxs. unfold ValidateTransactionsForOrdering.
  rewrite (proj2 (validate_each_spec s txs ts)).
  - simpl. rewrite Hvm, bool_decide_eq_true_2 by by rewrite length_map.
    rewrite find_all_valid; [done|]. intros tx Hin. by apply Htxs.
  - apply forallb_forall. intros tx Hin. by apply Htxs.
Qed.
End Batches.

(** ** Properties *)

Section Properties.
Context `{Sha256, Membuffers, PreOrderVM, NodeSignatures} {R : Type} `{!HeightReporter R}.

(** Every batch of transactions a leader collects for a block passes the validation
    of any node with the same configuration and the same committed transactions,
    at the block time the leader proposed, when the virtual machine gives each
    transaction a status of its own. *)
Theorem ordering_agreement (leader validator : Service R) input ts f :
  tp_config leader = tp_config validator ->
  (forall h, committed_has (committedPool leader) h = committed_has (committedPool validator) h) ->
  (forall txs, TransactionSetPreOrder txs (oi_CurrentBlockHeight input) ts = (map f txs, false)) ->
  exists batch, runBatch leader input ts = Ok (batch, false) /\
    ValidateTransactionsForOrdering validator None (validTransactions batch)
      (oi_CurrentBlockHeight input) ts = Ok tt.
Proof.
  intros Hcfg Hcom Hvm. destruct (runBatch_spec leader input ts f Hvm) as (batch & Hb & Hv).
  exists batch. split; [done|]. apply (ValidateTransactionsForOrdering_ok _ _ _ _ f Hvm).
  intros tx Hin. destruct (Hv tx Hin) as [Hf Ho]. split; [done|].
  unfold orderable in *. by rewrite <- Hcfg, <- Hcom.
Qed.

(** Nothing in the validation of a proposed block looks for a transaction that is
    in the block twice: a block that repeats an acceptable transaction is
    accepted. *)
Theorem duplicate_in_block_accepted (s : Service R) tx height ts f :
  (forall txs, TransactionSetPreOrder txs height ts = (map f txs, false)) ->
  ValidateTransactionsForOrdering s None [tx] height ts = Ok tt ->
  ValidateTransactionsForOrdering s None [tx; tx] height ts = Ok tt.
Proof.
  intros Hvm H1tx. apply (ValidateTransactionsForOrdering_ok _ _ _ _ f Hvm).
  assert (f tx = TRANSACTION_STATUS_PRE_ORDER_VALID /\
    orderable (createValidationContext (tp_config s)) (committedPool s) ts tx = true) as Htx.
  { unfold ValidateTransactionsForOrdering in H1tx.
    destruct (validate_each_total s [tx] ts) as [E|[e E]]; rewrite E in H1tx; [|done].
    apply validate_each_spec, andb_true_iff in E as [E _]. split; [|done].
    simpl in H1tx. rewrite Hvm in H1tx. simpl in H1tx.
    case_bool_decide; [done|]. by destruct (decide (f tx = TRANSACTION_STATUS_PRE_ORDER_VALID)). }
  intros tx' [<-|[<-|[]]]; done.
Qed.
End Properties.

(** ** Replay protection *)

Section Replay.
Context `{Sha256, Membuffers, PreOrderVM, NodeSignatures} {R : Type} `{!HeightReporter R}.

Implicit Types s : Service R.

Abbreviation window s := (TransactionExpirationWindow (tp_config s)).
Abbreviation grace s := (TransactionPoolFutureTimestampGraceTimeout (tp_config s)).

(** Runs of the pool with the transactions committed so far and their block times.
    Block times do not go back, lie after the expiration window and fit the
    arithmetic; the committed pool is cleaned at any time, in any map order, and
    everything else the service does leaves the committed pool alone. *)
Inductive pool_history : Service R -> list (bytes * Z) -> Prop :=
| ph_new config graceDistance reporter :
    0 <= TransactionExpirationWindow config ->
    0 <= TransactionPoolFutureTimestampGraceTimeout config ->
    pool_history (NewTransactionPool config graceDistance reporter) []
| ph_commit s hist input s' out :
    let ts := rxh_Timestamp (cr_ResultsBlockHeader input) in
    pool_history s hist ->
    cr_LastCommittedBlockHeight input = u64_add (tp_blockHeight s) 1 ->
    tp_timestamp s <= ts -> window s <= ts -> ts + grace s < 2 ^ 64 ->
    CommitTransactionReceipts s input = Ok (s', out) ->
    pool_history s' (map (fun r => (tr_Txhash r, ts)) (cr_TransactionReceipts input) ++ hist)
| ph_clean s hist order :
    pool_history s hist -> order ≡ₚ map snd (map_to_list (committedPool s)) ->
    pool_history (clean_committed order s) hist
| ph_other s hist s' :
    pool_history s hist -> tp_config s' = tp_config s -> committedPool s' = committedPool s ->
    tp_timestamp s' = tp_timestamp s -> pool_history s' hist.

(** A committed transaction is remembered, or too old for any later block. *)
Record replay_ok s (hist : list (bytes * Z)) : Prop := {
  ro_config : 0 <= window s /\ 0 <= grace s /\ 0 <= tp_timestamp s < 2 ^ 64;
  ro_keys h ct : committedPool s !! h = Some ct ->
    tr_Txhash (ct_receipt ct) = h /\ 0 <= ct_blockTimestamp ct <= tp_timestamp s /\
    ct_blockTimestamp ct + grace s < 2 ^ 64 /\ window s <= tp_timestamp s;
  ro_hist h bts : (h, bts) ∈ hist ->
    (exists ct, committedPool s !! h = Some ct /\ bts <= ct_blockTimestamp ct) \/
    bts + grace s < tp_timestamp s - window s
}.

Lemma commit_receipts_adder nodeAddress bh ts receipts c h :
  cm_adder (commit_receipts nodeAddress bh ts c receipts) !! h =
  match List.find (fun r => bool_decide (tr_Txhash r = h)) (rev receipts) with
  | Some r => Some (mkCommitted r bh ts)
  | None => cm_adder c !! h
  end.
Proof.
  unfold commit_receipts. induction receipts as [|r receipts IH] using rev_ind; [done|].
  rewrite foldl_app, rev_app_distr. simpl. destruct (pending_remove _ _ _) as [rem gw]. simpl.
  unfold committed_add. case_bool_decide as E.
  - subst h. by rewrite lookup_insert_eq.
  - by rewrite lookup_insert_ne by done.
Qed.

Lemma CommitTransactionReceipts_committed s input s' out :
  cr_LastCommittedBlockHeight input = u64_add (tp_blockHeight s) 1 ->
  CommitTransactionReceipts s input = Ok (s', out) ->
  let header := cr_ResultsBlockHeader input in
  tp_config s' = tp_config s /\ tp_timestamp s' = rxh_Timestamp header /\
  tp_blockHeight s' = rxh_BlockHeight header /\
  forall h, committedPool s' !! h =
    match List.find (fun r => bool_decide (tr_Txhash r = h)) (rev (cr_TransactionReceipts input)) with
    | Some r => Some (mkCommitted r (rxh_BlockHeight header) (rxh_Timestamp header))
    | None => committedPool s !! h
    end.
Proof.
  intros Hh HC. unfold CommitTransactionReceipts in HC.
  rewrite bool_decide_eq_false_2 in HC by congruence.
  destruct (IncrementTo _ _) as [t| |]; try done.
  destruct (hr_IncrementTo (blockHeightReporter s) _) as [r| |]; try done. simplify_eq. simpl.
  split_and!; try done. intros h. apply commit_receipts_adder.
Qed.

Lemma find_receipt_Some h receipts r :
  List.find (fun r => bool_decide (tr_Txhash r = h)) (rev receipts) = Some r -> tr_Txhash r = h.
Proof. intros [_ E%bool_decide_eq_true]%find_some. done. Qed.

Lemma replay_ok_commit s hist input s' out :
  let ts := rxh_Timestamp (cr_ResultsBlockHeader input) in
  replay_ok s hist -> cr_LastCommittedBlockHeight input = u64_add (tp_blockHeight s) 1 ->
  tp_timestamp s <= ts -> window s <= ts -> ts + grace s < 2 ^ 64 ->
  CommitTransactionReceipts s input = Ok (s', out) ->
  replay_ok s' (map (fun r => (tr_Txhash r, ts)) (cr_TransactionReceipts input) ++ hist).
Proof.
  intros ts [Hcfg Hkeys Hhist] Hh Hle Hw Hfit HC.
  destruct (CommitTransactionReceipts_committed s input s' out Hh HC) as (Ec & Et & _ & Hlk).
  fold ts in Et, Hlk. split; rewrite ?Ec, ?Et; [lia|..].
  - intros h ct Hct. rewrite Hlk in Hct. destruct (List.find _ _) as [r|] eqn:E.
    + simplify_eq/=. split_and!; try lia. by eapply find_receipt_Some.
    + destruct (Hkeys h ct Hct) as (? & ? & ? & ?). split_and!; try done; lia.
  - intros h bts [Hin|Hin]%elem_of_app.
    + apply list_elem_of_fmap in Hin as (r & ? & Hr). simplify_eq. left. rewrite Hlk.
      destruct (List.find _ _) as [r'|] eqn:E; [eexists; split; [done|simpl; lia]|].
      exfalso. apply list_elem_of_In, in_rev in Hr. apply (List.find_none _ _ E) in Hr.
      by apply bool_decide_eq_false in Hr.
    + rewrite Hlk. destruct (List.find _ _) as [r'|] eqn:E.
      * destruct (Hhist h bts Hin) as [(ct & Hct & Hb)|?]; [|right; lia].
        left. eexists. split; [done|]. simpl. destruct (Hkeys h ct Hct). lia.
      * destruct (Hhist h bts Hin) as [?|?]; [by left|right; lia].
Qed.
(** Cleaning deletes exactly entries that are too old. *)
Lemma committed_clear_lookup order c g threshold h ct :
  committed_clearTransactionsOlderThan order c g threshold !! h = Some ct -> c !! h = Some ct.
Proof.
  unfold committed_clearTransactionsOlderThan. revert c.
  induction order as [|tx order IH]; intros c; simpl; [done|]. intros Hl%IH.
  destruct (_ <? _); [by apply lookup_delete_Some in Hl as [_ ?]|done].
Qed.

Lemma committed_clear_keeps order c g threshold h :
  is_Some (c !! h) ->
  committed_clearTransactionsOlderThan order c g threshold !! h = c !! h \/
  exists tx, tx ∈ order /\ tr_Txhash (ct_receipt tx) = h /\
    u64_add (ct_blockTimestamp tx) g < threshold.
Proof.
  unfold committed_clearTransactionsOlderThan. revert c.
  induction order as [|tx order IH]; intros c Hsome; simpl; [by left|].
  destruct (Z.ltb_spec (u64_add (ct_blockTimestamp tx) g) threshold) as [Hlt|Hge].
  - destruct (decide (tr_Txhash (ct_receipt tx) = h)) as [E|Hne].
    + right. exists tx. split; [by left|done].
    + destruct (IH (delete (tr_Txhash (ct_receipt tx)) c)) as [->|(tx' & Hin & ?)].
      * by rewrite lookup_delete_ne.
      * left. by rewrite lookup_delete_ne.
      * right. exists tx'. split; [by right|done].
  - destruct (IH c Hsome) as [?|(tx' & Hin & ?)]; [by left|].
    right. exists tx'. split; [by right|done].
Qed.

Lemma replay_ok_clean s hist order :
  replay_ok s hist -> order ≡ₚ map snd (map_to_list (committedPool s)) ->
  replay_ok (clean_committed order s) hist.
Proof.
  intros [Hcfg Hkeys Hhist] Hperm. split; [done|..]; simpl.
  - intros h ct Hct%committed_clear_lookup. by apply Hkeys.
  - intros h bts Hin. destruct (Hhist h bts Hin) as [(ct & Hct & Hb)|?]; [|by right].
    destruct (committed_clear_keeps order (committedPool s) (grace s) (cleanup_threshold s) h)
      as [E|(tx & Htx & Eh & Hlt)]; [by rewrite Hct| |].
    { left. exists ct. by rewrite E. }
    right. rewrite Hperm in Htx. apply list_elem_of_fmap in Htx as ([k tx'] & -> & Hk%elem_of_map_to_list).
    simpl in *. destruct (Hkeys k tx' Hk) as (Ek & Hb' & Hg & Hw).
    assert (tx' = ct) as -> by (rewrite <- Ek, Eh, Hct in Hk; by simplify_eq).
    unfold cleanup_threshold in Hlt. rewrite u64_add_small, u64_sub_small in Hlt by lia. lia.
Qed.

Lemma pool_history_ok s hist : pool_history s hist -> replay_ok s hist.
Proof.
  induction 1 as [config gd rep Hw Hg|s hist input s' out ts _ IH Hh Hle Hw Hfit HC
                 |s hist order _ IH Hp|s hist s' _ [Hcfg Hkeys Hhist] Ec Ep Et].
  - split; simpl; [lia|done|]. by intros h bts ?%elem_of_nil.
  - by eapply replay_ok_commit.
  - by apply replay_ok_clean.
  - split; rewrite ?Ec, ?Ep, ?Et; done.
Qed.

(** A transaction of the history cannot be ordered again. *)
Lemma replay_not_orderable s hist tx bts proposed :
  pool_history s hist -> (hash_of tx, bts) ∈ hist ->
  0 <= tx_Timestamp (stx_Transaction tx) <= bts + grace s -> tp_timestamp s <= proposed < 2 ^ 64 ->
  orderable (createValidationContext (tp_config s)) (committedPool s) proposed tx = false.
Proof.
  intros Hh Hin Hts Hp. apply pool_history_ok in Hh as [Hcfg Hkeys Hhist].
  unfold orderable. destruct (Hhist _ _ Hin) as [(ct & Hct & _)|Hold].
  - unfold committed_has. rewrite Hct. case_match; try done; by rewrite bool_decide_eq_true_2.
  - destruct (ValidateTransactionForOrdering_cases (createValidationContext (tp_config s)) tx proposed)
      as [E|[st ->]]; [|done].
    exfalso. unfold ValidateTransactionForOrdering in E.
    do 3 inv_bind E. apply bindO_Ok in E as (? & E & _).
    unfold validateTransactionNotExpired in E. simpl in E. rewrite u64_sub_small in E by lia.
    by replace (tx_Timestamp (stx_Transaction tx) <? proposed - window s) with true in E by lia.
Qed.

(** C8. No replay: a transaction that was committed in a block (with a timestamp the
    block's validation allowed) is never accepted again, neither by the leader's
    selection nor by the validation of a proposed block, at any block time from
    the last committed one on, however often the committed pool was cleaned. *)
Theorem committed_transaction_never_reordered s hist tx bts proposed height input f :
  pool_history s hist -> (hash_of tx, bts) ∈ hist ->
  0 <= tx_Timestamp (stx_Transaction tx) <= bts + grace s -> tp_timestamp s <= proposed < 2 ^ 64 ->
  (forall txs, TransactionSetPreOrder txs (oi_CurrentBlockHeight input) proposed = (map f txs, false)) ->
  (forall txs, In tx txs -> exists e, ValidateTransactionsForOrdering s None txs height proposed = Err e) /\
  (forall batch err, runBatch s input proposed = Ok (batch, err) -> ~ In tx (validTransactions batch)).
Proof.
  intros Hh Hin Hts Hp Hvm. pose proof (replay_not_orderable s hist tx bts proposed Hh Hin Hts Hp) as Hno.
  split.
  - intros txs Htx. unfold ValidateTransactionsForOrdering.
    destruct (validate_each_total s txs proposed) as [E|[e ->]]; [|simpl; eauto].
    apply validate_each_spec in E. rewrite forallb_forall in E. specialize (E tx Htx). congruence.
  - intros batch err Hb Htx. destruct (runBatch_spec s input proposed f Hvm) as (batch' & Hb' & Hv).
    rewrite Hb' in Hb. simplify_eq. destruct (Hv tx Htx). congruence.
Qed.
End Replay.

(** ** Committing, adding and failing *)

Section Operations.
Context `{Sha256, Membuffers, PreOrderVM, NodeSignatures} {R : Type} `{!HeightReporter R}.

Implicit Types s : Service R.

(** The receipts of transactions this node is the gateway of. *)
Definition own_receipts (nodeAddress : bytes) (p : pendingTxPool) (receipts : list TransactionReceipt)
    : list TransactionReceipt :=
  List.filter (fun r => bool_decide
    (pt_gatewayNodeAddress <$> (pp_transactionsByHash p !! tr_Txhash r) = Some nodeAddress)) receipts.

Lemma NoDup_fmap_inj_elem {A B} (f : A -> B) (l : list A) x y :
  NoDup (map f l) -> x ∈ l -> y ∈ l -> f x = f y -> x = y.
Proof.
  induction l as [|a l IH]; intros Hnd; [by intros ?%elem_of_nil|]. simpl in Hnd.
  apply NoDup_cons in Hnd as [Hnin Hnd].
  intros [->|Hx]%elem_of_cons [->|Hy]%elem_of_cons E; try done; [..|by apply IH].
  - exfalso. apply Hnin. rewrite E. apply list_elem_of_fmap. eauto.
  - exfalso. apply Hnin. rewrite <- E. apply list_elem_of_fmap. eauto.
Qed.

Lemma pending_remove_lookup p h reason k :
  pp_transactionsByHash (pending_remove p h reason).1 !! k =
  if decide (k = h) then None else pp_transactionsByHash p !! k.
Proof.
  unfold pending_remove. destruct (pp_transactionsByHash p !! h) as [pt|] eqn:E; simpl.
  - case_decide; subst; [apply lookup_delete_eq|by apply lookup_delete_ne].
  - by case_decide; subst.
Qed.

Lemma pending_remove_gateway p h reason :
  (pending_remove p h reason).2 = pt_gatewayNodeAddress <$> (pp_transactionsByHash p !! h).
Proof. unfold pending_remove. by destruct (pp_transactionsByHash p !! h). Qed.

Lemma commit_receipts_pending nodeAddress bh ts receipts c k :
  pp_transactionsByHash (cm_remover (commit_receipts nodeAddress bh ts c receipts)) !! k =
  if decide (k ∈ map tr_Txhash receipts) then None else pp_transactionsByHash (cm_remover c) !! k.
Proof.
  revert c. induction receipts as [|r receipts IH]; intros c; [done|].
  unfold commit_receipts in *. simpl foldl. rewrite IH.
  rewrite (surjective_pairing (pending_remove _ _ _)). simpl. rewrite pending_remove_lookup.
  destruct (decide (k ∈ map tr_Txhash receipts)) as [Hin|Hnin].
  { by rewrite decide_True by by right. }
  destruct (decide (k = tr_Txhash r)) as [->|Hne]; [by rewrite decide_True by by left|].
  by rewrite decide_False by (intros [?|?]%elem_of_cons; done).
Qed.

Lemma commit_receipts_own nodeAddress bh ts receipts c :
  NoDup (map tr_Txhash receipts) ->
  myReceipts (commit_receipts nodeAddress bh ts c receipts) =
  myReceipts c ++ own_receipts nodeAddress (cm_remover c) receipts.
Proof.
  revert c. induction receipts as [|r receipts IH]; intros c Hnd; [by rewrite app_nil_r|].
  simpl in Hnd. apply NoDup_cons in Hnd as [Hnin Hnd].
  unfold commit_receipts in *. simpl foldl. rewrite IH by done.
  rewrite (surjective_pairing (pending_remove _ _ _)). simpl. unfold own_receipts at 2. simpl.
  unfold amITheGatewayOf. rewrite pending_remove_gateway.
  assert (own_receipts nodeAddress (pending_remove (cm_remover c) (tr_Txhash r) TRANSACTION_STATUS_COMMITTED).1 receipts
          = own_receipts nodeAddress (cm_remover c) receipts) as ->.
  { unfold own_receipts. apply List.filter_ext_in. intros r' Hr'. rewrite pending_remove_lookup.
    rewrite decide_False; [done|]. intros E. apply Hnin. rewrite <- E.
    apply list_elem_of_In. by apply in_map. }
  by case_bool_decide; [rewrite <- app_assoc|].
Qed.

(** A commit of the next block records every receipt as committed at the block's
    height and time, takes the transactions out of the pending pool, tells the
    handlers exactly the receipts of this node's own transactions, and moves the
    tracker; a commit of another height changes nothing and reports the gap. *)
Theorem CommitTransactionReceipts_spec s input reporter' :
  let header := cr_ResultsBlockHeader input in
  let receipts := cr_TransactionReceipts input in
  let next := u64_add (tp_blockHeight s) 1 in
  currentHeight (tp_blockTracker s) = tp_blockHeight s ->
  rxh_BlockHeight header = cr_LastCommittedBlockHeight input ->
  hr_IncrementTo (blockHeightReporter s) (rxh_BlockHeight header) = Ok reporter' ->
  NoDup (map tr_Txhash receipts) ->
  if decide (cr_LastCommittedBlockHeight input = next) then
    exists s', CommitTransactionReceipts s input = Ok (s', (u64_add next 1, next)) /\
      (tp_blockHeight s', tp_timestamp s') = (next, rxh_Timestamp header) /\
      currentHeight (tp_blockTracker s') = next /\
      (forall r, r ∈ receipts -> GetCommittedTransactionReceipt s' (tr_Txhash r) =
         (TRANSACTION_STATUS_COMMITTED, Some r, next, rxh_Timestamp header)) /\
      (forall h, h ∉ map tr_Txhash receipts ->
         pending_get (pendingPool s') h = pending_get (pendingPool s) h) /\
      resultsHandled s' = resultsHandled s ++
        match own_receipts (NodeAddress (tp_config s)) (pendingPool s) receipts with
        | [] => [] | own => [(next, rxh_Timestamp header, own)]
        end
  else CommitTransactionReceipts s input = Ok (s, (next, tp_blockHeight s)).
Proof.
  intros header receipts next Htr Hhd Hrep Hnd. unfold CommitTransactionReceipts. fold next.
  case_decide as Hh; [|by rewrite bool_decide_eq_true_2].
  rewrite bool_decide_eq_false_2 by congruence. fold header receipts.
  assert (rxh_BlockHeight header = next) as Hnext by congruence. rewrite Hnext in Hrep |- *.
  rewrite Hrep, IncrementTo_next by by rewrite Htr.
  eexists. split; [done|]. cbn [tp_blockHeight tp_timestamp tp_blockTracker pendingPool committedPool
    resultsHandled currentHeight]. split_and!; try done.
  - intros r Hr. unfold GetCommittedTransactionReceipt, pending_get. simpl.
    rewrite commit_receipts_pending, decide_True by by apply list_elem_of_fmap_2. simpl.
    unfold committed_get. rewrite commit_receipts_adder.
    destruct (List.find _ _) as [r'|] eqn:E; simpl.
    + assert (r' = r) as ->; [|done]. apply find_some in E as [Hr' E%bool_decide_eq_true].
      apply in_rev, list_elem_of_In in Hr'.
      apply (NoDup_fmap_inj_elem tr_Txhash receipts); auto.
    + exfalso. apply list_elem_of_In, in_rev in Hr. apply (List.find_none _ _ E) in Hr.
      by apply bool_decide_eq_false in Hr.
  - intros h Hnin. unfold pending_get. by rewrite commit_receipts_pending, decide_False.
  - rewrite commit_receipts_own by done. simpl. by destruct (own_receipts _ _ _).
Qed.

(** [AddNewTransaction] either adds the transaction to the pending pool and to the
    forwarding queue, when it is not committed, valid and accepted by the pending
    pool, and answers PENDING; or it leaves the service as it was and answers with
    an error or with the receipt of the committed transaction. *)
Theorem AddNewTransaction_spec s tx now :
  let '(s', out, err) := AddNewTransaction s tx now in
  (exists p', pending_add (pendingPool s) (PendingPoolSizeInBytes (tp_config s)) tx (NodeAddress (tp_config s))
                = Ok (p', hash_of tx) /\
     s' = submit (with_pending s p') [tx] /\ err = None /\ ao_status out = TRANSACTION_STATUS_PENDING /\
     committed_has (committedPool s) (hash_of tx) = false /\
     ValidateAddedTransaction (createValidationContext (tp_config s)) tx now (tp_timestamp s) = Ok tt) \/
  (s' = s /\ ((exists e, err = Some e) \/
     exists ct, committedPool s !! hash_of tx = Some ct /\ ao_receipt out = Some (ct_receipt ct) /\
       ao_status out = TRANSACTION_STATUS_DUPLICATE_TRANSACTION_ALREADY_COMMITTED)).
Proof.
  unfold AddNewTransaction.
  assert (ValidateAddedTransaction (createValidationContext (tp_config s)) tx now (tp_timestamp s) <> Panic) as Hnp.
  { unfold ValidateAddedTransaction, validateProtocolVersion, validateSignatureType, validateNodeIsInSync,
      validateTransactionVirtualChainId, validateTransactionNotExpired, validateTransactionNotInFuture.
    by repeat (case_match; simpl). }
  destruct (ValidateAddedTransaction _ tx now _) as [[]|status|]; [|right; eauto|done].
  assert (validateSingleTransactionForPreOrder s tx now <> Panic) as Hnp2.
  { unfold validateSingleTransactionForPreOrder. by repeat case_match. }
  destruct (validateSingleTransactionForPreOrder s tx now) as [[]|e|]; [|right; eauto|done].
  unfold addToPendingPoolAfterCheckingCommitted, committed_get.
  destruct (committedPool s !! hash_of tx) as [ct|] eqn:Hct; [right; split; [done|]; right; by exists ct|].
  destruct (pending_add _ _ tx _) as [[p' key]|status|] eqn:Ha; [|right; eauto|].
  - left. assert (key = hash_of tx) as ->.
    { unfold pending_add in Ha. repeat case_match; by simplify_eq. }
    exists p'. unfold committed_has. rewrite Hct. split_and!; done.
  - exfalso. unfold pending_add in Ha. by repeat case_match.
Qed.

(** When the virtual machine reports an error for a batch that has transactions to
    check, collecting transactions panics: the statuses are dropped with the
    error and their number no longer matches. *)
Theorem preorder_error_panics s input now later tx :
  oi_CurrentBlockHeight input <> 1 ->
  (forall txs height ts, (TransactionSetPreOrder txs height ts).2 = true) ->
  let ts := proposeBlockTimestampWithCurrentTime (oi_PrevBlockTimestamp input) now in
  In tx (getBatch (pendingPool s) (oi_MaxNumberOfTransactions input)
           (wrap 32 (oi_MaxTransactionsSetSizeKb input * 1024))) ->
  orderable (createValidationContext (tp_config s)) (committedPool s) ts tx = true ->
  GetTransactionsForOrdering s None input now later = Panic.
Proof.
  intros Hne Hvm ts Hin Hord. unfold GetTransactionsForOrdering.
  rewrite bool_decide_eq_false_2 by done.
  assert (runBatch s input ts = Panic) as Hpanic.
  { unfold runBatch, fetchUsing. set (incoming := getBatch _ _ _) in *.
    destruct (filterInvalidTransactions_spec (createValidationContext (tp_config s)) (committedPool s) ts incoming)
      as [Hpre _].
    unfold runPreOrderValidations, preOrderCheck. rewrite Hpre.
    pose proof (Hvm (List.filter (orderable (createValidationContext (tp_config s)) (committedPool s) ts) incoming)
                  (oi_CurrentBlockHeight input) ts) as Herr.
    destruct (TransactionSetPreOrder _ _ _) as [results err]. simpl in Herr. subst err.
    rewrite bool_decide_eq_true_2; [done|].
    assert (In tx (List.filter (orderable (createValidationContext (tp_config s)) (committedPool s) ts) incoming)) as Hf.
    { by apply List.filter_In. }
    by destruct (List.filter _ incoming). }
  destruct later as [|[s' now'] later]; cbn [batch_until]; fold ts; by rewrite Hpanic.
Qed.
End Operations.

(** ** Witnesses *)

Section Witness.
#[local] Existing Instance plain_membuffers.
#[local] Instance plain_hash' : Sha256 := fun data => data.
#[local] Instance any_signature : NodeSignatures := fun _ _ _ => true.
#[local] Instance all_valid_vm : PreOrderVM :=
  fun txs _ _ => (map (fun _ => TRANSACTION_STATUS_PRE_ORDER_VALID) txs, false).

Definition config1 : TransactionPoolConfig := mkPoolConfig [9] 100 5 1000 2 42.
Definition service0 : Service NopHeightReporter := NewTransactionPool config1 3 mkNopHeightReporter.
Definition service1 : Service NopHeightReporter :=
  with_pending service0 (mkPendingPool 7 {[ hash_of (tx_at 9) := mkPending [9] (tx_at 9) 0 ]}
    [(0%nat, tx_at 9)] 1 [] true).
Definition ordering2 : GetTransactionsForOrderingInput := mkOrderingInput 2 10 100 0.

(** Block 1 commits the transaction of time 9 at block time 10. *)
Definition receipt9 : TransactionReceipt := mkReceipt (hash_of (tx_at 9)) 1 [] [].
Definition commit1 : CommitTransactionReceiptsInput :=
  mkCommitReceiptsInput 1 (mkRxHeader 1 42 1 [] 10 [] [] [] [] 1 0 []) [receipt9].

Lemma ordering_agreement_witness :
  exists batch, runBatch service1 ordering2 11 = Ok (batch, false) /\
    ValidateTransactionsForOrdering service0 None (validTransactions batch) 2 11 = Ok tt.
Proof.
  apply (ordering_agreement service1 service0 ordering2 11 (fun _ => TRANSACTION_STATUS_PRE_ORDER_VALID)).
  - reflexivity.
  - intros h. reflexivity.
  - intros txs. reflexivity.
Defined.

Lemma duplicate_in_block_accepted_witness :
  ValidateTransactionsForOrdering service0 None [tx_at 9; tx_at 9] 2 11 = Ok tt.
Proof.
  apply (duplicate_in_block_accepted service0 (tx_at 9) 2 11 (fun _ => TRANSACTION_STATUS_PRE_ORDER_VALID)).
  - intros txs. reflexivity.
  - reflexivity.
Defined.

Lemma committed_transaction_never_reordered_witness :
  exists s, CommitTransactionReceipts service1 commit1 = Ok (s, (2, 1)) /\
    exists e, ValidateTransactionsForOrdering s None [tx_at 9] 2 20 = Err e.
Proof.
  eexists. split; [reflexivity|].
  eapply (committed_transaction_never_reordered _ _ (tx_at 9) 10 20 2 ordering2
            (fun _ => TRANSACTION_STATUS_PRE_ORDER_VALID)).
  - eapply (ph_commit service1 [] commit1); [|reflexivity|vm_compute; congruence..|reflexivity].
    apply (ph_other service0 []); [apply ph_new; vm_compute; congruence|reflexivity..].
  - left.
  - vm_compute. split; congruence.
  - vm_compute. split; congruence.
  - intros txs. reflexivity.
  - by left.
Defined.

Lemma CommitTransactionReceipts_spec_witness :
  exists s', CommitTransactionReceipts service1 commit1 = Ok (s', (2, 1)) /\
    GetCommittedTransactionReceipt s' (hash_of (tx_at 9)) =
      (TRANSACTION_STATUS_COMMITTED, Some receipt9, 1, 10).
Proof.
  pose proof (CommitTransactionReceipts_spec service1 commit1 mkNopHeightReporter) as Hc.
  destruct Hc as (s' & HC & _ & _ & Hr & _); [reflexivity|reflexivity|reflexivity|apply NoDup_singleton|].
  exists s'. split; [exact HC|]. apply (Hr receipt9). left.
Defined.

Lemma preorder_error_panics_witness :
  GetTransactionsForOrdering (H1 := fun _ _ _ => ([], true)) service1 None ordering2 11 [] = Panic.
Proof.
  apply (preorder_error_panics (H1 := fun _ _ _ => ([], true)) service1 ordering2 11 [] (tx_at 9)).
  - simpl. lia.
  - reflexivity.
  - by left.
  - reflexivity.
Defined.
End Witness.
