(* ===== verification/TransactionForwarder.v ===== *)
(** * The transaction forwarder (services/transactionpool/forward_transactions.go)

    AddNewTransaction hands a new transaction to the forwarder, whose goroutine collects
    transactions and broadcasts them in signed batches.  Clients, limited in number by
    request_concurrency_limiter.go, put the transaction into a queue and the length of the
    queue into a channel with a buffer of one; the goroutine receives from it, or waits for
    a timer.  Goroutines interleave: their steps are those of [step].  That a signature or a
    broadcast fails is a step of its own. *)
From stdpp Require Import base list relations.
From Stdlib Require Import ZArith Lia ZifyBool.
From S2P Require Import Prelude Protocol.

Module TransactionForwarder.

(** Where the goroutine is: in the select, about to drain the queue, with a batch it has
    taken, or in a send on the channel with the batch put back into the queue. *)
Inductive goroutine :=
| Selecting
| Draining
| Forwarding (txs : list SignedTransaction)
| Resubmitting (txCount : Z).

Record state := mkState {
  forwardQueue : list SignedTransaction;
  transactionAdded : option Z;
  forwarder : goroutine;
  (** clients that hold a slot and are in a send on the channel *)
  submitting : list Z;
  (** what was submitted by clients, broadcast, and lost in failed broadcasts *)
  submitted : list SignedTransaction;
  forwarded : list (list SignedTransaction);
  failed : list SignedTransaction
}.

Section Forwarder.
Variable TransactionPoolPropagationBatchSize : Z.
Variable maxConcurrentRequests : nat.

Definition NewTransactionForwarder : state := mkState [] None Selecting [] [] [] [].

(** The queue with the transactions, and its length as a uint16. *)
Definition appendToQueue (queue transactions : list SignedTransaction) : list SignedTransaction * Z :=
  (queue ++ transactions, wrap 16 (Z.of_nat (length (queue ++ transactions)))).

Definition drainQueue (queue : list SignedTransaction) : list SignedTransaction * list SignedTransaction := ([], queue).

(** The send on the channel of slots does not block: the clients that hold one are those in
    [submitting]. *)
Definition RequestSlot (s : state) : bool := (length (submitting s) <? maxConcurrentRequests)%nat.

(** A client: RequestSlot and the first half of submit. *)
Definition begin_submit (tx : SignedTransaction) (s : state) : option state :=
  if RequestSlot s then
    let '(queue, txCount) := appendToQueue (forwardQueue s) [tx] in
    Some (mkState queue (transactionAdded s) (forwarder s) (submitting s ++ [txCount]) (submitted s ++ [tx]) (forwarded s) (failed s))
  else None.

(** Its second half, the send, and ReleaseSlot. *)
Definition end_submit (i : nat) (s : state) : option state :=
  match transactionAdded s, submitting s !! i with
  | None, Some txCount =>
      Some (mkState (forwardQueue s) (Some txCount) (forwarder s) (delete i (submitting s)) (submitted s) (forwarded s) (failed s))
  | _, _ => None
  end.

(** The cases of the select. *)
Definition receive (s : state) : option state :=
  match forwarder s, transactionAdded s with
  | Selecting, Some txCount =>
      Some (mkState (forwardQueue s) None (if TransactionPoolPropagationBatchSize <=? txCount then Draining else Selecting)
              (submitting s) (submitted s) (forwarded s) (failed s))
  | _, _ => None
  end.
Definition timer (s : state) : option state :=
  match forwarder s with
  | Selecting => Some (mkState (forwardQueue s) (transactionAdded s) Draining (submitting s) (submitted s) (forwarded s) (failed s))
  | _ => None
  end.

(** drainQueueAndForward: an empty queue ends it. *)
Definition drain (s : state) : option state :=
  match forwarder s with
  | Draining =>
      let '(queue, txs) := drainQueue (forwardQueue s) in
      Some (mkState queue (transactionAdded s) (match txs with [] => Selecting | _ => Forwarding txs end)
              (submitting s) (submitted s) (forwarded s) (failed s))
  | _ => None
  end.

(** The signature fails: the batch is submitted again. *)
Definition sign_fails (s : state) : option state :=
  match forwarder s with
  | Forwarding txs =>
      let '(queue, txCount) := appendToQueue (forwardQueue s) txs in
      Some (mkState queue (transactionAdded s) (Resubmitting txCount) (submitting s) (submitted s) (forwarded s) (failed s))
  | _ => None
  end.
Definition resubmit (s : state) : option state :=
  match forwarder s, transactionAdded s with
  | Resubmitting txCount, None =>
      Some (mkState (forwardQueue s) (Some txCount) Selecting (submitting s) (submitted s) (forwarded s) (failed s))
  | _, _ => None
  end.

(** The broadcast of a signed batch; its error is logged. *)
Definition broadcast (ok : bool) (s : state) : option state :=
  match forwarder s with
  | Forwarding txs =>
      Some (mkState (forwardQueue s) (transactionAdded s) Selecting (submitting s) (submitted s)
              (if ok then forwarded s ++ [txs] else forwarded s) (if ok then failed s else failed s ++ txs))
  | _ => None
  end.

Inductive step : state -> state -> Prop :=
| step_begin_submit tx s s' : begin_submit tx s = Some s' -> step s s'
| step_end_submit i s s' : end_submit i s = Some s' -> step s s'
| step_receive s s' : receive s = Some s' -> step s s'
| step_timer s s' : timer s = Some s' -> step s s'
| step_drain s s' : drain s = Some s' -> step s s'
| step_sign_fails s s' : sign_fails s = Some s' -> step s s'
| step_resubmit s s' : resubmit s = Some s' -> step s s'
| step_broadcast ok s s' : broadcast ok s = Some s' -> step s s'.

Definition reachable (s : state) : Prop := rtc step NewTransactionForwarder s.

(** ** Conservation *)

(** What the goroutine holds. *)
Definition held (s : state) : list SignedTransaction := match forwarder s with Forwarding txs => txs | _ => [] end.

Definition conserved (s : state) : Prop :=
  submitted s ≡ₚ concat (forwarded s) ++ failed s ++ forwardQueue s ++ held s /\
  Forall (fun batch => batch <> []) (forwarded s) /\ (forall txs, forwarder s = Forwarding txs -> txs <> []).

Lemma step_conserved s s' : step s s' -> conserved s -> conserved s'.
Proof.
  intros Hstep (Hp & Hb & Hf).
  destruct Hstep as [tx s s' E|i s s' E|s s' E|s s' E|s s' E|s s' E|s s' E|ok s s' E];
    destruct s as [queue added fw sub subm fwd fl]; unfold held in Hp; unfold begin_submit, end_submit, receive, timer, drain, sign_fails, resubmit, broadcast in E;
    cbn [forwardQueue transactionAdded forwarder submitting submitted forwarded failed appendToQueue drainQueue] in *.
  all: unfold conserved, held.
  - destruct (RequestSlot _); [|done]. injection E as <-. cbn. split; [|done]. rewrite Hp. solve_Permutation.
  - destruct added; [done|]. destruct (sub !! i); [|done]. by injection E as <-.
  - destruct fw; try done. destruct added as [n|]; [|done]. injection E as <-. cbn. by destruct (_ <=? n).
  - destruct fw; try done. by injection E as <-.
  - destruct fw; try done. injection E as <-. destruct queue; [done|]. cbn. split_and!; [by rewrite app_nil_r in Hp|done|].
    by intros txs [= <-].
  - destruct fw as [| |txs|]; try done. injection E as <-. cbn. split_and!; [by rewrite app_nil_r|done|done].
  - destruct fw; try done. destruct added; [done|]. by injection E as <-.
  - destruct fw as [| |txs|]; try done. injection E as <-. destruct ok; cbn.
    + rewrite concat_app. cbn. split_and!; [rewrite Hp; solve_Permutation| |done]. apply Forall_app. split; [done|].
      constructor; [by apply Hf|done].
    + split_and!; [rewrite Hp; solve_Permutation|done|done].
Qed.

(** C9. No transaction is lost or sent twice on the way: in every interleaving of the clients
    and the goroutine, failures of signatures included, each transaction that was submitted
    is in exactly one of the batches that were broadcast, in one whose broadcast failed, in
    the queue, or with the goroutine; and no batch is empty. *)
Theorem forwarder_conserves s : reachable s -> conserved s.
Proof.
  intros Hs. unfold reachable in Hs. apply (rtc_ind_r conserved NewTransactionForwarder) with (z := s) (3 := Hs).
  - by split_and!.
  - intros s1 s2 _ Hstep Hc. by apply (step_conserved s1).
Qed.

(** From the select the timer alone has the whole queue broadcast. *)
Lemma timer_flushes s :
  forwarder s = Selecting -> forwardQueue s <> [] ->
  exists s', rtc step s s' /\ forwardQueue s' = [] /\ forwarded s' = forwarded s ++ [forwardQueue s] /\ forwarder s' = Selecting.
Proof.
  intros Hf Hq. destruct s as [queue added fw sub subm fwd fl]. cbn in *. subst fw. destruct queue as [|tx queue]; [done|].
  eexists. split.
  - eapply rtc_l; [by apply step_timer|]. eapply rtc_l; [by apply step_drain|]. eapply rtc_once. by apply (step_broadcast true).
  - done.
Qed.

(** ** A deadlock *)

(** The goroutine sends on the channel that only it receives from, and the buffer is full. *)
Definition stuck (s : state) : Prop := exists txCount n, forwarder s = Resubmitting txCount /\ transactionAdded s = Some n.

(** Only clients make steps then, until there are no slots left. *)
Lemma stuck_step s s' : step s s' -> stuck s -> exists tx, begin_submit tx s = Some s'.
Proof.
  intros Hstep (txCount & n & Hf & Ha).
  destruct Hstep as [tx s s' E|i s s' E|s s' E|s s' E|s s' E|s s' E|s s' E|ok s s' E]; [by exists tx|..];
    unfold end_submit, receive, timer, drain, sign_fails, resubmit, broadcast in E; rewrite ?Hf, ?Ha in E; discriminate E.
Qed.

Lemma stuck_begin tx s s' :
  begin_submit tx s = Some s' -> stuck s ->
  stuck s' /\ forwarded s' = forwarded s /\ exists txCount, submitting s' = submitting s ++ [txCount].
Proof.
  unfold begin_submit, stuck. destruct (RequestSlot s); [|done]. intros [= <-] Hs. cbn. by eauto.
Qed.

Lemma stuck_forever s s' : rtc step s s' -> stuck s -> stuck s' /\ forwarded s' = forwarded s /\ submitting s `prefix_of` submitting s'.
Proof.
  induction 1 as [s|s s1 s2 Hstep _ IH]; intros Hs; [done|].
  destruct (stuck_step _ _ Hstep Hs) as [tx E]. destruct (stuck_begin _ _ _ E Hs) as (Hs1 & Hf & n & Hsub).
  destruct (IH Hs1) as (Hs2 & Hf2 & Hp). split_and!; [done|congruence|]. rewrite Hsub in Hp. etrans; [|exact Hp]. by apply prefix_app_r.
Qed.

(** More clients come until all slots are taken. *)
Lemma stuck_fills (tx : SignedTransaction) k s :
  stuck s -> (length (submitting s) + k = maxConcurrentRequests)%nat ->
  exists s', rtc step s s' /\ length (submitting s') = maxConcurrentRequests.
Proof.
  revert s. induction k as [|k IH]; intros s Hs Hk; [exists s; split; [done|lia]|].
  destruct (begin_submit tx s) as [s1|] eqn:E; [|unfold begin_submit, RequestSlot in E; by rewrite (proj2 (Nat.ltb_lt _ _)) in E by lia].
  destruct (stuck_begin _ _ _ E Hs) as (Hs1 & _ & n & Hsub).
  destruct (IH s1 Hs1) as (s' & Hrun & Hlen); [rewrite Hsub, length_app; cbn; lia|].
  exists s'. split; [|done]. eapply rtc_l; [by eapply step_begin_submit|done].
Qed.

(** One client, whose transaction the timer takes while its count is in the channel, and
    one signature that fails. *)
Lemma stuck_reached tx :
  (0 < maxConcurrentRequests)%nat -> exists s, reachable s /\ stuck s /\ submitting s = [] /\ forwardQueue s = [tx] /\ forwarded s = [].
Proof.
  intros Hmax. eexists. split.
  - unfold reachable. eapply rtc_l; [apply (step_begin_submit tx); unfold begin_submit, RequestSlot; cbn [submitting NewTransactionForwarder length];
      by rewrite (proj2 (Nat.ltb_lt _ _)) by lia|].
    eapply rtc_l; [by apply (step_end_submit 0)|]. eapply rtc_l; [by apply step_timer|]. eapply rtc_l; [by apply step_drain|].
    eapply rtc_once. by apply step_sign_fails.
  - cbn. split_and!; [|done..]. by eexists _, _.
Qed.

(** C40. One signature that fails can stop the pool for good: the goroutine then puts its
    batch back and sends on the channel that only it receives from, and if the buffer of the
    channel is full - one transaction at the wrong time is enough - it never broadcasts
    again; every client that comes is blocked with its slot, and when all slots are taken no
    goroutine can make a step, with the transaction still in the queue. *)
Theorem forwarder_deadlock tx :
  (0 < maxConcurrentRequests)%nat ->
  exists s, reachable s /\ stuck s /\ forwardQueue s = [tx] /\
    (forall s', rtc step s s' -> stuck s' /\ forwarded s' = []) /\
    exists s', rtc step s s' /\ forall s'', step s' s'' -> False.
Proof.
  intros Hmax. destruct (stuck_reached tx Hmax) as (s & Hreach & Hs & Hsub & Hq & Hnone).
  exists s. split_and!; [done..| |].
  - intros s' Hrun. destruct (stuck_forever _ _ Hrun Hs) as (Hs' & Hf & _). by rewrite Hf.
  - destruct (stuck_fills tx maxConcurrentRequests s Hs) as (s' & Hrun & Hfull); [by rewrite Hsub|].
    exists s'. split; [done|]. intros s'' Hstep. destruct (stuck_forever _ _ Hrun Hs) as (Hs' & _ & _).
    destruct (stuck_step _ _ Hstep Hs') as [tx' E]. unfold begin_submit, RequestSlot in E. by rewrite Hfull, Nat.ltb_irrefl in E.
Qed.
End Forwarder.

(** ** Examples *)

Module Example.
Definition tx : SignedTransaction := mkSignedTransaction (mkTransaction 1 42 9 (mkSigner [5] (Some [5])) [65] [66] []) [6].
(** Two clients, a batch of both. *)
Definition after_broadcast : state := mkState [] None Selecting [] [tx; tx] [[tx; tx]] [].

Lemma after_broadcast_reached : reachable 2 10 after_broadcast.
Proof.
  unfold reachable. eapply rtc_l; [by apply (step_begin_submit _ _ tx)|]. eapply rtc_l; [by apply (step_end_submit _ _ 0)|].
  eapply rtc_l; [by apply step_receive|]. eapply rtc_l; [by apply (step_begin_submit _ _ tx)|].
  eapply rtc_l; [by apply (step_end_submit _ _ 0)|]. eapply rtc_l; [by apply step_receive|].
  eapply rtc_l; [by apply step_drain|]. eapply rtc_once. by apply (step_broadcast _ _ true).
Qed.

Lemma forwarder_conserves_witness : conserved after_broadcast.
Proof. apply (forwarder_conserves 2 10). apply after_broadcast_reached. Defined.

Lemma forwarder_deadlock_witness :
  exists s, reachable 100 3 s /\ forwardQueue s = [tx] /\ exists s', rtc (step 100 3) s s' /\ forall s'', step 100 3 s' s'' -> False.
Proof.
  destruct (forwarder_deadlock 100 3 tx) as (s & Hreach & _ & Hq & _ & Hdead); [lia|].
  exists s. split; [exact Hreach|]. split; [exact Hq|exact Hdead].
Defined.
End Example.
End TransactionForwarder.
