(* ===== verification/TransactionWaiter.v ===== *)
(** * Waiting for transactions (services/transactionpool/transaction_waiter.go)

    A leader that finds no transactions for its block waits until one comes in or the
    time of an empty block is over.  The channel of the waiter holds one notification,
    [pp_incremented] of the pending pool; the leader, those who add and those who
    remove transactions are the steps of a relation. *)

From stdpp Require Import base gmap list relations.
From Stdlib Require Import ZArith Lia.
From S2P Require Import Prelude Protocol Hash Digest TransactionPool.

Module TransactionWaiter.

(** ** The waiter *)

Definition set_incremented (p : pendingTxPool) (b : bool) : pendingTxPool :=
  mkPendingPool (pp_currentSizeInBytes p) (pp_transactionsByHash p) (pp_transactionList p) (pp_nextElement p)
    (pp_removed p) b.

(** The case of the select with a notification; without one it waits for the context. *)
Definition waitForIncomingTransaction (p : pendingTxPool) : option pendingTxPool :=
  if pp_incremented p then Some (set_incremented p false) else None.

(** The leader, in [GetTransactionsForOrdering]: outside of it, at the start of a batch,
    behind a batch for which the transactions [seen] were there, and in the waiter. *)
Inductive leader :=
| Outside
| Batching
| Checked (seen : list (nat * SignedTransaction))
| Waiting (seen : list (nat * SignedTransaction)).

Record pool_state := mkState { pool : pendingTxPool; leading : leader }.

Section Steps.
Context `{Sha256, Membuffers}.

Inductive step : pool_state -> pool_state -> Prop :=
| step_add p l limit tx gateway p' key :
    pending_add p limit tx gateway = Ok (p', key) -> step (mkState p l) (mkState p' l)
| step_remove p l txHash reason : step (mkState p l) (mkState (pending_remove p txHash reason).1 l)
| step_clear p l timestamp : step (mkState p l) (mkState (pending_clearTransactionsOlderThan p timestamp) l)
| step_enter p : step (mkState p Outside) (mkState p Batching)
| step_batch p : step (mkState p Batching) (mkState p (Checked (pp_transactionList p)))
| step_wait p seen : step (mkState p (Checked seen)) (mkState p (Waiting seen))
| step_notified p p' seen :
    waitForIncomingTransaction p = Some p' -> step (mkState p (Waiting seen)) (mkState p' Batching)
| step_timeout p seen : step (mkState p (Waiting seen)) (mkState p (Checked seen))
| step_leave p seen : step (mkState p (Checked seen)) (mkState p Outside).

(** ** No transaction is overlooked *)

(** Without a notification, the leader has seen all the transactions there are. *)
Definition noticed (s : pool_state) : Prop :=
  match leading s with
  | Checked seen | Waiting seen => pp_incremented (pool s) = false -> pp_transactionList (pool s) ⊆ seen
  | _ => True
  end.

(** Transactions that are removed bring no notification, and no new ones. *)
Definition shrinks (p p' : pendingTxPool) : Prop :=
  pp_incremented p' = pp_incremented p /\ pp_transactionList p' ⊆ pp_transactionList p.

Lemma pending_remove_shrinks p txHash reason : shrinks p (pending_remove p txHash reason).1.
Proof.
  unfold pending_remove. destruct (pp_transactionsByHash p !! txHash); cbn; [|done]. split; [done|].
  intros x. unfold list_remove. cbn. rewrite !list_elem_of_In, filter_In. by intros [].
Qed.

Lemma clear_loop_shrinks fuel p e timestamp : shrinks p (clear_loop fuel p e timestamp).
Proof.
  revert p e. induction fuel as [|fuel IH]; intros p [[id tx]|]; cbn; try done.
  set (p1 := if _ <? _ then _ else _). assert (shrinks p p1) as [H1 H2].
  { subst p1. destruct (_ <? _); [apply pending_remove_shrinks|done]. }
  destruct (IH p1 (list_prev id (pp_transactionList p1))) as [H3 H4]. split; [congruence|set_solver].
Qed.

Lemma noticed_shrinks p p' l : shrinks p p' -> noticed (mkState p l) -> noticed (mkState p' l).
Proof. intros [H1 H2]. unfold noticed. destruct l; cbn; rewrite ?H1; set_solver. Qed.

Lemma step_noticed s s' : step s s' -> noticed s -> noticed s'.
Proof.
  destruct 1 as [p l limit tx gateway p' key Hadd|p l txHash reason|p l timestamp|p|p|p seen|p p' seen _|p seen|p seen]; try done.
  - intros _. assert (pp_incremented p' = true) as Ht.
    { unfold pending_add in Hadd. repeat case_match; try done. by simplify_eq. }
    unfold noticed. cbn. by destruct l; rewrite ?Ht.
  - apply noticed_shrinks, pending_remove_shrinks.
  - apply noticed_shrinks, clear_loop_shrinks.
  - by intros _ _.
Qed.

(** No transaction that comes in while a leader makes its block waits for the time of an
    empty block: whenever the leader is in the waiter, in every interleaving with those
    who add and remove transactions, either the waiter lets it go on, or it has looked at
    all the transactions that are pending. *)
Theorem no_transaction_overlooked s seen :
  rtc step (mkState NewPendingPool Outside) s -> leading s = Waiting seen ->
  (exists p', waitForIncomingTransaction (pool s) = Some p' /\ step s (mkState p' Batching)) \/
  pp_transactionList (pool s) ⊆ seen.
Proof.
  intros Hr Hw. assert (noticed s) as Hn.
  { assert (forall s0, rtc step s0 s -> noticed s0 -> noticed s) as Hgo.
    { clear. induction 1 as [|s0 s1 s2 Hs _ IH]; [done|]. intros H1. by apply IH, (step_noticed s0). }
    by apply (Hgo _ Hr). }
  destruct s as [p l]. cbn in Hw. subst l. unfold noticed in Hn. cbn in Hn |- *.
  destruct (pp_incremented p) eqn:Hi; [left|by right; apply Hn].
  exists (set_incremented p false). assert (waitForIncomingTransaction p = Some (set_incremented p false)) as Hp.
  { unfold waitForIncomingTransaction. by rewrite Hi. }
  split; [done|]. by apply step_notified.
Qed.
End Steps.
End TransactionWaiter.
