(* ===== verification/ConsensusContext.v ===== *)
(** * Consensus context (services/consensuscontext)

    How a leader builds a transactions block and a results block, and how a
    validator checks them.  The transaction pool, the virtual machine and the
    state storage are reached through records of the operations the context
    calls; the theorems about blocks made by one node and checked by another are
    proved against laws of these records. *)

From stdpp Require Import base list strings.
From Stdlib Require Import ZArith Lia ZifyBool.
From S2P Require Import Prelude Hash MerkleAlgo OrderedTree Protocol Digest.
From S2P Require Import BlockTracker TransactionPool TransactionPoolService.

Module ConsensusContext.

(** ** Interfaces and data *)

Inductive context_error :=
| ErrMismatchedProtocolVersion
| ErrMismatchedVirtualChainID
| ErrMismatchedBlockHeight
| ErrMismatchedPrevBlockHash
| ErrMismatchedBlockProposer
| ErrFailedTransactionOrdering
| ErrMismatchedTxRxBlockHeight
| ErrMismatchedTxRxTimestamps
| ErrMismatchedTxHashPtrToActualTxBlock
| ErrMismatchedTxRxBlockProposer
| ErrGetStateHash
| ErrMismatchedPreExecutionStateMerkleRoot
| ErrProcessTransactionSet
| ErrTriggerDisabledAndTriggerExists
| ErrTriggerEnabledAndTriggerMissing
| ErrTriggerEnabledAndTriggerNotLast
| ErrTriggerEnabledAndTriggerInvalid
| ErrTriggerEnabledAndTriggerInvalidTime
(** errors made in place, and errors of the services called *)
| ErrTimestampNotAfterPrevious
| ErrTimestampAfterUpperJitter
| ErrTimestampBeforeLowerJitter
| ErrZeroTimestamp
| ErrContextCanceled
| ErrSystemCall
| ErrCorruptOutput
| ErrBlock (e : block_error)
| ErrService.

(** An operation of another service: what it answers at the time of the call. *)
Record TransactionPool := mkTransactionPool {
  GetTransactionsForOrdering : GetTransactionsForOrderingInput -> outcome unit (list SignedTransaction * Z);
  ValidateTransactionsForOrdering : list SignedTransaction -> Z -> Z -> outcome unit unit
}.

(** What [CallSystemContract] returns: the result and the output arguments. *)
Inductive Argument := ArgBytesArray (values : list bytes) | ArgOther.
Inductive ExecutionResult := EXECUTION_RESULT_SUCCESS | EXECUTION_RESULT_OTHER.

Record VirtualMachine := mkVirtualMachine {
  ProcessTransactionSet :
    list SignedTransaction -> Z -> Z -> bytes -> outcome unit (list TransactionReceipt * list ContractStateDiff);
  CallSystemContract : Z -> Z -> bytes -> bytes -> outcome unit (ExecutionResult * list Argument)
}.

Record StateStorage := mkStateStorage {
  GetStateHash : Z -> outcome unit bytes
}.

Record ConsensusContextConfig := mkContextConfig {
  ProtocolVersion : Z;
  VirtualChainId : Z;
  ConsensusContextMaximumTransactionsInBlock : Z;
  ConsensusContextSystemTimestampAllowedJitter : Z;
  ConsensusContextTriggersEnabled : bool
}.

Record service := mkService {
  transactionPool : TransactionPool;
  virtualMachine : VirtualMachine;
  stateStorage : StateStorage;
  config : ConsensusContextConfig
}.

Definition NewConsensusContext := mkService.

(** An error of a called service, returned as is. *)
Definition of_service {A} (m : outcome unit A) : outcome context_error A :=
  match m with Ok a => Ok a | Err _ => Err ErrService | Panic => Panic end.

(** A called service's error, replaced by the context's own. *)
Definition wrapf {E A} (e : context_error) (m : outcome E A) : outcome context_error A :=
  match m with Ok a => Ok a | Err _ => Err e | Panic => Panic end.

Definition of_block {A} (m : outcome block_error A) : outcome context_error A :=
  match m with Ok a => Ok a | Err e => Err (ErrBlock e) | Panic => Panic end.

Definition require (b : bool) (e : context_error) : outcome context_error unit :=
  if b then Ok tt else Err e.

(** [for _, v := range validators]: the first error stops the loop. *)
Fixpoint run_validators {C} (validators : list (C -> outcome context_error unit)) (vctx : C)
    : outcome context_error unit :=
  match validators with
  | [] => Ok tt
  | v :: validators' => let! _ := v vctx in run_validators validators' vctx
  end.

Section Service.
Context `{Sha256, Membuffers}.
Implicit Types (s : service) (cfg : ConsensusContextConfig).

(** ** Creating a transactions block *)

Record RequestNewTransactionsBlockInput := mkNewTxInput {
  ntx_CurrentBlockHeight : Z;
  ntx_PrevBlockHash : bytes;
  ntx_PrevBlockTimestamp : Z;
  ntx_BlockProposerAddress : bytes
}.

Definition TRIGGERS_CONTRACT_NAME : bytes := go_string "_Triggers".
Definition METHOD_TRIGGER : bytes := go_string "trigger".

Definition fetchTransactions s (currentBlockHeight prevBlockTimestamp maxNumberOfTransactions : Z)
    : outcome context_error (list SignedTransaction * Z) :=
  of_service (GetTransactionsForOrdering (transactionPool s)
    (mkOrderingInput currentBlockHeight prevBlockTimestamp maxNumberOfTransactions 0)).

Definition createTriggerTransaction cfg (blockTime : Z) : SignedTransaction :=
  mkSignedTransaction
    (mkTransaction (ProtocolVersion cfg) (VirtualChainId cfg) blockTime (mkSigner [] None)
       TRIGGERS_CONTRACT_NAME METHOD_TRIGGER [])
    [].

Definition updateTransactions cfg (txs : list SignedTransaction) (blockTime : Z) : list SignedTransaction :=
  if ConsensusContextTriggersEnabled cfg then txs ++ [createTriggerTransaction cfg blockTime] else txs.

Definition createTransactionsBlock s (input : RequestNewTransactionsBlockInput)
    : outcome context_error TransactionsBlockContainer :=
  let! proposed := fetchTransactions s (ntx_CurrentBlockHeight input) (ntx_PrevBlockTimestamp input)
                     (ConsensusContextMaximumTransactionsInBlock (config s)) in
  let '(proposedTransactions, newBlockTimestamp) := proposed in
  if newBlockTimestamp =? 0 then Err ErrZeroTimestamp
  else
    let transactionsForBlock := updateTransactions (config s) proposedTransactions newBlockTimestamp in
    let metaData := raw_EmptyMetadata in
    Ok (mkTxBlock
          (mkTxHeader (ProtocolVersion (config s)) (VirtualChainId (config s)) (ntx_CurrentBlockHeight input)
             (ntx_PrevBlockHash input) newBlockTimestamp (CalcTransactionsMerkleRoot transactionsForBlock)
             (CalcTransactionMetaDataHash metaData) (wrap 32 (Z.of_nat (length transactionsForBlock)))
             (ntx_BlockProposerAddress input))
          metaData transactionsForBlock empty_TransactionsBlockProof).

(** Logging apart, the handler is the call. *)
Definition RequestNewTransactionsBlock s input := createTransactionsBlock s input.

(** ** Validating a transactions block *)

Record ValidateTransactionsBlockInput := mkValidateTxInput {
  vtx_CurrentBlockHeight : Z;
  vtx_TransactionsBlock : TransactionsBlockContainer;
  vtx_PrevBlockHash : bytes;
  vtx_PrevBlockTimestamp : Z;
  vtx_BlockProposerAddress : bytes
}.

(** [tc_now] is [time.Now().UnixNano()]. *)
Record txValidatorContext := mkTxVctx {
  tc_protocolVersion : Z;
  tc_virtualChainId : Z;
  allowedTimestampJitter : Z;
  tc_input : ValidateTransactionsBlockInput;
  tc_now : Z
}.

Definition tc_Header (vctx : txValidatorContext) : TransactionsBlockHeader :=
  txb_Header (vtx_TransactionsBlock (tc_input vctx)).

Definition validateTxProtocolVersion (vctx : txValidatorContext) : outcome context_error unit :=
  require (txh_ProtocolVersion (tc_Header vctx) =? tc_protocolVersion vctx) ErrMismatchedProtocolVersion.

Definition validateTxVirtualChainID (vctx : txValidatorContext) : outcome context_error unit :=
  require (txh_VirtualChainId (tc_Header vctx) =? tc_virtualChainId vctx) ErrMismatchedVirtualChainID.

Definition validateTxBlockHeight (vctx : txValidatorContext) : outcome context_error unit :=
  require (txh_BlockHeight (tc_Header vctx) =? vtx_CurrentBlockHeight (tc_input vctx)) ErrMismatchedBlockHeight.

Definition validateTxPrevBlockHashPtr (vctx : txValidatorContext) : outcome context_error unit :=
  require (bool_decide (txh_PrevBlockHashPtr (tc_Header vctx) = vtx_PrevBlockHash (tc_input vctx)))
    ErrMismatchedPrevBlockHash.

(** An empty proposer is of an older version and is not checked. *)
Definition validateTxBlockProposer (vctx : txValidatorContext) : outcome context_error unit :=
  let blockProposer := txh_BlockProposerAddress (tc_Header vctx) in
  if (0 <? length blockProposer)%nat then
    require (bool_decide (blockProposer = vtx_BlockProposerAddress (tc_input vctx))) ErrMismatchedBlockProposer
  else Ok tt.

Definition isValidBlockTimestamp (currentBlockTimestamp prevBlockTimestamp now jitter : Z)
    : outcome context_error unit :=
  let upperJitterLimitNano := u64_add now jitter in
  let lowerJitterLimitNano := u64_sub now jitter in
  if currentBlockTimestamp <=? prevBlockTimestamp then Err ErrTimestampNotAfterPrevious
  else if upperJitterLimitNano <? currentBlockTimestamp then Err ErrTimestampAfterUpperJitter
  else if currentBlockTimestamp <? lowerJitterLimitNano then Err ErrTimestampBeforeLowerJitter
  else Ok tt.

(** The clock and the jitter are [int64] values, converted to [uint64]. *)
Definition validateTxTransactionsBlockTimestamp (vctx : txValidatorContext) : outcome context_error unit :=
  isValidBlockTimestamp (txh_Timestamp (tc_Header vctx)) (vtx_PrevBlockTimestamp (tc_input vctx))
    (wrap 64 (tc_now vctx)) (wrap 64 (allowedTimestampJitter vctx)).

Definition validateTransactionsBlockMerkleRoot (vctx : txValidatorContext) : outcome context_error unit :=
  of_block (ValidateTransactionsBlockMerkleRoot (vtx_TransactionsBlock (tc_input vctx))).

Definition validateTransactionsBlockMetadataHash (vctx : txValidatorContext) : outcome context_error unit :=
  of_block (ValidateTransactionsBlockMetadataHash (vtx_TransactionsBlock (tc_input vctx))).

Definition validateTxTransactionOrdering cfg
    (validateForOrdering : list SignedTransaction -> Z -> Z -> outcome unit unit)
    (transactionBlock : TransactionsBlockContainer) : outcome context_error unit :=
  let txs := txb_SignedTransactions transactionBlock in
  let! txs := (if ConsensusContextTriggersEnabled cfg then
                 if (length txs =? 0)%nat then Err ErrTriggerEnabledAndTriggerMissing
                 else Ok (take (length txs - 1) txs)
               else Ok txs) in
  wrapf ErrFailedTransactionOrdering
    (validateForOrdering txs (txh_BlockHeight (txb_Header transactionBlock))
       (txh_Timestamp (txb_Header transactionBlock))).

Definition validateTransactionsBlockIsTxTrigger (signedTransaction : SignedTransaction) : bool :=
  let transaction := stx_Transaction signedTransaction in
  bool_decide (tx_ContractName transaction = TRIGGERS_CONTRACT_NAME)
    && bool_decide (tx_MethodName transaction = METHOD_TRIGGER).

Definition validateTransactionsBlockTxTriggerIsValidTime (signedTransaction : SignedTransaction)
    (blockTime : Z) : bool :=
  tx_Timestamp (stx_Transaction signedTransaction) =? blockTime.

Definition validateTransactionsBlockTxTriggerIsValid (signedTransaction : SignedTransaction) cfg : bool :=
  let transaction := stx_Transaction signedTransaction in
  (length (stx_Signature signedTransaction) =? 0)%nat
    && (tx_ProtocolVersion transaction =? ProtocolVersion cfg)
    && (tx_VirtualChainId transaction =? VirtualChainId cfg)
    && (length (tx_InputArgumentArray transaction) =? 0)%nat
    && (length (sg_Raw (tx_Signer transaction)) =? 0)%nat.

Definition validateTransactionsBlockTriggerCompliance cfg (transactionsBlock : TransactionsBlockContainer)
    : outcome context_error unit :=
  let txs := txb_SignedTransactions transactionsBlock in
  if ConsensusContextTriggersEnabled cfg then
    match last txs with
    | None => Err ErrTriggerEnabledAndTriggerMissing
    | Some lastTx =>
        if negb (validateTransactionsBlockIsTxTrigger lastTx) then Err ErrTriggerEnabledAndTriggerMissing
        else if negb (validateTransactionsBlockTxTriggerIsValidTime lastTx
                        (txh_Timestamp (txb_Header transactionsBlock)))
        then Err ErrTriggerEnabledAndTriggerInvalidTime
        else if negb (validateTransactionsBlockTxTriggerIsValid lastTx cfg)
        then Err ErrTriggerEnabledAndTriggerInvalid
        else if existsb validateTransactionsBlockIsTxTrigger (take (length txs - 2) txs)
        then Err ErrTriggerEnabledAndTriggerNotLast
        else Ok tt
    end
  else if existsb validateTransactionsBlockIsTxTrigger txs then Err ErrTriggerDisabledAndTriggerExists
  else Ok tt.

Definition tx_validators : list (txValidatorContext -> outcome context_error unit) :=
  [validateTxProtocolVersion;
   validateTxVirtualChainID;
   validateTxBlockHeight;
   validateTxPrevBlockHashPtr;
   validateTxTransactionsBlockTimestamp;
   validateTxBlockProposer;
   validateTransactionsBlockMerkleRoot;
   validateTransactionsBlockMetadataHash].

(** The trigger validator comes before the ordering validator, which drops the
    last transaction without looking at it. *)
Definition ValidateTransactionsBlock s (input : ValidateTransactionsBlockInput) (now : Z)
    : outcome context_error unit :=
  let vctx := mkTxVctx (ProtocolVersion (config s)) (VirtualChainId (config s))
                (ConsensusContextSystemTimestampAllowedJitter (config s)) input now in
  let! _ := run_validators tx_validators vctx in
  let! _ := validateTransactionsBlockTriggerCompliance (config s) (vtx_TransactionsBlock input) in
  validateTxTransactionOrdering (config s) (ValidateTransactionsForOrdering (transactionPool s))
    (vtx_TransactionsBlock input).

(** ** Creating a results block *)

Record RequestNewResultsBlockInput := mkNewRxInput {
  nrx_CurrentBlockHeight : Z;
  nrx_PrevBlockHash : bytes;
  nrx_TransactionsBlock : TransactionsBlockContainer;
  nrx_BlockProposerAddress : bytes
}.

Definition createResultsBlock s (input : RequestNewResultsBlockInput)
    : outcome context_error ResultsBlockContainer :=
  let txBlock := nrx_TransactionsBlock input in
  let! output := of_service (ProcessTransactionSet (virtualMachine s) (txb_SignedTransactions txBlock)
                   (nrx_CurrentBlockHeight input) (txh_Timestamp (txb_Header txBlock))
                   (nrx_BlockProposerAddress input)) in
  let '(receipts, stateDiffs) := output in
  let merkleReceiptsRoot := CalcReceiptsMerkleRoot receipts in
  if nrx_CurrentBlockHeight input =? 0 then Panic
  else
    let! preExecutionStateRootHash := of_service (GetStateHash (stateStorage s)
                                        (u64_sub (nrx_CurrentBlockHeight input) 1)) in
    Ok (mkRxBlock
          (mkRxHeader (ProtocolVersion (config s)) (VirtualChainId (config s)) (nrx_CurrentBlockHeight input)
             (nrx_PrevBlockHash input) (txh_Timestamp (txb_Header txBlock)) merkleReceiptsRoot
             (CalcStateDiffHash stateDiffs) (CalcTransactionsBlockHash (Some txBlock))
             preExecutionStateRootHash (wrap 32 (Z.of_nat (length receipts)))
             (wrap 32 (Z.of_nat (length stateDiffs))) (nrx_BlockProposerAddress input))
          receipts stateDiffs empty_ResultsBlockProof).

Definition RequestNewResultsBlock s input := createResultsBlock s input.

(** ** Validating a results block *)

Record ValidateResultsBlockInput := mkValidateRxInput {
  vrx_CurrentBlockHeight : Z;
  vrx_ResultsBlock : ResultsBlockContainer;
  vrx_PrevBlockHash : bytes;
  vrx_TransactionsBlock : TransactionsBlockContainer;
  vrx_BlockProposerAddress : bytes
}.

Record rxValidatorContext := mkRxVctx {
  rc_protocolVersion : Z;
  rc_virtualChainId : Z;
  rc_input : ValidateResultsBlockInput;
  getStateHash : Z -> outcome unit bytes;
  processTransactionSet :
    list SignedTransaction -> Z -> Z -> bytes -> outcome unit (list TransactionReceipt * list ContractStateDiff);
  calcReceiptsMerkleRoot : list TransactionReceipt -> bytes;
  calcStateDiffHash : list ContractStateDiff -> bytes
}.

Definition rc_Header (vcrx : rxValidatorContext) : ResultsBlockHeader :=
  rxb_Header (vrx_ResultsBlock (rc_input vcrx)).

Definition rc_TxHeader (vcrx : rxValidatorContext) : TransactionsBlockHeader :=
  txb_Header (vrx_TransactionsBlock (rc_input vcrx)).

Definition validateRxProtocolVersion (vcrx : rxValidatorContext) : outcome context_error unit :=
  require (rxh_ProtocolVersion (rc_Header vcrx) =? rc_protocolVersion vcrx) ErrMismatchedProtocolVersion.

Definition validateRxVirtualChainID (vcrx : rxValidatorContext) : outcome context_error unit :=
  require (rxh_VirtualChainId (rc_Header vcrx) =? rc_virtualChainId vcrx) ErrMismatchedVirtualChainID.

Definition validateRxBlockHeight (vcrx : rxValidatorContext) : outcome context_error unit :=
  let checkedBlockHeight := rxh_BlockHeight (rc_Header vcrx) in
  let! _ := require (checkedBlockHeight =? vrx_CurrentBlockHeight (rc_input vcrx)) ErrMismatchedBlockHeight in
  require (checkedBlockHeight =? txh_BlockHeight (rc_TxHeader vcrx)) ErrMismatchedTxRxBlockHeight.

Definition validateRxBlockProposer (vcrx : rxValidatorContext) : outcome context_error unit :=
  let blockProposer := rxh_BlockProposerAddress (rc_Header vcrx) in
  if (0 <? length blockProposer)%nat then
    let! _ := require (bool_decide (blockProposer = vrx_BlockProposerAddress (rc_input vcrx)))
                ErrMismatchedBlockProposer in
    require (bool_decide (blockProposer = txh_BlockProposerAddress (rc_TxHeader vcrx)))
      ErrMismatchedTxRxBlockProposer
  else Ok tt.

Definition validateRxTxBlockPtrMatchesActualTxBlock (vcrx : rxValidatorContext) : outcome context_error unit :=
  require (bool_decide (rxh_TransactionsBlockHashPtr (rc_Header vcrx)
                        = CalcTransactionsBlockHash (Some (vrx_TransactionsBlock (rc_input vcrx)))))
    ErrMismatchedTxHashPtrToActualTxBlock.

Definition validateIdenticalTxRxTimestamp (vcrx : rxValidatorContext) : outcome context_error unit :=
  require (rxh_Timestamp (rc_Header vcrx) =? txh_Timestamp (rc_TxHeader vcrx)) ErrMismatchedTxRxTimestamps.

Definition validateRxPrevBlockHashPtr (vcrx : rxValidatorContext) : outcome context_error unit :=
  require (bool_decide (rxh_PrevBlockHashPtr (rc_Header vcrx) = vrx_PrevBlockHash (rc_input vcrx)))
    ErrMismatchedPrevBlockHash.

Definition validateReceiptsMerkleRoot (vcrx : rxValidatorContext) : outcome context_error unit :=
  of_block (ValidateReceiptsMerkleRoot (vrx_ResultsBlock (rc_input vcrx))).

Definition validateRxStateDiffHash (vcrx : rxValidatorContext) : outcome context_error unit :=
  of_block (ValidateResultsBlockStateDiffHash (vrx_ResultsBlock (rc_input vcrx))).

Definition validatePreExecutionStateMerkleRoot (vcrx : rxValidatorContext) : outcome context_error unit :=
  let! hash := wrapf ErrGetStateHash (getStateHash vcrx (u64_sub (rxh_BlockHeight (rc_Header vcrx)) 1)) in
  require (bool_decide (rxh_PreExecutionStateMerkleRootHash (rc_Header vcrx) = hash))
    ErrMismatchedPreExecutionStateMerkleRoot.

Definition validateExecution (vcrx : rxValidatorContext) : outcome context_error unit :=
  let txBlock := vrx_TransactionsBlock (rc_input vcrx) in
  let! out := wrapf ErrProcessTransactionSet
                (processTransactionSet vcrx (txb_SignedTransactions txBlock) (txh_BlockHeight (rc_TxHeader vcrx))
                   (txh_Timestamp (rc_TxHeader vcrx)) (vrx_BlockProposerAddress (rc_input vcrx))) in
  let '(receipts, stateDiffs) := out in
  let! _ := require (bool_decide (rxh_ReceiptsMerkleRootHash (rc_Header vcrx)
                                  = calcReceiptsMerkleRoot vcrx receipts))
              (ErrBlock ErrMismatchedReceiptsRootHash) in
  require (bool_decide (rxh_StateDiffHash (rc_Header vcrx) = calcStateDiffHash vcrx stateDiffs))
    (ErrBlock ErrMismatchedStateDiffHash).

Definition rx_validators : list (rxValidatorContext -> outcome context_error unit) :=
  [validateRxProtocolVersion;
   validateRxVirtualChainID;
   validateRxBlockHeight;
   validateRxTxBlockPtrMatchesActualTxBlock;
   validateIdenticalTxRxTimestamp;
   validateRxPrevBlockHashPtr;
   validateRxBlockProposer;
   validateReceiptsMerkleRoot;
   validateRxStateDiffHash;
   validatePreExecutionStateMerkleRoot;
   validateExecution].

(** The loop of [ValidateResultsBlock], which looks at the context before each
    validator: [ctxErr i] says that it is cancelled before the [i]th. *)
Fixpoint run_unless_cancelled (ctxErr : nat -> bool)
    (validators : list (rxValidatorContext -> outcome context_error unit)) (vcrx : rxValidatorContext)
    : outcome context_error unit :=
  match validators with
  | [] => Ok tt
  | v :: validators' =>
      if ctxErr 0%nat then Err ErrContextCanceled
      else let! _ := v vcrx in run_unless_cancelled (fun i => ctxErr (S i)) validators' vcrx
  end.

Definition ValidateResultsBlock s (ctxErr : nat -> bool) (input : ValidateResultsBlockInput)
    : outcome context_error unit :=
  run_unless_cancelled ctxErr rx_validators
    (mkRxVctx (ProtocolVersion (config s)) (VirtualChainId (config s)) input
       (GetStateHash (stateStorage s)) (ProcessTransactionSet (virtualMachine s))
       CalcReceiptsMerkleRoot CalcStateDiffHash).

(** ** The committee *)

Definition COMMITTEE_CONTRACT_NAME : bytes := go_string "_Committee".
Definition METHOD_GET_ORDERED_COMMITTEE : bytes := go_string "getOrderedCommittee".

Definition toAddresses (input : list bytes) : list bytes := input.

Definition callGetOrderedCommitteeSystemContract s (blockHeight now : Z) : outcome context_error (list bytes) :=
  let! output := of_service (CallSystemContract (virtualMachine s) blockHeight (wrap 64 now)
                   COMMITTEE_CONTRACT_NAME METHOD_GET_ORDERED_COMMITTEE) in
  let '(callResult, outputArguments) := output in
  match callResult with
  | EXECUTION_RESULT_OTHER => Err ErrSystemCall
  | EXECUTION_RESULT_SUCCESS =>
      match outputArguments with
      | ArgBytesArray values :: _ => Ok (toAddresses values)
      | _ => Err ErrCorruptOutput
      end
  end.

Definition getOrderedCommittee s (currentBlockHeight now : Z) : outcome context_error (list bytes) :=
  callGetOrderedCommitteeSystemContract s currentBlockHeight now.

(** Metrics apart. *)
Definition RequestValidationCommittee s (currentBlockHeight now : Z) : outcome context_error (list bytes) :=
  getOrderedCommittee s currentBlockHeight now.

Definition RequestOrderingCommittee s (currentBlockHeight now : Z) : outcome context_error (list bytes) :=
  RequestValidationCommittee s currentBlockHeight now.
End Service.

(** ** Lemmas *)

Lemma require_Ok b e : require b e = Ok tt <-> b = true.
Proof. destruct b; simpl; split; congruence. Qed.

Lemma run_validators_Ok {C} (vs : list (C -> outcome context_error unit)) vctx :
  run_validators vs vctx = Ok tt <-> Forall (fun v => v vctx = Ok tt) vs.
Proof.
  induction vs as [|v vs IH]; simpl; [by split|].
  rewrite Forall_cons, <- IH. destruct (v vctx) as [[]| |]; simpl; split; try congruence; intuition congruence.
Qed.

Lemma bindO_Ok_unit {E A} (m : outcome E unit) (k : unit -> outcome E A) a :
  bindO m k = Ok a <-> m = Ok tt /\ k tt = Ok a.
Proof. destruct m as [[]| |]; simpl; split; intuition congruence. Qed.

Lemma of_block_Ok (m : outcome block_error unit) : of_block m = Ok tt <-> m = Ok tt.
Proof. destruct m as [[]| |]; simpl; split; congruence. Qed.

Lemma wrapf_Ok {E A} e (m : outcome E A) a : wrapf e m = Ok a <-> m = Ok a.
Proof. destruct m; simpl; split; congruence. Qed.

Lemma of_service_Ok {A} (m : outcome unit A) a : of_service m = Ok a <-> m = Ok a.
Proof. destruct m; simpl; split; congruence. Qed.

Lemma existsb_negb {A} (p : A -> bool) l : existsb p l = false <-> forallb (fun x => negb (p x)) l = true.
Proof.
  induction l as [|x l IH]; simpl; [done|]. rewrite orb_false_iff, andb_true_iff, negb_true_iff. by rewrite IH.
Qed.

(** The two configurations of a block's life agree on what they check. *)
Definition same_chain (c c' : ConsensusContextConfig) : Prop :=
  ProtocolVersion c = ProtocolVersion c' /\ VirtualChainId c = VirtualChainId c' /\
  ConsensusContextTriggersEnabled c = ConsensusContextTriggersEnabled c'.

(** What a leader's pool promises to the pool of a validator. *)
Class PoolAgreement (leader validator : TransactionPool) : Prop := pool_agreement :
  forall input txs ts, GetTransactionsForOrdering leader input = Ok (txs, ts) ->
    ValidateTransactionsForOrdering validator txs (oi_CurrentBlockHeight input) ts = Ok tt.

(** Execution and state hashes that are the same functions on two nodes. *)
Class SameExecution (leader validator : service) : Prop := {
  same_process txs height ts proposer :
    ProcessTransactionSet (virtualMachine leader) txs height ts proposer =
    ProcessTransactionSet (virtualMachine validator) txs height ts proposer;
  same_state_hash height :
    GetStateHash (stateStorage leader) height = GetStateHash (stateStorage validator) height
}.

Section Lemmas.
Context `{Sha256, Membuffers}.
Implicit Types (s : service) (cfg : ConsensusContextConfig).

Lemma isValidBlockTimestamp_spec cur prev now jitter :
  0 <= jitter <= now -> now + jitter < 2 ^ 64 ->
  isValidBlockTimestamp cur prev now jitter = Ok tt <-> prev < cur /\ now - jitter <= cur <= now + jitter.
Proof.
  intros Hj Hn. unfold isValidBlockTimestamp.
  words.
  destruct (Z.leb_spec cur prev); [split; [done|lia]|].
  destruct (Z.ltb_spec (now + jitter) cur); [split; [done|lia]|].
  destruct (Z.ltb_spec cur (now - jitter)); split; try done; lia.
Qed.

Lemma trigger_is_trigger cfg ts : validateTransactionsBlockIsTxTrigger (createTriggerTransaction cfg ts) = true.
Proof.
  unfold validateTransactionsBlockIsTxTrigger, createTriggerTransaction. simpl stx_Transaction.
  by rewrite !bool_decide_eq_true_2.
Qed.

Lemma trigger_is_valid cfg cfg' ts :
  same_chain cfg cfg' -> validateTransactionsBlockTxTriggerIsValid (createTriggerTransaction cfg ts) cfg' = true.
Proof.
  intros (Hp & Hv & _). unfold validateTransactionsBlockTxTriggerIsValid. simpl. rewrite Hp, Hv. lia.
Qed.

(** The transactions the trigger validator looks at, of those the pool gave. *)
Definition pooled_checked cfg (txs : list SignedTransaction) : list SignedTransaction :=
  if ConsensusContextTriggersEnabled cfg then take (length txs - 1) txs else txs.

Definition no_trigger (txs : list SignedTransaction) : bool :=
  forallb (fun tx => negb (validateTransactionsBlockIsTxTrigger tx)) txs.

Lemma trigger_compliance cfg cfg' header metadata txs proof :
  same_chain cfg cfg' ->
  validateTransactionsBlockTriggerCompliance cfg'
    (mkTxBlock header metadata (updateTransactions cfg txs (txh_Timestamp header)) proof) = Ok tt <->
  no_trigger (pooled_checked cfg txs) = true.
Proof.
  intros Hsame. unfold validateTransactionsBlockTriggerCompliance, updateTransactions, pooled_checked, no_trigger.
  rewrite <- (proj2 (proj2 Hsame)). cbn [txb_SignedTransactions txb_Header].
  destruct (ConsensusContextTriggersEnabled cfg); cbn zeta iota; rewrite <- existsb_negb.
  - rewrite last_snoc, trigger_is_trigger, (trigger_is_valid _ _ _ Hsame). cbn [negb].
    unfold validateTransactionsBlockTxTriggerIsValidTime. cbn [createTriggerTransaction stx_Transaction tx_Timestamp].
    rewrite Z.eqb_refl. cbn [negb]. rewrite length_app. simpl length.
    replace (length txs + 1 - 2)%nat with (length txs - 1)%nat by lia. rewrite take_app_le by lia.
    by destruct (existsb _ _).
  - by destruct (existsb _ _).
Qed.

Lemma ordering_of_created cfg cfg' validate header metadata txs proof :
  same_chain cfg cfg' ->
  validate txs (txh_BlockHeight header) (txh_Timestamp header) = Ok tt ->
  validateTxTransactionOrdering cfg' validate
    (mkTxBlock header metadata (updateTransactions cfg txs (txh_Timestamp header)) proof) = Ok tt.
Proof.
  intros Hsame Hv. unfold validateTxTransactionOrdering, updateTransactions.
  rewrite <- (proj2 (proj2 Hsame)). cbn [txb_SignedTransactions txb_Header].
  destruct (ConsensusContextTriggersEnabled cfg).
  - rewrite length_app. simpl length. replace (length txs + 1 =? 0)%nat with false by lia.
    replace (length txs + 1 - 1)%nat with (length txs) by lia. rewrite take_app_length.
    cbn [bindO]. by rewrite Hv.
  - cbn [bindO]. by rewrite Hv.
Qed.

(** The header a leader writes passes all the header validators but the clock's. *)
Lemma created_header_validates leader validator input txs ts now :
  let block := mkTxBlock
    (mkTxHeader (ProtocolVersion (config leader)) (VirtualChainId (config leader)) (ntx_CurrentBlockHeight input)
       (ntx_PrevBlockHash input) ts (CalcTransactionsMerkleRoot txs)
       (CalcTransactionMetaDataHash raw_EmptyMetadata) (wrap 32 (Z.of_nat (length txs)))
       (ntx_BlockProposerAddress input))
    raw_EmptyMetadata txs empty_TransactionsBlockProof in
  let vctx := mkTxVctx (ProtocolVersion (config validator)) (VirtualChainId (config validator))
    (ConsensusContextSystemTimestampAllowedJitter (config validator))
    (mkValidateTxInput (ntx_CurrentBlockHeight input) block (ntx_PrevBlockHash input)
       (ntx_PrevBlockTimestamp input) (ntx_BlockProposerAddress input)) now in
  same_chain (config leader) (config validator) ->
  Forall (fun v => v vctx = Ok tt) tx_validators <-> validateTxTransactionsBlockTimestamp vctx = Ok tt.
Proof.
  intros block vctx (Hp & Hv & _). unfold tx_validators. rewrite !Forall_cons, Forall_nil.
  assert (validateTxProtocolVersion vctx = Ok tt) by (apply require_Ok; simpl; lia).
  assert (validateTxVirtualChainID vctx = Ok tt) by (apply require_Ok; simpl; lia).
  assert (validateTxBlockHeight vctx = Ok tt) by (apply require_Ok; simpl; lia).
  assert (validateTxPrevBlockHashPtr vctx = Ok tt) by (apply require_Ok; by apply bool_decide_eq_true_2).
  assert (validateTxBlockProposer vctx = Ok tt).
  { unfold validateTxBlockProposer. case_match; [|done]. apply require_Ok. by apply bool_decide_eq_true_2. }
  assert (validateTransactionsBlockMerkleRoot vctx = Ok tt).
  { apply of_block_Ok. unfold ValidateTransactionsBlockMerkleRoot. by rewrite bool_decide_eq_true_2. }
  assert (validateTransactionsBlockMetadataHash vctx = Ok tt).
  { apply of_block_Ok. unfold ValidateTransactionsBlockMetadataHash. by rewrite bool_decide_eq_true_2. }
  intuition.
Qed.

Lemma run_unless_cancelled_Ok ctxErr vs vcrx :
  run_unless_cancelled ctxErr vs vcrx = Ok tt <->
  Forall (fun v => v vcrx = Ok tt) vs /\ forall i, (i < length vs)%nat -> ctxErr i = false.
Proof.
  revert ctxErr. induction vs as [|v vs IH]; intros ctxErr; simpl; [split; [split; [done|lia]|done]|].
  destruct (ctxErr 0%nat) eqn:E0.
  { split; [done|]. intros [_ Hc]. rewrite Hc in E0; [done|lia]. }
  rewrite bindO_Ok_unit, IH, Forall_cons. split.
  - intros (Hv & Hvs & Hc). split_and!; [done..|]. intros [|i] Hi; [done|]. apply Hc. lia.
  - intros ([Hv Hvs] & Hc). split_and!; [done..|]. intros i Hi. apply Hc. lia.
Qed.

Lemma validateRxBlockHeight_Ok vcrx :
  validateRxBlockHeight vcrx = Ok tt <->
  rxh_BlockHeight (rc_Header vcrx) = vrx_CurrentBlockHeight (rc_input vcrx) /\
  rxh_BlockHeight (rc_Header vcrx) = txh_BlockHeight (rc_TxHeader vcrx).
Proof. unfold validateRxBlockHeight. rewrite bindO_Ok_unit, !require_Ok. lia. Qed.

Lemma validateRxBlockProposer_Ok vcrx :
  validateRxBlockProposer vcrx = Ok tt <->
  rxh_BlockProposerAddress (rc_Header vcrx) = [] \/
  rxh_BlockProposerAddress (rc_Header vcrx) = vrx_BlockProposerAddress (rc_input vcrx) /\
  rxh_BlockProposerAddress (rc_Header vcrx) = txh_BlockProposerAddress (rc_TxHeader vcrx).
Proof.
  unfold validateRxBlockProposer. destruct (rxh_BlockProposerAddress (rc_Header vcrx)) eqn:E; simpl.
  - split; auto.
  - rewrite bindO_Ok_unit, !require_Ok, !bool_decide_eq_true. intuition congruence.
Qed.

Lemma validatePreExecution_Ok vcrx :
  validatePreExecutionStateMerkleRoot vcrx = Ok tt <->
  getStateHash vcrx (u64_sub (rxh_BlockHeight (rc_Header vcrx)) 1)
  = Ok (rxh_PreExecutionStateMerkleRootHash (rc_Header vcrx)).
Proof.
  unfold validatePreExecutionStateMerkleRoot. destruct (getStateHash _ _); simpl; [|split; congruence..].
  rewrite require_Ok, bool_decide_eq_true. split; congruence.
Qed.

Lemma validateExecution_Ok vcrx :
  validateExecution vcrx = Ok tt <->
  exists receipts stateDiffs,
    processTransactionSet vcrx (txb_SignedTransactions (vrx_TransactionsBlock (rc_input vcrx)))
      (txh_BlockHeight (rc_TxHeader vcrx)) (txh_Timestamp (rc_TxHeader vcrx))
      (vrx_BlockProposerAddress (rc_input vcrx)) = Ok (receipts, stateDiffs) /\
    rxh_ReceiptsMerkleRootHash (rc_Header vcrx) = calcReceiptsMerkleRoot vcrx receipts /\
    rxh_StateDiffHash (rc_Header vcrx) = calcStateDiffHash vcrx stateDiffs.
Proof.
  unfold validateExecution. destruct (processTransactionSet _ _ _ _ _) as [[rs ds]| |]; simpl;
    [|split; [done|intros (? & ? & ? & _); done]..].
  rewrite bindO_Ok_unit, !require_Ok, !bool_decide_eq_true. split; [by eauto|].
  intros (? & ? & ? & ? & ?); by simplify_eq.
Qed.

(** What the header of an accepted results block is: everything but the two counts
    and the proposer is computed by the validator itself. *)
Definition results_header (s : service) (input : ValidateResultsBlockInput)
    (receipts : list TransactionReceipt) (stateDiffs : list ContractStateDiff) (stateRoot : bytes)
    (numReceipts numDiffs : Z) (proposer : bytes) : ResultsBlockHeader :=
  let txBlock := vrx_TransactionsBlock input in
  mkRxHeader (ProtocolVersion (config s)) (VirtualChainId (config s)) (vrx_CurrentBlockHeight input)
    (vrx_PrevBlockHash input) (txh_Timestamp (txb_Header txBlock)) (CalcReceiptsMerkleRoot receipts)
    (CalcStateDiffHash stateDiffs) (CalcTransactionsBlockHash (Some txBlock)) stateRoot
    numReceipts numDiffs proposer.

Lemma ValidateResultsBlock_header s input :
  Forall (fun v => v (mkRxVctx (ProtocolVersion (config s)) (VirtualChainId (config s)) input
       (GetStateHash (stateStorage s)) (ProcessTransactionSet (virtualMachine s))
       CalcReceiptsMerkleRoot CalcStateDiffHash) = Ok tt) rx_validators <->
  exists receipts stateDiffs stateRoot numReceipts numDiffs proposer,
    let txBlock := vrx_TransactionsBlock input in
    let header := rxb_Header (vrx_ResultsBlock input) in
    ProcessTransactionSet (virtualMachine s) (txb_SignedTransactions txBlock) (vrx_CurrentBlockHeight input)
      (txh_Timestamp (txb_Header txBlock)) (vrx_BlockProposerAddress input) = Ok (receipts, stateDiffs) /\
    GetStateHash (stateStorage s) (u64_sub (vrx_CurrentBlockHeight input) 1) = Ok stateRoot /\
    header = results_header s input receipts stateDiffs stateRoot numReceipts numDiffs proposer /\
    txh_BlockHeight (txb_Header txBlock) = vrx_CurrentBlockHeight input /\
    (proposer = [] \/ proposer = vrx_BlockProposerAddress input /\
                      proposer = txh_BlockProposerAddress (txb_Header txBlock)) /\
    CalcReceiptsMerkleRoot (rxb_TransactionReceipts (vrx_ResultsBlock input)) = CalcReceiptsMerkleRoot receipts /\
    CalcStateDiffHash (rxb_ContractStateDiffs (vrx_ResultsBlock input)) = CalcStateDiffHash stateDiffs.
Proof.
  unfold rx_validators. rewrite !Forall_cons, Forall_nil.
  unfold validateRxProtocolVersion, validateRxVirtualChainID, validateRxTxBlockPtrMatchesActualTxBlock,
    validateIdenticalTxRxTimestamp, validateRxPrevBlockHashPtr, validateReceiptsMerkleRoot, validateRxStateDiffHash.
  rewrite validateRxBlockHeight_Ok, validateRxBlockProposer_Ok, validatePreExecution_Ok, validateExecution_Ok.
  rewrite !of_block_Ok, !require_Ok, !bool_decide_eq_true, !Z.eqb_eq.
  unfold ValidateReceiptsMerkleRoot, ValidateResultsBlockStateDiffHash.
  destruct input as [height rxBlock prevHash txBlock blockProposer].
  destruct rxBlock as [header rs ds proof]. destruct header. unfold rc_Header, rc_TxHeader, results_header.
  cbn. split.
  - intros (-> & -> & [-> Hh] & -> & -> & -> & Hp & Hr & Hd & Hroot & (receipts & diffs & Hex & -> & ->) & _).
    case_bool_decide; [|done]. case_bool_decide; [|done]. rewrite <- Hh in Hex.
    do 6 eexists. split_and!; done || eauto.
  - intros (receipts & diffs & root & nr & nd & proposer & Hex & Hroot & Heq & Hh & Hp & Hr & Hd).
    injection Heq as -> -> -> -> -> -> -> -> -> -> -> ->.
    rewrite !bool_decide_eq_true_2 by done. rewrite Hh. split_and!; done || eauto.
Qed.

(** ** Properties *)

(** A transactions block made by a leader passes the checks of a validator of the
    same chain whose pool agrees with the leader's exactly when its timestamp is
    in the validator's window and the trigger validator finds no trigger among
    the pooled transactions it looks at. *)
Theorem created_transactions_block_accepted leader validator input now txs ts :
  same_chain (config leader) (config validator) ->
  PoolAgreement (transactionPool leader) (transactionPool validator) ->
  fetchTransactions leader (ntx_CurrentBlockHeight input) (ntx_PrevBlockTimestamp input)
    (ConsensusContextMaximumTransactionsInBlock (config leader)) = Ok (txs, ts) ->
  ts <> 0 ->
  exists block, RequestNewTransactionsBlock leader input = Ok block /\
    (ValidateTransactionsBlock validator
       (mkValidateTxInput (ntx_CurrentBlockHeight input) block (ntx_PrevBlockHash input)
          (ntx_PrevBlockTimestamp input) (ntx_BlockProposerAddress input)) now = Ok tt <->
     isValidBlockTimestamp ts (ntx_PrevBlockTimestamp input) (wrap 64 now)
       (wrap 64 (ConsensusContextSystemTimestampAllowedJitter (config validator))) = Ok tt /\
     no_trigger (pooled_checked (config leader) txs) = true).
Proof.
  intros Hsame Hpool Hfetch Hts. unfold RequestNewTransactionsBlock, createTransactionsBlock.
  rewrite Hfetch. cbn [bindO]. lia_if.
  eexists. split; [reflexivity|]. unfold ValidateTransactionsBlock. rewrite !bindO_Ok_unit, run_validators_Ok.
  apply of_service_Ok, pool_agreement in Hfetch. cbn [oi_CurrentBlockHeight] in Hfetch.
  cbn [vtx_TransactionsBlock].
  rewrite (created_header_validates leader validator input _ ts now Hsame).
  set (header := mkTxHeader _ _ _ _ _ _ _ _ _).
  pose proof (trigger_compliance _ _ header raw_EmptyMetadata txs empty_TransactionsBlockProof Hsame) as Ht.
  pose proof (ordering_of_created _ _ _ header raw_EmptyMetadata txs empty_TransactionsBlockProof Hsame Hfetch) as Ho.
  cbn [txh_Timestamp header] in Ht, Ho. rewrite Ht.
  unfold validateTxTransactionsBlockTimestamp. cbn. intuition.
Qed.

(** A validator whose context is not cancelled accepts a results block exactly when
    its header is the one the validator computes from its own execution of the
    transactions block and from its own state before it; only the two counts of
    the header are free, and the proposer may be left out. *)
Theorem ValidateResultsBlock_spec s ctxErr input :
  (forall i, ctxErr i = false) ->
  ValidateResultsBlock s ctxErr input = Ok tt <->
  exists receipts stateDiffs stateRoot numReceipts numDiffs proposer,
    let txBlock := vrx_TransactionsBlock input in
    ProcessTransactionSet (virtualMachine s) (txb_SignedTransactions txBlock) (vrx_CurrentBlockHeight input)
      (txh_Timestamp (txb_Header txBlock)) (vrx_BlockProposerAddress input) = Ok (receipts, stateDiffs) /\
    GetStateHash (stateStorage s) (u64_sub (vrx_CurrentBlockHeight input) 1) = Ok stateRoot /\
    rxb_Header (vrx_ResultsBlock input)
    = results_header s input receipts stateDiffs stateRoot numReceipts numDiffs proposer /\
    txh_BlockHeight (txb_Header txBlock) = vrx_CurrentBlockHeight input /\
    (proposer = [] \/ proposer = vrx_BlockProposerAddress input /\
                      proposer = txh_BlockProposerAddress (txb_Header txBlock)) /\
    CalcReceiptsMerkleRoot (rxb_TransactionReceipts (vrx_ResultsBlock input)) = CalcReceiptsMerkleRoot receipts /\
    CalcStateDiffHash (rxb_ContractStateDiffs (vrx_ResultsBlock input)) = CalcStateDiffHash stateDiffs.
Proof.
  intros Hctx. unfold ValidateResultsBlock. rewrite run_unless_cancelled_Ok, ValidateResultsBlock_header.
  split; [by intros [? _]|done].
Qed.

(** The results block a leader makes for an accepted transactions block passes the
    checks of a validator of the same chain that executes as the leader does and
    has the leader's state. *)
Theorem created_results_block_accepted leader validator input rxBlock :
  same_chain (config leader) (config validator) ->
  SameExecution leader validator ->
  txh_BlockHeight (txb_Header (nrx_TransactionsBlock input)) = nrx_CurrentBlockHeight input ->
  txh_BlockProposerAddress (txb_Header (nrx_TransactionsBlock input)) = nrx_BlockProposerAddress input ->
  RequestNewResultsBlock leader input = Ok rxBlock ->
  ValidateResultsBlock validator (fun _ => false)
    (mkValidateRxInput (nrx_CurrentBlockHeight input) rxBlock (nrx_PrevBlockHash input)
       (nrx_TransactionsBlock input) (nrx_BlockProposerAddress input)) = Ok tt.
Proof.
  intros (Hp & Hv & _) Hsame Hh Hprop Hcreate. apply run_unless_cancelled_Ok. split; [|done].
  apply ValidateResultsBlock_header. unfold RequestNewResultsBlock, createResultsBlock in Hcreate.
  apply bindO_Ok in Hcreate as ([receipts diffs] & Hex%of_service_Ok & Hcreate).
  destruct (nrx_CurrentBlockHeight input =? 0); [done|].
  apply bindO_Ok in Hcreate as (root & Hroot%of_service_Ok & [= <-]).
  rewrite same_process in Hex. rewrite same_state_hash in Hroot.
  exists receipts, diffs, root. do 2 eexists. exists (nrx_BlockProposerAddress input). cbn. split_and!; [done..| |done|by right|done|done].
  unfold results_header. cbn. by rewrite Hp, Hv.
Qed.

(** The trigger validator does not see a trigger transaction in the place before the
    last one: a block that ends in two triggers, the first of them anyone's, is
    accepted. *)
Theorem second_trigger_accepted cfg header metadata proof txs clientTrigger :
  ConsensusContextTriggersEnabled cfg = true ->
  no_trigger txs = true ->
  validateTransactionsBlockIsTxTrigger clientTrigger = true ->
  validateTransactionsBlockTriggerCompliance cfg
    (mkTxBlock header metadata (txs ++ [clientTrigger; createTriggerTransaction cfg (txh_Timestamp header)]) proof)
  = Ok tt.
Proof.
  intros Hon Hno _.
  pose proof (trigger_compliance cfg cfg header metadata (txs ++ [clientTrigger]) proof) as Hc.
  unfold updateTransactions, pooled_checked in Hc. rewrite Hon, <- app_assoc in Hc. simpl in Hc.
  apply Hc; [done|]. rewrite length_app. simpl. by rewrite Nat.add_sub, take_app_length.
Qed.

(** One pooled transaction that calls the trigger contract is enough for the
    leader's block to be rejected by every validator, whatever its pool says. *)
Theorem pooled_trigger_rejected leader validator input now txs ts clientTrigger rest :
  same_chain (config leader) (config validator) ->
  ConsensusContextTriggersEnabled (config leader) = true ->
  fetchTransactions leader (ntx_CurrentBlockHeight input) (ntx_PrevBlockTimestamp input)
    (ConsensusContextMaximumTransactionsInBlock (config leader)) = Ok (txs, ts) ->
  ts <> 0 -> txs = clientTrigger :: rest -> rest <> [] ->
  validateTransactionsBlockIsTxTrigger clientTrigger = true ->
  exists block, RequestNewTransactionsBlock leader input = Ok block /\
    ValidateTransactionsBlock validator
      (mkValidateTxInput (ntx_CurrentBlockHeight input) block (ntx_PrevBlockHash input)
         (ntx_PrevBlockTimestamp input) (ntx_BlockProposerAddress input)) now <> Ok tt.
Proof.
  intros Hsame Hon Hfetch Hts -> Hrest Htr. unfold RequestNewTransactionsBlock, createTransactionsBlock.
  rewrite Hfetch. cbn [bindO]. lia_if.
  eexists. split; [reflexivity|]. unfold ValidateTransactionsBlock. rewrite !bindO_Ok_unit.
  intros (_ & Hc & _). cbn [vtx_TransactionsBlock] in Hc.
  set (header := mkTxHeader _ _ _ _ _ _ _ _ _) in Hc.
  apply (trigger_compliance _ _ header) in Hc; [|done]. unfold pooled_checked in Hc. rewrite Hon in Hc.
  destruct rest as [|r rest]; [done|]. cbn in Hc. by rewrite Htr in Hc.
Qed.
End Lemmas.

(** ** The transaction pool behind the interface *)

Section Pool.
Context `{Sha256, Membuffers, PreOrderVM, NodeSignatures} {R : Type} `{!HeightReporter R}.

(** The pool a context calls: the service at the time of the call, what waiting for
    the previous block gave, the clock, and the wake-ups of the waiting loop. *)
Definition pool_of (s : Service R) (wait : option tracker_error) (now : Z) (later : list (Service R * Z))
    : TransactionPool := mkTransactionPool
  (fun input =>
     match TransactionPoolService.GetTransactionsForOrdering s wait input now later with
     | Ok (_, out, false) => Ok out
     | Ok (_, _, true) | Err _ => Err tt
     | Panic => Panic
     end)
  (fun txs height ts =>
     match TransactionPoolService.ValidateTransactionsForOrdering s wait txs height ts with
     | Ok _ => Ok tt
     | Err _ => Err tt
     | Panic => Panic
     end).

(** Two pools with the same configuration and the same committed transactions. *)
Definition same_committed (s s' : Service R) : Prop :=
  tp_config s = tp_config s' /\
  forall h, committed_has (committedPool s) h = committed_has (committedPool s') h.

Lemma batch_until_validates (validator : Service R) input f later s now s' batch err ts :
  (forall txs height ts, TransactionSetPreOrder txs height ts = (map (f height ts) txs, false)) ->
  same_committed s validator -> Forall (fun l => same_committed l.1 validator) later ->
  batch_until input s now later = Ok (s', batch, err, ts) ->
  TransactionPoolService.ValidateTransactionsForOrdering validator None (validTransactions batch)
    (oi_CurrentBlockHeight input) ts = Ok tt.
Proof.
  intros Hvm. revert s now. induction later as [|[s1 now1] later IH]; intros s now Hs Hl Hb; cbn [batch_until] in Hb;
    set (pts := proposeBlockTimestampWithCurrentTime _ now) in Hb;
    destruct (runBatch_spec s input pts _ (fun txs => Hvm txs _ _)) as (b & Hr & Hv); rewrite Hr in Hb; cbn [bindO] in Hb.
  all: assert (TransactionPoolService.ValidateTransactionsForOrdering validator None (validTransactions b)
        (oi_CurrentBlockHeight input) pts = Ok tt) as Hval.
  1,3: apply (ValidateTransactionsForOrdering_ok _ _ _ _ _ (fun txs => Hvm txs _ _));
    intros tx Hin; destruct (Hv tx Hin) as [Hf Ho]; split; [done|];
    destruct Hs as [Hc Hh]; unfold orderable in *; by rewrite <- Hc, <- Hh.
  - destruct (validTransactions b) eqn:E; simplify_eq; by rewrite E.
  - apply Forall_cons in Hl as [Hl1 Hl]. destruct (validTransactions b) eqn:E; [by eapply IH|].
    simplify_eq. by rewrite E.
Qed.

(** The pools of two nodes with the same committed transactions keep the promise. *)
#[export] Instance pool_of_agreement (leader validator : Service R) wait now now' later later' f :
  (forall txs height ts, TransactionSetPreOrder txs height ts = (map (f height ts) txs, false)) ->
  same_committed leader validator -> Forall (fun l => same_committed l.1 validator) later ->
  PoolAgreement (pool_of leader wait now later) (pool_of validator None now' later').
Proof.
  intros Hvm Hs Hl input txs ts Hget.
  cbn [pool_of GetTransactionsForOrdering ValidateTransactionsForOrdering] in *.
  unfold TransactionPoolService.GetTransactionsForOrdering in Hget.
  case_bool_decide.
  - injection Hget as <- <-. rewrite (ValidateTransactionsForOrdering_ok _ _ _ _ _ (fun txs => Hvm txs _ _)); [done|].
    intros tx [].
  - destruct wait; [done|]. destruct (batch_until input leader now later) as [[[[s' b] err] pts]| |] eqn:Hb; [|done..].
    cbn [bindO] in Hget. destruct err; [done|]. injection Hget as <- <-.
    by rewrite (batch_until_validates _ _ _ _ _ _ _ _ _ _ Hvm Hs Hl Hb).
Qed.
End Pool.

(** ** Witnesses *)

Section Witness.
#[local] Existing Instance plain_membuffers.
#[local] Existing Instance all_valid_vm.
#[local] Existing Instance any_signature.
#[local] Existing Instance plain_hash'.

Definition vm1 : VirtualMachine := mkVirtualMachine
  (fun txs _ _ _ => Ok (map (fun tx => mkReceipt (CalcTxHash (stx_Transaction tx)) 1 [] []) txs,
                        [mkContractStateDiff [1] [mkStateRecord [2] [3]]]))
  (fun _ _ _ _ => Ok (EXECUTION_RESULT_SUCCESS, [ArgBytesArray [[9]]])).
Definition state1 : StateStorage := mkStateStorage (fun height => Ok [height]).
Definition context_config : ConsensusContextConfig := mkContextConfig 1 42 100 5 true.
Definition leader1 : service := NewConsensusContext (pool_of service1 None 11 []) vm1 state1 context_config.
Definition validator1 : service := NewConsensusContext (pool_of service0 None 12 []) vm1 state1 context_config.
Definition new_tx_input : RequestNewTransactionsBlockInput := mkNewTxInput 2 [7] 10 [9].

Lemma created_transactions_block_accepted_witness :
  exists block, RequestNewTransactionsBlock leader1 new_tx_input = Ok block /\
    (ValidateTransactionsBlock validator1 (mkValidateTxInput 2 block [7] 10 [9]) 12 = Ok tt <->
     isValidBlockTimestamp 11 10 12 5 = Ok tt /\ no_trigger (pooled_checked context_config [tx_at 9]) = true).
Proof.
  apply (created_transactions_block_accepted leader1 validator1 new_tx_input 12 [tx_at 9] 11).
  - split_and!; reflexivity.
  - apply (pool_of_agreement _ _ _ _ _ _ _ (fun _ _ _ => TRANSACTION_STATUS_PRE_ORDER_VALID)); [done| |done].
    by split.
  - vm_compute. reflexivity.
  - lia.
Defined.

Definition tx_block1 : TransactionsBlockContainer :=
  mkTxBlock (mkTxHeader 1 42 2 [7] 11 [] [] 1 [9]) [] [tx_at 9] (mkBlockProof ProofNone []).
Definition new_rx_input : RequestNewResultsBlockInput := mkNewRxInput 2 [8] tx_block1 [9].
Definition rx_block1 : ResultsBlockContainer :=
  match RequestNewResultsBlock leader1 new_rx_input with
  | Ok b => b
  | _ => mkRxBlock (mkRxHeader 0 0 0 [] 0 [] [] [] [] 0 0 []) [] [] (mkBlockProof ProofNone [])
  end.

Lemma created_results_block_accepted_witness :
  ValidateResultsBlock validator1 (fun _ => false) (mkValidateRxInput 2 rx_block1 [8] tx_block1 [9]) = Ok tt.
Proof.
  apply (created_results_block_accepted leader1 validator1 new_rx_input rx_block1); try reflexivity.
  - split_and!; reflexivity.
  - by split.
Defined.

Lemma ValidateResultsBlock_spec_witness :
  exists receipts stateDiffs stateRoot numReceipts numDiffs proposer,
    ProcessTransactionSet vm1 [tx_at 9] 2 11 [9] = Ok (receipts, stateDiffs) /\
    GetStateHash state1 1 = Ok stateRoot /\
    rxb_Header rx_block1 = results_header validator1 (mkValidateRxInput 2 rx_block1 [8] tx_block1 [9])
      receipts stateDiffs stateRoot numReceipts numDiffs proposer /\ 2 = 2 /\
    (proposer = [] \/ proposer = [9] /\ proposer = [9]) /\
    CalcReceiptsMerkleRoot (rxb_TransactionReceipts rx_block1) = CalcReceiptsMerkleRoot receipts /\
    CalcStateDiffHash (rxb_ContractStateDiffs rx_block1) = CalcStateDiffHash stateDiffs.
Proof.
  apply (ValidateResultsBlock_spec validator1 (fun _ => false) (mkValidateRxInput 2 rx_block1 [8] tx_block1 [9])).
  - reflexivity.
  - vm_compute. reflexivity.
Defined.

Definition client_trigger : SignedTransaction :=
  mkSignedTransaction (mkTransaction 1 42 9 (mkSigner [5] (Some [5])) TRIGGERS_CONTRACT_NAME METHOD_TRIGGER []) [6].

Lemma second_trigger_accepted_witness :
  validateTransactionsBlockTriggerCompliance context_config
    (mkTxBlock (mkTxHeader 1 42 2 [7] 11 [] [] 3 [9]) []
       [tx_at 9; client_trigger; createTriggerTransaction context_config 11] (mkBlockProof ProofNone [])) = Ok tt.
Proof.
  apply (second_trigger_accepted context_config (mkTxHeader 1 42 2 [7] 11 [] [] 3 [9]) [] (mkBlockProof ProofNone [])
           [tx_at 9] client_trigger); vm_compute; reflexivity.
Defined.

Definition leader2 : service := NewConsensusContext
  (mkTransactionPool (fun _ => Ok ([client_trigger; tx_at 9], 11)) (fun _ _ _ => Ok tt)) vm1 state1 context_config.

Lemma pooled_trigger_rejected_witness :
  exists block, RequestNewTransactionsBlock leader2 new_tx_input = Ok block /\
    ValidateTransactionsBlock validator1 (mkValidateTxInput 2 block [7] 10 [9]) 12 <> Ok tt.
Proof.
  apply (pooled_trigger_rejected leader2 validator1 new_tx_input 12 [client_trigger; tx_at 9] 11 client_trigger [tx_at 9]);
    reflexivity || done || (split_and!; reflexivity).
Defined.
End Witness.

End ConsensusContext.
