(* ===== verification/Encoding.v ===== *)
(** * Encodings, node addresses and the timestamp filter (crypto)

    Hexadecimal strings with a checksum in the case of their letters
    (crypto/encoding), xor by words (crypto/logic), node signatures
    (crypto/digest), and a Bloom filter of timestamps (crypto/bloom). *)

From stdpp Require Import base list.
From Stdlib Require Import ZArith Lia ZifyBool.
From S2P Require Import Prelude Hash Digest.

(** ** Hexadecimal strings (crypto/encoding/hex.go) *)

Definition hex_digit (n : Z) : Z := if n <? 10 then 48 + n else 87 + n.

(** encoding/hex. *)
Definition hex_EncodeToString (data : bytes) : bytes :=
  concat (map (fun b => [hex_digit (b / 16); hex_digit (b mod 16)]) data).

Definition from_hex (c : Z) : option Z :=
  if (48 <=? c) && (c <=? 57) then Some (c - 48)
  else if (97 <=? c) && (c <=? 102) then Some (c - 87)
  else if (65 <=? c) && (c <=? 70) then Some (c - 55)
  else None.

Fixpoint hex_DecodeString (str : bytes) : option bytes :=
  match str with
  | [] => Some []
  | hi :: lo :: rest =>
      match from_hex hi, from_hex lo, hex_DecodeString rest with
      | Some h, Some l, Some data => Some (16 * h + l :: data)
      | _, _, _ => None
      end
  | [_] => None
  end.

(** strings.ToUpper and ToLower, on the letters of hexadecimal strings. *)
Definition to_upper (c : Z) : Z := if (97 <=? c) && (c <=? 122) then c - 32 else c.
Definition to_lower (c : Z) : Z := if (65 <=? c) && (c <=? 90) then c + 32 else c.

(** The character at index [i], upper case when the hash says so. *)
Definition checksum_case (hashed : bytes) (i : nat) (c : Z) : Z :=
  let hashByte := nth ((i / 2) mod SHA256_HASH_SIZE_BYTES) hashed 0 in
  let hashByte := if (i mod 2 =? 0)%nat then Z.shiftr hashByte 4 else Z.land hashByte 15 in
  if (57 <? c) && (7 <? hashByte) then c - 32 else c.

Inductive hex_error := ErrInvalidHex | ErrInvalidChecksum.

Section Hex.
Context `{Sha256}.

Definition EncodeHex (data : bytes) : bytes :=
  [48; 120] ++ imap (checksum_case (CalcSha256 [data])) (hex_EncodeToString data).

(** The data, which is also returned with a checksum error, and the error. *)
Definition DecodeHex (str : bytes) : bytes * option hex_error :=
  let str := match str with 48 :: 120 :: rest => rest | _ => str end in
  match hex_DecodeString str with
  | None => ([], Some ErrInvalidHex)
  | Some data =>
      if bool_decide (drop 2 (EncodeHex data) <> str) then
        if bool_decide (map to_upper str = str) || bool_decide (map to_lower str = str) then (data, None)
        else (data, Some ErrInvalidChecksum)
      else (data, None)
  end.
End Hex.

(** ** Xor (crypto/logic/xor.go) *)

Definition wordSize : nat := 8.

(** The words of the three slices share their arrays with the bytes; a word is
    little endian. *)
Definition xor_word (a b : bytes) (i : nat) : bytes :=
  let word s := le_word (take wordSize (drop (wordSize * i) s)) in
  le_bytes wordSize (Z.lxor (word a) (word b)).

Definition fastXORBytes (a b : bytes) : bytes :=
  let n := Nat.min (length a) (length b) in
  let w := (n / wordSize)%nat in
  concat (map (xor_word a b) (seq 0 w))
    ++ map (fun i => Z.lxor (nth i a 0) (nth i b 0)) (seq (n - n mod wordSize) (n mod wordSize)).

Definition safeXORBytes (a b : bytes) : bytes :=
  map (fun i => Z.lxor (nth i a 0) (nth i b 0)) (seq 0 (Nat.min (length a) (length b))).

Definition CalcXor (supportsUnaligned : bool) (a b : bytes) : bytes :=
  if bool_decide (length a <> length b) then []
  else if supportsUnaligned then fastXORBytes a b else safeXORBytes a b.

(** ** Node addresses and signatures (crypto/digest, crypto/signature)

    Keccak-256 and secp256k1 are libraries: [sign] and [recover] with the prefix
    byte of a public key. *)

Class NodeKeys := {
  CalcKeccak256 : bytes -> bytes;
  secp256k1_Sign : bytes -> bytes -> option bytes;
  secp256k1_RecoverPubkey : bytes -> bytes -> option bytes
}.

Definition ECDSA_SECP256K1_SIGNATURE_SIZE_BYTES : nat := 65.
Definition ECDSA_SECP256K1_PRIVATE_KEY_SIZE_BYTES : nat := 32.
Definition ECDSA_SECP256K1_PUBLIC_KEY_SIZE_BYTES : nat := 64.
Definition DIGEST_NODE_ADDRESS_SIZE_BYTES : nat := 20.

Inductive signature_error := ErrPrivateKey | ErrSignatureSize | ErrRecover | ErrAddressLength | ErrAddressMismatch.

Section NodeSignatures.
Context `{Sha256} `{NodeKeys}.

Definition CalcNodeAddressFromPublicKey (publicKey : bytes) : bytes := drop 12 (CalcKeccak256 publicKey).

Definition SignEcdsaSecp256K1 (privateKey data : bytes) : outcome signature_error bytes :=
  if bool_decide (length privateKey <> ECDSA_SECP256K1_PRIVATE_KEY_SIZE_BYTES) then Err ErrPrivateKey
  else match secp256k1_Sign data privateKey with Some sig => Ok sig | None => Err ErrPrivateKey end.

Definition RecoverEcdsaSecp256K1 (data sig : bytes) : outcome signature_error bytes :=
  if bool_decide (length sig <> ECDSA_SECP256K1_SIGNATURE_SIZE_BYTES) then Err ErrSignatureSize
  else match secp256k1_RecoverPubkey data sig with
       | None => Err ErrRecover
       | Some publicKey =>
           if bool_decide (length publicKey <> ECDSA_SECP256K1_PUBLIC_KEY_SIZE_BYTES + 1)%nat then Err ErrRecover
           else Ok (drop 1 publicKey)
       end.

Definition SignAsNode (privateKey data : bytes) : outcome signature_error bytes :=
  SignEcdsaSecp256K1 privateKey (CalcSha256 [data]).

Definition VerifyNodeSignature (nodeAddress data sig : bytes) : outcome signature_error unit :=
  if bool_decide (length nodeAddress <> DIGEST_NODE_ADDRESS_SIZE_BYTES) then Err ErrAddressLength
  else
    let! publicKey := RecoverEcdsaSecp256K1 (CalcSha256 [data]) sig in
    if bool_decide (nodeAddress <> CalcNodeAddressFromPublicKey publicKey) then Err ErrAddressMismatch else Ok tt.
End NodeSignatures.

(** ** The timestamp filter (crypto/bloom/timestamp.go) *)

Module Bloom.

Record TimestampBloomFilter := mkBloom { bitset : list bool; bf_size : Z; bitCount : Z }.

Definition FNVMagicNumber : Z := 0xAF63BD4C8601B7DF.

Definition nextHighPowerOfTwo (n : Z) : Z :=
  let n := u32_sub n 1 in
  let n := Z.lor n (Z.shiftr n 1) in
  let n := Z.lor n (Z.shiftr n 2) in
  let n := Z.lor n (Z.shiftr n 4) in
  let n := Z.lor n (Z.shiftr n 8) in
  let n := Z.lor n (Z.shiftr n 16) in
  u32_add n 1.

(** The loop halves a 32-bit number, so 32 rounds end it. *)
Fixpoint count_bits (fuel : nat) (n c : Z) : Z :=
  match fuel with
  | O => c
  | S fuel => if 1 <? n then count_bits fuel (Z.shiftr n 1) (wrap 8 (c + 1)) else c
  end.
Definition countPowerOfTwoBit (n : Z) : Z := count_bits 32 n 0.

Definition New (size : Z) : TimestampBloomFilter :=
  let roundedSize := nextHighPowerOfTwo (wrap 32 size) in
  mkBloom (replicate (Z.to_nat roundedSize) false) roundedSize (countPowerOfTwoBit roundedSize).

(** The bits of a byte, the highest first. *)
Definition byte_bits (b : Z) : list bool :=
  map (fun j => negb (Z.land b (Z.shiftl 1 (7 - Z.of_nat j)) =? 0)) (seq 0 8).

Definition NewFromRaw (raw : bytes) : TimestampBloomFilter :=
  let size := wrap 32 (Z.of_nat (length raw) * 8) in
  mkBloom (concat (map byte_bits raw)) size (countPowerOfTwoBit size).

(** A shift by 64 or more gives zero. *)
Definition hash (bf : TimestampBloomFilter) (v : Z) : Z :=
  let shift := wrap 8 (64 - bitCount bf) in
  Z.shiftr (wrap 64 (Z.shiftl (Z.lxor FNVMagicNumber v) shift)) shift.

(** An index out of range panics. *)
Definition Add (bf : TimestampBloomFilter) (timeStamp : Z) : outcome unit TimestampBloomFilter :=
  let loc := Z.to_nat (hash bf timeStamp) in
  if bool_decide (loc < length (bitset bf))%nat
  then Ok (mkBloom (<[loc := true]> (bitset bf)) (bf_size bf) (bitCount bf)) else Panic.

Definition Test (bf : TimestampBloomFilter) (timeStamp : Z) : outcome unit bool :=
  match bitset bf !! Z.to_nat (hash bf timeStamp) with
  | Some b => Ok b
  | None => Panic
  end.

Definition boolSliceToByte (slice : list bool) : Z :=
  if (8 <? length slice)%nat then 0
  else
    let l := Z.of_nat (length slice) - 1 in
    foldl (fun r '(i, b) => if (b : bool) then Z.lor r (wrap 8 (Z.shiftl 1 (l - Z.of_nat i))) else r) 0
      (imap (fun i b => (i, b)) slice).

Definition Raw (bf : TimestampBloomFilter) : bytes :=
  let byteCount := if bf_size bf <=? 8 then 1%nat else Z.to_nat (bf_size bf / 8) in
  map (fun i => boolSliceToByte (take (Nat.min ((i + 1) * 8) (length (bitset bf)) - i * 8) (drop (i * 8) (bitset bf))))
    (seq 0 byteCount).

(** The second filter has as many bits as its size says. *)
Definition Equals (bf other : TimestampBloomFilter) : bool :=
  if negb (bf_size bf =? bf_size other) then false else bool_decide (bitset bf = bitset other).

(** *** Sizes *)

(** [x] has a bit where [y] has one within the [k] bits above. *)
Definition smeared (k : Z) (x y : Z) : Prop :=
  forall i, 0 <= i -> Z.testbit x i = true <-> exists j, i <= j < i + k /\ Z.testbit y j = true.

Lemma smear_step k x y : 0 < k -> smeared k x y -> smeared (2 * k) (Z.lor x (Z.shiftr x k)) y.
Proof.
  intros Hk Hx i Hi. rewrite Z.lor_spec, Z.shiftr_spec, orb_true_iff by done. rewrite (Hx i), (Hx (i + k)) by lia. split.
  - intros [(j & Hj & Hb)|(j & Hj & Hb)]; exists j; split; (done || lia).
  - intros (j & Hj & Hb). destruct (Z_lt_le_dec j (i + k)); [left|right]; exists j; split; (done || lia).
Qed.

Lemma smeared_ones x y : 0 < y < 2 ^ 32 -> 0 <= x -> smeared 32 x y -> x = Z.ones (Z.log2 y + 1).
Proof.
  intros Hy Hx Hs. pose proof (Z.log2_nonneg y) as Hl.
  assert (Z.log2 y < 32) by (apply Z.log2_lt_pow2; lia).
  apply Z.bits_inj'. intros i Hi. rewrite Z.testbit_ones_nonneg by lia. apply eq_true_iff_eq. rewrite (Hs i) by done.
  rewrite Z.ltb_lt. split.
  - intros (j & Hj & Hb). destruct (Z_lt_le_dec (Z.log2 y) j); [|lia].
    rewrite Z.bits_above_log2 in Hb; (done || lia).
  - intros Hlt. exists (Z.log2 y). split; [lia|]. apply Z.bit_log2. lia.
Qed.

Lemma lor_shiftr_nonneg x k : 0 <= x -> 0 <= Z.lor x (Z.shiftr x k).
Proof. intros Hx. rewrite Z.lor_nonneg, Z.shiftr_nonneg. done. Qed.

Lemma nextHighPowerOfTwo_spec n :
  2 <= n <= 2 ^ 31 -> nextHighPowerOfTwo n = 2 ^ (Z.log2 (n - 1) + 1).
Proof.
  intros Hn. unfold nextHighPowerOfTwo. rewrite u32_sub_small by lia. set (y := n - 1).
  assert (smeared 1 y y) as H1.
  { intros i Hi. split; [exists i; split; [lia|done]|]. intros (j & Hj & Hb). by replace i with j by lia. }
  do 5 (apply smear_step in H1; [|lia]). simpl in H1.
  match goal with |- u32_add ?x 1 = _ => assert (0 <= x) as Hx by (repeat apply lor_shiftr_nonneg; lia) end.
  rewrite (smeared_ones _ y ltac:(lia) Hx H1), Z.ones_equiv.
  assert (2 ^ (Z.log2 y + 1) <= 2 ^ 31).
  { apply Z.pow_le_mono_r; [lia|]. assert (Z.log2 y < 31) by (apply Z.log2_lt_pow2; lia). lia. }
  pose proof (Z.pow_pos_nonneg 2 (Z.log2 y + 1)). pose proof (Z.log2_nonneg y).
  unfold u32_add, wrap. rewrite Z.mod_small; lia.
Qed.

Lemma count_bits_pow fuel k c :
  0 <= k < Z.of_nat fuel -> 0 <= c -> c + k < 256 -> count_bits fuel (2 ^ k) c = c + k.
Proof.
  revert k c. induction fuel as [|fuel IH]; intros k c Hk Hc Hb; [lia|]. cbn [count_bits].
  destruct (decide (k = 0)) as [->|Hne]; [simpl; lia|].
  assert (1 < 2 ^ k) by (apply Z.pow_gt_1; lia). lia_if.
  replace (2 ^ k) with (2 ^ (k - 1) * 2 ^ 1) by (rewrite <- Z.pow_add_r by lia; f_equal; lia).
  rewrite Z.shiftr_div_pow2, Z.div_mul by lia. unfold wrap. rewrite Z.mod_small by lia. rewrite IH; lia.
Qed.

(** A filter of [2 ^ k] bits. *)
Record bloom_ok (bf : TimestampBloomFilter) (k : Z) : Prop := {
  bo_k : 0 <= k <= 31;
  bo_count : bitCount bf = k;
  bo_size : bf_size bf = 2 ^ k;
  bo_bits : Z.of_nat (length (bitset bf)) = 2 ^ k
}.

(** A new filter has a power of two of bits, at least the size asked for and
    less than twice that. *)
Theorem New_size size :
  1 <= size <= 2 ^ 31 -> exists k, bloom_ok (New size) k /\ size <= bf_size (New size) < 2 * size.
Proof.
  intros Hs. unfold New. replace (wrap 32 size) with size by (unfold wrap; rewrite Z.mod_small; lia).
  assert (exists k, 0 <= k <= 31 /\ nextHighPowerOfTwo size = 2 ^ k /\ size <= 2 ^ k < 2 * size) as (k & Hk & -> & Hb).
  { destruct (decide (size = 1)) as [->|Hne]; [exists 0; split; [lia|]; vm_compute; done|].
    exists (Z.log2 (size - 1) + 1). rewrite nextHighPowerOfTwo_spec by lia.
    pose proof (Z.log2_nonneg (size - 1)). assert (Z.log2 (size - 1) < 31) by (apply Z.log2_lt_pow2; lia).
    pose proof (Z.log2_spec (size - 1) ltac:(lia)) as [? ?]. rewrite Z.pow_succ_r, Z.pow_add_r in * by lia. lia. }
  exists k. pose proof (Z.pow_pos_nonneg 2 k). split; [split; simpl|simpl; lia]; try done.
  - unfold countPowerOfTwoBit. rewrite count_bits_pow; lia.
  - rewrite length_replicate. lia.
Qed.

Lemma hash_bound bf k v : bloom_ok bf k -> 0 <= hash bf v < 2 ^ k.
Proof.
  intros [Hk Hc _ _]. unfold hash. rewrite Hc. replace (wrap 8 (64 - k)) with (64 - k) by (unfold wrap; rewrite Z.mod_small; lia).
  rewrite Z.shiftr_div_pow2 by lia. unfold wrap. pose proof (Z.mod_pos_bound (Z.shiftl (Z.lxor FNVMagicNumber v) (64 - k)) (2 ^ 64)).
  pose proof (Z.pow_pos_nonneg 2 (64 - k)). split; [apply Z.div_pos; lia|]. apply Z.div_lt_upper_bound; [lia|].
  rewrite <- Z.pow_add_r by lia. replace (64 - k + k) with 64 by lia. lia.
Qed.

(** Adding never indexes out of range, and the filter has no false negative:
    a timestamp that was added tests true whatever is added later. *)
Theorem Add_Test bf k t :
  bloom_ok bf k ->
  exists bf', Add bf t = Ok bf' /\ bloom_ok bf' k /\ Test bf' t = Ok true /\
    forall v, Test bf v = Ok true -> Test bf' v = Ok true.
Proof.
  intros Hok. pose proof (hash_bound bf k t Hok) as Hh. pose proof Hok as [Hk Hc Hs Hb].
  assert (Z.to_nat (hash bf t) < length (bitset bf))%nat as Hlt by lia.
  unfold Add. rewrite bool_decide_true by done. eexists. split; [reflexivity|].
  split; [split; simpl; rewrite ?length_insert; done|]. unfold Test.
  change (hash (mkBloom (<[Z.to_nat (hash bf t) := true]> (bitset bf)) (bf_size bf) (bitCount bf))) with (hash bf).
  cbn [bitset]. split; [by rewrite list_lookup_insert_eq|].
  intros v. destruct (decide (Z.to_nat (hash bf t) = Z.to_nat (hash bf v))) as [<-|Hne].
  - by rewrite list_lookup_insert_eq.
  - by rewrite list_lookup_insert_ne.
Qed.

(** *** The raw filter *)

Lemma byte_bits_slice l : length l = 8%nat -> byte_bits (boolSliceToByte l) = l.
Proof.
  intros Hl. do 8 (destruct l as [|[] l]; try discriminate Hl). all: destruct l; [vm_compute; reflexivity|discriminate Hl].
Qed.

Lemma chunks_concat (l : list bool) m :
  length l = (8 * m)%nat ->
  concat (map (fun i => take (Nat.min ((i + 1) * 8) (length l) - i * 8) (drop (i * 8) l)) (seq 0 m)) = l.
Proof.
  intros Hl. enough (forall n, (n <= m)%nat ->
    concat (map (fun i => take (Nat.min ((i + 1) * 8) (length l) - i * 8) (drop (i * 8) l)) (seq 0 n)) = take (8 * n) l) as Hc.
  { rewrite Hc by done. by rewrite <- Hl, firstn_all. }
  induction n as [|n IH]; intros Hn; [done|]. rewrite seq_S, map_app, concat_app, IH by lia. cbn [map concat].
  rewrite app_nil_r. replace (Nat.min ((0 + n + 1) * 8) (length l) - (0 + n) * 8)%nat with 8%nat by lia.
  replace (8 * S n)%nat with (8 * n + 8)%nat by lia. replace ((0 + n) * 8)%nat with (8 * n)%nat by lia.
  by rewrite take_take_drop.
Qed.

Lemma pow2_eight k : 3 <= k -> 2 ^ k = 8 * 2 ^ (k - 3) /\ 0 < 2 ^ (k - 3).
Proof.
  intros Hk. split; [|apply Z.pow_pos_nonneg; lia]. change 8 with (2 ^ 3). rewrite <- Z.pow_add_r by lia. f_equal. lia.
Qed.

Lemma raw_length bf k :
  bloom_ok bf k -> 3 <= k ->
  exists m, Raw bf = map (fun i => boolSliceToByte (take (Nat.min ((i + 1) * 8) (length (bitset bf)) - i * 8)
                            (drop (i * 8) (bitset bf)))) (seq 0 m) /\ length (bitset bf) = (8 * m)%nat.
Proof.
  intros [Hk Hc Hs Hb] H3. destruct (pow2_eight k H3) as [E Hp]. exists (Z.to_nat (2 ^ (k - 3))).
  split; [|lia]. unfold Raw. f_equal. f_equal. rewrite Hs, E. case_match; [|rewrite Z.mul_comm, Z.div_mul; lia].
  assert (2 ^ (k - 3) = 1) as -> by lia. done.
Qed.

(** A filter of at least eight bits is read back from its raw bytes. *)
Theorem NewFromRaw_Raw bf k : bloom_ok bf k -> 3 <= k -> NewFromRaw (Raw bf) = bf.
Proof.
  intros Hok H3. destruct (raw_length bf k Hok H3) as (m & -> & Hm). pose proof Hok as [Hk Hc Hs Hb].
  destruct (pow2_eight k H3) as [E Hp].
  assert (2 ^ k <= 2 ^ 31) by (apply Z.pow_le_mono_r; lia).
  unfold NewFromRaw. rewrite length_map, length_seq, map_map.
  replace (wrap 32 (Z.of_nat m * 8)) with (2 ^ k) by (unfold wrap; rewrite Z.mod_small; lia).
  rewrite (map_ext_in _ (fun i => take (Nat.min ((i + 1) * 8) (length (bitset bf)) - i * 8) (drop (i * 8) (bitset bf)))).
  - rewrite chunks_concat by done. unfold countPowerOfTwoBit. rewrite count_bits_pow by lia.
    destruct bf. simpl in *. subst. done.
  - intros i [_ Hi]%in_seq. apply byte_bits_slice. rewrite length_take, length_drop. lia.
Qed.

(** With fewer bits it is not: a timestamp that was added no longer tests true. *)
Example small_filter_lost :
  exists bf, Add (New 4) 4 = Ok bf /\ Test bf 4 = Ok true /\ Test (NewFromRaw (Raw bf)) 4 = Ok false.
Proof. eexists. split; [vm_compute; reflexivity|]. split; vm_compute; reflexivity. Qed.

Lemma New_size_witness : exists k, bloom_ok (New 1000) k /\ 1000 <= bf_size (New 1000) < 2 * 1000.
Proof. apply (New_size 1000). lia. Defined.

Lemma new_ok_8 : bloom_ok (New 8) 3.
Proof. split; vm_compute; (done || split; discriminate). Qed.

Lemma Add_Test_witness : exists bf', Add (New 8) 42 = Ok bf' /\ Test bf' 42 = Ok true.
Proof. destruct (Add_Test (New 8) 3 42 new_ok_8) as (bf' & E & _ & Ht & _). exists bf'. split; [exact E|exact Ht]. Defined.

Lemma NewFromRaw_Raw_witness : NewFromRaw (Raw (New 8)) = New 8.
Proof. apply (NewFromRaw_Raw (New 8) 3); [apply new_ok_8|lia]. Defined.
End Bloom.

(** ** Hexadecimal round trip *)

Lemma nibbles b : 0 <= b < 256 -> 0 <= b / 16 < 16 /\ 0 <= b mod 16 < 16 /\ b = 16 * (b / 16) + b mod 16.
Proof.
  intros Hb. pose proof (Z.div_mod b 16 ltac:(lia)). pose proof (Z.mod_pos_bound b 16 ltac:(lia)). lia.
Qed.

Lemma lower_digits data :
  valid_bytes data -> Forall (fun c => 48 <= c <= 57 \/ 97 <= c <= 102) (hex_EncodeToString data).
Proof.
  induction 1 as [|b data Hb _ IH]; [constructor|]. unfold hex_EncodeToString. cbn [map concat app].
  destruct (nibbles b Hb) as (Hhi & Hlo & _). unfold hex_digit at 1 2.
  constructor; [case_match; lia|]. constructor; [case_match; lia|exact IH].
Qed.

Lemma checksum_digit hashed i n : 0 <= n < 16 -> from_hex (checksum_case hashed i (hex_digit n)) = Some n.
Proof.
  intros Hn. unfold checksum_case, hex_digit, from_hex. cbv zeta. destruct (7 <? _).
  - destruct (n <? 10) eqn:E; repeat lia_if; f_equal; lia.
  - destruct (n <? 10) eqn:E; repeat lia_if; f_equal; lia.
Qed.

Lemma decode_cased (f : nat -> Z -> Z) data :
  (forall i n, 0 <= n < 16 -> from_hex (f i (hex_digit n)) = Some n) -> valid_bytes data ->
  hex_DecodeString (imap f (hex_EncodeToString data)) = Some data.
Proof.
  revert f. induction data as [|b data IH]; intros f Hf Hv; [done|].
  apply Forall_cons in Hv as [Hb Hv]. unfold hex_EncodeToString. cbn [map concat app]. rewrite !imap_cons.
  cbn [hex_DecodeString]. pose proof (nibbles b Hb) as (Hhi & Hlo & Eb). rewrite !Hf by done.
  fold (hex_EncodeToString data). rewrite (IH (f ∘ S ∘ S)); [|intros i n Hn; by apply Hf|done].
  unfold compose. rewrite Hf by done. congruence.
Qed.

Lemma hex_roundtrip data : valid_bytes data -> hex_DecodeString (hex_EncodeToString data) = Some data.
Proof.
  intros Hv. etrans; [|apply (decode_cased (fun _ c => c) data)].
  - f_equal. symmetry. generalize (hex_EncodeToString data). induction l as [|c l IH]; [done|].
    rewrite imap_cons. f_equal. exact IH.
  - intros _ n Hn. unfold hex_digit, from_hex. destruct (n <? 10) eqn:E; repeat lia_if; f_equal; lia.
  - done.
Qed.

Lemma hex_EncodeToString_inj data data' :
  valid_bytes data -> valid_bytes data' -> hex_EncodeToString data = hex_EncodeToString data' -> data = data'.
Proof. intros Hv Hv' Hh. apply hex_roundtrip in Hv, Hv'. congruence. Qed.

(** Hexadecimal strings round trip: what EncodeHex writes, DecodeHex reads back
    without an error, and any other spelling of it in one case as well. *)
Theorem DecodeHex_EncodeHex `{Sha256} data :
  valid_bytes data ->
  DecodeHex (EncodeHex data) = (data, None) /\ DecodeHex (hex_EncodeToString data) = (data, None).
Proof.
  intros Hv. split.
  - unfold DecodeHex at 1. unfold EncodeHex at 1. cbn [app].
    rewrite decode_cased by (done || intros; by apply checksum_digit).
    by rewrite bool_decide_false by (unfold EncodeHex; auto).
  - pose proof (hex_roundtrip data Hv) as Hd.
    pose proof (lower_digits data Hv) as Hlow. unfold DecodeHex.
    replace (match hex_EncodeToString data with 48 :: 120 :: rest => rest | _ => hex_EncodeToString data end)
      with (hex_EncodeToString data).
    + rewrite Hd. case_bool_decide; [|done].
      rewrite (bool_decide_true (map to_lower _ = _)), orb_true_r; [done|].
      rewrite <- (map_id (hex_EncodeToString data)) at 2. apply map_ext_in. intros c Hc.
      rewrite Forall_forall in Hlow. specialize (Hlow c (proj2 (list_elem_of_In _ _) Hc)). unfold to_lower. by lia_if.
    + destruct Hlow as [|c l Hc [|c' l' Hc' _]]; [done|by repeat case_match|].
      by repeat case_match.
Qed.

Lemma DecodeHex_EncodeHex_witness :
  DecodeHex (H:=crypto_sha256) (EncodeHex (H:=crypto_sha256) [171; 205; 239; 1]) = ([171; 205; 239; 1], None).
Proof. apply (DecodeHex_EncodeHex (H:=crypto_sha256) [171; 205; 239; 1]). repeat constructor; lia. Defined.

(** Decoding gives bytes, also with a wrong checksum. *)
Lemma DecodeHex_valid `{Sha256} str : valid_bytes (DecodeHex str).1.
Proof.
  unfold DecodeHex. set (s := match str with 48 :: 120 :: rest => rest | _ => str end).
  assert (forall n l data, (length l <= n)%nat -> hex_DecodeString l = Some data -> valid_bytes data) as Hdec.
  { induction n as [|n IH]; intros [|hi [|lo l]] data Hl; simpl in *; try lia; try done; try by intros [= <-]; constructor.
    destruct (from_hex hi) as [h|] eqn:Eh, (from_hex lo) as [k|] eqn:Ek, (hex_DecodeString l) as [d|] eqn:Ed; try done.
    intros [= <-]. constructor; [|eapply IH; [|done]; lia].
    unfold from_hex in *. repeat case_match; simplify_eq; lia. }
  destruct (hex_DecodeString s) as [data|] eqn:E; [|constructor].
  specialize (Hdec _ s data (le_n _) E). by repeat case_match.
Qed.

(** ** Xor by words *)

Lemma byte_word_bit a A i :
  0 <= a < 256 -> 0 <= i ->
  Z.testbit (a + 256 * A) i = if i <? 8 then Z.testbit a i else Z.testbit A (i - 8).
Proof.
  intros Ha Hi. assert ((a + 256 * A) mod 2 ^ 8 = a /\ (a + 256 * A) / 2 ^ 8 = A) as [Em Ed].
  { change (2 ^ 8) with 256. rewrite (Z.mul_comm 256), Z.div_add, Z.mod_add by lia.
    split; [apply Z.mod_small; lia|]. rewrite Z.div_small; lia. }
  case_match.
  - transitivity (Z.testbit ((a + 256 * A) mod 2 ^ 8) i); [by rewrite Z.mod_pow2_bits_low by lia|by rewrite Em].
  - transitivity (Z.testbit ((a + 256 * A) / 2 ^ 8) (i - 8)); [|by rewrite Ed].
    rewrite Z.div_pow2_bits by lia. f_equal. lia.
Qed.

Lemma lxor_byte x y : 0 <= x < 256 -> 0 <= y < 256 -> 0 <= Z.lxor x y < 256.
Proof.
  intros Hx Hy. assert (0 <= Z.lxor x y) by (apply Z.lxor_nonneg; lia). split; [done|].
  destruct (Z.eq_dec (Z.lxor x y) 0) as [->|Hne]; [lia|].
  change 256 with (2 ^ 8). apply Z.log2_lt_pow2; [lia|].
  pose proof (Z.log2_lxor x y ltac:(lia) ltac:(lia)).
  assert (forall z, 0 <= z < 256 -> Z.log2 z < 8) as Hlog.
  { intros z Hz. destruct (Z.eq_dec z 0) as [->|]; [simpl; lia|]. apply Z.log2_lt_pow2; lia. }
  pose proof (Hlog x Hx). pose proof (Hlog y Hy). lia.
Qed.

Lemma lxor_low x y X Y :
  0 <= x < 256 -> 0 <= y < 256 ->
  Z.lxor (x + 256 * X) (y + 256 * Y) = Z.lxor x y + 256 * Z.lxor X Y.
Proof.
  intros Hx Hy. apply Z.bits_inj'. intros i Hi.
  rewrite Z.lxor_spec, !byte_word_bit by (done || by apply lxor_byte). case_match; by rewrite Z.lxor_spec.
Qed.

(** Xor of two little endian words is xor of their bytes. *)
Lemma le_lxor a b :
  length a = length b -> valid_bytes a -> valid_bytes b ->
  le_bytes (length a) (Z.lxor (le_word a) (le_word b)) = zip_with Z.lxor a b.
Proof.
  revert b. induction a as [|x a IH]; intros [|y b] Hl Ha Hb; simpl in *; try done.
  apply Forall_cons in Ha as [Hx Ha], Hb as [Hy Hb]. rewrite lxor_low by done.
  pose proof (lxor_byte x y Hx Hy). rewrite (Z.mul_comm 256), Z.div_add, Z.mod_add, Z.div_small, Z.mod_small by lia.
  f_equal. rewrite Z.add_0_l. apply IH; [lia|done|done].
Qed.

Lemma nth_zip a b i : length a = length b -> nth i (zip_with Z.lxor a b) 0 = Z.lxor (nth i a 0) (nth i b 0).
Proof.
  revert b i. induction a as [|x a IH]; intros [|y b] i Hl; simpl in *; try done; [by destruct i|].
  destruct i; [done|]. apply IH. lia.
Qed.

(** The word at [i] is the bytes from [8 * i]. *)
Lemma xor_word_bytes a b i :
  valid_bytes a -> valid_bytes b -> (8 * i + 8 <= length a)%nat -> (8 * i + 8 <= length b)%nat ->
  xor_word a b i = map (fun j => Z.lxor (nth j a 0) (nth j b 0)) (seq (8 * i) 8).
Proof.
  intros Ha Hb Hla Hlb. unfold xor_word, wordSize.
  assert (length (take 8 (drop (8 * i) a)) = 8%nat) as Ea by (rewrite length_take, length_drop; lia).
  assert (length (take 8 (drop (8 * i) b)) = 8%nat) as Eb by (rewrite length_take, length_drop; lia).
  pose proof (le_lxor (take 8 (drop (8 * i) a)) (take 8 (drop (8 * i) b)) ltac:(congruence)
    ltac:(by apply Forall_take, Forall_drop) ltac:(by apply Forall_take, Forall_drop)) as E.
  rewrite Ea in E. rewrite E.
  apply (nth_ext _ _ 0 0); [rewrite length_zip_with, length_map, length_seq; lia|].
  intros j Hj. rewrite length_zip_with, Ea, Eb in Hj. rewrite nth_zip by congruence.
  set (g := fun j => Z.lxor (nth j a 0) (nth j b 0)).
  rewrite (nth_indep (map g (seq (8 * i) 8)) 0 (g 0%nat)) by (rewrite length_map, length_seq; lia).
  rewrite (map_nth g), seq_nth by lia. unfold g.
  rewrite !nth_firstn. rewrite (proj2 (Nat.ltb_lt j 8)) by lia. by rewrite !nth_skipn.
Qed.

(** The xor by words gives what the xor by bytes gives, on every two slices. *)
Theorem fastXORBytes_safe a b : valid_bytes a -> valid_bytes b -> fastXORBytes a b = safeXORBytes a b.
Proof.
  intros Ha Hb. unfold fastXORBytes, safeXORBytes. set (n := Nat.min (length a) (length b)). cbv zeta.
  set (g := fun i => Z.lxor (nth i a 0) (nth i b 0)).
  pose proof (Nat.div_mod n wordSize ltac:(done)) as Hn. unfold wordSize in *.
  assert (forall w, (8 * w <= n)%nat -> concat (map (xor_word a b) (seq 0 w)) = map g (seq 0 (8 * w))) as Hw.
  { induction w as [|w IH]; intros Hle; [done|]. rewrite seq_S, map_app, concat_app, IH by lia.
    replace (8 * S w)%nat with (8 * w + 8)%nat by lia. rewrite seq_app, map_app. f_equal.
    cbn [map concat]. rewrite app_nil_r. apply xor_word_bytes; [done|done|lia|lia]. }
  rewrite Hw by lia. rewrite <- map_app. f_equal.
  replace (n - n mod 8)%nat with (0 + 8 * (n / 8))%nat by lia. rewrite <- seq_app. f_equal. lia.
Qed.

Lemma fastXORBytes_safe_witness :
  fastXORBytes (map Z.of_nat (seq 0 11)) (map Z.of_nat (seq 200 11))
  = safeXORBytes (map Z.of_nat (seq 0 11)) (map Z.of_nat (seq 200 11)).
Proof. apply fastXORBytes_safe; repeat constructor; lia. Defined.
