(* ===== verification/TransientState.v ===== *)
(** * Transient state of a transaction (services/virtualmachine/transient_state.go)

    The values a transaction read or wrote, by contract and key, in the order of
    first use; the writes of a successful transaction are merged into the state
    of its batch, from which the state diffs of the block are made. *)

From stdpp Require Import base gmap list.
From Stdlib Require Import ZArith Lia.
From S2P Require Import Prelude Protocol StateStorage StateStorageService.

Record keyValuePair := mkPair { kv_key : bytes; kv_value : bytes; kv_isDirty : bool }.

Record contractTransientState := mkContractState {
  pairs : gmap bytes keyValuePair;
  keySortOrder : list bytes
}.

Record transientState := mkTransient {
  contracts : gmap bytes contractTransientState;
  contractSortOrder : list bytes
}.

Definition newTransientState : transientState := mkTransient ∅ [].

Definition getValue (t : transientState) (contract key : bytes) : option bytes :=
  match contracts t !! contract with
  | None => None
  | Some c => kv_value <$> pairs c !! key
  end.

Definition setValue (t : transientState) (contract key value : bytes) (isDirty : bool) : transientState :=
  let '(c, order) :=
    match contracts t !! contract with
    | Some c => (c, contractSortOrder t)
    | None => (mkContractState ∅ [], contractSortOrder t ++ [contract])
    end in
  let c :=
    match pairs c !! key with
    | Some kv => mkContractState (<[key := mkPair (kv_key kv) value isDirty]> (pairs c)) (keySortOrder c)
    | None => mkContractState (<[key := mkPair key value isDirty]> (pairs c)) (keySortOrder c ++ [key])
    end in
  mkTransient (<[contract := c]> (contracts t)) order.

(** The pairs [forDirty] calls its function with, in order.  A key without a pair
    would be a nil dereference; [keySortOrder] has no such key ([state_ok]). *)
Definition forDirty (t : transientState) (contract : bytes) : list (bytes * bytes) :=
  match contracts t !! contract with
  | None => []
  | Some c =>
      omap (fun key =>
              match pairs c !! key with
              | Some kv => if kv_isDirty kv then Some (kv_key kv, kv_value kv) else None
              | None => None
              end) (keySortOrder c)
  end.

Definition mergeIntoTransientState (t masterTransientState : transientState) : transientState :=
  foldl (fun master contractName =>
           foldl (fun master '(key, value) => setValue master contractName key value true)
             master (forDirty t contractName))
    masterTransientState (contractSortOrder t).

(** ** State diffs (execution.go) *)

Definition encodeBatchTransientStateToStateDiffs (batch : transientState) : list ContractStateDiff :=
  omap (fun contractName =>
          let stateDiffs := map (fun '(key, value) => mkStateRecord key value) (forDirty batch contractName) in
          if bool_decide (stateDiffs = []) then None
          else Some (mkContractStateDiff contractName stateDiffs))
    (contractSortOrder batch).

(** ** Contents *)

Definition lookup_pair (t : transientState) (c k : bytes) : option keyValuePair :=
  contracts t !! c ≫= fun s => pairs s !! k.

(** The value written, and the value read and cached. *)
Definition dirty_value (t : transientState) (c k : bytes) : option bytes :=
  lookup_pair t c k ≫= fun kv => if kv_isDirty kv then Some (kv_value kv) else None.
Definition clean_value (t : transientState) (c k : bytes) : option bytes :=
  lookup_pair t c k ≫= fun kv => if kv_isDirty kv then None else Some (kv_value kv).

Record contract_ok (s : contractTransientState) : Prop := {
  co_nodup : NoDup (keySortOrder s);
  co_order k : k ∈ keySortOrder s <-> is_Some (pairs s !! k);
  co_key k kv : pairs s !! k = Some kv -> kv_key kv = k
}.

(** The orders list each contract and each key once, and no others. *)
Record state_ok (t : transientState) : Prop := {
  so_nodup : NoDup (contractSortOrder t);
  so_order c : c ∈ contractSortOrder t <-> is_Some (contracts t !! c);
  so_contract c s : contracts t !! c = Some s -> contract_ok s
}.

Lemma new_ok : state_ok newTransientState.
Proof. split; cbn; [apply NoDup_nil_2|intros c; rewrite lookup_empty; set_solver|done]. Qed.

Lemma getValue_lookup t c k : getValue t c k = kv_value <$> lookup_pair t c k.
Proof. unfold getValue, lookup_pair. by destruct (contracts t !! c). Qed.

Lemma getValue_cases t c k :
  getValue t c k = match dirty_value t c k with Some v => Some v | None => clean_value t c k end.
Proof.
  rewrite getValue_lookup. unfold dirty_value, clean_value.
  destruct (lookup_pair t c k) as [[k' v []]|]; done.
Qed.

Lemma contract_ok_set s k v d :
  contract_ok s ->
  contract_ok (match pairs s !! k with
    | Some kv => mkContractState (<[k := mkPair (kv_key kv) v d]> (pairs s)) (keySortOrder s)
    | None => mkContractState (<[k := mkPair k v d]> (pairs s)) (keySortOrder s ++ [k])
    end).
Proof.
  intros [Hnd Hord Hkey]. destruct (pairs s !! k) as [kv|] eqn:E; split; cbn.
  - done.
  - intros k'. rewrite Hord. destruct (decide (k' = k)) as [->|]; [rewrite lookup_insert_eq, E|rewrite lookup_insert_ne by done]; naive_solver.
  - intros k' kv'. destruct (decide (k' = k)) as [->|]; [rewrite lookup_insert_eq|rewrite lookup_insert_ne by done; apply Hkey].
    intros [= <-]. cbn. by apply Hkey.
  - apply NoDup_app. split_and!; [done| |apply NoDup_singleton].
    intros x Hx%Hord ->%list_elem_of_singleton. rewrite E in Hx. by destruct Hx.
  - intros k'. rewrite elem_of_app, list_elem_of_singleton, Hord.
    destruct (decide (k' = k)) as [->|]; [rewrite lookup_insert_eq|rewrite lookup_insert_ne by done]; naive_solver.
  - intros k' kv'. destruct (decide (k' = k)) as [->|]; [rewrite lookup_insert_eq|rewrite lookup_insert_ne by done; apply Hkey].
    by intros [= <-].
Qed.

Lemma empty_contract_ok : contract_ok (mkContractState ∅ []).
Proof. split; cbn; [apply NoDup_nil_2|intros k; rewrite lookup_empty; set_solver|done]. Qed.

Lemma setValue_ok t c k v d : state_ok t -> state_ok (setValue t c k v d).
Proof.
  intros [Hnd Hord Hc]. unfold setValue. destruct (contracts t !! c) as [s|] eqn:E.
  - pose proof (contract_ok_set s k v d (Hc _ _ E)) as Hs. split; cbn; [done|..].
    + intros c'. rewrite Hord. destruct (decide (c' = c)) as [->|]; [rewrite lookup_insert_eq, E|rewrite lookup_insert_ne by done]; naive_solver.
    + intros c' s'. destruct (decide (c' = c)) as [->|]; [rewrite lookup_insert_eq|rewrite lookup_insert_ne by done; apply Hc]. by intros [= <-].
  - pose proof (contract_ok_set _ k v d empty_contract_ok) as Hs. split; cbn.
    + apply NoDup_app. split_and!; [done| |apply NoDup_singleton].
      intros x Hx%Hord ->%list_elem_of_singleton. rewrite E in Hx. by destruct Hx.
    + intros c'. rewrite elem_of_app, list_elem_of_singleton, Hord.
      destruct (decide (c' = c)) as [->|]; [rewrite lookup_insert_eq|rewrite lookup_insert_ne by done]; naive_solver.
    + intros c' s'. destruct (decide (c' = c)) as [->|]; [rewrite lookup_insert_eq|rewrite lookup_insert_ne by done; apply Hc]. by intros [= <-].
Qed.

Lemma lookup_setValue t c k v d c' k' :
  state_ok t ->
  lookup_pair (setValue t c k v d) c' k' =
  if decide (c' = c /\ k' = k) then Some (mkPair k v d) else lookup_pair t c' k'.
Proof.
  intros [_ _ Hc]. unfold lookup_pair, setValue.
  destruct (contracts t !! c) as [s|] eqn:E; cbn.
  - destruct (decide (c' = c)) as [->|Hne].
    + rewrite lookup_insert_eq, E. cbn. destruct (pairs s !! k) as [kv|] eqn:Ek; cbn.
      * destruct (decide (k' = k)) as [->|]; [|rewrite lookup_insert_ne, decide_False by naive_solver; done].
        rewrite lookup_insert_eq, decide_True by done. by rewrite (co_key s (Hc _ _ E) k kv Ek).
      * destruct (decide (k' = k)) as [->|]; [by rewrite lookup_insert_eq, decide_True|].
        by rewrite lookup_insert_ne, decide_False by naive_solver.
    + by rewrite lookup_insert_ne, decide_False by naive_solver.
  - rewrite lookup_empty. destruct (decide (c' = c)) as [->|Hne]; cbn.
    + rewrite lookup_insert_eq, E. cbn. destruct (decide (k' = k)) as [->|].
      * by rewrite lookup_insert_eq, decide_True.
      * rewrite lookup_insert_ne, decide_False by naive_solver. by rewrite lookup_empty.
    + by rewrite lookup_insert_ne, decide_False by naive_solver.
Qed.

Lemma dirty_setValue t c k v d c' k' :
  state_ok t ->
  dirty_value (setValue t c k v d) c' k' =
  if decide (c' = c /\ k' = k) then (if d then Some v else None) else dirty_value t c' k'.
Proof. intros Ht. unfold dirty_value. rewrite lookup_setValue by done. by case_decide; destruct d. Qed.

Lemma clean_setValue t c k v d c' k' :
  state_ok t ->
  clean_value (setValue t c k v d) c' k' =
  if decide (c' = c /\ k' = k) then (if d then None else Some v) else clean_value t c' k'.
Proof. intros Ht. unfold clean_value. rewrite lookup_setValue by done. by case_decide; destruct d. Qed.

Lemma elem_of_forDirty t c k v :
  state_ok t -> (k, v) ∈ forDirty t c <-> dirty_value t c k = Some v.
Proof.
  intros Ht. unfold forDirty, dirty_value, lookup_pair. destruct (contracts t !! c) as [s|] eqn:E; cbn;
    [|by split; [intros ?%elem_of_nil|]].
  destruct (so_contract t Ht c s E) as [_ Hord Hkey]. rewrite list_elem_of_omap. split.
  - intros (x & Hx & Hv). destruct (pairs s !! x) as [kv|] eqn:Ex; [|done].
    destruct (kv_isDirty kv) eqn:Ed; [|done]. injection Hv as Hk Hv.
    rewrite (Hkey _ _ Ex) in Hk. subst x. rewrite Ex. cbn. by rewrite Ed, Hv.
  - destruct (pairs s !! k) as [kv|] eqn:Ek; [|done]. cbn. destruct (kv_isDirty kv) eqn:Ed; [|done].
    intros [= <-]. exists k. rewrite Hord, Ek, Ed, (Hkey _ _ Ek). eauto.
Qed.

Lemma forDirty_NoDup t c : state_ok t -> NoDup (forDirty t c).*1.
Proof.
  intros Ht. unfold forDirty. destruct (contracts t !! c) as [s|] eqn:E; [|apply NoDup_nil_2].
  destruct (so_contract t Ht c s E) as [Hnd _ Hkey]. revert Hnd. generalize (keySortOrder s) as ks.
  induction ks as [|k ks IH]; cbn; [intros; apply NoDup_nil_2|]. intros [Hk Hnd]%NoDup_cons.
  destruct (pairs s !! k) as [kv|] eqn:Ek; [|by apply IH]. destruct (kv_isDirty kv); [|by apply IH].
  cbn. apply NoDup_cons. split; [|by apply IH]. rewrite (Hkey _ _ Ek). intros Hin. apply Hk.
  apply list_elem_of_fmap in Hin as ([k' v'] & Hk' & (x & Hx & Hv)%list_elem_of_omap). cbn in Hk'. subst k'.
  destruct (pairs s !! x) as [kv'|] eqn:Ex; [|done]. destruct (kv_isDirty kv'); [|done].
  injection Hv as Hkx _. by rewrite (Hkey _ _ Ex) in Hkx; subst.
Qed.

Lemma lookup_forDirty t c k : state_ok t -> (list_to_map (forDirty t c) : gmap bytes bytes) !! k = dirty_value t c k.
Proof.
  intros Ht. pose proof (forDirty_NoDup t c Ht) as Hnd. destruct (dirty_value t c k) as [v|] eqn:E.
  - apply elem_of_list_to_map_1; [done|]. by apply elem_of_forDirty.
  - apply not_elem_of_list_to_map_1. intros ([k' v] & -> & Hin)%list_elem_of_fmap.
    apply elem_of_forDirty in Hin; [|done]. cbn in E. congruence.
Qed.

Lemma forDirty_outside t c : state_ok t -> c ∉ contractSortOrder t -> forDirty t c = [].
Proof.
  intros Ht Hc. unfold forDirty. destruct (contracts t !! c) eqn:E; [|done].
  destruct Hc. apply (so_order t Ht). by rewrite E.
Qed.

(** Writing the dirty values of one contract. *)
Definition merge_contract (master : transientState) (c : bytes) (l : list (bytes * bytes)) : transientState :=
  foldl (fun master '(key, value) => setValue master c key value true) master l.

Lemma merge_contract_ok master c l : state_ok master -> state_ok (merge_contract master c l).
Proof.
  revert master. induction l as [|[k v] l IH]; intros master Hm; [done|]. cbn. by apply IH, setValue_ok.
Qed.

Lemma lookup_merge_contract master c l c' k' :
  state_ok master -> NoDup l.*1 ->
  lookup_pair (merge_contract master c l) c' k' =
  match (if decide (c' = c) then (list_to_map l : gmap bytes bytes) !! k' else None) with
  | Some v => Some (mkPair k' v true)
  | None => lookup_pair master c' k'
  end.
Proof.
  revert master. induction l as [|[k v] l IH]; intros master Hm.
  - intros _. cbn. case_decide; by rewrite ?lookup_empty.
  - intros [Hk Hnd]%NoDup_cons.
    change (merge_contract master c ((k, v) :: l)) with (merge_contract (setValue master c k v true) c l).
    rewrite list_to_map_cons. rewrite IH by (done || by apply setValue_ok).
    rewrite lookup_setValue by done. case_decide as Hc; [|by rewrite decide_False by naive_solver].
    destruct (decide (k' = k)) as [->|].
    + rewrite lookup_insert_eq, decide_True by done. by rewrite not_elem_of_list_to_map_1.
    + rewrite lookup_insert_ne, decide_False by naive_solver. done.
Qed.

Lemma merge_ok t master : state_ok master -> state_ok (mergeIntoTransientState t master).
Proof.
  unfold mergeIntoTransientState. revert master. induction (contractSortOrder t) as [|c cs IH]; intros master Hm; [done|].
  cbn. apply IH. by apply merge_contract_ok.
Qed.

(** Merging writes exactly the dirty values. *)
Lemma lookup_merge t master c k :
  state_ok t -> state_ok master ->
  lookup_pair (mergeIntoTransientState t master) c k =
  match dirty_value t c k with Some v => Some (mkPair k v true) | None => lookup_pair master c k end.
Proof.
  intros Ht Hm.
  assert (forall cs master, state_ok master -> NoDup cs ->
    lookup_pair (foldl (fun master c => merge_contract master c (forDirty t c)) master cs) c k =
    match (if decide (c ∈ cs) then dirty_value t c k else None) with
    | Some v => Some (mkPair k v true) | None => lookup_pair master c k end) as Hfold.
  { induction cs as [|c' cs IH]; intros m Hok; cbn; [done|]. intros [Hc' Hnd]%NoDup_cons.
    rewrite IH by (done || by apply merge_contract_ok).
    rewrite lookup_merge_contract by (done || by apply forDirty_NoDup). rewrite lookup_forDirty by done.
    destruct (decide (c = c')) as [->|].
    - rewrite decide_False by done. rewrite decide_True by by left. done.
    - destruct (decide (c ∈ cs)); [rewrite decide_True by by right|rewrite decide_False by set_solver]; done. }
  unfold mergeIntoTransientState. change (lookup_pair (foldl (fun master c => merge_contract master c (forDirty t c))
    master (contractSortOrder t)) c k = match dirty_value t c k with
      | Some v => Some (mkPair k v true) | None => lookup_pair master c k end).
  rewrite Hfold by (done || by apply so_nodup). case_decide as Hc; [done|].
  rewrite <- lookup_forDirty, forDirty_outside by done. by rewrite list_to_map_nil, lookup_empty.
Qed.

(** ** The state diffs of a block hold the values written in it *)

Lemma inflate_records_lookup m l k :
  NoDup l.*1 ->
  inflate_records m (map (fun '(key, value) => mkStateRecord key value) l) !! k =
  match (list_to_map l : gmap bytes bytes) !! k with Some v => Some v | None => m !! k end.
Proof.
  unfold inflate_records. revert m. induction l as [|[x v] l IH]; intros m.
  - intros _. cbn. by rewrite lookup_empty.
  - intros [Hx Hnd]%NoDup_cons. rewrite list_to_map_cons. cbn [map foldl sr_Key sr_Value]. rewrite IH by done.
    destruct (decide (k = x)) as [->|].
    + rewrite !lookup_insert_eq. by rewrite not_elem_of_list_to_map_1.
    + by rewrite !lookup_insert_ne by done.
Qed.

Definition inflate_one (result : ChainState) (d : ContractStateDiff) : ChainState :=
  let contract := csd_ContractName d in
  <[contract := inflate_records (default ∅ (result !! contract)) (csd_StateDiffs d)]> result.

Lemma inflate_one_lookup result c l c' k :
  NoDup l.*1 ->
  chain_lookup (inflate_one result (mkContractStateDiff c (map (fun '(key, value) => mkStateRecord key value) l))) c' k =
  match (if decide (c' = c) then (list_to_map l : gmap bytes bytes) !! k else None) with
  | Some v => Some v | None => chain_lookup result c' k end.
Proof.
  intros Hnd. unfold chain_lookup, inflate_one. cbn. case_decide as Hc.
  - subst. rewrite lookup_insert_eq. cbn. rewrite inflate_records_lookup by done.
    destruct (_ !! k) as [v|]; [done|]. destruct (result !! c); [done|]. cbn. by rewrite lookup_empty.
  - by rewrite lookup_insert_ne by done.
Qed.

(** Decoding the diffs as the state storage does gives back the dirty values. *)
Lemma encode_lookup t c k :
  state_ok t -> chain_lookup (inflateChainState (encodeBatchTransientStateToStateDiffs t)) c k = dirty_value t c k.
Proof.
  intros Ht.
  assert (forall cs result, NoDup cs ->
    chain_lookup (foldl inflate_one result (omap (fun contractName =>
      let stateDiffs := map (fun '(key, value) => mkStateRecord key value) (forDirty t contractName) in
      if bool_decide (stateDiffs = []) then None else Some (mkContractStateDiff contractName stateDiffs)) cs)) c k =
    match (if decide (c ∈ cs) then dirty_value t c k else None) with
    | Some v => Some v | None => chain_lookup result c k end) as Hfold.
  { induction cs as [|c' cs IH]; intros result; [done|]. intros [Hc' Hnd]%NoDup_cons. cbn [omap list_omap].
    pose proof (lookup_forDirty t c' k Ht) as Hl. pose proof (forDirty_NoDup t c' Ht) as Hkeys.
    destruct (bool_decide _) eqn:Eb.
    - apply bool_decide_eq_true, map_eq_nil in Eb. rewrite Eb, list_to_map_nil, lookup_empty in Hl.
      rewrite IH by done. destruct (decide (c = c')) as [->|].
      + rewrite decide_False, decide_True by (done || by left). by rewrite <- Hl.
      + destruct (decide (c ∈ cs)); [rewrite decide_True by by right|rewrite decide_False by set_solver]; done.
    - cbn [foldl]. rewrite IH, inflate_one_lookup by done. destruct (decide (c = c')) as [->|].
      + rewrite decide_False, Hl by done. by rewrite decide_True by by left.
      + destruct (decide (c ∈ cs)); [rewrite decide_True by by right|rewrite decide_False by set_solver]; done. }
  unfold inflateChainState, encodeBatchTransientStateToStateDiffs. etrans; [apply Hfold; by apply so_nodup|].
  unfold chain_lookup. rewrite lookup_empty. cbn. case_decide as Hc; [by destruct (dirty_value t c k)|].
  rewrite <- lookup_forDirty, forDirty_outside by done. by rewrite list_to_map_nil, lookup_empty.
Qed.
