(* ===== verification/VirtualMachine.v ===== *)
(** * The virtual machine (services/virtualmachine)

    Running transactions and queries in execution contexts: the calls a contract
    makes to its SDK, calls of other contracts, deployment, and the merging of
    what transactions wrote into the state diffs of a block.

    A processor runs contract code; to the virtual machine it is code that makes
    SDK calls and returns, [contract_code].  Contracts may call each other without
    end, so running code takes [fuel], the depth of calls that can be made. *)

From stdpp Require Import base gmap list strings.
From Stdlib Require Import ZArith Lia ZifyBool.
From S2P Require Import Prelude Hash Protocol Digest StateStorage TransientState.

Module VirtualMachine.

(** ** Data *)

Inductive Argument :=
| ArgUint32 (v : Z)
| ArgUint64 (v : Z)
| ArgString (s : bytes)
| ArgBytes (b : bytes)
| ArgBytesArray (bs : list bytes)
| ArgOther.

Inductive ExecutionResult :=
| EXECUTION_RESULT_SUCCESS
| EXECUTION_RESULT_ERROR_SMART_CONTRACT
| EXECUTION_RESULT_ERROR_INPUT
| EXECUTION_RESULT_ERROR_CONTRACT_NOT_DEPLOYED
| EXECUTION_RESULT_ERROR_UNEXPECTED.

#[export] Instance ExecutionResult_eq_dec : EqDecision ExecutionResult.
Proof. solve_decision. Defined.

Inductive AccessScope := ACCESS_SCOPE_READ_ONLY | ACCESS_SCOPE_READ_WRITE.
Inductive PermissionScope := PERMISSION_SCOPE_SERVICE | PERMISSION_SCOPE_SYSTEM.

#[export] Instance AccessScope_eq_dec : EqDecision AccessScope.
Proof. solve_decision. Defined.

Record Event := mkEvent { ev_ContractName : bytes; ev_EventName : bytes; ev_OutputArgumentArray : bytes }.

(** The messages of orbs-spec that carry arguments and events, and two of its
    enumerations. *)
Class ArgumentArrays := {
  raw_ArgumentArray : list Argument -> bytes;
  RawArgumentsArray : list Argument -> bytes;
  ArgumentArrayReader : bytes -> list Argument;
  RawEventsArray : list Event -> bytes;
  (** the arguments of a transaction's [RawInputArgumentArrayWithHeader] *)
  input_arguments : bytes -> list Argument;
  execution_result_code : ExecutionResult -> Z;
  PROCESSOR_TYPE_NATIVE : Z
}.

Inductive vm_error :=
| ErrInvalidContext
| ErrUnknownOperation
| ErrUnknownMethod
| ErrInvalidArgs
| ErrNoWriteAccess
| ErrStateStorage
| ErrNoValue
| ErrProcessor
| ErrUnknownProcessorType
| ErrNotDeployable
| ErrCorruptOutput
| ErrCallResult
| ErrNoTransactionOrQuery
| ErrInvalidSigner
| ErrMissingContractName
| ErrConnector
| ErrBlockHeightNotSupported.

Record TransactionOrQuery := mkTransactionOrQuery {
  toq_ContractName : bytes;
  toq_MethodName : bytes;
  toq_InputArgumentArray : bytes;
  toq_Signer : Signer
}.

Definition of_Transaction (t : Transaction) : TransactionOrQuery :=
  mkTransactionOrQuery (tx_ContractName t) (tx_MethodName t) (tx_InputArgumentArray t) (tx_Signer t).

(** ** Processors *)

Record ProcessCallInput := mkProcessCall {
  pc_ContextId : bytes;
  pc_ContractName : bytes;
  pc_MethodName : bytes;
  pc_InputArgumentArray : list Argument;
  pc_AccessScope : AccessScope;
  pc_CallingPermissionScope : PermissionScope
}.

Record ProcessCallOutput := mkProcessCallOutput {
  pco_CallResult : ExecutionResult;
  pco_OutputArgumentArray : option (list Argument)
}.

Record HandleSdkCallInput := mkSdkCall {
  sdk_ContextId : bytes;
  sdk_OperationName : bytes;
  sdk_MethodName : bytes;
  sdk_InputArguments : list Argument;
  sdk_PermissionScope : PermissionScope
}.

(** A call of a processor: SDK calls, then the return of an output (which may be
    [nil]) and an error, or a panic. *)
Inductive contract_code :=
| Return (output : option ProcessCallOutput) (err : option vm_error)
| CodePanics
| SdkCall (input : HandleSdkCallInput) (continue : outcome vm_error (list Argument) -> contract_code).

(** [GetContractInfo] says whether it returns without an error. *)
Record Processor := mkProcessor {
  ProcessCall : ProcessCallInput -> contract_code;
  GetContractInfo : bytes -> bool
}.

(** ** Execution contexts (context.go)

    [contextId] is the key of a context in the map of active contexts. *)

Record executionContext := mkContext {
  lastCommittedBlockHeight : Z;
  currentBlockHeight : Z;
  currentBlockTimestamp : Z;
  currentBlockProposerAddress : bytes;
  serviceStack : list bytes;
  transientSt : transientState;
  accessScope : AccessScope;
  batchTransientState : option transientState;
  transactionOrQuery : option TransactionOrQuery;
  eventList : list Event
}.

Definition serviceStackTop (c : executionContext) : bytes := default [] (last (serviceStack c)).
Definition serviceStackPeekCurrent (c : executionContext) : bytes := default [] (last (serviceStack c)).
Definition serviceStackDepth (c : executionContext) : nat := length (serviceStack c).
Definition serviceStackPeekCaller (c : executionContext) : bytes :=
  if (length (serviceStack c) <=? 1)%nat then []
  else default [] (serviceStack c !! (length (serviceStack c) - 2)%nat).

Definition with_stack (stack : list bytes) (c : executionContext) : executionContext :=
  mkContext (lastCommittedBlockHeight c) (currentBlockHeight c) (currentBlockTimestamp c)
    (currentBlockProposerAddress c) stack (transientSt c) (accessScope c) (batchTransientState c)
    (transactionOrQuery c) (eventList c).
Definition with_transient (t : transientState) (c : executionContext) : executionContext :=
  mkContext (lastCommittedBlockHeight c) (currentBlockHeight c) (currentBlockTimestamp c)
    (currentBlockProposerAddress c) (serviceStack c) t (accessScope c) (batchTransientState c)
    (transactionOrQuery c) (eventList c).
Definition with_events (events : list Event) (c : executionContext) : executionContext :=
  mkContext (lastCommittedBlockHeight c) (currentBlockHeight c) (currentBlockTimestamp c)
    (currentBlockProposerAddress c) (serviceStack c) (transientSt c) (accessScope c) (batchTransientState c)
    (transactionOrQuery c) events.

Definition serviceStackPush (service : bytes) (c : executionContext) : executionContext :=
  with_stack (serviceStack c ++ [service]) c.
Definition serviceStackPop (c : executionContext) : executionContext :=
  with_stack (removelast (serviceStack c)) c.

Definition eventListAdd (eventName opaqueArgumentArray : bytes) (c : executionContext) : executionContext :=
  with_events (eventList c ++ [mkEvent (serviceStackPeekCurrent c) eventName opaqueArgumentArray]) c.

Definition with_batch (batch : option transientState) (c : executionContext) : executionContext :=
  mkContext (lastCommittedBlockHeight c) (currentBlockHeight c) (currentBlockTimestamp c)
    (currentBlockProposerAddress c) (serviceStack c) (transientSt c) (accessScope c) batch
    (transactionOrQuery c) (eventList c).

(** The provider of contexts: its map of active contexts and its counter. *)
Record vm_state := mkVmState {
  activeContexts : gmap bytes executionContext;
  lastContextIdCounter : Z
}.

(** A running operation: it changes the contexts and returns, fails or panics;
    [None] when the fuel runs out. *)
Definition vm (A : Type) : Type := vm_state -> option (vm_state * outcome vm_error A).

Definition vm_ret {A} (a : A) : vm A := fun st => Some (st, Ok a).
Definition vm_fail {A} (e : vm_error) : vm A := fun st => Some (st, Err e).
Definition vm_panic {A} : vm A := fun st => Some (st, Panic).
Definition vm_bind {A B} (m : vm A) (k : A -> vm B) : vm B := fun st =>
  match m st with
  | Some (st, Ok a) => k a st
  | Some (st, Err e) => Some (st, Err e)
  | Some (st, Panic) => Some (st, Panic)
  | None => None
  end.

Declare Scope vm_scope.
Delimit Scope vm_scope with vm.
Notation "'let%' x := m 'in' k" := (vm_bind m (fun x => k))
  (at level 10, x pattern, k at level 200) : vm_scope.
Open Scope vm_scope.

(** The result of an operation as a value, for code that looks at the error. *)
Definition vm_try {A} (m : vm A) : vm (outcome vm_error A) := fun st =>
  match m st with
  | Some (st, Panic) => Some (st, Panic)
  | Some (st, r) => Some (st, Ok r)
  | None => None
  end.

(** A pointer to a context is its id: the context is in the map as long as the
    call that allocated it runs. *)
Definition deref (id : bytes) : vm executionContext := fun st =>
  match activeContexts st !! id with
  | Some c => Some (st, Ok c)
  | None => Some (st, Panic)
  end.
Definition assign (id : bytes) (f : executionContext -> executionContext) : vm unit := fun st =>
  Some (mkVmState (alter f id (activeContexts st)) (lastContextIdCounter st), Ok tt).

(** A push with its deferred pop, which also runs when the code panics. *)
Definition with_service {A} (id service : bytes) (m : vm A) : vm A := fun st =>
  match (let% _ := assign id (serviceStackPush service) in m) st with
  | Some (st, r) =>
      match assign id serviceStackPop st with
      | Some (st, _) => Some (st, r)
      | None => None
      end
  | None => None
  end.

(** ** The service *)

(** The Ethereum connector; the first argument of each function is the reference
    timestamp. *)
Record EthereumConnector := mkConnector {
  EthereumCallContract : Z -> Z -> bytes -> bytes -> bytes -> bytes -> outcome unit bytes;
  EthereumGetTransactionLogs : Z -> bytes -> bytes -> bytes -> bytes -> outcome unit (list bytes * Z * Z);
  EthereumGetBlockNumber : Z -> outcome unit Z;
  EthereumGetBlockNumberByTime : Z -> Z -> outcome unit Z;
  EthereumGetBlockTime : Z -> outcome unit Z;
  EthereumGetBlockTimeByNumber : Z -> Z -> outcome unit Z
}.

(** What the service calls: the state storage at a height, the processors, the
    connector ([None] when there is none in the map), the committee provider, and
    the salt of the context ids. *)
Record service := mkService {
  s_ReadKeys : Z -> bytes -> list bytes -> outcome unit (list StateRecord);
  s_GetLastCommittedBlockInfo : outcome unit (Z * Z * bytes);
  s_processors : gmap Z Processor;
  s_connector : option EthereumConnector;
  s_GetCommittee : Z -> list bytes;
  s_VerifyEd25519 : bytes -> bytes -> bytes -> bool;
  s_contextIdSalt : Z
}.

Definition EXECUTION_CONTEXT_ID_SIZE_BYTES : nat := SHA256_HASH_SIZE_BYTES.
Definition NODE_ADDRESS_SIZE_BYTES : nat := 20.
Definition CLIENT_ADDRESS_SHA256_OFFSET : nat := 12.
Definition EmptySignerAddress : bytes := repeat 0 20.

Definition DEPLOYMENTS_CONTRACT_NAME : bytes := go_string "_Deployments".
Definition METHOD_GET_INFO : bytes := go_string "getInfo".
Definition METHOD_DEPLOY_SERVICE : bytes := go_string "deployService".
Definition GLOBAL_PRE_ORDER_CONTRACT_NAME : bytes := go_string "_GlobalPreOrder".
Definition METHOD_APPROVE : bytes := go_string "approve".
Definition ELECTIONS_CONTRACT_NAME : bytes := go_string "_Elections".
Definition METHOD_GET_ELECTED_VALIDATORS : bytes := go_string "getElectedValidatorsOrbsAddress".

(** [big.Int]'s [Bytes]: big endian, without leading zeros. *)
Definition big_Int_Bytes (z : Z) : bytes :=
  if z <=? 0 then []
  else let n := (Z.to_nat (Z.log2 z / 8) + 1)%nat in
       map (fun i => Z.land (Z.shiftr z (8 * (Z.of_nat n - 1 - Z.of_nat i))) 255) (seq 0 n).

Section Machine.
Context `{Sha256} `{Membuffers} `{ArgumentArrays}.
Variable s : service.

(** ** Addresses (crypto/digest, signer_address.go) *)

Definition CalcClientAddressOfEd25519PublicKey (publicKey : bytes) : outcome vm_error bytes :=
  if bool_decide (length publicKey <> 32%nat) then Err ErrInvalidSigner
  else Ok (drop CLIENT_ADDRESS_SHA256_OFFSET (CalcSha256 [publicKey])).

Definition CalcClientAddressOfContract (contractName : bytes) : outcome vm_error bytes :=
  if bool_decide (contractName = []) then Err ErrMissingContractName
  else Ok (drop CLIENT_ADDRESS_SHA256_OFFSET (CalcSha256 [contractName])).

Definition getSignerAddress (signer : Signer) : outcome vm_error bytes :=
  if bool_decide (sg_Raw signer = []) then Ok EmptySignerAddress
  else match sg_Eddsa signer with
       | Some publicKey => CalcClientAddressOfEd25519PublicKey publicKey
       | None => Err ErrInvalidSigner
       end.

(** ** The context provider *)

Definition newExecutionContextProvider : vm_state := mkVmState ∅ 0.

Definition allocateExecutionContext (lastCommitted current timestamp : Z) (proposer : bytes)
    (scope : AccessScope) (toq : option TransactionOrQuery) : vm bytes := fun st =>
  let counter := lastContextIdCounter st + 1 in
  let id := CalcSha256 [big_Int_Bytes (s_contextIdSalt s); big_Int_Bytes counter] in
  let newContext := mkContext lastCommitted current timestamp proposer [] newTransientState scope None toq [] in
  Some (mkVmState (<[id := newContext]> (activeContexts st)) counter, Ok id).

Definition destroyExecutionContext (id : bytes) : vm unit := fun st =>
  Some (mkVmState (delete id (activeContexts st)) (lastContextIdCounter st), Ok tt).

Definition loadExecutionContext (id : bytes) (st : vm_state) : option executionContext :=
  activeContexts st !! id.

(** An allocation with its deferred destruction, which also runs on a panic. *)
Definition with_context {A} (allocate : vm bytes) (m : bytes -> vm A) : vm A := fun st =>
  match allocate st with
  | Some (st, Ok id) =>
      match m id st with
      | Some (st, r) =>
          match destroyExecutionContext id st with
          | Some (st, _) => Some (st, r)
          | None => None
          end
      | None => None
      end
  | Some (st, Err e) => Some (st, Err e)
  | Some (st, Panic) => Some (st, Panic)
  | None => None
  end.

Definition of_outcome {A} (e : vm_error) (o : outcome unit A) : vm A := fun st =>
  Some (st, match o with Ok a => Ok a | Err _ => Err e | Panic => Panic end).
Definition lift {A} (o : outcome vm_error A) : vm A := fun st => Some (st, o).

(** ** Calls

    [call] runs a call of a processor. *)
Section Handlers.
Variable call : Processor -> ProcessCallInput -> vm (option ProcessCallOutput * option vm_error).

(** A call of the native processor; a nil entry of the map panics. *)
Definition call_native (input : ProcessCallInput) : vm (option ProcessCallOutput * option vm_error) :=
  match s_processors s !! PROCESSOR_TYPE_NATIVE with
  | Some p => call p input
  | None => vm_panic
  end.

(** *** Deployment (deployment.go) *)

Definition callGetInfoOfDeploymentSystemContract (id serviceName : bytes) : vm Z :=
  with_service id DEPLOYMENTS_CONTRACT_NAME (
    let% c := deref id in
    let% r := call_native (mkProcessCall id DEPLOYMENTS_CONTRACT_NAME METHOD_GET_INFO
                             [ArgString serviceName] (accessScope c) PERMISSION_SCOPE_SERVICE) in
    match r with
    | (_, Some e) => vm_fail e
    | (None, None) => vm_panic
    | (Some output, None) =>
        match pco_OutputArgumentArray output with
        | None => vm_panic
        | Some (ArgUint32 processorType :: _) => vm_ret processorType
        | Some _ => vm_fail ErrCorruptOutput
        end
    end).

Definition callDeployServiceOfDeploymentSystemContract (id serviceName : bytes) : vm unit :=
  with_service id DEPLOYMENTS_CONTRACT_NAME (
    let% c := deref id in
    let% r := call_native (mkProcessCall id DEPLOYMENTS_CONTRACT_NAME METHOD_DEPLOY_SERVICE
                             [ArgString serviceName; ArgUint32 (wrap 32 PROCESSOR_TYPE_NATIVE); ArgBytes []]
                             (accessScope c) PERMISSION_SCOPE_SERVICE) in
    match r with
    | (_, Some e) => vm_fail e
    | (_, None) => vm_ret tt
    end).

Definition hasDeployableCode (serviceName : bytes) : vm unit :=
  match s_processors s !! PROCESSOR_TYPE_NATIVE with
  | None => vm_panic
  | Some p => if GetContractInfo p serviceName then vm_ret tt else vm_fail ErrNotDeployable
  end.

Definition attemptToAutoDeployPreBuiltNativeContract (id serviceName : bytes) : vm Z :=
  let% c := deref id in
  if bool_decide (accessScope c <> ACCESS_SCOPE_READ_WRITE) then vm_fail ErrNoWriteAccess
  else
    let% _ := hasDeployableCode serviceName in
    let% _ := callDeployServiceOfDeploymentSystemContract id serviceName in
    vm_ret PROCESSOR_TYPE_NATIVE.

Definition getServiceDeployment (id serviceName : bytes) : vm Processor :=
  let% info := vm_try (callGetInfoOfDeploymentSystemContract id serviceName) in
  let% processorType :=
    match info with
    | Ok processorType => vm_ret processorType
    | Panic => vm_panic
    | Err getInfoErr =>
        let% c := deref id in
        if bool_decide (accessScope c <> ACCESS_SCOPE_READ_WRITE) then vm_fail getInfoErr
        else
          let% deployable := vm_try (hasDeployableCode serviceName) in
          match deployable with
          | Ok _ =>
              let% deployed := vm_try (attemptToAutoDeployPreBuiltNativeContract id serviceName) in
              match deployed with
              | Ok processorType => vm_ret processorType
              | _ => vm_fail getInfoErr
              end
          | _ => vm_fail getInfoErr
          end
    end in
  match s_processors s !! processorType with
  | None => vm_fail ErrUnknownProcessorType
  | Some processor => vm_ret processor
  end.

(** *** State (sdk_state.go) *)

Definition handleSdkStateRead (id : bytes) (args : list Argument) : vm bytes :=
  match args with
  | [ArgBytes key] =>
      let% c := deref id in
      let currentService := serviceStackTop c in
      match getValue (transientSt c) currentService key with
      | Some value => vm_ret value
      | None =>
          match batchTransientState c ≫= fun batch => getValue batch currentService key with
          | Some value => vm_ret value
          | None =>
              let% records := of_outcome ErrStateStorage
                                (s_ReadKeys s (lastCommittedBlockHeight c) currentService [key]) in
              match records with
              | [] => vm_fail ErrNoValue
              | record :: _ =>
                  let% _ := assign id (fun c => with_transient
                              (setValue (transientSt c) currentService key (sr_Value record) false) c) in
                  vm_ret (sr_Value record)
              end
          end
      end
  | _ => vm_fail ErrInvalidArgs
  end.

Definition handleSdkStateWrite (id : bytes) (args : list Argument) : vm unit :=
  let% c := deref id in
  if bool_decide (accessScope c <> ACCESS_SCOPE_READ_WRITE) then vm_fail ErrNoWriteAccess
  else match args with
       | [ArgBytes key; ArgBytes value] =>
           let currentService := serviceStackTop c in
           assign id (fun c => with_transient (setValue (transientSt c) currentService key value true) c)
       | _ => vm_fail ErrInvalidArgs
       end.

Definition handleSdkStateCall (id methodName : bytes) (args : list Argument) : vm (list Argument) :=
  if bool_decide (methodName = go_string "read") then
    let% value := handleSdkStateRead id args in vm_ret [ArgBytes value]
  else if bool_decide (methodName = go_string "write") then
    let% _ := handleSdkStateWrite id args in vm_ret []
  else vm_fail ErrUnknownMethod.

(** *** Calls of other contracts (sdk_service.go) *)

Definition handleSdkServiceCallMethod (id : bytes) (args : list Argument) (permissionScope : PermissionScope)
    : vm bytes :=
  match args with
  | [ArgString serviceName; ArgString methodName; ArgBytes input] =>
      let% processor := getServiceDeployment id serviceName in
      with_service id serviceName (
        let% c := deref id in
        let% r := call processor (mkProcessCall id serviceName methodName (ArgumentArrayReader input)
                                    (accessScope c) permissionScope) in
        match r with
        | (_, Some e) => vm_fail e
        | (None, None) => vm_panic
        | (Some output, None) =>
            match pco_OutputArgumentArray output with
            | None => vm_panic
            | Some arguments => vm_ret (raw_ArgumentArray arguments)
            end
        end)
  | _ => vm_fail ErrInvalidArgs
  end.

Definition handleSdkServiceCall (id methodName : bytes) (args : list Argument) (permissionScope : PermissionScope)
    : vm (list Argument) :=
  if bool_decide (methodName = go_string "callMethod") then
    let% output := handleSdkServiceCallMethod id args permissionScope in vm_ret [ArgBytes output]
  else vm_fail ErrUnknownMethod.

(** *** Events (sdk_events.go) *)

Definition handleSdkEventsEmitEvent (id : bytes) (args : list Argument) : vm unit :=
  match args with
  | [ArgString eventName; ArgBytes input] =>
      assign id (eventListAdd eventName (RawArgumentsArray (ArgumentArrayReader input)))
  | _ => vm_fail ErrInvalidArgs
  end.

Definition handleSdkEventsCall (id methodName : bytes) (args : list Argument) : vm (list Argument) :=
  if bool_decide (methodName = go_string "emitEvent") then
    let% _ := handleSdkEventsEmitEvent id args in vm_ret []
  else vm_fail ErrUnknownMethod.

(** *** Addresses (sdk_address.go) *)

Definition handleSdkAddressGetSignerAddress (c : executionContext) (args : list Argument)
    : outcome vm_error bytes :=
  if bool_decide (args <> []) then Err ErrInvalidArgs
  else match transactionOrQuery c with
       | None => Err ErrNoTransactionOrQuery
       | Some toq => getSignerAddress (toq_Signer toq)
       end.

Definition handleSdkAddressGetCallerAddress (c : executionContext) (args : list Argument)
    : outcome vm_error bytes :=
  if bool_decide (args <> []) then Err ErrInvalidArgs
  else if bool_decide (serviceStackDepth c = 1%nat) then handleSdkAddressGetSignerAddress c args
  else CalcClientAddressOfContract (serviceStackPeekCaller c).

Definition handleSdkAddressGetOwnAddress (c : executionContext) (args : list Argument)
    : outcome vm_error bytes :=
  if bool_decide (args <> []) then Err ErrInvalidArgs
  else CalcClientAddressOfContract (serviceStackPeekCurrent c).

Definition handleSdkAddressCall (id methodName : bytes) (args : list Argument) : vm (list Argument) :=
  let% c := deref id in
  let address handler := let% value := lift (handler c args) in vm_ret [ArgBytes value] in
  if bool_decide (methodName = go_string "getSignerAddress") then address handleSdkAddressGetSignerAddress
  else if bool_decide (methodName = go_string "getCallerAddress") then address handleSdkAddressGetCallerAddress
  else if bool_decide (methodName = go_string "getOwnAddress") then address handleSdkAddressGetOwnAddress
  else vm_fail ErrUnknownMethod.

(** *** Block environment (sdk_env.go) *)

(** The addresses of [joined], each of 20 bytes. *)
Definition split_addresses (joined : bytes) : list bytes :=
  map (fun i => take 20 (drop (20 * i) joined)) (seq 0 (length joined / NODE_ADDRESS_SIZE_BYTES)).

Definition callElectionsSystemContract (id : bytes) : vm (list bytes) :=
  with_service id ELECTIONS_CONTRACT_NAME (
    let% r := call_native (mkProcessCall id ELECTIONS_CONTRACT_NAME METHOD_GET_ELECTED_VALIDATORS []
                             ACCESS_SCOPE_READ_ONLY PERMISSION_SCOPE_SERVICE) in
    match r with
    | (_, Some e) => vm_fail e
    | (None, None) => vm_panic
    | (Some output, None) =>
        if bool_decide (pco_CallResult output <> EXECUTION_RESULT_SUCCESS) then vm_fail ErrCallResult
        else match pco_OutputArgumentArray output with
             | None => vm_panic
             | Some (ArgBytes joinedAddresses :: _) => vm_ret (split_addresses joinedAddresses)
             | Some _ => vm_fail ErrCorruptOutput
             end
    end).

Definition handleSdkEnvGetBlockHeight (c : executionContext) (args : list Argument) : outcome vm_error Z :=
  if bool_decide (args <> []) then Err ErrInvalidArgs else Ok (currentBlockHeight c).
Definition handleSdkEnvGetBlockTimestamp (c : executionContext) (args : list Argument) : outcome vm_error Z :=
  if bool_decide (args <> []) then Err ErrInvalidArgs else Ok (currentBlockTimestamp c).
Definition handleSdkEnvGetBlockProposerAddress (c : executionContext) (args : list Argument)
    : outcome vm_error bytes :=
  if bool_decide (args <> []) then Err ErrInvalidArgs else Ok (currentBlockProposerAddress c).

(** The committee and the error are both results: the fallback committee is
    computed when the elections fail, and returned with their error. *)
Definition handleSdkEnvGetBlockCommittee (id : bytes) (args : list Argument)
    : vm (list bytes * option vm_error) :=
  if bool_decide (args <> []) then vm_ret ([], Some ErrInvalidArgs)
  else
    let% elected := vm_try (callElectionsSystemContract id) in
    let% c := deref id in
    let '(addresses, err) :=
      match elected with
      | Ok addresses => (addresses, None)
      | Err e => ([], Some e)
      | Panic => ([], None)
      end in
    let addresses :=
      if bool_decide (err <> None) || bool_decide (length addresses = 0%nat)
      then s_GetCommittee s (currentBlockHeight c) else addresses in
    vm_ret (addresses, err).

Definition handleSdkEnvCall (id methodName : bytes) (args : list Argument) : vm (list Argument) :=
  let% c := deref id in
  if bool_decide (methodName = go_string "getBlockHeight") then
    let% value := lift (handleSdkEnvGetBlockHeight c args) in vm_ret [ArgUint64 value]
  else if bool_decide (methodName = go_string "getBlockTimestamp") then
    let% value := lift (handleSdkEnvGetBlockTimestamp c args) in vm_ret [ArgUint64 value]
  else if bool_decide (methodName = go_string "getBlockProposerAddress") then
    let% value := lift (handleSdkEnvGetBlockProposerAddress c args) in vm_ret [ArgBytes value]
  else if bool_decide (methodName = go_string "getBlockCommittee") then
    let% r := handleSdkEnvGetBlockCommittee id args in
    match r with
    | (_, Some e) => vm_fail e
    | (value, None) => vm_ret [ArgBytesArray value]
    end
  else vm_fail ErrUnknownMethod.

(** *** Ethereum (sdk_ethereum.go) *)

Definition with_connector {A} (f : EthereumConnector -> outcome unit A) : outcome vm_error A :=
  match s_connector s with
  | None => Panic
  | Some connector => match f connector with Ok a => Ok a | Err _ => Err ErrConnector | Panic => Panic end
  end.

Definition handleSdkEthereumCallMethod (c : executionContext) (args : list Argument) : outcome vm_error bytes :=
  match args with
  | [ArgString ethContractAddress; ArgString jsonAbi; ArgUint64 ethBlockNumber; ArgString methodName;
     ArgBytes packedInput] =>
      with_connector (fun connector =>
        EthereumCallContract connector (currentBlockTimestamp c) ethBlockNumber ethContractAddress methodName
          jsonAbi packedInput)
  | _ => Err ErrInvalidArgs
  end.

(** An empty list of outputs is logged, and its first element taken: a panic. *)
Definition handleSdkEthereumGetTransactionLog (c : executionContext) (args : list Argument)
    : outcome vm_error (bytes * Z * Z) :=
  match args with
  | [ArgString ethContractAddress; ArgString jsonAbi; ArgString ethTxHash; ArgString eventName] =>
      let! r :=
        with_connector (fun connector =>
          EthereumGetTransactionLogs connector (currentBlockTimestamp c) ethContractAddress eventName
            jsonAbi ethTxHash) in
      match r with
      | ([], _, _) => Panic
      | (output :: _, blockNumber, txIndex) => Ok (output, blockNumber, txIndex)
      end
  | _ => Err ErrInvalidArgs
  end.

Definition handleSdkEthereumGetBlockNumber (c : executionContext) (args : list Argument) : outcome vm_error Z :=
  if bool_decide (args <> []) then Err ErrInvalidArgs
  else with_connector (fun connector => EthereumGetBlockNumber connector (currentBlockTimestamp c)).

Definition handleSdkEthereumGetBlockNumberByTime (c : executionContext) (args : list Argument)
    : outcome vm_error Z :=
  match args with
  | [ArgUint64 ethBlockTimestamp] =>
      with_connector (fun connector =>
        EthereumGetBlockNumberByTime connector (currentBlockTimestamp c) ethBlockTimestamp)
  | _ => Err ErrInvalidArgs
  end.

Definition handleSdkEthereumGetBlockTime (c : executionContext) (args : list Argument) : outcome vm_error Z :=
  if bool_decide (args <> []) then Err ErrInvalidArgs
  else with_connector (fun connector => EthereumGetBlockTime connector (currentBlockTimestamp c)).

Definition handleSdkEthereumGetBlockTimeByNumber (c : executionContext) (args : list Argument)
    : outcome vm_error Z :=
  match args with
  | [ArgUint64 ethBlockNumber] =>
      with_connector (fun connector =>
        EthereumGetBlockTimeByNumber connector (currentBlockTimestamp c) ethBlockNumber)
  | _ => Err ErrInvalidArgs
  end.

Definition handleSdkEthereumCall (id methodName : bytes) (args : list Argument) : vm (list Argument) :=
  let% c := deref id in
  let number handler := let% value := lift (handler c args) in vm_ret [ArgUint64 value] in
  if bool_decide (methodName = go_string "callMethod") then
    let% output := lift (handleSdkEthereumCallMethod c args) in vm_ret [ArgBytes output]
  else if bool_decide (methodName = go_string "getTransactionLog") then
    let% r := lift (handleSdkEthereumGetTransactionLog c args) in
    match r with
    | (output, blockNumber, txIndex) => vm_ret [ArgBytes output; ArgUint64 blockNumber; ArgUint32 txIndex]
    end
  else if bool_decide (methodName = go_string "getBlockNumber") then number handleSdkEthereumGetBlockNumber
  else if bool_decide (methodName = go_string "getBlockNumberByTime")
  then number handleSdkEthereumGetBlockNumberByTime
  else if bool_decide (methodName = go_string "getBlockTime") then number handleSdkEthereumGetBlockTime
  else if bool_decide (methodName = go_string "getBlockTimeByNumber")
  then number handleSdkEthereumGetBlockTimeByNumber
  else vm_fail ErrUnknownMethod.

(** *** The handler of SDK calls (service.go) *)

Definition HandleSdkCall (input : HandleSdkCallInput) : vm (list Argument) := fun st =>
  match loadExecutionContext (sdk_ContextId input) st with
  | None => vm_fail ErrInvalidContext st
  | Some _ =>
      let id := sdk_ContextId input in
      let operation := sdk_OperationName input in
      let method := sdk_MethodName input in
      let args := sdk_InputArguments input in
      (if bool_decide (operation = go_string "Sdk.State") then handleSdkStateCall id method args
       else if bool_decide (operation = go_string "Sdk.Service")
       then handleSdkServiceCall id method args (sdk_PermissionScope input)
       else if bool_decide (operation = go_string "Sdk.Events") then handleSdkEventsCall id method args
       else if bool_decide (operation = go_string "Sdk.Ethereum") then handleSdkEthereumCall id method args
       else if bool_decide (operation = go_string "Sdk.Address") then handleSdkAddressCall id method args
       else if bool_decide (operation = go_string "Sdk.Env") then handleSdkEnvCall id method args
       else vm_fail ErrUnknownOperation) st
  end.
End Handlers.

(** ** Running code

    The code sees the result of each SDK call, a panic included, which the native
    processor recovers from. *)
Fixpoint run_code (handle : HandleSdkCallInput -> vm (list Argument)) (code : contract_code)
    : vm (option ProcessCallOutput * option vm_error) := fun st =>
  match code with
  | Return output err => Some (st, Ok (output, err))
  | CodePanics => Some (st, Panic)
  | SdkCall input continue =>
      match handle input st with
      | Some (st, r) => run_code handle (continue r) st
      | None => None
      end
  end.

Fixpoint run_call (fuel : nat) (p : Processor) (input : ProcessCallInput)
    : vm (option ProcessCallOutput * option vm_error) :=
  match fuel with
  | O => fun _ => None
  | S fuel => run_code (HandleSdkCall (run_call fuel)) (ProcessCall p input)
  end.

(** ** Execution (execution.go)

    [runMethod] also returns the batch, which the code updates in place. *)

Record runResult := mkRun {
  run_CallResult : ExecutionResult;
  run_outputArgs : option (list Argument);
  run_outputEvents : option (list Event);
  run_err : option vm_error;
  run_batch : option transientState
}.

(** [runMethod] from the deployment of its contract on. *)
Definition run_body (fuel : nat) (id : bytes) (toq : TransactionOrQuery) (scope : AccessScope)
    (batch : option transientState) (deployment : outcome vm_error Processor) : vm runResult :=
  match deployment with
  | Panic => vm_panic
  | Err e => vm_ret (mkRun EXECUTION_RESULT_ERROR_CONTRACT_NOT_DEPLOYED None None (Some e) batch)
  | Ok processor =>
      with_service id (toq_ContractName toq) (
        let% r := run_call fuel processor
                    (mkProcessCall id (toq_ContractName toq) (toq_MethodName toq)
                       (input_arguments (toq_InputArgumentArray toq)) scope PERMISSION_SCOPE_SERVICE) in
        match r with
        | (None, _) => vm_panic
        | (Some output, err) =>
            let% c := deref id in
            let batch :=
              if bool_decide (pco_CallResult output = EXECUTION_RESULT_SUCCESS)
              then mergeIntoTransientState (transientSt c) <$> batch else batch in
            vm_ret (mkRun (pco_CallResult output) (pco_OutputArgumentArray output)
                      (Some (eventList c)) err batch)
        end)
  end.

Definition runMethod (fuel : nat) (lastCommitted current timestamp : Z) (proposer : bytes)
    (toq : TransactionOrQuery) (scope : AccessScope) (batch : option transientState) : vm runResult :=
  with_context (allocateExecutionContext lastCommitted current timestamp proposer scope (Some toq)) (fun id =>
    let% _ := assign id (with_batch batch) in
    let% deployment := vm_try (getServiceDeployment (run_call fuel) id (toq_ContractName toq)) in
    run_body fuel id toq scope batch deployment).

Definition encodeTransactionReceipt (transaction : Transaction) (result : ExecutionResult)
    (outputArgs : list Argument) (outputEvents : list Event) : TransactionReceipt :=
  mkReceipt (CalcTxHash transaction) (execution_result_code result) (RawArgumentsArray outputArgs)
    (RawEventsArray outputEvents).

(** The loop of [processTransactionSet], from a batch. *)
Fixpoint process_transactions (fuel : nat) (current timestamp : Z) (proposer : bytes)
    (txs : list SignedTransaction) (batch : transientState) : vm (list TransactionReceipt * transientState) :=
  match txs with
  | [] => vm_ret ([], batch)
  | tx :: txs =>
      let t := stx_Transaction tx in
      let% r := runMethod fuel (u64_sub current 1) current timestamp proposer (of_Transaction t)
                  ACCESS_SCOPE_READ_WRITE (Some batch) in
      let receipt := encodeTransactionReceipt t (run_CallResult r) (default [] (run_outputArgs r))
                       (default [] (run_outputEvents r)) in
      let% rest := process_transactions fuel current timestamp proposer txs (default batch (run_batch r)) in
      vm_ret (receipt :: rest.1, rest.2)
  end.

Definition processTransactionSet (fuel : nat) (current timestamp : Z) (proposer : bytes)
    (txs : list SignedTransaction) : vm (list TransactionReceipt * list ContractStateDiff) :=
  let% r := process_transactions fuel current timestamp proposer txs newTransientState in
  vm_ret (r.1, encodeBatchTransientStateToStateDiffs r.2).

Definition getRecentCommittedBlockInfo : outcome vm_error (Z * Z * bytes) :=
  match s_GetLastCommittedBlockInfo s with
  | Ok info => Ok info
  | Err _ => Err ErrStateStorage
  | Panic => Panic
  end.

(** ** The service's operations (service.go) *)

Record ProcessQueryOutput := mkQueryOutput {
  pq_CallResult : ExecutionResult;
  pq_OutputEventsArray : bytes;
  pq_OutputArgumentArray : bytes;
  pq_ReferenceBlockHeight : Z;
  pq_ReferenceBlockTimestamp : Z
}.

Definition ProcessQuery (fuel : nat) (blockHeight : Z) (query : TransactionOrQuery)
    : vm (ProcessQueryOutput * option vm_error) :=
  match getRecentCommittedBlockInfo with
  | Panic => vm_panic
  | Err e => vm_ret (mkQueryOutput EXECUTION_RESULT_ERROR_UNEXPECTED [] (raw_ArgumentArray []) 0 0, Some e)
  | Ok (height, timestamp, proposer) =>
      if bool_decide (blockHeight <> 0) then
        vm_ret (mkQueryOutput EXECUTION_RESULT_ERROR_INPUT [] (raw_ArgumentArray []) height timestamp,
                Some ErrBlockHeightNotSupported)
      else
        let% r := runMethod fuel height height timestamp proposer query ACCESS_SCOPE_READ_ONLY None in
        vm_ret (mkQueryOutput (run_CallResult r) (RawEventsArray (default [] (run_outputEvents r)))
                  (RawArgumentsArray (default [] (run_outputArgs r))) height timestamp, run_err r)
  end.

Definition ProcessTransactionSet (fuel : nat) (current timestamp : Z) (proposer : bytes)
    (txs : list SignedTransaction) : vm (list TransactionReceipt * list ContractStateDiff) :=
  processTransactionSet fuel current timestamp proposer txs.

(** *** System contracts (call_system.go, pre_order.go)

    The proposer address is [nil] in both. *)

Definition callSystemContract (fuel : nat) (current timestamp : Z) (contractName methodName : bytes)
    (inputArgs : list Argument) : vm (ExecutionResult * option (list Argument) * option vm_error) :=
  with_context (allocateExecutionContext (u64_sub current 1) current timestamp [] ACCESS_SCOPE_READ_ONLY None)
    (fun id =>
       with_service id contractName (
         let% r := call_native (run_call fuel)
                     (mkProcessCall id contractName methodName inputArgs ACCESS_SCOPE_READ_ONLY
                        PERMISSION_SCOPE_SERVICE) in
         match r with
         | (None, _) => vm_panic
         | (Some output, err) => vm_ret (pco_CallResult output, pco_OutputArgumentArray output, err)
         end)).

Definition CallSystemContract (fuel : nat) (current timestamp : Z) (contractName methodName : bytes)
    (inputArgs : list Argument) : vm (ExecutionResult * list Argument * option vm_error) :=
  let% r := callSystemContract fuel current timestamp contractName methodName inputArgs in
  vm_ret (r.1.1, default [] r.1.2, r.2).

(** The error of the call, if any. *)
Definition callGlobalPreOrderSystemContract (fuel : nat) (current timestamp : Z) : vm (option vm_error) :=
  with_context (allocateExecutionContext (u64_sub current 1) current timestamp [] ACCESS_SCOPE_READ_ONLY None)
    (fun id =>
       with_service id GLOBAL_PRE_ORDER_CONTRACT_NAME (
         let% r := call_native (run_call fuel)
                     (mkProcessCall id GLOBAL_PRE_ORDER_CONTRACT_NAME METHOD_APPROVE []
                        ACCESS_SCOPE_READ_ONLY PERMISSION_SCOPE_SERVICE) in
         vm_ret r.2)).

Definition verifyEd25519Signer (tx : SignedTransaction) (publicKey : bytes) : bool :=
  s_VerifyEd25519 s publicKey (CalcTxHash (stx_Transaction tx)) (stx_Signature tx).

Definition verifyTransactionSignature (tx : SignedTransaction) (status : TransactionStatus) : TransactionStatus :=
  if bool_decide (status <> TRANSACTION_STATUS_RESERVED) then status
  else match sg_Eddsa (tx_Signer (stx_Transaction tx)) with
       | Some publicKey =>
           if verifyEd25519Signer tx publicKey then TRANSACTION_STATUS_PRE_ORDER_VALID
           else TRANSACTION_STATUS_REJECTED_SIGNATURE_MISMATCH
       | None => TRANSACTION_STATUS_REJECTED_UNKNOWN_SIGNER_SCHEME
       end.

Definition verifyTransactionSignatures (txs : list SignedTransaction) (statuses : list TransactionStatus)
    : list TransactionStatus := zip_with verifyTransactionSignature txs statuses.

Definition global_pre_order_status (rejected : bool) (tx : SignedTransaction) : TransactionStatus :=
  if rejected && bool_decide (tx_ContractName (stx_Transaction tx) <> GLOBAL_PRE_ORDER_CONTRACT_NAME)
  then TRANSACTION_STATUS_REJECTED_GLOBAL_PRE_ORDER else TRANSACTION_STATUS_RESERVED.

Definition TransactionSetPreOrder (fuel : nat) (current timestamp : Z) (txs : list SignedTransaction)
    : vm (list TransactionStatus) :=
  let% err := callGlobalPreOrderSystemContract fuel current timestamp in
  let statuses := map (global_pre_order_status (bool_decide (err <> None))) txs in
  vm_ret (verifyTransactionSignatures txs statuses).
End Machine.
End VirtualMachine.
