(* ===== verification/Execution.v ===== *)
(** * What running contracts keeps (services/virtualmachine)

    For any processors: running code keeps the contexts there are, their service
    stacks and their block; it only adds events; and a read-only context never
    gets a write.  Operations of the service leave no context behind, and more
    fuel does not change a result. *)

From stdpp Require Import base gmap list strings.
From Stdlib Require Import ZArith Lia ZifyBool.
From S2P Require Import Prelude Hash Protocol Digest StateStorage TransientState VirtualMachine.

Import VirtualMachine.

(** ** How a context evolves *)

Record ctx_evolves (c c' : executionContext) : Prop := {
  ev_lastCommitted : lastCommittedBlockHeight c' = lastCommittedBlockHeight c;
  ev_current : currentBlockHeight c' = currentBlockHeight c;
  ev_timestamp : currentBlockTimestamp c' = currentBlockTimestamp c;
  ev_proposer : currentBlockProposerAddress c' = currentBlockProposerAddress c;
  ev_stack : serviceStack c' = serviceStack c;
  ev_scope : accessScope c' = accessScope c;
  ev_batch : batchTransientState c' = batchTransientState c;
  ev_toq : transactionOrQuery c' = transactionOrQuery c;
  ev_events : eventList c `prefix_of` eventList c';
  ev_ok : state_ok (transientSt c) -> state_ok (transientSt c');
  ev_read_only : state_ok (transientSt c) -> accessScope c = ACCESS_SCOPE_READ_ONLY ->
    forall contract key, dirty_value (transientSt c') contract key = dirty_value (transientSt c) contract key
}.

#[export] Instance ctx_evolves_preorder : PreOrder ctx_evolves.
Proof.
  split.
  - intros c. by split.
  - intros a b c [] []. split; try congruence; [by etrans|tauto|].
    intros Hok Ha x k. by rewrite ev_read_only1, ev_read_only0 by (auto; congruence).
Qed.

Definition vm_evolves (st st' : vm_state) : Prop :=
  lastContextIdCounter st' = lastContextIdCounter st /\
  forall id, option_relation ctx_evolves (fun _ => False) (fun _ => False)
    (activeContexts st !! id) (activeContexts st' !! id).

#[export] Instance vm_evolves_preorder : PreOrder vm_evolves.
Proof.
  split.
  - intros st. split; [done|]. intros id. destruct (activeContexts st !! id); simpl; [reflexivity|done].
  - intros a b c [Hab Hab'] [Hbc Hbc']. split; [congruence|]. intros id.
    specialize (Hab' id). specialize (Hbc' id).
    destruct (activeContexts a !! id), (activeContexts b !! id), (activeContexts c !! id);
      simpl in *; try done. by etrans.
Qed.

Lemma evolves_alter f id st :
  (forall c, activeContexts st !! id = Some c -> ctx_evolves c (f c)) ->
  vm_evolves st (mkVmState (alter f id (activeContexts st)) (lastContextIdCounter st)).
Proof.
  intros Hf. split; [done|]. intros j. simpl. destruct (decide (id = j)) as [<-|Hne].
  - rewrite lookup_alter_eq. destruct (activeContexts st !! id) eqn:E; simpl; auto.
  - rewrite lookup_alter_ne by done. destruct (activeContexts st !! j); simpl; [reflexivity|done].
Qed.

(** ** Operations that evolve *)

Definition evolving {A} (m : vm A) : Prop := forall st st' r, m st = Some (st', r) -> vm_evolves st st'.

Create HintDb evolving.

Lemma evolving_ret {A} (a : A) : evolving (vm_ret a).
Proof. intros st st' r [= -> _]. reflexivity. Qed.
Lemma evolving_fail {A} e : evolving (vm_fail (A:=A) e).
Proof. intros st st' r [= -> _]. reflexivity. Qed.
Lemma evolving_panic {A} : evolving (vm_panic (A:=A)).
Proof. intros st st' r [= -> _]. reflexivity. Qed.
Lemma evolving_lift {A} (o : outcome vm_error A) : evolving (lift o).
Proof. intros st st' r [= -> _]. reflexivity. Qed.
Lemma evolving_of_outcome {A} e (o : outcome unit A) : evolving (of_outcome e o).
Proof. intros st st' r [= -> _]. reflexivity. Qed.
Lemma evolving_deref id : evolving (deref id).
Proof. intros st st' r. unfold deref. case_match; intros [= -> _]; reflexivity. Qed.

Lemma evolving_bind {A B} (m : vm A) (k : A -> vm B) :
  evolving m -> (forall a, evolving (k a)) -> evolving (vm_bind m k).
Proof.
  intros Hm Hk st st' r. unfold vm_bind. destruct (m st) as [[st1 [a|e|]]|] eqn:E; try done.
  - intros Hk'. etrans; [by eapply Hm|by eapply Hk].
  - intros [= <- _]. by eapply Hm.
  - intros [= <- _]. by eapply Hm.
Qed.

Lemma evolving_try {A} (m : vm A) : evolving m -> evolving (vm_try m).
Proof.
  intros Hm st st' r. unfold vm_try. destruct (m st) as [[st1 [a|e|]]|] eqn:E; try done;
    intros [= <- _]; by eapply Hm.
Qed.

Lemma pop_push_evolves service c c' :
  ctx_evolves (serviceStackPush service c) c' -> ctx_evolves c (serviceStackPop c').
Proof.
  intros []. split; simpl in *; try done.
  rewrite ev_stack0. by rewrite removelast_last.
Qed.

Lemma evolving_with_service {A} id service (m : vm A) : evolving m -> evolving (with_service id service m).
Proof.
  intros Hm st st' r. unfold with_service, vm_bind, assign.
  destruct (m _) as [[st1 r1]|] eqn:E; [|done]. intros [= <- _].
  apply Hm in E as [Hc He]. split; [done|]. intros j. specialize (He j). simpl in *.
  destruct (decide (id = j)) as [<-|Hne].
  - rewrite lookup_alter_eq in He |- *.
    destruct (activeContexts st !! id), (activeContexts st1 !! id); simpl in *; try done.
    by eapply pop_push_evolves.
  - by rewrite lookup_alter_ne in He |- * by done.
Qed.

#[export] Hint Resolve evolving_ret evolving_fail evolving_panic evolving_lift evolving_of_outcome
  evolving_deref evolving_bind evolving_try evolving_with_service : evolving.

(** Decides what an operation does by its structure. *)
Ltac evolve :=
  repeat first
    [ progress auto with evolving
    | apply evolving_bind; [|intros ?]
    | apply evolving_try | apply evolving_with_service
    | case_match ].

(** ** The handlers *)

Lemma clean_evolves c contract key value :
  getValue (transientSt c) contract key = None ->
  ctx_evolves c (with_transient (setValue (transientSt c) contract key value false) c).
Proof.
  intros Hnone. split; simpl; try done.
  - by apply setValue_ok.
  - intros Hok _ x k. rewrite dirty_setValue by done. case_decide as Hxk; [|done]. destruct Hxk as [-> ->].
    rewrite getValue_cases in Hnone. by destruct (dirty_value _ _ _).
Qed.

Lemma dirty_evolves c contract key value :
  accessScope c = ACCESS_SCOPE_READ_WRITE ->
  ctx_evolves c (with_transient (setValue (transientSt c) contract key value true) c).
Proof. intros Hrw. split; simpl; try done; [by apply setValue_ok|congruence]. Qed.

Lemma evolving_deref_assign {A} id (f : executionContext -> vm A) :
  (forall c st st' r, activeContexts st !! id = Some c -> f c st = Some (st', r) -> vm_evolves st st') ->
  evolving (vm_bind (deref id) f).
Proof.
  intros Hf st st' r. unfold vm_bind, deref. destruct (activeContexts st !! id) eqn:E; [by eapply Hf|].
  intros [= <- _]. reflexivity.
Qed.

Section Evolution.
Context `{Sha256} `{Membuffers} `{ArgumentArrays}.
Variable s : service.

Lemma StateRead_evolving id args : evolving (handleSdkStateRead s id args).
Proof.
  unfold handleSdkStateRead. destruct args as [|[] []]; try apply evolving_fail.
  apply evolving_deref_assign. intros c st st' r Hc.
  destruct (getValue (transientSt c) _ _) eqn:Ht; [by apply evolving_ret|].
  destruct (batchTransientState c ≫= _); [by apply evolving_ret|].
  unfold vm_bind at 1, of_outcome. destruct (s_ReadKeys s _ _ _) as [[|rec recs]| |].
  - by apply evolving_fail.
  - unfold vm_bind, assign, vm_ret. intros [= <- _]. apply evolves_alter.
    intros c' Hc'. simplify_eq. by apply clean_evolves.
  - intros [= <- _]. reflexivity.
  - intros [= <- _]. reflexivity.
Qed.

Lemma StateWrite_evolving id args : evolving (handleSdkStateWrite id args).
Proof.
  unfold handleSdkStateWrite. apply evolving_deref_assign. intros c st st' r Hc.
  case_bool_decide as Hrw; [by apply evolving_fail|].
  repeat (case_match; try by apply evolving_fail). unfold assign. intros [= <- _].
  apply evolves_alter. intros c' Hc'. simplify_eq. apply dirty_evolves. by destruct (accessScope _).
Qed.

Lemma EmitEvent_evolving id args : evolving (handleSdkEventsEmitEvent id args).
Proof.
  unfold handleSdkEventsEmitEvent. repeat (case_match; try by apply evolving_fail).
  intros st st' r [= <- _]. apply evolves_alter. intros c _. split; simpl; try done. by eexists.
Qed.

#[local] Hint Resolve StateRead_evolving StateWrite_evolving EmitEvent_evolving : evolving.

Section Calls.
Variable call : Processor -> ProcessCallInput -> vm (option ProcessCallOutput * option vm_error).
Hypothesis call_evolving : forall p input, evolving (call p input).

Lemma call_native_evolving input : evolving (call_native s call input).
Proof. unfold call_native. evolve. Qed.
#[local] Hint Resolve call_evolving call_native_evolving : evolving.

Lemma hasDeployableCode_evolving name : evolving (hasDeployableCode s name).
Proof. unfold hasDeployableCode. evolve. Qed.
Lemma callGetInfo_evolving id name : evolving (callGetInfoOfDeploymentSystemContract s call id name).
Proof. unfold callGetInfoOfDeploymentSystemContract. evolve. Qed.
Lemma callDeployService_evolving id name : evolving (callDeployServiceOfDeploymentSystemContract s call id name).
Proof. unfold callDeployServiceOfDeploymentSystemContract. evolve. Qed.
#[local] Hint Resolve hasDeployableCode_evolving callGetInfo_evolving callDeployService_evolving : evolving.

Lemma autoDeploy_evolving id name : evolving (attemptToAutoDeployPreBuiltNativeContract s call id name).
Proof. unfold attemptToAutoDeployPreBuiltNativeContract. evolve. Qed.
#[local] Hint Resolve autoDeploy_evolving : evolving.

Lemma getServiceDeployment_evolving id name : evolving (getServiceDeployment s call id name).
Proof. unfold getServiceDeployment. evolve. Qed.
#[local] Hint Resolve getServiceDeployment_evolving : evolving.

Lemma CallMethod_evolving id args scope : evolving (handleSdkServiceCallMethod s call id args scope).
Proof. unfold handleSdkServiceCallMethod. evolve. Qed.
Lemma callElections_evolving id : evolving (callElectionsSystemContract s call id).
Proof. unfold callElectionsSystemContract. evolve. Qed.
#[local] Hint Resolve CallMethod_evolving callElections_evolving : evolving.

Lemma GetBlockCommittee_evolving id args : evolving (handleSdkEnvGetBlockCommittee s call id args).
Proof. unfold handleSdkEnvGetBlockCommittee. evolve. Qed.
#[local] Hint Resolve GetBlockCommittee_evolving : evolving.

Lemma EnvCall_evolving id m args : evolving (handleSdkEnvCall s call id m args).
Proof. unfold handleSdkEnvCall. evolve. Qed.
Lemma AddressCall_evolving id m args : evolving (handleSdkAddressCall id m args).
Proof. unfold handleSdkAddressCall. evolve. Qed.
Lemma EthereumCall_evolving id m args : evolving (handleSdkEthereumCall s id m args).
Proof. unfold handleSdkEthereumCall. evolve. Qed.
#[local] Hint Resolve EnvCall_evolving AddressCall_evolving EthereumCall_evolving : evolving.

Lemma HandleSdkCall_evolving input : evolving (HandleSdkCall s call input).
Proof.
  intros st st' r. unfold HandleSdkCall. destruct (loadExecutionContext _ st); [|by apply evolving_fail].
  cbv zeta. match goal with |- ?m st = _ -> _ => enough (evolving m) by eauto end.
  unfold handleSdkStateCall, handleSdkServiceCall, handleSdkEventsCall. evolve.
Qed.
End Calls.

Lemma run_code_evolving handle code :
  (forall input, evolving (handle input)) -> evolving (run_code handle code).
Proof.
  intros Hh. induction code as [out err| |input k IH]; intros st st' r; simpl.
  - intros [= <- _]. reflexivity.
  - intros [= <- _]. reflexivity.
  - destruct (handle input st) as [[st1 r1]|] eqn:E; [|done]. intros Hk.
    etrans; [by eapply Hh|by eapply IH].
Qed.

Lemma run_call_evolving fuel p input : evolving (run_call s fuel p input).
Proof.
  revert p input. induction fuel as [|fuel IH]; intros p input; [done|].
  simpl. apply run_code_evolving. intros i. by apply HandleSdkCall_evolving.
Qed.
End Evolution.

(** ** No context is left behind *)

Definition idle (st : vm_state) : Prop := activeContexts st = ∅.
Definition idling {A} (m : vm A) : Prop := forall st st' r, idle st -> m st = Some (st', r) -> idle st'.

Lemma idling_bind {A B} (m : vm A) (k : A -> vm B) :
  idling m -> (forall a, idling (k a)) -> idling (vm_bind m k).
Proof.
  intros Hm Hk st st' r Hst. unfold vm_bind. destruct (m st) as [[st1 [a|e|]]|] eqn:E; try done.
  - intros Hk'. eapply Hk; [|done]. by eapply Hm.
  - intros [= <- _]. by eapply Hm.
  - intros [= <- _]. by eapply Hm.
Qed.

Lemma idling_ret {A} (a : A) : idling (vm_ret a).
Proof. by intros st st' r Hst [= <- _]. Qed.
Lemma idling_panic {A} : idling (vm_panic (A:=A)).
Proof. by intros st st' r Hst [= <- _]. Qed.

(** Evolving from one context, and destroying it. *)
Lemma idle_destroy id c n st :
  vm_evolves (mkVmState {[id := c]} n) st ->
  delete id (activeContexts st) = ∅.
Proof.
  intros [_ He]. apply map_empty. intros j. specialize (He j). simpl in He.
  destruct (decide (id = j)) as [<-|Hne]; [by rewrite lookup_delete_eq|].
  rewrite lookup_delete_ne by done. rewrite lookup_singleton_ne in He by done.
  by destruct (activeContexts st !! j).
Qed.

Section Idle.
Context `{Sha256} `{Membuffers} `{ArgumentArrays}.
Variable s : service.

Lemma with_context_idling {A} lastCommitted current timestamp proposer scope toq (m : bytes -> vm A) :
  (forall id st st' r, m id st = Some (st', r) ->
     exists f, vm_evolves (mkVmState (alter f id (activeContexts st)) (lastContextIdCounter st)) st') ->
  idling (with_context (allocateExecutionContext s lastCommitted current timestamp proposer scope toq) m).
Proof.
  intros Hm st st' r Hst. unfold with_context, allocateExecutionContext, destroyExecutionContext.
  destruct (m _ _) as [[st1 r1]|] eqn:E; [|done]. intros [= <- _].
  apply Hm in E as [f He]. unfold idle in *. simpl in *. rewrite Hst in He.
  rewrite insert_empty in He. eapply idle_destroy.
  rewrite alter_singleton_eq in He. exact He.
Qed.

(** A body that only evolves. *)
Lemma with_context_evolving {A} lastCommitted current timestamp proposer scope toq (m : bytes -> vm A) :
  (forall id, evolving (m id)) ->
  idling (with_context (allocateExecutionContext s lastCommitted current timestamp proposer scope toq) m).
Proof.
  intros Hm. apply with_context_idling. intros id st st' r E. exists (fun c => c).
  rewrite alter_id by done. destruct st. by eapply Hm.
Qed.

Lemma runMethod_idling fuel lastCommitted current timestamp proposer toq scope batch :
  idling (runMethod s fuel lastCommitted current timestamp proposer toq scope batch).
Proof.
  apply with_context_idling. intros id st st' r. unfold vm_bind at 1, assign. intros E.
  exists (with_batch batch). revert E. match goal with |- ?m _ = _ -> _ => enough (evolving m) by eauto end.
  apply evolving_bind; [apply evolving_try, getServiceDeployment_evolving, run_call_evolving|].
  intros deployment. unfold run_body. evolve. apply run_call_evolving.
Qed.

Lemma process_transactions_idling fuel current timestamp proposer txs batch :
  idling (process_transactions s fuel current timestamp proposer txs batch).
Proof.
  revert batch. induction txs as [|tx txs IH]; intros batch; simpl; [apply idling_ret|].
  apply idling_bind; [apply runMethod_idling|intros r]. apply idling_bind; [apply IH|intros rest].
  apply idling_ret.
Qed.

Lemma system_call_evolving fuel id name method args {B} (k : _ -> vm B) :
  (forall r, evolving (k r)) ->
  evolving (with_service id name (vm_bind (call_native s (run_call s fuel)
    (mkProcessCall id name method args ACCESS_SCOPE_READ_ONLY PERMISSION_SCOPE_SERVICE)) k)).
Proof.
  intros Hk. apply evolving_with_service, evolving_bind; [|done].
  apply call_native_evolving, run_call_evolving.
Qed.

(** C14. Whatever the contracts do, panics included, an operation of the virtual
    machine that starts with no active context ends with none: every execution
    context that is allocated is destroyed. *)
Theorem operations_destroy_contexts fuel height timestamp proposer txs query contract method args st st' :
  idle st ->
  (forall r, ProcessTransactionSet s fuel height timestamp proposer txs st = Some (st', r) -> idle st') /\
  (forall r, ProcessQuery s fuel height query st = Some (st', r) -> idle st') /\
  (forall r, CallSystemContract s fuel height timestamp contract method args st = Some (st', r) -> idle st') /\
  (forall r, TransactionSetPreOrder s fuel height timestamp txs st = Some (st', r) -> idle st').
Proof.
  intros Hst. split_and!; intros r Hr; revert Hst Hr; revert st st' r.
  - apply idling_bind; [apply process_transactions_idling|intros; apply idling_ret].
  - fold (idling (ProcessQuery s fuel height query)). unfold ProcessQuery.
    repeat case_match; try apply idling_ret; try apply idling_panic.
    apply idling_bind; [apply runMethod_idling|intros; apply idling_ret].
  - apply idling_bind; [|intros; apply idling_ret]. apply with_context_evolving. intros id.
    apply system_call_evolving. intros r. evolve.
  - apply idling_bind; [|intros; apply idling_ret]. apply with_context_evolving. intros id.
    apply system_call_evolving. intros r. evolve.
Qed.
End Idle.

(** ** Fuel *)

Definition extends {A} (m m' : vm A) : Prop := forall st x, m st = Some x -> m' st = Some x.

#[export] Instance extends_refl {A} : Reflexive (@extends A).
Proof. by intros m st x. Qed.

Create HintDb extends.

Lemma extends_bind {A B} (m m' : vm A) (k k' : A -> vm B) :
  extends m m' -> (forall a, extends (k a) (k' a)) -> extends (vm_bind m k) (vm_bind m' k').
Proof.
  intros Hm Hk st x. unfold vm_bind. destruct (m st) as [[st1 r]|] eqn:E; [|done].
  rewrite (Hm _ _ E). destruct r; [apply Hk|done|done].
Qed.

Lemma extends_try {A} (m m' : vm A) : extends m m' -> extends (vm_try m) (vm_try m').
Proof.
  intros Hm st x. unfold vm_try. destruct (m st) as [[st1 r]|] eqn:E; [|done]. by rewrite (Hm _ _ E).
Qed.

Lemma extends_with_service {A} id name (m m' : vm A) :
  extends m m' -> extends (with_service id name m) (with_service id name m').
Proof.
  intros Hm st x. unfold with_service, vm_bind, assign. destruct (m _) as [[st1 r]|] eqn:E; [|done].
  by rewrite (Hm _ _ E).
Qed.

Lemma extends_with_context {A} allocate (m m' : bytes -> vm A) :
  (forall id, extends (m id) (m' id)) -> extends (with_context allocate m) (with_context allocate m').
Proof.
  intros Hm st x. unfold with_context. destruct (allocate st) as [[st1 []]|]; try done.
  destruct (m _ _) as [[st2 r]|] eqn:E; [|done]. by rewrite (Hm _ _ _ E).
Qed.

Ltac extend :=
  repeat first
    [ reflexivity
    | progress auto with extends
    | apply extends_bind; [|intros ?] | apply extends_try | apply extends_with_service
    | apply extends_with_context; intros ?
    | case_match ].

Section Fuel.
Context `{Sha256} `{Membuffers} `{ArgumentArrays}.
Variable s : service.

Section Extended.
Variables call call' : Processor -> ProcessCallInput -> vm (option ProcessCallOutput * option vm_error).
Hypothesis call_extends : forall p input, extends (call p input) (call' p input).

Lemma call_native_extends input : extends (call_native s call input) (call_native s call' input).
Proof. unfold call_native. extend. Qed.
#[local] Hint Resolve call_extends call_native_extends : extends.

Lemma getServiceDeployment_extends id name :
  extends (getServiceDeployment s call id name) (getServiceDeployment s call' id name).
Proof.
  unfold getServiceDeployment, attemptToAutoDeployPreBuiltNativeContract, callGetInfoOfDeploymentSystemContract,
    callDeployServiceOfDeploymentSystemContract. extend.
Qed.
#[local] Hint Resolve getServiceDeployment_extends : extends.

Lemma HandleSdkCall_extends input : extends (HandleSdkCall s call input) (HandleSdkCall s call' input).
Proof.
  intros st x. unfold HandleSdkCall. destruct (loadExecutionContext _ st); [|done]. cbv zeta.
  match goal with |- ?m st = _ -> ?m' st = _ => enough (extends m m') by eauto end.
  unfold handleSdkServiceCall, handleSdkServiceCallMethod, handleSdkEnvCall, handleSdkEnvGetBlockCommittee,
    callElectionsSystemContract. extend.
Qed.
End Extended.

Lemma run_code_extends handle handle' code :
  (forall input, extends (handle input) (handle' input)) ->
  extends (run_code handle code) (run_code handle' code).
Proof.
  intros Hh. induction code as [out err| |input k IH]; intros st x; simpl; try done.
  destruct (handle input st) as [[st1 r]|] eqn:E; [|done]. rewrite (Hh _ _ _ E). apply IH.
Qed.

Lemma run_call_extends fuel fuel' p input :
  (fuel <= fuel')%nat -> extends (run_call s fuel p input) (run_call s fuel' p input).
Proof.
  revert fuel' p input. induction fuel as [|fuel IH]; intros [|fuel'] p input Hle; [done|done|lia|].
  simpl. apply run_code_extends. intros i. apply HandleSdkCall_extends. intros. apply IH. lia.
Qed.

Lemma runMethod_extends fuel fuel' lastCommitted current timestamp proposer toq scope batch :
  (fuel <= fuel')%nat ->
  extends (runMethod s fuel lastCommitted current timestamp proposer toq scope batch)
    (runMethod s fuel' lastCommitted current timestamp proposer toq scope batch).
Proof.
  intros Hle. unfold runMethod. apply extends_with_context. intros id. apply extends_bind; [reflexivity|intros _].
  apply extends_bind; [apply extends_try, getServiceDeployment_extends|]; intros.
  - by apply run_call_extends.
  - unfold run_body. extend. by apply run_call_extends.
Qed.

(** More fuel gives the same receipts and the same state diffs. *)
Lemma ProcessTransactionSet_fuel fuel fuel' current timestamp proposer txs :
  (fuel <= fuel')%nat ->
  extends (ProcessTransactionSet s fuel current timestamp proposer txs)
    (ProcessTransactionSet s fuel' current timestamp proposer txs).
Proof.
  intros Hle. apply extends_bind; [|reflexivity]. generalize newTransientState as batch.
  induction txs as [|tx txs IH]; intros batch; simpl; [reflexivity|].
  apply extends_bind; [by apply runMethod_extends|intros r]. apply extends_bind; [apply IH|reflexivity].
Qed.
End Fuel.

(** ** Effects of a run *)

Section Effects.
Context `{Sha256} `{Membuffers} `{ArgumentArrays}.
Variable s : service.

(** C15. Whatever a contract does, the contexts are the same after a call: a
    read-only context has no write it did not have, its service stack, block and
    access are as before, and events are only added. *)
Theorem read_only_never_writes fuel p input st st' r id c :
  run_call s fuel p input st = Some (st', r) ->
  activeContexts st !! id = Some c -> state_ok (transientSt c) ->
  exists c', activeContexts st' !! id = Some c' /\
    serviceStack c' = serviceStack c /\ accessScope c' = accessScope c /\
    currentBlockHeight c' = currentBlockHeight c /\ batchTransientState c' = batchTransientState c /\
    eventList c `prefix_of` eventList c' /\
    (accessScope c = ACCESS_SCOPE_READ_ONLY ->
     forall contract key, dirty_value (transientSt c') contract key = dirty_value (transientSt c) contract key).
Proof.
  intros Hrun Hc Hok. apply run_call_evolving in Hrun as [_ He]. specialize (He id). rewrite Hc in He.
  destruct (activeContexts st' !! id) as [c'|]; simpl in He; [|done]. exists c'. destruct He. split_and!; auto.
Qed.

(** The batch after a run: only a successful call changes it. *)
Lemma run_body_batch fuel id toq scope batch deployment st st' r :
  run_body s fuel id toq scope batch deployment st = Some (st', Ok r) ->
  run_CallResult r <> EXECUTION_RESULT_SUCCESS -> run_batch r = batch.
Proof.
  unfold run_body. destruct deployment as [processor|e|]; [|by intros [= <- <-]|done].
  unfold with_service, vm_bind, assign, vm_ret, vm_panic, deref.
  destruct (run_call _ _ _ _ _) as [[st1 [[[output|] err]|e|]]|]; try done.
  destruct (activeContexts st1 !! id); [|done]. intros [= <- <-]. simpl. intros Hne.
  by rewrite bool_decide_false.
Qed.


(** When the elections contract fails, the fallback committee is computed and
    then lost: a contract that asks for the committee gets the error. *)
Theorem committee_fallback_lost call id st st' e :
  callElectionsSystemContract s call id st = Some (st', Err e) ->
  is_Some (activeContexts st !! id) -> is_Some (activeContexts st' !! id) ->
  handleSdkEnvCall s call id (go_string "getBlockCommittee") [] st = Some (st', Err e).
Proof.
  intros Hcall [c Hc] [c' Hc']. unfold handleSdkEnvCall, vm_bind, deref. rewrite Hc.
  cbn [bool_decide]. do 3 (rewrite bool_decide_false by done). rewrite bool_decide_true by done.
  unfold handleSdkEnvGetBlockCommittee, vm_bind, vm_try, deref, vm_ret, vm_fail.
  rewrite bool_decide_false by auto. by rewrite Hcall, Hc'.
Qed.
End Effects.

(** ** An example machine

    One native processor: [_Deployments] knows every contract, [_Elections] fails,
    and any other contract appends a byte to the value of a key, emits an event,
    and fails when it is called with the method "fail". *)
Module ExampleMachine.

#[export] Instance arguments : ArgumentArrays := {
  raw_ArgumentArray args := [Z.of_nat (length args)];
  RawArgumentsArray args := [Z.of_nat (length args)];
  ArgumentArrayReader b := [ArgBytes b];
  RawEventsArray events := concat (map ev_EventName events);
  input_arguments b := [ArgBytes b];
  execution_result_code r :=
    match r with
    | EXECUTION_RESULT_SUCCESS => 1
    | EXECUTION_RESULT_ERROR_SMART_CONTRACT => 2
    | EXECUTION_RESULT_ERROR_INPUT => 3
    | EXECUTION_RESULT_ERROR_CONTRACT_NOT_DEPLOYED => 4
    | EXECUTION_RESULT_ERROR_UNEXPECTED => 5
    end;
  PROCESSOR_TYPE_NATIVE := 1
}.

Definition state_call (input : ProcessCallInput) (method : bytes) (args : list Argument) : HandleSdkCallInput :=
  mkSdkCall (pc_ContextId input) (go_string "Sdk.State") method args PERMISSION_SCOPE_SERVICE.
Definition emit_call (input : ProcessCallInput) : HandleSdkCallInput :=
  mkSdkCall (pc_ContextId input) (go_string "Sdk.Events") (go_string "emitEvent")
    [ArgString [7]; ArgBytes []] PERMISSION_SCOPE_SERVICE.

Definition returns (result : ExecutionResult) (args : list Argument) (err : option vm_error) : contract_code :=
  Return (Some (mkProcessCallOutput result (Some args))) err.

Definition append_contract (input : ProcessCallInput) : contract_code :=
  SdkCall (state_call input (go_string "read") [ArgBytes [1]]) (fun r =>
    match r with
    | Ok [ArgBytes value] =>
        SdkCall (state_call input (go_string "write") [ArgBytes [1]; ArgBytes (value ++ [5])]) (fun w =>
          match w with
          | Ok _ =>
              SdkCall (emit_call input) (fun _ =>
                if bool_decide (pc_MethodName input = go_string "fail")
                then returns EXECUTION_RESULT_ERROR_SMART_CONTRACT [] (Some ErrProcessor)
                else returns EXECUTION_RESULT_SUCCESS [ArgBytes value] None)
          | _ => returns EXECUTION_RESULT_ERROR_SMART_CONTRACT [] (Some ErrNoWriteAccess)
          end)
    | _ => returns EXECUTION_RESULT_ERROR_SMART_CONTRACT [] (Some ErrProcessor)
    end).

Definition native : Processor := mkProcessor (fun input =>
  if bool_decide (pc_ContractName input = DEPLOYMENTS_CONTRACT_NAME)
  then returns EXECUTION_RESULT_SUCCESS [ArgUint32 1] None
  else if bool_decide (pc_ContractName input = ELECTIONS_CONTRACT_NAME)
  then returns EXECUTION_RESULT_ERROR_SMART_CONTRACT [] (Some ErrProcessor)
  else append_contract input) (fun _ => true).

(** A storage in which the keys of [contract] that [values] lists have a value. *)
Definition storage (values : list (bytes * bytes * bytes)) (_ : Z) (contract : bytes) (keys : list bytes)
    : outcome unit (list StateRecord) :=
  Ok (map (fun key =>
    mkStateRecord key (default [] (snd <$> head (filter (fun x => x.1 = (contract, key)) values)))) keys).

Definition machine (values : list (bytes * bytes * bytes)) : service :=
  mkService (storage values) (Ok (3, 100, [9])) {[1 := native]} None (fun _ => [[1]; [2]]) (fun _ _ _ => true) 77.

Definition transaction (contract method : bytes) : SignedTransaction :=
  mkSignedTransaction (mkTransaction 1 42 100 (mkSigner [1] (Some [2])) contract method []) [].

Definition query : TransactionOrQuery := of_Transaction (stx_Transaction (transaction [65] (go_string "get"))).

#[export] Existing Instance crypto_sha256.
#[export] Existing Instance plain_membuffers.

(** A context of contract [65], and a call in it. *)
Definition context (scope : AccessScope) : executionContext :=
  mkContext 3 4 100 [9] [[65]] newTransientState scope None (Some query) [].
Definition running (scope : AccessScope) : vm_state := mkVmState {[ [8] := context scope ]} 1.
Definition get : ProcessCallInput :=
  mkProcessCall [8] [65] (go_string "get") [] ACCESS_SCOPE_READ_ONLY PERMISSION_SCOPE_SERVICE.
End ExampleMachine.

Import ExampleMachine.

Lemma operations_destroy_contexts_witness : exists st' r,
  ProcessTransactionSet (machine []) 5 4 100 [9] [transaction [65] [66]; transaction [65] (go_string "fail")]
    newExecutionContextProvider = Some (st', r) /\ idle st'.
Proof.
  destruct (ProcessTransactionSet _ _ _ _ _ _ _) as [[st' r]|] eqn:E.
  - exists st', r. split; [reflexivity|].
    refine (proj1 (operations_destroy_contexts (machine []) 5 4 100 [9] _ query [] [] [] newExecutionContextProvider st' _)
              r E).
    reflexivity.
  - vm_compute in E. discriminate E.
Defined.

Lemma read_only_never_writes_witness : exists st' r c',
  run_call (machine []) 5 native get (running ACCESS_SCOPE_READ_ONLY) = Some (st', r) /\
  activeContexts st' !! [8] = Some c' /\ dirty_value (transientSt c') [65] [1] = None.
Proof.
  destruct (run_call _ _ _ _ _) as [[st' r]|] eqn:E.
  - destruct (read_only_never_writes (machine []) 5 native get (running ACCESS_SCOPE_READ_ONLY) st' r [8]
      (context ACCESS_SCOPE_READ_ONLY) E) as (c' & Hc' & _ & _ & _ & _ & _ & Hd).
    + reflexivity.
    + apply new_ok.
    + exists st', r, c'. split_and!; [reflexivity|exact Hc'|]. rewrite Hd; reflexivity.
  - vm_compute in E. discriminate E.
Defined.


Lemma committee_fallback_lost_witness : exists st',
  handleSdkEnvCall (machine []) (run_call (machine []) 5) [8] (go_string "getBlockCommittee") []
    (running ACCESS_SCOPE_READ_ONLY) = Some (st', Err ErrProcessor) /\ s_GetCommittee (machine []) 4 = [[1]; [2]].
Proof.
  exists (running ACCESS_SCOPE_READ_ONLY). split; [|reflexivity].
  apply (committee_fallback_lost (machine []) (run_call (machine []) 5) [8] (running ACCESS_SCOPE_READ_ONLY)).
  - vm_compute. reflexivity.
  - eexists. reflexivity.
  - eexists. reflexivity.
Defined.
