(* ===== verification/TransactionSet.v ===== *)
(** * Transactions of a block (services/virtualmachine/execution.go)

    A transaction of a set sees the writes of the successful transactions before
    it, and nothing else of them: processing a set is processing its first part,
    committing the state diffs, and processing the rest on the new state.

    The proof simulates one machine by the other.  Their contexts cache different
    values, and agree on what a read gives ([view]) and on what was written. *)

From stdpp Require Import base gmap list strings.
From Stdlib Require Import ZArith Lia ZifyBool.
From S2P Require Import Prelude Hash Protocol Digest StateStorage StateStorageService TransientState.
From S2P Require Import VirtualMachine Execution.

Import VirtualMachine.

(** ** The two machines *)

(** [s'] is [s] with the state diffs in its storage, as read at height [h]. *)
Record reads_committed (s : service) (h : Z) (diffs : list ContractStateDiff) (s' : service) : Prop := {
  rc_processors : s_processors s' = s_processors s;
  rc_connector : s_connector s' = s_connector s;
  rc_GetCommittee : s_GetCommittee s' = s_GetCommittee s;
  rc_salt : s_contextIdSalt s' = s_contextIdSalt s;
  rc_ReadKeys contract key :
    s_ReadKeys s' h contract [key] =
    match chain_lookup (inflateChainState diffs) contract key with
    | Some value => Ok [mkStateRecord key value]
    | None => s_ReadKeys s h contract [key]
    end
}.

(** What the storage gives the virtual machine. *)
Definition stored (s : service) (h : Z) (contract key : bytes) : outcome vm_error bytes :=
  match s_ReadKeys s h contract [key] with
  | Ok [] => Err ErrNoValue
  | Ok (record :: _) => Ok (sr_Value record)
  | Err _ => Err ErrStateStorage
  | Panic => Panic
  end.

(** What a read gives in a context. *)
Definition view (s : service) (c : executionContext) (contract key : bytes) : outcome vm_error bytes :=
  match getValue (transientSt c) contract key with
  | Some value => Ok value
  | None =>
      match batchTransientState c ≫= fun batch => getValue batch contract key with
      | Some value => Ok value
      | None => stored s (lastCommittedBlockHeight c) contract key
      end
  end.

(** [runMethod] from the state with its context. *)
Definition new_id `{Sha256} (s : service) (st : vm_state) : bytes :=
  CalcSha256 [big_Int_Bytes (s_contextIdSalt s); big_Int_Bytes (lastContextIdCounter st + 1)].

Lemma runMethod_run `{Sha256} `{Membuffers} `{ArgumentArrays} s fuel last current timestamp proposer toq scope batch st :
  runMethod s fuel last current timestamp proposer toq scope batch st =
  let id := new_id s st in
  let c := with_batch batch (mkContext last current timestamp proposer [] newTransientState scope None (Some toq) []) in
  match vm_bind (vm_try (getServiceDeployment s (run_call s fuel) id (toq_ContractName toq)))
          (run_body s fuel id toq scope batch)
          (mkVmState (<[id := c]> (activeContexts st)) (lastContextIdCounter st + 1)) with
  | Some (st, r) => Some (mkVmState (delete id (activeContexts st)) (lastContextIdCounter st), r)
  | None => None
  end.
Proof.
  unfold runMethod, with_context, allocateExecutionContext. cbv zeta. fold (new_id s st).
  change (vm_bind (assign (new_id s st) (with_batch batch)) ?k ?st0) with
    (k tt (mkVmState (alter (with_batch batch) (new_id s st) (activeContexts st0)) (lastContextIdCounter st0))).
  cbn [activeContexts lastContextIdCounter]. by rewrite alter_insert_eq.
Qed.

Section Simulation.
Context `{Sha256} `{Membuffers} `{ArgumentArrays}.
Variables s s' : service.
Hypothesis same_processors : s_processors s' = s_processors s.
Hypothesis same_connector : s_connector s' = s_connector s.
Hypothesis same_GetCommittee : s_GetCommittee s' = s_GetCommittee s.
Hypothesis same_salt : s_contextIdSalt s' = s_contextIdSalt s.

Record ctx_sim (c c' : executionContext) : Prop := {
  cs_current : currentBlockHeight c' = currentBlockHeight c;
  cs_timestamp : currentBlockTimestamp c' = currentBlockTimestamp c;
  cs_proposer : currentBlockProposerAddress c' = currentBlockProposerAddress c;
  cs_stack : serviceStack c' = serviceStack c;
  cs_scope : accessScope c' = accessScope c;
  cs_toq : transactionOrQuery c' = transactionOrQuery c;
  cs_events : eventList c' = eventList c;
  cs_ok : state_ok (transientSt c);
  cs_ok' : state_ok (transientSt c');
  cs_dirty contract key : dirty_value (transientSt c') contract key = dirty_value (transientSt c) contract key;
  cs_view contract key : view s' c' contract key = view s c contract key
}.

Definition vm_sim (st st' : vm_state) : Prop :=
  lastContextIdCounter st' = lastContextIdCounter st /\
  forall id, option_Forall2 ctx_sim (activeContexts st !! id) (activeContexts st' !! id).

Definition outcome_sim {A B} (P : A -> B -> Prop) (r : outcome vm_error A) (r' : outcome vm_error B) : Prop :=
  match r, r' with
  | Ok a, Ok b => P a b
  | Err e, Err e' => e = e'
  | Panic, Panic => True
  | _, _ => False
  end.

(** From related states, [m] and [m'] both run out of fuel, or give related
    results and states. *)
Definition sim {A B} (P : A -> B -> Prop) (m : vm A) (m' : vm B) : Prop := forall st st', vm_sim st st' ->
  match m st, m' st' with
  | Some (st1, r), Some (st1', r') => outcome_sim P r r' /\ vm_sim st1 st1'
  | None, None => True
  | _, _ => False
  end.

Create HintDb sim.

Lemma sim_lift {A} (o : outcome vm_error A) : sim eq (lift o) (lift o).
Proof. intros st st' Hs. simpl. split; [by destruct o|done]. Qed.
Lemma sim_ret {A B} (P : A -> B -> Prop) a b : P a b -> sim P (vm_ret a) (vm_ret b).
Proof. by intros HP st st' Hs. Qed.
Lemma sim_fail {A B} (P : A -> B -> Prop) e : sim P (vm_fail e) (vm_fail e).
Proof. by intros st st' Hs. Qed.
Lemma sim_panic {A B} (P : A -> B -> Prop) : sim P vm_panic vm_panic.
Proof. by intros st st' Hs. Qed.

Lemma sim_bind {A A' B B'} (P : A -> A' -> Prop) (Q : B -> B' -> Prop) m m' k k' :
  sim P m m' -> (forall a a', P a a' -> sim Q (k a) (k' a')) -> sim Q (vm_bind m k) (vm_bind m' k').
Proof.
  intros Hm Hk st st' Hs. specialize (Hm st st' Hs). unfold vm_bind.
  destruct (m st) as [[st1 [a|e|]]|], (m' st') as [[st1' [a'|e'|]]|]; simpl in *; try tauto.
  apply Hk; tauto.
Qed.

Lemma sim_bind_eq {A B B'} (Q : B -> B' -> Prop) (m m' : vm A) k k' :
  sim eq m m' -> (forall a, sim Q (k a) (k' a)) -> sim Q (vm_bind m k) (vm_bind m' k').
Proof. intros Hm Hk. apply (sim_bind eq); [done|]. by intros a a' <-. Qed.

Lemma sim_try {A} (m m' : vm A) : sim eq m m' -> sim eq (vm_try m) (vm_try m').
Proof.
  intros Hm st st' Hs. specialize (Hm st st' Hs). unfold vm_try.
  destruct (m st) as [[st1 [a|e|]]|], (m' st') as [[st1' [a'|e'|]]|]; simpl in *; try tauto;
    destruct Hm as [-> Hm]; done.
Qed.

Lemma sim_deref id : sim ctx_sim (deref id) (deref id).
Proof.
  intros st st' Hs. pose proof (proj2 Hs id) as Hid. unfold deref. by destruct Hid.
Qed.

Lemma sim_assign id f f' :
  (forall c c', ctx_sim c c' -> ctx_sim (f c) (f' c')) -> sim eq (assign id f) (assign id f').
Proof.
  intros Hf st st' [Hc Hs]. simpl. split; [done|]. split; [done|]. intros j. simpl. specialize (Hs j).
  destruct (decide (id = j)) as [<-|Hne].
  - rewrite !lookup_alter_eq. destruct Hs; simpl; constructor. by apply Hf.
  - by rewrite !lookup_alter_ne by done.
Qed.
Lemma push_sim name c c' : ctx_sim c c' -> ctx_sim (serviceStackPush name c) (serviceStackPush name c').
Proof. intros []. split; simpl; try done; congruence. Qed.
Lemma pop_sim c c' : ctx_sim c c' -> ctx_sim (serviceStackPop c) (serviceStackPop c').
Proof. intros []. split; simpl; try done; congruence. Qed.

Lemma sim_with_service {A B} (P : A -> B -> Prop) id name m m' :
  sim P m m' -> sim P (with_service id name m) (with_service id name m').
Proof.
  intros Hm st st' Hs. unfold with_service.
  pose proof (sim_bind_eq P _ _ (fun _ => m) (fun _ => m') (sim_assign id _ _ (push_sim name)) (fun _ => Hm) st st' Hs)
    as Hb.
  destruct (vm_bind _ _ st) as [[st1 r]|], (vm_bind _ _ st') as [[st1' r']|]; try done.
  destruct Hb as [Hr Hb]. split; [done|]. by apply (sim_assign id _ _ pop_sim st1 st1').
Qed.

(** Caching what a read gives does not change the view. *)
Lemma view_cache t c contract key value x k :
  state_ok (transientSt c) -> view t c contract key = Ok value ->
  view t (with_transient (setValue (transientSt c) contract key value false) c) x k = view t c x k.
Proof.
  intros Hok Hv. unfold view at 1. simpl. rewrite getValue_lookup, lookup_setValue by done.
  case_decide as Hxk; [by destruct Hxk as [-> ->]|]. rewrite <- getValue_lookup. done.
Qed.

Lemma view_write t c contract key value x k :
  state_ok (transientSt c) ->
  view t (with_transient (setValue (transientSt c) contract key value true) c) x k =
  if decide (x = contract /\ k = key) then Ok value else view t c x k.
Proof.
  intros Hok. unfold view at 1. simpl. rewrite getValue_lookup, lookup_setValue by done.
  case_decide; [done|]. rewrite <- getValue_lookup. done.
Qed.

(** A read gives the view, and caches at most that. *)
Definition cached (t : service) (c c1 : executionContext) (contract key : bytes) : Prop :=
  c1 = c \/
  getValue (transientSt c) contract key = None /\
  exists value, view t c contract key = Ok value /\
    c1 = with_transient (setValue (transientSt c) contract key value false) c.

Lemma StateRead_view t id key st c :
  activeContexts st !! id = Some c ->
  exists c1, cached t c c1 (serviceStackTop c) key /\
  handleSdkStateRead t id [ArgBytes key] st =
  Some (mkVmState (<[id := c1]> (activeContexts st)) (lastContextIdCounter st), view t c (serviceStackTop c) key).
Proof.
  intros Hc. unfold handleSdkStateRead, vm_bind, deref, of_outcome, assign, vm_ret, vm_fail. rewrite Hc.
  destruct (getValue (transientSt c) _ _) as [v|] eqn:Et.
  { exists c. split; [by left|]. unfold view. rewrite Et, insert_id by done. by destruct st. }
  unfold cached, view, stored. rewrite Et.
  destruct (batchTransientState c ≫= _) as [v|].
  { exists c. split; [by left|]. rewrite insert_id by done. by destruct st. }
  destruct (s_ReadKeys t _ _ _) as [[|record records]|e|].
  2: { eexists. split; [right; split; [done|by eexists]|]. do 2 f_equal. f_equal.
       apply map_eq. intros j. destruct (decide (id = j)) as [<-|].
       - by rewrite lookup_alter_eq, Hc, lookup_insert_eq.
       - by rewrite lookup_alter_ne, lookup_insert_ne. }
  all: exists c; split; [by left|]; rewrite insert_id by done; by destruct st.
Qed.

Lemma cached_facts t c c1 contract key :
  cached t c c1 contract key -> state_ok (transientSt c) ->
  state_ok (transientSt c1) /\ (forall x k, view t c1 x k = view t c x k) /\
  (forall x k, dirty_value (transientSt c1) x k = dirty_value (transientSt c) x k) /\
  c1 = with_transient (transientSt c1) c.
Proof.
  intros [->|(Hnone & value & Hv & ->)] Hok; [by destruct c|]. split_and!; simpl.
  - by apply setValue_ok.
  - intros x k. by apply view_cache.
  - intros x k. rewrite dirty_setValue by done. case_decide as Hxk; [|done]. destruct Hxk as [-> ->].
    rewrite getValue_cases in Hnone. by destruct (dirty_value _ _ _).
  - done.
Qed.

Lemma cached_sim c c' c1 c1' contract key :
  ctx_sim c c' -> cached s c c1 contract key -> cached s' c' c1' contract key -> ctx_sim c1 c1'.
Proof.
  intros [] HA HB. apply cached_facts in HA as (? & Hv & Hd & E); [|done].
  apply cached_facts in HB as (? & Hv' & Hd' & E'); [|done].
  split; try (rewrite E, E'; simpl; done); try done; intros; [by rewrite Hd, Hd'|by rewrite Hv, Hv'].
Qed.

Lemma vm_sim_insert id c c' st st' :
  vm_sim st st' -> ctx_sim c c' ->
  vm_sim (mkVmState (<[id := c]> (activeContexts st)) (lastContextIdCounter st))
    (mkVmState (<[id := c']> (activeContexts st')) (lastContextIdCounter st')).
Proof.
  intros [Hn Hs] Hc. split; [done|]. intros j. simpl. destruct (decide (id = j)) as [<-|Hne].
  - rewrite !lookup_insert_eq. by constructor.
  - by rewrite !lookup_insert_ne by done.
Qed.

Lemma StateRead_sim id args : sim eq (handleSdkStateRead s id args) (handleSdkStateRead s' id args).
Proof.
  destruct args as [|a args]; [apply sim_fail|].
  destruct a as [| | |key| |]; try apply sim_fail. destruct args; [|apply sim_fail].
  intros st st' Hs. pose proof (proj2 Hs id) as Hid. inversion Hid as [c c' Hc E E'|E E'].
  - symmetry in E, E'. destruct (StateRead_view s id key st c E) as (c1 & HA & ->).
    destruct (StateRead_view s' id key st' c' E') as (c1' & HB & ->).
    unfold serviceStackTop in HB. rewrite (cs_stack _ _ Hc) in HB.
    unfold serviceStackTop at 2. rewrite (cs_stack _ _ Hc), (cs_view _ _ Hc).
    split; [unfold serviceStackTop; by destruct (view s c _ _)|]. apply vm_sim_insert; [done|].
    by eapply cached_sim.
  - unfold handleSdkStateRead, vm_bind, deref. by rewrite <- E, <- E'.
Qed.

Lemma write_sim contract key value c c' :
  ctx_sim c c' ->
  ctx_sim (with_transient (setValue (transientSt c) contract key value true) c)
    (with_transient (setValue (transientSt c') contract key value true) c').
Proof.
  intros []. split; simpl; try done; try by apply setValue_ok.
  - intros x k. rewrite !dirty_setValue by done. by case_decide.
  - intros x k. rewrite !view_write by done. by case_decide.
Qed.

Lemma StateWrite_sim id args : sim eq (handleSdkStateWrite id args) (handleSdkStateWrite id args).
Proof.
  apply (sim_bind ctx_sim); [apply sim_deref|]. intros c c' Hc. rewrite (cs_scope _ _ Hc).
  unfold serviceStackTop. rewrite (cs_stack _ _ Hc).
  repeat (case_match; try apply sim_fail). apply sim_assign. intros. by apply write_sim.
Qed.

Lemma EmitEvent_sim id args : sim eq (handleSdkEventsEmitEvent id args) (handleSdkEventsEmitEvent id args).
Proof.
  unfold handleSdkEventsEmitEvent. repeat (case_match; try apply sim_fail). apply sim_assign.
  intros c c' []. unfold eventListAdd, serviceStackPeekCurrent. split; simpl; try done. congruence.
Qed.

(** Decides a simulation by the structure of the operations. *)
Ltac simulate :=
  repeat first
    [ progress auto with sim
    | apply sim_ret; reflexivity | apply sim_fail | apply sim_panic | apply sim_lift
    | apply (sim_bind ctx_sim); [apply sim_deref|intros ? ? []; simpl]
    | apply sim_bind_eq; [|intros ?] | apply sim_try | apply sim_with_service
    | match goal with
      | H : ?f ?c' = ?f ?c |- context [?f ?c'] =>
          is_var c'; is_var c; progress rewrite H
      end
    | case_match ].

Lemma address_sim c c' args :
  ctx_sim c c' ->
  handleSdkAddressGetSignerAddress c' args = handleSdkAddressGetSignerAddress c args /\
  handleSdkAddressGetCallerAddress c' args = handleSdkAddressGetCallerAddress c args /\
  handleSdkAddressGetOwnAddress c' args = handleSdkAddressGetOwnAddress c args.
Proof.
  intros []. unfold handleSdkAddressGetCallerAddress, handleSdkAddressGetSignerAddress,
    handleSdkAddressGetOwnAddress, serviceStackDepth, serviceStackPeekCaller, serviceStackPeekCurrent.
  by rewrite cs_toq0, cs_stack0.
Qed.

Lemma AddressCall_sim id m args : sim eq (handleSdkAddressCall id m args) (handleSdkAddressCall id m args).
Proof.
  apply (sim_bind ctx_sim); [apply sim_deref|]. intros c c' Hc.
  destruct (address_sim c c' args Hc) as (E1 & E2 & E3). cbv beta zeta. rewrite E1, E2, E3. simulate.
Qed.

Lemma EthereumCall_sim id m args : sim eq (handleSdkEthereumCall s id m args) (handleSdkEthereumCall s' id m args).
Proof.
  apply (sim_bind ctx_sim); [apply sim_deref|]. intros c c' Hc. cbv beta zeta.
  unfold handleSdkEthereumCallMethod, handleSdkEthereumGetTransactionLog, handleSdkEthereumGetBlockNumber,
    handleSdkEthereumGetBlockNumberByTime, handleSdkEthereumGetBlockTime, handleSdkEthereumGetBlockTimeByNumber,
    with_connector.
  rewrite same_connector, (cs_timestamp _ _ Hc).
  repeat (case_bool_decide; [apply sim_bind_eq; [apply sim_lift|intros a]; simulate|]). apply sim_fail.
Qed.

Section Calls.
Variables call call' : Processor -> ProcessCallInput -> vm (option ProcessCallOutput * option vm_error).
Hypothesis call_sim : forall p input, sim eq (call p input) (call' p input).

Lemma call_native_sim input : sim eq (call_native s call input) (call_native s' call' input).
Proof. unfold call_native. rewrite same_processors. case_match; [apply call_sim|apply sim_panic]. Qed.
#[local] Hint Resolve call_sim call_native_sim : sim.

Lemma hasDeployableCode_sim name : sim eq (hasDeployableCode s name) (hasDeployableCode s' name).
Proof. unfold hasDeployableCode. rewrite same_processors. simulate. Qed.
Lemma callGetInfo_sim id name :
  sim eq (callGetInfoOfDeploymentSystemContract s call id name)
    (callGetInfoOfDeploymentSystemContract s' call' id name).
Proof. unfold callGetInfoOfDeploymentSystemContract. simulate. Qed.
Lemma callDeployService_sim id name :
  sim eq (callDeployServiceOfDeploymentSystemContract s call id name)
    (callDeployServiceOfDeploymentSystemContract s' call' id name).
Proof. unfold callDeployServiceOfDeploymentSystemContract. simulate. Qed.
#[local] Hint Resolve hasDeployableCode_sim callGetInfo_sim callDeployService_sim : sim.

Lemma autoDeploy_sim id name :
  sim eq (attemptToAutoDeployPreBuiltNativeContract s call id name)
    (attemptToAutoDeployPreBuiltNativeContract s' call' id name).
Proof. unfold attemptToAutoDeployPreBuiltNativeContract. simulate. Qed.
#[local] Hint Resolve autoDeploy_sim : sim.

Lemma getServiceDeployment_sim id name :
  sim eq (getServiceDeployment s call id name) (getServiceDeployment s' call' id name).
Proof. unfold getServiceDeployment. rewrite same_processors. simulate. Qed.
#[local] Hint Resolve getServiceDeployment_sim : sim.

Lemma CallMethod_sim id args scope :
  sim eq (handleSdkServiceCallMethod s call id args scope) (handleSdkServiceCallMethod s' call' id args scope).
Proof. unfold handleSdkServiceCallMethod. simulate. Qed.
Lemma callElections_sim id :
  sim eq (callElectionsSystemContract s call id) (callElectionsSystemContract s' call' id).
Proof. unfold callElectionsSystemContract. simulate. Qed.
#[local] Hint Resolve CallMethod_sim callElections_sim : sim.

Lemma GetBlockCommittee_sim id args :
  sim eq (handleSdkEnvGetBlockCommittee s call id args) (handleSdkEnvGetBlockCommittee s' call' id args).
Proof. unfold handleSdkEnvGetBlockCommittee. rewrite same_GetCommittee. simulate. Qed.
#[local] Hint Resolve GetBlockCommittee_sim : sim.

Lemma EnvCall_sim id m args : sim eq (handleSdkEnvCall s call id m args) (handleSdkEnvCall s' call' id m args).
Proof.
  unfold handleSdkEnvCall, handleSdkEnvGetBlockHeight, handleSdkEnvGetBlockTimestamp,
    handleSdkEnvGetBlockProposerAddress. simulate.
Qed.
#[local] Hint Resolve EnvCall_sim AddressCall_sim EthereumCall_sim StateRead_sim StateWrite_sim EmitEvent_sim : sim.

Lemma HandleSdkCall_sim input : sim eq (HandleSdkCall s call input) (HandleSdkCall s' call' input).
Proof.
  intros st st' Hs. unfold HandleSdkCall, loadExecutionContext. pose proof (proj2 Hs (sdk_ContextId input)) as Hid.
  destruct Hid; [|by apply sim_fail]. cbv zeta.
  match goal with |- context [match ?m st with _ => _ end] =>
    match goal with |- context [match ?m' st' with _ => _ end] => enough (sim eq m m') as Hm by exact (Hm st st' Hs) end end.
  unfold handleSdkStateCall, handleSdkServiceCall, handleSdkEventsCall. simulate.
Qed.
End Calls.

Lemma run_code_sim handle handle' code :
  (forall input, sim eq (handle input) (handle' input)) ->
  sim eq (run_code handle code) (run_code handle' code).
Proof.
  intros Hh. induction code as [out err| |input k IH]; intros st st' Hs; simpl; [done|done|].
  specialize (Hh input st st' Hs).
  destruct (handle input st) as [[st1 r]|], (handle' input st') as [[st1' r']|]; try done.
  destruct Hh as [Hr Hs1]. assert (r' = r) as -> by (destruct r, r'; simpl in *; congruence || done).
  by apply IH.
Qed.

Lemma run_call_sim fuel p input : sim eq (run_call s fuel p input) (run_call s' fuel p input).
Proof.
  revert p input. induction fuel as [|fuel IH]; intros p input; [done|].
  simpl. apply run_code_sim. intros i. by apply HandleSdkCall_sim.
Qed.

(** ** Batches

    The first machine's batch holds what the second has in its storage, [base],
    and in its batch. *)
Variable h : Z.
Variable base : bytes -> bytes -> option bytes.
Hypothesis stored_base : forall contract key,
  stored s' h contract key =
  match base contract key with Some value => Ok value | None => stored s h contract key end.

Definition written_only (t : transientState) : Prop :=
  state_ok t /\ forall contract key, clean_value t contract key = None.

Record batch_sim (batch batch' : transientState) : Prop := {
  bs_written : written_only batch;
  bs_written' : written_only batch';
  bs_dirty contract key :
    dirty_value batch contract key =
    match dirty_value batch' contract key with Some value => Some value | None => base contract key end
}.

Lemma written_getValue t contract key :
  written_only t -> getValue t contract key = dirty_value t contract key.
Proof. intros [_ Hc]. rewrite getValue_cases, Hc. by destruct (dirty_value t contract key). Qed.

Lemma dirty_merge t master contract key :
  state_ok t -> state_ok master ->
  dirty_value (mergeIntoTransientState t master) contract key =
  match dirty_value t contract key with Some value => Some value | None => dirty_value master contract key end.
Proof.
  intros Ht Hm. unfold dirty_value at 1. rewrite lookup_merge by done.
  by destruct (dirty_value t contract key).
Qed.

Lemma written_merge t master :
  state_ok t -> written_only master -> written_only (mergeIntoTransientState t master).
Proof.
  intros Ht [Hm Hc]. split; [by apply merge_ok|]. intros contract key. unfold clean_value.
  rewrite lookup_merge by done. destruct (dirty_value t contract key); [done|]. apply Hc.
Qed.

Lemma batch_merge_sim t t' batch batch' :
  state_ok t -> state_ok t' ->
  (forall contract key, dirty_value t' contract key = dirty_value t contract key) ->
  batch_sim batch batch' -> batch_sim (mergeIntoTransientState t batch) (mergeIntoTransientState t' batch').
Proof.
  intros Ht Ht' Hd [Hw Hw' Hb]. split; [by apply written_merge..|]. intros contract key.
  rewrite !dirty_merge by (done || apply Hw || apply Hw'). rewrite Hd, Hb. by destruct (dirty_value t _ _).
Qed.

Lemma new_context_sim current timestamp proposer scope toq batch batch' :
  batch_sim batch batch' ->
  ctx_sim (with_batch (Some batch) (mkContext h current timestamp proposer [] newTransientState scope None toq []))
    (with_batch (Some batch') (mkContext h current timestamp proposer [] newTransientState scope None toq [])).
Proof.
  intros [Hw Hw' Hb]. split; simpl; try done; try apply new_ok. intros contract key.
  unfold view. cbn [transientSt with_batch batchTransientState lastCommittedBlockHeight].
  replace (getValue newTransientState contract key) with (@None bytes) by (unfold getValue; simpl; by rewrite lookup_empty).
  simpl. rewrite !written_getValue, Hb, stored_base by done. by destruct (dirty_value batch' contract key), (base contract key).
Qed.

Definition run_sim (r r' : runResult) : Prop :=
  run_CallResult r' = run_CallResult r /\ run_outputArgs r' = run_outputArgs r /\
  run_outputEvents r' = run_outputEvents r /\ run_err r' = run_err r /\
  option_Forall2 batch_sim (run_batch r) (run_batch r').

(** The body of [runMethod], after the context is allocated. *)
Lemma run_body_sim fuel id toq scope batch batch' :
  batch_sim batch batch' ->
  sim run_sim
    (vm_bind (vm_try (getServiceDeployment s (run_call s fuel) id (toq_ContractName toq))) (run_body s fuel id toq scope (Some batch)))
    (vm_bind (vm_try (getServiceDeployment s' (run_call s' fuel) id (toq_ContractName toq))) (run_body s' fuel id toq scope (Some batch'))).
Proof.
  intros Hb. apply sim_bind_eq; [apply sim_try, getServiceDeployment_sim, run_call_sim|].
  intros [processor|e|]; [|apply sim_ret; repeat split; by constructor|apply sim_panic].
  apply sim_with_service, sim_bind_eq; [apply run_call_sim|]. intros [[output|] err]; [|apply sim_panic].
  apply (sim_bind ctx_sim); [apply sim_deref|]. intros c c' [].
  apply sim_ret. repeat split; simpl; [by rewrite cs_events0|]. case_bool_decide; simpl; constructor; [|done].
  by apply batch_merge_sim.
Qed.

Lemma vm_sim_delete id st st' :
  vm_sim st st' ->
  vm_sim (mkVmState (delete id (activeContexts st)) (lastContextIdCounter st))
    (mkVmState (delete id (activeContexts st')) (lastContextIdCounter st')).
Proof.
  intros [Hn Hs]. split; [done|]. intros j. simpl. destruct (decide (id = j)) as [<-|Hne].
  - rewrite !lookup_delete_eq. constructor.
  - by rewrite !lookup_delete_ne by done.
Qed.

Lemma runMethod_sim fuel current timestamp proposer toq scope batch batch' :
  batch_sim batch batch' ->
  sim run_sim (runMethod s fuel h current timestamp proposer toq scope (Some batch))
    (runMethod s' fuel h current timestamp proposer toq scope (Some batch')).
Proof.
  intros Hb st st' Hs. pose proof (proj1 Hs) as Hn.
  rewrite !runMethod_run. unfold new_id. rewrite same_salt, Hn. set (id := CalcSha256 _). cbv zeta.
  set (sta := mkVmState (<[id := _]> (activeContexts st)) _).
  set (stb := mkVmState (<[id := _]> (activeContexts st')) _).
  assert (vm_sim sta stb) as Hab.
  { apply (vm_sim_insert id _ _ (mkVmState (activeContexts st) (lastContextIdCounter st + 1))
             (mkVmState (activeContexts st') (lastContextIdCounter st + 1)));
      [by split; [|apply Hs]|by apply new_context_sim]. }
  pose proof (run_body_sim fuel id toq scope batch batch' Hb sta stb Hab) as Hrun.
  destruct (vm_bind _ _ sta) as [[st1 r]|], (vm_bind _ _ stb) as [[st1' r']|]; try done.
  destruct Hrun as [Hr Hs1]. split; [done|]. by apply vm_sim_delete.
Qed.

Definition set_sim (r r' : list TransactionReceipt * transientState) : Prop :=
  r'.1 = r.1 /\ batch_sim r.2 r'.2.

Lemma process_transactions_sim fuel current timestamp proposer txs batch batch' :
  u64_sub current 1 = h -> batch_sim batch batch' ->
  sim set_sim (process_transactions s fuel current timestamp proposer txs batch)
    (process_transactions s' fuel current timestamp proposer txs batch').
Proof.
  intros Hh. revert batch batch'. induction txs as [|tx txs IH]; intros batch batch' Hb; simpl.
  - by apply sim_ret.
  - rewrite Hh. apply (sim_bind run_sim); [by apply runMethod_sim|]. intros r r' (E1 & E2 & E3 & _ & Hb').
    apply (sim_bind set_sim); [apply IH; by destruct Hb'|]. intros rest rest' [E Hrest].
    apply sim_ret. by rewrite E, E1, E2, E3.
Qed.
End Simulation.

(** ** Splitting a set *)

Section Split.
Context `{Sha256} `{Membuffers} `{ArgumentArrays}.
Variable s : service.

Lemma idle_sim t t' st : idle st -> vm_sim t t' st st.
Proof. intros Hst. split; [done|]. intros id. rewrite Hst, lookup_empty. constructor. Qed.

Lemma new_written : written_only newTransientState.
Proof. split; [apply new_ok|]. intros contract key. unfold clean_value, lookup_pair. simpl. by rewrite lookup_empty. Qed.

Lemma new_dirty contract key : dirty_value newTransientState contract key = None.
Proof. unfold dirty_value, lookup_pair. simpl. by rewrite lookup_empty. Qed.

(** A batch holds written values only. *)
Lemma process_transactions_written fuel current timestamp proposer txs st st' receipts batch :
  idle st ->
  process_transactions s fuel current timestamp proposer txs newTransientState st = Some (st', Ok (receipts, batch)) ->
  written_only batch.
Proof.
  intros Hst Hrun.
  assert (batch_sim (fun _ _ => None) newTransientState newTransientState) as Hnew.
  { split; [apply new_written..|]. intros contract key. by rewrite new_dirty. }
  pose proof (process_transactions_sim s s eq_refl eq_refl eq_refl eq_refl _ (fun _ _ => None)
    (fun _ _ => eq_refl) fuel current timestamp proposer txs _ _ eq_refl Hnew st st (idle_sim s s st Hst)) as Hsim.
  rewrite Hrun in Hsim. destruct Hsim as [[_ [Hw _ _]] _]. done.
Qed.

Lemma process_transactions_app fuel current timestamp proposer txs1 txs2 batch st :
  process_transactions s fuel current timestamp proposer (txs1 ++ txs2) batch st =
  (let% r1 := process_transactions s fuel current timestamp proposer txs1 batch in
   let% r2 := process_transactions s fuel current timestamp proposer txs2 r1.2 in
   vm_ret (r1.1 ++ r2.1, r2.2)) st.
Proof.
  revert batch st. induction txs1 as [|tx txs1 IH]; intros batch st; simpl.
  - unfold vm_bind, vm_ret. simpl. by destruct (process_transactions _ _ _ _ _ _ _ _) as [[st1 [[]|e|]]|].
  - unfold vm_bind at 1 3 4. destruct (runMethod _ _ _ _ _ _ _ _ _ _) as [[st1 [r|e|]]|]; try done.
    unfold vm_bind at 1. rewrite IH. unfold vm_bind, vm_ret.
    destruct (process_transactions _ _ _ _ _ txs1 _ _) as [[st2 [r1|e|]]|]; try done.
    by destruct (process_transactions _ _ _ _ _ txs2 _ _) as [[st3 [r2|e|]]|].
Qed.
End Split.

Lemma stored_committed s s' h batch :
  state_ok batch ->
  (forall contract key, s_ReadKeys s' h contract [key] =
     match chain_lookup (inflateChainState (encodeBatchTransientStateToStateDiffs batch)) contract key with
     | Some value => Ok [mkStateRecord key value]
     | None => s_ReadKeys s h contract [key]
     end) ->
  forall contract key, stored s' h contract key =
    match dirty_value batch contract key with Some value => Ok value | None => stored s h contract key end.
Proof.
  intros Hok Hread contract key. unfold stored. rewrite Hread, encode_lookup by done.
  by destruct (dirty_value batch contract key).
Qed.

(** The results of a set, and of its second part on the state with [diffs1]. *)
Definition composes (receipts1 : list TransactionReceipt) (diffs1 : list ContractStateDiff)
    (r r2 : list TransactionReceipt * list ContractStateDiff) : Prop :=
  r.1 = receipts1 ++ r2.1 /\
  forall contract key,
    chain_lookup (inflateChainState r.2) contract key =
    match chain_lookup (inflateChainState r2.2) contract key with
    | Some value => Some value
    | None => chain_lookup (inflateChainState diffs1) contract key
    end.

(** C3. Processing a set of transactions is processing a first part of it,
    committing the state diffs, and processing the rest on the new state: the
    receipts are the same and the state diffs compose, for any contracts. *)
Theorem transaction_set_splits `{Sha256} `{Membuffers} `{ArgumentArrays} (s s' : service)
    fuel current timestamp proposer txs1 txs2 st st1 receipts1 diffs1 :
  idle st ->
  ProcessTransactionSet s fuel current timestamp proposer txs1 st = Some (st1, Ok (receipts1, diffs1)) ->
  reads_committed s (u64_sub current 1) diffs1 s' ->
  match ProcessTransactionSet s fuel current timestamp proposer (txs1 ++ txs2) st,
        ProcessTransactionSet s' fuel current timestamp proposer txs2 st1 with
  | Some (_, r), Some (_, r2) => outcome_sim (composes receipts1 diffs1) r r2
  | None, None => True
  | _, _ => False
  end.
Proof.
  intros Hst Hrun [Ep Ec Eg Es Hread].
  pose proof (process_transactions_idling s fuel current timestamp proposer txs1 newTransientState st) as Hidle.
  unfold ProcessTransactionSet, processTransactionSet, vm_bind in *. rewrite process_transactions_app.
  unfold vm_bind, vm_ret in *.
  destruct (process_transactions s _ _ _ _ txs1 _ _) as [[st1' [[receipts batch]|e|]]|] eqn:E1; try done.
  injection Hrun as -> <- <-. simpl in *. specialize (Hidle _ _ Hst eq_refl).
  pose proof (process_transactions_written _ _ _ _ _ _ _ _ _ _ Hst E1) as Hw.
  assert (batch_sim (dirty_value batch) batch newTransientState) as Hb.
  { split; [done|apply new_written|]. intros contract key. by rewrite new_dirty. }
  pose proof (process_transactions_sim s s' Ep Ec Eg Es (u64_sub current 1) (dirty_value batch)) as Hsim.
  specialize (Hsim (stored_committed _ _ _ _ (proj1 Hw) Hread) fuel current timestamp proposer txs2 _ _ eq_refl Hb
    st1 st1 (idle_sim _ _ _ Hidle)).
  destruct (process_transactions s _ _ _ _ txs2 _ _) as [[st2 [r|e|]]|],
    (process_transactions s' _ _ _ _ txs2 _ _) as [[st2' [r'|e'|]]|]; simpl in *; try tauto.
  destruct Hsim as [[Hr [Hw1 Hw2 Hd]] _]. split; simpl; [by rewrite Hr|].
  intros contract key. by rewrite !encode_lookup by (apply Hw || apply Hw1 || apply Hw2).
Qed.

Import ExampleMachine.

Definition first_diffs : list ContractStateDiff := [mkContractStateDiff [65] [mkStateRecord [1] [5]]].

Lemma first_lookup contract key :
  chain_lookup (inflateChainState first_diffs) contract key =
  if decide (contract = [65] /\ key = [1]) then Some [5] else None.
Proof.
  unfold chain_lookup, inflateChainState, first_diffs, inflate_records.
  cbn [foldl csd_ContractName csd_StateDiffs sr_Key sr_Value]. rewrite lookup_empty. cbn [default].
  destruct (decide (contract = [65])) as [->|Hc].
  - rewrite lookup_insert_eq. cbn [mbind option_bind]. destruct (decide (key = [1])) as [->|Hk].
    + by rewrite lookup_insert_eq, decide_True.
    + by rewrite lookup_insert_ne, lookup_empty, decide_False by naive_solver.
  - by rewrite lookup_insert_ne, lookup_empty, decide_False by naive_solver.
Qed.

Lemma machine_reads_committed : reads_committed (machine []) 3 first_diffs (machine [([65], [1], [5])]).
Proof.
  split; try reflexivity. intros contract key. rewrite first_lookup. cbn [s_ReadKeys machine]. unfold storage.
  cbn [map]. case_decide as Hck.
  - destruct Hck as [-> ->]. reflexivity.
  - rewrite filter_cons_False; [reflexivity|]. cbn. intros E. apply Hck. split; congruence.
Qed.

(** The second transaction sees the byte the first appended. *)
Lemma transaction_set_splits_witness : exists st1 receipts1,
  ProcessTransactionSet (machine []) 5 4 100 [9] [transaction [65] [66]] newExecutionContextProvider =
    Some (st1, Ok (receipts1, first_diffs)) /\
  exists st2 receipts2 diffs,
    ProcessTransactionSet (machine []) 5 4 100 [9] ([transaction [65] [66]] ++ [transaction [65] [67]])
      newExecutionContextProvider = Some (st2, Ok (receipts1 ++ receipts2, diffs)) /\
    chain_lookup (inflateChainState diffs) [65] [1] = Some [5; 5].
Proof.
  destruct (ProcessTransactionSet (machine []) 5 4 100 [9] [transaction [65] [66]] _)
    as [[st1 [[receipts1 diffs1]|e|]]|] eqn:E1; [|vm_compute in E1; discriminate E1..].
  assert (diffs1 = first_diffs) as -> by (pose proof E1 as E'; vm_compute in E'; injection E' as _ _ <-; reflexivity).
  exists st1, receipts1. split; [reflexivity|].
  pose proof (transaction_set_splits (machine []) (machine [([65], [1], [5])]) 5 4 100 [9]
    [transaction [65] [66]] [transaction [65] [67]] newExecutionContextProvider st1 receipts1 first_diffs
    eq_refl E1 machine_reads_committed) as Hsplit.
  destruct (ProcessTransactionSet (machine []) 5 4 100 [9] (_ ++ _) _) as [[st2 [[receipts diffs]|e|]]|] eqn:E2;
    [|vm_compute in E2; discriminate E2..].
  destruct (ProcessTransactionSet (machine [([65], [1], [5])]) _ _ _ _ _ _) as [[st2' [[receipts2 diffs2]|e|]]|];
    simpl in Hsplit; try contradiction.
  destruct Hsplit as [Hr _]. simpl in Hr. subst receipts. exists st2, receipts2, diffs. split; [reflexivity|].
  vm_compute in E2. injection E2 as _ _ <-. vm_compute. reflexivity.
Defined.
