(* ===== verification/ContractSdk.v ===== *)
(** * Contract code and the contract SDK

    What the prebuilt contracts of services/processor/native/repository are
    written in.  A contract is a program of SDK calls ([prog]): it reads and
    writes its own state, asks for addresses and the block it runs in, emits
    events, calls other contracts and asks the Ethereum connector, and it may
    panic.  [run] gives a program its meaning on a flat store, one value per
    contract and key; ProcessorSdk.v gives the same programs their meaning
    through services/processor/sdk and the virtual machine.

    The packages of orbs-contract-sdk that the contracts import (state, address,
    env, events, service, ethereum, safemath) are not part of the repository:
    their number encodings, their checked arithmetic and their address check are
    the parameters of the class [ContractSdk].  A panic carries the format string
    of its message, without the arguments. *)
From stdpp Require Import base gmap strings numbers pretty list.
From Stdlib Require Import ZArith Lia ZifyBool.
From S2P Require Import Prelude Hash Digest VirtualMachine.
Import VirtualMachine.

(** ** Panics and Ethereum values *)

(** What a contract panics with: a message of its own, the error of an SDK call, or
    a run-time error of Go.  [OutOfFuel] is no panic of the code: it marks a run of
    the model that has used up the fuel of a loop. *)
Inductive panic_value :=
| PanicMessage (format : string)
| PanicError (e : vm_error)
| PanicRuntime
| OutOfFuel.

(** Values that cross the ABI of Ethereum contracts; the pointer a contract passes
    fixes the form of the result. *)
Inductive eth_value :=
| EthUint (n : Z)
| EthAddress (a : bytes)
| EthAddresses (l : list bytes)
| EthVote (validators : list bytes) (blockNumber : Z)
| EthTransfer (from to : bytes) (value : Z)
| EthDelegate (delegator to : bytes) (counter : Z)
| EthSubscription (id : bytes) (plan : bytes) (startTime tokens : Z).

(** ** Programs *)

Inductive sdk_op : Type -> Type :=
| StateReadBytes (key : bytes) : sdk_op bytes
| StateWriteBytes (key value : bytes) : sdk_op unit
| AddressGetSignerAddress : sdk_op bytes
| AddressGetCallerAddress : sdk_op bytes
| AddressGetContractAddress (contractName : bytes) : sdk_op bytes
| EnvGetBlockHeight : sdk_op Z
| EnvGetBlockTimestamp : sdk_op Z
| EnvGetVirtualChainId : sdk_op Z
| EnvGetBlockProposerAddress : sdk_op bytes
| EnvGetBlockCommittee : sdk_op (list bytes)
| EventsEmitEvent (eventName : bytes) (args : list Argument) : sdk_op unit
| ServiceCallMethod (serviceName methodName : bytes) (args : list Argument) : sdk_op (list Argument)
| EthereumCallMethodAtBlock (ethBlockNumber : Z) (ethContractAddress jsonAbi methodName : bytes)
    (args : list eth_value) : sdk_op eth_value
| EthereumGetTransactionLog (ethContractAddress jsonAbi ethTxHash eventName : bytes)
    : sdk_op (eth_value * Z * Z)
| EthGetBlockNumber : sdk_op Z
| EthGetBlockNumberByTime (ethBlockTimestamp : Z) : sdk_op Z
| EthGetBlockTime : sdk_op Z
| EthGetBlockTimeByNumber (ethBlockNumber : Z) : sdk_op Z.

Inductive prog (A : Type) : Type :=
| Ret (a : A)
| Panics (v : panic_value)
| Vis {X : Type} (op : sdk_op X) (continue : X -> prog A).
Arguments Ret {A} a.
Arguments Panics {A} v.
Arguments Vis {A X} op continue.

#[export] Instance prog_ret : MRet prog := fun A a => Ret a.
#[export] Instance prog_bind : MBind prog := fun A B k =>
  fix bind m :=
    match m with
    | Ret a => k a
    | Panics v => Panics v
    | Vis op continue => Vis op (fun x => bind (continue x))
    end.

Definition perform {X} (op : sdk_op X) : prog X := Vis op Ret.
Definition panics {A} (format : string) : prog A := Panics (PanicMessage format).

(** [for i := from; i < from + n; i++], and [for _, x := range l]. *)
Fixpoint for_loop {S} (n : nat) (from : Z) (body : Z -> S -> prog S) (s : S) : prog S :=
  match n with
  | O => mret s
  | S n => s ← body from s; for_loop n (from + 1) body s
  end.

Fixpoint range_loop {X S} (l : list X) (body : X -> S -> prog S) (s : S) : prog S :=
  match l with
  | [] => mret s
  | x :: l => s ← body x s; range_loop l body s
  end.

(** ** The packages of the SDK *)

Definition checked (w : Z) (r : Z) : option Z := if (0 <=? r) && (r <? 2 ^ w) then Some r else None.

(** state.WriteUint32 and the like write an encoding that the corresponding read
    decodes, and a key without a value reads as zero.  The arithmetic of safemath
    is the exact one, with a panic where the result does not fit or a divisor is
    zero.  [panic_text] is the text of a panic value. *)
Class ContractSdk := {
  uint32_value : bytes -> Z;
  uint32_bytes : Z -> bytes;
  uint64_value : bytes -> Z;
  uint64_bytes : Z -> bytes;
  safeuint32_Add : Z -> Z -> option Z;
  safeuint64_Add : Z -> Z -> option Z;
  safeuint64_Sub : Z -> Z -> option Z;
  safeuint64_Mul : Z -> Z -> option Z;
  safeuint64_Div : Z -> Z -> option Z;
  safeuint64_Mod : Z -> Z -> option Z;
  valid_address : bytes -> bool;
  panic_text : panic_value -> bytes
}.

Class ContractSdkLaws `{ContractSdk} := {
  uint32_bound b : is_u32 (uint32_value b);
  uint32_roundtrip n : is_u32 n -> uint32_value (uint32_bytes n) = n;
  uint32_empty : uint32_value [] = 0;
  uint64_bound b : is_u64 (uint64_value b);
  uint64_roundtrip n : is_u64 n -> uint64_value (uint64_bytes n) = n;
  uint64_empty : uint64_value [] = 0;
  safeuint32_Add_spec x y : is_u32 x -> is_u32 y -> safeuint32_Add x y = checked 32 (x + y);
  safeuint64_Add_spec x y : is_u64 x -> is_u64 y -> safeuint64_Add x y = checked 64 (x + y);
  safeuint64_Sub_spec x y : is_u64 x -> is_u64 y -> safeuint64_Sub x y = checked 64 (x - y);
  safeuint64_Mul_spec x y : is_u64 x -> is_u64 y -> safeuint64_Mul x y = checked 64 (x * y);
  safeuint64_Div_spec x y : is_u64 x -> is_u64 y ->
    safeuint64_Div x y = if y =? 0 then None else Some (x / y);
  safeuint64_Mod_spec x y : is_u64 x -> is_u64 y ->
    safeuint64_Mod x y = if y =? 0 then None else Some (x mod y)
}.

Section Packages.
Context `{ContractSdk}.

Definition ReadBytes (key : bytes) : prog bytes := perform (StateReadBytes key).
Definition WriteBytes (key value : bytes) : prog unit := perform (StateWriteBytes key value).
Definition Clear (key : bytes) : prog unit := WriteBytes key [].
Definition ReadUint32 (key : bytes) : prog Z := b ← ReadBytes key; mret (uint32_value b).
Definition WriteUint32 (key : bytes) (n : Z) : prog unit := WriteBytes key (uint32_bytes n).
Definition ReadUint64 (key : bytes) : prog Z := b ← ReadBytes key; mret (uint64_value b).
Definition WriteUint64 (key : bytes) (n : Z) : prog unit := WriteBytes key (uint64_bytes n).

Definition safe (r : option Z) : prog Z :=
  match r with Some n => mret n | None => panics "safemath" end.

Definition ValidateAddress (a : bytes) : prog unit :=
  if valid_address a then mret tt else panics "valid address length is 20 bytes".
End Packages.

(** fmt.Sprintf with %d, of a number that is not negative. *)
Definition sprint_d (n : Z) : bytes := go_string (pretty (Z.to_N n)).

(** ** The meaning of a program on a flat store *)

(** What the SDK's Ethereum calls return; [None] where the call panics. *)
Record ethereum := mkEthereum {
  eth_call : Z -> bytes -> bytes -> bytes -> list eth_value -> option eth_value;
  eth_log : bytes -> bytes -> bytes -> bytes -> option (eth_value * Z * Z);
  eth_block_number : option Z;
  eth_number_by_time : Z -> option Z;
  eth_block_time : option Z;
  eth_time_by_number : Z -> option Z
}.

(** The circumstances of a call of a contract. *)
Record call_env := mkEnv {
  e_contract : bytes;
  e_signer : bytes;
  e_caller : bytes;
  e_height : Z;
  e_timestamp : Z;
  e_vcid : Z;
  e_proposer : bytes;
  e_committee : list bytes;
  e_ethereum : ethereum
}.

Abbreviation store := (gmap (bytes * bytes) bytes).

Record world := mkWorld {
  w_store : store;
  w_events : list (bytes * bytes * list Argument)
}.

Inductive reply (A : Type) : Type := Returned (a : A) | Panicked (v : panic_value).
Arguments Returned {A} a.
Arguments Panicked {A} v.

Definition stored (s : store) (contract key : bytes) : bytes := default [] (s !! (contract, key)).

Definition or_panic {A} (o : option A) : reply A :=
  match o with Some a => Returned a | None => Panicked PanicRuntime end.

Section Run.
Context `{Sha256} `{ContractSdk}.
(** A call of another contract: its contract, method and arguments, from the
    environment of the caller. *)
Variable call_method : call_env -> bytes -> bytes -> list Argument -> world -> reply (list Argument) * world.
Variable e : call_env.

Definition contract_address (name : bytes) : reply bytes :=
  match CalcClientAddressOfContract name with
  | Ok a => Returned a
  | Err err => Panicked (PanicError err)
  | Panic => Panicked PanicRuntime
  end.

Definition step {X} (op : sdk_op X) (w : world) : reply X * world :=
  match op in sdk_op X return reply X * world with
  | StateReadBytes key => (Returned (stored (w_store w) (e_contract e) key), w)
  | StateWriteBytes key value =>
      (Returned tt, mkWorld (<[(e_contract e, key) := value]> (w_store w)) (w_events w))
  | AddressGetSignerAddress => (Returned (e_signer e), w)
  | AddressGetCallerAddress => (Returned (e_caller e), w)
  | AddressGetContractAddress name => (contract_address name, w)
  | EnvGetBlockHeight => (Returned (e_height e), w)
  | EnvGetBlockTimestamp => (Returned (e_timestamp e), w)
  | EnvGetVirtualChainId => (Returned (e_vcid e), w)
  | EnvGetBlockProposerAddress => (Returned (e_proposer e), w)
  | EnvGetBlockCommittee => (Returned (e_committee e), w)
  | EventsEmitEvent name args =>
      (Returned tt, mkWorld (w_store w) (w_events w ++ [(e_contract e, name, args)]))
  | ServiceCallMethod service method args => call_method e service method args w
  | EthereumCallMethodAtBlock block contract jsonAbi method args =>
      (or_panic (eth_call (e_ethereum e) block contract jsonAbi method args), w)
  | EthereumGetTransactionLog contract jsonAbi txHash eventName =>
      (or_panic (eth_log (e_ethereum e) contract jsonAbi txHash eventName), w)
  | EthGetBlockNumber => (or_panic (eth_block_number (e_ethereum e)), w)
  | EthGetBlockNumberByTime t => (or_panic (eth_number_by_time (e_ethereum e) t), w)
  | EthGetBlockTime => (or_panic (eth_block_time (e_ethereum e)), w)
  | EthGetBlockTimeByNumber n => (or_panic (eth_time_by_number (e_ethereum e) n), w)
  end.

Fixpoint run {A} (p : prog A) (w : world) : reply A * world :=
  match p with
  | Ret a => (Returned a, w)
  | Panics v => (Panicked v, w)
  | Vis op continue =>
      match step op w with
      | (Returned x, w) => run (continue x) w
      | (Panicked v, w) => (Panicked v, w)
      end
  end.

Lemma run_bind {A B} (p : prog A) (k : A -> prog B) w :
  run (p ≫= k) w =
    match run p w with
    | (Returned a, w) => run (k a) w
    | (Panicked v, w) => (Panicked v, w)
    end.
Proof.
  revert w. induction p as [a|v|X op continue IH]; intros w; [done..|]. cbn.
  destruct (step op w) as [[x|v] w']; [apply IH|done].
Qed.

Lemma run_ret {A} (a : A) w : run (mret a) w = (Returned a, w).
Proof. done. Qed.
Lemma run_perform {X} (op : sdk_op X) w : run (perform op) w = step op w.
Proof. cbn. by destruct (step op w) as [[?|?] ?]. Qed.
Lemma run_panics {A} format w : run (panics (A := A) format) w = (Panicked (PanicMessage format), w).
Proof. done. Qed.

Lemma run_ReadBytes key w : run (ReadBytes key) w = (Returned (stored (w_store w) (e_contract e) key), w).
Proof. done. Qed.
Lemma run_WriteBytes key value w :
  run (WriteBytes key value) w =
    (Returned tt, mkWorld (<[(e_contract e, key) := value]> (w_store w)) (w_events w)).
Proof. done. Qed.
Lemma run_ReadUint32 key w :
  run (ReadUint32 key) w = (Returned (uint32_value (stored (w_store w) (e_contract e) key)), w).
Proof. done. Qed.
Lemma run_ReadUint64 key w :
  run (ReadUint64 key) w = (Returned (uint64_value (stored (w_store w) (e_contract e) key)), w).
Proof. done. Qed.
Lemma run_WriteUint32 key n w :
  run (WriteUint32 key n) w =
    (Returned tt, mkWorld (<[(e_contract e, key) := uint32_bytes n]> (w_store w)) (w_events w)).
Proof. done. Qed.
Lemma run_WriteUint64 key n w :
  run (WriteUint64 key n) w =
    (Returned tt, mkWorld (<[(e_contract e, key) := uint64_bytes n]> (w_store w)) (w_events w)).
Proof. done. Qed.
Lemma run_safe r n w : r = Some n -> run (safe r) w = (Returned n, w).
Proof. by intros ->. Qed.
End Run.

Create Rewrite HintDb runs.
#[export] Hint Rewrite @run_bind @run_ret @run_perform @run_panics @run_ReadBytes @run_WriteBytes
  @run_ReadUint32 @run_ReadUint64 @run_WriteUint32 @run_WriteUint64 : runs.

(** [runs] steps through a program. *)
Ltac runs := repeat (autorewrite with runs; cbn [fst snd step]).

(** ** The store *)

Lemma stored_insert_eq s c k v : stored (<[(c, k) := v]> s) c k = v.
Proof. unfold stored. by rewrite lookup_insert_eq. Qed.

Lemma stored_insert_ne s c k v k' : k <> k' -> stored (<[(c, k) := v]> s) c k' = stored s c k'.
Proof. intros Hne. unfold stored. rewrite lookup_insert_ne; [done|]. congruence. Qed.

Lemma stored_insert_other s c k v c' k' : c <> c' -> stored (<[(c, k) := v]> s) c' k' = stored s c' k'.
Proof. intros Hne. unfold stored. rewrite lookup_insert_ne; [done|]. congruence. Qed.

(** ** Keys *)

Lemma go_string_inj s s' : go_string s = go_string s' -> s = s'.
Proof.
  intros E. rewrite <-(String.string_of_list_ascii_of_string s), <-(String.string_of_list_ascii_of_string s').
  f_equal. revert E. unfold go_string. generalize (String.list_ascii_of_string s).
  generalize (String.list_ascii_of_string s'). clear. intros l l'. revert l.
  induction l' as [|a l' IH]; intros [|b l]; cbn; try done. intros [= Ea El].
  f_equal; [|by apply IH]. rewrite <-(Ascii.ascii_N_embedding a), <-(Ascii.ascii_N_embedding b). f_equal. lia.
Qed.

Lemma sprint_d_inj n m : 0 <= n -> 0 <= m -> sprint_d n = sprint_d m -> n = m.
Proof. intros Hn Hm E%go_string_inj%(inj _). lia. Qed.

(** ** An SDK

    Numbers are stored little endian; the arithmetic is the checked one. *)
Module ExampleSdk.

#[export] Instance sdk : ContractSdk := {
  uint32_value b := wrap 32 (le_word b);
  uint32_bytes n := le_bytes 4 n;
  uint64_value b := wrap 64 (le_word b);
  uint64_bytes n := le_bytes 8 n;
  safeuint32_Add x y := checked 32 (x + y);
  safeuint64_Add x y := checked 64 (x + y);
  safeuint64_Sub x y := checked 64 (x - y);
  safeuint64_Mul x y := checked 64 (x * y);
  safeuint64_Div x y := if y =? 0 then None else Some (x / y);
  safeuint64_Mod x y := if y =? 0 then None else Some (x mod y);
  valid_address a := bool_decide (length a = 20%nat);
  panic_text v := match v with PanicMessage format => go_string format | _ => [] end
}.

#[export] Instance sdk_laws : ContractSdkLaws.
Proof.
  split; intros; try done; cbn [uint32_value uint32_bytes uint64_value uint64_bytes sdk].
  - by apply wrap_bound.
  - rewrite le_word_bytes by done. by apply wrap_small.
  - by apply wrap_bound.
  - rewrite le_word_bytes by done. by apply wrap_small.
Qed.

Definition no_ethereum : ethereum :=
  mkEthereum (fun _ _ _ _ _ => None) (fun _ _ _ _ => None) None (fun _ => None) None (fun _ => None).

(** A world in which every call of another contract panics. *)
Definition no_calls (_ : call_env) (_ _ : bytes) (_ : list Argument) (w : world) : reply (list Argument) * world :=
  (Panicked PanicRuntime, w).

Definition address (n : Z) : bytes := replicate 20 n.

End ExampleSdk.
