(* ===== verification/Committee.v ===== *)
(** * The committee contract

    The system contracts _Committee and _Triggers
    (services/processor/native/repository/Committee and Triggers).  The trigger
    transaction that closes a block calls [updateMisses]: the committee is put in
    an order drawn by lot, weighted by reputation, from a seed that is the block
    height; the members before the proposer missed their turn, and the proposer's
    misses are cleared.

    The order is shown to be a permutation of the committee, whatever the hash
    function returns, and the effect of [updateMisses] on the misses of every
    address is given. *)
From stdpp Require Import base gmap strings numbers list.
From Stdlib Require Import ZArith Lia ZifyBool.
From S2P Require Import Prelude Hash Digest Encoding VirtualMachine ContractSdk.
Import VirtualMachine.

Module Committee.

Section Contract.
Context `{Sha256} `{ContractSdk}.

(** ** Reputation (reputation.go) *)

Definition ToleranceLevel : Z := 2.
Definition ReputationBottomCap : Z := 8.

Definition _formatMisses (addr : bytes) : bytes :=
  go_string "Address_" ++ hex_EncodeToString addr ++ go_string "_Misses".

Definition getMisses (addr : bytes) : prog Z := ReadUint32 (_formatMisses addr).

Definition _addMiss (addr : bytes) : prog unit :=
  currMiss ← getMisses addr;
  n ← safe (safeuint32_Add currMiss 1);
  WriteUint32 (_formatMisses addr) n.

Definition _getMaxReputation : Z := u32_sub ReputationBottomCap ToleranceLevel.

Definition getReputation (addr : bytes) : prog Z :=
  currMiss ← getMisses addr;
  mret (if currMiss <=? ToleranceLevel then 0
        else if currMiss <? ReputationBottomCap then u32_sub currMiss ToleranceLevel
        else _getMaxReputation).

Definition _clearMiss (addr : bytes) : prog unit := Clear (_formatMisses addr).

(** [copy] into an array of 20 bytes. *)
Definition address_array (a : bytes) : bytes := take 20 a ++ replicate (20 - length a) 0.

Definition collect_committee (read : bytes -> prog Z) : prog (list bytes * list Z) :=
  addressesArray ← perform EnvGetBlockCommittee;
  range_loop addressesArray (fun address '(addresses, numbers) =>
    n ← read address;
    mret (addresses ++ [address_array address], numbers ++ [n])) ([], []).

Definition getAllCommitteeMisses : prog (list bytes * list Z) := collect_committee getMisses.
Definition getAllCommitteeReputations : prog (list bytes * list Z) := collect_committee getReputation.

(** ** The order of a committee (committee.go) *)

Definition _generateSeed (blockHeight : Z) : bytes := le_bytes 8 blockHeight.

Definition _absoluteWeight (address : bytes) : prog Z :=
  reputation ← getReputation address;
  mret (Z.shiftl 1 (u32_sub _getMaxReputation reputation)).

Definition _calculateAccumulatedWeightArray (addresses : list bytes) : prog (list Z * Z) :=
  range_loop addresses (fun address '(accumulatedWeights, totalWeight) =>
    weight ← _absoluteWeight address;
    mret (accumulatedWeights ++ [totalWeight + weight], totalWeight + weight)) ([], 0).

Definition _nextRandom (random : bytes) : bytes := CalcSha256 [random].

(** The last four bytes of the digest; the modulus of a zero weight panics. *)
Definition _getRandomWeight (random : bytes) (maxWeight : Z) : prog Z :=
  let tail := drop (SHA256_HASH_SIZE_BYTES - 4) random in
  if bool_decide (length tail < 4)%nat || (wrap 32 maxWeight =? 0) then Panics PanicRuntime
  else mret (le_word (take 4 tail) mod wrap 32 maxWeight + 1).

(** The loop over the members: the first one whose accumulated weight is not below
    [curr] is taken, and the weights of those after it are reduced. *)
Fixpoint take_member (curr : Z) (addresses : list bytes) (accumulatedWeights : list Z)
    : prog (option (bytes * Z * list Z)) :=
  match addresses, accumulatedWeights with
  | address :: addresses, weight :: accumulatedWeights =>
      if curr >? weight then
        r ← take_member curr addresses accumulatedWeights;
        mret match r with Some (a, w, rest) => Some (a, w, weight :: rest) | None => None end
      else
        currWeight ← _absoluteWeight address;
        mret (Some (address, currWeight,
                    0 :: map (fun x => if x =? 0 then x else x - currWeight) accumulatedWeights))
  | _, _ => mret None
  end.

Definition order_step (addresses : list bytes) (state : list bytes * bytes * list Z * Z)
    : prog (list bytes * bytes * list Z * Z) :=
  let '(ordered, random, accumulatedWeights, totalWeight) := state in
  let random := _nextRandom random in
  curr ← _getRandomWeight random totalWeight;
  r ← take_member curr addresses accumulatedWeights;
  mret match r with
       | Some (address, currWeight, accumulatedWeights) =>
           (ordered ++ [address], random, accumulatedWeights, totalWeight - currWeight)
       | None => (ordered, random, accumulatedWeights, totalWeight)
       end.

Definition _orderList (addresses : list bytes) (seed : bytes) : prog (list bytes) :=
  weights ← _calculateAccumulatedWeightArray addresses;
  r ← for_loop (length addresses) 0 (fun _ => order_step addresses) ([], seed, weights.1, weights.2);
  mret r.1.1.1.

Definition getOrderedCommittee : prog (list bytes) :=
  addresses ← perform EnvGetBlockCommittee;
  height ← perform EnvGetBlockHeight;
  _orderList addresses (_generateSeed height).

Definition getNextOrderedCommittee : prog (list bytes) :=
  addresses ← perform EnvGetBlockCommittee;
  height ← perform EnvGetBlockHeight;
  _orderList addresses (_generateSeed (u64_add height 1)).

(** ** Misses (update.go) *)

Definition TRIGGER_CONTRACT : bytes := go_string "_Triggers".

Definition _isMemberOfOrderedCommittee (orderedCommittee : list bytes) (blockProposer : bytes) : bool :=
  existsb (fun member => bool_decide (member = blockProposer)) orderedCommittee.

Definition _clearMissAddEmitEvent (address : bytes) : prog unit :=
  _ ← _clearMiss address;
  perform (EventsEmitEvent (go_string "CommitteeMemberClosedBlock") [ArgBytes address]).

Definition _addMissAddEmitEvent (address : bytes) : prog unit :=
  _ ← _addMiss address;
  perform (EventsEmitEvent (go_string "CommitteeMemberMissed") [ArgBytes address]).

Fixpoint _updateMissesByCommitteeOrder (orderedCommittee : list bytes) (blockProposer : bytes) : prog unit :=
  match orderedCommittee with
  | [] => mret tt
  | member :: rest =>
      if bool_decide (member = blockProposer) then _clearMissAddEmitEvent member
      else _ ← _addMissAddEmitEvent member; _updateMissesByCommitteeOrder rest blockProposer
  end.

Definition updateMisses : prog unit :=
  caller ← perform AddressGetCallerAddress;
  trigger ← perform (AddressGetContractAddress TRIGGER_CONTRACT);
  if bool_decide (caller <> trigger) then panics "must be called from %s contract only"
  else
    ordered ← getOrderedCommittee;
    blockProposer ← perform EnvGetBlockProposerAddress;
    if (0 <? length ordered)%nat && negb (_isMemberOfOrderedCommittee ordered blockProposer) then
      panics "block proposer address from %x was not found in committee of block height %d"
    else if (length ordered =? 0)%nat then _clearMissAddEmitEvent blockProposer
    else _updateMissesByCommitteeOrder ordered blockProposer.

End Contract.

(** ** Weights *)

Section Order.
Context `{Sha256Laws} `{ContractSdkLaws}.
Variable call_method : call_env -> bytes -> bytes -> list Argument -> world -> reply (list Argument) * world.
Variable e : call_env.

(** The misses, the reputation and the weight of an address in a state. *)
Definition misses (s : store) (addr : bytes) : Z := uint32_value (stored s (e_contract e) (_formatMisses addr)).

Definition reputation (s : store) (addr : bytes) : Z :=
  if misses s addr <=? 2 then 0 else if misses s addr <? 8 then misses s addr - 2 else 6.

Definition weight (s : store) (addr : bytes) : Z := 2 ^ (6 - reputation s addr).

Lemma misses_bound s addr : is_u32 (misses s addr).
Proof. apply uint32_bound. Qed.

Lemma run_getReputation addr w :
  run call_method e (getReputation addr) w = (Returned (reputation (w_store w) addr), w).
Proof.
  unfold getReputation, getMisses. runs. fold (misses (w_store w) addr). do 2 f_equal.
  unfold reputation, ToleranceLevel, ReputationBottomCap. case_match; [done|]. case_match; [|done]. by words.
Qed.

Lemma reputation_bound s addr : 0 <= reputation s addr <= 6.
Proof. unfold reputation. repeat case_match; lia. Qed.

Lemma run_absoluteWeight addr w :
  run call_method e (_absoluteWeight addr) w = (Returned (weight (w_store w) addr), w).
Proof.
  unfold _absoluteWeight. rewrite run_bind, run_getReputation, run_ret. do 2 f_equal.
  pose proof (reputation_bound (w_store w) addr) as Hr. unfold weight.
  change _getMaxReputation with 6. words. rewrite Z.shiftl_mul_pow2 by lia. lia.
Qed.

Lemma weight_bound s addr : 1 <= weight s addr <= 64.
Proof.
  pose proof (reputation_bound s addr) as Hr. unfold weight. split.
  - apply (Z.pow_le_mono_r 2 0); lia.
  - apply (Z.pow_le_mono_r 2 _ 6); lia.
Qed.

(** ** The order is a permutation

    [weighed s base addresses accumulated left total]: the members not yet taken are
    [left], the accumulated weight of each is [base] plus the weights of those up to
    it, that of a member already taken is zero, and [total] is the last one. *)
Inductive weighed (s : store) : Z -> list bytes -> list Z -> list bytes -> Z -> Prop :=
| weighed_nil base : weighed s base [] [] [] base
| weighed_taken base a addresses acc left total :
    weighed s base addresses acc left total -> weighed s base (a :: addresses) (0 :: acc) left total
| weighed_left base a addresses acc left total :
    weighed s (base + weight s a) addresses acc left total ->
    weighed s base (a :: addresses) (base + weight s a :: acc) (a :: left) total.

Lemma weighed_total s base addresses acc left total :
  weighed s base addresses acc left total ->
  base + Z.of_nat (length left) <= total <= base + 64 * Z.of_nat (length left).
Proof.
  induction 1 as [| |base a addresses acc left total _ IH]; cbn [length]; [lia..|].
  pose proof (weight_bound s a). lia.
Qed.

Lemma weighed_shift s d base addresses acc left total :
  0 <= base -> weighed s (base + d) addresses acc left total -> 0 <= d ->
  weighed s base addresses (map (fun x => if x =? 0 then x else x - d) acc) left (total - d).
Proof.
  intros Hb Hw Hd. remember (base + d) as base' eqn:Eb. revert base Hb Eb.
  induction Hw as [base'|base' a addresses acc left total _ IH|base' a addresses acc left total _ IH];
    intros base Hb ->; cbn [map].
  - replace (base + d - d) with base by lia. constructor.
  - constructor. by apply IH.
  - pose proof (weight_bound s a). lia_if. replace (base + d + weight s a - d) with (base + weight s a) by lia.
    constructor. apply IH; lia.
Qed.

Lemma run_take_member curr addresses acc left w base total :
  weighed (w_store w) base addresses acc left total -> 0 <= base < curr -> curr <= total ->
  exists a acc' left',
    run call_method e (take_member curr addresses acc) w
      = (Returned (Some (a, weight (w_store w) a, acc')), w) /\
    weighed (w_store w) base addresses acc' left' (total - weight (w_store w) a) /\ left ≡ₚ a :: left'.
Proof.
  induction 1 as [base|base a addresses acc left total _ IH|base a addresses acc left total Hw IH];
    intros Hb Hc; [lia|..]; cbn [take_member].
  - lia_if. destruct IH as (b & acc' & left' & Hrun & Hw' & Hp); [done..|].
    exists b, (0 :: acc'), left'. rewrite run_bind, Hrun, run_ret. split_and!; [done|by constructor|done].
  - destruct (curr >? base + weight (w_store w) a) eqn:Ec.
    + pose proof (weight_bound (w_store w) a).
      destruct IH as (b & acc' & left' & Hrun & Hw' & Hp); [lia..|].
      exists b, (base + weight (w_store w) a :: acc'), (a :: left'). rewrite run_bind, Hrun, run_ret.
      split_and!; [done|by constructor|]. rewrite Hp. constructor.
    + pose proof (weight_bound (w_store w) a).
      exists a, (0 :: map (fun x => if x =? 0 then x else x - weight (w_store w) a) acc), left.
      rewrite run_bind, run_absoluteWeight, run_ret. split_and!; [done| |done].
      constructor. apply weighed_shift; [lia|done|lia].
Qed.

Lemma run_getRandomWeight random maxWeight w :
  length random = SHA256_HASH_SIZE_BYTES -> 0 < maxWeight < 2 ^ 32 ->
  exists curr, run call_method e (_getRandomWeight random maxWeight) w = (Returned curr, w) /\ 1 <= curr <= maxWeight.
Proof.
  intros Hl Hm. unfold _getRandomWeight. rewrite (wrap_small 32) by lia.
  rewrite bool_decide_false by (rewrite length_drop, Hl; unfold SHA256_HASH_SIZE_BYTES; lia). cbn [orb]. lia_if.
  eexists. split; [done|]. pose proof (Z.mod_pos_bound (le_word (take 4 (drop (SHA256_HASH_SIZE_BYTES - 4) random)))
    maxWeight). lia.
Qed.

Lemma run_accumulated addresses w pre base :
  exists acc total,
    run call_method e (range_loop addresses (fun address '(accumulatedWeights, totalWeight) =>
      weight ← _absoluteWeight address;
      mret (accumulatedWeights ++ [totalWeight + weight], totalWeight + weight)) (pre, base)) w
    = (Returned (pre ++ acc, total), w) /\ weighed (w_store w) base addresses acc addresses total.
Proof.
  revert pre base. induction addresses as [|a addresses IH]; intros pre base; cbn [range_loop].
  - exists [], base. rewrite app_nil_r. split; [done|constructor].
  - rewrite run_bind, run_bind, run_absoluteWeight, run_ret.
    destruct (IH (pre ++ [base + weight (w_store w) a]) (base + weight (w_store w) a)) as (acc & total & Hrun & Hw).
    exists (base + weight (w_store w) a :: acc), total. rewrite Hrun, <-app_assoc. split; [done|by constructor].
Qed.

Lemma run_order_step addresses acc left total ordered random w :
  weighed (w_store w) 0 addresses acc left total -> left <> [] -> 64 * Z.of_nat (length left) < 2 ^ 32 ->
  exists a acc' left' total',
    run call_method e (order_step addresses (ordered, random, acc, total)) w
      = (Returned (ordered ++ [a], _nextRandom random, acc', total'), w) /\
    weighed (w_store w) 0 addresses acc' left' total' /\ left ≡ₚ a :: left'.
Proof.
  intros Hw Hne Hlen. pose proof (weighed_total _ _ _ _ _ _ Hw) as Ht.
  assert (0 < Z.of_nat (length left)) by (destruct left; [done|cbn [length]; lia]).
  destruct (run_getRandomWeight (_nextRandom random) total w) as (curr & Hcurr & Hc);
    [apply CalcSha256_length|lia|].
  destruct (run_take_member curr addresses acc left w 0 total) as (a & acc' & left' & Hrun & Hw' & Hp); [done|lia..|].
  exists a, acc', left', (total - weight (w_store w) a). unfold order_step. cbv zeta.
  by rewrite run_bind, Hcurr, run_bind, Hrun, run_ret.
Qed.

Lemma run_order addresses left acc total ordered random w from :
  weighed (w_store w) 0 addresses acc left total -> 64 * Z.of_nat (length left) < 2 ^ 32 ->
  exists r, run call_method e (for_loop (length left) from (fun _ => order_step addresses)
                                 (ordered, random, acc, total)) w = (Returned r, w) /\
            r.1.1.1 ≡ₚ ordered ++ left.
Proof.
  remember (length left) as n eqn:En. revert left En acc total ordered random from.
  induction n as [|n IH]; intros left En acc total ordered random from Hw Hlen; cbn [for_loop].
  - destruct left; [|done]. rewrite app_nil_r. by eexists.
  - destruct (run_order_step addresses acc left total ordered random w) as (a & acc' & left' & total' & Hrun & Hw' & Hp);
      [done|by intros ->|lia|].
    rewrite run_bind, Hrun. pose proof (Permutation_length Hp) as Hl. cbn [length] in Hl.
    destruct (IH left' ltac:(lia) acc' total' (ordered ++ [a]) (_nextRandom random) (from + 1) Hw') as (r & Hr & Hpr);
      [lia|]. exists r. split; [exact Hr|]. rewrite Hpr, Hp, <-app_assoc. done.
Qed.

Lemma run_orderList addresses seed w :
  64 * Z.of_nat (length addresses) < 2 ^ 32 ->
  exists ordered, run call_method e (_orderList addresses seed) w = (Returned ordered, w) /\ ordered ≡ₚ addresses.
Proof.
  intros Hlen. unfold _orderList, _calculateAccumulatedWeightArray.
  destruct (run_accumulated addresses w [] 0) as (acc & total & Hacc & Hw).
  rewrite run_bind, Hacc. cbn [fst snd app].
  destruct (run_order addresses addresses acc total [] seed w 0 Hw Hlen) as (r & Hr & Hp).
  exists r.1.1.1. by rewrite run_bind, Hr, run_ret.
Qed.

(** The committee of a block is ordered, not resampled: getOrderedCommittee
    returns, for every state of the misses and whatever digests the hash function
    produces, without a panic and without touching the state, and what it returns
    has each member of the block's committee exactly as often as the committee
    has. *)
Theorem ordered_committee_permutes w :
  64 * Z.of_nat (length (e_committee e)) < 2 ^ 32 ->
  exists ordered, run call_method e getOrderedCommittee w = (Returned ordered, w) /\ ordered ≡ₚ e_committee e.
Proof. intros Hlen. unfold getOrderedCommittee. runs. by apply run_orderList. Qed.

(** ** Misses *)

Lemma formatMisses_inj addr addr' :
  valid_bytes addr -> valid_bytes addr' -> _formatMisses addr = _formatMisses addr' -> addr = addr'.
Proof.
  unfold _formatMisses. intros Hv Hv' E. apply (app_inv_head (go_string "Address_")), app_inv_tail in E.
  by apply hex_EncodeToString_inj.
Qed.

Lemma misses_write s addr n addr' :
  valid_bytes addr -> valid_bytes addr' ->
  misses (<[(e_contract e, _formatMisses addr) := n]> s) addr' =
    if bool_decide (addr' = addr) then uint32_value n else misses s addr'.
Proof.
  intros Hv Hv'. unfold misses. case_bool_decide as Ha; [subst; by rewrite stored_insert_eq|].
  rewrite stored_insert_ne; [done|]. intros ?%formatMisses_inj; congruence.
Qed.

Lemma run_clear addr w :
  exists w', run call_method e (_clearMissAddEmitEvent addr) w = (Returned tt, w') /\
             w_store w' = <[(e_contract e, _formatMisses addr) := []]> (w_store w).
Proof. by eexists. Qed.

Lemma run_add_miss addr w :
  misses (w_store w) addr < 2 ^ 32 - 1 ->
  exists w', run call_method e (_addMissAddEmitEvent addr) w = (Returned tt, w') /\
             w_store w' = <[(e_contract e, _formatMisses addr) := uint32_bytes (misses (w_store w) addr + 1)]>
                            (w_store w).
Proof.
  intros Hm. pose proof (misses_bound (w_store w) addr) as Hb. unfold is_u32 in Hb.
  unfold _addMissAddEmitEvent, _addMiss, getMisses. runs. fold (misses (w_store w) addr).
  rewrite (run_safe call_method e _ (misses (w_store w) addr + 1)).
  - runs. by eexists.
  - rewrite safeuint32_Add_spec by (unfold is_u32; lia). unfold checked. by lia_if.
Qed.

(** The members whose turn came before the proposer's. *)
Fixpoint missed (ordered : list bytes) (proposer : bytes) : list bytes :=
  match ordered with
  | [] => []
  | member :: rest => if bool_decide (member = proposer) then [] else member :: missed rest proposer
  end.

Lemma missed_subset ordered proposer a : a ∈ missed ordered proposer -> a ∈ ordered /\ a <> proposer.
Proof.
  induction ordered as [|b ordered IH]; cbn [missed]; [by intros ?%not_elem_of_nil|].
  case_bool_decide; [by intros ?%not_elem_of_nil|]. rewrite !elem_of_cons. naive_solver.
Qed.

Lemma run_update ordered proposer w :
  proposer ∈ ordered -> NoDup ordered -> Forall valid_bytes ordered ->
  (forall a, a ∈ ordered -> misses (w_store w) a < 2 ^ 32 - 1) ->
  exists w', run call_method e (_updateMissesByCommitteeOrder ordered proposer) w = (Returned tt, w') /\
    forall addr, valid_bytes addr ->
      misses (w_store w') addr =
        if bool_decide (addr = proposer) then 0
        else misses (w_store w) addr + (if bool_decide (addr ∈ missed ordered proposer) then 1 else 0).
Proof.
  revert w. induction ordered as [|m ordered IH]; intros w Hin Hnd Hv Hm; [by apply not_elem_of_nil in Hin|].
  apply NoDup_cons in Hnd as [Hnew Hnd]. apply Forall_cons in Hv as [Hvm Hv].
  cbn [_updateMissesByCommitteeOrder missed]. case_bool_decide as Em.
  - subst m. destruct (run_clear proposer w) as (w' & Hrun & Hs). exists w'. split; [done|]. intros addr Ha.
    rewrite Hs, misses_write by done. case_bool_decide; [apply uint32_empty|].
    rewrite bool_decide_false by apply not_elem_of_nil. lia.
  - assert (proposer ∈ ordered) as Hin' by (apply elem_of_cons in Hin as [?|?]; congruence).
    destruct (run_add_miss m w) as (w1 & Hrun & Hs); [apply Hm; by left|].
    assert (forall addr, valid_bytes addr ->
      misses (w_store w1) addr = misses (w_store w) addr + (if bool_decide (addr = m) then 1 else 0)) as Hw1.
    { intros addr Ha. rewrite Hs, misses_write by done. case_bool_decide; [|lia]. subst addr.
      apply uint32_roundtrip. pose proof (misses_bound (w_store w) m) as Hb. specialize (Hm m ltac:(by left)).
      unfold is_u32 in *. lia. }
    destruct (IH w1 Hin' Hnd Hv) as (w' & Hrun' & Hw').
    { intros a Ha. rewrite Hw1 by (by eapply Forall_forall in Ha). rewrite bool_decide_false by congruence.
      specialize (Hm a ltac:(by right)). lia. }
    exists w'. rewrite run_bind, Hrun. split; [done|]. intros addr Ha. rewrite Hw', Hw1 by done.
    case_bool_decide as Ep; [done|]. rewrite (bool_decide_ext (addr ∈ m :: _) _ (elem_of_cons _ _ _)).
    rewrite (bool_decide_or (addr = m)). repeat case_bool_decide; cbn [orb]; try lia. subst.
    match goal with Hmiss : m ∈ missed _ _ |- _ => by apply missed_subset in Hmiss as [? _] end.
Qed.

Definition trigger_address : bytes := drop CLIENT_ADDRESS_SHA256_OFFSET (CalcSha256 [TRIGGER_CONTRACT]).

Lemma run_trigger_address : contract_address TRIGGER_CONTRACT = Returned trigger_address.
Proof. done. Qed.

Lemma isMember_spec ordered proposer :
  _isMemberOfOrderedCommittee ordered proposer = bool_decide (proposer ∈ ordered).
Proof.
  unfold _isMemberOfOrderedCommittee. induction ordered as [|m ordered IH]; [done|]. cbn [existsb]. rewrite IH.
  rewrite (bool_decide_ext (proposer ∈ m :: _) _ (elem_of_cons _ _ _)), (bool_decide_or (proposer = m)).
  f_equal. by apply bool_decide_ext.
Qed.

(** What the trigger transaction of a block does to the reputation of its
    committee: a call by the trigger contract clears the misses of the proposer,
    adds one to those of every member ordered before the proposer, and changes
    those of no other address; a call by anybody else, or with a proposer outside
    the committee, panics and leaves the state as it was. *)
Theorem updateMisses_spec w :
  64 * Z.of_nat (length (e_committee e)) < 2 ^ 32 ->
  NoDup (e_committee e) -> Forall valid_bytes (e_committee e) -> e_committee e <> [] ->
  (forall a, a ∈ e_committee e -> misses (w_store w) a < 2 ^ 32 - 1) ->
  exists ordered, run call_method e getOrderedCommittee w = (Returned ordered, w) /\
  exists r w', run call_method e updateMisses w = (r, w') /\
  if bool_decide (e_caller e = trigger_address /\ e_proposer e ∈ e_committee e) then
    r = Returned tt /\
    forall addr, valid_bytes addr ->
      misses (w_store w') addr =
        if bool_decide (addr = e_proposer e) then 0
        else misses (w_store w) addr + (if bool_decide (addr ∈ missed ordered (e_proposer e)) then 1 else 0)
  else r <> Returned tt /\ w' = w.
Proof.
  intros Hlen Hnd Hv Hne Hm. destruct (run_orderList (e_committee e) (_generateSeed (e_height e)) w Hlen)
    as (ordered & Hrun & Hp). exists ordered. split; [unfold getOrderedCommittee; by runs|].
  unfold updateMisses. runs. rewrite run_trigger_address. runs.
  destruct (decide (e_caller e = trigger_address)) as [Ec|Ec].
  2:{ rewrite (bool_decide_true (e_caller e <> _)) by done. eexists _, _. split; [done|].
      by rewrite bool_decide_false by naive_solver. }
  rewrite (bool_decide_false (e_caller e <> _)) by naive_solver. unfold getOrderedCommittee. runs. rewrite Hrun.
  runs. rewrite isMember_spec.
  assert (length ordered <> 0%nat) as Hl.
  { rewrite Hp. by destruct (e_committee e). }
  assert (e_proposer e ∈ ordered <-> e_proposer e ∈ e_committee e) as Hin by (by rewrite Hp).
  replace (0 <? length ordered)%nat with true by (symmetry; apply Nat.ltb_lt; lia).
  replace (length ordered =? 0)%nat with false by (symmetry; by apply Nat.eqb_neq).
  rewrite (bool_decide_ext _ _ Hin). cbn [andb]. destruct (decide (e_proposer e ∈ e_committee e)) as [Hpr|Hpr].
  - rewrite !bool_decide_true by done. cbn [negb].
    destruct (run_update ordered (e_proposer e) w) as (w' & Hup & Hmiss); [by apply Hin|by rewrite Hp|by rewrite Hp| |].
    { intros a Ha. apply Hm. by rewrite <-Hp. }
    by exists (Returned tt), w'.
  - rewrite !bool_decide_false by naive_solver. cbn [negb]. by eexists _, _.
Qed.

End Order.

(** ** Triggers (Triggers/trigger.go) *)

Definition METHOD_UPDATE_MISSES : bytes := go_string "updateMisses".
Definition CONTRACT_NAME : bytes := go_string "_Committee".

Definition trigger : prog unit := _ ← perform (ServiceCallMethod CONTRACT_NAME METHOD_UPDATE_MISSES []); mret tt.

(** ** Witnesses *)

Module Example.
Import ExampleSdk.
#[local] Existing Instance crypto_sha256.

(** Three members of equal weight, the call of the trigger contract, and the
    proposer [2]. *)
Definition env : call_env :=
  mkEnv CONTRACT_NAME [] trigger_address 5 0 0 (address 2) [address 1; address 2; address 3] no_ethereum.
Definition world0 : world := mkWorld ∅ [].

Lemma ordered_committee_permutes_witness :
  64 * Z.of_nat (length (e_committee env)) < 2 ^ 32 /\
  exists ordered, run no_calls env getOrderedCommittee world0 = (Returned ordered, world0) /\ ordered ≡ₚ e_committee env.
Proof. split; [eval_Z|]. apply (ordered_committee_permutes no_calls env world0). eval_Z. Defined.

Lemma updateMisses_spec_witness :
  exists w', run no_calls env updateMisses world0 = (Returned tt, w') /\ misses env (w_store w') (address 2) = 0.
Proof.
  destruct (updateMisses_spec no_calls env world0) as (ordered & _ & r & w' & Hrun & Hspec).
  - eval_Z.
  - by apply (bool_decide_unpack (NoDup (e_committee env))).
  - repeat constructor; lia.
  - done.
  - intros a _. reflexivity.
  - rewrite bool_decide_true in Hspec by (split; [reflexivity|by right; left]). destruct Hspec as [-> Hmiss].
    exists w'. split; [exact Hrun|]. rewrite Hmiss by (repeat constructor; lia). by rewrite bool_decide_true.
Defined.
End Example.
End Committee.
