(* ===== verification/Deployments.v ===== *)
(** * The deployments contract

    The system contract _Deployments
    (services/processor/native/repository/_Deployments), which keeps what is
    deployed on the chain: the processor type and the code parts of every
    contract, the list of the names in use, and the lock of native deployments.

    A name is registered once, whatever its case ([registry]), and the code that a
    deployment stores is the code that [getCodePart] returns to the processor. *)
From stdpp Require Import base gmap strings numbers list.
From Stdlib Require Import ZArith Lia ZifyBool.
From S2P Require Import Prelude Hash VirtualMachine Execution ContractSdk.
Import VirtualMachine.

Module Deployments.

Section Contract.
Context `{Sha256} `{ArgumentArrays} `{ContractSdk}.

Definition CONTRACT_NAME : bytes := go_string "_Deployments".

(** ** Stored values (deploy.go) *)

Definition processor_key (serviceName : bytes) : bytes := serviceName ++ go_string ".Processor".
Definition _readProcessor (serviceName : bytes) : prog Z := ReadUint32 (processor_key serviceName).
Definition _writeProcessor (serviceName : bytes) (processorType : Z) : prog unit :=
  WriteUint32 (processor_key serviceName) processorType.

Definition _codeKey (serviceName : bytes) (index : Z) : bytes :=
  if index =? 0 then serviceName ++ go_string ".Code"
  else serviceName ++ go_string ".Code." ++ sprint_d index.

Definition _codeCounterKey (serviceName : bytes) : bytes := serviceName ++ go_string ".CodeParts".
Definition _codeCounter (serviceName : bytes) : prog Z := ReadUint32 (_codeCounterKey serviceName).
Definition _codeCounterIncrement (serviceName : bytes) : prog unit :=
  counter ← _codeCounter serviceName;
  WriteUint32 (_codeCounterKey serviceName) (u32_add counter 1).

Definition _readCode (serviceName : bytes) (index : Z) : prog bytes := ReadBytes (_codeKey serviceName index).
Definition _writeCode (serviceName code : bytes) (index : Z) : prog unit :=
  _ ← WriteBytes (_codeKey serviceName index) code;
  if index >? 0 then _codeCounterIncrement serviceName else mret tt.

(** ** The lock of native deployments (lock.go) *)

Definition owner_key : bytes := go_string "NativeDeploymentOwner".
Definition _readNativeDeploymentOwner : prog bytes := ReadBytes owner_key.
Definition _writeNativeDeploymentOwner (newOwnerAddress : bytes) : prog unit := WriteBytes owner_key newOwnerAddress.

Definition _validateNativeDeploymentLock : prog unit :=
  currentOwner ← _readNativeDeploymentOwner;
  if bool_decide (currentOwner = []) then mret tt
  else
    signer ← perform AddressGetSignerAddress;
    if bool_decide (currentOwner = signer) then mret tt
    else panics "native deployment is locked to owner %s".

Definition lockNativeDeployment : prog unit :=
  currentOwner ← _readNativeDeploymentOwner;
  if bool_decide (currentOwner = []) then
    signer ← perform AddressGetSignerAddress; _writeNativeDeploymentOwner signer
  else panics "current owner %s must unlockNativeDeployment first".

Definition unlockNativeDeployment : prog unit :=
  _ ← _validateNativeDeploymentLock;
  _writeNativeDeploymentOwner [].

(** ** Names (service_name.go) *)

(** The letters and digits of the regular expression. *)
Definition alphanumeric (c : Z) : bool :=
  ((48 <=? c) && (c <=? 57)) || ((65 <=? c) && (c <=? 90)) || ((97 <=? c) && (c <=? 122)).
Definition name_matches (serviceName : bytes) : bool :=
  bool_decide (serviceName <> []) && forallb alphanumeric serviceName.

(** strings.ToLower, of letters and digits. *)
Definition ToLower (s : bytes) : bytes := map (fun c => if (65 <=? c) && (c <=? 90) then c + 32 else c) s.

Definition _formatNumberOfDeployedServices : bytes := go_string "Service_Count".
Definition _getNumberOfServices : prog Z := ReadUint32 _formatNumberOfDeployedServices.
Definition _setNumberOfServices (numberOfServices : Z) : prog unit :=
  WriteUint32 _formatNumberOfDeployedServices (wrap 32 numberOfServices).

Definition _formatServiceIterator (num : Z) : bytes := go_string "Service_At_" ++ sprint_d num.
Definition _getServiceAtIndex (index : Z) : prog bytes := ReadBytes (_formatServiceIterator index).
Definition _setServiceAtIndex (index : Z) (serviceName : bytes) : prog unit :=
  WriteBytes (_formatServiceIterator index) (ToLower serviceName).

(** The loop of [_isServiceNameUsed], over the [n] indices from [i] on. *)
Fixpoint name_used (n : nat) (i : Z) (serviceName : bytes) : prog bool :=
  match n with
  | O => mret false
  | S n =>
      name ← _getServiceAtIndex i;
      if bool_decide (serviceName = name) then mret true else name_used n (i + 1) serviceName
  end.

Definition _isServiceNameUsed (serviceName : bytes) : prog bool :=
  numOfServices ← _getNumberOfServices;
  name_used (Z.to_nat numOfServices) 0 (ToLower serviceName).

Definition _addServiceName (serviceName : bytes) : prog unit :=
  numOfServices ← _getNumberOfServices;
  _ ← _setServiceAtIndex numOfServices serviceName;
  _setNumberOfServices (numOfServices + 1).

Definition IsImplicitlyDeployed (serviceName : bytes) : bool :=
  bool_decide (serviceName ∈ map go_string
    ["_Deployments"; "_Info"; "_Triggers"; "_Committee"; "_Elections"; "_GlobalPreOrder"]%string).

Definition _validateServiceName (serviceName : bytes) : prog unit :=
  if IsImplicitlyDeployed serviceName then panics "a contract with this name exists"
  else if negb (name_matches serviceName) then
    panics "contract name must be non empty and contain alpha-numeric characters only"
  else
    used ← _isServiceNameUsed serviceName;
    if (used : bool) then panics "a contract with same name (case insensitive) already exists" else mret tt.

(** ** The methods (deploy.go) *)

Definition getInfo (serviceName : bytes) : prog Z :=
  if IsImplicitlyDeployed serviceName then mret PROCESSOR_TYPE_NATIVE
  else
    processorType ← _readProcessor serviceName;
    if processorType =? 0 then panics "contract not deployed" else mret processorType.

Definition getCodePart (serviceName : bytes) (index : Z) : prog bytes :=
  code ← _readCode serviceName index;
  if bool_decide (code = []) then panics "contract code not available" else mret code.

Definition getCode (serviceName : bytes) : prog bytes := getCodePart serviceName 0.

Definition getCodeParts (serviceName : bytes) : prog Z :=
  processorType ← _readProcessor serviceName;
  if processorType =? 0 then panics "contract not deployed"
  else
    counter ← _codeCounter serviceName;
    mret (u32_add counter 1).

(** The loop that writes the parts, the next one with the index [i]. *)
Fixpoint write_parts (serviceName : bytes) (i : Z) (code : list bytes) : prog unit :=
  match code with
  | [] => mret tt
  | c :: code => _ ← _writeCode serviceName c (wrap 32 i); write_parts serviceName (i + 1) code
  end.

Definition deployService (serviceName : bytes) (processorType : Z) (code : list bytes) : prog unit :=
  _ ← (if processorType =? PROCESSOR_TYPE_NATIVE then _validateNativeDeploymentLock else mret tt);
  _ ← _validateServiceName serviceName;
  _ ← _addServiceName serviceName;
  existingProcessorType ← _readProcessor serviceName;
  if negb (existingProcessorType =? 0) then panics "contract already deployed"
  else
    _ ← _writeProcessor serviceName processorType;
    _ ← (if bool_decide (code = []) then panics "contract doesn't have any code"
         else write_parts serviceName 0 code);
    _ ← perform (ServiceCallMethod serviceName (go_string "_init") []);
    mret tt.

End Contract.

(** ** Keys

    A name has only letters and digits: the first other character of a key tells
    where the name ends. *)

Definition alnum (s : bytes) : Prop := Forall (fun c => alphanumeric c = true) s.

Lemma name_matches_alnum n : name_matches n = true <-> n <> [] /\ alnum n.
Proof.
  unfold name_matches. rewrite andb_true_iff, bool_decide_eq_true. f_equiv. unfold alnum.
  induction n as [|c n IH]; cbn [forallb]; [by split; [constructor|]|].
  by rewrite andb_true_iff, Forall_cons, IH.
Qed.

Lemma first_special p n c d x y :
  alnum p -> alnum n -> alphanumeric c = false -> alphanumeric d = false ->
  p ++ c :: x = n ++ d :: y -> p = n /\ c = d /\ x = y.
Proof.
  intros Hp Hn Hc Hd. revert n Hn. induction Hp as [|a p Ha Hp IH]; intros [|b n] Hn; cbn [app].
  - by intros [= -> ->].
  - apply Forall_cons in Hn as [Hb _]. intros [= -> _]. congruence.
  - intros [= -> _]. congruence.
  - apply Forall_cons in Hn as [Hb Hn]. intros [= -> E]. apply IH in E as (-> & -> & ->); done.
Qed.

Lemma no_special p n d y : alnum p -> alphanumeric d = false -> p <> n ++ d :: y.
Proof.
  intros Hp Hd ->. apply Forall_app in Hp as [_ Hp]. apply Forall_cons in Hp as [Hp _]. congruence.
Qed.

(** What the contract stores. *)
Inductive entry :=
| ECount
| EName (i : Z)
| EProcessor (n : bytes)
| ECode (n : bytes) (i : Z)
| EParts (n : bytes)
| EOwner.

#[export] Instance entry_eq_dec : EqDecision entry.
Proof. solve_decision. Defined.

Definition entry_key (x : entry) : bytes :=
  match x with
  | ECount => _formatNumberOfDeployedServices
  | EName i => _formatServiceIterator i
  | EProcessor n => processor_key n
  | ECode n i => _codeKey n i
  | EParts n => _codeCounterKey n
  | EOwner => owner_key
  end.

Definition entry_ok (x : entry) : Prop :=
  match x with
  | ECount | EOwner => True
  | EName i => 0 <= i
  | EProcessor n | EParts n => alnum n
  | ECode n i => alnum n /\ 0 <= i
  end.

(** The key up to its first special character, that character and the rest. *)
Definition entry_parts (x : entry) : bytes * option (Z * bytes) :=
  match x with
  | ECount => (go_string "Service", Some (95, go_string "Count"))
  | EName i => (go_string "Service", Some (95, go_string "At_" ++ sprint_d i))
  | EProcessor n => (n, Some (46, go_string "Processor"))
  | ECode n i => (n, Some (46, if i =? 0 then go_string "Code" else go_string "Code." ++ sprint_d i))
  | EParts n => (n, Some (46, go_string "CodeParts"))
  | EOwner => (owner_key, None)
  end.

Lemma entry_parts_key x :
  entry_key x = (entry_parts x).1 ++ match (entry_parts x).2 with Some (c, r) => c :: r | None => [] end.
Proof. destruct x; try done. cbn. unfold _codeKey. by destruct (_ =? 0). Qed.

Lemma entry_parts_ok x :
  entry_ok x -> alnum (entry_parts x).1 /\ forall c r, (entry_parts x).2 = Some (c, r) -> alphanumeric c = false.
Proof.
  intros Hx. split; [|destruct x; by intros ?? [= <- <-] || done].
  destruct x; cbn in *; try apply Hx; apply (bool_decide_unpack (Forall _ _)); by vm_compute.
Qed.

Lemma entry_key_inj x y : entry_ok x -> entry_ok y -> entry_key x = entry_key y -> x = y.
Proof.
  intros Hx Hy E. rewrite !entry_parts_key in E.
  destruct (entry_parts_ok x Hx) as [Ax Sx], (entry_parts_ok y Hy) as [Ay Sy].
  assert (entry_parts x = entry_parts y) as Ep.
  { destruct (entry_parts x) as [px [[cx rx]|]], (entry_parts y) as [py [[cy ry]|]]; cbn [fst snd] in *.
    - apply first_special in E as (-> & -> & ->); eauto.
    - rewrite app_nil_r in E. symmetry in E. apply no_special in E; eauto. done.
    - rewrite app_nil_r in E. apply no_special in E; eauto. done.
    - rewrite !app_nil_r in E. by subst. }
  clear E Ax Sx Ay Sy. destruct x, y; cbn in Hx, Hy, Ep; simplify_eq; try done;
    repeat match goal with H : context [if ?b then _ else _] |- _ => destruct b eqn:? end; simplify_eq;
    try (f_equal; apply sprint_d_inj; by (lia || naive_solver)); try (f_equal; lia); try done.
Qed.

(** ** The registry *)

Section Registry.
Context `{Sha256} `{ArgumentArrays} `{ContractSdkLaws}.
Variable call_method : call_env -> bytes -> bytes -> list Argument -> world -> reply (list Argument) * world.

(** What the state of the contract [c] holds: the number of names, the names, the
    processor type of a contract, the number of its code parts after the first. *)
Section Views.
Variable (c : bytes) (s : store).
Definition count : Z := uint32_value (stored s c _formatNumberOfDeployedServices).
Definition name_at (i : nat) : bytes := stored s c (_formatServiceIterator (Z.of_nat i)).
Definition names : list bytes := map name_at (seq 0 (Z.to_nat count)).
Definition processor (n : bytes) : Z := uint32_value (stored s c (processor_key n)).
Definition parts (n : bytes) : Z := uint32_value (stored s c (_codeCounterKey n)).
End Views.

(** Every deployed name is listed, the list has no name twice, two deployed names
    differ in more than their case, and a name that is not listed has no code. *)
Record registry (c : bytes) (s : store) : Prop := {
  reg_listed n : alnum n -> processor c s n <> 0 -> ToLower n ∈ names c s;
  reg_nodup : NoDup (names c s);
  reg_case n n' : alnum n -> alnum n' -> processor c s n <> 0 -> processor c s n' <> 0 ->
    ToLower n = ToLower n' -> n = n';
  reg_parts n : alnum n -> ToLower n ∉ names c s -> parts c s n = 0
}.

Lemma registry_empty c : registry c ∅.
Proof.
  assert (forall n, processor c ∅ n = 0) as Hp.
  { intros n. unfold processor, stored. by rewrite lookup_empty, uint32_empty. }
  assert (names c ∅ = []) as Hn.
  { unfold names, count, stored. by rewrite lookup_empty, uint32_empty. }
  split.
  - intros n _ []. apply Hp.
  - rewrite Hn. constructor.
  - intros n n' _ _ []. apply Hp.
  - intros n _ _. unfold parts, stored. by rewrite lookup_empty, uint32_empty.
Qed.

Lemma run_name_used (e : call_env) n i name w :
  run call_method e (name_used n (Z.of_nat i) name) w
  = (Returned (bool_decide (name ∈ map (name_at (e_contract e) (w_store w)) (seq i n))), w).
Proof.
  revert i. induction n as [|n IH]; intros i; cbn [name_used seq map]; [done|].
  unfold _getServiceAtIndex. runs. fold (name_at (e_contract e) (w_store w) i).
  rewrite (bool_decide_ext (_ ∈ _ :: _) _ (elem_of_cons _ _ _)), bool_decide_or.
  case_bool_decide as En; [done|]. replace (Z.of_nat i + 1) with (Z.of_nat (S i)) by lia. apply IH.
Qed.

Lemma run_isServiceNameUsed e name w :
  run call_method e (_isServiceNameUsed name) w
  = (Returned (bool_decide (ToLower name ∈ names (e_contract e) (w_store w))), w).
Proof.
  unfold _isServiceNameUsed, _getNumberOfServices. runs. apply (run_name_used e _ 0).
Qed.

(** ** Deployment *)

Definition val (c : bytes) (s : store) (x : entry) : bytes := stored s c (entry_key x).

Lemma entry_insert c s x v y :
  entry_ok x -> entry_ok y ->
  val c (<[(c, entry_key x) := v]> s) y = if bool_decide (y = x) then v else val c s y.
Proof.
  intros Hx Hy. unfold val. case_bool_decide as E; [subst; by rewrite stored_insert_eq|].
  rewrite stored_insert_ne; [done|]. intros ?%entry_key_inj; congruence.
Qed.

Lemma run_writeCode e n code i w :
  alnum n -> 0 <= i -> parts (e_contract e) (w_store w) n + 1 < 2 ^ 32 ->
  exists w', run call_method e (_writeCode n code i) w = (Returned tt, w') /\ w_events w' = w_events w /\
    (forall y, entry_ok y -> y <> EParts n ->
       val (e_contract e) (w_store w') y = if bool_decide (y = ECode n i) then code else val (e_contract e) (w_store w) y) /\
    parts (e_contract e) (w_store w') n = parts (e_contract e) (w_store w) n + (if i =? 0 then 0 else 1).
Proof.
  intros Hn Hi Hp. unfold _writeCode. runs. change (_codeKey n i) with (entry_key (ECode n i)).
  set (s1 := <[_ := code]> (w_store w)).
  assert (parts (e_contract e) s1 n = parts (e_contract e) (w_store w) n) as Hs1.
  { unfold parts. change (stored s1 _ _) with (val (e_contract e) s1 (EParts n)). unfold s1.
    by rewrite entry_insert, bool_decide_false by done. }
  destruct (i =? 0) eqn:Ei; lia_if.
  - eexists. split; [done|]. cbn [w_events w_store]. split_and!; [done| |by rewrite Hs1; lia].
    intros y Hy _. by apply entry_insert.
  - unfold _codeCounterIncrement, _codeCounter. runs. cbn [w_store].
    fold (parts (e_contract e) s1 n). eexists. split; [done|]. cbn [w_events w_store].
    change (_codeCounterKey n) with (entry_key (EParts n)). split_and!; [done| |].
    + intros y Hy Hne. rewrite entry_insert, bool_decide_false by done. by apply entry_insert.
    + assert (0 <= parts (e_contract e) (w_store w) n) as Hb by apply uint32_bound.
      unfold parts at 1. change (stored ?s _ (_codeCounterKey n)) with (val (e_contract e) s (EParts n)).
      rewrite entry_insert, bool_decide_true, Hs1, uint32_roundtrip by (done || unfold u32_add; apply wrap_bound; lia).
      by words.
Qed.

Lemma run_write_parts e n code i w :
  alnum n -> 0 <= i -> parts (e_contract e) (w_store w) n + Z.of_nat (length code) < 2 ^ 32 ->
  i + Z.of_nat (length code) < 2 ^ 32 -> code <> [] ->
  exists w', run call_method e (write_parts n i code) w = (Returned tt, w') /\ w_events w' = w_events w /\
    (forall y, entry_ok y -> y <> EParts n -> (forall j, y <> ECode n j) ->
       val (e_contract e) (w_store w') y = val (e_contract e) (w_store w) y) /\
    (forall j, 0 <= j < i -> val (e_contract e) (w_store w') (ECode n j) = val (e_contract e) (w_store w) (ECode n j)) /\
    (forall j part, code !! j = Some part -> val (e_contract e) (w_store w') (ECode n (i + Z.of_nat j)) = part) /\
    parts (e_contract e) (w_store w') n
      = parts (e_contract e) (w_store w) n + Z.of_nat (length code) - (if i =? 0 then 1 else 0).
Proof.
  intros Hn. revert i w. induction code as [|c code IH]; intros i w Hi Hp Hl Hne; [done|]. cbn [write_parts length] in *.
  rewrite wrap_small by lia.
  destruct (run_writeCode e n c i w) as (w1 & Hrun & Hev & Hval & Hpart); [done|lia..|].
  assert (forall j, 0 <= j -> j <> i ->
    val (e_contract e) (w_store w1) (ECode n j) = val (e_contract e) (w_store w) (ECode n j)) as Hcode.
  { intros j Hj Hji. rewrite Hval by done. by rewrite bool_decide_false by congruence. }
  destruct code as [|c' code].
  - exists w1. cbn [write_parts]. rewrite run_bind, Hrun. split_and!; try done.
    + intros y Hy Hy1 Hy2. rewrite Hval by done. by rewrite bool_decide_false by done.
    + intros j Hj. apply Hcode; lia.
    + intros [|j] part Hpj; [|done]. injection Hpj as <-. rewrite Z.add_0_r, Hval by (done || lia).
      by rewrite bool_decide_true.
    + rewrite Hpart. cbn [length]. destruct (i =? 0); lia.
  - destruct (IH (i + 1) w1) as (w' & Hrun' & Hev' & Hoth & Hlow & Hnew & Hpart'); [lia|destruct (i =? 0); lia|lia|done|].
    exists w'. rewrite run_bind, Hrun. split_and!; try done.
    + congruence.
    + intros y Hy Hy1 Hy2. rewrite Hoth, Hval by done. by rewrite bool_decide_false by done.
    + intros j Hj. rewrite Hlow by lia. apply Hcode; lia.
    + intros [|j] part Hpj.
      * injection Hpj as <-. rewrite Hlow by lia. rewrite Z.add_0_r, Hval by (done || lia). by rewrite bool_decide_true.
      * replace (i + Z.of_nat (S j)) with (i + 1 + Z.of_nat j) by lia. by apply Hnew.
    + rewrite Hpart', Hpart. lia_if. destruct (i =? 0); lia.
Qed.

(** The state [s'] after the deployment of [n] in the state [s]. *)
Record deployed (c n : bytes) (processorType : Z) (code : list bytes) (s s' : store) : Prop := {
  dep_count : val c s' ECount = uint32_bytes (count c s + 1);
  dep_name : val c s' (EName (count c s)) = ToLower n;
  dep_processor : val c s' (EProcessor n) = uint32_bytes processorType;
  dep_code j part : code !! j = Some part -> val c s' (ECode n (Z.of_nat j)) = part;
  dep_parts : parts c s' n = Z.of_nat (length code) - 1;
  dep_other y : entry_ok y -> y <> ECount -> y <> EName (count c s) -> y <> EProcessor n -> y <> EParts n ->
    (forall j, y <> ECode n j) -> val c s' y = val c s y
}.

(** The lock does not stop the signer from deploying to the processor. *)
Definition unlocked (e : call_env) (s : store) (processorType : Z) : Prop :=
  processorType = PROCESSOR_TYPE_NATIVE ->
  val (e_contract e) s EOwner = [] \/ val (e_contract e) s EOwner = e_signer e.

Lemma run_lock e w processorType :
  unlocked e (w_store w) processorType ->
  run call_method e (if processorType =? PROCESSOR_TYPE_NATIVE then _validateNativeDeploymentLock else mret tt) w
  = (Returned tt, w).
Proof.
  intros Hu. destruct (processorType =? PROCESSOR_TYPE_NATIVE) eqn:Et; [|done]. apply Z.eqb_eq in Et.
  unfold _validateNativeDeploymentLock, _readNativeDeploymentOwner. runs.
  change (stored _ _ owner_key) with (val (e_contract e) (w_store w) EOwner).
  case_bool_decide; [done|]. runs. rewrite bool_decide_true; [done|]. by destruct (Hu Et).
Qed.

Lemma run_validateServiceName e n w :
  name_matches n = true -> IsImplicitlyDeployed n = false ->
  run call_method e (_validateServiceName n) w
  = if bool_decide (ToLower n ∈ names (e_contract e) (w_store w))
    then (Panicked (PanicMessage "a contract with same name (case insensitive) already exists"), w)
    else (Returned tt, w).
Proof.
  intros Hn Hi. unfold _validateServiceName. rewrite Hi, Hn. cbn [negb]. rewrite run_bind, run_isServiceNameUsed.
  by case_bool_decide.
Qed.

Lemma alnum_not_implicit n : alnum n -> IsImplicitlyDeployed n = false.
Proof.
  intros Hn. apply bool_decide_eq_false. intros Hin. cbn [map] in Hin.
  repeat (apply elem_of_cons in Hin as [->|Hin]; [by apply Forall_cons in Hn as [? _]|]).
  by apply not_elem_of_nil in Hin.
Qed.

Lemma run_addServiceName e n w :
  count (e_contract e) (w_store w) + 1 < 2 ^ 32 ->
  exists s1, run call_method e (_addServiceName n) w = (Returned tt, mkWorld s1 (w_events w)) /\
    forall y, entry_ok y -> val (e_contract e) s1 y =
      if bool_decide (y = ECount) then uint32_bytes (count (e_contract e) (w_store w) + 1)
      else if bool_decide (y = EName (count (e_contract e) (w_store w))) then ToLower n
      else val (e_contract e) (w_store w) y.
Proof.
  intros Hcount. unfold _addServiceName, _getNumberOfServices, _setServiceAtIndex, _setNumberOfServices. runs.
  cbn [w_store w_events]. fold (count (e_contract e) (w_store w)). set (k := count _ _) in *.
  assert (0 <= k) as Hk by apply uint32_bound. rewrite (wrap_small 32 (k + 1)) by lia.
  change _formatNumberOfDeployedServices with (entry_key ECount).
  change (_formatServiceIterator k) with (entry_key (EName k)).
  eexists. split; [done|]. intros y Hy. rewrite entry_insert by done. case_bool_decide; [done|]. by apply entry_insert.
Qed.

Lemma run_deployService e n processorType code w :
  name_matches n = true -> code <> [] -> is_u32 processorType -> Z.of_nat (length code) < 2 ^ 32 ->
  count (e_contract e) (w_store w) + 1 < 2 ^ 32 -> unlocked e (w_store w) processorType ->
  registry (e_contract e) (w_store w) -> ToLower n ∉ names (e_contract e) (w_store w) ->
  exists w1, deployed (e_contract e) n processorType code (w_store w) (w_store w1) /\ w_events w1 = w_events w /\
    run call_method e (deployService n processorType code) w
    = match call_method e n (go_string "_init") [] w1 with
      | (Returned _, w2) => (Returned tt, w2)
      | (Panicked v, w2) => (Panicked v, w2)
      end.
Proof.
  intros Hm Hcode Ht Hlen Hcount Hlock Hreg Hnew. apply name_matches_alnum in Hm as Hm'. destruct Hm' as [_ Hn].
  unfold deployService. rewrite run_bind, run_lock by done.
  rewrite run_bind, run_validateServiceName, bool_decide_false by (done || by apply alnum_not_implicit).
  destruct (run_addServiceName e n w Hcount) as (s1 & Hadd & Hs1). rewrite run_bind, Hadd.
  unfold _readProcessor, _writeProcessor. runs. cbn [w_store w_events].
  change (processor_key n) with (entry_key (EProcessor n)). fold (val (e_contract e) s1 (EProcessor n)).
  rewrite Hs1, !bool_decide_false by done.
  change (uint32_value (val _ _ (EProcessor n))) with (processor (e_contract e) (w_store w) n).
  assert (processor (e_contract e) (w_store w) n = 0) as ->.
  { destruct (decide (processor (e_contract e) (w_store w) n = 0)) as [|Hne]; [done|]. destruct Hnew. by apply Hreg. }
  cbn [negb Z.eqb]. runs. cbn [w_store w_events].
  set (w2 := mkWorld (<[_ := uint32_bytes processorType]> s1) _).
  assert (forall y, entry_ok y -> val (e_contract e) (w_store w2) y =
    if bool_decide (y = EProcessor n) then uint32_bytes processorType else val (e_contract e) s1 y) as Hs2.
  { intros y Hy. by apply entry_insert. }
  assert (parts (e_contract e) (w_store w2) n = 0) as Hp2.
  { unfold parts. change (stored ?s _ (_codeCounterKey n)) with (val (e_contract e) s (EParts n)).
    rewrite Hs2, Hs1, !bool_decide_false by done. by apply Hreg. }
  destruct (run_write_parts e n code 0 w2) as (w1 & Hrun & Hev & Hoth & _ & Hnewcode & Hparts);
    [done|done|lia|lia|done|].
  exists w1. rewrite Hrun. runs. split_and!; [|done|by destruct (call_method _ _ _ _ _) as [[?|?] ?]].
  split.
  - rewrite Hoth, Hs2, Hs1 by done. by rewrite bool_decide_false, bool_decide_true.
  - assert (0 <= count (e_contract e) (w_store w)) by apply uint32_bound.
    rewrite Hoth, Hs2, Hs1 by done. by rewrite !bool_decide_false, bool_decide_true by done.
  - rewrite Hoth, Hs2 by done. by rewrite bool_decide_true.
  - intros j part Hj. by rewrite <-(Hnewcode j part Hj).
  - rewrite Hparts, Hp2. lia_if. lia.
  - intros y Hy Hy1 Hy2 Hy3 Hy4 Hy5. rewrite Hoth, Hs2, Hs1 by done. by rewrite !bool_decide_false by done.
Qed.

Lemma deployed_names c n processorType code s s' :
  deployed c n processorType code s s' -> count c s + 1 < 2 ^ 32 -> names c s' = names c s ++ [ToLower n].
Proof.
  intros Hd Hcount. assert (0 <= count c s) as Hk by apply uint32_bound.
  assert (count c s' = count c s + 1) as Hc.
  { unfold count at 1. change (stored s' c _) with (val c s' ECount). rewrite (dep_count _ _ _ _ _ _ Hd).
    apply uint32_roundtrip. unfold is_u32. lia. }
  unfold names. rewrite Hc. replace (Z.to_nat (count c s + 1)) with (Z.to_nat (count c s) + 1)%nat by lia.
  rewrite seq_app, map_app. cbn [Nat.add seq map]. f_equal.
  - apply map_ext_in. intros i Hi%in_seq. unfold name_at. change (stored ?s c _) with (val c s (EName (Z.of_nat i))).
    apply (dep_other _ _ _ _ _ _ Hd); try done; [cbn; lia|]. intros [=]. lia.
  - unfold name_at. rewrite Z2Nat.id by lia.
    change (stored s' c _) with (val c s' (EName (count c s))). by rewrite (dep_name _ _ _ _ _ _ Hd).
Qed.

Lemma deployed_processor c n processorType code s s' m :
  deployed c n processorType code s s' -> is_u32 processorType -> alnum m ->
  processor c s' m = if bool_decide (m = n) then processorType else processor c s m.
Proof.
  intros Hd Ht Hm. unfold processor at 1. change (stored s' c _) with (val c s' (EProcessor m)). case_bool_decide as E.
  - subst. rewrite (dep_processor _ _ _ _ _ _ Hd). by apply uint32_roundtrip.
  - by rewrite (dep_other _ _ _ _ _ _ Hd) by (done || congruence).
Qed.

Lemma deployed_registry c n processorType code s s' :
  registry c s -> ToLower n ∉ names c s -> is_u32 processorType -> count c s + 1 < 2 ^ 32 ->
  deployed c n processorType code s s' -> registry c s'.
Proof.
  intros Hreg Hnew Ht Hcount Hd. pose proof (deployed_names _ _ _ _ _ _ Hd Hcount) as Hn.
  assert (forall m, alnum m -> processor c s' m = if bool_decide (m = n) then processorType else processor c s m) as Hp.
  { intros m Hm. by eapply deployed_processor. }
  assert (forall m, alnum m -> m <> n -> processor c s m <> 0 -> ToLower m <> ToLower n) as Hother.
  { intros m Hm _ Hp0 E. apply Hnew. rewrite <-E. by apply Hreg. }
  split.
  - intros m Hm. rewrite Hp, Hn, elem_of_app, list_elem_of_singleton by done. case_bool_decide; [by subst; right|].
    left. by apply Hreg.
  - rewrite Hn. apply NoDup_app. split_and!; [apply Hreg| |apply NoDup_singleton].
    intros x Hx ->%list_elem_of_singleton. done.
  - intros m m' Hm Hm'. rewrite !Hp by done. repeat case_bool_decide; subst; intros Hpm Hpm' E; try done.
    + by apply Hother in Hpm'.
    + by apply Hother in Hpm.
    + by apply Hreg.
  - intros m Hm. rewrite Hn, not_elem_of_app, not_elem_of_cons. intros (Hm1 & Hm2 & _).
    unfold parts. change (stored ?s c _) with (val c s (EParts m)).
    rewrite (dep_other _ _ _ _ _ _ Hd) by (done || congruence). by apply Hreg.
Qed.

(** What a deployment that returns has checked. *)
Lemma deployService_returns e n processorType code w w' :
  run call_method e (deployService n processorType code) w = (Returned tt, w') ->
  unlocked e (w_store w) processorType /\ name_matches n = true /\
  (ToLower n ∉ names (e_contract e) (w_store w)) /\ code <> [].
Proof.
  unfold deployService. intros Hrun.
  assert (unlocked e (w_store w) processorType) as Hu.
  { unfold unlocked. intros ->. rewrite run_bind, Z.eqb_refl in Hrun.
    unfold _validateNativeDeploymentLock, _readNativeDeploymentOwner in Hrun. autorewrite with runs in Hrun.
    change (stored _ _ owner_key) with (val (e_contract e) (w_store w) EOwner) in Hrun.
    case_bool_decide; [by left|right]. autorewrite with runs in Hrun. cbn [step] in Hrun.
    case_bool_decide; [done|]. by autorewrite with runs in Hrun. }
  rewrite run_bind, run_lock in Hrun by done. rewrite run_bind in Hrun. split; [done|].
  destruct (IsImplicitlyDeployed n) eqn:Ei; [unfold _validateServiceName in Hrun; by rewrite Ei in Hrun|].
  destruct (name_matches n) eqn:En; [|unfold _validateServiceName in Hrun; by rewrite Ei, En in Hrun].
  rewrite run_validateServiceName in Hrun by done. case_bool_decide; [done|]. split_and!; [done..|]. intros ->.
  rewrite (bool_decide_true ([] = [])), run_bind in Hrun by done.
  destruct (run _ _ (_addServiceName n) w) as [[[]|v] w1]; [|done].
  unfold _readProcessor, _writeProcessor in Hrun. autorewrite with runs in Hrun.
  destruct (negb (_ =? 0)); autorewrite with runs in Hrun; done.
Qed.

(** C26. The registry of contracts is kept by every deployment: if the registry holds
    before deployService returns, and the constructor of the new contract and what
    it calls keep it, it holds afterwards - every deployed name is listed, once, and
    no two deployed contracts have names that differ only in case. *)
Theorem deployService_registry e n processorType code w w' :
  is_u32 processorType -> Z.of_nat (length code) < 2 ^ 32 -> count (e_contract e) (w_store w) + 1 < 2 ^ 32 ->
  (forall e' name method args w0, registry (e_contract e) (w_store w0) ->
     registry (e_contract e) (w_store (call_method e' name method args w0).2)) ->
  registry (e_contract e) (w_store w) ->
  run call_method e (deployService n processorType code) w = (Returned tt, w') ->
  registry (e_contract e) (w_store w').
Proof.
  intros Ht Hlen Hcount Hcall Hreg Hrun. apply deployService_returns in Hrun as Hok. destruct Hok as (Hu & Hn & Hnew & Hc).
  destruct (run_deployService e n processorType code w) as (w1 & Hd & _ & Hrun1); [done..|]. rewrite Hrun1 in Hrun.
  apply deployed_registry in Hd; try done. specialize (Hcall e n (go_string "_init") [] w1 Hd).
  destruct (call_method _ _ _ _ _) as [[?|?] ?]; by simplify_eq.
Qed.

(** What is deployed is what runs: after a deployment whose constructor leaves the
    state of the deployments contract alone, getInfo returns the processor type,
    getCodeParts the number of parts, and getCodePart each part as it was sent, or
    panics for a part that is empty. *)
Theorem deployed_code_roundtrip e n processorType code w w' :
  is_u32 processorType -> processorType <> 0 -> Z.of_nat (length code) < 2 ^ 32 ->
  count (e_contract e) (w_store w) + 1 < 2 ^ 32 ->
  (forall e' name method args w0 key,
     stored (w_store (call_method e' name method args w0).2) (e_contract e) key = stored (w_store w0) (e_contract e) key) ->
  registry (e_contract e) (w_store w) ->
  run call_method e (deployService n processorType code) w = (Returned tt, w') ->
  run call_method e (getInfo n) w' = (Returned processorType, w') /\
  run call_method e (getCodeParts n) w' = (Returned (Z.of_nat (length code)), w') /\
  forall j part, code !! j = Some part ->
    run call_method e (getCodePart n (Z.of_nat j)) w'
    = if bool_decide (part = []) then (Panicked (PanicMessage "contract code not available"), w') else (Returned part, w').
Proof.
  intros Ht Ht0 Hlen Hcount Hcall Hreg Hrun. apply deployService_returns in Hrun as Hok.
  destruct Hok as (Hu & Hn & Hnew & Hc). apply name_matches_alnum in Hn as Hn'. destruct Hn' as [_ Ha].
  destruct (run_deployService e n processorType code w) as (w1 & Hd & _ & Hrun1); [done..|]. rewrite Hrun1 in Hrun.
  assert (forall key, stored (w_store w') (e_contract e) key = stored (w_store w1) (e_contract e) key) as Hst.
  { intros key. rewrite <-(Hcall e n (go_string "_init") [] w1).
    destruct (call_method _ _ _ _ _) as [[?|?] ?]; by simplify_eq. }
  assert (0 < Z.of_nat (length code)) by (destruct code; [done|cbn [length]; lia]).
  unfold getInfo, getCodeParts, getCodePart, _readProcessor, _readCode, _codeCounter. rewrite alnum_not_implicit by done.
  runs. rewrite !Hst. change (stored ?s ?c (processor_key n)) with (val c s (EProcessor n)).
  rewrite (dep_processor _ _ _ _ _ _ Hd), uint32_roundtrip by done. lia_if. runs. rewrite !Hst.
  fold (parts (e_contract e) (w_store w1) n). rewrite (dep_parts _ _ _ _ _ _ Hd). words.
  split_and!; [done|do 2 f_equal; lia|].
  intros j part Hj. runs. rewrite !Hst. change (stored ?s ?c (_codeKey n ?i)) with (val c s (ECode n i)).
  rewrite (dep_code _ _ _ _ _ _ Hd j part Hj). by case_bool_decide.
Qed.

End Registry.

(** ** Witnesses *)

Module Example.
Import ExampleSdk.
#[local] Existing Instance ExampleMachine.arguments.
#[local] Existing Instance crypto_sha256.

(** A native contract [Ab1] of two parts whose constructor does nothing. *)
Definition env : call_env := mkEnv CONTRACT_NAME (address 7) (address 7) 5 0 0 [] [] no_ethereum.
Definition world0 : world := mkWorld ∅ [].
Definition name : bytes := [65; 98; 49].
Definition code : list bytes := [[1; 2]; [3]].
Definition init (_ : call_env) (_ _ : bytes) (_ : list Argument) (w : world) : reply (list Argument) * world :=
  (Returned [], w).
Definition world1 : world := (run init env (deployService name 1 code) world0).2.

Lemma deploys : run init env (deployService name 1 code) world0 = (Returned tt, world1).
Proof. vm_cast_no_check (eq_refl (Returned tt, world1)). Qed.

Lemma deployService_registry_witness : registry CONTRACT_NAME (w_store world1).
Proof.
  apply (deployService_registry init env name 1 code world0 world1).
  - eval_Z.
  - eval_Z.
  - eval_Z.
  - by intros.
  - apply registry_empty.
  - apply deploys.
Defined.

Lemma deployed_code_roundtrip_witness :
  run init env (getCodeParts name) world1 = (Returned 2, world1) /\
  run init env (getCodePart name 1) world1 = (Returned [3], world1).
Proof.
  destruct (deployed_code_roundtrip init env name 1 code world0 world1) as (_ & Hparts & Hpart).
  - eval_Z.
  - eval_Z.
  - eval_Z.
  - eval_Z.
  - by intros.
  - apply registry_empty.
  - apply deploys.
  - split; [exact Hparts|]. apply (Hpart 1%nat [3] eq_refl).
Defined.
End Example.
End Deployments.
