(* ===== verification/PrebuiltContracts.v ===== *)
(** * Other prebuilt contracts

    The contracts BenchmarkToken, BenchmarkContract, _GlobalPreOrder and _Info of
    services/processor/native/repository.

    A transfer moves its amount and keeps the sum of the balances; the pre-order
    check approves transactions exactly while the last subscription data read from
    Ethereum pays for the virtual chain. *)
From stdpp Require Import base gmap strings numbers list.
From Stdlib Require Import ZArith Lia ZifyBool.
From S2P Require Import Prelude Hash VirtualMachine ContractSdk.
Import VirtualMachine.

(** ** A token (BenchmarkToken/contract.go) *)

Module BenchmarkToken.

Section Contract.
Context `{ContractSdk}.

Definition CONTRACT_NAME : bytes := go_string "BenchmarkToken".
Definition TOTAL_SUPPLY : Z := 10000000000.

Definition _init : prog unit :=
  ownerAddress ← perform AddressGetSignerAddress;
  WriteUint64 ownerAddress TOTAL_SUPPLY.

Definition transfer (amount : Z) (targetAddress : bytes) : prog unit :=
  callerAddress ← perform AddressGetCallerAddress;
  callerBalance ← ReadUint64 callerAddress;
  if callerBalance <? amount then panics "transfer of %d failed since balance is only %d"
  else
    _ ← WriteUint64 callerAddress (u64_sub callerBalance amount);
    _ ← ValidateAddress targetAddress;
    targetBalance ← ReadUint64 targetAddress;
    WriteUint64 targetAddress (u64_add targetBalance amount).

Definition getBalance (targetAddress : bytes) : prog Z :=
  _ ← ValidateAddress targetAddress;
  ReadUint64 targetAddress.

End Contract.

Section Balances.
Context `{Sha256} `{ContractSdkLaws}.
Variable call_method : call_env -> bytes -> bytes -> list Argument -> world -> reply (list Argument) * world.

Definition balance (c : bytes) (s : store) (a : bytes) : Z := uint64_value (stored s c a).

(** The sum of the balances of some accounts. *)
Definition supply (c : bytes) (s : store) (accounts : list bytes) : Z :=
  foldr (fun a n => balance c s a + n) 0 accounts.

Lemma balance_bound c s a : is_u64 (balance c s a).
Proof. apply uint64_bound. Qed.

Lemma supply_cons c s a accounts : supply c s (a :: accounts) = balance c s a + supply c s accounts.
Proof. done. Qed.

Lemma supply_nonneg c s accounts : 0 <= supply c s accounts.
Proof.
  induction accounts as [|a accounts IH]; [done|]. rewrite supply_cons. pose proof (balance_bound c s a) as Hb.
  unfold is_u64 in Hb. lia.
Qed.

Lemma balance_le_supply c s accounts a : a ∈ accounts -> balance c s a <= supply c s accounts.
Proof.
  induction 1 as [a accounts|a b accounts _ IH]; rewrite supply_cons.
  - pose proof (supply_nonneg c s accounts). lia.
  - pose proof (balance_bound c s b) as Hb. unfold is_u64 in Hb. lia.
Qed.

Lemma supply_ext c s s' accounts :
  (forall a, a ∈ accounts -> balance c s' a = balance c s a) -> supply c s' accounts = supply c s accounts.
Proof.
  induction accounts as [|a accounts IH]; intros Heq; [done|]. rewrite !supply_cons, Heq by by left. f_equal.
  apply IH. intros b Hb. apply Heq. by right.
Qed.

Lemma supply_update c s s' accounts a d :
  NoDup accounts -> a ∈ accounts -> balance c s' a = balance c s a + d ->
  (forall b, b <> a -> balance c s' b = balance c s b) -> supply c s' accounts = supply c s accounts + d.
Proof.
  intros Hnd. induction Hnd as [|b accounts Hb Hnd IH]; intros Hin Ha Hoth; [by apply not_elem_of_nil in Hin|].
  rewrite !supply_cons.
  destruct (decide (b = a)) as [->|Hne].
  - rewrite (supply_ext c s s' accounts); [lia|]. intros x Hx. apply Hoth. by intros ->.
  - apply elem_of_cons in Hin as [?|Hin]; [done|]. rewrite IH, Hoth by done. lia.
Qed.

Lemma balance_write c s a n b :
  is_u64 n -> balance c (<[(c, a) := uint64_bytes n]> s) b = if bool_decide (b = a) then n else balance c s b.
Proof.
  intros Hn. unfold balance. case_bool_decide as E.
  - subst. rewrite stored_insert_eq. by apply uint64_roundtrip.
  - by rewrite stored_insert_ne.
Qed.

(** A transfer keeps the supply: whatever the caller and the target (which may be
    the same), a transfer that the balance covers to a valid address moves the
    amount from the one to the other, changes no other balance, and leaves the sum
    over any set of accounts that has both unchanged; the unchecked addition does
    not overflow because the sum of the balances does not.  A transfer beyond the
    balance panics and changes nothing, one to an invalid address panics. *)
Theorem transfer_conserves e amount target accounts w :
  is_u64 amount -> NoDup accounts -> e_caller e ∈ accounts -> target ∈ accounts ->
  supply (e_contract e) (w_store w) accounts < 2 ^ 64 ->
  if balance (e_contract e) (w_store w) (e_caller e) <? amount then
    run call_method e (transfer amount target) w
    = (Panicked (PanicMessage "transfer of %d failed since balance is only %d"), w)
  else if valid_address target then
    exists s', run call_method e (transfer amount target) w = (Returned tt, mkWorld s' (w_events w)) /\
      supply (e_contract e) s' accounts = supply (e_contract e) (w_store w) accounts /\
      forall a, balance (e_contract e) s' a
        = balance (e_contract e) (w_store w) a
          - (if bool_decide (a = e_caller e) then amount else 0) + (if bool_decide (a = target) then amount else 0)
  else exists v w', run call_method e (transfer amount target) w = (Panicked v, w').
Proof.
  intros Ham Hnd Hc Ht Hsup. set (c := e_contract e) in *. set (s := w_store w) in *.
  pose proof (balance_bound c s (e_caller e)) as Hb. unfold is_u64 in Ham, Hb.
  unfold transfer. runs. fold c s (balance c s (e_caller e)). case_match eqn:Hlt; [done|]. runs.
  cbn [w_store w_events]. fold c s. words. set (s1 := <[_ := uint64_bytes (_ - amount)]> s).
  assert (forall a, balance c s1 a =
    if bool_decide (a = e_caller e) then balance c s (e_caller e) - amount else balance c s a) as Hs1.
  { intros a. apply balance_write. unfold is_u64. lia. }
  unfold ValidateAddress. destruct (valid_address target); [|runs; by eexists _, _].
  runs. cbn [w_store w_events]. fold c (balance c s1 target).
  assert (supply c s1 accounts = supply c s accounts - amount) as Hsup1.
  { rewrite (supply_update c s s1 accounts (e_caller e) (- amount)); [lia|done|done| |].
    - rewrite Hs1, bool_decide_true by done. lia.
    - intros b Hne. by rewrite Hs1, bool_decide_false. }
  pose proof (balance_le_supply c s1 accounts target Ht) as Hle.
  pose proof (balance_bound c s1 target) as Hb1. unfold is_u64 in Hb1. words.
  set (s2 := <[_ := uint64_bytes (_ + amount)]> s1).
  assert (forall a, balance c s2 a =
    if bool_decide (a = target) then balance c s1 target + amount else balance c s1 a) as Hs2.
  { intros a. apply balance_write. unfold is_u64. lia. }
  exists s2. split_and!; [done| |].
  - rewrite (supply_update c s1 s2 accounts target amount); [lia|done|done| |].
    + by rewrite Hs2, bool_decide_true.
    + intros b Hne. by rewrite Hs2, bool_decide_false.
  - intros a. rewrite Hs2, !Hs1. repeat case_bool_decide; subst; try done; lia.
Qed.

End Balances.

Module Example.
Import ExampleSdk.
#[local] Existing Instance crypto_sha256.

Definition env : call_env := mkEnv CONTRACT_NAME (address 1) (address 1) 5 0 0 [] [] no_ethereum.
Definition funded : store := {[ (CONTRACT_NAME, address 1) := uint64_bytes TOTAL_SUPPLY ]}.

Lemma transfer_conserves_witness :
  exists s', run no_calls env (transfer 40 (address 2)) (mkWorld funded []) = (Returned tt, mkWorld s' []) /\
    supply CONTRACT_NAME s' [address 1; address 2] = TOTAL_SUPPLY /\ balance CONTRACT_NAME s' (address 2) = 40.
Proof.
  assert (supply CONTRACT_NAME funded [address 1; address 2] = TOTAL_SUPPLY) as Hsup by (vm_compute; reflexivity).
  destruct (transfer_conserves no_calls env 40 (address 2) [address 1; address 2] (mkWorld funded []))
    as (s' & Hrun & Hs & Hb).
  - eval_Z.
  - by apply (bool_decide_unpack (NoDup _)).
  - by left.
  - by right; left.
  - cbn [w_store]. change (e_contract env) with CONTRACT_NAME. rewrite Hsup. eval_Z.
  - exists s'. split; [exact Hrun|]. split; [by rewrite <-Hsup|]. apply (Hb (address 2)).
Defined.
End Example.
End BenchmarkToken.

(** ** The benchmark contract (BenchmarkContract/contract.go) *)

Module BenchmarkContract.
Section Contract.
Context `{ContractSdk}.

Definition CONTRACT_NAME : bytes := go_string "BenchmarkContract".

Definition _init : prog unit := WriteUint64 (go_string "initialized") 1.
Definition nop : prog unit := mret tt.
Definition add (a b : Z) : prog Z := mret (u64_add a b).
Definition set (a : Z) : prog unit := WriteUint64 (go_string "example-key") a.
Definition get : prog Z := ReadUint64 (go_string "example-key").
Definition argTypes (a1 a2 : Z) (a3 a4 : bytes) : prog (Z * Z * bytes * bytes) :=
  mret (u32_add a1 1, u64_add a2 1, a3 ++ go_string "1", a4 ++ [1]).
Definition throw : prog unit := panics "example error returned by contract".
Definition giveBirth (name : bytes) : prog unit :=
  perform (EventsEmitEvent (go_string "BabyBorn") [ArgString name; ArgUint32 3]).

End Contract.
End BenchmarkContract.

(** ** Information (_Info/info.go) *)

Module Info.
Definition isAlive : prog bytes := mret (go_string "alive").
Definition getSignerAddress : prog bytes := perform AddressGetSignerAddress.
End Info.

(** ** The subscription of the virtual chain (GlobalPreOrder/subscription.go) *)

Module GlobalPreOrder.

(** Conversion to a signed 64 bit integer. *)
Definition int64 (n : Z) : Z := wrap 64 (n + 2 ^ 63) - 2 ^ 63.

(** A time.Time: the seconds since the year 1 and the nanoseconds within the
    second. *)
Record Time := mkTime { t_sec : Z; t_nsec : Z }.
Definition unixToInternal : Z := 62135596800.
Definition time_Unix (sec nsec : Z) : Time :=
  mkTime (int64 (int64 (sec + nsec / 1000000000) + unixToInternal)) (nsec mod 1000000000).
Definition Before (t u : Time) : bool := (t_sec t <? t_sec u) || ((t_sec t =? t_sec u) && (t_nsec t <? t_nsec u)).

Definition satoshiFactor : Z := 1000000000000000000.

Definition planCostsInOrbs (plan : bytes) : option Z :=
  snd <$> find (fun p => bool_decide (go_string (fst p) = plan))
    [("B0", 450); ("B1", 850); ("B2", 1650); ("B3", 3300); ("B4", 6600); ("B5", 13200)]%string.

Record subscriptionData := mkSubscription {
  sub_id : Z;
  sub_plan : bytes;
  sub_startTime : Time;
  sub_tokensPaidInOrbs : Z
}.

Inductive subscription_error :=
| ErrOtherChain (id virtualChainId : Z)
| ErrNotStarted (startTime : Time)
| ErrUnknownPlan (plan : bytes)
| ErrNotPaid (plan : bytes) (cost paid : Z).

Definition validate (s : subscriptionData) (virtualChainId : Z) (blockTime : Time) : option subscription_error :=
  if negb (sub_id s =? virtualChainId) then Some (ErrOtherChain (sub_id s) virtualChainId)
  else if negb (Before (sub_startTime s) blockTime) then Some (ErrNotStarted (sub_startTime s))
  else match planCostsInOrbs (sub_plan s) with
       | None => Some (ErrUnknownPlan (sub_plan s))
       | Some planCostInTokens =>
           if sub_tokensPaidInOrbs s <? planCostInTokens
           then Some (ErrNotPaid (sub_plan s) planCostInTokens (sub_tokensPaidInOrbs s)) else None
       end.

Section Contract.
Context `{ContractSdk}.
(** The text of an error, which errors.Errorf formats. *)
Variable Error : subscription_error -> bytes.

Definition _satoshiToOrbs (tokens : Z) : Z := int64 (tokens / satoshiFactor).

Definition _readSubscriptionProblem : prog bytes := ReadBytes (go_string "SubscriptionProblem").
Definition _writeSubscriptionProblem (problemStatus : bytes) : prog unit :=
  WriteBytes (go_string "SubscriptionProblem") problemStatus.
Definition _clearSubscriptionProblem : prog unit := Clear (go_string "SubscriptionProblem").
Definition _readSubscriptionContract : prog bytes := ReadBytes (go_string "SubscriptionContract").
Definition _writeSubscriptionContract (ethContractAddress : bytes) : prog unit :=
  WriteBytes (go_string "SubscriptionContract") ethContractAddress.

Definition approve : prog unit :=
  problem ← _readSubscriptionProblem;
  if bool_decide (problem = []) then mret tt else panics "%s".

(** The last four bytes, big endian. *)
Definition be_uint32 (b : bytes) : Z := foldl (fun n d => n * 256 + d) 0 b.
Definition vcid_bytes (virtualChainId : Z) : bytes :=
  replicate 28 0 ++ map (fun i => virtualChainId / 2 ^ i mod 256) [24; 16; 8; 0].

Definition _readSubscriptionDataFromEthereum (jsonAbi : bytes) (virtualChainId : Z) (ethContractAddress : bytes)
    : prog subscriptionData :=
  out ← perform (EthereumCallMethodAtBlock 0 ethContractAddress jsonAbi (go_string "getSubscriptionData")
                   [EthAddress (vcid_bytes virtualChainId)]);
  match out with
  | EthSubscription id plan startTime tokens =>
      mret (mkSubscription (be_uint32 (drop 28 id)) plan (time_Unix (int64 startTime) 0) (_satoshiToOrbs tokens))
  | _ => Panics PanicRuntime
  end.

Definition refreshSubscription (jsonAbi ethContractAddress : bytes) : prog unit :=
  currentContract ← _readSubscriptionContract;
  if bool_decide (currentContract <> []) && bool_decide (currentContract <> ethContractAddress) then
    panics "can only refresh current contract %s"
  else
    _ ← (if bool_decide (currentContract = []) then _writeSubscriptionContract ethContractAddress else mret tt);
    myVirtualChainId ← perform EnvGetVirtualChainId;
    subscription ← _readSubscriptionDataFromEthereum jsonAbi myVirtualChainId ethContractAddress;
    timestamp ← perform EnvGetBlockTimestamp;
    match validate subscription myVirtualChainId (time_Unix 0 (int64 timestamp)) with
    | None => _clearSubscriptionProblem
    | Some err => _writeSubscriptionProblem (Error err)
    end.

End Contract.

Section Approval.
Context `{Sha256} `{ContractSdk}.
Variable Error : subscription_error -> bytes.
Hypothesis Error_text : forall err, Error err <> [].
Variable call_method : call_env -> bytes -> bytes -> list Argument -> world -> reply (list Argument) * world.

(** The contract the subscription is read from, once it is set. *)
Definition subscription_contract (c : bytes) (s : store) : bytes := stored s c (go_string "SubscriptionContract").

Lemma run_approve e w :
  run call_method e approve w =
    if bool_decide (stored (w_store w) (e_contract e) (go_string "SubscriptionProblem") = [])
    then (Returned tt, w) else (Panicked (PanicMessage "%s"), w).
Proof. unfold approve, _readSubscriptionProblem. runs. by case_bool_decide. Qed.

Lemma run_refresh e jsonAbi address w :
  address <> [] ->
  let cur := subscription_contract (e_contract e) (w_store w) in
  run call_method e (refreshSubscription Error jsonAbi address) w =
    if bool_decide (cur = [] \/ cur = address) then
      let w1 := if bool_decide (cur = []) then
                  mkWorld (<[(e_contract e, go_string "SubscriptionContract") := address]> (w_store w)) (w_events w)
                else w in
      match eth_call (e_ethereum e) 0 address jsonAbi (go_string "getSubscriptionData") [EthAddress (vcid_bytes (e_vcid e))] with
      | Some (EthSubscription id plan startTime tokens) =>
          let subscription := mkSubscription (be_uint32 (drop 28 id)) plan (time_Unix (int64 startTime) 0)
                                (_satoshiToOrbs tokens) in
          (Returned tt,
           mkWorld (<[(e_contract e, go_string "SubscriptionProblem") :=
                       match validate subscription (e_vcid e) (time_Unix 0 (int64 (e_timestamp e))) with
                       | None => []
                       | Some err => Error err
                       end]> (w_store w1)) (w_events w1))
      | _ => (Panicked PanicRuntime, w1)
      end
    else (Panicked (PanicMessage "can only refresh current contract %s"), w).
Proof.
  intros Hne cur. cbv zeta. unfold refreshSubscription, _readSubscriptionContract. runs. fold cur.
  destruct (decide (cur = [])) as [Ec|Ec].
  - rewrite (bool_decide_false (cur <> [])), (bool_decide_true (cur = [] \/ _)), (bool_decide_true (cur = []))
      by naive_solver. cbn [andb]. rewrite ?(bool_decide_true (cur = [])) by done.
    unfold _writeSubscriptionContract, _readSubscriptionDataFromEthereum.
    runs. destruct (eth_call _ _ _ _ _ _) as [[]|]; cbn [or_panic]; runs; try done.
    by destruct (validate _ _ _).
  - rewrite (bool_decide_true (cur <> [])), (bool_decide_false (cur = [])) by done. cbn [andb].
    destruct (decide (cur = address)) as [Ea|Ea].
    + rewrite (bool_decide_false (cur <> address)), (bool_decide_true (_ \/ _)) by naive_solver.
      rewrite ?(bool_decide_false (cur = [])) by done. unfold _readSubscriptionDataFromEthereum. runs.
      destruct (eth_call _ _ _ _ _ _) as [[]|]; cbn [or_panic]; runs; try done. by destruct (validate _ _ _).
    + by rewrite (bool_decide_true (cur <> address)), (bool_decide_false (_ \/ _)) by naive_solver.
Qed.

Lemma validate_None s vcid blockTime :
  validate s vcid blockTime = None <->
  sub_id s = vcid /\ Before (sub_startTime s) blockTime = true /\
  exists cost, planCostsInOrbs (sub_plan s) = Some cost /\ cost <= sub_tokensPaidInOrbs s.
Proof.
  unfold validate. destruct (sub_id s =? vcid) eqn:E1; cbn [negb]; [|split; [done|intros [? _]; lia]].
  destruct (Before _ _); cbn [negb]; [|split; [done|naive_solver]].
  destruct (planCostsInOrbs _) as [cost|]; [|split; [done|naive_solver]].
  destruct (_ <? cost) eqn:E2; split; try done.
  - intros (_ & _ & ? & [= <-] & ?). lia.
  - intros _. split_and!; [lia|done|]. exists cost. split; [done|lia].
Qed.

(** The pre-order check approves transactions as the subscription says: once a
    subscription contract is set only that one can be refreshed from, and after a
    refresh that returns, approve returns exactly when the data read from Ethereum
    is for this virtual chain, has started before the block, and pays for a plan
    that exists. *)
Theorem approve_after_refresh e jsonAbi address w w' :
  address <> [] ->
  run call_method e (refreshSubscription Error jsonAbi address) w = (Returned tt, w') ->
  (subscription_contract (e_contract e) (w_store w) = [] \/
   subscription_contract (e_contract e) (w_store w) = address) /\
  subscription_contract (e_contract e) (w_store w') = address /\
  exists id plan startTime tokens,
    eth_call (e_ethereum e) 0 address jsonAbi (go_string "getSubscriptionData") [EthAddress (vcid_bytes (e_vcid e))]
      = Some (EthSubscription id plan startTime tokens) /\
    forall e', e_contract e' = e_contract e ->
    (run call_method e' approve w' = (Returned tt, w') <->
     be_uint32 (drop 28 id) = e_vcid e /\
     Before (time_Unix (int64 startTime) 0) (time_Unix 0 (int64 (e_timestamp e))) = true /\
     exists cost, planCostsInOrbs plan = Some cost /\ cost <= _satoshiToOrbs tokens).
Proof.
  intros Hne Hrun. rewrite run_refresh in Hrun by done. cbv zeta in Hrun.
  set (cur := subscription_contract (e_contract e) (w_store w)) in *.
  case_bool_decide as Hcur; [|done]. split; [done|].
  set (w1 := if bool_decide (cur = []) then _ else w) in Hrun.
  assert (subscription_contract (e_contract e) (w_store w1) = address) as Hw1.
  { subst w1. case_bool_decide; [apply stored_insert_eq|]. by destruct Hcur. }
  destruct (eth_call _ _ _ _ _ _) as [[]|]; try done. injection Hrun as <-. cbn [w_store w_events].
  split; [etrans; [by apply stored_insert_ne|exact Hw1]|].
  eexists _, _, _, _. split; [done|]. intros e' He'. rewrite run_approve, He'. cbn [w_store]. rewrite stored_insert_eq.
  set (sub := mkSubscription _ _ _ _). pose proof (validate_None sub (e_vcid e) (time_Unix 0 (int64 (e_timestamp e)))) as Hv.
  cbn [sub_id sub_startTime sub_plan sub_tokensPaidInOrbs sub] in Hv. rewrite <-Hv. case_bool_decide as Ev.
  - split; [intros _|done]. destruct (validate _ _ _); [by apply Error_text in Ev|done].
  - split; [done|]. intros E. by rewrite E in Ev.
Qed.
End Approval.

Module Example.
Import ExampleSdk.
#[local] Existing Instance crypto_sha256.

(** Chain 42, with 500 tokens paid for plan B0 of 450. *)
Definition chain : ethereum :=
  mkEthereum (fun _ _ _ _ _ => Some (EthSubscription (vcid_bytes 42) (go_string "B0") 1500000000 (500 * satoshiFactor)))
    (fun _ _ _ _ => None) None (fun _ => None) None (fun _ => None).
Definition env : call_env :=
  mkEnv (go_string "_GlobalPreOrder") (address 1) (address 1) 5 1600000000000000000 42 [] [] chain.
Definition text (_ : subscription_error) : bytes := [115].
Definition refreshed : world := (run no_calls env (refreshSubscription text [] (go_string "0x12")) (mkWorld ∅ [])).2.

Lemma approve_after_refresh_witness : run no_calls env approve refreshed = (Returned tt, refreshed).
Proof.
  destruct (approve_after_refresh text ltac:(done) no_calls env [] (go_string "0x12") (mkWorld ∅ []) refreshed)
    as (_ & _ & id & plan & startTime & tokens & Hcall & Happrove).
  - done.
  - vm_compute. reflexivity.
  - apply (Happrove env eq_refl). injection Hcall as <- <- <- <-.
    split; [vm_compute; reflexivity|]. split; [vm_compute; reflexivity|].
    exists 450. split; [vm_compute; reflexivity|]. vm_compute. discriminate.
Defined.
End Example.
End GlobalPreOrder.
