(* ===== verification/Elections.v ===== *)
(** * The elections contract

    The system contract _Elections
    (services/processor/native/repository/_Elections).  Delegations are mirrored
    from Ethereum during an election period (mirror_delegate.go); then a sequence
    of processVoting transactions reads the validators, the guardians, their votes
    and all stakes from Ethereum into the state, one item per transaction
    (processing_vote.go), and the last one counts the votes, elects the validators,
    grants the rewards (processing_rewards.go) and records the election
    (election_results.go).

    This file has the whole contract; ElectionKeys.v shows that its keys do not
    collide, ElectionVotes.v has the properties of the count, ElectionResults.v those
    of the rewards and of the elected validators, ElectionMirror.v those of the
    mirrored delegations.  The log lines are left out; the ABIs of the Ethereum contracts
    are arguments.  The correction methods of fix_*.go, which no longer are
    exported, are not modelled. *)
From stdpp Require Import base gmap strings numbers list sorting.
From Stdlib Require Import ZArith Lia ZifyBool.
From S2P Require Import Prelude Hash Encoding VirtualMachine ContractSdk.
Import VirtualMachine.

Module Elections.

(** ** Parameters (index.go, ethereum_binding.go) *)

Definition DELEGATION_NAME : bytes := go_string "Delegate".
Definition DELEGATION_BY_TRANSFER_NAME : bytes := go_string "Transfer".
Definition DELEGATION_BY_TRANSFER_VALUE : Z := 70000000000000000.
Definition ETHEREUM_STAKE_FACTOR : Z := 1000000000000000000.
Definition MIN_ELECTED_VALIDATORS : nat := 7.
Definition VOTE_OUT_WEIGHT_PERCENT : Z := 70.

Definition VOTE_MIRROR_PERIOD_LENGTH_IN_BLOCKS : Z := 545.
Definition VOTE_VALID_PERIOD_LENGTH_IN_BLOCKS : Z := 45500.
Definition ELECTION_PERIOD_LENGTH_IN_BLOCKS : Z := 20000.
Definition TRANSITION_PERIOD_LENGTH_IN_BLOCKS : Z := 1.
Definition FIRST_ELECTION_BLOCK : Z := 7528900.

Definition FIRST_ELECTION_TIME_IN_NANOS : Z := 1569920400000000000.
Definition ELECTION_PERIOD_LENGTH_IN_NANOS : Z := 3 * 24 * 3600 * 1000000000.
Definition MIRROR_PERIOD_LENGTH_IN_NANOS : Z := 2 * 3600 * 1000000000.
Definition VOTE_PERIOD_LENGTH_IN_NANOS : Z := 7 * 24 * 3600 * 1000000000.

Definition ETHEREUM_TOKEN_ADDR : bytes := go_string "0xff56Cc6b1E6dEd347aA0B7676C85AB0B3D08B0FA".
Definition ETHEREUM_STAKING_ADDR : bytes := go_string "0x01D59Af68E2dcb44e04C50e05F62E7043F2656C3".
Definition ETHEREUM_VOTING_ADDR : bytes := go_string "0x30f855afb78758Aa4C2dc706fb0fA3A98c865d2d".
Definition ETHEREUM_VALIDATORS_ADDR : bytes := go_string "0x240fAa45557c61B6959162660E324Bb90984F00f".
Definition ETHEREUM_VALIDATORS_REGISTRY_ADDR : bytes := go_string "0x56A6895FD37f358c17cbb3F14A864ea5Fe871F0a".
Definition ETHEREUM_GUARDIANS_ADDR : bytes := go_string "0xD64B1BF6fCAb5ADD75041C89F61816c2B3d5E711".

(** The JSON interface of each Ethereum contract. *)
Record abis := mkAbis {
  getTokenAbi : bytes;
  getStakingAbi : bytes;
  getVotingAbi : bytes;
  getValidatorsAbi : bytes;
  getValidatorsRegistryAbi : bytes;
  getGuardiansAbi : bytes
}.

(** A copy into an array of 20 bytes. *)
Definition _addressSliceToArray (a : bytes) : bytes := take 20 a ++ replicate (20 - length a) 0.

Definition big_Uint64 (n : Z) : Z := wrap 64 n.

(** ** Keys of the state *)

Definition hex_key (prefix : string) (a : bytes) (suffix : string) : bytes :=
  go_string prefix ++ hex_EncodeToString a ++ go_string suffix.
Definition index_key (prefix : string) (n : Z) (suffix : string) : bytes :=
  go_string prefix ++ sprint_d n ++ go_string suffix.

Definition _formatElectionsNumber : bytes := go_string "_CURRENT_ELECTION_INDEX_KEY_".
Definition _formatElectionTimeInNanos (index : Z) : bytes := index_key "Election_" index "_Time".
Definition _formatElectionBlockNumber (index : Z) : bytes := index_key "Election_" index "_BlockNumber".
Definition _formatElectionBlockHeight (index : Z) : bytes := index_key "Election_" index "_BlockHeight".
Definition _formatElectionValidatorEtheretumAddress (index : Z) : bytes := index_key "Election_" index "_ValidatorsEth".
Definition _formatElectionValidatorOrbsAddress (index : Z) : bytes := index_key "Election_" index "_ValidatorsOrbs".

Definition _formatProcessCurrentElectionBlockNumber : bytes := go_string "Current_Election_Block_Number".
Definition _formatProcessCurrentElectionEarliestValidVoteBlockNumber : bytes := go_string "Current_Election_Earliest_Vote".
Definition _formatProcessCurrentElectionTime : bytes := go_string "Current_Election_Time".
Definition _formatIsTimeBasedElections : bytes := go_string "Is_Time_Based_Elections".
Definition _formatTotalVotingStakeKey : bytes := go_string "Total_Voting_Weight".
Definition _formatVotingProcessStateKey : bytes := go_string "Voting_Process_State".
Definition _formatVotingProcessItemIteratorKey : bytes := go_string "Voting_Process_Item".

Definition _formatNumberOfValidators : bytes := go_string "Validators_Count".
Definition _formatValidaorIterator (num : Z) : bytes := go_string "Validator_Address_" ++ sprint_d num.
Definition _formatValidatorOrbsAddressKey (v : bytes) : bytes := hex_key "Validator_" v "_Orbs".
Definition _formatValidatorStakeKey (v : bytes) : bytes := hex_key "Validator_" v "_Stake".
Definition _formatValidatorVoteKey (v : bytes) : bytes := hex_key "Validator_" v "_Vote".

Definition _formatNumberOfGuardians : bytes := go_string "Guardians_Count".
Definition _formatGuardianIterator (num : Z) : bytes := go_string "Guardian_Address_" ++ sprint_d num.
Definition _formatGuardian (g : bytes) : bytes := go_string "Guardian_" ++ hex_EncodeToString g.
Definition _formatGuardianStakeKey (g : bytes) : bytes := hex_key "Guardian_" g "_Stake".
Definition _formatGuardianVoteBlockNumberKey (g : bytes) : bytes := hex_key "Guardian_" g "_VoteAt".
Definition _formatGuardianCandidateKey (g : bytes) : bytes := hex_key "Guardian_" g "_Candidates".
Definition _formatGuardianVoteWeightKey (g : bytes) : bytes := hex_key "Guardian_" g "_Weight".

Definition _formatNumberOfDelegators : bytes := go_string "Delegator_Address_Count".
Definition _formatDelegatorIterator (num : Z) : bytes := go_string "Delegator_Address_" ++ sprint_d num.
Definition _formatDelegatorAgentKey (d : bytes) : bytes := hex_key "Delegator_" d "_Agent".
Definition _formatDelegatorBlockNumberKey (d : bytes) : bytes := hex_key "Delegator_" d "_BlockNumber".
Definition _formatDelegatorBlockTxIndexKey (d : bytes) : bytes := hex_key "Delegator_" d "_BlockTxIndex".
Definition _formatDelegatorMethod (d : bytes) : bytes := hex_key "Delegator_" d "_Method".
Definition _formatDelegatorStakeKey (d : bytes) : bytes := hex_key "Delegator_" d "_Stake".

Definition _formatCumulativeParticipationReward (d : bytes) : bytes := go_string "Participant_CumReward_" ++ hex_EncodeToString d.
Definition _formatCumulativeGuardianExcellenceReward (g : bytes) : bytes := go_string "Guardian_CumReward_" ++ hex_EncodeToString g.
Definition _formatCumulativeValidatorReward (v : bytes) : bytes := go_string "Vaidator_CumReward_" ++ hex_EncodeToString v.
Definition _formatExcellenceProgramGuardians : bytes := go_string "Excellence_Program_Guardians".

Section Contract.
Context `{ContractSdk}.
Variable abi : abis.

(** ** Election results (election_results.go) *)

Definition getElectionPeriodInNanos : Z := ELECTION_PERIOD_LENGTH_IN_NANOS.

Definition getNumberOfElections : prog Z := ReadUint32 _formatElectionsNumber.
Definition _setNumberOfElections (index : Z) : prog unit := WriteUint32 _formatElectionsNumber index.
Definition getElectedValidatorsTimeInNanosByIndex (index : Z) : prog Z := ReadUint64 (_formatElectionTimeInNanos index).
Definition _setElectedValidatorsTimeInNanosAtIndex (index timestamp : Z) : prog unit :=
  WriteUint64 (_formatElectionTimeInNanos index) timestamp.
Definition getElectedValidatorsBlockNumberByIndex (index : Z) : prog Z := ReadUint64 (_formatElectionBlockNumber index).
Definition _setElectedValidatorsBlockNumberAtIndex (index blockNumber : Z) : prog unit :=
  WriteUint64 (_formatElectionBlockNumber index) blockNumber.
Definition getElectedValidatorsBlockHeightByIndex (index : Z) : prog Z := ReadUint64 (_formatElectionBlockHeight index).
Definition _setElectedValidatorsBlockHeightAtIndex (index blockHeight : Z) : prog unit :=
  WriteUint64 (_formatElectionBlockHeight index) blockHeight.
Definition getElectedValidatorsEthereumAddressByIndex (index : Z) : prog bytes :=
  ReadBytes (_formatElectionValidatorEtheretumAddress index).
Definition _setElectedValidatorsEthereumAddressAtIndex (index : Z) (elected : bytes) : prog unit :=
  WriteBytes (_formatElectionValidatorEtheretumAddress index) elected.
Definition getElectedValidatorsOrbsAddressByIndex (index : Z) : prog bytes :=
  ReadBytes (_formatElectionValidatorOrbsAddress index).
Definition _setElectedValidatorsOrbsAddressAtIndex (index : Z) (elected : bytes) : prog unit :=
  WriteBytes (_formatElectionValidatorOrbsAddress index) elected.

Definition getElectedValidatorsOrbsAddress : prog bytes :=
  index ← getNumberOfElections; getElectedValidatorsOrbsAddressByIndex index.
Definition getElectedValidatorsEthereumAddress : prog bytes :=
  index ← getNumberOfElections; getElectedValidatorsEthereumAddressByIndex index.

Definition getEffectiveElectionBlockNumber : prog Z :=
  index ← getNumberOfElections; getElectedValidatorsBlockNumberByIndex index.
Definition getEffectiveElectionTimeInNanos : prog Z :=
  index ← getNumberOfElections; getElectedValidatorsTimeInNanosByIndex index.
Definition getCurrentElectionTimeInNanos : prog Z :=
  t ← getEffectiveElectionTimeInNanos; safe (safeuint64_Add t getElectionPeriodInNanos).
Definition getNextElectionTimeInNanos : prog Z :=
  t ← getCurrentElectionTimeInNanos; safe (safeuint64_Add t getElectionPeriodInNanos).

Definition _getDefaultElectionResults : bytes := [].

(** The loops that go through the elections from the last one down. *)
Fixpoint find_election (n : nat) (key : Z -> prog Z) (value : Z -> prog bytes) (bound : Z) : prog bytes :=
  match n with
  | O => mret _getDefaultElectionResults
  | S n' =>
      x ← key (Z.of_nat n);
      if x <? bound then value (Z.of_nat n) else find_election n' key value bound
  end.

Definition getElectedValidatorsEthereumAddressByBlockNumber (blockNumber : Z) : prog bytes :=
  numberOfElections ← getNumberOfElections;
  find_election (Z.to_nat numberOfElections) getElectedValidatorsBlockNumberByIndex
    getElectedValidatorsEthereumAddressByIndex blockNumber.

Definition getElectedValidatorsOrbsAddressByBlockHeight (blockHeight : Z) : prog bytes :=
  numberOfElections ← getNumberOfElections;
  find_election (Z.to_nat numberOfElections) getElectedValidatorsBlockHeightByIndex
    getElectedValidatorsOrbsAddressByIndex blockHeight.

(** ** Validators (validators.go) *)

Definition _getNumberOfValidators : prog Z := ReadUint32 _formatNumberOfValidators.
Definition _setNumberOfValidators (n : Z) : prog unit := WriteUint32 _formatNumberOfValidators (wrap 32 n).
Definition _getValidatorEthereumAddressAtIndex (index : Z) : prog bytes :=
  b ← ReadBytes (_formatValidaorIterator index); mret (_addressSliceToArray b).
Definition _setValidatorEthereumAddressAtIndex (index : Z) (validator : bytes) : prog unit :=
  WriteBytes (_formatValidaorIterator index) validator.
Definition _getValidatorOrbsAddress (validator : bytes) : prog bytes :=
  b ← ReadBytes (_formatValidatorOrbsAddressKey validator); mret (_addressSliceToArray b).
Definition _setValidatorOrbsAddress (validator orbsAddress : bytes) : prog unit :=
  WriteBytes (_formatValidatorOrbsAddressKey validator) orbsAddress.
Definition getValidatorStake (validator : bytes) : prog Z := ReadUint64 (_formatValidatorStakeKey validator).
Definition _setValidatorStake (validator : bytes) (stake : Z) : prog unit :=
  WriteUint64 (_formatValidatorStakeKey validator) stake.
Definition getValidatorVote (validator : bytes) : prog Z := ReadUint64 (_formatValidatorVoteKey validator).
Definition _setValidatorVote (validator : bytes) (stake : Z) : prog unit :=
  WriteUint64 (_formatValidatorVoteKey validator) stake.

Definition _setValidators (validators : list bytes) : prog unit :=
  _ ← _setNumberOfValidators (Z.of_nat (length validators));
  _ ← range_loop validators (fun v i => _ ← _setValidatorEthereumAddressAtIndex i v; mret (i + 1)) 0;
  mret tt.

(** What [count] items read by their index are. *)
Definition read_all (count : prog Z) (read : Z -> prog bytes) : prog (list bytes) :=
  n ← count;
  for_loop (Z.to_nat n) 0 (fun i l => x ← read i; mret (l ++ [x])) [].

Definition _getValidators : prog (list bytes) := read_all _getNumberOfValidators _getValidatorEthereumAddressAtIndex.

(** *** The end of an election (election_results.go) *)

Definition _concatElectedEthereumAddresses (elected : list bytes) : bytes := concat elected.

Definition _translateElectedAddressesToOrbsAddressesAndConcat (elected : list bytes) : prog bytes :=
  range_loop elected (fun v saved => a ← _getValidatorOrbsAddress v; mret (saved ++ a)) [].

Definition _setElectedValidators (elected : list bytes) (electionTime electionBlockNumber : Z) : prog unit :=
  index ← getNumberOfElections;
  last ← getElectedValidatorsBlockNumberByIndex index;
  if last >? electionBlockNumber then
    panics "Election results rejected as new election happend at block %d which is older than last election %d"
  else
    let index := u32_add index 1 in
    _ ← _setElectedValidatorsTimeInNanosAtIndex index electionTime;
    _ ← _setElectedValidatorsBlockNumberAtIndex index electionBlockNumber;
    height ← perform EnvGetBlockHeight;
    _ ← _setElectedValidatorsBlockHeightAtIndex index (u64_add height TRANSITION_PERIOD_LENGTH_IN_BLOCKS);
    electedOrbsAddresses ← _translateElectedAddressesToOrbsAddressesAndConcat elected;
    _ ← _setElectedValidatorsOrbsAddressAtIndex index electedOrbsAddresses;
    _ ← _setElectedValidatorsEthereumAddressAtIndex index (_concatElectedEthereumAddresses elected);
    _setNumberOfElections index.

(** ** Time based and block based elections (helpers.go, block_based_logic.go) *)

Definition _isTimeBasedElections : prog bool :=
  n ← ReadUint32 _formatIsTimeBasedElections; mret (n =? 1).

Definition switchToTimeBasedElections : prog unit :=
  n ← ReadUint32 _formatIsTimeBasedElections;
  if n =? 0 then WriteUint32 _formatIsTimeBasedElections 1 else mret tt.

(** The methods of block based elections panic when elections are time based; the
    message of the panic has a time in it, which may overflow itself. *)
Definition block_based {A} (format : string) (time : prog Z) (m : prog A) : prog A :=
  timeBased ← _isTimeBasedElections;
  if (timeBased : bool) then _ ← time; panics format else m.

Definition getElectionPeriod : prog Z :=
  block_based "Election priod time in nanoseconds: %d" (mret getElectionPeriodInNanos)
    (mret ELECTION_PERIOD_LENGTH_IN_BLOCKS).

Definition getCurrentElectionBlockNumber : prog Z :=
  block_based "Current election time in nanoseconds: %d" getCurrentElectionTimeInNanos
    (n ← getEffectiveElectionBlockNumber; p ← getElectionPeriod; safe (safeuint64_Add n p)).

Definition getNextElectionBlockNumber : prog Z :=
  block_based "Next election time in nanoseconds: %d" getNextElectionTimeInNanos
    (n ← getCurrentElectionBlockNumber; p ← getElectionPeriod; safe (safeuint64_Add n p)).

Definition getCurrentEthereumBlockNumber : prog Z := perform EthGetBlockNumber.

Definition mirror_end_time : prog Z :=
  t ← getCurrentElectionTimeInNanos; safe (safeuint64_Add t MIRROR_PERIOD_LENGTH_IN_NANOS).

Definition getProcessingStartBlockNumber : prog Z :=
  block_based "Processing start time in nanoseconds: %d" mirror_end_time
    (n ← getCurrentElectionBlockNumber; safe (safeuint64_Add n VOTE_MIRROR_PERIOD_LENGTH_IN_BLOCKS)).

Definition getMirroringEndBlockNumber : prog Z :=
  block_based "Mirroring end time in nanoseconds: %d" mirror_end_time
    (n ← getCurrentElectionBlockNumber; safe (safeuint64_Add n VOTE_MIRROR_PERIOD_LENGTH_IN_BLOCKS)).

Definition _isProcessingPeriodBlockBased : prog Z :=
  currentBlockNumber ← getCurrentEthereumBlockNumber;
  processStartBlockNumber ← getProcessingStartBlockNumber;
  mret (if currentBlockNumber >=? processStartBlockNumber then 1 else 0).

Definition _isElectionOverdueBlockBased : prog Z :=
  processStartBlockNumber ← getProcessingStartBlockNumber;
  currentBlockNumber ← getCurrentEthereumBlockNumber;
  if processStartBlockNumber =? 0 then mret 1
  else
    overdue ← safe (safeuint64_Add processStartBlockNumber 600);
    mret (if currentBlockNumber >=? overdue then 1 else 0).

Definition isElectionOverdue : prog Z :=
  timeBased ← _isTimeBasedElections;
  if (timeBased : bool) then
    now ← perform EthGetBlockTime;
    t ← getCurrentElectionTimeInNanos;
    overdue ← safe (safeuint64_Add t (wrap 64 (3 * MIRROR_PERIOD_LENGTH_IN_NANOS)));
    mret (if now >? overdue then 1 else 0)
  else _isElectionOverdueBlockBased.

Definition _initCurrentElectionBlockNumber : prog unit :=
  currentElectionBlockNumber ← getEffectiveElectionBlockNumber;
  if currentElectionBlockNumber =? 0 then
    currBlock ← getCurrentEthereumBlockNumber;
    nextElectionBlock ←
      (if currBlock >? FIRST_ELECTION_BLOCK then
         blocksSinceFirstEver ← safe (safeuint64_Sub currBlock FIRST_ELECTION_BLOCK);
         p ← getElectionPeriod;
         blocksSinceStartOfAnElection ← safe (safeuint64_Mod blocksSinceFirstEver p);
         p ← getElectionPeriod;
         blocksUntilNextElection ← safe (safeuint64_Sub p blocksSinceStartOfAnElection);
         safe (safeuint64_Add currBlock blocksUntilNextElection)
       else mret FIRST_ELECTION_BLOCK);
    p ← getElectionPeriod;
    n ← safe (safeuint64_Sub nextElectionBlock p);
    _setElectedValidatorsBlockNumberAtIndex 0 n
  else mret tt.

Definition _initCurrentElection : prog unit :=
  timeBased ← _isTimeBasedElections;
  if (timeBased : bool) then
    t ← getEffectiveElectionTimeInNanos;
    if t =? 0 then
      currTime ← perform EthGetBlockTime;
      effectiveElectionTime ← safe (safeuint64_Sub FIRST_ELECTION_TIME_IN_NANOS getElectionPeriodInNanos);
      effectiveElectionTime ←
        (if currTime >? FIRST_ELECTION_TIME_IN_NANOS then
           timeSinceFirstEver ← safe (safeuint64_Sub currTime FIRST_ELECTION_TIME_IN_NANOS);
           numberOfFullElections ← safe (safeuint64_Div timeSinceFirstEver getElectionPeriodInNanos);
           span ← safe (safeuint64_Mul numberOfFullElections getElectionPeriodInNanos);
           safe (safeuint64_Add FIRST_ELECTION_TIME_IN_NANOS span)
         else mret effectiveElectionTime);
      _setElectedValidatorsTimeInNanosAtIndex 0 effectiveElectionTime
    else mret tt
  else _initCurrentElectionBlockNumber.

(** ** Processing state (processing_helpers.go, processing_vote.go) *)

Definition VOTING_PROCESS_STATE_VALIDATORS : bytes := go_string "validators".
Definition VOTING_PROCESS_STATE_GUARDIANS : bytes := go_string "guardians".
Definition VOTING_PROCESS_STATE_DELEGATORS : bytes := go_string "delegators".
Definition VOTING_PROCESS_STATE_GUARDIANS_DATA : bytes := go_string "voting".
Definition VOTING_PROCESS_STATE_CALCULATIONS : bytes := go_string "calculations".

Definition _getVotingProcessState : prog bytes := ReadBytes _formatVotingProcessStateKey.
Definition _setVotingProcessState (name : bytes) : prog unit := WriteBytes _formatVotingProcessStateKey name.
Definition _getVotingProcessItem : prog Z := ReadUint32 _formatVotingProcessItemIteratorKey.
Definition _setVotingProcessItem (i : Z) : prog unit := WriteUint32 _formatVotingProcessItemIteratorKey (wrap 32 i).

Definition hasProcessingStarted : prog Z :=
  state ← _getVotingProcessState; mret (if (0 <? length state)%nat then 1 else 0).

Definition isProcessingPeriod : prog Z :=
  started ← hasProcessingStarted;
  if started =? 1 then mret 1
  else
    timeBased ← _isTimeBasedElections;
    if (timeBased : bool) then
      now ← perform EthGetBlockTime;
      mirrorEnd ← mirror_end_time;
      mret (if now >? mirrorEnd then 1 else 0)
    else _isProcessingPeriodBlockBased.

Definition _getProcessCurrentElectionBlockNumber : prog Z := ReadUint64 _formatProcessCurrentElectionBlockNumber.
Definition _getProcessCurrentElectionEarliestValidVoteBlockNumber : prog Z :=
  ReadUint64 _formatProcessCurrentElectionEarliestValidVoteBlockNumber.
Definition _getProcessCurrentElectionTime : prog Z := ReadUint64 _formatProcessCurrentElectionTime.
Definition _setProcessCurrentElection (electionTime electionBlockNumber earliestValidVoteBlockNumber : Z) : prog unit :=
  _ ← WriteUint64 _formatProcessCurrentElectionBlockNumber electionBlockNumber;
  _ ← WriteUint64 _formatProcessCurrentElectionEarliestValidVoteBlockNumber earliestValidVoteBlockNumber;
  WriteUint64 _formatProcessCurrentElectionTime electionTime.

Definition _calculateProcessCurrentElectionValues : prog unit :=
  started ← hasProcessingStarted;
  if started =? 0 then
    timeBased ← _isTimeBasedElections;
    if (timeBased : bool) then
      electionBlockTime ← getCurrentElectionTimeInNanos;
      n ← perform (EthGetBlockNumberByTime electionBlockTime);
      t ← getCurrentElectionTimeInNanos;
      m ← perform (EthGetBlockNumberByTime (u64_sub t VOTE_PERIOD_LENGTH_IN_NANOS));
      _setProcessCurrentElection electionBlockTime (u64_add n 1) (u64_add m 1)
    else
      electionBlockNumber ← getCurrentElectionBlockNumber;
      electionBlockTime ← perform (EthGetBlockTimeByNumber electionBlockNumber);
      earliest ← safe (safeuint64_Sub electionBlockNumber (u64_sub VOTE_VALID_PERIOD_LENGTH_IN_BLOCKS 1));
      _setProcessCurrentElection electionBlockTime electionBlockNumber earliest
  else mret tt.

Definition _nextProcessVotingState (stage : bytes) : prog unit :=
  _ ← _setVotingProcessItem 0;
  _setVotingProcessState stage.

(** ** Guardians (guardians.go) *)

Definition _getNumberOfGuardians : prog Z := ReadUint32 _formatNumberOfGuardians.
Definition _setNumberOfGuardians (n : Z) : prog unit := WriteUint32 _formatNumberOfGuardians (wrap 32 n).
Definition _getGuardianAtIndex (index : Z) : prog bytes :=
  b ← ReadBytes (_formatGuardianIterator index); mret (_addressSliceToArray b).
Definition _setGuardianAtIndex (index : Z) (guardian : bytes) : prog unit :=
  WriteBytes (_formatGuardianIterator index) guardian.
Definition getGuardianStake (guardian : bytes) : prog Z := ReadUint64 (_formatGuardianStakeKey guardian).
Definition _setGuardianStake (guardian : bytes) (stake : Z) : prog unit :=
  WriteUint64 (_formatGuardianStakeKey guardian) stake.
Definition _getGuardianVoteBlockNumber (guardian : bytes) : prog Z :=
  ReadUint64 (_formatGuardianVoteBlockNumberKey guardian).
Definition _setGuardianVoteBlockNumber (guardian : bytes) (blockNumber : Z) : prog unit :=
  WriteUint64 (_formatGuardianVoteBlockNumberKey guardian) blockNumber.
Definition getGuardianVotingWeight (guardian : bytes) : prog Z := ReadUint64 (_formatGuardianVoteWeightKey guardian).
Definition _setGuardianVotingWeight (guardian : bytes) (weight : Z) : prog unit :=
  WriteUint64 (_formatGuardianVoteWeightKey guardian) weight.

(** The addresses of a stored list: each 20 bytes, a shorter rest is dropped. *)
Definition split20 (b : bytes) : list bytes := map (fun i => take 20 (drop (20 * i) b)) (seq 0 (length b / 20)).

Definition _getCandidates (guardian : bytes) : prog (list bytes) :=
  candidates ← ReadBytes (_formatGuardianCandidateKey guardian); mret (split20 candidates).
Definition _setCandidates (guardian : bytes) (candidateList : list bytes) : prog unit :=
  WriteBytes (_formatGuardianCandidateKey guardian) (concat candidateList).

Definition _getGuardians : prog (gset bytes) :=
  l ← read_all _getNumberOfGuardians _getGuardianAtIndex; mret (list_to_set l).

Definition _setGuardians (guardians : list bytes) : prog unit :=
  _ ← _setNumberOfGuardians (Z.of_nat (length guardians));
  _ ← range_loop guardians (fun g i =>
        _ ← _setGuardianAtIndex i g;
        _ ← WriteUint32 (_formatGuardian g) 1;
        mret (i + 1)) 0;
  mret tt.

Definition _clearGuardians : prog unit :=
  numOfGuardians ← _getNumberOfGuardians;
  _ ← for_loop (Z.to_nat numOfGuardians) 0 (fun i (_ : unit) =>
        guardian ← _getGuardianAtIndex i;
        _ ← Clear (_formatGuardian guardian);
        _ ← Clear (_formatGuardianIterator i);
        _ ← Clear (_formatGuardianCandidateKey guardian);
        _ ← Clear (_formatGuardianStakeKey guardian);
        _ ← Clear (_formatGuardianVoteBlockNumberKey guardian);
        Clear (_formatGuardianVoteWeightKey guardian)) tt;
  _setNumberOfGuardians 0.

Definition _isGuardian (guardian : bytes) : prog bool :=
  n ← ReadUint32 (_formatGuardian guardian); mret (negb (n =? 0)).

(** ** Delegations (mirror_delegate.go) *)

Definition _getNumberOfDelegators : prog Z := ReadUint32 _formatNumberOfDelegators.
Definition _setNumberOfDelegators (n : Z) : prog unit := WriteUint32 _formatNumberOfDelegators (wrap 32 n).
Definition _getDelegatorAtIndex (index : Z) : prog bytes :=
  b ← ReadBytes (_formatDelegatorIterator index); mret (_addressSliceToArray b).
Definition _setDelegatorAtIndex (index : Z) (delegator : bytes) : prog unit :=
  WriteBytes (_formatDelegatorIterator index) delegator.
Definition _getDelegatorGuardian (delegator : bytes) : prog bytes :=
  b ← ReadBytes (_formatDelegatorAgentKey delegator); mret (_addressSliceToArray b).

Definition _isMirrorDelegationDataAfterElection (eventBlockNumber : Z) : prog bool :=
  timeBased ← _isTimeBasedElections;
  if (timeBased : bool) then
    t ← perform (EthGetBlockTimeByNumber eventBlockNumber);
    current ← getCurrentElectionTimeInNanos;
    mret (t >? current)
  else
    temp ← getCurrentElectionBlockNumber;
    mret (eventBlockNumber >? temp).

(** The block number of the delegation that the state has for the delegator, as far
    as the event may replace it. *)
Definition stored_delegation (delegator : bytes) (eventBlockNumber eventBlockTxIndex : Z) (eventName : bytes) : prog Z :=
  stateMethod ← ReadBytes (_formatDelegatorMethod delegator);
  if bool_decide (stateMethod = DELEGATION_NAME) && bool_decide (eventName = DELEGATION_BY_TRANSFER_NAME) then
    panics "delegate with medthod %s from %x to %x failed since already have delegation with method %s"
  else if bool_decide (stateMethod = DELEGATION_BY_TRANSFER_NAME) && bool_decide (eventName = DELEGATION_NAME) then
    mret eventBlockNumber
  else if bool_decide (stateMethod = eventName) then
    stateBlockNumber ← ReadUint64 (_formatDelegatorBlockNumberKey delegator);
    stateBlockTxIndex ← ReadUint32 (_formatDelegatorBlockTxIndexKey delegator);
    if (stateBlockNumber >? eventBlockNumber)
       || ((stateBlockNumber =? eventBlockNumber) && (stateBlockTxIndex >=? eventBlockTxIndex)) then
      panics "delegate from %x to %x with block-height %d and tx-index %d failed since current delegation is from block-height %d and tx-index %d"
    else mret stateBlockNumber
  else mret 0.

Definition _mirrorDelegationData (delegator agent : bytes) (eventBlockNumber eventBlockTxIndex : Z) (eventName : bytes)
    : prog unit :=
  stateBlockNumber ← stored_delegation delegator eventBlockNumber eventBlockTxIndex eventName;
  _ ← (if stateBlockNumber =? 0 then
         numOfDelegators ← _getNumberOfDelegators;
         _ ← _setDelegatorAtIndex numOfDelegators delegator;
         _setNumberOfDelegators (numOfDelegators + 1)
       else mret tt);
  let agent := if bool_decide (delegator = agent) then replicate 20 0 else agent in
  _ ← WriteBytes (_formatDelegatorAgentKey delegator) agent;
  _ ← WriteUint64 (_formatDelegatorBlockNumberKey delegator) eventBlockNumber;
  _ ← WriteUint32 (_formatDelegatorBlockTxIndexKey delegator) eventBlockTxIndex;
  WriteBytes (_formatDelegatorMethod delegator) eventName.

Definition _mirrorDelegateImpl (delegator agent : bytes) (eventBlockNumber eventBlockTxIndex : Z) (eventName : bytes)
    : prog unit :=
  late ← _isMirrorDelegationDataAfterElection eventBlockNumber;
  if (late : bool) then
    panics "delegate with medthod %s from %x to %x failed since it happened in block number %d which is after election date, resubmit next election"
  else _mirrorDelegationData delegator agent eventBlockNumber eventBlockTxIndex eventName.

(** The start of both methods. *)
Definition mirror_open {A} (m : prog A) : prog A :=
  _ ← _initCurrentElection;
  started ← hasProcessingStarted;
  if started =? 1 then panics "proccessing has started cannot mirror now, resubmit next election" else m.

Definition mirrorDelegationByTransfer (hexEncodedEthTxHash : bytes) : prog unit :=
  mirror_open (
    log ← perform (EthereumGetTransactionLog ETHEREUM_TOKEN_ADDR (getTokenAbi abi) hexEncodedEthTxHash
                     DELEGATION_BY_TRANSFER_NAME);
    match log with
    | (EthTransfer from to value, eventBlockNumber, eventBlockTxIndex) =>
        if negb (DELEGATION_BY_TRANSFER_VALUE =? value) then
          panics "mirrorDelegateByTransfer from %x to %x failed since %d is wrong delegation value"
        else _mirrorDelegateImpl from to eventBlockNumber eventBlockTxIndex DELEGATION_BY_TRANSFER_NAME
    | _ => Panics PanicRuntime
    end).

Definition mirrorDelegation (hexEncodedEthTxHash : bytes) : prog unit :=
  mirror_open (
    log ← perform (EthereumGetTransactionLog ETHEREUM_VOTING_ADDR (getVotingAbi abi) hexEncodedEthTxHash
                     DELEGATION_NAME);
    match log with
    | (EthDelegate delegator to _, eventBlockNumber, eventBlockTxIndex) =>
        _mirrorDelegateImpl delegator to eventBlockNumber eventBlockTxIndex DELEGATION_NAME
    | _ => Panics PanicRuntime
    end).

(** ** Data from Ethereum (processing_vote.go) *)

Definition eth_read (contract jsonAbi : bytes) (method : string) (args : list eth_value) : prog eth_value :=
  block ← _getProcessCurrentElectionBlockNumber;
  perform (EthereumCallMethodAtBlock block contract jsonAbi (go_string method) args).

Definition eth_uint (contract jsonAbi : bytes) (method : string) (args : list eth_value) : prog Z :=
  v ← eth_read contract jsonAbi method args;
  match v with EthUint n => mret n | _ => Panics PanicRuntime end.
Definition eth_addresses (contract jsonAbi : bytes) (method : string) (args : list eth_value) : prog (list bytes) :=
  v ← eth_read contract jsonAbi method args;
  match v with EthAddresses l => mret l | _ => Panics PanicRuntime end.

Definition _getStakeAtElection (ethAddr : bytes) : prog Z :=
  stake ← eth_uint ETHEREUM_TOKEN_ADDR (getTokenAbi abi) "balanceOf" [EthAddress ethAddr];
  mret (big_Uint64 (stake / ETHEREUM_STAKE_FACTOR)).

Definition _getLockedStakeAtElection (ethAddr : bytes) : prog Z :=
  lockedStake ← eth_uint ETHEREUM_STAKING_ADDR (getStakingAbi abi) "getStakeBalanceOf" [EthAddress ethAddr];
  mret (big_Uint64 (lockedStake / ETHEREUM_STAKE_FACTOR)).

Definition _readValidatorsFromEthereumToState : prog unit :=
  validators ← eth_addresses ETHEREUM_VALIDATORS_ADDR (getValidatorsAbi abi) "getValidatorsBytes20" [];
  _setValidators validators.

(** The pages of the guardian list, from [pos] on; the last one is short. *)
Fixpoint guardian_pages (fuel : nat) (pos : Z) (guardians : list bytes) : prog (list bytes) :=
  match fuel with
  | O => Panics OutOfFuel
  | S fuel =>
      gs ← eth_addresses ETHEREUM_GUARDIANS_ADDR (getGuardiansAbi abi) "getGuardiansBytes20" [EthUint pos; EthUint 50];
      let guardians := guardians ++ gs in
      if (length gs <? 50)%nat then mret guardians else guardian_pages fuel (pos + 50) guardians
  end.

Definition _readGuardiansFromEthereumToState (fuel : nat) : prog unit :=
  guardians ← guardian_pages fuel 0 [];
  _setGuardians guardians.

Definition _collectOneValidatorDataFromEthereum (i : Z) : prog unit :=
  validator ← _getValidatorEthereumAddressAtIndex i;
  v ← eth_read ETHEREUM_VALIDATORS_REGISTRY_ADDR (getValidatorsRegistryAbi abi) "getOrbsAddress" [EthAddress validator];
  match v with
  | EthAddress orbsAddress =>
      stake ← _getStakeAtElection validator;
      lockedStake ← _getLockedStakeAtElection validator;
      total ← safe (safeuint64_Add stake lockedStake);
      _ ← _setValidatorStake validator total;
      _setValidatorOrbsAddress validator orbsAddress
  | _ => Panics PanicRuntime
  end.

Definition _collectOneGuardianDataFromEthereum (i : Z) : prog unit :=
  guardian ← _getGuardianAtIndex i;
  out ← eth_read ETHEREUM_VOTING_ADDR (getVotingAbi abi) "getCurrentVoteBytes20" [EthAddress guardian];
  match out with
  | EthVote validatorsBytes20 blockNumber =>
      let voteBlockNumber := big_Uint64 blockNumber in
      earliest ← _getProcessCurrentElectionEarliestValidVoteBlockNumber;
      vote ←
        (if negb (voteBlockNumber =? 0) && (voteBlockNumber >=? earliest) then
           stake ← _getStakeAtElection guardian;
           lockedStake ← _getLockedStakeAtElection guardian;
           mret (stake, lockedStake, validatorsBytes20, voteBlockNumber)
         else mret (0, 0, [replicate 20 0], 0));
      let '(stake, lockedStake, candidates, voteBlockNumber) := vote in
      total ← safe (safeuint64_Add stake lockedStake);
      _ ← _setGuardianStake guardian total;
      _ ← _setGuardianVoteBlockNumber guardian voteBlockNumber;
      _setCandidates guardian candidates
  | _ => Panics PanicRuntime
  end.

Definition _collectOneDelegatorStakeFromEthereum (i : Z) : prog unit :=
  delegator ← _getDelegatorAtIndex i;
  guardian ← _isGuardian delegator;
  stakes ←
    (if negb guardian then
       stake ← _getStakeAtElection delegator;
       lockedStake ← _getLockedStakeAtElection delegator;
       mret (stake, lockedStake)
     else mret (0, 0));
  total ← safe (safeuint64_Add stakes.1 stakes.2);
  WriteUint64 (_formatDelegatorStakeKey delegator) total.

(** The three functions that collect the next item of a list: whether it was the
    last one. *)
Definition collect_next (one : Z -> prog unit) (number : prog Z) : prog bool :=
  nextIndex ← _getVotingProcessItem;
  _ ← one nextIndex;
  _ ← _setVotingProcessItem (nextIndex + 1);
  n ← number;
  mret (nextIndex + 1 >=? n).

Definition _collectNextValidatorDataFromEthereum : prog bool :=
  collect_next _collectOneValidatorDataFromEthereum _getNumberOfValidators.
Definition _collectNextGuardiansDataFromEthereum : prog bool :=
  collect_next _collectOneGuardianDataFromEthereum _getNumberOfGuardians.
Definition _collectNextDelegatorStakeFromEthereum : prog bool :=
  collect_next _collectOneDelegatorStakeFromEthereum _getNumberOfDelegators.

(** ** The count of the votes *)

(** The loops over maps write to them; a key that is not in a map reads as zero. *)
Definition value_at (m : gmap bytes Z) (k : bytes) : Z := default 0 (m !! k).

Definition _collectGuardiansStake : prog (gmap bytes Z) :=
  numOfGuardians ← _getNumberOfGuardians;
  for_loop (Z.to_nat numOfGuardians) 0 (fun i guardianStakes =>
    guardian ← _getGuardianAtIndex i;
    voteBlockNumber ← _getGuardianVoteBlockNumber guardian;
    if negb (voteBlockNumber =? 0) then
      stake ← getGuardianStake guardian;
      mret (<[guardian := stake]> guardianStakes)
    else mret guardianStakes) ∅.

Definition _collectDelegatorsStake (guardians : gset bytes) : prog (list bytes * gmap bytes Z) :=
  numOfDelegators ← _getNumberOfDelegators;
  for_loop (Z.to_nat numOfDelegators) 0 (fun i '(delegators, delegatorStakes) =>
    delegator ← _getDelegatorAtIndex i;
    if negb (bool_decide (delegator ∈ guardians)) && negb (bool_decide (is_Some (delegatorStakes !! delegator))) then
      stake ← ReadUint64 (_formatDelegatorStakeKey delegator);
      mret (delegators ++ [delegator], <[delegator := stake]> delegatorStakes)
    else mret (delegators, delegatorStakes)) ([], ∅).

Definition _findGuardianDelegators (delegators : list bytes) : prog (gmap bytes (list bytes)) :=
  range_loop delegators (fun delegator guardianToDelegators =>
    guardian ← _getDelegatorGuardian delegator;
    mret (if negb (bool_decide (guardian = delegator)) then
            <[guardian := default [] (guardianToDelegators !! guardian) ++ [delegator]]> guardianToDelegators
          else guardianToDelegators)) ∅.

(** The recursion over the delegations; the participants and their stakes are passed
    by reference. *)
Fixpoint _calculateOneGuardianVoteRecursive (fuel : nat) (guardianToDelegators : gmap bytes (list bytes))
    (delegatorStakes : gmap bytes Z) (currentLevelGuardian : bytes) (participants : list bytes * gmap bytes Z)
    : prog (Z * (list bytes * gmap bytes Z)) :=
  match fuel with
  | O => Panics OutOfFuel
  | S fuel =>
      range_loop (default [] (guardianToDelegators !! currentLevelGuardian)) (fun delegate '(currentVotes, ps) =>
        r ← _calculateOneGuardianVoteRecursive fuel guardianToDelegators delegatorStakes delegate
              (ps.1 ++ [delegate], <[delegate := value_at delegatorStakes delegate]> ps.2);
        votes ← safe (safeuint64_Add currentVotes r.1);
        mret (votes, r.2)) (value_at delegatorStakes currentLevelGuardian, participants)
  end.

(** What the count keeps while it goes through the guardians. *)
Record ballot := mkBallot {
  candidateVotes : gmap bytes Z;
  totalVotes : Z;
  participants : list bytes;
  participantStakes : gmap bytes Z;
  guardiansAccumulatedStakes : gmap bytes Z
}.

Definition add_candidates (candidateList : list bytes) (stake : Z) (votes : gmap bytes Z) : prog (gmap bytes Z) :=
  range_loop candidateList (fun candidate votes =>
    n ← safe (safeuint64_Add (value_at votes candidate) stake);
    mret (<[candidate := n]> votes)) votes.

Definition cast_vote (fuel : nat) (guardianDelegators : gmap bytes (list bytes)) (delegatorStakes : gmap bytes Z)
    (guardian : bytes) (guardianStake : Z) (b : ballot) : prog ballot :=
  r ← _calculateOneGuardianVoteRecursive fuel guardianDelegators delegatorStakes guardian
        (participants b ++ [guardian], <[guardian := guardianStake]> (participantStakes b));
  stake ← safe (safeuint64_Add guardianStake r.1);
  _ ← _setGuardianVotingWeight guardian stake;
  total ← safe (safeuint64_Add (totalVotes b) stake);
  candidateList ← _getCandidates guardian;
  votes ← add_candidates candidateList stake (candidateVotes b);
  mret (mkBallot votes total r.2.1 r.2.2 (<[guardian := stake]> (guardiansAccumulatedStakes b))).

Definition _setTotalStake (weight : Z) : prog unit := WriteUint64 _formatTotalVotingStakeKey weight.
Definition getTotalStake : prog Z := ReadUint64 _formatTotalVotingStakeKey.

(** The fuel of the recursion is one more than the number of delegators. *)
Definition _guardiansCastVotes (guardianStakes : gmap bytes Z) (guardianDelegators : gmap bytes (list bytes))
    (delegatorStakes : gmap bytes Z) : prog ballot :=
  numOfGuardians ← _getNumberOfGuardians;
  b ← for_loop (Z.to_nat numOfGuardians) 0 (fun i b =>
        guardian ← _getGuardianAtIndex i;
        match guardianStakes !! guardian with
        | Some guardianStake => cast_vote (S (size delegatorStakes)) guardianDelegators delegatorStakes guardian guardianStake b
        | None => mret b
        end) (mkBallot ∅ 0 [] ∅ ∅);
  _ ← _setTotalStake (totalVotes b);
  mret b.

Definition _calculateVotes : prog ballot :=
  guardians ← _getGuardians;
  guardianStakes ← _collectGuardiansStake;
  delegators ← _collectDelegatorsStake guardians;
  guardianToDelegators ← _findGuardianDelegators delegators.1;
  _guardiansCastVotes guardianStakes guardianToDelegators delegators.2.

Definition _processValidatorsSelection (votes : gmap bytes Z) (total : Z) : prog (list bytes) :=
  validators ← _getValidators;
  weighted ← safe (safeuint64_Mul total VOTE_OUT_WEIGHT_PERCENT);
  voteOutThreshhold ← safe (safeuint64_Div weighted 100);
  winners ← range_loop validators (fun validator winners =>
    _ ← _setValidatorVote validator (value_at votes validator);
    mret (if bool_decide (votes !! validator = None) || (value_at votes validator <? voteOutThreshhold)
          then winners ++ [validator] else winners)) [];
  mret (if (length winners <? MIN_ELECTED_VALIDATORS)%nat then validators else winners).

(** ** Rewards (processing_rewards.go) *)

Definition ELECTION_PARTICIPATION_MAX_REWARD : Z := 60000000.
Definition ELECTION_PARTICIPATION_MAX_STAKE_REWARD_PERCENT : Z := 8.
Definition ELECTION_GUARDIAN_EXCELLENCE_MAX_REWARD : Z := 40000000.
Definition ELECTION_GUARDIAN_EXCELLENCE_MAX_STAKE_REWARD_PERCENT : Z := 10.
Definition ELECTION_GUARDIAN_EXCELLENCE_MAX_NUMBER : nat := 10.
Definition ELECTION_VALIDATOR_INTRODUCTION_REWARD : Z := 1000000.
Definition ELECTION_VALIDATOR_MAX_STAKE_REWARD_PERCENT : Z := 4.
Definition ANNUAL_TO_ELECTION_FACTOR_TIMEBASED : Z := 12174.
Definition ANNUAL_TO_ELECTION_FACTOR_BLOCKBASED : Z := 11723.

Definition _annualFactorize (input : Z) : prog Z :=
  timeBased ← _isTimeBasedElections;
  safe (safeuint64_Div input (if (timeBased : bool) then ANNUAL_TO_ELECTION_FACTOR_TIMEBASED
                              else ANNUAL_TO_ELECTION_FACTOR_BLOCKBASED)).

Definition _maxRewardForGroup (upperMaximum total percent : Z) : prog Z :=
  upper ← safe (safeuint64_Mul upperMaximum 100);
  upperMaximumPerElection ← _annualFactorize upper;
  calc ← safe (safeuint64_Mul total percent);
  calcMaximumPerElection ← _annualFactorize calc;
  mret (if calcMaximumPerElection <? upperMaximumPerElection then calcMaximumPerElection else upperMaximumPerElection).

Definition _addCumulativeReward (key : bytes) (reward : Z) : prog unit :=
  n ← ReadUint64 key;
  sumReward ← safe (safeuint64_Add n reward);
  WriteUint64 key sumReward.
Definition _addCumulativeParticipationReward (delegator : bytes) (reward : Z) : prog unit :=
  _addCumulativeReward (_formatCumulativeParticipationReward delegator) reward.
Definition _addCumulativeGuardianExcellenceReward (guardian : bytes) (reward : Z) : prog unit :=
  _addCumulativeReward (_formatCumulativeGuardianExcellenceReward guardian) reward.
Definition _addCumulativeValidatorReward (validator : bytes) (reward : Z) : prog unit :=
  _addCumulativeReward (_formatCumulativeValidatorReward validator) reward.
Definition getCumulativeParticipationReward (delegator : bytes) : prog Z :=
  ReadUint64 (_formatCumulativeParticipationReward delegator).
Definition getCumulativeGuardianExcellenceReward (guardian : bytes) : prog Z :=
  ReadUint64 (_formatCumulativeGuardianExcellenceReward guardian).
Definition getCumulativeValidatorReward (validator : bytes) : prog Z :=
  ReadUint64 (_formatCumulativeValidatorReward validator).

Definition _processRewardsParticipants (total : Z) (ps : list bytes) (stakes : gmap bytes Z) : prog unit :=
  totalReward ← _maxRewardForGroup ELECTION_PARTICIPATION_MAX_REWARD total ELECTION_PARTICIPATION_MAX_STAKE_REWARD_PERCENT;
  range_loop ps (fun participant (_ : unit) =>
    share ← safe (safeuint64_Mul (value_at stakes participant) totalReward);
    reward ← safe (safeuint64_Div share total);
    _addCumulativeParticipationReward participant reward) tt.

(** A guardian with its votes; the order of sort.Sort, more votes first. *)
Definition guardianVote : Type := bytes * Z.
Definition Less (x y : guardianVote) : bool :=
  (x.2 >? y.2) || ((x.2 =? y.2) && match bytes_compare x.1 y.1 with Gt => true | _ => false end).
Definition not_after (x y : guardianVote) : Prop := Less y x = false.
#[export] Instance not_after_dec : RelDecision not_after := fun x y => bool_eq_dec (Less y x) false.

(** The loop that goes on while the votes are those of the tenth guardian. *)
Fixpoint same_votes (vote : Z) (l : list guardianVote) : list guardianVote :=
  match l with
  | [] => []
  | g :: l => if negb (g.2 =? vote) then [] else g :: same_votes g.2 l
  end.

(** The list is the range over the map, in the order of that iteration. *)
Definition _getTopGuardians (guardiansAccumulatedStake : list guardianVote) : prog (list guardianVote * Z) :=
  let guardianList := merge_sort not_after guardiansAccumulatedStake in
  let first := take ELECTION_GUARDIAN_EXCELLENCE_MAX_NUMBER guardianList in
  let top := first ++ same_votes (default 0 (snd <$> last first)) (drop ELECTION_GUARDIAN_EXCELLENCE_MAX_NUMBER guardianList) in
  total ← range_loop top (fun g n => safe (safeuint64_Add n g.2)) 0;
  mret (top, total).

Definition _setExcellenceProgramGuardians (guardians : list guardianVote) : prog unit :=
  WriteBytes _formatExcellenceProgramGuardians (concat (map fst guardians)).
Definition getExcellenceProgramGuardians : prog bytes := ReadBytes _formatExcellenceProgramGuardians.

Definition _processRewardsGuardians (guardiansAccumulatedStake : list guardianVote) : prog unit :=
  top ← _getTopGuardians guardiansAccumulatedStake;
  _ ← _setExcellenceProgramGuardians top.1;
  totalReward ← _maxRewardForGroup ELECTION_GUARDIAN_EXCELLENCE_MAX_REWARD top.2
                  ELECTION_GUARDIAN_EXCELLENCE_MAX_STAKE_REWARD_PERCENT;
  range_loop top.1 (fun guardian (_ : unit) =>
    share ← safe (safeuint64_Mul guardian.2 totalReward);
    reward ← safe (safeuint64_Div share top.2);
    _addCumulativeGuardianExcellenceReward guardian.1 reward) tt.

Definition _getValidatorsStake : prog (gmap bytes Z) :=
  numOfValidators ← _getNumberOfValidators;
  for_loop (Z.to_nat numOfValidators) 0 (fun i validatorsStake =>
    validator ← _getValidatorEthereumAddressAtIndex i;
    stake ← getValidatorStake validator;
    mret (<[validator := stake]> validatorsStake)) ∅.

Definition _processRewardsValidators (elected : list bytes) : prog unit :=
  introduction ← safe (safeuint64_Mul ELECTION_VALIDATOR_INTRODUCTION_REWARD 100);
  electionValidatorIntroduction ← _annualFactorize introduction;
  validatorsStake ← _getValidatorsStake;
  range_loop elected (fun validator (_ : unit) =>
    share ← safe (safeuint64_Mul (value_at validatorsStake validator) ELECTION_VALIDATOR_MAX_STAKE_REWARD_PERCENT);
    stakeReward ← _annualFactorize share;
    reward ← safe (safeuint64_Add electionValidatorIntroduction stakeReward);
    _addCumulativeValidatorReward validator reward) tt.

(** The order in which Go ranges over a map. *)
Variable range : gmap bytes Z -> list guardianVote.

Definition _processRewards (total : Z) (elected ps : list bytes) (stakes guardiansAccumulatedStake : gmap bytes Z)
    : prog unit :=
  _ ← _processRewardsParticipants total ps stakes;
  _ ← _processRewardsGuardians (range guardiansAccumulatedStake);
  _processRewardsValidators elected.

(** ** Processing (processing_vote.go) *)

(** A step of the processing; the result is [nil] until the last one. *)
Definition _processVotingStateMachine (fuel : nat) : prog (option (list bytes)) :=
  processState ← _getVotingProcessState;
  if bool_decide (processState = []) then
    _ ← _readValidatorsFromEthereumToState;
    _ ← _nextProcessVotingState VOTING_PROCESS_STATE_GUARDIANS;
    mret None
  else if bool_decide (processState = VOTING_PROCESS_STATE_GUARDIANS) then
    _ ← _clearGuardians;
    _ ← _readGuardiansFromEthereumToState fuel;
    _ ← _nextProcessVotingState VOTING_PROCESS_STATE_VALIDATORS;
    mret None
  else if bool_decide (processState = VOTING_PROCESS_STATE_VALIDATORS) then
    done ← _collectNextValidatorDataFromEthereum;
    _ ← (if (done : bool) then _nextProcessVotingState VOTING_PROCESS_STATE_GUARDIANS_DATA else mret tt);
    mret None
  else if bool_decide (processState = VOTING_PROCESS_STATE_GUARDIANS_DATA) then
    done ← _collectNextGuardiansDataFromEthereum;
    _ ← (if (done : bool) then _nextProcessVotingState VOTING_PROCESS_STATE_DELEGATORS else mret tt);
    mret None
  else if bool_decide (processState = VOTING_PROCESS_STATE_DELEGATORS) then
    done ← _collectNextDelegatorStakeFromEthereum;
    _ ← (if (done : bool) then _nextProcessVotingState VOTING_PROCESS_STATE_CALCULATIONS else mret tt);
    mret None
  else if bool_decide (processState = VOTING_PROCESS_STATE_CALCULATIONS) then
    b ← _calculateVotes;
    elected ← _processValidatorsSelection (candidateVotes b) (totalVotes b);
    _ ← _processRewards (totalVotes b) elected (participants b) (participantStakes b) (guardiansAccumulatedStakes b);
    _ ← _setVotingProcessState [];
    mret (Some elected)
  else mret None.

Definition processVoting (fuel : nat) : prog Z :=
  _ ← _initCurrentElection;
  period ← isProcessingPeriod;
  if period =? 0 then
    _ ← getNumberOfElections;
    panics "mirror period of election %d did not end. cannot start processing"
  else
    _ ← _calculateProcessCurrentElectionValues;
    electedValidators ← _processVotingStateMachine fuel;
    match electedValidators with
    | Some elected =>
        electionTime ← _getProcessCurrentElectionTime;
        electionBlockNumber ← _getProcessCurrentElectionBlockNumber;
        _ ← _setElectedValidators elected electionTime electionBlockNumber;
        _ ← _setProcessCurrentElection 0 0 0;
        mret 1
    | None => mret 0
    end.

Definition processTrigger : prog unit := mret tt.

End Contract.
End Elections.
