(* ===== verification/ElectionKeys.v ===== *)
(** * The keys of the elections contract

    Every key is a sequence of words joined by underscores, of which at most one
    varies: the hexadecimal digits of an address or a decimal number.  Two forms of
    key never give the same key ([key_inj]): that is decided by computation over
    all pairs of forms, with a test that is shown to be sound. *)
From stdpp Require Import base gmap strings numbers pretty list.
From Stdlib Require Import ZArith Lia ZifyBool.
From S2P Require Import Prelude Hash Encoding VirtualMachine ContractSdk Elections.
Import VirtualMachine Elections.

(** ** Words *)

Inductive word := Const (s : string) | Hex | Dec.

Definition hex_char (c : Z) : bool := ((48 <=? c) && (c <=? 57)) || ((97 <=? c) && (c <=? 102)).
Definition dec_char (c : Z) : bool := (48 <=? c) && (c <=? 57).

Fixpoint join (l : list bytes) : bytes :=
  match l with
  | [] => []
  | [x] => x
  | x :: l => x ++ 95 :: join l
  end.

Definition no_underscore (x : bytes) : Prop := 95 ∉ x.

Lemma split_underscore x y a b :
  no_underscore x -> no_underscore y -> x ++ 95 :: a = y ++ 95 :: b -> x = y /\ a = b.
Proof.
  revert y. induction x as [|c x IH]; intros [|d y] Hx Hy; cbn [app].
  - by intros [= ->].
  - intros [= <- _]. destruct Hy. by left.
  - intros [= -> _]. destruct Hx. by left.
  - intros [= -> E]. apply not_elem_of_cons in Hx as [_ Hx], Hy as [_ Hy]. by destruct (IH y Hx Hy E) as [-> ->].
Qed.

Lemma join_inj l l' :
  Forall no_underscore l -> Forall no_underscore l' -> l <> [] -> l' <> [] -> join l = join l' -> l = l'.
Proof.
  intros Hl. revert l'. induction Hl as [|x l Hx Hl IH]; intros l' Hl' Hne Hne' E; [done|].
  destruct Hl' as [|y l' Hy Hl']; [done|]. destruct l as [|x2 l], l' as [|y2 l']; cbn [join] in E.
  - by subst.
  - exfalso. apply Hx. rewrite E. apply elem_of_app. right. by left.
  - exfalso. apply Hy. rewrite <-E. apply elem_of_app. right. by left.
  - apply split_underscore in E as [-> E]; [|done..]. f_equal. by apply IH.
Qed.

(** ** Forms of keys *)

Definition render (x : bytes) (wd : word) : bytes := match wd with Const s => go_string s | Hex | Dec => x end.

(** The variable word of a form is made of the right digits, and is not there in a
    constant key. *)
Definition fits (form : list word) (x : bytes) : Prop :=
  (Hex ∈ form -> Forall (fun c => hex_char c = true) x) /\
  (Dec ∈ form -> Forall (fun c => dec_char c = true) x) /\
  (Hex ∉ form -> Dec ∉ form -> x = []).

#[export] Instance word_eq_dec : EqDecision word.
Proof. solve_decision. Defined.

Definition word_clash (v w : word) : bool :=
  match v, w with
  | Const s, Const s' => negb (bool_decide (s = s'))
  | Const s, Hex | Hex, Const s => negb (forallb hex_char (go_string s))
  | Const s, Dec | Dec, Const s => negb (forallb dec_char (go_string s))
  | _, _ => false
  end.

Fixpoint clash (f g : list word) : bool :=
  match f, g with
  | [], [] => false
  | v :: f, w :: g => word_clash v w || clash f g
  | _, _ => true
  end.

Definition form_ok (f : list word) : bool :=
  negb (bool_decide (f = [])) && forallb (fun wd => match wd with
                                   | Const s => forallb (fun c => negb (c =? 95)) (go_string s)
                                   | _ => true
                                   end) f.

Lemma forallb_Forall {A} (p : A -> bool) l : forallb p l = true <-> Forall (fun x => p x = true) l.
Proof.
  induction l as [|x l IH]; cbn [forallb]; [by split; [constructor|]|]. by rewrite andb_true_iff, Forall_cons, IH.
Qed.

Lemma word_clash_sound v w x y :
  (v = Hex -> Forall (fun c => hex_char c = true) x) -> (v = Dec -> Forall (fun c => dec_char c = true) x) ->
  (w = Hex -> Forall (fun c => hex_char c = true) y) -> (w = Dec -> Forall (fun c => dec_char c = true) y) ->
  word_clash v w = true -> render x v <> render y w.
Proof.
  intros H1 H2 H3 H4 Hc E. destruct v as [s| |], w as [s'| |]; cbn in *; try done.
  - apply negb_true_iff, bool_decide_eq_false in Hc. by apply go_string_inj in E.
  - apply negb_true_iff in Hc. specialize (H3 eq_refl). rewrite <-E in H3. apply forallb_Forall in H3. congruence.
  - apply negb_true_iff in Hc. specialize (H4 eq_refl). rewrite <-E in H4. apply forallb_Forall in H4. congruence.
  - apply negb_true_iff in Hc. specialize (H1 eq_refl). rewrite E in H1. apply forallb_Forall in H1. congruence.
  - apply negb_true_iff in Hc. specialize (H2 eq_refl). rewrite E in H2. apply forallb_Forall in H2. congruence.
Qed.

Lemma clash_sound f g x y :
  (forall v, v ∈ f -> (v = Hex -> Forall (fun c => hex_char c = true) x) /\ (v = Dec -> Forall (fun c => dec_char c = true) x)) ->
  (forall v, v ∈ g -> (v = Hex -> Forall (fun c => hex_char c = true) y) /\ (v = Dec -> Forall (fun c => dec_char c = true) y)) ->
  clash f g = true -> map (render x) f <> map (render y) g.
Proof.
  revert g. induction f as [|v f IH]; intros [|w g] Hf Hg Hc E; cbn in Hc; try done.
  injection E as E1 E2. apply orb_true_iff in Hc as [Hc|Hc].
  - eapply word_clash_sound; [| | | |exact Hc|exact E1]; (apply Hf || apply Hg); by left.
  - eapply IH; [| |exact Hc|exact E2]; intros u Hu; (apply Hf || apply Hg); by right.
Qed.

Lemma render_ok f x :
  form_ok f = true -> fits f x -> Forall no_underscore (map (render x) f) /\ map (render x) f <> [].
Proof.
  unfold form_ok. rewrite andb_true_iff, negb_true_iff, bool_decide_eq_false, forallb_Forall, Forall_forall.
  intros [Hne Hok] (Hh & Hd & _). split; [|by destruct f]. apply Forall_map, Forall_forall. intros [s| |] Hin; cbn.
  - specialize (Hok _ Hin). cbn in Hok. rewrite forallb_Forall, Forall_forall in Hok. intros H95. by apply Hok in H95.
  - specialize (Hh Hin). intros H95. eapply Forall_forall in Hh; [|exact H95]. by vm_compute in Hh.
  - specialize (Hd Hin). intros H95. eapply Forall_forall in Hd; [|exact H95]. by vm_compute in Hd.
Qed.

Lemma fits_word f x v :
  fits f x -> v ∈ f -> (v = Hex -> Forall (fun c => hex_char c = true) x) /\ (v = Dec -> Forall (fun c => dec_char c = true) x).
Proof. intros (Hh & Hd & _) Hin. split; intros ->; auto. Qed.

(** ** The digits of addresses and numbers *)

Lemma hex_digits a : valid_bytes a -> Forall (fun c => hex_char c = true) (hex_EncodeToString a).
Proof.
  intros Hv%lower_digits. eapply Forall_impl; [exact Hv|]. cbn. intros c Hc. unfold hex_char. lia.
Qed.

Lemma dec_digits_go n s :
  Forall (fun c => dec_char c = true) (go_string s) -> Forall (fun c => dec_char c = true) (go_string (pretty_N_go n s)).
Proof.
  revert s. induction n as [n IH] using (well_founded_induction N.lt_wf_0). intros s Hs.
  destruct (decide (0 < n)%N) as [Hn|Hn].
  - rewrite pretty_N_go_step by done. apply IH; [by apply N.div_lt|].
    cbn [go_string String.list_ascii_of_string map]. constructor; [|exact Hs].
    assert (n mod 10 < 10)%N as Hm by (by apply N.mod_lt). clear -Hm. unfold pretty_N_char.
    destruct (n mod 10)%N as [|p]; [done|]. do 4 (destruct p as [p|p|]; try done).
  - replace n with 0%N by lia. by rewrite pretty_N_go_0.
Qed.

Lemma dec_digits n : Forall (fun c => dec_char c = true) (sprint_d n).
Proof.
  unfold sprint_d, pretty, pretty_N. case_decide; [by repeat constructor|]. apply dec_digits_go. constructor.
Qed.

(** ** The fields of the state *)

Inductive field :=
| ElectionsNumber | ElectionTime | ElectionBlockNumber | ElectionBlockHeight | ElectionValidatorsEth | ElectionValidatorsOrbs
| CurrentElectionBlockNumber | CurrentElectionEarliestVote | CurrentElectionTime | IsTimeBased | TotalStake
| ProcessState | ProcessItem
| ValidatorCount | ValidatorAt | ValidatorOrbs | ValidatorStake | ValidatorVote
| GuardianCount | GuardianAt | GuardianFlag | GuardianStake | GuardianVoteAt | GuardianCandidates | GuardianWeight
| DelegatorCount | DelegatorAt | DelegatorAgent | DelegatorBlockNumber | DelegatorBlockTxIndex | DelegatorMethod | DelegatorStake
| ParticipantReward | GuardianReward | ValidatorReward | ExcellenceGuardians.

#[export] Instance field_eq_dec : EqDecision field.
Proof. solve_decision. Defined.

Definition form (f : field) : list word :=
  match f with
  | ElectionsNumber => [Const ""; Const "CURRENT"; Const "ELECTION"; Const "INDEX"; Const "KEY"; Const ""]
  | ElectionTime => [Const "Election"; Dec; Const "Time"]
  | ElectionBlockNumber => [Const "Election"; Dec; Const "BlockNumber"]
  | ElectionBlockHeight => [Const "Election"; Dec; Const "BlockHeight"]
  | ElectionValidatorsEth => [Const "Election"; Dec; Const "ValidatorsEth"]
  | ElectionValidatorsOrbs => [Const "Election"; Dec; Const "ValidatorsOrbs"]
  | CurrentElectionBlockNumber => [Const "Current"; Const "Election"; Const "Block"; Const "Number"]
  | CurrentElectionEarliestVote => [Const "Current"; Const "Election"; Const "Earliest"; Const "Vote"]
  | CurrentElectionTime => [Const "Current"; Const "Election"; Const "Time"]
  | IsTimeBased => [Const "Is"; Const "Time"; Const "Based"; Const "Elections"]
  | TotalStake => [Const "Total"; Const "Voting"; Const "Weight"]
  | ProcessState => [Const "Voting"; Const "Process"; Const "State"]
  | ProcessItem => [Const "Voting"; Const "Process"; Const "Item"]
  | ValidatorCount => [Const "Validators"; Const "Count"]
  | ValidatorAt => [Const "Validator"; Const "Address"; Dec]
  | ValidatorOrbs => [Const "Validator"; Hex; Const "Orbs"]
  | ValidatorStake => [Const "Validator"; Hex; Const "Stake"]
  | ValidatorVote => [Const "Validator"; Hex; Const "Vote"]
  | GuardianCount => [Const "Guardians"; Const "Count"]
  | GuardianAt => [Const "Guardian"; Const "Address"; Dec]
  | GuardianFlag => [Const "Guardian"; Hex]
  | GuardianStake => [Const "Guardian"; Hex; Const "Stake"]
  | GuardianVoteAt => [Const "Guardian"; Hex; Const "VoteAt"]
  | GuardianCandidates => [Const "Guardian"; Hex; Const "Candidates"]
  | GuardianWeight => [Const "Guardian"; Hex; Const "Weight"]
  | DelegatorCount => [Const "Delegator"; Const "Address"; Const "Count"]
  | DelegatorAt => [Const "Delegator"; Const "Address"; Dec]
  | DelegatorAgent => [Const "Delegator"; Hex; Const "Agent"]
  | DelegatorBlockNumber => [Const "Delegator"; Hex; Const "BlockNumber"]
  | DelegatorBlockTxIndex => [Const "Delegator"; Hex; Const "BlockTxIndex"]
  | DelegatorMethod => [Const "Delegator"; Hex; Const "Method"]
  | DelegatorStake => [Const "Delegator"; Hex; Const "Stake"]
  | ParticipantReward => [Const "Participant"; Const "CumReward"; Hex]
  | GuardianReward => [Const "Guardian"; Const "CumReward"; Hex]
  | ValidatorReward => [Const "Vaidator"; Const "CumReward"; Hex]
  | ExcellenceGuardians => [Const "Excellence"; Const "Program"; Const "Guardians"]
  end.

Definition all_fields : list field :=
  [ElectionsNumber; ElectionTime; ElectionBlockNumber; ElectionBlockHeight; ElectionValidatorsEth; ElectionValidatorsOrbs;
   CurrentElectionBlockNumber; CurrentElectionEarliestVote; CurrentElectionTime; IsTimeBased; TotalStake;
   ProcessState; ProcessItem; ValidatorCount; ValidatorAt; ValidatorOrbs; ValidatorStake; ValidatorVote;
   GuardianCount; GuardianAt; GuardianFlag; GuardianStake; GuardianVoteAt; GuardianCandidates; GuardianWeight;
   DelegatorCount; DelegatorAt; DelegatorAgent; DelegatorBlockNumber; DelegatorBlockTxIndex; DelegatorMethod;
   DelegatorStake; ParticipantReward; GuardianReward; ValidatorReward; ExcellenceGuardians].

Lemma all_fields_all f : f ∈ all_fields.
Proof. apply list_elem_of_In. destruct f; cbn; tauto. Qed.

Lemma forms_distinct :
  forallb (fun f => form_ok (form f) && forallb (fun g => bool_decide (f = g) || clash (form f) (form g)) all_fields)
    all_fields = true.
Proof. vm_compute. reflexivity. Qed.

Lemma forms_ok f : form_ok (form f) = true.
Proof.
  pose proof forms_distinct as Hd. rewrite forallb_Forall, Forall_forall in Hd.
  specialize (Hd f (all_fields_all f)). cbv beta in Hd. by apply andb_true_iff in Hd as [Hd _].
Qed.

Lemma forms_clash f g : f <> g -> clash (form f) (form g) = true.
Proof.
  intros Hne. pose proof forms_distinct as Hd. rewrite forallb_Forall, Forall_forall in Hd.
  specialize (Hd f (all_fields_all f)). cbv beta in Hd. apply andb_true_iff in Hd as [_ Hd].
  rewrite forallb_Forall, Forall_forall in Hd. specialize (Hd g (all_fields_all g)). cbv beta in Hd.
  by rewrite bool_decide_false in Hd.
Qed.

(** The key of a field, with its variable word. *)
Definition key (f : field) (x : bytes) : bytes := join (map (render x) (form f)).

Lemma key_inj f g x y : fits (form f) x -> fits (form g) y -> key f x = key g y -> f = g /\ x = y.
Proof.
  intros Hx Hy E. destruct (render_ok _ _ (forms_ok f) Hx) as [Hfx Hnx], (render_ok _ _ (forms_ok g) Hy) as [Hgy Hny].
  apply join_inj in E; [|done..]. destruct (decide (f = g)) as [<-|Hne].
  - split; [done|]. destruct Hx as (_ & _ & Hx), Hy as (_ & _ & Hy).
    destruct (decide (Hex ∈ form f)) as [Hin|Hh]; [|destruct (decide (Dec ∈ form f)) as [Hin|Hd]].
    + apply list_elem_of_In, (in_split Hex) in Hin as (l1 & l2 & El). rewrite El, !map_app in E.
      apply app_inj_1 in E as [_ E]; [|by rewrite !length_map]. by injection E.
    + apply list_elem_of_In, (in_split Dec) in Hin as (l1 & l2 & El). rewrite El, !map_app in E.
      apply app_inj_1 in E as [_ E]; [|by rewrite !length_map]. by injection E.
    + by rewrite Hx, Hy.
  - exfalso. eapply clash_sound; [| |by apply forms_clash|exact E]; intros v; by apply fits_word.
Qed.

(** A key of the state: a field, and its address or number. *)
Inductive slot := Single (f : field) | OfAddress (f : field) (a : bytes) | OfIndex (f : field) (n : Z).

#[export] Instance slot_eq_dec : EqDecision slot.
Proof. solve_decision. Defined.

Definition slot_field (x : slot) : field := match x with Single f | OfAddress f _ | OfIndex f _ => f end.
Definition slot_word (x : slot) : bytes :=
  match x with Single _ => [] | OfAddress _ a => hex_EncodeToString a | OfIndex _ n => sprint_d n end.
Definition slot_key (x : slot) : bytes := key (slot_field x) (slot_word x).

Definition has (wd : word) (f : field) : bool := bool_decide (wd ∈ form f).
Definition slot_ok (x : slot) : Prop :=
  match x with
  | Single f => has Hex f = false /\ has Dec f = false
  | OfAddress f a => has Hex f = true /\ has Dec f = false /\ valid_bytes a
  | OfIndex f n => has Hex f = false /\ has Dec f = true /\ 0 <= n
  end.

Lemma slot_fits x : slot_ok x -> fits (form (slot_field x)) (slot_word x).
Proof.
  destruct x as [f|f a|f n]; cbn; unfold has; rewrite ?bool_decide_eq_true, ?bool_decide_eq_false.
  - intros [Hh Hd]. split_and!; naive_solver.
  - intros (Hh & Hd & Hv). split_and!; [intros _; by apply hex_digits|naive_solver..].
  - intros (Hh & Hd & Hn). split_and!; [naive_solver|intros _; apply dec_digits|naive_solver].
Qed.

Lemma slot_key_inj x y : slot_ok x -> slot_ok y -> slot_key x = slot_key y -> x = y.
Proof.
  intros Hx Hy E. apply key_inj in E as [Ef Ew]; [|by apply slot_fits..].
  destruct x as [f|f a|f n], y as [g|g b|g m]; cbn in *; subst; destruct_and?; try congruence.
  - f_equal. by apply hex_EncodeToString_inj.
  - f_equal. by apply sprint_d_inj.
Qed.

(** ** The state by slots *)

Definition val (c : bytes) (s : store) (x : slot) : bytes := stored s c (slot_key x).

Lemma val_insert c s x v y :
  slot_ok x -> slot_ok y -> val c (<[(c, slot_key x) := v]> s) y = if bool_decide (y = x) then v else val c s y.
Proof.
  intros Hx Hy. unfold val. case_bool_decide as E; [subst; by rewrite stored_insert_eq|].
  rewrite stored_insert_ne; [done|]. intros ?%slot_key_inj; congruence.
Qed.

Lemma val_insert_eq c s x v : val c (<[(c, slot_key x) := v]> s) x = v.
Proof. apply stored_insert_eq. Qed.

Lemma val_insert_ne c s x v y :
  slot_ok x -> slot_ok y -> y <> x -> val c (<[(c, slot_key x) := v]> s) y = val c s y.
Proof. intros Hx Hy Hne. by rewrite val_insert, bool_decide_false. Qed.

(** [slot] proves that a slot is one, [slots] reads through writes of other slots. *)
Ltac slot := cbn; split_and?; (reflexivity || lia || done).
Ltac slots := repeat (rewrite val_insert_ne by (slot || congruence)).
