(* ===== verification/ElectionVotes.v ===== *)
(** * The count of the votes

    What _calculateVotes computes.  Delegations form a graph in which every
    delegator has one agent; the recursion follows it backwards from each guardian
    that voted.  It ends, because an address that is a guardian is not counted as a
    delegator, however the other delegations run (cycles included); no stake is
    counted twice; and the participants are exactly the guardians that voted and the
    delegators whose chain of agents ends in one of them. *)
From stdpp Require Import base gmap strings numbers list fin_maps sorting.
From Stdlib Require Import ZArith Lia ZifyBool.
From S2P Require Import Prelude Hash Encoding VirtualMachine ContractSdk Elections ElectionKeys.
Import VirtualMachine Elections.

(** ** Loops that only read *)

Section Loops.
Context `{Sha256} `{ContractSdk}.
Variable call_method : call_env -> bytes -> bytes -> list Argument -> world -> reply (list Argument) * world.
Variable e : call_env.

Definition indices (from : Z) (n : nat) : list Z := map (fun k => from + Z.of_nat k) (seq 0 n).

Lemma indices_S from n : indices from (S n) = from :: indices (from + 1) n.
Proof.
  unfold indices. cbn [seq map]. rewrite Z.add_0_r. f_equal. rewrite <-seq_shift, map_map.
  apply map_ext. intros k. lia.
Qed.

Lemma run_for_loop_read {X S} n from (body : Z -> S -> prog S) (at_ : Z -> X) (F : X -> S -> S) s w :
  (forall i s, run call_method e (body i s) w = (Returned (F (at_ i) s), w)) ->
  run call_method e (for_loop n from body s) w
  = (Returned (foldl (fun s x => F x s) s (map at_ (indices from n))), w).
Proof.
  intros Hb. revert from s. induction n as [|n IH]; intros from s; [done|]. cbn [for_loop].
  rewrite run_bind, Hb, indices_S. apply IH.
Qed.

Lemma run_range_loop_read {X S} (l : list X) (body : X -> S -> prog S) (F : X -> S -> S) s w :
  (forall x s, run call_method e (body x s) w = (Returned (F x s), w)) ->
  run call_method e (range_loop l body s) w = (Returned (foldl (fun s x => F x s) s l), w).
Proof.
  intros Hb. revert s. induction l as [|x l IH]; intros s; [done|]. cbn [range_loop]. rewrite run_bind, Hb. apply IH.
Qed.

Lemma foldl_snoc {X} (l : list X) acc : foldl (fun s x => s ++ [x]) acc l = acc ++ l.
Proof.
  revert acc. induction l as [|x l IH]; intros acc; cbn; [by rewrite app_nil_r|]. by rewrite IH, <-app_assoc.
Qed.
End Loops.

(** ** What the state holds *)

Section Views.
Context `{ContractSdk}.
Variable (c : bytes) (s : store).

Definition guardian_at (i : Z) : bytes := _addressSliceToArray (val c s (OfIndex GuardianAt i)).
Definition guardians : list bytes := map guardian_at (indices 0 (Z.to_nat (uint32_value (val c s (Single GuardianCount))))).
Definition voted (g : bytes) : bool := negb (uint64_value (val c s (OfAddress GuardianVoteAt g)) =? 0).
Definition guardian_stake (g : bytes) : Z := uint64_value (val c s (OfAddress GuardianStake g)).

Definition delegator_at (i : Z) : bytes := _addressSliceToArray (val c s (OfIndex DelegatorAt i)).
Definition delegator_list : list bytes :=
  map delegator_at (indices 0 (Z.to_nat (uint32_value (val c s (Single DelegatorCount))))).
Definition delegator_stake (d : bytes) : Z := uint64_value (val c s (OfAddress DelegatorStake d)).
Definition agent (d : bytes) : bytes := _addressSliceToArray (val c s (OfAddress DelegatorAgent d)).
Definition candidates_of (g : bytes) : list bytes := split20 (val c s (OfAddress GuardianCandidates g)).

(** The guardians that voted and the delegators that are no guardians. *)
Definition voting : list bytes := filter (fun g => voted g = true) guardians.
End Views.

(** ** The maps of the count *)

Section Maps.
Context `{Sha256} `{ContractSdk}.
Variable call_method : call_env -> bytes -> bytes -> list Argument -> world -> reply (list Argument) * world.
Variable e : call_env.
Variable w : world.

Let guardians := guardians (e_contract e) (w_store w).
Let voted := voted (e_contract e) (w_store w).
Let guardian_stake := guardian_stake (e_contract e) (w_store w).
Let delegator_list := delegator_list (e_contract e) (w_store w).
Let delegator_stake := delegator_stake (e_contract e) (w_store w).
Let agent := agent (e_contract e) (w_store w).

Lemma run_getGuardians : run call_method e _getGuardians w = (Returned (list_to_set guardians), w).
Proof.
  unfold _getGuardians, read_all, _getNumberOfGuardians. runs.
  erewrite (run_for_loop_read call_method e _ _ _ (guardian_at (e_contract e) (w_store w)) (fun x l => l ++ [x])) by done.
  rewrite foldl_snoc. done.
Qed.

Lemma run_collectGuardiansStake :
  exists gs, run call_method e _collectGuardiansStake w = (Returned gs, w) /\
    forall g, gs !! g = if bool_decide (g ∈ guardians) && voted g then Some (guardian_stake g) else None.
Proof.
  unfold _collectGuardiansStake, _getNumberOfGuardians. runs.
  rewrite (run_for_loop_read call_method e _ _ _ (guardian_at (e_contract e) (w_store w))
    (fun g m => if voted g then <[g := guardian_stake g]> m else m)).
  2:{ intros i m. unfold _getGuardianAtIndex, _getGuardianVoteBlockNumber, getGuardianStake. runs.
      unfold voted, ElectionVotes.voted. by destruct (negb (_ =? 0)). }
  eexists. split; [done|]. fold guardians. intros g.
  assert (forall l (m : gmap bytes Z), foldl (fun m g => if voted g then <[g := guardian_stake g]> m else m) m l !! g
    = if bool_decide (g ∈ l) && voted g then Some (guardian_stake g) else m !! g) as Hfold.
  { induction l as [|h l IH]; intros m; [done|]. cbn [foldl]. rewrite IH.
    rewrite (bool_decide_ext (g ∈ h :: l) _ (elem_of_cons _ _ _)), bool_decide_or.
    destruct (voted g) eqn:Hg; rewrite ?andb_true_r, ?andb_false_r.
    - case_bool_decide; [by rewrite orb_true_r|]. rewrite orb_false_r. case_bool_decide; subst.
      + by rewrite Hg, lookup_insert_eq.
      + destruct (voted h); [|done]. by rewrite lookup_insert_ne.
    - destruct (voted h) eqn:Hh; [|done]. rewrite lookup_insert_ne; [done|]. congruence. }
  rewrite Hfold, lookup_empty. done.
Qed.

(** A delegator is taken once, and not if it is a guardian. *)
Definition take_delegator (d : bytes) (acc : list bytes * gmap bytes Z) : list bytes * gmap bytes Z :=
  if negb (bool_decide (d ∈ (list_to_set guardians : gset bytes))) && negb (bool_decide (is_Some (acc.2 !! d)))
  then (acc.1 ++ [d], <[d := delegator_stake d]> acc.2) else acc.

Definition collected (D : list bytes) (ds : gmap bytes Z) : Prop :=
  NoDup D /\ (forall d, d ∈ D -> d ∉ guardians) /\
  forall d, ds !! d = if bool_decide (d ∈ D) then Some (delegator_stake d) else None.

Lemma take_delegator_collected d D ds :
  collected D ds ->
  exists D' ds', take_delegator d (D, ds) = (D', ds') /\ collected D' ds' /\
    forall x, x ∈ D' <-> x ∈ D \/ x = d /\ (d ∉ guardians).
Proof.
  intros (Hnd & HD & Hds). unfold take_delegator. cbn [fst snd].
  destruct (decide (d ∈ guardians)) as [Hg|Hg].
  { rewrite (bool_decide_true (d ∈ _)) by (by rewrite elem_of_list_to_set). cbn [negb andb].
    exists D, ds. split_and!; try done. naive_solver. }
  rewrite (bool_decide_false (d ∈ _)) by (by rewrite elem_of_list_to_set). cbn [negb andb].
  destruct (decide (d ∈ D)) as [Hd|Hd].
  { rewrite (bool_decide_true (is_Some _)) by (rewrite Hds, bool_decide_true by done; by eexists). cbn [negb].
    exists D, ds. split_and!; try done. naive_solver. }
  rewrite (bool_decide_false (is_Some _)) by (rewrite Hds, bool_decide_false by done; by intros [? ?]). cbn [negb].
  assert (forall x, x ∈ D ++ [d] <-> x ∈ D \/ x = d) as Hin.
  { intros x. by rewrite elem_of_app, list_elem_of_singleton. }
  eexists _, _. split; [done|]. split; [split_and!|].
  - apply NoDup_app. split_and!; [done| |apply NoDup_singleton]. intros x Hx ->%list_elem_of_singleton. done.
  - intros x [Hx| ->]%Hin; [by apply HD|done].
  - intros x. rewrite (bool_decide_ext _ _ (Hin x)), bool_decide_or. destruct (decide (x = d)) as [->|Hne].
    + by rewrite lookup_insert_eq, (bool_decide_true (d = d)), orb_true_r.
    + by rewrite lookup_insert_ne, Hds, (bool_decide_false (x = d)), orb_false_r.
  - intros x. rewrite Hin. naive_solver.
Qed.

Lemma take_delegators_collected l D ds :
  collected D ds ->
  exists D' ds', foldl (fun acc d => take_delegator d acc) (D, ds) l = (D', ds') /\ collected D' ds' /\
    forall x, x ∈ D' <-> x ∈ D \/ x ∈ l /\ (x ∉ guardians).
Proof.
  revert D ds. induction l as [|d l IH]; intros D ds Hc; cbn [foldl].
  - exists D, ds. split_and!; try done. intros x. rewrite elem_of_nil. tauto.
  - destruct (take_delegator_collected d D ds Hc) as (D1 & ds1 & -> & Hc1 & Hin1).
    destruct (IH D1 ds1 Hc1) as (D' & ds' & HF & Hc' & Hin'). exists D', ds'. split_and!; try done.
    intros x. rewrite Hin', Hin1, elem_of_cons. naive_solver.
Qed.

Lemma run_collectDelegatorsStake :
  exists D ds, run call_method e (_collectDelegatorsStake (list_to_set guardians)) w = (Returned (D, ds), w) /\
    collected D ds /\ forall d, d ∈ D <-> d ∈ delegator_list /\ (d ∉ guardians).
Proof.
  unfold _collectDelegatorsStake, _getNumberOfDelegators. runs.
  rewrite (run_for_loop_read call_method e _ _ _ (delegator_at (e_contract e) (w_store w)) take_delegator).
  2:{ intros i [D ds]. unfold _getDelegatorAtIndex, take_delegator. runs. cbn [fst snd]. by destruct (negb _ && negb _). }
  destruct (take_delegators_collected delegator_list [] ∅) as (D & ds & HF & Hc & Hin).
  - split_and!; [constructor|by intros d ?%not_elem_of_nil|].
    intros d. by rewrite lookup_empty, bool_decide_false by apply not_elem_of_nil.
  - exists D, ds. split_and!; [do 2 f_equal; exact HF|done|]. intros d. rewrite Hin, elem_of_nil. tauto.
Qed.

Lemma run_findGuardianDelegators D :
  exists m, run call_method e (_findGuardianDelegators D) w = (Returned m, w) /\
    forall g, default [] (m !! g) = filter (fun d => agent d = g /\ agent d <> d) D.
Proof.
  unfold _findGuardianDelegators.
  rewrite (run_range_loop_read call_method e _ _ (fun d m =>
    if negb (bool_decide (agent d = d)) then <[agent d := default [] (m !! agent d) ++ [d]]> m else m)).
  2:{ intros d m. unfold _getDelegatorGuardian. runs. done. }
  eexists. split; [done|]. intros g.
  assert (forall (l : list bytes) (m : gmap bytes (list bytes)), default [] (foldl (fun m d =>
      if negb (bool_decide (agent d = d)) then <[agent d := default [] (m !! agent d) ++ [d]]> m else m) m l !! g)
    = default [] (m !! g) ++ filter (fun d => agent d = g /\ agent d <> d) l) as Hfold.
  { induction l as [|d l IH]; intros m; cbn [foldl]; [by rewrite filter_nil, app_nil_r|]. rewrite IH.
    destruct (decide (agent d = d)) as [Ed|Ed].
    - rewrite (bool_decide_true (agent d = d)) by done. cbn [negb]. by rewrite filter_cons_False by naive_solver.
    - rewrite (bool_decide_false (agent d = d)) by done. cbn [negb]. destruct (decide (agent d = g)) as [<-|Eg].
      + rewrite lookup_insert_eq, filter_cons_True by done. cbn [from_option id]. by rewrite <-app_assoc.
      + by rewrite lookup_insert_ne, filter_cons_False by naive_solver. }
  by rewrite Hfold, lookup_empty.
Qed.

End Maps.

(** ** The walk over the delegations *)

Section Walk.
Variables (D : list bytes) (agent : bytes -> bytes) (children : bytes -> list bytes).
Hypothesis D_nodup : NoDup D.
Hypothesis children_spec : forall g, children g = filter (fun d => agent d = g /\ agent d <> d) D.

(** The agent [k] steps up, and the number of steps that lead out of [D]. *)
Definition up (k : nat) (d : bytes) : bytes := Nat.iter k agent d.
Definition height (d : bytes) (k : nat) : Prop := (up k d ∉ D) /\ forall i, (i < k)%nat -> up i d ∈ D.

Lemma up_S k d : up (S k) d = up k (agent d).
Proof. symmetry. apply Nat.iter_swap. Qed.

Lemma up_add k i d : up (k + i) d = up k (up i d).
Proof. apply Nat.iter_add. Qed.

Lemma height_unique d k k' : height d k -> height d k' -> k = k'.
Proof.
  intros [Hk Hlt] [Hk' Hlt']. destruct (lt_eq_lt_dec k k') as [[H1|H1]|H1]; [|done|].
  - by apply Hlt' in H1.
  - by apply Hlt in H1.
Qed.

Lemma height_child d k : d ∈ D -> height (agent d) k -> height d (S k).
Proof.
  intros Hd [Hk Hlt]. split; [by rewrite up_S|]. intros [|i] Hi; [done|]. rewrite up_S. apply Hlt. lia.
Qed.

Lemma height_up d k i : height d (k + i) -> height (up i d) k.
Proof.
  intros [Hk Hlt]. split; [by rewrite <-up_add|]. intros j Hj. rewrite <-up_add. apply Hlt. lia.
Qed.

Lemma height_bound d k : height d k -> (k <= length D)%nat.
Proof.
  intros Hh. rewrite <-(length_seq k 0), <-(length_map (fun i => up i d)). apply submseteq_length, NoDup_submseteq.
  - apply NoDup_fmap_2_strong; [|apply NoDup_seq]. intros i j Hi%elem_of_seq Hj%elem_of_seq E.
    assert (height (up i d) (k - i)) as H1 by (apply height_up; by replace (k - i + i)%nat with k by lia).
    assert (height (up j d) (k - j)) as H2 by (apply height_up; by replace (k - j + j)%nat with k by lia).
    rewrite E in H1. pose proof (height_unique _ _ _ H1 H2). lia.
  - intros x (i & -> & Hi)%list_elem_of_fmap. apply elem_of_seq in Hi. apply Hh. lia.
Qed.

(** The addresses the recursion visits from [x], in its order. *)
Fixpoint walk (fuel : nat) (x : bytes) : option (list bytes) :=
  match fuel with
  | O => None
  | S fuel =>
      (fix walk_all l :=
         match l with
         | [] => Some []
         | d :: l => match walk fuel d, walk_all l with Some a, Some b => Some (d :: a ++ b) | _, _ => None end
         end) (children x)
  end.

Fixpoint walk_all (fuel : nat) (l : list bytes) : option (list bytes) :=
  match l with
  | [] => Some []
  | d :: l => match walk fuel d, walk_all fuel l with Some a, Some b => Some (d :: a ++ b) | _, _ => None end
  end.

Lemma walk_S fuel x : walk (S fuel) x = walk_all fuel (children x).
Proof. cbn [walk]. generalize (children x). induction l as [|d l IH]; [done|]. cbn [walk_all]. by rewrite IH. Qed.

(** [V] has, once, the addresses below [x], which has the height [k]. *)
Definition below (x : bytes) (k : nat) (V : list bytes) : Prop :=
  NoDup V /\ forall d, d ∈ V <-> exists m, up (S m) d = x /\ height d (S m + k).

Definition below_all (l : list bytes) (k : nat) (V : list bytes) : Prop :=
  NoDup V /\ forall d, d ∈ V <-> exists m, up m d ∈ l /\ height d (m + S k).

Lemma walk_all_below fuel l k :
  (forall d, height d (S k) -> exists V, walk fuel d = Some V /\ below d (S k) V) ->
  NoDup l -> (forall d, d ∈ l -> height d (S k)) ->
  exists V, walk_all fuel l = Some V /\ below_all l k V.
Proof.
  intros Hwalk Hnd. induction Hnd as [|y l Hy Hnd IH]; intros Hl.
  - exists []. split; [done|]. split; [constructor|]. intros d. split; [by intros ?%not_elem_of_nil|].
    by intros (m & ?%not_elem_of_nil & _).
  - destruct (Hwalk y) as (V1 & Hw1 & Hnd1 & Hin1); [apply Hl; by left|].
    destruct IH as (V2 & Hw2 & Hnd2 & Hin2); [intros d Hd; apply Hl; by right|].
    assert (forall d m, up m d = y -> height d (m + S k) -> d ∉ V2) as Hdisj.
    { intros d m Hm Hh (m' & Hm' & Hh')%Hin2. pose proof (height_unique _ _ _ Hh Hh') as E.
      replace m' with m in Hm' by lia. by rewrite Hm in Hm'. }
    exists (y :: V1 ++ V2). cbn [walk_all]. rewrite Hw1, Hw2. split; [done|]. split.
    + apply NoDup_cons. split.
      * rewrite not_elem_of_app, Hin1. split; [|apply (Hdisj y 0%nat); [done|apply Hl; by left]].
        intros (m & _ & Hm). pose proof (height_unique _ _ _ Hm (Hl y ltac:(by left))). lia.
      * apply NoDup_app. split_and!; [done| |done]. intros d (m & Hm & Hh)%Hin1. by apply (Hdisj d (S m)).
    + intros d. rewrite elem_of_cons, elem_of_app, Hin1, Hin2. split.
      * intros [->|[(m & Hm & Hh)|(m & Hm & Hh)]].
        -- exists 0%nat. split; [by left|]. apply Hl. by left.
        -- exists (S m). rewrite Hm. split; [by left|done].
        -- exists m. split; [by right|done].
      * intros (m & [Hm|Hm]%elem_of_cons & Hh).
        -- destruct m as [|m]; [by left|]. right. left. by exists m.
        -- right. right. by exists m.
Qed.

(** From an address that is no delegator the recursion ends within one more call
    than there are delegators, and visits every delegator below it once. *)
Lemma walk_below fuel x k : height x k -> (length D < fuel + k)%nat -> exists V, walk fuel x = Some V /\ below x k V.
Proof.
  revert x k. induction fuel as [|fuel IH]; intros x k Hx Hf; [apply height_bound in Hx; lia|].
  assert (forall d, d ∈ children x <-> d ∈ D /\ agent d = x) as Hch.
  { intros d. rewrite children_spec, list_elem_of_filter. split; [naive_solver|]. intros [Hd Ha]. split_and!; try done.
    intros E. assert (height d (S k)) as Hh by (apply height_child; [done|by rewrite Ha]).
    rewrite Ha in E. subst x. rewrite E in Hx. pose proof (height_unique _ _ _ Hx Hh). lia. }
  rewrite walk_S. destruct (walk_all_below fuel (children x) k) as (V & HV & Hnd & Hin).
  - intros d Hd. apply IH; [done|lia].
  - rewrite children_spec. by apply NoDup_filter.
  - intros d [Hd Ha]%Hch. apply height_child; [done|by rewrite Ha].
  - exists V. split; [done|]. split; [done|]. intros d. rewrite Hin. f_equiv. intros m. rewrite Hch.
    replace (m + S k)%nat with (S m + k)%nat by lia. split.
    + intros [[_ Ha] Hh]. split; [|done]. exact Ha.
    + intros [Ha Hh]. split; [|done]. split; [|exact Ha]. apply Hh. lia.
Qed.

End Walk.

(** ** Sums of stakes *)

Section Sums.
Variable stake : bytes -> Z.
Hypothesis stake_bound : forall d, is_u64 (stake d).

Definition sum_of (l : list bytes) : Z := foldr (fun d n => stake d + n) 0 l.

Lemma sum_of_cons d l : sum_of (d :: l) = stake d + sum_of l.
Proof. done. Qed.

Lemma sum_of_app l l' : sum_of (l ++ l') = sum_of l + sum_of l'.
Proof. induction l as [|d l IH]; [done|]. cbn [app]. rewrite !sum_of_cons, IH. lia. Qed.

Lemma sum_of_nonneg l : 0 <= sum_of l.
Proof.
  induction l as [|d l IH]; [done|]. rewrite sum_of_cons. specialize (stake_bound d). unfold is_u64 in stake_bound. lia.
Qed.

Lemma sum_of_submseteq l l' : l ⊆+ l' -> sum_of l <= sum_of l'.
Proof.
  induction 1 as [|x l l' _ IH|x y l|x l l' _ IH|l l' l'' _ IH1 _ IH2]; rewrite ?sum_of_cons; try lia.
  specialize (stake_bound x). unfold is_u64 in stake_bound. lia.
Qed.
End Sums.

Lemma sum_of_ext stake stake' l : (forall d, d ∈ l -> stake d = stake' d) -> sum_of stake l = sum_of stake' l.
Proof.
  induction l as [|d l IH]; intros Heq; [done|]. rewrite !sum_of_cons, Heq by by left. f_equal. apply IH.
  intros x Hx. apply Heq. by right.
Qed.

(** [<[d := stake d]>] for every [d] of a list. *)
Definition insert_all (stake : bytes -> Z) (l : list bytes) (m : gmap bytes Z) : gmap bytes Z :=
  foldl (fun m d => <[d := stake d]> m) m l.

Lemma insert_all_app stake l l' m : insert_all stake (l ++ l') m = insert_all stake l' (insert_all stake l m).
Proof. apply foldl_app. Qed.

Lemma lookup_insert_all stake l m d :
  insert_all stake l m !! d = if bool_decide (d ∈ l) then Some (stake d) else m !! d.
Proof.
  revert m. induction l as [|x l IH]; intros m; [done|]. cbn [insert_all foldl]. fold (insert_all stake l (<[x := stake x]> m)).
  rewrite IH, (bool_decide_ext (d ∈ x :: l) _ (elem_of_cons _ _ _)), bool_decide_or.
  case_bool_decide; [by rewrite orb_true_r|]. rewrite orb_false_r. case_bool_decide.
  - subst. by rewrite lookup_insert_eq.
  - by rewrite lookup_insert_ne.
Qed.

(** ** The recursion *)

Section Recursion.
Context `{Sha256} `{ContractSdkLaws}.
Variable call_method : call_env -> bytes -> bytes -> list Argument -> world -> reply (list Argument) * world.
Variables (e : call_env) (w : world).

Lemma run_safe_add x y : is_u64 x -> is_u64 y -> x + y < 2 ^ 64 ->
  run call_method e (safe (safeuint64_Add x y)) w = (Returned (x + y), w).
Proof.
  intros Hx Hy Hs. apply run_safe. rewrite safeuint64_Add_spec by done. unfold checked, is_u64 in *. by lia_if.
Qed.

Variables (g2d : gmap bytes (list bytes)) (ds : gmap bytes Z).
Let children (g : bytes) : list bytes := default [] (g2d !! g).
Hypothesis ds_bound : forall d, is_u64 (value_at ds d).
Let stake := value_at ds.

Lemma run_recursion fuel x V ps st :
  walk children fuel x = Some V -> stake x + sum_of stake V < 2 ^ 64 ->
  run call_method e (_calculateOneGuardianVoteRecursive fuel g2d ds x (ps, st)) w
  = (Returned (stake x + sum_of stake V, (ps ++ V, insert_all stake V st)), w).
Proof.
  revert x V ps st. induction fuel as [|fuel IH]; intros x V ps st HV Hs; [done|].
  rewrite walk_S in HV. cbn [_calculateOneGuardianVoteRecursive]. fold (children x).
  assert (0 <= stake x) as Hx by apply ds_bound. change (value_at ds x) with (stake x). revert Hx Hs.
  generalize (stake x) as acc. intros acc. revert V ps st acc HV.
  induction (children x) as [|d l IHl]; intros V ps st acc HV Hacc Hs.
  - injection HV as <-. cbn [range_loop]. rewrite run_ret, app_nil_r. cbn. by rewrite Z.add_0_r.
  - cbn [walk_all] in HV. destruct (walk children fuel d) as [a|] eqn:Ha; [|done].
    destruct (walk_all children fuel l) as [b|] eqn:Hb; [|done]. injection HV as <-.
    rewrite sum_of_cons, sum_of_app in *.
    pose proof (sum_of_nonneg stake ds_bound a). pose proof (sum_of_nonneg stake ds_bound b).
    assert (0 <= stake d) as Hd by apply ds_bound.
    cbn [range_loop]. rewrite run_bind, run_bind. cbn [fst snd]. rewrite (IH d a) by (done || lia). cbn [fst snd].
    rewrite run_bind, run_safe_add by (unfold is_u64; lia). rewrite run_ret.
    rewrite (IHl b) by (done || lia). rewrite <-!app_assoc.
    change (insert_all stake (d :: a ++ b) st) with (insert_all stake (a ++ b) (<[d := stake d]> st)).
    rewrite insert_all_app. do 3 f_equal. lia.
Qed.

End Recursion.

(** ** The votes for candidates *)

Definition occurrences (c : bytes) (l : list bytes) : Z := Z.of_nat (length (filter (fun x => x = c) l)).

Lemma occurrences_cons c x l : occurrences c (x :: l) = (if bool_decide (x = c) then 1 else 0) + occurrences c l.
Proof.
  unfold occurrences. case_bool_decide.
  - rewrite filter_cons_True by done. cbn [length]. lia.
  - by rewrite filter_cons_False.
Qed.

Lemma occurrences_bound c l : 0 <= occurrences c l <= Z.of_nat (length l).
Proof. unfold occurrences. split; [lia|]. apply inj_le, length_filter. Qed.

Lemma value_at_insert m k v k' : value_at (<[k := v]> m) k' = if bool_decide (k = k') then v else value_at m k'.
Proof.
  unfold value_at. case_bool_decide; [subst; by rewrite lookup_insert_eq|by rewrite lookup_insert_ne].
Qed.

Section Candidates.
Context `{Sha256} `{ContractSdkLaws}.
Variable call_method : call_env -> bytes -> bytes -> list Argument -> world -> reply (list Argument) * world.
Variables (e : call_env) (w : world).

Lemma run_add_candidates cl wt votes bound :
  0 <= wt -> bound < 2 ^ 64 -> (forall c, 0 <= value_at votes c /\ value_at votes c + wt * Z.of_nat (length cl) <= bound) ->
  exists votes', run call_method e (add_candidates cl wt votes) w = (Returned votes', w) /\
    forall c, value_at votes' c = value_at votes c + wt * occurrences c cl /\
              (votes' !! c = None <-> votes !! c = None /\ (c ∉ cl)).
Proof.
  intros Hwt Hb. unfold add_candidates. revert votes. induction cl as [|x cl IH]; intros votes Hv; cbn [range_loop].
  - exists votes. split; [done|]. intros c. unfold occurrences. cbn. split; [lia|]. rewrite elem_of_nil. tauto.
  - destruct (Hv x) as [Hx0 Hx]. cbn [length] in Hx, Hv. rewrite run_bind, run_bind, run_safe_add by (unfold is_u64; nia).
    rewrite run_ret. destruct (IH (<[x := value_at votes x + wt]> votes)) as (votes' & Hrun & Hspec).
    { intros c. rewrite value_at_insert. destruct (Hv c) as [Hc0 Hc]. case_bool_decide; subst; lia. }
    exists votes'. split; [done|]. intros c. destruct (Hspec c) as [Hval Hnone].
    rewrite Hval, Hnone, value_at_insert, occurrences_cons, elem_of_cons. split.
    + case_bool_decide; subst; lia.
    + destruct (decide (x = c)) as [->|Hne]; [rewrite lookup_insert_eq|rewrite lookup_insert_ne by done]; naive_solver.
Qed.
End Candidates.

(** ** Who is represented by whom *)

(** [represented c s d g]: the delegator [d], which is no guardian, has delegated to
    [g], or to a delegator that is represented by [g]. *)
Inductive represented `{ContractSdk} (c : bytes) (s : store) : bytes -> bytes -> Prop :=
| represented_direct d :
    d ∈ delegator_list c s -> d ∉ guardians c s -> represented c s d (agent c s d)
| represented_through d g :
    d ∈ delegator_list c s -> d ∉ guardians c s -> represented c s (agent c s d) g -> represented c s d g.

Lemma represented_height `{ContractSdk} c s D d g :
  (forall x, x ∈ D <-> x ∈ delegator_list c s /\ (x ∉ guardians c s)) -> g ∈ guardians c s ->
  represented c s d g <-> exists m, up (agent c s) (S m) d = g /\ height D (agent c s) d (S m).
Proof.
  intros HD Hg. assert (g ∉ D) as HgD by (rewrite HD; naive_solver). split.
  - induction 1 as [d Hd Hn|d g Hd Hn _ IH].
    + exists 0%nat. split; [done|]. split; [done|]. intros [|i] Hi; [|lia]. by apply HD.
    + destruct (IH Hg HgD) as (m & Hm & Hh). exists (S m). split; [by rewrite up_S|].
      apply height_child; [by apply HD|done].
  - intros (m & Hm & Hh). revert d Hm Hh. induction m as [|m IH]; intros d Hm Hh.
    + rewrite <-Hm. destruct (proj1 (HD d) (proj2 Hh 0%nat ltac:(lia))) as [Hd Hn]. by apply represented_direct.
    + destruct (proj1 (HD d) (proj2 Hh 0%nat ltac:(lia))) as [Hd Hn]. apply represented_through; try done.
      apply IH; [by rewrite <-up_S|]. apply (height_up D (agent c s) d (S m) 1).
      by replace (S m + 1)%nat with (S (S m)) by lia.
Qed.

(** ** The guardians cast their votes *)

(** The state [s'] differs from [s] in the recorded weights only. *)
Definition reweighed (c : bytes) (s s' : store) : Prop :=
  forall x, slot_ok x -> slot_field x <> GuardianWeight -> slot_field x <> TotalStake -> val c s' x = val c s x.

Lemma reweighed_trans c s s' s'' : reweighed c s s' -> reweighed c s' s'' -> reweighed c s s''.
Proof. intros H1 H2 x Hx Hn1 Hn2. by rewrite H2, H1. Qed.

Lemma reweighed_weight c s g v : valid_bytes g -> reweighed c s (<[(c, slot_key (OfAddress GuardianWeight g)) := v]> s).
Proof. intros Hg x Hx Hn _. rewrite val_insert, bool_decide_false by (done || by intros ->). done. Qed.

Lemma reweighed_total c s v : reweighed c s (<[(c, slot_key (Single TotalStake)) := v]> s).
Proof. intros x Hx _ Hn. rewrite val_insert, bool_decide_false by (done || by intros ->). done. Qed.

Section Cast.
Context `{Sha256} `{ContractSdkLaws}.
Variable call_method : call_env -> bytes -> bytes -> list Argument -> world -> reply (list Argument) * world.
Variables (e : call_env) (s0 : store).
Let c := e_contract e.

Variables (D : list bytes) (ds : gmap bytes Z) (g2d : gmap bytes (list bytes)) (gs : gmap bytes Z).
Hypothesis D_nodup : NoDup D.
Hypothesis D_spec : forall d, d ∈ D <-> d ∈ delegator_list c s0 /\ (d ∉ guardians c s0).
Hypothesis ds_spec : forall d, ds !! d = if bool_decide (d ∈ D) then Some (delegator_stake c s0 d) else None.
Hypothesis g2d_spec : forall g, default [] (g2d !! g) = filter (fun d => agent c s0 d = g /\ agent c s0 d <> d) D.
Hypothesis gs_spec : forall g, gs !! g = if bool_decide (g ∈ guardians c s0) && voted c s0 g then Some (guardian_stake c s0 g) else None.
Hypothesis guardians_nodup : NoDup (guardians c s0).
Hypothesis guardians_valid : Forall valid_bytes (guardians c s0).

(** The stake that counts for an address. *)
Definition stake_of (p : bytes) : Z :=
  if bool_decide (p ∈ guardians c s0) then guardian_stake c s0 p else delegator_stake c s0 p.

(** The delegators below a guardian, and its weight. *)
Definition delegators_of (g : bytes) : list bytes :=
  default [] (walk (fun x => default [] (g2d !! x)) (S (length D)) g).
Definition weight_of (g : bytes) : Z := sum_of stake_of (g :: delegators_of g).

(** No more than [M] candidates in a vote, and all stakes together small enough. *)
Variable M : Z.
Hypothesis M_pos : 1 <= M.
Hypothesis M_bound : forall g, g ∈ guardians c s0 -> Z.of_nat (length (candidates_of c s0 g)) <= M.
Hypothesis stakes_bound : M * sum_of stake_of (voting c s0 ++ D) < 2 ^ 64.

Lemma stake_of_bound p : is_u64 (stake_of p).
Proof. unfold stake_of. case_bool_decide; apply uint64_bound. Qed.

Lemma ds_size : size ds = length D.
Proof.
  rewrite <-size_dom. assert (dom ds = list_to_set D) as ->; [|by apply size_list_to_set].
  apply set_eq. intros d. rewrite elem_of_dom, elem_of_list_to_set, ds_spec. case_bool_decide; [|by split; [intros [? ?]|]].
  by split; [|eexists].
Qed.

Lemma D_not_guardian d : d ∈ D -> d ∉ guardians c s0.
Proof. by intros [_ ?]%D_spec. Qed.

Lemma value_at_ds d : d ∉ guardians c s0 -> d ∈ D -> value_at ds d = stake_of d.
Proof. intros Hg Hd. unfold value_at, stake_of. by rewrite ds_spec, bool_decide_true, bool_decide_false. Qed.

Lemma value_at_guardian g : g ∈ guardians c s0 -> value_at ds g = 0.
Proof. intros Hg. unfold value_at. rewrite ds_spec, bool_decide_false; [done|]. by intros ?%D_not_guardian. Qed.

Lemma value_at_ds_bound d : is_u64 (value_at ds d).
Proof. unfold value_at. rewrite ds_spec. case_bool_decide; [apply uint64_bound|done]. Qed.

Lemma delegators_of_spec g :
  g ∈ guardians c s0 ->
  walk (fun x => default [] (g2d !! x)) (S (length D)) g = Some (delegators_of g) /\
  NoDup (delegators_of g) /\
  forall d, d ∈ delegators_of g <-> exists m, up (agent c s0) (S m) d = g /\ height D (agent c s0) d (S m).
Proof.
  intros Hg. destruct (walk_below D (agent c s0) (fun x => default [] (g2d !! x)) D_nodup g2d_spec (S (length D)) g 0)
    as (V & HV & Hnd & Hin).
  - split; [by intros ?%D_not_guardian|lia].
  - lia.
  - unfold delegators_of. rewrite HV. cbn [from_option id]. split_and!; try done. intros d. rewrite Hin. f_equiv. intros m.
    by rewrite Nat.add_0_r.
Qed.

Lemma delegators_of_D g d : g ∈ guardians c s0 -> d ∈ delegators_of g -> d ∈ D.
Proof.
  intros Hg Hd. apply (delegators_of_spec g Hg) in Hd as (m & _ & Hh). apply (proj2 Hh 0%nat). lia.
Qed.

Lemma sum_delegators g :
  g ∈ guardians c s0 -> sum_of (value_at ds) (delegators_of g) = sum_of stake_of (delegators_of g).
Proof.
  intros Hg. apply sum_of_ext. intros d Hd. apply delegators_of_D in Hd; [|done].
  apply value_at_ds; [by apply D_not_guardian|done].
Qed.

(** The participants after the guardians of [l]. *)
Definition participants_of (l : list bytes) : list bytes :=
  concat (map (fun g => g :: delegators_of g) (filter (fun g => voted c s0 g = true) l)).

Lemma participants_of_snoc l g :
  participants_of (l ++ [g]) = participants_of l ++ (if voted c s0 g then g :: delegators_of g else []).
Proof.
  unfold participants_of. rewrite filter_app, map_app, concat_app. f_equal. destruct (voted c s0 g) eqn:Hv.
  - rewrite filter_cons_True by done. cbn. by rewrite app_nil_r.
  - by rewrite filter_cons_False by (rewrite Hv; done).
Qed.

Lemma elem_of_participants l p :
  p ∈ participants_of l <-> exists g, g ∈ l /\ voted c s0 g = true /\ (p = g \/ p ∈ delegators_of g).
Proof.
  unfold participants_of. rewrite list_elem_of_In, in_concat. split.
  - intros (x & (g & <- & Hg)%in_map_iff & Hp). apply list_elem_of_In, list_elem_of_filter in Hg as [Hv Hg].
    exists g. split_and!; try done. apply list_elem_of_In, elem_of_cons in Hp. done.
  - intros (g & Hg & Hv & Hp). exists (g :: delegators_of g). split.
    + apply in_map_iff. exists g. split; [done|]. apply list_elem_of_In, list_elem_of_filter. done.
    + apply list_elem_of_In, elem_of_cons. done.
Qed.

Lemma participants_nodup l : NoDup l -> (forall g, g ∈ l -> g ∈ guardians c s0) -> NoDup (participants_of l).
Proof.
  induction l as [|g l IH] using rev_ind; intros Hnd Hl; [constructor|]. rewrite participants_of_snoc.
  apply NoDup_app in Hnd as (Hnd & Hdis & _).
  assert (g ∈ guardians c s0) as Hg by (apply Hl, elem_of_app; right; by left).
  assert (forall x, x ∈ l -> x ∈ guardians c s0) as Hl' by (intros x Hx; apply Hl, elem_of_app; by left).
  apply NoDup_app. split_and!; [by apply IH| |].
  - intros p (h & Hh & Hv & Hp)%elem_of_participants Hpg. destruct (voted c s0 g); [|by apply not_elem_of_nil in Hpg].
    specialize (Hl' h Hh). assert (h <> g) as Hne by (intros ->; by apply (Hdis g Hh); left).
    apply elem_of_cons in Hpg as [->|Hpg]; destruct Hp as [->|Hp]; try done.
    + by apply delegators_of_D, D_not_guardian in Hp.
    + by apply delegators_of_D, D_not_guardian in Hpg.
    + apply (delegators_of_spec h Hl') in Hp as (m & Hm & Hm'). apply (delegators_of_spec g Hg) in Hpg as (k & Hk & Hk').
      pose proof (height_unique _ _ _ _ _ Hm' Hk') as [= ->]. congruence.
  - destruct (voted c s0 g); [|constructor]. apply NoDup_cons. split; [|by apply delegators_of_spec].
    intros ?%delegators_of_D%D_not_guardian; done.
Qed.

Lemma participants_sum l :
  NoDup l -> (forall g, g ∈ l -> g ∈ guardians c s0) -> sum_of stake_of (participants_of l) <= sum_of stake_of (voting c s0 ++ D).
Proof.
  intros Hnd Hl. apply sum_of_submseteq; [apply stake_of_bound|].
  apply NoDup_submseteq; [by apply participants_nodup|].
  intros p (g & Hg & Hv & [->|Hp])%elem_of_participants; apply elem_of_app.
  - left. unfold voting. apply list_elem_of_filter. auto.
  - right. eapply delegators_of_D; [|exact Hp]. auto.
Qed.

(** The votes against a candidate by the guardians of [l]. *)
Definition votes_for (l : list bytes) (candidate : bytes) : Z :=
  foldr (fun g n => weight_of g * occurrences candidate (candidates_of c s0 g) + n) 0
    (filter (fun g => voted c s0 g = true) l).

Lemma votes_for_snoc l g x :
  votes_for (l ++ [g]) x
  = votes_for l x + (if voted c s0 g then weight_of g * occurrences x (candidates_of c s0 g) else 0).
Proof.
  unfold votes_for. rewrite filter_app. induction (filter _ l) as [|h l' IH]; cbn [app foldr].
  - destruct (voted c s0 g) eqn:Hv.
    + rewrite filter_cons_True by done. cbn. lia.
    + by rewrite filter_cons_False by (rewrite Hv; done).
  - rewrite IH. lia.
Qed.

Lemma weight_of_nonneg g : 0 <= weight_of g.
Proof. apply sum_of_nonneg, stake_of_bound. Qed.

Lemma weights_sum l : foldr (fun g n => weight_of g + n) 0 (filter (fun g => voted c s0 g = true) l)
  = sum_of stake_of (participants_of l).
Proof.
  unfold participants_of. induction (filter _ l) as [|g l' IH]; [done|]. cbn [map concat foldr].
  rewrite sum_of_app, IH. done.
Qed.

Lemma votes_for_bound l x :
  (forall g, g ∈ l -> g ∈ guardians c s0) -> 0 <= votes_for l x <= M * sum_of stake_of (participants_of l).
Proof.
  intros Hl. rewrite <-weights_sum. unfold votes_for.
  assert (forall g, g ∈ filter (fun g => voted c s0 g = true) l -> g ∈ guardians c s0) as Hl'.
  { intros g [_ Hg]%list_elem_of_filter. auto. }
  induction (filter _ l) as [|g l' IH]; cbn [foldr]; [lia|].
  specialize (IH ltac:(intros h Hh; apply Hl'; by right)). pose proof (weight_of_nonneg g).
  pose proof (occurrences_bound x (candidates_of c s0 g)). pose proof (M_bound g (Hl' g ltac:(by left))). nia.
Qed.

(** The ballot after the guardians of [l]. *)
Record counted (l : list bytes) (b : ballot) : Prop := {
  cnt_participants : participants b = participants_of l;
  cnt_stakes p : participantStakes b !! p = if bool_decide (p ∈ participants_of l) then Some (stake_of p) else None;
  cnt_total : totalVotes b = sum_of stake_of (participants_of l);
  cnt_weights g : guardiansAccumulatedStakes b !! g
    = if bool_decide (g ∈ l) && voted c s0 g then Some (weight_of g) else None;
  cnt_votes x : value_at (candidateVotes b) x = votes_for l x;
  cnt_none x : candidateVotes b !! x = None <-> forall g, g ∈ l -> voted c s0 g = true -> x ∉ candidates_of c s0 g
}.

Lemma counted_nil : counted [] (mkBallot ∅ 0 [] ∅ ∅).
Proof.
  split; cbn; try done.
  - intros x. rewrite lookup_empty. split; [|done]. by intros _ g ?%not_elem_of_nil.
Qed.

Lemma counted_skip l g b : voted c s0 g = false -> counted l b -> counted (l ++ [g]) b.
Proof.
  intros Hv [B1 B2 B3 B4 B5 B6]. assert (participants_of (l ++ [g]) = participants_of l) as Hp.
  { rewrite participants_of_snoc, Hv. apply app_nil_r. }
  split; rewrite ?Hp; try done.
  - intros h. rewrite B4. destruct (decide (h = g)) as [->|Hne]; [by rewrite Hv, !andb_false_r|].
    by rewrite (bool_decide_ext (h ∈ l ++ [g]) (h ∈ l)) by (rewrite elem_of_app, list_elem_of_singleton; naive_solver).
  - intros x. rewrite B5, votes_for_snoc, Hv. lia.
  - intros x. rewrite B6. split; intros Hx h Hh Hhv.
    + apply elem_of_app in Hh as [Hh| ->%list_elem_of_singleton]; [by apply Hx|congruence].
    + apply Hx; [|done]. apply elem_of_app. by left.
Qed.

(** What one guardian adds. *)
Lemma counted_add l g b votes :
  g ∈ guardians c s0 -> voted c s0 g = true -> counted l b ->
  (forall x, value_at votes x = value_at (candidateVotes b) x + weight_of g * occurrences x (candidates_of c s0 g) /\
             (votes !! x = None <-> candidateVotes b !! x = None /\ (x ∉ candidates_of c s0 g))) ->
  counted (l ++ [g]) (mkBallot votes (totalVotes b + weight_of g) ((participants b ++ [g]) ++ delegators_of g)
    (insert_all (value_at ds) (delegators_of g) (<[g := guardian_stake c s0 g]> (participantStakes b)))
    (<[g := weight_of g]> (guardiansAccumulatedStakes b))).
Proof.
  intros Hg Hv [B1 B2 B3 B4 B5 B6] Hvotes.
  assert (participants_of (l ++ [g]) = participants_of l ++ g :: delegators_of g) as Hp
    by (by rewrite participants_of_snoc, Hv).
  split; cbn [participants participantStakes totalVotes guardiansAccumulatedStakes candidateVotes]; rewrite ?Hp.
  - by rewrite B1, <-app_assoc.
  - intros p. rewrite lookup_insert_all.
    rewrite (bool_decide_ext (p ∈ participants_of l ++ g :: _) (p ∈ delegators_of g \/ (p = g \/ p ∈ participants_of l)))
      by (rewrite elem_of_app, elem_of_cons; tauto). rewrite !bool_decide_or.
    case_bool_decide as Hd; cbn [orb].
    + f_equal. apply delegators_of_D in Hd; [|done]. apply value_at_ds; [by apply D_not_guardian|done].
    + destruct (decide (p = g)) as [->|Hne].
      * rewrite lookup_insert_eq, (bool_decide_true (g = g)) by done. cbn [orb]. f_equal.
        unfold stake_of. by rewrite bool_decide_true.
      * by rewrite lookup_insert_ne, (bool_decide_false (p = g)), B2.
  - rewrite sum_of_app, B3. done.
  - intros h. destruct (decide (h = g)) as [->|Hne].
    + rewrite lookup_insert_eq, bool_decide_true by (apply elem_of_app; right; by left). by rewrite Hv.
    + rewrite lookup_insert_ne, B4 by done.
      by rewrite (bool_decide_ext (h ∈ l ++ [g]) (h ∈ l)) by (rewrite elem_of_app, list_elem_of_singleton; naive_solver).
  - intros x. rewrite (proj1 (Hvotes x)), B5, votes_for_snoc, Hv. done.
  - intros x. rewrite (proj2 (Hvotes x)), B6. split.
    + intros [Hx Hx'] h [Hh| ->%list_elem_of_singleton]%elem_of_app Hhv; [by apply Hx|done].
    + intros Hx. split; [|apply Hx; [|done]; apply elem_of_app; right; by left].
      intros h Hh Hhv. apply Hx; [|done]. apply elem_of_app. by left.
Qed.

Lemma run_cast_vote l g b w :
  NoDup (l ++ [g]) -> (forall h, h ∈ l ++ [g] -> h ∈ guardians c s0) -> voted c s0 g = true -> counted l b ->
  reweighed c s0 (w_store w) ->
  exists b' w', run call_method e (cast_vote (S (size ds)) g2d ds g (guardian_stake c s0 g) b) w = (Returned b', w') /\
    counted (l ++ [g]) b' /\ reweighed c s0 (w_store w').
Proof.
  intros Hnd Hl Hv Hb Hw. assert (g ∈ guardians c s0) as Hg by (apply Hl, elem_of_app; right; by left).
  assert (valid_bytes g) as Hgv by (by eapply Forall_forall in Hg).
  pose proof (participants_sum _ Hnd Hl) as Hsum. rewrite participants_of_snoc, Hv, sum_of_app in Hsum.
  fold (weight_of g) in Hsum. pose proof (sum_of_nonneg stake_of stake_of_bound (participants_of l)) as Hpos.
  pose proof (weight_of_nonneg g) as Hwg. destruct (delegators_of_spec g Hg) as (Hwalk & _ & _).
  assert (weight_of g = guardian_stake c s0 g + sum_of stake_of (delegators_of g)) as Hweight.
  { unfold weight_of. rewrite sum_of_cons. f_equal. unfold stake_of at 1. by rewrite bool_decide_true. }
  assert (0 <= guardian_stake c s0 g) as Hgs by apply uint64_bound.
  pose proof (sum_of_nonneg stake_of stake_of_bound (delegators_of g)) as Hds.
  unfold cast_vote. rewrite ds_size, run_bind.
  rewrite (run_recursion call_method e w g2d ds value_at_ds_bound _ _ _ _ _ Hwalk)
    by (rewrite value_at_guardian, sum_delegators by done; nia).
  rewrite value_at_guardian, sum_delegators by done. cbn [fst snd]. rewrite Z.add_0_l.
  rewrite run_bind, run_safe_add by (unfold is_u64; nia). rewrite <-Hweight.
  rewrite (cnt_total _ _ Hb). unfold _setGuardianVotingWeight, _getCandidates. rewrite run_bind, run_WriteUint64.
  set (w1 := mkWorld _ _). rewrite run_bind, run_safe_add by (unfold is_u64; nia). rewrite run_bind, run_bind, run_ReadBytes, run_ret.
  assert (reweighed c s0 (w_store w1)) as Hw1 by (eapply reweighed_trans; [exact Hw|by apply reweighed_weight]).
  replace (stored (w_store w1) (e_contract e) (_formatGuardianCandidateKey g)) with (val c s0 (OfAddress GuardianCandidates g))
    by (symmetry; by apply (Hw1 (OfAddress GuardianCandidates g))). fold (candidates_of c s0 g).
  destruct (run_add_candidates call_method e w1 (candidates_of c s0 g) (weight_of g) (candidateVotes b)
    (M * sum_of stake_of (voting c s0 ++ D))) as (votes & Hrun & Hvotes).
  { done. }
  { done. }
  { intros x. rewrite (cnt_votes _ _ Hb). pose proof (votes_for_bound l x) as Hvb. pose proof (M_bound g Hg).
    split; [apply Hvb|]; [|specialize (Hvb ltac:(intros h Hh; apply Hl, elem_of_app; by left)); nia].
    intros h Hh. apply Hl, elem_of_app. by left. }
  rewrite run_bind, Hrun, run_ret. eexists _, _. split; [done|]. split; [|exact Hw1].
  rewrite <-(cnt_total _ _ Hb). apply counted_add; done.
Qed.

Lemma guardian_at_reweighed s i : 0 <= i -> reweighed c s0 s -> guardian_at c s i = guardian_at c s0 i.
Proof. intros Hi Hs. unfold guardian_at. by rewrite (Hs (OfIndex GuardianAt i)). Qed.

Lemma run_getGuardianAtIndex i w :
  run call_method e (_getGuardianAtIndex i) w = (Returned (guardian_at (e_contract e) (w_store w) i), w).
Proof. done. Qed.

Lemma run_cast_loop n from l b w :
  0 <= from -> guardians c s0 = l ++ map (guardian_at c s0) (indices from n) -> counted l b -> reweighed c s0 (w_store w) ->
  exists b' w', run call_method e (for_loop n from (fun i b =>
      guardian ← _getGuardianAtIndex i;
      match gs !! guardian with
      | Some guardianStake => cast_vote (S (size ds)) g2d ds guardian guardianStake b
      | None => mret b
      end) b) w = (Returned b', w') /\ counted (guardians c s0) b' /\ reweighed c s0 (w_store w').
Proof.
  revert from l b w. induction n as [|n IH]; intros from l b w Hfrom Hl Hb Hw; cbn [for_loop].
  - exists b, w. split; [done|]. rewrite Hl. cbn. by rewrite app_nil_r.
  - rewrite indices_S in Hl. cbn [map] in Hl. set (g := guardian_at c s0 from) in *.
    assert (g ∈ guardians c s0) as Hg by (rewrite Hl; apply elem_of_app; right; by left).
    assert (guardians c s0 = (l ++ [g]) ++ map (guardian_at c s0) (indices (from + 1) n)) as Hl'
      by (by rewrite Hl, <-app_assoc).
    rewrite run_bind, run_bind, run_getGuardianAtIndex. fold c. rewrite guardian_at_reweighed by done.
    fold g. rewrite gs_spec, (bool_decide_true (g ∈ _)) by done. cbn [andb]. destruct (voted c s0 g) eqn:Hv.
    + destruct (run_cast_vote l g b w) as (b' & w' & Hrun & Hb' & Hw'); try done.
      * rewrite Hl' in guardians_nodup. by apply NoDup_app in guardians_nodup as (? & _).
      * intros h Hh. rewrite Hl'. apply elem_of_app. by left.
      * rewrite Hrun. by apply (IH _ (l ++ [g])); [lia|..].
    + rewrite run_ret. apply (IH _ (l ++ [g])); [lia|done|by apply counted_skip|done].
Qed.

Lemma run_guardiansCastVotes w :
  w_store w = s0 ->
  exists b w', run call_method e (_guardiansCastVotes gs g2d ds) w = (Returned b, w') /\
    counted (guardians c s0) b /\ reweighed c s0 (w_store w').
Proof.
  intros Hw. unfold _guardiansCastVotes, _getNumberOfGuardians. rewrite run_bind, run_ReadUint32, run_bind, Hw.
  destruct (run_cast_loop (Z.to_nat (uint32_value (val c s0 (Single GuardianCount)))) 0 [] (mkBallot ∅ 0 [] ∅ ∅) w)
    as (b & w' & Hrun & Hb & Hw'); [done|done|apply counted_nil|by rewrite Hw|].
  change (stored s0 (e_contract e) _formatNumberOfGuardians) with (val c s0 (Single GuardianCount)). rewrite Hrun.
  unfold _setTotalStake. rewrite run_bind, run_WriteUint64, run_ret. eexists _, _. split; [done|]. split; [done|].
  eapply reweighed_trans; [exact Hw'|]. apply reweighed_total.
Qed.

End Cast.

(** ** The count *)

Section Count.
Context `{Sha256} `{ContractSdkLaws}.
Variable call_method : call_env -> bytes -> bytes -> list Argument -> world -> reply (list Argument) * world.
Variables (e : call_env) (w : world) (M : Z).
Let c := e_contract e.
Let s := w_store w.

(** The state of an election that can be counted: the guardians are distinct
    addresses, none votes against more than [M] candidates, and the stakes, counted
    [M] times, do not overflow. *)
Record countable_election : Prop := {
  ce_nodup : NoDup (guardians c s);
  ce_valid : Forall valid_bytes (guardians c s);
  ce_candidates g : g ∈ guardians c s -> Z.of_nat (length (candidates_of c s g)) <= M;
  ce_positive : 1 <= M;
  ce_stakes : M * sum_of (stake_of e s) (voting c s ++ delegator_list c s) < 2 ^ 64
}.

Lemma run_calculateVotes :
  countable_election ->
  exists D g2d b w', run call_method e _calculateVotes w = (Returned b, w') /\
    NoDup D /\ (forall d, d ∈ D <-> d ∈ delegator_list c s /\ (d ∉ guardians c s)) /\
    (forall g, default [] (g2d !! g) = filter (fun d => agent c s d = g /\ agent c s d <> d) D) /\
    counted e s D g2d (guardians c s) b /\ reweighed c s (w_store w').
Proof.
  intros [Hnd Hval Hcand HM Hst]. unfold _calculateVotes.
  rewrite run_bind, run_getGuardians.
  destruct (run_collectGuardiansStake call_method e w) as (gs & Hgs & Hgs_spec). rewrite run_bind, Hgs.
  destruct (run_collectDelegatorsStake call_method e w) as (D & ds & Hds & (HDnd & HDg & Hds_spec) & HD).
  rewrite run_bind, Hds. cbn [fst snd].
  destruct (run_findGuardianDelegators call_method e w D) as (g2d & Hg2d & Hg2d_spec). rewrite run_bind, Hg2d.
  destruct (run_guardiansCastVotes call_method e s D ds g2d gs HDnd HD Hds_spec Hg2d_spec Hgs_spec Hnd Hval M HM Hcand)
    with (w := w) as (b & w' & Hrun & Hb & Hw'); [|done|].
  - eapply Z.le_lt_trans; [apply Z.mul_le_mono_nonneg_l; [lia|]|apply Hst].
    apply sum_of_submseteq; [apply stake_of_bound|]. apply submseteq_skips_l, NoDup_submseteq; [done|].
    intros d Hd. by apply HD.
  - by exists D, g2d, b, w'.
Qed.

(** Who takes part. *)
Lemma participants_spec D g2d p :
  NoDup D -> (forall d, d ∈ D <-> d ∈ delegator_list c s /\ (d ∉ guardians c s)) ->
  (forall g, default [] (g2d !! g) = filter (fun d => agent c s d = g /\ agent c s d <> d) D) ->
  p ∈ participants_of e s D g2d (guardians c s) <->
  p ∈ voting c s \/ exists g, g ∈ voting c s /\ represented c s p g.
Proof.
  intros HDnd HD Hg2d. rewrite elem_of_participants. unfold voting. split.
  - intros (g & Hg & Hv & [->|Hp]); [left; by apply list_elem_of_filter|right]. exists g.
    split; [by apply list_elem_of_filter|].
    apply (represented_height c s D p g HD Hg), (delegators_of_spec e s D g2d HDnd HD Hg2d g Hg), Hp.
  - intros [[Hv Hp]%list_elem_of_filter|(g & [Hv Hg]%list_elem_of_filter & Hr)]; [exists p; auto|].
    exists g. split_and!; [done..|]. right.
    by apply (delegators_of_spec e s D g2d HDnd HD Hg2d g Hg), (represented_height c s D p g HD Hg).
Qed.

(** C19. The votes of an election are counted, and counted once: whatever delegations
    the state holds - chains of any length, cycles, delegations of guardians -
    _calculateVotes returns (its recursion ends within one more level than there are
    delegators); no address takes part twice; an address takes part exactly if it is
    a guardian that voted, or a delegator that one of them represents; it takes part
    with the stake that was read for it; and the total is the sum of these stakes. *)
Theorem calculateVotes_exact :
  countable_election ->
  exists b w', run call_method e _calculateVotes w = (Returned b, w') /\
    NoDup (participants b) /\
    (forall p, p ∈ participants b <->
       p ∈ voting c s \/ exists g, g ∈ voting c s /\ represented c s p g) /\
    (forall p, p ∈ participants b -> value_at (participantStakes b) p = stake_of e s p) /\
    totalVotes b = sum_of (value_at (participantStakes b)) (participants b).
Proof.
  intros Hce. destruct (run_calculateVotes Hce) as (D & g2d & b & w' & Hrun & HDnd & HD & Hg2d & Hb & _).
  exists b, w'. split; [done|]. rewrite (cnt_participants _ _ _ _ _ _ Hb).
  assert (forall p, p ∈ participants_of e s D g2d (guardians c s) -> value_at (participantStakes b) p = stake_of e s p) as Hst.
  { intros p Hp. unfold value_at. by rewrite (cnt_stakes _ _ _ _ _ _ Hb), bool_decide_true. }
  split_and!; [|intros p|done|].
  - apply (participants_nodup e s D g2d HDnd HD Hg2d); [apply Hce|done].
  - by apply participants_spec.
  - rewrite (cnt_total _ _ _ _ _ _ Hb). symmetry. by apply sum_of_ext.
Qed.

End Count.

(** ** An election *)

Module Election.
Import ExampleSdk.
#[local] Existing Instance crypto_sha256.

Definition env : call_env := mkEnv (go_string "_Elections") [] (address 9) 5 0 0 (address 9) [] no_ethereum.

(** Two guardians; the first voted against one candidate; [3] delegated to it, [4] to
    [3]; [5] and [6] delegated to each other. *)
Definition delegate (i : Z) (delegator agent : bytes) (stake : Z) : prog unit :=
  _ ← _setDelegatorAtIndex i delegator;
  _ ← WriteBytes (_formatDelegatorAgentKey delegator) agent;
  WriteUint64 (_formatDelegatorStakeKey delegator) stake.
Definition setup : prog unit :=
  _ ← _setGuardians [address 1; address 2];
  _ ← _setGuardianStake (address 1) 1000;
  _ ← _setGuardianVoteBlockNumber (address 1) 10;
  _ ← _setCandidates (address 1) [address 12];
  _ ← _setNumberOfDelegators 4;
  _ ← delegate 0 (address 3) (address 1) 200;
  _ ← delegate 1 (address 4) (address 3) 50;
  _ ← delegate 2 (address 5) (address 6) 70;
  delegate 3 (address 6) (address 5) 70.
Definition world0 : world := snd (run no_calls env setup (mkWorld ∅ [])).

Lemma world0_guardians : guardians (e_contract env) (w_store world0) = [address 1; address 2].
Proof. vm_compute. reflexivity. Qed.

Lemma world0_countable : countable_election env world0 1.
Proof.
  split; rewrite ?world0_guardians.
  - by apply (bool_decide_unpack (NoDup _)).
  - repeat constructor; lia.
  - intros g [-> | [-> | []%elem_of_nil]%elem_of_cons]%elem_of_cons; vm_compute; discriminate.
  - lia.
  - vm_compute. reflexivity.
Qed.

Lemma calculateVotes_exact_witness :
  countable_election env world0 1 /\
  exists b w', run no_calls env _calculateVotes world0 = (Returned b, w') /\ address 4 ∈ participants b.
Proof.
  split; [apply world0_countable|].
  destruct (calculateVotes_exact no_calls env world0 1 world0_countable) as (b & w' & Hrun & _ & Hin & _).
  exists b, w'. split; [exact Hrun|]. apply Hin. right. exists (address 1).
  split; [apply (bool_decide_unpack (address 1 ∈ _)); vm_compute; reflexivity|].
  assert (forall d, bool_decide (d ∈ delegator_list (e_contract env) (w_store world0)) = true ->
    bool_decide (d ∉ guardians (e_contract env) (w_store world0)) = true ->
    forall g, agent (e_contract env) (w_store world0) d = g -> represented (e_contract env) (w_store world0) d g) as Hdirect.
  { intros d ?%bool_decide_eq_true_1 ?%bool_decide_eq_true_1 g <-. by apply represented_direct. }
  apply represented_through; [apply (bool_decide_unpack (_ ∈ _)); vm_compute; reflexivity
    |apply (bool_decide_unpack (_ ∉ _)); vm_compute; reflexivity|].
  apply Hdirect; vm_compute; reflexivity.
Defined.
End Election.
