(* ===== verification/ElectionResults.v ===== *)
(** * The results of an election

    What the contract does with the votes it has counted: the guardians of the excellence program do not depend on the order in
    which Go ranges over a map, the rewards stay within their budget, and the results
    hold from the block height on at which the election takes effect. *)
From stdpp Require Import base gmap strings numbers list fin_maps sorting.
From Stdlib Require Import ZArith Lia ZifyBool.
From S2P Require Import Prelude Hash Encoding VirtualMachine ContractSdk Elections ElectionKeys ElectionVotes.
Import VirtualMachine Elections.

(** ** The order of the guardians *)

Lemma not_after_iff x y :
  not_after x y <-> y.2 < x.2 \/ (y.2 = x.2 /\ bytes_compare y.1 x.1 <> Gt).
Proof.
  unfold not_after, Less. destruct (bytes_compare y.1 x.1) eqn:E; rewrite ?andb_true_r, ?andb_false_r, ?orb_false_r.
  - split; [|lia]. intros Hl. destruct (Z.eq_dec y.2 x.2); [by right|left; lia].
  - split; [|lia]. intros Hl. destruct (Z.eq_dec y.2 x.2); [by right|left; lia].
  - split; [intros Hl; left; lia|]. intros [?|[_ []]]; [lia|done].
Qed.

#[export] Instance not_after_total : Total not_after.
Proof.
  intros x y. rewrite !not_after_iff, (bytes_compare_antisym x.1 y.1).
  destruct (Z.lt_trichotomy x.2 y.2) as [?|[?|?]]; [tauto| |tauto].
  destruct (bytes_compare x.1 y.1); cbn [CompOpp]; naive_solver.
Qed.

#[export] Instance not_after_trans : Transitive not_after.
Proof.
  intros x y z. rewrite !not_after_iff. intros [?|[? Hxy]] [?|[? Hyz]]; [left; lia..|right].
  split; [lia|]. by eapply bytes_compare_trans.
Qed.

#[export] Instance not_after_antisymm : AntiSymm (=) not_after.
Proof.
  intros [x n] [y m]. rewrite !not_after_iff. cbn [fst snd]. rewrite (bytes_compare_antisym x y). intros Hxy Hyx.
  assert (n = m) as -> by lia. assert (bytes_compare x y = Eq) as ->%bytes_compare_eq; [|done].
  destruct Hxy as [?|[_ Hxy]]; [lia|]. destruct Hyx as [?|[_ Hyx]]; [lia|]. by destruct (bytes_compare x y).
Qed.

Lemma guardian_order_unique l l' : l ≡ₚ l' -> merge_sort not_after l = merge_sort not_after l'.
Proof.
  intros Hl. apply (Sorted_unique not_after); [apply (Sorted_merge_sort _ _)..|]. by rewrite !merge_sort_Permutation.
Qed.

Section Determinism.
Context `{Sha256} `{ContractSdk}.
Variable call_method : call_env -> bytes -> bytes -> list Argument -> world -> reply (list Argument) * world.
Variable e : call_env.

Lemma run_bind_ext {A B} (m : prog A) (k k' : A -> prog B) w :
  (forall a w, run call_method e (k a) w = run call_method e (k' a) w) ->
  run call_method e (m ≫= k) w = run call_method e (m ≫= k') w.
Proof. intros Hk. rewrite !run_bind. by destruct (run call_method e m w) as [[a|v] w']. Qed.

Variables range range' : gmap bytes Z -> list guardianVote.

Hypothesis range_all : forall m, range m ≡ₚ map_to_list m.
Hypothesis range'_all : forall m, range' m ≡ₚ map_to_list m.

Lemma processVotingStateMachine_order abi fuel w :
  run call_method e (_processVotingStateMachine abi range fuel) w
  = run call_method e (_processVotingStateMachine abi range' fuel) w.
Proof.
  unfold _processVotingStateMachine. apply run_bind_ext. clear w. intros s w.
  do 6 (case_bool_decide; [try done|]); try done.
  do 2 (apply run_bind_ext; clear w; intros ? w). unfold _processRewards, _processRewardsGuardians, _getTopGuardians.
  rewrite (guardian_order_unique (range _) (range' (guardiansAccumulatedStakes a))); [done|]. by rewrite range_all, range'_all.
Qed.

(** The result of processVoting does not depend on the order in which Go ranges
    over a map, which differs from node to node: whichever orders two nodes range
    in, their calls return the same and leave the same state and events. *)
Lemma processVoting_deterministic abi fuel w :
  run call_method e (processVoting abi range fuel) w = run call_method e (processVoting abi range' fuel) w.
Proof.
  do 3 (apply run_bind_ext; clear w; intros ? w; try case_match; try done).
  by rewrite !run_bind, processVotingStateMachine_order.
Qed.
End Determinism.

(** ** Rewards *)

Section Rewards.
Context `{Sha256} `{ContractSdkLaws}.
Variable call_method : call_env -> bytes -> bytes -> list Argument -> world -> reply (list Argument) * world.
Variable e : call_env.
Let c := e_contract e.

Lemma checked_in r : is_u64 r -> checked 64 r = Some r.
Proof. unfold checked, is_u64. intros Hr. by rewrite (proj2 (Z.leb_le 0 r)), (proj2 (Z.ltb_lt r _)) by lia. Qed.

Lemma run_safe_mul x y w :
  is_u64 x -> is_u64 y -> is_u64 (x * y) -> run call_method e (safe (safeuint64_Mul x y)) w = (Returned (x * y), w).
Proof. intros Hx Hy Hm. by rewrite safeuint64_Mul_spec, checked_in. Qed.

Lemma run_safe_div x y w :
  is_u64 x -> is_u64 y -> y <> 0 -> run call_method e (safe (safeuint64_Div x y)) w = (Returned (x / y), w).
Proof. intros Hx Hy Hm. by rewrite safeuint64_Div_spec, (proj2 (Z.eqb_neq y 0)). Qed.

(** The number of elections in a year, times 100. *)
Definition annual_factor (s : store) : Z :=
  if uint32_value (val c s (Single IsTimeBased)) =? 1 then ANNUAL_TO_ELECTION_FACTOR_TIMEBASED
  else ANNUAL_TO_ELECTION_FACTOR_BLOCKBASED.

Lemma annual_factor_bound s : 11723 <= annual_factor s <= 12174.
Proof. unfold annual_factor. case_match; split; discriminate. Qed.

Lemma run_annualFactorize n w :
  is_u64 n -> run call_method e (_annualFactorize n) w = (Returned (n / annual_factor (w_store w)), w).
Proof.
  intros Hn. unfold _annualFactorize, _isTimeBasedElections. rewrite run_bind, run_bind, run_ReadUint32, run_ret.
  change (stored (w_store w) (e_contract e) _) with (val c (w_store w) (Single IsTimeBased)). cbn [fst snd].
  pose proof (annual_factor_bound (w_store w)). fold (annual_factor (w_store w)).
  apply run_safe_div; [done|unfold is_u64; lia|lia].
Qed.

(** The reward of a group: so many percent of its stake a year, at most the maximum. *)
Definition group_reward (s : store) (upperMaximum total percent : Z) : Z :=
  Z.min (total * percent / annual_factor s) (upperMaximum * 100 / annual_factor s).

Lemma run_maxRewardForGroup upperMaximum total percent w :
  is_u64 upperMaximum -> is_u64 (upperMaximum * 100) -> is_u64 total -> is_u64 percent -> is_u64 (total * percent) ->
  run call_method e (_maxRewardForGroup upperMaximum total percent) w
  = (Returned (group_reward (w_store w) upperMaximum total percent), w).
Proof.
  intros Hu Hu100 Ht Hp Htp. unfold _maxRewardForGroup, group_reward.
  rewrite run_bind, run_safe_mul by (done || unfold is_u64; lia). rewrite run_bind, run_annualFactorize by done.
  rewrite run_bind, run_safe_mul by done. rewrite run_bind, run_annualFactorize by done. rewrite run_ret.
  do 2 f_equal. case_match; lia.
Qed.

(** What an address has been given so far. *)
Definition given (f : field) (s : store) (a : bytes) : Z := uint64_value (val c s (OfAddress f a)).

Lemma run_addCumulativeReward f a reward w :
  is_u64 reward -> given f (w_store w) a + reward < 2 ^ 64 ->
  run call_method e (_addCumulativeReward (slot_key (OfAddress f a)) reward) w
  = (Returned tt, mkWorld (<[(c, slot_key (OfAddress f a)) := uint64_bytes (given f (w_store w) a + reward)]> (w_store w)) (w_events w)).
Proof.
  intros Hr Hsum. unfold _addCumulativeReward. rewrite run_bind, run_ReadUint64.
  change (uint64_value (stored _ _ _)) with (given f (w_store w) a).
  pose proof (uint64_bound (val c (w_store w) (OfAddress f a)) : is_u64 (given f (w_store w) a)) as Hb.
  rewrite run_bind, run_safe_add; [by rewrite run_WriteUint64|done..|]. unfold is_u64 in *. lia.
Qed.

(** The share of a member of the group, rounded down. *)
Definition share {X} (stake : X -> Z) (reward total : Z) (x : X) : Z := stake x * reward / total.

Lemma share_bound {X} (stake : X -> Z) reward total x :
  0 < total -> 0 <= reward -> 0 <= stake x <= total -> total * reward < 2 ^ 64 ->
  0 <= share stake reward total x <= reward /\ is_u64 (stake x * reward).
Proof.
  intros Ht Hr Hs Hsmall. unfold share, is_u64. split; [split|split].
  - apply Z.div_pos; nia.
  - apply Z.div_le_upper_bound; nia.
  - nia.
  - apply (Z.le_lt_trans _ (total * reward)); [|done]. apply Z.mul_le_mono_nonneg_r; lia.
Qed.

(** The loop of both groups: every member is given its share of the reward. *)
Section Shares.
Context {X : Type}.
Variables (f : field) (addr : X -> bytes) (stake : X -> Z) (reward total : Z).
Hypothesis f_address : has Hex f = true /\ has Dec f = false.
Hypothesis total_pos : 0 < total < 2 ^ 64.
Hypothesis reward_u64 : is_u64 reward.

Definition give (x : X) (_ : unit) : prog unit :=
  s ← safe (safeuint64_Mul (stake x) reward);
  r ← safe (safeuint64_Div s total);
  _addCumulativeReward (slot_key (OfAddress f (addr x))) r.

(** Their shares fit, and [s'] is [s] with them. *)
Definition fit (s : store) (l : list X) : Prop :=
  forall x, x ∈ l -> valid_bytes (addr x) /\ 0 <= stake x <= total /\ total * reward < 2 ^ 64 /\
                     given f s (addr x) + share stake reward total x < 2 ^ 64.
Definition shared (l : list X) (s s' : store) : Prop :=
  (forall x, x ∈ l -> given f s' (addr x) = given f s (addr x) + share stake reward total x) /\
  (forall y, slot_ok y -> (forall x, x ∈ l -> y <> OfAddress f (addr x)) -> val c s' y = val c s y).

Lemma run_give x w :
  fit (w_store w) [x] ->
  exists w', run call_method e (give x tt) w = (Returned tt, w') /\ shared [x] (w_store w) (w_store w').
Proof.
  intros Hfit. destruct (Hfit x ltac:(by left)) as (Hv & Hs & Hr & Hg). destruct (share_bound stake reward total x) as [Hsh Hm]; [apply total_pos|apply reward_u64|done..|].
  unfold give. rewrite run_bind, run_safe_mul by (done || unfold is_u64 in *; lia).
  rewrite run_bind, run_safe_div by (done || unfold is_u64 in *; lia). fold (share stake reward total x).
  assert (is_u64 (share stake reward total x)) by (unfold is_u64 in *; lia).
  rewrite run_addCumulativeReward by done. eexists. split; [done|].
  pose proof (uint64_bound (val c (w_store w) (OfAddress f (addr x))) : is_u64 (given f (w_store w) (addr x))) as Hb.
  assert (slot_ok (OfAddress f (addr x))) as Hok by (split_and!; [apply f_address..|done]). split; cbn [w_store].
  - intros x' ->%list_elem_of_singleton. unfold given. rewrite val_insert, bool_decide_true by done.
    fold (given f (w_store w) (addr x)). apply uint64_roundtrip. unfold is_u64 in *. lia.
  - intros y Hy Hne. rewrite val_insert by done. rewrite bool_decide_false; [done|]. apply Hne. by left.
Qed.

Lemma given_shared l s s' a :
  shared l s s' -> valid_bytes a -> (forall x, x ∈ l -> addr x <> a) -> given f s' a = given f s a.
Proof.
  intros [_ Hne] Ha Hl. unfold given. rewrite Hne; [done| |].
  - split_and!; [apply f_address..|done].
  - intros x Hx [= E]. by apply (Hl x Hx).
Qed.

Lemma run_give_all l w :
  NoDup (map addr l) -> fit (w_store w) l ->
  exists w', run call_method e (range_loop l give tt) w = (Returned tt, w') /\ shared l (w_store w) (w_store w').
Proof.
  revert w. induction l as [|x l IH]; intros w Hnd Hfit; cbn [range_loop].
  - exists w. split; [done|]. split; [by intros x ?%elem_of_nil|done].
  - cbn [map] in Hnd. apply NoDup_cons in Hnd as [Hx Hnd].
    assert (forall x', x' ∈ l -> addr x <> addr x') as Hd.
    { intros x' Hx' E. apply Hx. rewrite E. apply list_elem_of_fmap. by exists x'. }
    destruct (run_give x w) as (w1 & Hrun & Hsh); [intros x' ->%list_elem_of_singleton; apply Hfit; by left|].
    assert (forall x', x' ∈ l -> given f (w_store w1) (addr x') = given f (w_store w) (addr x')) as Hsame.
    { intros x' Hx'. eapply given_shared; [done|apply Hfit; by right|]. intros y ->%list_elem_of_singleton. by apply Hd. }
    rewrite run_bind, Hrun. destruct (IH w1 Hnd) as (w' & Hrun' & Hl & Hrest).
    { intros x' Hx'. rewrite Hsame by done. apply Hfit. by right. }
    exists w'. split; [done|]. split.
    + intros x' [->|Hx']%elem_of_cons; [|by rewrite Hl, Hsame].
      rewrite (given_shared l (w_store w1)); [apply Hsh; by left|done|apply Hfit; by left|]. intros y Hy E. by apply (Hd y Hy).
    + intros y Hy Hne. rewrite Hrest; [|done|intros x' Hx'; apply Hne; by right].
      apply Hsh; [done|]. intros x' ->%list_elem_of_singleton. apply Hne. by left.
Qed.
End Shares.

(** Shares are rounded down: together they are no more than the whole. *)
Lemma shares_total (stake : bytes -> Z) reward total l :
  0 < total -> 0 <= reward -> (forall x, 0 <= stake x) -> sum_of stake l <= total ->
  sum_of (share stake reward total) l <= reward.
Proof.
  intros Ht Hr Hs Hsum. apply (Z.le_trans _ (sum_of stake l * reward / total)); [|apply Z.div_le_upper_bound; nia].
  clear Hsum. induction l as [|x l IH]; [done|]. rewrite !sum_of_cons, Z.mul_add_distr_r. unfold share at 1.
  etransitivity; [apply Zplus_le_compat_l, IH|]. apply Z.div_le_lower_bound; [done|].
  pose proof (Z.mul_div_le (stake x * reward) total Ht). pose proof (Z.mul_div_le (sum_of stake l * reward) total Ht). lia.
Qed.

Lemma sum_of_nonneg' (stake : bytes -> Z) l : (forall x, 0 <= stake x) -> 0 <= sum_of stake l.
Proof. intros Hs. induction l as [|x l IH]; [done|]. rewrite sum_of_cons. specialize (Hs x). lia. Qed.

Lemma sum_of_elem (stake : bytes -> Z) l x : (forall x, 0 <= stake x) -> x ∈ l -> stake x <= sum_of stake l.
Proof.
  intros Hs. induction 1 as [x l|x y l _ IH]; rewrite sum_of_cons.
  - pose proof (sum_of_nonneg' stake l Hs). lia.
  - specialize (Hs y). lia.
Qed.

(** The budget of one election for those who took part. *)
Definition participation_reward (s : store) (total : Z) : Z :=
  group_reward s ELECTION_PARTICIPATION_MAX_REWARD total ELECTION_PARTICIPATION_MAX_STAKE_REWARD_PERCENT.

Lemma participation_reward_bound s total : 0 <= total -> 0 <= participation_reward s total <= 511814.
Proof.
  intros Ht. unfold participation_reward, group_reward. pose proof (annual_factor_bound s).
  assert (0 <= total * ELECTION_PARTICIPATION_MAX_STAKE_REWARD_PERCENT / annual_factor s).
  { apply Z.div_pos; unfold ELECTION_PARTICIPATION_MAX_STAKE_REWARD_PERCENT; lia. }
  assert (0 <= ELECTION_PARTICIPATION_MAX_REWARD * 100 / annual_factor s <= 511814); [|lia].
  split; [apply Z.div_pos; unfold ELECTION_PARTICIPATION_MAX_REWARD; lia|].
  apply Z.lt_succ_r, Z.div_lt_upper_bound; unfold ELECTION_PARTICIPATION_MAX_REWARD; lia.
Qed.

(** C36. The rewards of an election stay within their budget: for participants whose
    stakes add up to the total, _processRewardsParticipants returns; each one is given
    its part of the reward, rounded down; together they are given no more than the
    reward of the group, that is no more than 8 percent of their stake a year and no
    more than 60,000,000 a year; and nothing else in the state changes. *)
Theorem participation_rewards_within_budget ps stakes total w :
  NoDup ps -> Forall valid_bytes ps -> (forall p, 0 <= value_at stakes p) ->
  total = sum_of (value_at stakes) ps -> 0 < total -> total * 511814 < 2 ^ 64 ->
  (forall p, p ∈ ps -> given ParticipantReward (w_store w) p + 511814 < 2 ^ 64) ->
  let reward := participation_reward (w_store w) total in
  exists w', run call_method e (_processRewardsParticipants total ps stakes) w = (Returned tt, w') /\
    (forall p, p ∈ ps -> given ParticipantReward (w_store w') p
                       = given ParticipantReward (w_store w) p + value_at stakes p * reward / total) /\
    sum_of (fun p => given ParticipantReward (w_store w') p - given ParticipantReward (w_store w) p) ps <= reward /\
    reward * annual_factor (w_store w) <= total * 8 /\ reward * annual_factor (w_store w) <= 60000000 * 100 /\
    (forall y, slot_ok y -> (forall p, p ∈ ps -> y <> OfAddress ParticipantReward p) ->
       val c (w_store w') y = val c (w_store w) y).
Proof.
  intros Hnd Hval Hst -> Hpos Hsmall Hroom reward. set (total := sum_of _ _) in *.
  pose proof (participation_reward_bound (w_store w) total ltac:(lia)) as Hr. fold reward in Hr.
  assert (forall p, p ∈ ps -> value_at stakes p <= total) as Hle.
  { intros p. by apply sum_of_elem. }
  destruct (run_give_all ParticipantReward (fun p => p) (value_at stakes) reward total) with (l := ps) (w := w)
    as (w' & Hrun & Hgiven & Hframe); [done|lia|unfold is_u64; lia|by rewrite map_id| |].
  { intros p Hp. rewrite Forall_forall in Hval. specialize (Hval p Hp). specialize (Hle p Hp). specialize (Hst p).
    specialize (Hroom p Hp). destruct (share_bound (value_at stakes) reward total p) as [Hsh _]; [lia|lia|lia|nia|]. split_and!; [done|done|done|nia|lia]. }
  exists w'. unfold _processRewardsParticipants.
  rewrite run_bind, run_maxRewardForGroup
    by (unfold is_u64, ELECTION_PARTICIPATION_MAX_REWARD, ELECTION_PARTICIPATION_MAX_STAKE_REWARD_PERCENT; lia).
  split_and!; [exact Hrun|exact Hgiven| | | |exact Hframe].
  - etransitivity; [|apply (shares_total (value_at stakes) reward total ps); (lia || done)].
    apply Z.eq_le_incl, sum_of_ext. intros p Hp. rewrite Hgiven by done. lia.
  - pose proof (annual_factor_bound (w_store w)). pose proof (Z.mul_div_le (total * 8) (annual_factor (w_store w))).
    unfold reward, participation_reward, group_reward, ELECTION_PARTICIPATION_MAX_STAKE_REWARD_PERCENT. nia.
  - pose proof (annual_factor_bound (w_store w)). pose proof (Z.mul_div_le (60000000 * 100) (annual_factor (w_store w))).
    unfold reward, participation_reward, group_reward, ELECTION_PARTICIPATION_MAX_REWARD. nia.
Qed.
End Rewards.

(** ** An election without stake *)

Section NoStake.
Context `{Sha256} `{ContractSdkLaws}.
Variable call_method : call_env -> bytes -> bytes -> list Argument -> world -> reply (list Argument) * world.
Variable e : call_env.
Let c := e_contract e.

Definition fails {A} (m : prog A) : Prop := forall w, exists v w', run call_method e m w = (Panicked v, w').

Lemma fails_bind_l {A B} (m : prog A) (k : A -> prog B) : fails m -> fails (m ≫= k).
Proof. intros Hm w. destruct (Hm w) as (v & w' & Hrun). exists v, w'. by rewrite run_bind, Hrun. Qed.

Lemma fails_bind_r {A B} (m : prog A) (k : A -> prog B) : (forall a, fails (k a)) -> fails (m ≫= k).
Proof.
  intros Hk w. rewrite run_bind. destruct (run call_method e m w) as [[a|v] w']; [apply Hk|by exists v, w'].
Qed.

(** A share of a total of zero. *)
Lemma processRewardsParticipants_zero p ps stakes :
  is_u64 (value_at stakes p) -> fails (_processRewardsParticipants 0 (p :: ps) stakes).
Proof.
  intros Hp w. unfold _processRewardsParticipants.
  rewrite run_bind, run_maxRewardForGroup
    by (unfold is_u64, ELECTION_PARTICIPATION_MAX_REWARD, ELECTION_PARTICIPATION_MAX_STAKE_REWARD_PERCENT; lia).
  assert (group_reward e (w_store w) ELECTION_PARTICIPATION_MAX_REWARD 0 ELECTION_PARTICIPATION_MAX_STAKE_REWARD_PERCENT = 0) as ->.
  { unfold group_reward. cbn [Z.mul]. pose proof (annual_factor_bound e (w_store w)). rewrite Z.div_0_l by lia. apply Z.min_l.
    by apply Z.div_pos; unfold ELECTION_PARTICIPATION_MAX_REWARD; lia. }
  cbn [range_loop]. apply fails_bind_l. clear w. intros w. rewrite run_bind, run_safe_mul by (done || unfold is_u64; lia).
  apply fails_bind_l. intros w1. eexists _, _. rewrite safeuint64_Div_spec by (unfold is_u64; lia). reflexivity.
Qed.

End NoStake.

(** ** The elected validators by block height *)

Section Elected.
Context `{Sha256} `{ContractSdkLaws}.
Variable call_method : call_env -> bytes -> bytes -> list Argument -> world -> reply (list Argument) * world.
Variable e : call_env.
Let c := e_contract e.

Definition elections (s : store) : Z := uint32_value (val c s (Single ElectionsNumber)).
Definition effective_height (s : store) (n : Z) : Z := uint64_value (val c s (OfIndex ElectionBlockHeight n)).
Definition election_block (s : store) (n : Z) : Z := uint64_value (val c s (OfIndex ElectionBlockNumber n)).
Definition orbs_address (s : store) (v : bytes) : bytes := _addressSliceToArray (val c s (OfAddress ValidatorOrbs v)).

(** The result of the last election that is in effect at the height. *)
Fixpoint elected_at (s : store) (n : nat) (height : Z) : bytes :=
  match n with
  | O => []
  | S n' => if effective_height s (Z.of_nat n) <? height then val c s (OfIndex ElectionValidatorsOrbs (Z.of_nat n))
            else elected_at s n' height
  end.

Lemma run_heightByIndex n w :
  run call_method e (getElectedValidatorsBlockHeightByIndex n) w = (Returned (effective_height (w_store w) n), w).
Proof. done. Qed.

Lemma run_find_election n height w :
  run call_method e (find_election n getElectedValidatorsBlockHeightByIndex getElectedValidatorsOrbsAddressByIndex height) w
  = (Returned (elected_at (w_store w) n height), w).
Proof.
  induction n as [|n IH]; [done|]. cbn [find_election elected_at].
  rewrite run_bind, run_heightByIndex. case_match; [done|apply IH].
Qed.

Lemma run_ByBlockHeight height w :
  run call_method e (getElectedValidatorsOrbsAddressByBlockHeight height) w
  = (Returned (elected_at (w_store w) (Z.to_nat (elections (w_store w))) height), w).
Proof.
  unfold getElectedValidatorsOrbsAddressByBlockHeight, getNumberOfElections.
  rewrite run_bind, run_ReadUint32. apply run_find_election.
Qed.

Lemma run_translate elected w :
  run call_method e (_translateElectedAddressesToOrbsAddressesAndConcat elected) w
  = (Returned (concat (map (orbs_address (w_store w)) elected)), w).
Proof.
  unfold _translateElectedAddressesToOrbsAddressesAndConcat.
  rewrite (run_range_loop_read call_method e elected _ (fun v saved => saved ++ orbs_address (w_store w) v)) by done.
  do 2 f_equal. rewrite <-(app_nil_l (concat _)). generalize (@nil Z). induction elected as [|v l IH]; intros acc; cbn.
  - by rewrite app_nil_r.
  - by rewrite IH, <-app_assoc.
Qed.

Definition elected_store (s : store) (elected : list bytes) (time block height : Z) : store :=
  let n := elections s + 1 in
  <[(c, slot_key (Single ElectionsNumber)) := uint32_bytes n]>
  (<[(c, slot_key (OfIndex ElectionValidatorsEth n)) := concat elected]>
  (<[(c, slot_key (OfIndex ElectionValidatorsOrbs n)) := concat (map (orbs_address s) elected)]>
  (<[(c, slot_key (OfIndex ElectionBlockHeight n)) := uint64_bytes (height + 1)]>
  (<[(c, slot_key (OfIndex ElectionBlockNumber n)) := uint64_bytes block]>
  (<[(c, slot_key (OfIndex ElectionTime n)) := uint64_bytes time]> s))))).

Lemma elections_bound s : is_u32 (elections s).
Proof. apply uint32_bound. Qed.

Lemma run_setElectedValidators elected time block w :
  elections (w_store w) + 1 < 2 ^ 32 -> election_block (w_store w) (elections (w_store w)) <= block ->
  0 <= e_height e < 2 ^ 64 - 1 -> Forall valid_bytes elected ->
  run call_method e (_setElectedValidators elected time block) w
  = (Returned tt, mkWorld (elected_store (w_store w) elected time block (e_height e)) (w_events w)).
Proof.
  intros Hn Hblock Hh Hval. pose proof (elections_bound (w_store w)) as Hb. unfold is_u32 in Hb.
  unfold _setElectedValidators. rewrite run_bind. change (run _ _ getNumberOfElections w) with (Returned (elections (w_store w)), w).
  cbv iota beta. set (n := elections (w_store w)) in *. rewrite run_bind.
  change (run _ _ (getElectedValidatorsBlockNumberByIndex n) w) with (Returned (election_block (w_store w) n), w). cbv iota beta.
  replace (election_block (w_store w) n >? block) with false by lia. cbv zeta. unfold u32_add. rewrite wrap_small by lia.
  unfold _setElectedValidatorsTimeInNanosAtIndex, _setElectedValidatorsBlockNumberAtIndex,
    _setElectedValidatorsBlockHeightAtIndex, _setElectedValidatorsOrbsAddressAtIndex,
    _setElectedValidatorsEthereumAddressAtIndex, _setNumberOfElections.
  do 2 (rewrite run_bind, run_WriteUint64). rewrite run_bind, run_perform. cbn [step].
  rewrite run_bind, run_WriteUint64. unfold u64_add, TRANSITION_PERIOD_LENGTH_IN_BLOCKS. rewrite wrap_small by lia.
  rewrite run_bind, run_translate. do 2 (rewrite run_bind, run_WriteBytes). rewrite run_WriteUint32.
  cbn [w_store w_events]. unfold elected_store. fold n. do 3 f_equal. f_equal. f_equal. f_equal.
  apply map_ext_in. intros v Hv%list_elem_of_In. rewrite Forall_forall in Hval. specialize (Hval v Hv).
  unfold orbs_address. f_equal.
  change (_formatElectionBlockHeight (n + 1)) with (slot_key (OfIndex ElectionBlockHeight (n + 1))).
  change (_formatElectionBlockNumber (n + 1)) with (slot_key (OfIndex ElectionBlockNumber (n + 1))).
  change (_formatElectionTimeInNanos (n + 1)) with (slot_key (OfIndex ElectionTime (n + 1))).
  by slots.
Qed.

Lemma elected_at_new s elected time block height n x :
  elections s + 1 < 2 ^ 32 -> (Z.of_nat n <= elections s) ->
  elected_at (elected_store s elected time block height) n x = elected_at s n x.
Proof.
  intros Hs. pose proof (elections_bound s) as Hb. unfold is_u32 in Hb.
  induction n as [|n IH]; intros Hn; [done|]. cbn [elected_at]. rewrite IH by lia.
  unfold effective_height, elected_store. cbv zeta. set (m := elections s) in *.
  assert (0 <= Z.of_nat (S n) /\ Z.of_nat (S n) <> m + 1) as [Hk Hne] by lia. generalize dependent (Z.of_nat (S n)). intros k _ Hk Hne.
  by slots.
Qed.


Lemma elections_new s elected time block height :
  elections s + 1 < 2 ^ 32 -> elections (elected_store s elected time block height) = elections s + 1.
Proof.
  intros Hs. pose proof (elections_bound s) as Hb. unfold is_u32 in Hb. unfold elections at 1, elected_store. cbv zeta.
  rewrite val_insert_eq. apply uint32_roundtrip. unfold is_u32. lia.
Qed.

Lemma elected_at_last s elected time block height n x :
  elections s + 1 < 2 ^ 32 -> 0 <= height < 2 ^ 64 - 1 -> Z.of_nat (S n) = elections s + 1 ->
  elected_at (elected_store s elected time block height) (S n) x
  = if height + 1 <? x then concat (map (orbs_address s) elected) else elected_at s n x.
Proof.
  intros Hs Hh Hn. pose proof (elections_bound s) as Hb. unfold is_u32 in Hb.
  cbn [elected_at]. rewrite elected_at_new by lia. rewrite Hn.
  unfold effective_height, elected_store. cbv zeta. set (m := elections s) in *. slots.
  rewrite val_insert_eq. slots. rewrite val_insert_eq. by rewrite uint64_roundtrip by (unfold is_u64; lia).
Qed.

(** The results of an election hold from the block height on at which it takes
    effect, one block after the block that ends it, and until then the results of the
    earlier elections go on to hold: for every height, a lookup after
    _setElectedValidators returns the Orbs addresses of the elected validators if the
    height is above, and what the lookup returned before otherwise. *)
Theorem elected_validators_take_effect elected time block w :
  elections (w_store w) + 1 < 2 ^ 32 -> election_block (w_store w) (elections (w_store w)) <= block ->
  0 <= e_height e < 2 ^ 64 - 1 -> Forall valid_bytes elected ->
  exists w', run call_method e (_setElectedValidators elected time block) w = (Returned tt, w') /\
    elections (w_store w') = elections (w_store w) + 1 /\
    forall height, exists before,
      run call_method e (getElectedValidatorsOrbsAddressByBlockHeight height) w = (Returned before, w) /\
      run call_method e (getElectedValidatorsOrbsAddressByBlockHeight height) w'
      = (Returned (if e_height e + 1 <? height then concat (map (orbs_address (w_store w)) elected) else before), w').
Proof.
  intros Hn Hblock Hh Hval. eexists. split; [by apply run_setElectedValidators|]. cbn [w_store].
  rewrite elections_new by done. split; [done|]. intros height. eexists. split; [apply run_ByBlockHeight|].
  rewrite run_ByBlockHeight. cbn [w_store]. rewrite elections_new by done.
  pose proof (elections_bound (w_store w)) as Hb. unfold is_u32 in Hb.
  rewrite <-(elected_at_last (w_store w) elected time block) by (done || lia). do 2 f_equal. f_equal. lia.
Qed.
End Elected.

(** ** Elections *)

Module Results.
Import ExampleSdk ElectionVotes.Election.
#[local] Existing Instance crypto_sha256.

Definition no_abis : abis := mkAbis [] [] [] [] [] [].

Lemma participation_rewards_within_budget_witness :
  exists w', run no_calls env (_processRewardsParticipants 1000 [address 1; address 3]
               (<[address 1 := 600]> (<[address 3 := 400]> ∅))) world0 = (Returned tt, w') /\
    given env ParticipantReward (w_store w') (address 1) = 0.
Proof.
  destruct (participation_rewards_within_budget no_calls env [address 1; address 3]
    (<[address 1 := 600]> (<[address 3 := 400]> ∅)) 1000 world0) as (w' & Hrun & Hgiven & _).
  - by apply (bool_decide_unpack (NoDup _)).
  - repeat constructor; lia.
  - intros p. rewrite !value_at_insert. do 2 (case_bool_decide; [lia|]). reflexivity || (unfold value_at; by rewrite lookup_empty).
  - vm_compute. reflexivity.
  - lia.
  - lia.
  - intros p [-> | [-> | []%elem_of_nil]%elem_of_cons]%elem_of_cons; vm_compute; reflexivity.
  - exists w'. split; [exact Hrun|]. rewrite Hgiven by (by left). vm_compute. reflexivity.
Defined.

(** The guardian that voted has sold its stake. *)
Definition unstaked : world :=
  snd (run no_calls env
    (_ ← _setGuardians [address 1];
     _ ← _setGuardianVoteBlockNumber (address 1) 10;
     _ ← _setCandidates (address 1) [address 12];
     _setVotingProcessState VOTING_PROCESS_STATE_CALCULATIONS) (mkWorld ∅ [])).

Lemma unstaked_countable : countable_election env unstaked 1.
Proof.
  assert (guardians (e_contract env) (w_store unstaked) = [address 1]) as Hg by (vm_compute; reflexivity).
  split; rewrite ?Hg.
  - apply NoDup_singleton.
  - repeat constructor; lia.
  - intros g ->%list_elem_of_singleton. vm_compute. discriminate.
  - lia.
  - vm_compute. reflexivity.
Qed.


Lemma elected_validators_take_effect_witness :
  exists w', run no_calls env (_setElectedValidators [address 12] 7 8) world0 = (Returned tt, w') /\
    run no_calls env (getElectedValidatorsOrbsAddressByBlockHeight 7) w' = (Returned (address 0), w').
Proof.
  destruct (elected_validators_take_effect no_calls env [address 12] 7 8 world0) as (w' & Hrun & _ & Hlookup).
  - vm_compute. reflexivity.
  - vm_compute. discriminate.
  - cbn. lia.
  - repeat constructor; lia.
  - exists w'. split; [exact Hrun|]. destruct (Hlookup 7) as (before & _ & ->). vm_compute. reflexivity.
Defined.
End Results.
