(* ===== verification/ElectionMirror.v ===== *)
(** * The mirrored delegations

    Anyone may mirror a delegation of Ethereum into the state of the elections
    contract, in any order.  For every delegator the state keeps the latest one, and
    the list of the delegators has each of them once. *)
From stdpp Require Import base gmap strings numbers list fin_maps sorting.
From Stdlib Require Import ZArith Lia ZifyBool.
From S2P Require Import Prelude Hash Encoding VirtualMachine ContractSdk Elections ElectionKeys ElectionVotes.
Import VirtualMachine Elections.

(** ** Delegations *)

Record delegation := mkDelegation {
  d_delegator : bytes;
  d_agent : bytes;
  d_block : Z;
  d_index : Z;
  d_name : bytes
}.

#[export] Instance delegation_eq_dec : EqDecision delegation.
Proof. solve_decision. Defined.

(** An event of Ethereum: no event is in block zero. *)
Record event_ok (d : delegation) : Prop := {
  ok_delegator : valid_bytes (d_delegator d) /\ length (d_delegator d) = 20%nat;
  ok_agent : length (d_agent d) = 20%nat;
  ok_block : 0 < d_block d < 2 ^ 64;
  ok_index : is_u32 (d_index d);
  ok_name : d_name d = DELEGATION_NAME \/ d_name d = DELEGATION_BY_TRANSFER_NAME
}.

(** A delegation replaces another one: one by the method of the voting contract
    replaces one by transfer, and among those of a kind a later one an earlier one. *)
Definition replaces (new old : delegation) : bool :=
  (bool_decide (d_name old = DELEGATION_BY_TRANSFER_NAME) && bool_decide (d_name new = DELEGATION_NAME))
  || (bool_decide (d_name old = d_name new)
      && ((d_block old <? d_block new) || ((d_block old =? d_block new) && (d_index old <? d_index new)))).

Lemma replaces_irrefl d : replaces d d = false.
Proof.
  unfold replaces. rewrite Z.ltb_irrefl, Z.ltb_irrefl, !andb_false_r, orb_false_r. cbn [orb].
  destruct (bool_decide_reflect (d_name d = DELEGATION_BY_TRANSFER_NAME)) as [->|_]; [|done].
  by rewrite bool_decide_false.
Qed.

Lemma replaces_trans x y z : replaces x y = true -> replaces y z = true -> replaces x z = true.
Proof.
  unfold replaces. rewrite !orb_true_iff, !andb_true_iff, !bool_decide_eq_true.
  intros [[Hy Hx]|[Exy Hxy]] [[Hz Hy']|[Eyz Hyz]].
  - by rewrite Hy in Hy'.
  - left. by rewrite Eyz.
  - left. by rewrite <-Exy.
  - right. split; [congruence|lia].
Qed.

(** The agent that is stored: none for a delegation to oneself. *)
Definition stored_agent (d : delegation) : bytes :=
  if bool_decide (d_delegator d = d_agent d) then replicate 20 0 else d_agent d.

Lemma address_array a : length a = 20%nat -> _addressSliceToArray a = a.
Proof. intros Ha. unfold _addressSliceToArray. rewrite Ha, take_ge by lia. cbn. apply app_nil_r. Qed.

Section Mirror.
Context `{Sha256} `{ContractSdkLaws}.
Variable call_method : call_env -> bytes -> bytes -> list Argument -> world -> reply (list Argument) * world.
Variable e : call_env.
Let c := e_contract e.

(** A transaction that mirrors: a panic undoes it. *)
Definition mirror (w : world) (d : delegation) : world :=
  match run call_method e (_mirrorDelegationData (d_delegator d) (d_agent d) (d_block d) (d_index d) (d_name d)) w with
  | (Returned _, w') => w'
  | (Panicked _, _) => w
  end.

Definition count (s : store) : Z := uint32_value (val c s (Single DelegatorCount)).
Definition method (s : store) (a : bytes) : bytes := val c s (OfAddress DelegatorMethod a).

Definition appended (s : store) (a : bytes) : store :=
  <[(c, slot_key (Single DelegatorCount)) := uint32_bytes (wrap 32 (count s + 1))]>
  (<[(c, slot_key (OfIndex DelegatorAt (count s))) := a]> s).
Definition recorded (s : store) (d : delegation) : store :=
  <[(c, slot_key (OfAddress DelegatorMethod (d_delegator d))) := d_name d]>
  (<[(c, slot_key (OfAddress DelegatorBlockTxIndex (d_delegator d))) := uint32_bytes (d_index d)]>
  (<[(c, slot_key (OfAddress DelegatorBlockNumber (d_delegator d))) := uint64_bytes (d_block d)]>
  (<[(c, slot_key (OfAddress DelegatorAgent (d_delegator d))) := stored_agent d]> s))).

(** The state has the delegation. *)
Record holds (s : store) (d : delegation) : Prop := {
  h_method : method s (d_delegator d) = d_name d;
  h_block : uint64_value (val c s (OfAddress DelegatorBlockNumber (d_delegator d))) = d_block d;
  h_index : uint32_value (val c s (OfAddress DelegatorBlockTxIndex (d_delegator d))) = d_index d;
  h_agent : val c s (OfAddress DelegatorAgent (d_delegator d)) = stored_agent d
}.

Lemma run_mirror w d r :
  run call_method e (stored_delegation (d_delegator d) (d_block d) (d_index d) (d_name d)) w = (r, w) ->
  mirror w d = match r with
               | Returned n => mkWorld (recorded (if n =? 0 then appended (w_store w) (d_delegator d) else w_store w) d) (w_events w)
               | Panicked _ => w
               end.
Proof.
  intros Hr. unfold mirror, _mirrorDelegationData. rewrite run_bind, Hr. destruct r as [n|v]; [|done].
  unfold _getNumberOfDelegators, _setDelegatorAtIndex, _setNumberOfDelegators. rewrite run_bind.
  destruct (n =? 0); [rewrite run_bind, run_ReadUint32, run_bind, run_WriteBytes, run_WriteUint32|rewrite run_ret];
    cbv zeta; rewrite run_bind, run_WriteBytes, run_bind, run_WriteUint64, run_bind, run_WriteUint32, run_WriteBytes; reflexivity.
Qed.

Lemma names_differ : DELEGATION_NAME <> DELEGATION_BY_TRANSFER_NAME.
Proof. discriminate. Qed.

Lemma mirror_first w d :
  event_ok d -> method (w_store w) (d_delegator d) = [] ->
  mirror w d = mkWorld (recorded (appended (w_store w) (d_delegator d)) d) (w_events w).
Proof.
  intros Hok Hm. rewrite (run_mirror w d (Returned 0)); [done|].
  unfold stored_delegation. rewrite run_bind, run_ReadBytes.
  change (stored _ _ _) with (method (w_store w) (d_delegator d)). rewrite Hm.
  by destruct (ok_name d Hok) as [-> | ->].
Qed.

Ltac decided := repeat first [rewrite bool_decide_true by done | rewrite bool_decide_false by discriminate]; cbn [andb orb].

Lemma run_stored_same w d old :
  d_delegator old = d_delegator d -> holds (w_store w) old -> d_name old = d_name d ->
  d_name d = DELEGATION_NAME \/ d_name d = DELEGATION_BY_TRANSFER_NAME ->
  exists v, run call_method e (stored_delegation (d_delegator d) (d_block d) (d_index d) (d_name d)) w
    = (if replaces d old then Returned (d_block old) else Panicked v, w).
Proof.
  intros Ed [Hm Hb Hi _] En Hn. rewrite Ed in Hm, Hb, Hi. rewrite En in Hm. unfold stored_delegation, replaces.
  rewrite run_bind, run_ReadBytes. change (stored _ _ _) with (method (w_store w) (d_delegator d)). rewrite Hm, En.
  eexists. destruct Hn as [-> | ->]; decided; rewrite run_bind, run_ReadUint64, run_bind, run_ReadUint32;
    change (uint64_value (stored _ _ _)) with (uint64_value (val c (w_store w) (OfAddress DelegatorBlockNumber (d_delegator d))));
    change (uint32_value (stored _ _ _)) with (uint32_value (val c (w_store w) (OfAddress DelegatorBlockTxIndex (d_delegator d))));
    rewrite Hb, Hi; case_match; case_match; try lia; by rewrite ?run_panics, ?run_ret.
Qed.

Lemma mirror_again w d old :
  event_ok d -> event_ok old -> d_delegator old = d_delegator d -> holds (w_store w) old ->
  mirror w d = if replaces d old then mkWorld (recorded (w_store w) d) (w_events w) else w.
Proof.
  intros Hok Hold Ed Hh. pose proof (ok_block d Hok). pose proof (ok_block old Hold).
  destruct (decide (d_name old = d_name d)) as [En|En].
  - destruct (run_stored_same w d old Ed Hh En (ok_name d Hok)) as [v Hrun]. rewrite (run_mirror w d _ Hrun).
    destruct (replaces d old); [|done]. by rewrite (proj2 (Z.eqb_neq (d_block old) 0)) by lia.
  - assert (method (w_store w) (d_delegator d) = d_name old) as Hm by (rewrite <-Ed; apply Hh).
    unfold replaces. rewrite (bool_decide_false (d_name old = d_name d)) by done. rewrite orb_false_r.
    destruct (ok_name d Hok) as [Hn|Hn], (ok_name old Hold) as [Ho|Ho]; rewrite Hn, Ho in *; try done; decided.
    + rewrite (run_mirror w d (Returned (d_block d))).
      * by rewrite (proj2 (Z.eqb_neq (d_block d) 0)) by lia.
      * unfold stored_delegation. rewrite run_bind, run_ReadBytes.
        change (stored _ _ _) with (method (w_store w) (d_delegator d)). rewrite Hm, Hn. by decided.
    + erewrite (run_mirror w d (Panicked _)); [done|]. unfold stored_delegation. rewrite run_bind, run_ReadBytes.
      change (stored _ _ _) with (method (w_store w) (d_delegator d)). rewrite Hm, Hn. by decided.
Qed.

(** ** What a record changes *)

Lemma holds_recorded s d : event_ok d -> holds (recorded s d) d.
Proof.
  intros Hok. pose proof (ok_block d Hok). destruct (ok_delegator d Hok) as [Hv _].
  unfold recorded. split; unfold method; slots; rewrite val_insert_eq; try done.
  - apply uint64_roundtrip. unfold is_u64. lia.
  - apply uint32_roundtrip, Hok.
Qed.

Definition of_delegation (y : slot) (a : bytes) : Prop :=
  match y with
  | OfAddress (DelegatorMethod | DelegatorBlockTxIndex | DelegatorBlockNumber | DelegatorAgent) b => b = a
  | _ => False
  end.

Lemma val_recorded s d y :
  event_ok d -> slot_ok y -> (of_delegation y (d_delegator d) -> False) -> val c (recorded s d) y = val c s y.
Proof.
  intros Hok Hy Hne. destruct (ok_delegator d Hok) as [Hv _]. unfold recorded.
  rewrite !val_insert_ne; try done; intros ->; by apply Hne.
Qed.

Lemma count_bound s : is_u32 (count s).
Proof. apply uint32_bound. Qed.

Lemma val_appended s a y :
  slot_ok y -> slot_field y <> DelegatorCount -> slot_field y <> DelegatorAt -> val c (appended s a) y = val c s y.
Proof.
  intros Hy Hc Ha. pose proof (count_bound s) as Hb. unfold is_u32 in Hb. unfold appended.
  rewrite !val_insert_ne; try done; try (by intros ->). by slot.
Qed.

Lemma indices_snoc from n : indices from (S n) = indices from n ++ [from + Z.of_nat n].
Proof. unfold indices. rewrite seq_S, map_app. done. Qed.

Lemma delegator_list_appended s a :
  length a = 20%nat -> count s + 1 < 2 ^ 32 -> delegator_list c (appended s a) = delegator_list c s ++ [a].
Proof.
  intros Ha Hc. pose proof (count_bound s) as Hb. unfold is_u32 in Hb. unfold delegator_list.
  fold (count s) (count (appended s a)).
  assert (count (appended s a) = count s + 1) as ->.
  { unfold count at 1, appended. rewrite val_insert_eq, wrap_small by lia. apply uint32_roundtrip. unfold is_u32. lia. }
  replace (Z.to_nat (count s + 1)) with (S (Z.to_nat (count s))) by lia. rewrite indices_snoc, map_app. f_equal.
  - apply map_ext_in. intros i Hi%list_elem_of_In. unfold indices in Hi.
    apply list_elem_of_fmap in Hi as (k & -> & Hk%elem_of_seq). unfold delegator_at. f_equal. unfold appended.
    rewrite !val_insert_ne; try done; try slot. intros [= E]. lia.
  - cbn [map]. f_equal. unfold delegator_at, appended. rewrite Z.add_0_l, Z2Nat.id by lia. slots.
    rewrite val_insert_eq. by apply address_array.
Qed.

Lemma delegator_list_recorded s d : event_ok d -> delegator_list c (recorded s d) = delegator_list c s.
Proof.
  intros Hok. unfold delegator_list. rewrite val_recorded by (done || slot). apply map_ext_in. intros i Hi%list_elem_of_In.
  unfold indices in Hi. apply list_elem_of_fmap in Hi as (k & -> & Hk%elem_of_seq). unfold delegator_at.
  by rewrite val_recorded by (done || slot).
Qed.

Lemma holds_other s s' d :
  event_ok d -> (forall y, slot_ok y -> of_delegation y (d_delegator d) -> val c s' y = val c s y) -> holds s d -> holds s' d.
Proof.
  intros Hok Hval [Hm Hb Hi Ha]. destruct (ok_delegator d Hok) as [Hv _].
  split; unfold method in *; rewrite Hval; try done; by slot.
Qed.

(** ** The state after some delegations *)

Record mirrored (l : list delegation) (s : store) : Prop := {
  m_nodup : NoDup (delegator_list c s);
  m_in a : a ∈ delegator_list c s <-> exists d, d ∈ l /\ d_delegator d = a;
  m_none a : valid_bytes a -> (forall d, d ∈ l -> d_delegator d <> a) -> method s a = [];
  m_last d : d ∈ l -> exists d', d' ∈ l /\ d_delegator d' = d_delegator d /\ holds s d' /\
    forall x, x ∈ l -> d_delegator x = d_delegator d -> replaces x d' = false;
  m_count : count s <= Z.of_nat (length l)
}.

(** What the states after the first and after a later delegation have in common. *)
Lemma mirrored_record l s s' d :
  Forall event_ok l -> event_ok d -> mirrored l s ->
  NoDup (delegator_list c s') -> (forall a, a ∈ delegator_list c s' <-> a ∈ delegator_list c s \/ a = d_delegator d) ->
  count s' <= count s + 1 -> holds s' d ->
  (forall y a, slot_ok y -> of_delegation y a -> a <> d_delegator d -> val c s' y = val c s y) ->
  (forall x, x ∈ l -> d_delegator x = d_delegator d -> replaces x d = false) ->
  mirrored (l ++ [d]) s'.
Proof.
  intros Hl Hok [M1 M2 M3 M4 M5] Hnd Hin Hc Hh Hother Hlast. rewrite Forall_forall in Hl. split.
  - done.
  - intros a. rewrite Hin, M2. setoid_rewrite elem_of_app. setoid_rewrite list_elem_of_singleton. naive_solver.
  - intros a Ha Hne. unfold method. rewrite (Hother _ a); [|by slot|done|].
    + apply M3; [done|]. intros x Hx. apply Hne, elem_of_app. by left.
    + intros ->. apply (Hne d); [|done]. apply elem_of_app. by right; left.
  - intros x Hx. destruct (decide (d_delegator x = d_delegator d)) as [Ex|Ex].
    + exists d. split_and!; [apply elem_of_app; by right; left|done|done|].
      intros y [Hy| ->%list_elem_of_singleton]%elem_of_app Ey; [apply Hlast; congruence|apply replaces_irrefl].
    + apply elem_of_app in Hx as [Hx| ->%list_elem_of_singleton]; [|done].
      destruct (M4 x Hx) as (x' & Hx' & Ex' & Hxh & Hxl). exists x'. split_and!; [apply elem_of_app; by left|done| |].
      * apply (holds_other s); [by apply Hl| |done]. intros y Hy Hof. by apply (Hother y (d_delegator x')); [..|congruence].
      * intros y [Hy| ->%list_elem_of_singleton]%elem_of_app Ey; [by apply Hxl|congruence].
  - rewrite length_app. cbn [length]. lia.
Qed.

Lemma mirrored_skip l s d d' :
  d' ∈ l -> d_delegator d' = d_delegator d -> holds s d' -> replaces d d' = false ->
  (forall x, x ∈ l -> d_delegator x = d_delegator d -> replaces x d' = false) ->
  mirrored l s -> mirrored (l ++ [d]) s.
Proof.
  intros Hd' Ed' Hh Hrep Hlast [M1 M2 M3 M4 M5]. split.
  - done.
  - intros a. rewrite M2. setoid_rewrite elem_of_app. setoid_rewrite list_elem_of_singleton. naive_solver.
  - intros a Ha Hne. apply M3; [done|]. intros x Hx. apply Hne, elem_of_app. by left.
  - intros x Hx. destruct (decide (d_delegator x = d_delegator d)) as [Ex|Ex].
    + exists d'. split_and!; [apply elem_of_app; by left|congruence|done|].
      intros y [Hy| ->%list_elem_of_singleton]%elem_of_app Ey; [apply Hlast; congruence|done].
    + apply elem_of_app in Hx as [Hx| ->%list_elem_of_singleton]; [|done].
      destruct (M4 x Hx) as (x' & Hx' & Ex' & Hxh & Hxl). exists x'. split_and!; [apply elem_of_app; by left|done|done|].
      intros y [Hy| ->%list_elem_of_singleton]%elem_of_app Ey; [by apply Hxl|congruence].
  - rewrite length_app. lia.
Qed.

Lemma count_recorded s d : event_ok d -> count (recorded s d) = count s.
Proof. intros Hok. unfold count. by rewrite val_recorded by (done || slot). Qed.

Lemma count_appended s a : count (appended s a) <= count s + 1.
Proof.
  pose proof (count_bound s) as Hb. unfold is_u32 in Hb. unfold count at 1, appended. rewrite val_insert_eq, uint32_roundtrip.
  - apply Z.mod_le; lia.
  - apply wrap_bound. lia.
Qed.

Lemma mirrored_step l w d :
  Forall event_ok l -> event_ok d -> Z.of_nat (length l) + 1 < 2 ^ 32 ->
  mirrored l (w_store w) -> mirrored (l ++ [d]) (w_store (mirror w d)).
Proof.
  intros Hl Hok Hlen M. destruct (ok_delegator d Hok) as [Hv H20].
  assert (forall s y a, slot_ok y -> of_delegation y a -> a <> d_delegator d -> val c (recorded s d) y = val c s y) as Hother.
  { intros s y a Hy Hof Hne. apply val_recorded; [done..|]. intros Hof'. apply Hne. clear -Hof Hof'.
    destruct y as [f|f b|f n]; [done| |done]. destruct f; cbn in Hof, Hof'; (done || congruence). }
  destruct (decide (d_delegator d ∈ delegator_list c (w_store w))) as [Hin|Hin].
  - destruct (proj1 (m_in _ _ M _) Hin) as (x & Hx & Ex). destruct (m_last _ _ M x Hx) as (d' & Hd' & Ed' & Hh & Hlast).
    rewrite Ex in Ed', Hlast. pose proof (proj1 (Forall_forall _ _) Hl d' Hd') as Hok'.
    rewrite (mirror_again w d d') by done. destruct (replaces d d') eqn:Hrep; [|by apply (mirrored_skip _ _ _ d')].
    cbn [w_store]. apply (mirrored_record l (w_store w)); try done.
    + rewrite delegator_list_recorded by done. apply M.
    + intros a. rewrite delegator_list_recorded by done. naive_solver.
    + rewrite count_recorded by done. lia.
    + by apply holds_recorded.
    + by apply Hother.
    + intros y Hy Ey. destruct (replaces y d) eqn:E; [|done]. rewrite <-(Hlast y Hy Ey). symmetry. by eapply replaces_trans.
  - assert (forall x, x ∈ l -> d_delegator x <> d_delegator d) as Hne.
    { intros x Hx E. apply Hin, (m_in _ _ M). by exists x. }
    rewrite mirror_first by (done || by apply (m_none _ _ M)). cbn [w_store].
    pose proof (m_count _ _ M). pose proof (delegator_list_appended (w_store w) (d_delegator d) H20 ltac:(lia)) as Hlist.
    apply (mirrored_record l (w_store w)); try done.
    + rewrite delegator_list_recorded, Hlist by done. apply NoDup_app. split_and!; [apply M| |apply NoDup_singleton].
      by intros x Hx ->%list_elem_of_singleton.
    + intros a. rewrite delegator_list_recorded, Hlist by done. by rewrite elem_of_app, list_elem_of_singleton.
    + rewrite count_recorded by done. apply count_appended.
    + by apply holds_recorded.
    + intros y a Hy Hof Hya. rewrite (Hother _ y a) by done. apply val_appended; [done|..]; clear -Hof;
        (destruct y as [f|f b|f n]; [done| |done]; by destruct f).
    + intros x Hx E. by destruct (Hne x Hx).
Qed.

Lemma mirrored_nil s : count s = 0 -> (forall a, method s a = []) -> mirrored [] s.
Proof.
  intros Hc Hm. assert (delegator_list c s = []) as Hl by (unfold delegator_list; fold (count s); by rewrite Hc).
  split; rewrite ?Hl; try done.
  - apply NoDup_nil_2.
  - intros a. split; [by intros ?%elem_of_nil|]. by intros (d & ?%elem_of_nil & _).
  - by intros d ?%elem_of_nil.
  - cbn. lia.
Qed.

Lemma mirrored_all l w l' :
  Forall event_ok (l ++ l') -> Z.of_nat (length (l ++ l')) < 2 ^ 32 -> mirrored l (w_store w) ->
  mirrored (l ++ l') (w_store (foldl mirror w l')).
Proof.
  revert l w. induction l' as [|d l' IH]; intros l w Hl Hlen M; cbn [foldl]; [by rewrite app_nil_r|].
  rewrite cons_middle, app_assoc in *. apply IH; [done..|]. apply Forall_app in Hl as [[Hl Hd]%Forall_app _].
  rewrite !length_app in Hlen. cbn [length] in Hlen. apply mirrored_step; [done|by inversion Hd|lia|done].
Qed.

End Mirror.

Module Mirrored.
Import ExampleSdk ElectionVotes.Election.
#[local] Existing Instance crypto_sha256.

(** A delegation by transfer, mirrored after the earlier one with the voting contract. *)
Definition first := mkDelegation (address 3) (address 1) 100 0 DELEGATION_NAME.
Definition second := mkDelegation (address 3) (address 2) 200 4 DELEGATION_BY_TRANSFER_NAME.

End Mirrored.
