(* ===== verification/Sanitizer.v ===== *)
(** * The sanitizer of deployed code (services/processor/native/sanitizer)

    Source code that is deployed as a contract is parsed, checked and printed again
    before it is compiled: it may import the packages of a white list only, may not
    use channels and goroutines, and may not call the functions of a black list.
    The parser and the printer of Go (go/parser, go/printer) are arguments; the
    syntax tree has the nodes the checks look at, and [OtherNode] for the rest. *)
From stdpp Require Import base gmap strings numbers list.
From Stdlib Require Import ZArith Lia.
From S2P Require Import Prelude.

Module Sanitizer.

(** ** Syntax trees (go/ast) *)

Inductive token := ARROW | OtherToken (name : bytes).

Inductive node :=
| ChanType (value : node)
| GoStmt (call : node)
| UnaryExpr (op : token) (x : node)
| CallExpr (func : node) (args : list node)
| SelectorExpr (x sel : node)
| Ident (name : bytes)
| OtherNode (kind : bytes) (children : list node).

(** An import, with the name it is given, if any, and its path with the quotes. *)
Record ImportSpec := mkImport { is_Name : option bytes; is_Path : bytes }.

Record File := mkFile { f_Imports : list ImportSpec; f_Decls : list node }.

Definition children (n : node) : list node :=
  match n with
  | ChanType x | GoStmt x | UnaryExpr _ x => [x]
  | CallExpr func args => func :: args
  | SelectorExpr x sel => [x; sel]
  | Ident _ => []
  | OtherNode _ l => l
  end.

(** ast.Inspect: [f] is called for a node with the state of its closure, and then for
    the children of the node if it returns true. *)
Section Inspect.
Context {S : Type} (f : node -> S -> bool * S).

Fixpoint Inspect (n : node) (s : S) {struct n} : S :=
  let (descend, s) := f n s in
  if descend then
    match n with
    | ChanType x | GoStmt x | UnaryExpr _ x => Inspect x s
    | CallExpr func args => foldl (fun s x => Inspect x s) (Inspect func s) args
    | SelectorExpr x sel => Inspect sel (Inspect x s)
    | Ident _ => s
    | OtherNode _ l => foldl (fun s x => Inspect x s) s l
    end
  else s.
End Inspect.

(** ** Configuration (config.go, sanitize_code.go) *)

Record SanitizerConfig := mkConfig {
  ImportWhitelist : list bytes;
  FunctionBlacklist : bytes -> list bytes
}.

Definition HasPrefix (s prefix : bytes) : bool := bool_decide (take (length prefix) s = prefix).
Definition HasSuffix (s suffix : bytes) : bool :=
  bool_decide (length suffix <= length s)%nat && bool_decide (drop (length s - length suffix) s = suffix).

(** The last characters of a path with a star are a slash, the star and the quote. *)
Definition AllowedPrefixes (c : SanitizerConfig) : list bytes :=
  omap (fun w => if HasSuffix w [42; 34] then Some (take (length w - 3) w) else None) (ImportWhitelist c).

Definition quoted (path : string) : bytes := 34 :: go_string path ++ [34].

Definition SanitizerConfigForProduction : SanitizerConfig := mkConfig
  (map quoted
    ["github.com/orbs-network/orbs-contract-sdk/go/sdk/v1/*"; "github.com/orbs-network/contract-external-libraries-go/v1/*";
     "strings"; "strconv"; "text/template"; "time"; "bytes"; "encoding/binary"; "io";
     "encoding/json"; "encoding/hex"; "encoding/base32"; "encoding/base64"; "sort";
     "hash"; "crypto"; "crypto/*"; "golang.org/x/crypto"; "golang.org/x/crypto/ed25519"; "golang.org/x/crypto/sha3";
     "math/big"]%string)
  (fun pkg => if bool_decide (pkg = go_string "time")
              then map go_string ["After"; "AfterFunc"; "Sleep"; "Tick"; "NewTimer"; "NewTicker"; "Now"]%string
              else []).

(** ** The checks (imports.go, declarations.go, sanitizer.go) *)

Inductive sanitize_error :=
| ErrCannotParse
| ErrImportName
| ErrImportNotAllowed (path : bytes)
| ErrChannels
| ErrGoroutines
| ErrChannelSend
| ErrNotAllowed (pkg func : bytes)
| ErrCannotPrint.

Definition foundInPrefixes (candidate : bytes) (allowedPrefixes : list bytes) : bool :=
  existsb (HasPrefix candidate) allowedPrefixes.

Section Sanitizer.
(** fmt.Sprintf of an expression that is no identifier. *)
Variable sprint_node : node -> bytes.
Variable parse : bytes -> outcome unit File.
Variable print : File -> outcome unit bytes.
Variable config : SanitizerConfig.

Definition sprint_s (n : node) : bytes := match n with Ident name => name | _ => sprint_node n end.

Fixpoint verifyImports (imports : list ImportSpec) (allowedPrefixes : list bytes) : option sanitize_error :=
  match imports with
  | [] => None
  | importSpec :: imports =>
      match is_Name importSpec with
      | Some _ => Some ErrImportName
      | None =>
          if negb (bool_decide (is_Path importSpec ∈ ImportWhitelist config))
             && negb (foundInPrefixes (is_Path importSpec) allowedPrefixes)
          then Some (ErrImportNotAllowed (is_Path importSpec))
          else verifyImports imports allowedPrefixes
      end
  end.

(** The closure of the inspection; its state is the variable [err]. *)
Definition check_node (n : node) (err : option sanitize_error) : bool * option sanitize_error :=
  match n with
  | ChanType _ => (false, Some ErrChannels)
  | GoStmt _ => (false, Some ErrGoroutines)
  | UnaryExpr ARROW _ => (false, Some ErrChannelSend)
  | CallExpr (SelectorExpr x sel) _ =>
      let pkg := sprint_s x in
      let f := sprint_s sel in
      if bool_decide (f ∈ FunctionBlacklist config pkg) then (false, Some (ErrNotAllowed pkg f)) else (true, err)
  | _ => (true, err)
  end.

Definition verifyDeclarationsAndStatements (astFile : File) : option sanitize_error :=
  foldl (fun err decl => Inspect check_node decl err) None (f_Decls astFile).

Definition verifyAll (astFile : File) : option sanitize_error :=
  match verifyImports (f_Imports astFile) (AllowedPrefixes config) with
  | Some err => Some err
  | None => verifyDeclarationsAndStatements astFile
  end.

Definition Process (code : bytes) : outcome sanitize_error bytes :=
  match parse code with
  | Panic => Panic
  | Err _ => Err ErrCannotParse
  | Ok astFile =>
      match verifyAll astFile with
      | Some err => Err err
      | None => match print astFile with Ok out => Ok out | Err _ => Err ErrCannotPrint | Panic => Panic end
      end
  end.

(** ** What the checks show *)

(** A node that occurs in a tree. *)
Inductive occurs (m : node) : node -> Prop :=
| occurs_here : occurs m m
| occurs_below n x : x ∈ children n -> occurs m x -> occurs m n.

(** The nodes that are refused. *)
Definition refused (n : node) : bool :=
  match n with
  | ChanType _ | GoStmt _ | UnaryExpr ARROW _ => true
  | CallExpr (SelectorExpr x sel) _ => bool_decide (sprint_s sel ∈ FunctionBlacklist config (sprint_s x))
  | _ => false
  end.

Lemma check_node_refused n err :
  if refused n then fst (check_node n err) = false /\ snd (check_node n err) <> None else check_node n err = (true, err).
Proof.
  destruct n as [x|x|[|t] x|[x|x|t x|g l|x sel|i|k l] args|x sel|i|k l]; cbn; try done.
  case_bool_decide; done.
Qed.

(** The induction principle of trees. *)
Lemma node_ind' (P : node -> Prop) :
  (forall n, (forall x, x ∈ children n -> P x) -> P n) -> forall n, P n.
Proof.
  intros Hn. fix IH 1. intros n. apply Hn. apply Forall_forall. destruct n as [x|x|t x|g l|x sel|i|k l]; cbn [children].
  - constructor; [apply IH|constructor].
  - constructor; [apply IH|constructor].
  - constructor; [apply IH|constructor].
  - constructor; [apply IH|]. induction l as [|z l IHl]; constructor; [apply IH|exact IHl].
  - constructor; [apply IH|]. constructor; [apply IH|constructor].
  - constructor.
  - induction l as [|z l IHl]; constructor; [apply IH|exact IHl].
Qed.

Lemma Inspect_children {S} (f : node -> S -> bool * S) n s :
  Inspect f n s = let (descend, s) := f n s in if descend then foldl (fun s x => Inspect f x s) s (children n) else s.
Proof. by destruct n; cbn; destruct (f _ s) as [[|] s']. Qed.

Definition clean (n : node) : Prop := forall m, occurs m n -> refused m = false.

Lemma foldl_inspect l err :
  (forall x, x ∈ l -> forall err, Inspect check_node x err = None <-> err = None /\ clean x) ->
  foldl (fun err x => Inspect check_node x err) err l = None <-> err = None /\ forall x, x ∈ l -> clean x.
Proof.
  revert err. induction l as [|x l IH]; intros err Hl; cbn [foldl].
  - split; [intros ->; split; [done|]; by intros x ?%elem_of_nil|tauto].
  - rewrite IH, Hl by (by left || intros y Hy; apply Hl; by right). setoid_rewrite elem_of_cons. naive_solver.
Qed.

Lemma clean_children n : clean n <-> refused n = false /\ forall x, x ∈ children n -> clean x.
Proof.
  split.
  - intros Hc. split; [apply Hc, occurs_here|]. intros x Hx m Hm. apply Hc. by eapply occurs_below.
  - intros [Hn Hx] m Hm. destruct Hm as [|n x Hin Hm]; [done|]. by apply (Hx x Hin).
Qed.

Lemma inspect_clean n err : Inspect check_node n err = None <-> err = None /\ clean n.
Proof.
  revert err. induction n as [n IH] using node_ind'. intros err. rewrite Inspect_children, clean_children.
  pose proof (check_node_refused n err) as Hc. destruct (refused n).
  - destruct (check_node n err) as [d e]. cbn [fst snd] in Hc. destruct Hc as [-> He]. naive_solver.
  - rewrite Hc, foldl_inspect by apply IH. naive_solver.
Qed.

Definition import_allowed (i : ImportSpec) : Prop :=
  is_Name i = None /\
  (is_Path i ∈ ImportWhitelist config \/
   exists w, w ∈ ImportWhitelist config /\ HasSuffix w [42; 34] = true /\ HasPrefix (is_Path i) (take (length w - 3) w) = true).

Lemma found_prefix path :
  foundInPrefixes path (AllowedPrefixes config) = true <->
  exists w, w ∈ ImportWhitelist config /\ HasSuffix w [42; 34] = true /\ HasPrefix path (take (length w - 3) w) = true.
Proof.
  unfold foundInPrefixes, AllowedPrefixes. rewrite existsb_exists. split.
  - intros (p & Hp%list_elem_of_In & Hpre). apply list_elem_of_omap in Hp as (w & Hw & Hp). exists w.
    destruct (HasSuffix w [42; 34]); [|done]. by injection Hp as <-.
  - intros (w & Hw & Hs & Hpre). exists (take (length w - 3) w). split; [|done].
    apply list_elem_of_In, list_elem_of_omap. exists w. by rewrite Hs.
Qed.

Lemma verifyImports_allowed l : verifyImports l (AllowedPrefixes config) = None <-> forall i, i ∈ l -> import_allowed i.
Proof.
  induction l as [|i l IH]; cbn [verifyImports]; [split; [by intros _ i ?%elem_of_nil|done]|].
  setoid_rewrite elem_of_cons. unfold import_allowed in *. destruct (is_Name i) eqn:Hn.
  { split; [done|]. intros Hl. by destruct (Hl i (or_introl eq_refl)) as [Hi _]; rewrite Hn in Hi. }
  destruct (bool_decide_reflect (is_Path i ∈ ImportWhitelist config)) as [Hw|Hw]; cbn [negb andb].
  - rewrite IH. naive_solver.
  - destruct (foundInPrefixes (is_Path i) _) eqn:Hf; cbn [negb].
    + rewrite IH. split; [|naive_solver]. intros Hl j [->|Hj]; [|by apply Hl]. split; [done|]. right. by apply found_prefix.
    + split; [done|]. intros Hl. destruct (Hl i (or_introl eq_refl)) as [_ [?|Hp]]; [done|].
      apply found_prefix in Hp. congruence.
Qed.


(** ** A way around the black list *)

(** A function that assigns pkg.func to a variable and calls the variable. *)
Definition value_call (path pkg func : bytes) : File :=
  mkFile [mkImport None path]
    [OtherNode (go_string "FuncDecl")
       [OtherNode (go_string "AssignStmt") [Ident [102]; SelectorExpr (Ident pkg) (Ident func)];
        CallExpr (Ident [102]) []]].

(** The black list is not enforced: a function of the black list of any package on
    the white list is accepted if the code calls it through a variable, as the check
    looks only at calls whose function is written as package and name. *)
Theorem blacklist_bypass code path pkg func out :
  parse code = Ok (value_call path pkg func) -> print (value_call path pkg func) = Ok out ->
  path ∈ ImportWhitelist config -> func ∈ FunctionBlacklist config pkg ->
  Process code = Ok out.
Proof.
  intros Hparse Hprint Hpath Hfunc. unfold Process. rewrite Hparse. unfold verifyAll, verifyDeclarationsAndStatements.
  cbn [value_call f_Imports verifyImports is_Name is_Path]. rewrite bool_decide_true by done. cbn. by rewrite Hprint.
Qed.
End Sanitizer.

(** ** Examples *)

Module Example.

Definition sprint_other (_ : node) : bytes := [].
Definition good : File :=
  mkFile [mkImport None (quoted "crypto/sha256")] [CallExpr (SelectorExpr (Ident (go_string "sha256")) (Ident (go_string "New"))) []].
Definition now : File := value_call (quoted "time") (go_string "time") (go_string "Now").
Definition parser (code : bytes) : outcome unit File :=
  if bool_decide (code = [1]) then Ok good else if bool_decide (code = [2]) then Ok now else Err tt.
Definition printer (_ : File) : outcome unit bytes := Ok [7].

Lemma blacklist_bypass_witness : Process sprint_other parser printer SanitizerConfigForProduction [2] = Ok [7].
Proof.
  apply (blacklist_bypass sprint_other parser printer SanitizerConfigForProduction [2]
    (quoted "time") (go_string "time") (go_string "Now")).
  - reflexivity.
  - reflexivity.
  - by apply (bool_decide_unpack (quoted "time" ∈ ImportWhitelist SanitizerConfigForProduction)).
  - by apply (bool_decide_unpack (go_string "Now" ∈ FunctionBlacklist SanitizerConfigForProduction (go_string "time"))).
Defined.

(** The direct call is refused, and so is a goroutine. *)
Lemma direct_call_refused :
  Process sprint_other (fun _ => Ok (mkFile [mkImport None (quoted "time")]
    [CallExpr (SelectorExpr (Ident (go_string "time")) (Ident (go_string "Now"))) []])) printer SanitizerConfigForProduction []
  = Err (ErrNotAllowed (go_string "time") (go_string "Now")).
Proof. vm_compute. reflexivity. Qed.

(** A star stands for anything that goes on, not only below a slash. *)
Lemma star_without_slash :
  verifyImports SanitizerConfigForProduction [mkImport None (quoted "cryptominer")]
    (AllowedPrefixes SanitizerConfigForProduction) = None.
Proof. vm_compute. reflexivity. Qed.
End Example.
End Sanitizer.
