(* ===== verification/ProcessorSdk.v ===== *)
(** * The SDK of the processors (services/processor/sdk)

    The functions that a contract's SDK calls end in: each packs its arguments, calls
    the handler of the virtual machine in the execution context and with the
    permission of the contract, checks the form of what comes back and panics if
    anything is wrong.  [interp] runs a contract program with them;
    [contract_refines] shows that inside the virtual machine this is the meaning
    [run] gives the program on a flat store.

    The values that cross the boundary as interface{} are those of orbs-spec's
    argument arrays (class [Natives]); the ABI of Ethereum is that of go-ethereum
    (record [Abi]). *)
From stdpp Require Import base gmap strings numbers list.
From Stdlib Require Import ZArith Lia.
From S2P Require Import Prelude Hash Protocol StateStorage TransientState VirtualMachine Execution ContractSdk.
Import VirtualMachine.

(** ** Native values *)

(** The values and types of Go that argument arrays are made from and unpacked to;
    [Elem] is the element type of a slice. *)
Class Natives := {
  native : Type;
  go_type : Type;
  go_type_eq_dec :: EqDecision go_type;
  TypeOf : native -> go_type;
  Elem : go_type -> go_type;
  ToNatives : list Argument -> outcome unit (list native);
  ArgumentArrayFromNatives : list native -> outcome unit (list Argument)
}.

(** A function value: its full name, its parameter types, and its code.  A value that
    is no function has no name and no parameters. *)
Record func `{Natives} := mkFunc {
  fn_Name : bytes;
  fn_In : list go_type;
  fn_IsVariadic : bool;
  fn_Call : list native -> prog (list native)
}.

Inductive method_value `{Natives} := Function (f : func) | NotAFunction.

(** The part of a name after its last point (strings.Split). *)
Fixpoint last_part (name : bytes) : bytes :=
  match name with
  | [] => []
  | c :: name => if bool_decide (46 ∈ name) then last_part name else if c =? 46 then name else c :: name
  end.

Inductive native_error :=
| ErrNotAFunction
| ErrContractNotFound
| ErrContractInstance
| ErrOnlySystem
| ErrMethodNotFound
| ErrToNatives
| ErrTakesAtLeast (n : Z)
| ErrReceivedLess (n : Z)
| ErrReceivedMore (n : Z)
| ErrArgumentType (i : Z)
| ErrVariadicEvent
| ErrEventArguments
| ErrOutput
| ErrSanitizer
| ErrCompile
| ErrNoSymbol
| ErrCorruptCode
| ErrSdk (e : vm_error)
| ErrPanic (v : panic_value).

Definition GetContractMethodNameFromFunction `{Natives} (m : method_value) : outcome native_error bytes :=
  match m with
  | NotAFunction => Err ErrNotAFunction
  | Function f => Ok (last_part (fn_Name f))
  end.

(** ** Code of the processor

    It calls the handler of SDK calls, and reads and writes memory that other calls
    of the processor share ([Access]). *)
Section Code.
Variable mem : Type -> Type.

Inductive code (A : Type) : Type :=
| CRet (a : A)
| CPanic (v : panic_value)
| CSdk (input : HandleSdkCallInput) (continue : outcome vm_error (list Argument) -> code A)
| CAccess {X : Type} (op : mem X) (continue : X -> code A).
End Code.
Arguments CRet {mem A} a.
Arguments CPanic {mem A} v.
Arguments CSdk {mem A} input continue.
Arguments CAccess {mem A X} op continue.

#[export] Instance code_ret {mem} : MRet (code mem) := fun A a => CRet a.
#[export] Instance code_bind {mem} : MBind (code mem) := fun A B k =>
  fix bind m :=
    match m with
    | CRet a => k a
    | CPanic v => CPanic v
    | CSdk input continue => CSdk input (fun r => bind (continue r))
    | CAccess op continue => CAccess op (fun x => bind (continue x))
    end.

Definition handle_call {mem} (input : HandleSdkCallInput) : code mem (outcome vm_error (list Argument)) := CSdk input CRet.
Definition access {mem : Type -> Type} {X} (op : mem X) : code mem X := CAccess op CRet.

(** A deferred recover: a panic becomes a value. *)
Fixpoint recover {mem A} (m : code mem A) : code mem (A + panic_value) :=
  match m with
  | CRet a => CRet (inl a)
  | CPanic v => CRet (inr v)
  | CSdk input continue => CSdk input (fun r => recover (continue r))
  | CAccess op continue => CAccess op (fun x => recover (continue x))
  end.

(** ** The functions of the SDK *)

(** go-ethereum's ABI: whether a JSON text is one, the packed arguments of a method,
    its results, and the fields of an event. *)
Record Abi := mkAbi {
  abi_parses : bytes -> bool;
  ABIPackFunctionInputArguments : bytes -> bytes -> list eth_value -> option bytes;
  ABIUnpackFunctionOutputArguments : bytes -> bytes -> bytes -> option eth_value;
  ABIUnpackAllEventArguments : bytes -> bytes -> bytes -> option eth_value
}.

Section Sdk.
Context `{Sha256} `{ArgumentArrays} `{Natives}.
Context {mem : Type -> Type}.
Variable abi : Abi.
Variable VirtualChainId : Z.
Variables (executionContextId : bytes) (permissionScope : PermissionScope).

Definition sdk_call (operation method : string) (args : list Argument) : code mem (outcome vm_error (list Argument)) :=
  handle_call (mkSdkCall executionContextId (go_string operation) (go_string method) args permissionScope).

(** The checks that follow a call: no error, and one value of the right type. *)
Definition returned {A} (corrupt : string) (get : list Argument -> option A) (r : outcome vm_error (list Argument)) : code mem A :=
  match r with
  | Err e => CPanic (PanicError e)
  | Panic => CPanic PanicRuntime
  | Ok output => match get output with Some a => mret a | None => CPanic (PanicMessage corrupt) end
  end.

Definition one_bytes (output : list Argument) : option bytes := match output with [ArgBytes b] => Some b | _ => None end.
Definition one_uint64 (output : list Argument) : option Z := match output with [ArgUint64 n] => Some n | _ => None end.
Definition one_bytes_array (output : list Argument) : option (list bytes) :=
  match output with [ArgBytesArray l] => Some l | _ => None end.

(** sdk_state.go *)

Definition SdkStateReadBytes (key : bytes) : code mem bytes :=
  output ← sdk_call "Sdk.State" "read" [ArgBytes key];
  returned "read Sdk.State returned corrupt output value" one_bytes output.

Definition SdkStateWriteBytes (key value : bytes) : code mem unit :=
  output ← sdk_call "Sdk.State" "write" [ArgBytes key; ArgBytes value];
  returned "" (fun _ => Some tt) output.

(** sdk_address.go *)

Definition SdkAddressGetSignerAddress : code mem bytes :=
  output ← sdk_call "Sdk.Address" "getSignerAddress" [];
  returned "getSignerAddress Sdk.Address returned corrupt output value" one_bytes output.

Definition SdkAddressGetCallerAddress : code mem bytes :=
  output ← sdk_call "Sdk.Address" "getCallerAddress" [];
  returned "getCallerAddress Sdk.Address returned corrupt output value" one_bytes output.

Definition SdkAddressGetOwnAddress : code mem bytes :=
  output ← sdk_call "Sdk.Address" "getOwnAddress" [];
  returned "getOwnAddress Sdk.Address returned corrupt output value" one_bytes output.

Definition SdkAddressGetContractAddress (contractName : bytes) : code mem bytes :=
  match CalcClientAddressOfContract contractName with
  | Ok address => mret address
  | Err e => CPanic (PanicError e)
  | Panic => CPanic PanicRuntime
  end.

(** sdk_env.go *)

Definition SdkEnvGetBlockHeight : code mem Z :=
  output ← sdk_call "Sdk.Env" "getBlockHeight" [];
  returned "getBlockHeight Sdk.Env returned corrupt output value" one_uint64 output.

Definition SdkEnvGetBlockTimestamp : code mem Z :=
  output ← sdk_call "Sdk.Env" "getBlockTimestamp" [];
  returned "getBlockHeight Sdk.Env returned corrupt output value" one_uint64 output.

Definition SdkEnvGetVirtualChainId : code mem Z := mret (wrap 32 VirtualChainId).

Definition SdkEnvGetBlockProposerAddress : code mem bytes :=
  output ← sdk_call "Sdk.Env" "getBlockProposerAddress" [];
  returned "getBlockProposerAddress Sdk.Env returned corrupt output value" one_bytes output.

Definition SdkEnvGetBlockCommittee : code mem (list bytes) :=
  output ← sdk_call "Sdk.Env" "getBlockCommittee" [];
  returned "getBlockCommittee Sdk.Env returned corrupt output value" one_bytes_array output.

(** sdk_events.go *)

(** The types of the arguments from index [i] on, against those of the parameters. *)
Fixpoint check_types (i : Z) (In : list go_type) (args : list native) : option native_error :=
  match In, args with
  | t :: In, a :: args => if bool_decide (TypeOf a <> t) then Some (ErrArgumentType i) else check_types (i + 1) In args
  | _, _ => None
  end.

Definition verifyEventMethodInputArgs (eventSignature : func) (args : list native) : outcome native_error (list native) :=
  if fn_IsVariadic eventSignature then Err ErrVariadicEvent
  else if bool_decide (length args <> length (fn_In eventSignature)) then Err ErrEventArguments
  else match check_types 0 (fn_In eventSignature) args with Some e => Err e | None => Ok args end.

(** The call of the handler at the end. *)
Definition emit (eventName : bytes) (eventArguments : list Argument) : code mem unit :=
  output ← sdk_call "Sdk.Events" "emitEvent" [ArgString eventName; ArgBytes (raw_ArgumentArray eventArguments)];
  returned "" (fun _ => Some tt) output.

Definition SdkEventsEmitEvent (eventFunctionSignature : method_value) (args : list native) : code mem unit :=
  match eventFunctionSignature with
  | NotAFunction => CPanic (PanicMessage "failed to find event signature function")
  | Function f =>
      match ArgumentArrayFromNatives args with
      | Panic => CPanic PanicRuntime
      | Err _ => CPanic (PanicMessage "event '%s' input arguments: %s")
      | Ok eventArguments =>
          match verifyEventMethodInputArgs f args with
          | Ok _ => emit (last_part (fn_Name f)) eventArguments
          | _ => CPanic (PanicMessage "event '%s' %s")
          end
      end
  end.

(** sdk_service.go *)

(** The call of the handler, with packed arguments, and its result; what it returns
    must be native values. *)
Definition call_service (serviceName methodName : bytes) (inputArguments : list Argument) : code mem (list Argument) :=
  output ← sdk_call "Sdk.Service" "callMethod"
             [ArgString serviceName; ArgString methodName; ArgBytes (raw_ArgumentArray inputArguments)];
  b ← returned "callMethod Sdk.Service returned corrupt output value" one_bytes output;
  mret (ArgumentArrayReader b).

Definition SdkServiceCallMethod (serviceName methodName : bytes) (args : list native) : code mem (list native) :=
  match ArgumentArrayFromNatives args with
  | Panic => CPanic PanicRuntime
  | Err _ => CPanic (PanicMessage "input arguments")
  | Ok inputArguments =>
      output ← call_service serviceName methodName inputArguments;
      match ToNatives output with
      | Ok natives => mret natives
      | Err _ => CPanic (PanicMessage "output arguments")
      | Panic => CPanic PanicRuntime
      end
  end.

(** sdk_ethereum.go *)

Definition SdkEthereumCallMethod (ethContractAddress jsonAbi : bytes) (ethBlockNumber : Z) (methodName : bytes)
    (args : list eth_value) : code mem eth_value :=
  if negb (abi_parses abi jsonAbi) then CPanic (PanicMessage "abi")
  else
    match ABIPackFunctionInputArguments abi jsonAbi methodName args with
    | None => CPanic (PanicMessage "pack")
    | Some packedInput =>
        output ← sdk_call "Sdk.Ethereum" "callMethod"
                   [ArgString ethContractAddress; ArgString jsonAbi; ArgUint64 ethBlockNumber; ArgString methodName;
                    ArgBytes packedInput];
        b ← returned "callMethod Sdk.Ethereum returned corrupt output value" one_bytes output;
        match ABIUnpackFunctionOutputArguments abi jsonAbi methodName b with
        | Some out => mret out
        | None => CPanic (PanicMessage "unpack")
        end
    end.

Definition log_output (output : list Argument) : option (bytes * Z * Z) :=
  match output with [ArgBytes b; ArgUint64 n; ArgUint32 i] => Some (b, n, i) | _ => None end.

Definition SdkEthereumGetTransactionLog (ethContractAddress jsonAbi ethTxHash eventName : bytes)
    : code mem (eth_value * Z * Z) :=
  if negb (abi_parses abi jsonAbi) then CPanic (PanicMessage "abi")
  else
    output ← sdk_call "Sdk.Ethereum" "getTransactionLog"
               [ArgString ethContractAddress; ArgString jsonAbi; ArgString ethTxHash; ArgString eventName];
    r ← returned "getTransactionLog Sdk.Ethereum returned corrupt output value" log_output output;
    match ABIUnpackAllEventArguments abi jsonAbi eventName r.1.1 with
    | Some out => mret (out, r.1.2, r.2)
    | None => CPanic (PanicMessage "unpack")
    end.

Definition SdkEthereumGetBlockNumber : code mem Z :=
  output ← sdk_call "Sdk.Ethereum" "getBlockNumber" [];
  returned "getBlockNumber Sdk.Ethereum returned corrupt output value" one_uint64 output.

Definition SdkEthereumGetBlockNumberByTime (ethBlockTimestamp : Z) : code mem Z :=
  output ← sdk_call "Sdk.Ethereum" "getBlockNumberByTime" [ArgUint64 ethBlockTimestamp];
  returned "getBlockNumberByTime Sdk.Ethereum returned corrupt output value" one_uint64 output.

Definition SdkEthereumGetBlockTime : code mem Z :=
  output ← sdk_call "Sdk.Ethereum" "getBlockTime" [];
  returned "getBlockTime Sdk.Ethereum returned corrupt output value" one_uint64 output.

Definition SdkEthereumGetBlockTimeByNumber (ethBlockNumber : Z) : code mem Z :=
  output ← sdk_call "Sdk.Ethereum" "getBlockTimeByNumber" [ArgUint64 ethBlockNumber];
  returned "getBlockTimeByNumber Sdk.Ethereum returned corrupt output value" one_uint64 output.

(** ** Contract programs *)

(** The arguments of events and calls in a program are packed already. *)
Definition interp_op {X} (op : sdk_op X) : code mem X :=
  match op in sdk_op X return code mem X with
  | StateReadBytes key => SdkStateReadBytes key
  | StateWriteBytes key value => SdkStateWriteBytes key value
  | AddressGetSignerAddress => SdkAddressGetSignerAddress
  | AddressGetCallerAddress => SdkAddressGetCallerAddress
  | AddressGetContractAddress contractName => SdkAddressGetContractAddress contractName
  | EnvGetBlockHeight => SdkEnvGetBlockHeight
  | EnvGetBlockTimestamp => SdkEnvGetBlockTimestamp
  | EnvGetVirtualChainId => SdkEnvGetVirtualChainId
  | EnvGetBlockProposerAddress => SdkEnvGetBlockProposerAddress
  | EnvGetBlockCommittee => SdkEnvGetBlockCommittee
  | EventsEmitEvent eventName args => emit eventName args
  | ServiceCallMethod serviceName methodName args => call_service serviceName methodName args
  | EthereumCallMethodAtBlock ethBlockNumber contract jsonAbi methodName args =>
      SdkEthereumCallMethod contract jsonAbi ethBlockNumber methodName args
  | EthereumGetTransactionLog contract jsonAbi ethTxHash eventName =>
      SdkEthereumGetTransactionLog contract jsonAbi ethTxHash eventName
  | EthGetBlockNumber => SdkEthereumGetBlockNumber
  | EthGetBlockNumberByTime t => SdkEthereumGetBlockNumberByTime t
  | EthGetBlockTime => SdkEthereumGetBlockTime
  | EthGetBlockTimeByNumber n => SdkEthereumGetBlockTimeByNumber n
  end.

Fixpoint interp {A} (p : prog A) : code mem A :=
  match p with
  | Ret a => mret a
  | Panics v => CPanic v
  | Vis op continue => x ← interp_op op; interp (continue x)
  end.
End Sdk.

(** ** Running code

    [sdk] runs the calls of the handler, [step_mem] the accesses to the shared
    memory; [None] when the handler runs out of fuel. *)
Section Exec.
Context {mem : Type -> Type} {state : Type}.
Variable sdk : HandleSdkCallInput -> state -> option (state * outcome vm_error (list Argument)).
Variable step_mem : forall X, mem X -> state -> X * state.

Fixpoint exec {A} (m : code mem A) (s : state) : option (state * (A + panic_value)) :=
  match m with
  | CRet a => Some (s, inl a)
  | CPanic v => Some (s, inr v)
  | CSdk input continue =>
      match sdk input s with
      | Some (s, r) => exec (continue r) s
      | None => None
      end
  | CAccess op continue => let '(x, s) := step_mem _ op s in exec (continue x) s
  end.

Lemma exec_bind {A B} (m : code mem A) (k : A -> code mem B) s :
  exec (m ≫= k) s =
    match exec m s with
    | Some (s, inl a) => exec (k a) s
    | Some (s, inr v) => Some (s, inr v)
    | None => None
    end.
Proof.
  revert s. induction m as [a|v|input continue IH|X op continue IH]; intros s; cbn; [done|done| |].
  - destruct (sdk input s) as [[s' r]|]; [apply IH|done].
  - destruct (step_mem X op s) as [x s']. apply IH.
Qed.

Lemma exec_recover {A} (m : code mem A) s :
  exec (recover m) s = match exec m s with Some (s, r) => Some (s, inl r) | None => None end.
Proof.
  revert s. induction m as [a|v|input continue IH|X op continue IH]; intros s; cbn; [done|done| |].
  - destruct (sdk input s) as [[s' r]|]; [apply IH|done].
  - destruct (step_mem X op s) as [x s']. apply IH.
Qed.

(** Code does not loop by itself. *)
Lemma exec_none {A} (m : code mem A) s : exec m s = None -> exists input s', sdk input s' = None.
Proof.
  revert s. induction m as [a|v|input continue IH|X op continue IH]; intros s; cbn; [done|done| |].
  - destruct (sdk input s) as [[s' r]|] eqn:E; [apply IH|by eauto].
  - destruct (step_mem X op s) as [x s']. apply IH.
Qed.

Lemma exec_ret {A} (a : A) s : exec (mret a) s = Some (s, inl a).
Proof. done. Qed.
End Exec.

(** ** Programs in the virtual machine *)

(** The calls that a context answers by itself: all but calls of other contracts,
    which the committee of a block takes as well. *)
Definition local_op {X} (op : sdk_op X) : Prop :=
  match op with ServiceCallMethod _ _ _ | EnvGetBlockCommittee => False | _ => True end.

Fixpoint local {A} (p : prog A) : Prop :=
  match p with
  | Ret _ | Panics _ => True
  | Vis op continue => local_op op /\ forall x, local (continue x)
  end.

Lemma local_bind {A B} (m : prog A) (k : A -> prog B) : local m -> (forall a, local (k a)) -> local (m ≫= k).
Proof.
  induction m as [a|v|X op continue IH]; intros Hm Hk; cbn; [apply Hk|done|]. destruct Hm as [Hop Hm].
  split; [done|]. intros x. apply IH; [apply Hm|apply Hk].
Qed.

Lemma local_for_loop {S} n from (body : Z -> S -> prog S) s :
  (forall i s, local (body i s)) -> local (for_loop n from body s).
Proof. intros Hb. revert from s. induction n as [|n IH]; intros from s; cbn [for_loop]; [done|]. apply local_bind; auto. Qed.

Lemma local_range_loop {X S} (l : list X) (body : X -> S -> prog S) s :
  (forall x s, local (body x s)) -> local (range_loop l body s).
Proof. intros Hb. revert s. induction l as [|x l IH]; intros s; cbn [range_loop]; [done|]. apply local_bind; auto. Qed.

Lemma local_safe `{ContractSdk} r : local (safe r).
Proof. by destruct r. Qed.

Create HintDb local.
#[export] Hint Resolve local_safe : local.

(** [locals] goes through the calls of a program; the hints are for its recursions. *)
Ltac locals := repeat first
  [ done | solve [auto with local nocore] | intros ?
  | apply local_bind | apply local_for_loop | apply local_range_loop
  | match goal with |- local (match ?x with _ => _ end) => destruct x end
  | match goal with |- local (let _ := _ in _) => cbv zeta end
  | match goal with |- local ?p => let h := get_head p in unfold h end ].

Section Refinement.
Context `{Sha256} `{ArgumentArrays} `{Natives}.
Context {mem : Type -> Type}.
Variable step_mem : forall X, mem X -> vm_state -> X * vm_state.
Variable s : service.
Variable call : Processor -> ProcessCallInput -> vm (option ProcessCallOutput * option vm_error).
Variable call_method : call_env -> bytes -> bytes -> list Argument -> world -> reply (list Argument) * world.
Variable abi : Abi.
Variable VirtualChainId : Z.
Variables (id : bytes) (permissionScope : PermissionScope).

(** The value that the code of the current contract sees under a key. *)
Definition value_in (c : executionContext) (key : bytes) : option bytes :=
  match getValue (transientSt c) (serviceStackTop c) key with
  | Some v => Some v
  | None =>
      match batchTransientState c ≫= fun batch => getValue batch (serviceStackTop c) key with
      | Some v => Some v
      | None =>
          match s_ReadKeys s (lastCommittedBlockHeight c) (serviceStackTop c) [key] with
          | Ok (record :: _) => Some (sr_Value record)
          | _ => None
          end
      end
  end.

(** The chain of Ethereum as it is seen at a time, through the connector. *)
Definition eth_number (f : EthereumConnector -> outcome unit Z) : option Z :=
  match with_connector s f with Ok n => Some n | _ => None end.

Definition ethereum_at (timestamp : Z) : ethereum :=
  mkEthereum
    (fun block contract jsonAbi method args =>
       if abi_parses abi jsonAbi then
         packed ← ABIPackFunctionInputArguments abi jsonAbi method args;
         match with_connector s (fun connector =>
                 EthereumCallContract connector timestamp block contract method jsonAbi packed) with
         | Ok b => ABIUnpackFunctionOutputArguments abi jsonAbi method b
         | _ => None
         end
       else None)
    (fun contract jsonAbi txHash eventName =>
       if abi_parses abi jsonAbi then
         match with_connector s (fun connector =>
                 EthereumGetTransactionLogs connector timestamp contract eventName jsonAbi txHash) with
         | Ok (output :: _, block, index) =>
             out ← ABIUnpackAllEventArguments abi jsonAbi eventName output; Some (out, block, index)
         | _ => None
         end
       else None)
    (eth_number (fun connector => EthereumGetBlockNumber connector timestamp))
    (fun t => eth_number (fun connector => EthereumGetBlockNumberByTime connector timestamp t))
    (eth_number (fun connector => EthereumGetBlockTime connector timestamp))
    (fun n => eth_number (fun connector => EthereumGetBlockTimeByNumber connector timestamp n)).

Definition event_of (ev : bytes * bytes * list Argument) : Event :=
  mkEvent ev.1.1 ev.1.2 (RawArgumentsArray (ArgumentArrayReader (raw_ArgumentArray ev.2))).

(** The context is that of a call of the contract in the environment, in a
    transaction, and holds the state and the events of the world. *)
Record represents (e : call_env) (w : world) (c : executionContext) : Prop := {
  r_access : accessScope c = ACCESS_SCOPE_READ_WRITE;
  r_service : serviceStackTop c = e_contract e;
  r_signer : handleSdkAddressGetSignerAddress c [] = Ok (e_signer e);
  r_caller : handleSdkAddressGetCallerAddress c [] = Ok (e_caller e);
  r_height : currentBlockHeight c = e_height e;
  r_timestamp : currentBlockTimestamp c = e_timestamp e;
  r_proposer : currentBlockProposerAddress c = e_proposer e;
  r_vcid : e_vcid e = wrap 32 VirtualChainId;
  r_ethereum : e_ethereum e = ethereum_at (e_timestamp e);
  r_values key : value_in c key = Some (stored (w_store w) (e_contract e) key);
  r_events : eventList c = map event_of (w_events w)
}.

(** What a run of the program and a run of its code have in common: both return the
    same, or both panic. *)
Definition same_reply {A} (r : reply A) (r' : A + panic_value) : Prop :=
  match r, r' with
  | Returned a, inl a' => a = a'
  | Panicked _, inr _ => True
  | _, _ => False
  end.

Definition refines {A} (e : call_env) (w : world) (p : reply A * world) (st : vm_state) (m : code mem A) : Prop :=
  exists c' r, exec (HandleSdkCall s call) step_mem m st
    = Some (mkVmState (<[id := c']> (activeContexts st)) (lastContextIdCounter st), r) /\
    same_reply p.1 r /\ represents e p.2 c'.

Ltac decided := repeat first [rewrite bool_decide_true by done | rewrite bool_decide_false by discriminate].

Lemma refines_read {A} e w c st (p : reply A * world) (m : code mem A) r :
  activeContexts st !! id = Some c -> represents e w c ->
  exec (HandleSdkCall s call) step_mem m st = Some (st, r) -> same_reply p.1 r -> p.2 = w -> refines e w p st m.
Proof.
  intros Hc Hr Hm Hsame Hw. exists c, r. rewrite insert_id by done. destruct st. rewrite Hw. auto.
Qed.

(** A call of the handler that leaves the state alone. *)
Lemma exec_returned {A} operation method args corrupt (get : list Argument -> option A) st c o :
  activeContexts st !! id = Some c ->
  HandleSdkCall s call (mkSdkCall id (go_string operation) (go_string method) args permissionScope) st = Some (st, o) ->
  exec (HandleSdkCall s call) step_mem
    (output ← sdk_call id permissionScope operation method args; returned corrupt get output) st
  = Some (st, match o with
              | Ok output => match get output with Some a => inl a | None => inr (PanicMessage corrupt) end
              | Err err => inr (PanicError err)
              | Panic => inr PanicRuntime
              end).
Proof.
  intros Hc Hcall. rewrite exec_bind. unfold sdk_call, handle_call. cbn [exec]. rewrite Hcall.
  destruct o as [output| |]; cbn; [by destruct (get output)|done|done].
Qed.

Lemma handle_address c st method (handler : executionContext -> list Argument -> outcome vm_error bytes) :
  activeContexts st !! id = Some c ->
  (method = "getSignerAddress" /\ handler = handleSdkAddressGetSignerAddress \/
   method = "getCallerAddress" /\ handler = handleSdkAddressGetCallerAddress)%string ->
  HandleSdkCall s call (mkSdkCall id (go_string "Sdk.Address") (go_string method) [] permissionScope) st
  = Some (st, match handler c [] with Ok a => Ok [ArgBytes a] | Err err => Err err | Panic => Panic end).
Proof.
  intros Hc Hm. unfold HandleSdkCall, loadExecutionContext. cbn [sdk_ContextId sdk_OperationName sdk_MethodName sdk_InputArguments].
  rewrite Hc. decided. unfold handleSdkAddressCall, deref, vm_bind, lift. rewrite Hc.
  destruct Hm as [[-> ->]|[-> ->]]; decided.
  - by destruct (handleSdkAddressGetSignerAddress c []).
  - by destruct (handleSdkAddressGetCallerAddress c []).
Qed.

Lemma getValue_setValue t contract k v d contract' k' :
  getValue (setValue t contract k v d) contract' k'
  = if bool_decide (contract' = contract /\ k' = k) then Some v else getValue t contract' k'.
Proof.
  unfold getValue, setValue. destruct (contracts t !! contract) as [cs|] eqn:E;
    [destruct (pairs cs !! k) as [kv|] eqn:Ek|]; cbn [contracts pairs]; rewrite ?lookup_empty; cbn [contracts pairs].
  all: destruct (decide (contract' = contract)) as [->|Hne];
    [rewrite lookup_insert_eq; cbn [pairs]; destruct (decide (k' = k)) as [->|Hk];
       [rewrite lookup_insert_eq, bool_decide_true by done|rewrite lookup_insert_ne, bool_decide_false by naive_solver]
    |rewrite lookup_insert_ne, bool_decide_false by naive_solver]; rewrite ?E; try done.
Qed.

(** A context in which a value of the current contract was read or written. *)
Lemma represents_set e w c key value d :
  represents e w c -> (d = false -> value = stored (w_store w) (e_contract e) key) ->
  represents e (if d then mkWorld (<[(e_contract e, key) := value]> (w_store w)) (w_events w) else w)
    (with_transient (setValue (transientSt c) (serviceStackTop c) key value d) c).
Proof.
  intros [R1 R2 R3 R4 R5 R6 R7 R8 R9 R10 R11] Hd. split; try done; [|by destruct d].
  intros k. specialize (R10 k). unfold value_in in *. cbn [transientSt with_transient serviceStackTop] in *.
  change (serviceStackTop (with_transient _ c)) with (serviceStackTop c). rewrite getValue_setValue.
  destruct (decide (k = key)) as [->|Hk].
  - rewrite bool_decide_true by done. destruct d; cbn [w_store]; [by rewrite stored_insert_eq|]. by rewrite Hd.
  - rewrite bool_decide_false by naive_solver. destruct d; cbn [w_store]; [|done].
    by rewrite stored_insert_ne by congruence.
Qed.

Lemma alter_context (m : gmap bytes executionContext) i x f : m !! i = Some x -> alter f i m = <[i := f x]> m.
Proof. intros Hi. rewrite <-(insert_id m i x Hi) at 1. by rewrite alter_insert_eq. Qed.

Lemma handle_read c st key v e w :
  activeContexts st !! id = Some c -> represents e w c -> v = stored (w_store w) (e_contract e) key ->
  exists c', HandleSdkCall s call (mkSdkCall id (go_string "Sdk.State") (go_string "read") [ArgBytes key] permissionScope) st
    = Some (mkVmState (<[id := c']> (activeContexts st)) (lastContextIdCounter st), Ok [ArgBytes v]) /\ represents e w c'.
Proof.
  intros Hc Hr Hv. pose proof (r_values _ _ _ Hr key) as Hval. unfold HandleSdkCall, loadExecutionContext.
  cbn [sdk_ContextId sdk_OperationName sdk_MethodName sdk_InputArguments]. rewrite Hc. decided.
  unfold handleSdkStateCall. decided. unfold handleSdkStateRead, vm_bind, deref, vm_ret. rewrite Hc.
  unfold value_in in Hval. rewrite <-Hv in Hval. destruct (getValue (transientSt c) _ key) as [x|].
  { injection Hval as ->. exists c. rewrite insert_id by done. by destruct st. }
  destruct (batchTransientState c ≫= _) as [x|].
  { injection Hval as ->. exists c. rewrite insert_id by done. by destruct st. }
  unfold of_outcome. destruct (s_ReadKeys s _ _ _) as [[|rec l]| |]; [done| |done..]. injection Hval as Hval.
  unfold assign. eexists. rewrite Hval. split.
  - rewrite (alter_context _ _ _ _ Hc). reflexivity.
  - apply (represents_set e w c key v false Hr). done.
Qed.

Lemma handle_write c st key value e w :
  activeContexts st !! id = Some c -> represents e w c ->
  exists c', HandleSdkCall s call (mkSdkCall id (go_string "Sdk.State") (go_string "write") [ArgBytes key; ArgBytes value]
                permissionScope) st
    = Some (mkVmState (<[id := c']> (activeContexts st)) (lastContextIdCounter st), Ok []) /\
    represents e (mkWorld (<[(e_contract e, key) := value]> (w_store w)) (w_events w)) c'.
Proof.
  intros Hc Hr. unfold HandleSdkCall, loadExecutionContext.
  cbn [sdk_ContextId sdk_OperationName sdk_MethodName sdk_InputArguments]. rewrite Hc. decided.
  unfold handleSdkStateCall. decided. unfold handleSdkStateWrite, vm_bind, deref, vm_ret. rewrite Hc, (r_access _ _ _ Hr).
  rewrite bool_decide_false by tauto. unfold assign. eexists. rewrite (alter_context _ _ _ _ Hc). split; [done|].
  by apply (represents_set e w c key value true Hr).
Qed.

Lemma handle_emit c st name args e w :
  activeContexts st !! id = Some c -> represents e w c ->
  exists c', HandleSdkCall s call (mkSdkCall id (go_string "Sdk.Events") (go_string "emitEvent")
                [ArgString name; ArgBytes (raw_ArgumentArray args)] permissionScope) st
    = Some (mkVmState (<[id := c']> (activeContexts st)) (lastContextIdCounter st), Ok []) /\
    represents e (mkWorld (w_store w) (w_events w ++ [(e_contract e, name, args)])) c'.
Proof.
  intros Hc Hr. unfold HandleSdkCall, loadExecutionContext.
  cbn [sdk_ContextId sdk_OperationName sdk_MethodName sdk_InputArguments]. rewrite Hc. decided.
  unfold handleSdkEventsCall. decided. unfold handleSdkEventsEmitEvent, vm_bind, assign, vm_ret.
  eexists. rewrite (alter_context _ _ _ _ Hc). split; [done|].
  destruct Hr as [R1 R2 R3 R4 R5 R6 R7 R8 R9 R10 R11]. split; try done.
  cbn [eventListAdd with_events eventList w_events]. rewrite R11, map_app. cbn [map]. do 2 f_equal.
  unfold event_of. cbn [fst snd]. by rewrite <-R2.
Qed.

Lemma handle_env c st e w :
  activeContexts st !! id = Some c -> represents e w c ->
  let get method := HandleSdkCall s call (mkSdkCall id (go_string "Sdk.Env") (go_string method) [] permissionScope) st in
  get "getBlockHeight"%string = Some (st, Ok [ArgUint64 (e_height e)]) /\
  get "getBlockTimestamp"%string = Some (st, Ok [ArgUint64 (e_timestamp e)]) /\
  get "getBlockProposerAddress"%string = Some (st, Ok [ArgBytes (e_proposer e)]).
Proof.
  intros Hc Hr. cbv zeta. unfold HandleSdkCall, loadExecutionContext.
  cbn [sdk_ContextId sdk_OperationName sdk_MethodName sdk_InputArguments]. rewrite Hc. decided.
  unfold handleSdkEnvCall, deref, vm_bind, lift, vm_ret. rewrite Hc. decided.
  unfold handleSdkEnvGetBlockHeight, handleSdkEnvGetBlockTimestamp, handleSdkEnvGetBlockProposerAddress. decided.
  rewrite <-(r_height _ _ _ Hr), <-(r_timestamp _ _ _ Hr), <-(r_proposer _ _ _ Hr). done.
Qed.

Lemma handle_ethereum c st method args :
  activeContexts st !! id = Some c ->
  HandleSdkCall s call (mkSdkCall id (go_string "Sdk.Ethereum") (go_string method) args permissionScope) st
  = handleSdkEthereumCall s id (go_string method) args st.
Proof.
  intros Hc. unfold HandleSdkCall, loadExecutionContext.
  cbn [sdk_ContextId sdk_OperationName sdk_MethodName sdk_InputArguments]. rewrite Hc. by decided.
Qed.

(** A number of Ethereum: the code and the program both get it, or both panic. *)
Lemma refines_number e w c st method args corrupt f (handler : executionContext -> list Argument -> outcome vm_error Z) :
  activeContexts st !! id = Some c -> represents e w c ->
  handleSdkEthereumCall s id (go_string method) args st
  = (let% value := lift (handler c args) in vm_ret [ArgUint64 value])%vm st ->
  handler c args = with_connector s (f (e_timestamp e)) ->
  refines e w (or_panic (eth_number (f (e_timestamp e))), w) st
    (output ← sdk_call id permissionScope "Sdk.Ethereum" method args; returned corrupt one_uint64 output).
Proof.
  intros Hc Hr Hcall Hhandler.
  assert (HandleSdkCall s call (mkSdkCall id (go_string "Sdk.Ethereum") (go_string method) args permissionScope) st
    = Some (st, match with_connector s (f (e_timestamp e)) with Ok n => Ok [ArgUint64 n] | Err err => Err err | Panic => Panic end))
    as Hsdk.
  { rewrite (handle_ethereum c), Hcall by done. unfold vm_bind, lift, vm_ret. rewrite Hhandler. by destruct (with_connector s _). }
  eapply refines_read; [done|done|by eapply exec_returned| |done].
  unfold eth_number. by destruct (with_connector s _).
Qed.

Lemma refines_call e w c st block contract jsonAbi method args :
  activeContexts st !! id = Some c -> represents e w c ->
  refines e w (or_panic (eth_call (e_ethereum e) block contract jsonAbi method args), w) st
    (SdkEthereumCallMethod abi id permissionScope contract jsonAbi block method args).
Proof.
  intros Hc Hr. rewrite (r_ethereum _ _ _ Hr). cbn [ethereum_at eth_call]. unfold SdkEthereumCallMethod.
  destruct (abi_parses abi jsonAbi); cbn [negb]; [|by eapply refines_read].
  destruct (ABIPackFunctionInputArguments _ _ _ _) as [packed|]; [|by eapply refines_read]. cbn [mbind option_bind].
  set (o := with_connector s _).
  assert (HandleSdkCall s call (mkSdkCall id (go_string "Sdk.Ethereum") (go_string "callMethod")
     [ArgString contract; ArgString jsonAbi; ArgUint64 block; ArgString method; ArgBytes packed] permissionScope) st
    = Some (st, match o with Ok b => Ok [ArgBytes b] | Err err => Err err | Panic => Panic end)) as Hsdk.
  { rewrite (handle_ethereum c) by done. unfold handleSdkEthereumCall, deref, vm_bind, lift, vm_ret. rewrite Hc. decided.
    cbn [handleSdkEthereumCallMethod]. rewrite (r_timestamp _ _ _ Hr). fold o. by destruct o. }
  clearbody o. destruct o as [b| |]; [destruct (ABIUnpackFunctionOutputArguments abi jsonAbi method b) as [out|] eqn:Hout|..].
  all: eapply refines_read; [done|done|rewrite exec_bind; unfold sdk_call, handle_call; cbn [exec]; rewrite Hsdk;
    cbn; rewrite ?Hout; reflexivity|done|done].
Qed.

Lemma refines_log e w c st contract jsonAbi txHash eventName :
  activeContexts st !! id = Some c -> represents e w c ->
  refines e w (or_panic (eth_log (e_ethereum e) contract jsonAbi txHash eventName), w) st
    (SdkEthereumGetTransactionLog abi id permissionScope contract jsonAbi txHash eventName).
Proof.
  intros Hc Hr. rewrite (r_ethereum _ _ _ Hr). cbn [ethereum_at eth_log]. unfold SdkEthereumGetTransactionLog.
  destruct (abi_parses abi jsonAbi); cbn [negb]; [|by eapply refines_read]. set (o := with_connector s _).
  assert (HandleSdkCall s call (mkSdkCall id (go_string "Sdk.Ethereum") (go_string "getTransactionLog")
     [ArgString contract; ArgString jsonAbi; ArgString txHash; ArgString eventName] permissionScope) st
    = Some (st, match o with
                | Ok ([], _, _) => Panic
                | Ok (output :: _, block, index) => Ok [ArgBytes output; ArgUint64 block; ArgUint32 index]
                | Err err => Err err
                | Panic => Panic
                end)) as Hsdk.
  { rewrite (handle_ethereum c) by done. unfold handleSdkEthereumCall, deref, vm_bind, lift, vm_ret. rewrite Hc. decided.
    cbn [handleSdkEthereumGetTransactionLog]. rewrite (r_timestamp _ _ _ Hr). fold o. by destruct o as [[[[|] ?] ?]| |]. }
  clearbody o. destruct o as [[[[|output l] block] index]| |];
    [|destruct (ABIUnpackAllEventArguments abi jsonAbi eventName output) as [out|] eqn:Hout|..].
  all: eapply refines_read; [done|done|rewrite exec_bind; unfold sdk_call, handle_call; cbn [exec]; rewrite Hsdk;
    cbn; rewrite ?Hout; reflexivity|by cbn; rewrite ?Hout|done].
Qed.

Ltac number := unfold handleSdkEthereumCall, deref, vm_bind;
  match goal with Hc : activeContexts _ !! _ = Some _ |- _ => rewrite Hc end; by decided.

(** One call of the SDK. *)
Lemma interp_op_refines {X} (op : sdk_op X) e w c st :
  local_op op -> activeContexts st !! id = Some c -> represents e w c ->
  refines e w (step call_method e op w) st (interp_op abi VirtualChainId id permissionScope op).
Proof.
  intros Hl Hc Hr. destruct (handle_env c st e w Hc Hr) as (Hheight & Htime & Hprop).
  destruct op; cbn [local_op] in Hl; try done; cbn [step interp_op].
  - destruct (handle_read c st key _ e w Hc Hr eq_refl) as (c' & Hrun & Hr'). eexists c', (inl _). split; [|by split].
    unfold SdkStateReadBytes. rewrite exec_bind. unfold sdk_call, handle_call. cbn [exec]. rewrite Hrun. done.
  - destruct (handle_write c st key value e w Hc Hr) as (c' & Hrun & Hr'). eexists c', (inl _). split; [|by split].
    unfold SdkStateWriteBytes. rewrite exec_bind. unfold sdk_call, handle_call. cbn [exec]. rewrite Hrun. done.
  - eapply refines_read; [done|done|eapply exec_returned; [done|by apply (handle_address c _ _ handleSdkAddressGetSignerAddress); auto]
      |by rewrite (r_signer _ _ _ Hr)|done].
  - eapply refines_read; [done|done|eapply exec_returned; [done|by apply (handle_address c _ _ handleSdkAddressGetCallerAddress); auto]
      |by rewrite (r_caller _ _ _ Hr)|done].
  - unfold SdkAddressGetContractAddress, contract_address.
    destruct (CalcClientAddressOfContract contractName); by eapply refines_read.
  - eapply refines_read; [done|done|by eapply exec_returned|done|done].
  - eapply refines_read; [done|done|by eapply exec_returned|done|done].
  - eapply refines_read; [done|done|reflexivity|apply (r_vcid _ _ _ Hr)|done].
  - eapply refines_read; [done|done|by eapply exec_returned|done|done].
  - destruct (handle_emit c st eventName args e w Hc Hr) as (c' & Hrun & Hr'). eexists c', (inl _). split; [|by split].
    unfold emit. rewrite exec_bind. unfold sdk_call, handle_call. cbn [exec]. rewrite Hrun. done.
  - by eapply refines_call.
  - by eapply refines_log.
  - rewrite (r_ethereum _ _ _ Hr).
    apply (refines_number e w c st _ _ _ (fun ts connector => EthereumGetBlockNumber connector ts)
             (handleSdkEthereumGetBlockNumber s)); [done|done|number|by rewrite <-(r_timestamp _ _ _ Hr)].
  - rewrite (r_ethereum _ _ _ Hr).
    apply (refines_number e w c st _ _ _ (fun ts connector => EthereumGetBlockNumberByTime connector ts ethBlockTimestamp)
             (handleSdkEthereumGetBlockNumberByTime s)); [done|done|number|by rewrite <-(r_timestamp _ _ _ Hr)].
  - rewrite (r_ethereum _ _ _ Hr).
    apply (refines_number e w c st _ _ _ (fun ts connector => EthereumGetBlockTime connector ts)
             (handleSdkEthereumGetBlockTime s)); [done|done|number|by rewrite <-(r_timestamp _ _ _ Hr)].
  - rewrite (r_ethereum _ _ _ Hr).
    apply (refines_number e w c st _ _ _ (fun ts connector => EthereumGetBlockTimeByNumber connector ts ethBlockNumber)
             (handleSdkEthereumGetBlockTimeByNumber s)); [done|done|number|by rewrite <-(r_timestamp _ _ _ Hr)].
Qed.

(** A program, by induction. *)
Lemma interp_refines {A} (p : prog A) e w c st :
  local p -> activeContexts st !! id = Some c -> represents e w c ->
  refines e w (run call_method e p w) st (interp abi VirtualChainId id permissionScope p).
Proof.
  intros Hl Hc Hr. revert w c st Hc Hr. induction p as [a|v|X op continue IH]; intros w c st Hc Hr; cbn [run interp].
  - by eapply refines_read.
  - by eapply refines_read.
  - destruct Hl as [Hop Hl]. destruct (interp_op_refines op e w c st Hop Hc Hr) as (c1 & r & Hexec & Hsame & Hr1).
    unfold refines. rewrite exec_bind, Hexec. destruct (step call_method e op w) as [[x|v] w1], r as [x'|v']; try done.
    + cbn in Hsame. subst x'. set (st1 := mkVmState _ _).
      destruct (IH x (Hl x) w1 c1 st1) as (c2 & r2 & Hexec2 & Hsame2 & Hr2); [apply lookup_insert_eq|done|].
      exists c2, r2. rewrite Hexec2. cbn [st1 activeContexts lastContextIdCounter]. by rewrite insert_insert_eq.
    + by exists c1, (inr v').
Qed.

End Refinement.

(** ** An example *)

Module Refined.
Import Execution.ExampleMachine ContractSdk.ExampleSdk.

(** A contract that writes a value, reads it again and emits it, in a new context. *)
Definition program : prog bytes :=
  _ ← WriteBytes [1] [7];
  v ← ReadBytes [1];
  _ ← perform (EventsEmitEvent [9] [ArgBytes v]);
  mret v.
Definition new_context : executionContext :=
  mkContext 3 4 100 [9] [[65]] newTransientState ACCESS_SCOPE_READ_WRITE None
    (Some (mkTransactionOrQuery [65] [66] [] (mkSigner [] None))) [].
Definition state0 : vm_state := mkVmState {[ [8] := new_context ]} 1.
Definition no_abi : Abi := mkAbi (fun _ => false) (fun _ _ _ => None) (fun _ _ _ => None) (fun _ _ _ => None).
Definition env : call_env :=
  mkEnv [65] EmptySignerAddress EmptySignerAddress 4 100 42 [9] [] (ethereum_at (machine []) no_abi 100).
Definition no_mem (X : Type) : Type := Empty_set.
Definition step_no_mem (X : Type) (op : no_mem X) (st : vm_state) : X * vm_state := match op with end.

Lemma new_represents : represents (machine []) no_abi 42 env (mkWorld ∅ []) new_context.
Proof. split; reflexivity. Qed.

End Refined.
