(* ===== verification/NativeProcessor.v ===== *)
(** * The native processor (services/processor/native)

    Runs the calls of contracts written in Go: it finds the contract, prebuilt or
    compiled from the code that is in the state, finds the method and checks that the
    caller may run it, checks the types of the arguments, and calls the method with a
    recover around it.  Contracts and their methods are kept in a cache that all calls
    share, also the calls that a running call makes.

    Go's reflection is [func] with the types of its parameters; the compiler and the
    texts of errors are arguments. *)
From stdpp Require Import base gmap strings numbers list.
From Stdlib Require Import ZArith Lia.
From S2P Require Import Prelude Hash VirtualMachine Execution ContractSdk ProcessorSdk Sanitizer.
Import VirtualMachine.

Module NativeProcessor.

(** ** Contracts (types/contract.go) *)

Section Contracts.
Context `{Natives}.

Record ContractInfo := mkInfo {
  ci_PublicMethods : list method_value;
  ci_SystemMethods : list method_value;
  ci_EventsMethods : list method_value;
  ci_Permission : PermissionScope
}.

Record ContractInstance := mkInstance {
  PublicMethods : gmap bytes func;
  SystemMethods : gmap bytes func;
  EventsMethods : gmap bytes func
}.

(** The loops that add methods under their names. *)
Fixpoint add_methods (methods : list method_value) (m : gmap bytes func) : outcome native_error (gmap bytes func) :=
  match methods with
  | [] => Ok m
  | method :: methods =>
      let! name := GetContractMethodNameFromFunction method in
      match method with
      | Function f => add_methods methods (<[name := f]> m)
      | NotAFunction => Err ErrNotAFunction
      end
  end.

(** The events are added to the system methods. *)
Definition NewContractInstance (contractInfo : ContractInfo) : outcome native_error ContractInstance :=
  let! public := add_methods (ci_PublicMethods contractInfo) ∅ in
  let! system := add_methods (ci_SystemMethods contractInfo) ∅ in
  let! system := add_methods (ci_EventsMethods contractInfo) system in
  Ok (mkInstance public system ∅).

(** ** The cache (service.go) *)

Record contractCache := mkCache {
  contractInfo : gmap bytes ContractInfo;
  contractInstances : gmap bytes ContractInstance
}.

Definition newContractCache : contractCache := mkCache ∅ ∅.

Inductive cache_op : Type -> Type :=
| infoByName (contractName : bytes) : cache_op (option ContractInfo)
| addInfo (contractName : bytes) (info : ContractInfo) : cache_op unit
| instanceByNam (contractName : bytes) : cache_op (option ContractInstance)
| addInstance (contractName : bytes) (instance : ContractInstance) : cache_op unit.

Definition step_cache {X} (op : cache_op X) (c : contractCache) : X * contractCache :=
  match op in cache_op X return X * contractCache with
  | infoByName name => (contractInfo c !! name, c)
  | addInfo name info => (tt, mkCache (<[name := info]> (contractInfo c)) (contractInstances c))
  | instanceByNam name => (contractInstances c !! name, c)
  | addInstance name instance => (tt, mkCache (contractInfo c) (<[name := instance]> (contractInstances c)))
  end.

End Contracts.

(** ** Calls of methods (call.go) *)

Section Calls.
Context `{Natives}.

(** The types of the arguments from index [i] on: those of the parameters, or, from
    the last one on for a variadic function, the type of its elements. *)
Fixpoint verify_types (methodType : func) (i : nat) (args : list native) : option native_error :=
  match args with
  | [] => None
  | a :: args =>
      let expected :=
        if fn_IsVariadic methodType && (length (fn_In methodType) - 1 <=? i)%nat
        then Elem <$> last (fn_In methodType) else fn_In methodType !! i in
      if bool_decide (Some (TypeOf a) <> expected) then Some (ErrArgumentType (Z.of_nat i))
      else verify_types methodType (S i) args
  end.

Definition verifyMethodInputArgs (methodType : func) (args : list native) : outcome native_error (list native) :=
  let numOfArgs := length args in
  let NumIn := length (fn_In methodType) in
  if fn_IsVariadic methodType then
    if (numOfArgs <? NumIn - 1)%nat then Err (ErrTakesAtLeast (Z.of_nat (NumIn - 1)))
    else match verify_types methodType 0 args with Some e => Err e | None => Ok args end
  else if (numOfArgs <? NumIn)%nat then Err (ErrReceivedLess (Z.of_nat NumIn))
  else if (NumIn <? numOfArgs)%nat then Err (ErrReceivedMore (Z.of_nat NumIn))
  else match verify_types methodType 0 args with Some e => Err e | None => Ok args end.

Definition createMethodOutputArgs (args : list native) : outcome native_error (list Argument) :=
  match ArgumentArrayFromNatives args with Ok res => Ok res | Err _ => Err ErrOutput | Panic => Panic end.

Definition createMethodOutputArgsWithString (str : bytes) : list Argument := [ArgString str].

(** *** The types of the arguments *)

(** The arguments that a call may be made with: reflect.Value.Call panics for others.  A
    variadic function has its last parameter for any number of arguments. *)
Definition callable (f : func) (args : list native) : Prop :=
  if fn_IsVariadic f then
    exists fixed rest element, args = fixed ++ rest /\
      map TypeOf fixed = take (length (fn_In f) - 1) (fn_In f) /\
      (rest = [] \/ last (fn_In f) = Some element) /\ Forall (fun a => TypeOf a = Elem element) rest
  else map TypeOf args = fn_In f.

(** The type of the parameter an argument is for. *)
Definition expected_type (f : func) (i : nat) : option go_type :=
  if fn_IsVariadic f && (length (fn_In f) - 1 <=? i)%nat then Elem <$> last (fn_In f) else fn_In f !! i.

Lemma verify_types_spec f i args :
  verify_types f i args = None <-> forall j a, args !! j = Some a -> expected_type f (i + j) = Some (TypeOf a).
Proof.
  revert i. induction args as [|a args IH]; intros i; cbn [verify_types]; [split; [done|reflexivity]|].
  fold (expected_type f i). case_bool_decide as Ht.
  - split; [done|]. intros Hall. exfalso. apply Ht. by rewrite <-(Hall 0%nat a), Nat.add_0_r.
  - rewrite IH. split.
    + intros Hall [|j] b Hb; cbn in Hb; [by injection Hb as <-; rewrite Nat.add_0_r|].
      rewrite Nat.add_succ_r. by apply (Hall j b).
    + intros Hall j b Hb. rewrite <-(Hall (S j) b) by done. f_equal. lia.
Qed.

Lemma types_fixed (types : list go_type) args :
  map TypeOf args = types <-> length args = length types /\ forall j a, args !! j = Some a -> types !! j = Some (TypeOf a).
Proof.
  split.
  - intros <-. rewrite length_map. split; [done|]. intros j a Ha. by rewrite list_lookup_fmap, Ha.
  - intros [Hlen Hall]. apply list_eq. intros j. rewrite list_lookup_fmap. destruct (args !! j) as [a|] eqn:Ha; cbn.
    + by rewrite (Hall j a).
    + symmetry. apply lookup_ge_None. rewrite <-Hlen. by apply lookup_ge_None.
Qed.

Lemma types_variadic f args :
  fn_IsVariadic f = true -> fn_In f <> [] ->
  callable f args <->
  (length (fn_In f) - 1 <= length args)%nat /\ forall j a, args !! j = Some a -> expected_type f j = Some (TypeOf a).
Proof.
  intros Hv Hne. unfold callable, expected_type. rewrite Hv. cbn [andb]. set (n := (length (fn_In f) - 1)%nat).
  assert (n < length (fn_In f))%nat as Hn by (subst n; destruct (fn_In f); [done|cbn; lia]).
  destruct (last (fn_In f)) as [t|] eqn:Hlast; [|by apply last_None in Hlast]. cbn [fmap option_fmap option_map].
  assert (forall j, (j < n)%nat -> fn_In f !! j = take n (fn_In f) !! j) as Htake by (intros j Hj; by rewrite lookup_take_lt).
  split.
  - intros (fixed & rest & element & -> & Hfix & Hel & Hrest).
    assert (length fixed = n) as Hlen.
    { rewrite <-(length_map TypeOf), Hfix, length_take. lia. }
    apply types_fixed in Hfix as [_ Hfix]. split; [rewrite length_app; lia|]. intros j a Ha.
    destruct (Nat.leb_spec n j) as [Hj|Hj].
    + rewrite lookup_app_r in Ha by lia. rewrite Forall_forall in Hrest. rewrite (Hrest a) by by eapply list_elem_of_lookup_2.
      destruct Hel as [->|Hel]; [done|]. by injection Hel as ->.
    + rewrite lookup_app_l in Ha by lia. rewrite Htake by done. by apply Hfix.
  - intros [Hlen Hall]. exists (take n args), (drop n args), t. split_and!.
    + by rewrite take_drop.
    + apply types_fixed. rewrite !length_take. split; [lia|]. intros j a Ha.
      apply lookup_take_Some in Ha as [Ha Hj]. specialize (Hall j a Ha). destruct (Nat.leb_spec n j); [lia|].
      by rewrite <-Htake.
    + by right.
    + apply Forall_forall. intros a (j & Ha)%list_elem_of_lookup_1. rewrite lookup_drop in Ha. specialize (Hall _ a Ha).
      destruct (Nat.leb_spec n (n + j)); [|lia]. by injection Hall.
Qed.

(** C23. The arguments of a call are typed: a method is called exactly with arguments
    whose number and types are those of its parameters - for a variadic method, at
    least the parameters before the last one, and then any number of elements of the
    last - so that the call by reflection cannot panic; it gets them unchanged. *)
Theorem verifyMethodInputArgs_type f args args' :
  (fn_IsVariadic f = true -> fn_In f <> []) ->
  verifyMethodInputArgs f args = Ok args' <-> callable f args /\ args' = args.
Proof.
  intros Hne. unfold verifyMethodInputArgs. pose proof (verify_types_spec f 0 args) as Hspec. cbn [Nat.add] in Hspec.
  destruct (fn_IsVariadic f) eqn:Hv.
  - rewrite types_variadic by auto. destruct (Nat.ltb_spec (length args) (length (fn_In f) - 1)) as [Hl|Hl].
    { split; [done|]. intros [[Hl' _] _]. lia. }
    rewrite <-Hspec. destruct (verify_types f 0 args); naive_solver.
  - unfold callable. rewrite Hv, types_fixed. unfold expected_type in Hspec. rewrite Hv in Hspec. cbn [andb] in Hspec.
    rewrite <-Hspec. destruct (Nat.ltb_spec (length args) (length (fn_In f))); [naive_solver lia|].
    destruct (Nat.ltb_spec (length (fn_In f)) (length args)); [naive_solver lia|].
    assert (length args = length (fn_In f)) by lia. destruct (verify_types f 0 args); naive_solver.
Qed.

(** *** A call *)

Context `{Sha256} `{ArgumentArrays}.
Variable abi : Abi.
Variable VirtualChainId : Z.
(** The text of an error. *)
Variable Error : native_error -> bytes.

(** The results of a call, the error of the contract, and the error of the call. *)
Definition call_result : Type := option (list Argument) * option native_error * option native_error.

Definition processMethodCall (executionContextId : bytes) (permissionScope : PermissionScope) (methodInstance : func)
    (args : list Argument) : code cache_op call_result :=
  r ← recover
    (match ToNatives args with
     | Panic => CPanic PanicRuntime
     | Err _ => mret (None, None, Some ErrToNatives)
     | Ok inArgs =>
         match verifyMethodInputArgs methodInstance inArgs with
         | Panic => CPanic PanicRuntime
         | Err e => mret (None, None, Some e)
         | Ok inValues =>
             outValues ← interp abi VirtualChainId executionContextId permissionScope (fn_Call methodInstance inValues);
             match createMethodOutputArgs outValues with
             | Panic => CPanic PanicRuntime
             | Err e => mret (None, None, Some e)
             | Ok contractOutputArgs => mret (Some contractOutputArgs, None, None)
             end
         end
     end);
  mret (match r with
        | inl result => result
        | inr v => (Some (createMethodOutputArgsWithString (Error (ErrPanic v))), Some (ErrPanic v), None)
        end).

(** ** Repositories (compiling_repository.go, repository/index.go) *)

Definition repository : Type := bytes -> bytes -> code cache_op (outcome native_error (option ContractInfo)).

(** The prebuilt contracts. *)
Definition prebuiltRepository_ContractInfo (preBuiltContracts : gmap bytes ContractInfo) : repository :=
  fun _ contractName => mret (Ok (preBuiltContracts !! contractName)).

(** The first repository that has the contract, or an error. *)
Fixpoint CompositeRepository_ContractInfo (Nested : list repository) : repository := fun executionContextId contractName =>
  match Nested with
  | [] => mret (Ok None)
  | repo :: Nested =>
      r ← repo executionContextId contractName;
      match r with
      | Ok None => CompositeRepository_ContractInfo Nested executionContextId contractName
      | _ => mret r
      end
  end.

(** The sanitizer, if the configuration asks for it, and the compiler: an error, or a
    symbol that may be missing. *)
Variable sanitizer : bytes -> outcome Sanitizer.sanitize_error bytes.
Variable ProcessorSanitizeDeployedContracts : bool.
Variable Compile : list bytes -> option (option ContractInfo).

(** A call of the deployments contract, with the permission of the system; the first
    argument of its output has to be there. *)
Definition call_deployments (executionContextId : bytes) (methodName : string) (inputArguments : list Argument)
    : code cache_op (outcome native_error Argument) :=
  output ← handle_call (mkSdkCall executionContextId (go_string "Sdk.Service") (go_string "callMethod")
    [ArgString DEPLOYMENTS_CONTRACT_NAME; ArgString (go_string methodName); ArgBytes (raw_ArgumentArray inputArguments)]
    PERMISSION_SCOPE_SYSTEM);
  match output with
  | Panic => CPanic PanicRuntime
  | Err e => mret (Err (ErrSdk e))
  | Ok [ArgBytes b] =>
      match ArgumentArrayReader b with
      | [] => mret (Err ErrCorruptCode)
      | arg0 :: _ => mret (Ok arg0)
      end
  | Ok _ => mret (Err ErrCorruptCode)
  end.

Definition getCodeParts (executionContextId contractName : bytes) : code cache_op (outcome native_error Z) :=
  r ← call_deployments executionContextId "getCodeParts" [ArgString contractName];
  mret (match r with
        | Ok (ArgUint32 n) => Ok n
        | Ok _ => Err ErrCorruptCode
        | Err e => Err e
        | Panic => Panic
        end).

Definition callGetCodeOfDeploymentSystemContract (executionContextId contractName : bytes) (index : Z)
    : code cache_op (outcome native_error bytes) :=
  r ← call_deployments executionContextId "getCodePart" [ArgString contractName; ArgUint32 index];
  mret (match r with
        | Ok (ArgBytes part) => Ok part
        | Ok _ => Err ErrCorruptCode
        | Err e => Err e
        | Panic => Panic
        end).

(** The loop over the parts from [index] on. *)
Fixpoint get_parts (n : nat) (executionContextId contractName : bytes) (index : Z) (results : list bytes)
    : code cache_op (outcome native_error (list bytes)) :=
  match n with
  | O => mret (Ok results)
  | S n =>
      part ← callGetCodeOfDeploymentSystemContract executionContextId contractName index;
      match part with
      | Ok part => get_parts n executionContextId contractName (index + 1) (results ++ [part])
      | Err e => mret (Err e)
      | Panic => CPanic PanicRuntime
      end
  end.

Definition getFullCodeOfDeploymentSystemContract (executionContextId contractName : bytes)
    : code cache_op (outcome native_error (list bytes)) :=
  codeParts ← getCodeParts executionContextId contractName;
  match codeParts with
  | Ok codeParts => get_parts (Z.to_nat codeParts) executionContextId contractName 0 []
  | Err e => mret (Err e)
  | Panic => CPanic PanicRuntime
  end.

Definition sanitizeDeployedSourceCode (source : bytes) : outcome Sanitizer.sanitize_error bytes :=
  if ProcessorSanitizeDeployedContracts then sanitizer source else Ok source.

Fixpoint sanitize_all (rawCodeFiles : list bytes) : outcome Sanitizer.sanitize_error (list bytes) :=
  match rawCodeFiles with
  | [] => Ok []
  | rawCodeFile :: rawCodeFiles =>
      let! sanitizedCode := sanitizeDeployedSourceCode rawCodeFile in
      let! rest := sanitize_all rawCodeFiles in
      Ok (sanitizedCode :: rest)
  end.

Definition retrieveDeployedContractInfoFromState : repository := fun executionContextId contractName =>
  rawCodeFiles ← getFullCodeOfDeploymentSystemContract executionContextId contractName;
  match rawCodeFiles with
  | Panic => CPanic PanicRuntime
  | Err e => mret (Err e)
  | Ok rawCodeFiles =>
      match sanitize_all rawCodeFiles with
      | Panic => CPanic PanicRuntime
      | Err _ => mret (Err ErrSanitizer)
      | Ok source =>
          mret (match Compile source with
                | None => Err ErrCompile
                | Some None => Err ErrNoSymbol
                | Some (Some newContractInfo) => Ok (Some newContractInfo)
                end)
      end
  end.

(** ** The service (service.go) *)

Variable preBuiltContracts : gmap bytes ContractInfo.

Definition service_repository : repository :=
  CompositeRepository_ContractInfo [prebuiltRepository_ContractInfo preBuiltContracts; retrieveDeployedContractInfoFromState].

Definition retrieveContractInfo (executionContextId contractName : bytes) : code cache_op (outcome native_error ContractInfo) :=
  cached ← access (infoByName contractName);
  match cached with
  | Some contractInfo => mret (Ok contractInfo)
  | None =>
      r ← service_repository executionContextId contractName;
      match r with
      | Panic => CPanic PanicRuntime
      | Err e => mret (Err e)
      | Ok None => mret (Err ErrContractNotFound)
      | Ok (Some contractInfo) =>
          _ ← access (addInfo contractName contractInfo);
          mret (Ok contractInfo)
      end
  end.

Definition getContractInstance (contractInfo : ContractInfo) (contractName : bytes)
    : code cache_op (outcome native_error ContractInstance) :=
  cached ← access (instanceByNam contractName);
  match cached with
  | Some contractInstance => mret (Ok contractInstance)
  | None =>
      match NewContractInstance contractInfo with
      | Panic => CPanic PanicRuntime
      | Err e => mret (Err e)
      | Ok contractInstance =>
          _ ← access (addInstance contractName contractInstance);
          mret (Ok contractInstance)
      end
  end.

Definition find_method (contractInstance : ContractInstance) (methodName : bytes) (permissionScope : PermissionScope)
    : outcome native_error func :=
  match PublicMethods contractInstance !! methodName with
  | Some methodInstance => Ok methodInstance
  | None =>
      match SystemMethods contractInstance !! methodName with
      | Some methodInstance =>
          match permissionScope with
          | PERMISSION_SCOPE_SYSTEM => Ok methodInstance
          | PERMISSION_SCOPE_SERVICE => Err ErrOnlySystem
          end
      | None => Err ErrMethodNotFound
      end
  end.

Definition retrieveContractAndMethodInstances (contractInfo : ContractInfo) (contractName methodName : bytes)
    (permissionScope : PermissionScope) : code cache_op (outcome native_error func) :=
  r ← getContractInstance contractInfo contractName;
  mret (match r with
        | Ok contractInstance => find_method contractInstance methodName permissionScope
        | _ => Err ErrContractInstance
        end).

(** The output of a call that fails before the contract runs. *)
Definition system_error (result : ExecutionResult) (e : native_error) : ProcessCallOutput * option native_error :=
  (mkProcessCallOutput result (Some (createMethodOutputArgsWithString (Error e))), Some e).

Definition ProcessCall (input : ProcessCallInput) : code cache_op (ProcessCallOutput * option native_error) :=
  r ← retrieveContractInfo (pc_ContextId input) (pc_ContractName input);
  match r with
  | Panic => CPanic PanicRuntime
  | Err e => mret (system_error EXECUTION_RESULT_ERROR_CONTRACT_NOT_DEPLOYED e)
  | Ok contractInfo =>
      r ← retrieveContractAndMethodInstances contractInfo (pc_ContractName input) (pc_MethodName input)
            (pc_CallingPermissionScope input);
      match r with
      | Panic => CPanic PanicRuntime
      | Err e => mret (system_error EXECUTION_RESULT_ERROR_INPUT e)
      | Ok methodInstance =>
          '(outputArgs, contractErr, err) ←
            processMethodCall (pc_ContextId input) (ci_Permission contractInfo) methodInstance (pc_InputArgumentArray input);
          mret (match err with
                | Some e => system_error EXECUTION_RESULT_ERROR_INPUT e
                | None =>
                    (mkProcessCallOutput
                       (match contractErr with Some _ => EXECUTION_RESULT_ERROR_SMART_CONTRACT | None => EXECUTION_RESULT_SUCCESS end)
                       (Some (default [] outputArgs)), contractErr)
                end)
      end
  end.

Definition GetContractInfo (executionContextId contractName : bytes) : code cache_op (outcome native_error PermissionScope) :=
  r ← retrieveContractInfo executionContextId contractName;
  mret (match r with Ok contractInfo => Ok (ci_Permission contractInfo) | Err e => Err e | Panic => Panic end).

(** ** Running calls

    The state is the cache, shared by all calls, with the rest of the node; the SDK
    handler may call the processor again. *)
Context {node : Type}.
Variable sdk : HandleSdkCallInput -> contractCache * node -> option ((contractCache * node) * outcome vm_error (list Argument)).

Definition step_mem (X : Type) (op : cache_op X) (st : contractCache * node) : X * (contractCache * node) :=
  let '(x, c) := step_cache op st.1 in (x, (c, st.2)).

Abbreviation execute := (exec sdk step_mem).

Lemma execute_retrieve_cached id name info c st :
  contractInfo c !! name = Some info ->
  execute (retrieveContractInfo id name) (c, st) = Some ((c, st), inl (Ok info)).
Proof. intros Hc. unfold retrieveContractInfo. rewrite exec_bind. cbn. by rewrite Hc. Qed.

Lemma execute_retrieve_caches id name info st c' st' :
  execute (retrieveContractInfo id name) st = Some ((c', st'), inl (Ok info)) -> contractInfo c' !! name = Some info.
Proof.
  unfold retrieveContractInfo. rewrite exec_bind. destruct st as [c st]. cbn [exec access step_mem step_cache fst snd].
  destruct (contractInfo c !! name) as [cached|] eqn:Hc.
  - rewrite exec_ret. by intros [= <- <- <-].
  - rewrite exec_bind. destruct (exec _ _ _ _) as [[[c1 st1] [[[cached|]| |]|v]]|]; try done.
    rewrite exec_bind. cbn. intros [= <- <- <-]. apply lookup_insert_eq.
Qed.

(** A contract that was compiled once under a name runs from then on, whatever is
    in the state: if a call found the contract in the state of its transaction, then
    the node finds the same contract under the name in every later state - also if the
    transaction was undone because its constructor panicked, and other code was
    deployed under the name since, which is what a node that starts later finds. *)
Theorem undone_deployment_runs id name info st0 cache1 st1 :
  execute (retrieveContractInfo id name) st0 = Some ((cache1, st1), inl (Ok info)) ->
  forall id' st2, execute (retrieveContractInfo id' name) (cache1, st2) = Some ((cache1, st2), inl (Ok info)).
Proof. intros Hfirst id' st2. by apply execute_retrieve_cached, (execute_retrieve_caches id name info st0 cache1 st1). Qed.

(** ** Results of calls *)

(** A panic of the contract never leaves the call. *)
Lemma execute_processMethodCall id scope f args st :
  match execute (processMethodCall id scope f args) st with
  | Some (_, inr _) => False
  | Some (_, inl (out, contractErr, err)) => (err = None -> out <> None) /\ (err <> None -> contractErr = None)
  | None => True
  end.
Proof.
  unfold processMethodCall. rewrite exec_bind, exec_recover. set (body := match ToNatives args with Ok _ => _ | _ => _ end).
  assert (match execute body st with
          | Some (_, inl (out, contractErr, err)) => contractErr = None /\ (err = None -> out <> None)
          | _ => True
          end) as Hbody.
  { subst body. destruct (ToNatives args) as [inArgs| |]; [|done..].
    destruct (verifyMethodInputArgs f inArgs) as [inValues| |]; [|done..]. rewrite exec_bind.
    destruct (exec _ _ _ _) as [[st1 [out|v]]|]; [|done..]. by destruct (createMethodOutputArgs out). }
  destruct (execute body st) as [[st1 [[[out ce] err]|v]]|]; [|done..]. rewrite exec_ret. naive_solver.
Qed.

End Calls.

(** ** Examples *)

Module Example.
Import Execution.ExampleMachine.

(** Native values are arguments, and their types numbers. *)
#[export] Instance natives : Natives := {
  native := Argument;
  go_type := Z;
  TypeOf a := match a with ArgUint32 _ => 1 | ArgUint64 _ => 2 | ArgString _ => 3 | ArgBytes _ => 4 | _ => 5 end;
  Elem t := t - 10;
  ToNatives args := Ok args;
  ArgumentArrayFromNatives args := Ok args
}.

Definition no_abi : Abi := mkAbi (fun _ => false) (fun _ _ _ => None) (fun _ _ _ => None) (fun _ _ _ => None).
Definition no_text (_ : native_error) : bytes := [].
Definition no_sanitizer (code : bytes) : outcome Sanitizer.sanitize_error bytes := Ok code.

(** A variadic function of a string and any number of bytes. *)
Definition variadic : func := mkFunc natives (go_string "pkg.log") [3; 14] true (fun args => mret args).

Lemma verifyMethodInputArgs_type_witness :
  callable variadic [ArgString [1]; ArgBytes []; ArgBytes [2]] /\
  [ArgString [1]; ArgBytes []; ArgBytes [2]] = [ArgString [1]; ArgBytes []; ArgBytes [2]].
Proof. apply (verifyMethodInputArgs_type variadic); [discriminate|reflexivity]. Defined.

(** A contract of one method, which fails with the text of its code, and a compiler
    that makes one of any code; the code that is deployed is the state of the node. *)
Definition failing (source : bytes) : ContractInfo :=
  mkInfo [Function (mkFunc natives (go_string "main.run") [] false (fun _ => panics "failed"))] [] []
    (if bool_decide (source = [1]) then PERMISSION_SCOPE_SERVICE else PERMISSION_SCOPE_SYSTEM).
Definition compiler (source : list bytes) : option (option ContractInfo) := Some (Some (failing (concat source))).

(** The deployments contract has one part of code under every name. *)
#[local] Instance parts : ArgumentArrays := {
  raw_ArgumentArray args := [Z.of_nat (length args)];
  RawArgumentsArray args := [Z.of_nat (length args)];
  ArgumentArrayReader b := match b with [1] => [ArgUint32 1] | _ => [ArgBytes (drop 1 b)] end;
  RawEventsArray events := [];
  input_arguments b := [ArgBytes b];
  execution_result_code r := 0;
  PROCESSOR_TYPE_NATIVE := 1
}.
Definition deployed (input : HandleSdkCallInput) (st : contractCache * bytes)
    : option ((contractCache * bytes) * outcome vm_error (list Argument)) :=
  match sdk_InputArguments input with
  | [_; _; ArgBytes [1]] => Some (st, Ok [ArgBytes [1]])
  | _ => Some (st, Ok [ArgBytes (0 :: st.2)])
  end.

Definition retrieve : code cache_op (outcome native_error ContractInfo) :=
  retrieveContractInfo no_sanitizer false compiler ∅ [8] [77].

Definition first_cache : contractCache := mkCache {[ [77] := failing [1] ]} ∅.

(** A node on which the code [1] was deployed and undone still runs it when the state
    has the code [2], and a new node runs [2]. *)
Lemma undone_deployment_runs_witness :
  exec deployed step_mem retrieve (newContractCache, [1]) = Some ((first_cache, [1]), inl (Ok (failing [1]))) /\
  exec deployed step_mem retrieve (first_cache, [2]) = Some ((first_cache, [2]), inl (Ok (failing [1]))) /\
  exists c, exec deployed step_mem retrieve (newContractCache, [2]) = Some ((c, [2]), inl (Ok (failing [2]))).
Proof.
  assert (exec deployed step_mem retrieve (newContractCache, [1]) = Some ((first_cache, [1]), inl (Ok (failing [1])))) as Hfirst
    by (vm_compute; reflexivity).
  split; [exact Hfirst|]. split; [|eexists; vm_compute; reflexivity].
  exact (undone_deployment_runs no_sanitizer false compiler ∅ deployed [8] [77] (failing [1]) _ _ _ Hfirst [8] [2]).
Defined.

Definition call : ProcessCallInput :=
  mkProcessCall [8] [77] (go_string "run") [] ACCESS_SCOPE_READ_WRITE PERMISSION_SCOPE_SERVICE.

End Example.
End NativeProcessor.
