(* ===== verification/ElectionsInVm.v ===== *)
(** * The elections contract in the virtual machine

    The programs of the elections contract call no other contract, so they run in the
    virtual machine, through the SDK of the native processor, as they do on a flat
    store: what is proved of them holds for the nodes of the network. *)
From stdpp Require Import base gmap strings numbers list.
From Stdlib Require Import ZArith Lia.
From S2P Require Import Prelude Hash Protocol TransientState VirtualMachine Execution ContractSdk ProcessorSdk Elections ElectionVotes ElectionResults.
Import VirtualMachine Elections.

Section Local.
Context `{ContractSdk}.

Lemma guardian_pages_local abi fuel pos guardians : local (guardian_pages abi fuel pos guardians).
Proof. revert pos guardians. induction fuel as [|fuel IH]; intros pos guardians; cbn [guardian_pages]; [done|]. locals. Qed.

Lemma calculateOne_local fuel g2d stakes guardian ps : local (_calculateOneGuardianVoteRecursive fuel g2d stakes guardian ps).
Proof.
  revert guardian ps. induction fuel as [|fuel IH]; intros guardian ps; cbn [_calculateOneGuardianVoteRecursive]; [done|].
  apply local_range_loop. intros d [votes qs]. apply local_bind; [apply IH|]. locals.
Qed.

#[local] Hint Resolve guardian_pages_local calculateOne_local : local.

Lemma processVoting_local abi range fuel : local (processVoting abi range fuel).
Proof. locals. Qed.

Lemma mirrorDelegation_local abi hash : local (mirrorDelegation abi hash).
Proof. locals. Qed.

Lemma mirrorDelegationByTransfer_local abi hash : local (mirrorDelegationByTransfer abi hash).
Proof. locals. Qed.
End Local.

Section Agreement.
Context `{Sha256} `{ArgumentArrays} `{Natives} `{ContractSdk}.
Context {mem : Type -> Type}.
Variable step_mem : forall X, mem X -> vm_state -> X * vm_state.
Variables (eth_abi : Abi) (VirtualChainId : Z) (scope : PermissionScope) (abi : abis).

(** Two runs that return the same, or both panic. *)
Definition same_result {A} (r r' : A + panic_value) : Prop :=
  match r, r' with
  | inl a, inl a' => a = a'
  | inr _, inr _ => True
  | _, _ => False
  end.

(** A node: the services of its virtual machine, how it runs nested calls, the order in
    which it ranges over maps, and the context of the call with its id and state. *)
Record node := mkNode {
  n_service : service;
  n_call : Processor -> ProcessCallInput -> vm (option ProcessCallOutput * option vm_error);
  n_range : gmap bytes Z -> list guardianVote;
  n_id : bytes;
  n_state : vm_state;
  n_context : executionContext
}.

Record node_ok (e : call_env) (w : world) (n : node) : Prop := {
  n_range_all m : n_range n m ≡ₚ map_to_list m;
  n_lookup : activeContexts (n_state n) !! n_id n = Some (n_context n);
  n_represents : represents (n_service n) eth_abi VirtualChainId e w (n_context n)
}.

Definition run_processVoting (n : node) (fuel : nat) : option (vm_state * (Z + panic_value)) :=
  exec (HandleSdkCall (n_service n) (n_call n)) step_mem
    (interp eth_abi VirtualChainId (n_id n) scope (processVoting abi (n_range n) fuel)) (n_state n).

(** C20. Nodes agree on elections: whatever their storage, the ids of their contexts and
    the order in which Go ranges over maps on each of them, two nodes that run
    processVoting in their virtual machines in contexts that hold the same state of
    the contract, with the same view of Ethereum, return the same or both panic, and
    their contexts hold the same state and events afterwards. *)
Theorem elections_agree_in_vm e w fuel n n' :
  node_ok e w n -> node_ok e w n' ->
  exists w' c1 c1' r r',
    run_processVoting n fuel
    = Some (mkVmState (<[n_id n := c1]> (activeContexts (n_state n))) (lastContextIdCounter (n_state n)), r) /\
    run_processVoting n' fuel
    = Some (mkVmState (<[n_id n' := c1']> (activeContexts (n_state n'))) (lastContextIdCounter (n_state n')), r') /\
    same_result r r' /\
    represents (n_service n) eth_abi VirtualChainId e w' c1 /\ represents (n_service n') eth_abi VirtualChainId e w' c1'.
Proof.
  intros [Hr Hc Hrep] [Hr' Hc' Hrep'].
  pose (stuck := fun (_ : call_env) (_ _ : bytes) (_ : list Argument) (w : world) => (@Panicked (list Argument) PanicRuntime, w)).
  pose proof (processVoting_deterministic stuck e (n_range n) (n_range n') Hr Hr' abi fuel w) as Hdet.
  destruct (interp_refines step_mem (n_service n) (n_call n) stuck eth_abi VirtualChainId (n_id n) scope
    (processVoting abi (n_range n) fuel) e w (n_context n) (n_state n)) as (c1 & r & Hrun & Hsame & Hrep1);
    [apply processVoting_local|done..|].
  destruct (interp_refines step_mem (n_service n') (n_call n') stuck eth_abi VirtualChainId (n_id n') scope
    (processVoting abi (n_range n') fuel) e w (n_context n') (n_state n')) as (c1' & r' & Hrun' & Hsame' & Hrep1');
    [apply processVoting_local|done..|].
  rewrite <-Hdet in Hsame', Hrep1'. destruct (run stuck e _ w) as [[a|v] w']; cbn [fst snd] in *;
    exists w', c1, c1', r, r'; (split_and!; [done..| |done|done]); destruct r, r'; cbn in *; first [congruence|done].
Qed.
End Agreement.

(** ** An example *)

Module Agreeing.
Import Execution.ExampleMachine ContractSdk.ExampleSdk ProcessorSdk.Refined.

Definition no_abis : abis := mkAbis [] [] [] [] [] [].

(** An election of which the votes are to be counted: two guardians with the same stake
    voted, and two addresses delegated to them. *)
Definition election : prog unit :=
  _ ← _setElectedValidatorsBlockNumberAtIndex 0 100;
  _ ← _setProcessCurrentElection 5000 20200 9;
  _ ← _setGuardians [address 1; address 2];
  _ ← _setGuardianStake (address 1) 1000;
  _ ← _setGuardianStake (address 2) 1000;
  _ ← _setGuardianVoteBlockNumber (address 1) 10;
  _ ← _setGuardianVoteBlockNumber (address 2) 11;
  _ ← _setCandidates (address 1) [address 12];
  _ ← _setNumberOfDelegators 2;
  _ ← ElectionVotes.Election.delegate 0 (address 3) (address 1) 200;
  _ ← ElectionVotes.Election.delegate 1 (address 4) (address 2) 200;
  _ ← _setValidators [address 12; address 13];
  _setVotingProcessState VOTING_PROCESS_STATE_CALCULATIONS.

Definition world0 : world := snd (run no_calls env election (mkWorld ∅ [])).

(** A node on which the election has been written in the same context before. *)
Definition context0 (id : bytes) : executionContext :=
  match exec (HandleSdkCall (machine []) (run_call (machine []) 5)) step_no_mem
          (interp no_abi 42 id PERMISSION_SCOPE_SERVICE election) (mkVmState {[ id := new_context ]} 1) with
  | Some (st, _) => default new_context (activeContexts st !! id)
  | None => new_context
  end.

Definition node0 (id : bytes) (range : gmap bytes Z -> list guardianVote) (depth : nat) : node :=
  mkNode (machine []) (run_call (machine []) depth) range id (mkVmState {[ id := context0 id ]} 1) (context0 id).

Lemma election_local : local election.
Proof. unfold election. locals. Qed.

Lemma node0_ok id range depth :
  (forall m, range m ≡ₚ map_to_list m) -> node_ok no_abi 42 env world0 (node0 id range depth).
Proof.
  intros Hr. split; [exact Hr|apply lookup_insert_eq|]. cbn. unfold context0.
  destruct (interp_refines step_no_mem (machine []) (run_call (machine []) 5) no_calls no_abi 42 id PERMISSION_SCOPE_SERVICE
    election env (mkWorld ∅ []) new_context (mkVmState {[ id := new_context ]} 1)) as (c & r & Hrun & _ & Hrep);
    [apply election_local|apply lookup_insert_eq|apply new_represents|].
  rewrite Hrun. cbn. by rewrite lookup_insert_eq.
Qed.

Lemma elections_agree_in_vm_witness : exists r r',
  run_processVoting step_no_mem no_abi 42 PERMISSION_SCOPE_SERVICE no_abis (node0 [8] map_to_list 5) 3 = Some r /\
  run_processVoting step_no_mem no_abi 42 PERMISSION_SCOPE_SERVICE no_abis (node0 [9] (fun m => reverse (map_to_list m)) 7) 3
    = Some r' /\ r.2 = inl 1 /\ r'.2 = inl 1.
Proof.
  destruct (elections_agree_in_vm step_no_mem no_abi 42 PERMISSION_SCOPE_SERVICE no_abis env world0 3
    (node0 [8] map_to_list 5) (node0 [9] (fun m => reverse (map_to_list m)) 7))
    as (w' & c1 & c1' & r & r' & H1 & H2 & Hsame & _).
  - apply node0_ok. intros m. reflexivity.
  - apply node0_ok. intros m. apply reverse_Permutation.
  - assert (snd <$> run_processVoting step_no_mem no_abi 42 PERMISSION_SCOPE_SERVICE no_abis (node0 [8] map_to_list 5) 3
      = Some (inl 1)) as Hr by (vm_compute; reflexivity).
    rewrite H1 in Hr. injection Hr as ->. cbn in Hsame. destruct r' as [a|]; [|destruct Hsame].
    eexists _, _. split_and!; [exact H1|exact H2|reflexivity|cbn; by rewrite Hsame].
Defined.
End Agreeing.
