(* ===== verification/TimestampFinder.v ===== *)
(** * Finding an Ethereum block by time (services/crosschainconnector/ethereum)

    The search for the last Ethereum block at or before a time: a range around it
    that shrinks by interpolation for ten steps and by halves after that, the cache
    of the last range, and the operations that ask for blocks old enough to be
    final.  The Ethereum node is an argument. *)

From stdpp Require Import base list.
From Stdlib Require Import ZArith Lia ZifyBool Floats.SpecFloat.
From S2P Require Import Prelude.

Module TimestampFinder.

(** ** Go's arithmetic *)

Definition i64 (z : Z) : Z := wrap 64 (z + 2 ^ 63) - 2 ^ 63.
Definition u64 (z : Z) : Z := wrap 64 z.

Lemma i64_small z : - 2 ^ 63 <= z < 2 ^ 63 -> i64 z = z.
Proof. intros Hz. unfold i64, wrap. rewrite Z.mod_small by lia. lia. Qed.

(** float64 is IEEE 754 binary64. *)
Definition float64 (z : Z) : spec_float := binary_normalize 53 1024 z 0 false.
Definition float64_div : spec_float -> spec_float -> spec_float := SFdiv 53 1024.
Definition float64_mul : spec_float -> spec_float -> spec_float := SFmul 53 1024.

(** [int64(math.Round(x))]: to the nearest integer, halves away from zero; a
    value without an integer part is what the amd64 conversion gives. *)
Definition int64_Round (x : spec_float) : Z :=
  match x with
  | S754_zero _ => 0
  | S754_finite s m e =>
      let n := if 0 <=? e then Zpos m * 2 ^ e else (Zpos m + 2 ^ (- e - 1)) / 2 ^ (- e) in
      i64 (if s then - n else n)
  | S754_infinity _ | S754_nan => - 2 ^ 63
  end.

(** ** Blocks *)

Record BlockNumberAndTime := mkBlockTime { BlockNumber : Z; BlockTimeNano : Z }.

Inductive finder_error :=
| ErrGetter
| ErrNilLatest
| ErrNilCursor
| ErrLatestNotNewer
| ErrFirstNewer
| ErrUnableToExtend
| ErrRangeCorrupt
| ErrCanceled
| ErrMaxSteps
| ErrNotFinal
| ErrNotEnoughBlocks
| ErrConnection.

(** What a block time getter returns: a block, [nil], or an error. *)
Record BlockTimeGetter := mkGetter {
  GetTimestampForBlockNumber : Z -> outcome finder_error (option BlockNumberAndTime);
  GetTimestampForLatestBlock : outcome finder_error (option BlockNumberAndTime)
}.

Definition secondsToNano (seconds : Z) : Z := u64 (seconds * 1000000000).

(** The getter of an Ethereum node, from its headers by number; no number asks for
    the latest. *)
Definition EthereumBasedBlockTimeGetter (HeaderByNumber : option Z -> outcome unit (option (Z * Z)))
    : BlockTimeGetter :=
  let get number :=
    match HeaderByNumber number with
    | Err _ => Err ErrGetter
    | Panic => Panic
    | Ok None => Ok None
    | Ok (Some (n, seconds)) => Ok (Some (mkBlockTime n (secondsToNano seconds)))
    end in
  mkGetter (fun n => get (Some n)) (get None).

(** ** The steps of the search (finder_algo.go) *)

Definition TIMESTAMP_FINDER_PROBABLE_RANGE_EFFICIENT : Z := 1000.
Definition TIMESTAMP_FINDER_PROBABLE_RANGE_INEFFICIENT : Z := 10000.
Definition TIMESTAMP_FINDER_MAX_STEPS : nat := 1000.
Definition TIMESTAMP_FINDER_ALLOWED_HEURISTIC_STEPS : Z := 10.

Definition algoDidReachResult (reference : Z) (below above : BlockNumberAndTime) : bool :=
  if bool_decide (i64 (BlockNumber below + 1) <> BlockNumber above) then false
  else (1 <=? BlockNumber below) && (BlockTimeNano below <=? reference) && (reference <? BlockTimeNano above).

Definition algoVerifyResultInsideRange (reference : Z) (below above : BlockNumberAndTime)
    : outcome finder_error unit :=
  if BlockNumber below <? 1 then Err ErrRangeCorrupt
  else if negb (i64 (BlockNumber below + 1) <? BlockNumber above) then Err ErrRangeCorrupt
  else if reference <? BlockTimeNano below then Err ErrRangeCorrupt
  else if BlockTimeNano above <=? reference then Err ErrRangeCorrupt
  else Ok tt.

Section Finder.
Variable btg : BlockTimeGetter.

Definition algoExtendAbove (reference : Z) : outcome finder_error BlockNumberAndTime :=
  let! latest := GetTimestampForLatestBlock btg in
  match latest with
  | None => Err ErrNilLatest
  | Some latest => if BlockTimeNano latest <=? reference then Err ErrLatestNotNewer else Ok latest
  end.

Fixpoint try_cursors (reference : Z) (attempts : list Z) : outcome finder_error BlockNumberAndTime :=
  match attempts with
  | [] => Err ErrUnableToExtend
  | cursorBlockNumber :: attempts =>
      if 1 <=? cursorBlockNumber then
        let! cursor := GetTimestampForBlockNumber btg cursorBlockNumber in
        match cursor with
        | None => Err ErrNilCursor
        | Some cursor =>
            if (1 <=? BlockNumber cursor) && (BlockTimeNano cursor <=? reference) then Ok cursor
            else if BlockNumber cursor =? 1 then Err ErrFirstNewer
            else try_cursors reference attempts
        end
      else try_cursors reference attempts
  end.

Definition algoExtendBelow (reference belowBlockNumber aboveBlockNumber : Z)
    : outcome finder_error BlockNumberAndTime :=
  let start := if belowBlockNumber <? 1 then aboveBlockNumber else belowBlockNumber in
  try_cursors reference
    [i64 (start - TIMESTAMP_FINDER_PROBABLE_RANGE_EFFICIENT);
     i64 (start - TIMESTAMP_FINDER_PROBABLE_RANGE_INEFFICIENT); 1].

Definition algoGetCursorWithHeuristics (reference : Z) (below above : BlockNumberAndTime) : Z :=
  let distInBlocks := i64 (BlockNumber above - BlockNumber below) in
  let distInNano := u64_sub (BlockTimeNano above) (BlockTimeNano below) in
  if distInNano =? 0 then i64 (BlockNumber above - 1)
  else
    let distToReference := u64_sub reference (BlockTimeNano below) in
    let fraction := float64_div (float64 distToReference) (float64 distInNano) in
    let res := i64 (BlockNumber below + int64_Round (float64_mul fraction (float64 distInBlocks))) in
    if res <=? BlockNumber below then i64 (BlockNumber below + 1)
    else if BlockNumber above <=? res then i64 (BlockNumber above - 1)
    else res.

Definition algoGetCursorWithBinarySearch (below above : BlockNumberAndTime) : Z :=
  i64 (BlockNumber below + Z.quot (i64 (BlockNumber above - BlockNumber below)) 2).

Definition algoReduceRange (reference : Z) (below above : BlockNumberAndTime) (step : Z)
    : outcome finder_error (BlockNumberAndTime * BlockNumberAndTime) :=
  let cursorBlockNumber :=
    if step <=? TIMESTAMP_FINDER_ALLOWED_HEURISTIC_STEPS
    then algoGetCursorWithHeuristics reference below above
    else algoGetCursorWithBinarySearch below above in
  let! cursor := GetTimestampForBlockNumber btg cursorBlockNumber in
  match cursor with
  | None => Err ErrNilCursor
  | Some cursor => if reference <? BlockTimeNano cursor then Ok (below, cursor) else Ok (cursor, above)
  end.

(** ** The search (timestamp_finder.go) *)

Record finder := mkFinder { cache_below : option BlockNumberAndTime; cache_above : option BlockNumberAndTime }.

Definition NewTimestampFinder : finder := mkFinder None None.

Definition getLastResultCache (f : finder) : BlockNumberAndTime * BlockNumberAndTime :=
  (default (mkBlockTime 0 0) (cache_below f), default (mkBlockTime 0 0) (cache_above f)).

Definition setLastResultCache (below above : BlockNumberAndTime) : finder := mkFinder (Some below) (Some above).

Definition returnConfirmedResult (below above : BlockNumberAndTime)
    : finder * outcome finder_error BlockNumberAndTime :=
  (setLastResultCache below above, Ok below).

(** The loop, with the number of steps left; [canceled] says at which steps the
    context is found canceled. *)
Fixpoint find_loop (remaining : nat) (canceled : Z -> bool) (reference : Z) (f : finder)
    (below above : BlockNumberAndTime) : finder * outcome finder_error BlockNumberAndTime :=
  let step := Z.of_nat TIMESTAMP_FINDER_MAX_STEPS - Z.of_nat remaining in
  match remaining with
  | O => (f, Err ErrMaxSteps)
  | S remaining =>
      if canceled step then (f, Err ErrCanceled)
      else if algoDidReachResult reference below above then returnConfirmedResult below above
      else
        match algoVerifyResultInsideRange reference below above with
        | Ok _ =>
            match algoReduceRange reference below above step with
            | Ok (below, above) => find_loop remaining canceled reference f below above
            | Err e => (f, Err e)
            | Panic => (f, Panic)
            end
        | Err e => (f, Err e)
        | Panic => (f, Panic)
        end
  end.

Definition extend_range (reference : Z) (below above : BlockNumberAndTime)
    : outcome finder_error (BlockNumberAndTime * BlockNumberAndTime) :=
  let! above := if negb (reference <? BlockTimeNano above) then algoExtendAbove reference else Ok above in
  let! below :=
    if negb ((1 <=? BlockNumber below) && (BlockTimeNano below <=? reference))
    then algoExtendBelow reference (BlockNumber below) (BlockNumber above) else Ok below in
  Ok (below, above).

Definition FindBlockByTimestamp (canceled : Z -> bool) (f : finder) (reference : Z)
    : finder * outcome finder_error BlockNumberAndTime :=
  let '(below, above) := getLastResultCache f in
  if algoDidReachResult reference below above then returnConfirmedResult below above
  else
    match extend_range reference below above with
    | Ok (below, above) => find_loop (TIMESTAMP_FINDER_MAX_STEPS - 1) canceled reference f below above
    | Err e => (f, Err e)
    | Panic => (f, Panic)
    end.
End Finder.

(** ** Finality (finality.go, service.go)

    [finalityTime] and [finalityBlocks] are the two components of the
    configuration. *)

Section Connector.
Variable btg : BlockTimeGetter.
Variables finalityTime finalityBlocks : Z.
Variable canceled : Z -> bool.

Definition getFinalitySafeBlockNumber (f : finder) (reference : Z)
    : finder * outcome finder_error (option BlockNumberAndTime) :=
  let '(f, found) := FindBlockByTimestamp btg canceled f (u64_sub reference (u64 finalityTime)) in
  (f, let! block := found in
      let resultBlock := i64 (BlockNumber block - i64 finalityBlocks) in
      if resultBlock <? 1 then Err ErrNotEnoughBlocks
      else GetTimestampForBlockNumber btg resultBlock).

(** A nil block of the getter is dereferenced. *)
Definition verifyBlockNumberIsFinalitySafe (f : finder) (blockNumber reference : Z)
    : finder * outcome finder_error unit :=
  let '(f, safe) := getFinalitySafeBlockNumber f reference in
  (f, let! safe := safe in
      match safe with
      | None => Panic
      | Some safe => if u64 (BlockNumber safe) <? blockNumber then Err ErrNotFinal else Ok tt
      end).

Definition EthereumGetBlockNumber (f : finder) (reference : Z) : finder * outcome finder_error Z :=
  let '(f, safe) := getFinalitySafeBlockNumber f reference in
  (f, let! safe := safe in
      match safe with None => Panic | Some safe => Ok (u64 (BlockNumber safe)) end).

Definition EthereumGetBlockTime (f : finder) (reference : Z) : finder * outcome finder_error Z :=
  let '(f, safe) := getFinalitySafeBlockNumber f reference in
  (f, let! safe := safe in
      match safe with None => Panic | Some safe => Ok (BlockTimeNano safe) end).

Definition EthereumGetBlockNumberByTime (f : finder) (reference timestamp : Z) : finder * outcome finder_error Z :=
  let '(f, found) := FindBlockByTimestamp btg canceled f timestamp in
  match found with
  | Ok block =>
      let '(f, verified) := verifyBlockNumberIsFinalitySafe f (u64 (BlockNumber block)) reference in
      (f, let! _ := verified in Ok (u64 (BlockNumber block)))
  | Err e => (f, Err e)
  | Panic => (f, Panic)
  end.

Definition EthereumGetBlockTimeByNumber (f : finder) (reference number : Z) : finder * outcome finder_error Z :=
  match GetTimestampForBlockNumber btg (i64 number) with
  | Ok (Some block) =>
      let '(f, verified) := verifyBlockNumberIsFinalitySafe f (u64 (BlockNumber block)) reference in
      (f, let! _ := verified in Ok (BlockTimeNano block))
  | Ok None => (f, Panic)
  | Err e => (f, Err e)
  | Panic => (f, Panic)
  end.

(** [decode_hex] is hexutil's; [CallContract] is the connection's, with no block
    number for the latest. *)
Variable decode_hex : bytes -> option bytes.
Variable CallContract : bytes -> bytes -> option Z -> outcome unit bytes.

Definition EthereumCallContract (f : finder) (reference blockNumber : Z) (contractAddress packedInput : bytes)
    : finder * outcome finder_error bytes :=
  let '(f, number) :=
    if blockNumber =? 0 then
      let '(f, safe) := getFinalitySafeBlockNumber f reference in
      (f, let! safe := safe in Ok (match safe with Some safe => BlockNumber safe | None => 0 end))
    else
      let '(f, verified) := verifyBlockNumberIsFinalitySafe f blockNumber reference in
      (f, let! _ := verified in Ok (i64 blockNumber)) in
  (f, let! number := number in
      match decode_hex contractAddress with
      | None => Err ErrConnection
      | Some address =>
          match CallContract address packedInput (if number =? 0 then None else Some number) with
          | Ok output => Ok output
          | Err _ => Err ErrConnection
          | Panic => Panic
          end
      end).
End Connector.

(** ** An Ethereum chain *)

(** The getter answers from a chain of [latest] blocks whose times, in
    nanoseconds, do not decrease. *)
Record ethereum_chain (btg : BlockTimeGetter) (time : Z -> Z) (latest : Z) : Prop := {
  ec_latest : 1 <= latest < 2 ^ 62;
  ec_time m n : 1 <= m -> m <= n -> n <= latest -> time m <= time n;
  ec_get n : 1 <= n <= latest -> GetTimestampForBlockNumber btg n = Ok (Some (mkBlockTime n (time n)));
  ec_get_latest : GetTimestampForLatestBlock btg = Ok (Some (mkBlockTime latest (time latest)))
}.

Definition in_chain (time : Z -> Z) (latest : Z) (b : BlockNumberAndTime) : Prop :=
  1 <= BlockNumber b <= latest /\ BlockTimeNano b = time (BlockNumber b).

Definition cache_ok (time : Z -> Z) (latest : Z) (f : finder) : Prop :=
  (forall b, cache_below f = Some b -> in_chain time latest b) /\
  (forall b, cache_above f = Some b -> in_chain time latest b).

(** The last block at or before a time, among the first [latest]. *)
Definition last_before (time : Z -> Z) (latest reference n : Z) : Prop :=
  1 <= n < latest /\ time n <= reference < time (n + 1).

(** ** The cursor *)

Lemma quot_half d : 2 <= d -> 1 <= Z.quot d 2 /\ 2 * Z.quot d 2 <= d <= 2 * Z.quot d 2 + 1.
Proof. intros Hd. rewrite Z.quot_div_nonneg by lia. pose proof (Z.div_mod d 2). pose proof (Z.mod_pos_bound d 2). lia. Qed.

Lemma binary_cursor below above :
  1 <= BlockNumber below -> BlockNumber below + 2 <= BlockNumber above < 2 ^ 62 ->
  let d := BlockNumber above - BlockNumber below in
  algoGetCursorWithBinarySearch below above = BlockNumber below + Z.quot d 2.
Proof.
  intros Hb Ha d. unfold algoGetCursorWithBinarySearch. fold d.
  pose proof (quot_half d ltac:(subst d; lia)). rewrite (i64_small d) by (subst d; lia).
  apply i64_small. subst d. lia.
Qed.

Lemma heuristic_cursor reference below above :
  1 <= BlockNumber below -> BlockNumber below + 2 <= BlockNumber above < 2 ^ 62 ->
  BlockNumber below < algoGetCursorWithHeuristics reference below above < BlockNumber above.
Proof.
  intros Hb Ha. unfold algoGetCursorWithHeuristics. cbv zeta.
  case_match; [rewrite i64_small by lia; lia|]. generalize (i64 (BlockNumber below + int64_Round
    (float64_mul (float64_div (float64 (u64_sub reference (BlockTimeNano below)))
      (float64 (u64_sub (BlockTimeNano above) (BlockTimeNano below))))
      (float64 (i64 (BlockNumber above - BlockNumber below)))))).
  intros res. repeat case_match; rewrite ?i64_small by lia; lia.
Qed.

Section Search.
Variables (btg : BlockTimeGetter) (time : Z -> Z) (latest : Z).
Hypothesis chain : ethereum_chain btg time latest.

(** The times of a range order its blocks. *)
Lemma range_order reference below above :
  in_chain time latest below -> in_chain time latest above ->
  BlockTimeNano below <= reference < BlockTimeNano above -> BlockNumber below < BlockNumber above.
Proof.
  intros [Hb Eb] [Ha Ea] Hr. destruct (Z_lt_le_dec (BlockNumber below) (BlockNumber above)); [done|].
  pose proof (ec_time _ _ _ chain (BlockNumber above) (BlockNumber below)). lia.
Qed.

(** A step keeps the range around the reference, and halves it when it searches. *)
Lemma reduce_range reference below above step :
  in_chain time latest below -> in_chain time latest above ->
  BlockTimeNano below <= reference < BlockTimeNano above ->
  BlockNumber below + 2 <= BlockNumber above ->
  exists below' above', algoReduceRange btg reference below above step = Ok (below', above') /\
    in_chain time latest below' /\ in_chain time latest above' /\
    BlockTimeNano below' <= reference < BlockTimeNano above' /\
    let d := BlockNumber above - BlockNumber below in
    let d' := BlockNumber above' - BlockNumber below' in
    d' < d /\ (TIMESTAMP_FINDER_ALLOWED_HEURISTIC_STEPS < step -> 2 * d' <= d + 1).
Proof.
  intros Hb Ha Hr Hd. pose proof Hb as [Hbn Hbt]. pose proof Ha as [Han Hat].
  pose proof (ec_latest _ _ _ chain) as Hl.
  pose proof (heuristic_cursor reference below above ltac:(lia) ltac:(lia)) as Hh.
  pose proof (binary_cursor below above ltac:(lia) ltac:(lia)) as Hc. cbv zeta in Hc.
  pose proof (quot_half (BlockNumber above - BlockNumber below) ltac:(lia)) as Hq.
  unfold algoReduceRange. set (cursor := if step <=? _ then _ else _).
  assert (BlockNumber below < cursor < BlockNumber above) as Hcur by (subst cursor; case_match; lia).
  rewrite (ec_get _ _ _ chain) by lia. cbn [bindO BlockTimeNano].
  assert (in_chain time latest (mkBlockTime cursor (time cursor))) as Hin by (split; simpl; [lia|done]).
  assert (TIMESTAMP_FINDER_ALLOWED_HEURISTIC_STEPS < step ->
    cursor = BlockNumber below + (BlockNumber above - BlockNumber below) ÷ 2) as Hbin.
  { intros Hs. subst cursor. case_match; [lia|done]. }
  destruct (reference <? time cursor) eqn:E; eexists _, _; (split; [reflexivity|]); simpl;
    (split; [done|split; [done|split; [lia|split; [lia|]]]]); intros Hs; apply Hbin in Hs; lia.
Qed.

Lemma reached reference below above :
  in_chain time latest below -> BlockTimeNano below <= reference < BlockTimeNano above ->
  algoDidReachResult reference below above = bool_decide (BlockNumber above = BlockNumber below + 1).
Proof.
  intros [Hb _] Hr. pose proof (ec_latest _ _ _ chain). unfold algoDidReachResult.
  rewrite i64_small by lia. repeat case_bool_decide; lia.
Qed.

Lemma inside_range reference below above :
  in_chain time latest below -> BlockTimeNano below <= reference < BlockTimeNano above ->
  BlockNumber below + 2 <= BlockNumber above ->
  algoVerifyResultInsideRange reference below above = Ok tt.
Proof.
  intros [Hb _] Hr Hd. pose proof (ec_latest _ _ _ chain). unfold algoVerifyResultInsideRange.
  rewrite i64_small by lia. repeat lia_if. done.
Qed.

(** The loop finds the result when its steps are enough for the interpolations
    left and the halvings of the range. *)
Lemma find_loop_finds canceled reference f k remaining below above :
  (forall step, canceled step = false) ->
  in_chain time latest below -> in_chain time latest above ->
  BlockTimeNano below <= reference < BlockTimeNano above ->
  BlockNumber above - BlockNumber below <= 2 ^ Z.of_nat k ->
  (Z.max 0 (11 - (1000 - Z.of_nat remaining)) + Z.of_nat k < Z.of_nat remaining) ->
  exists n, last_before time latest reference n /\
    find_loop btg remaining canceled reference f below above =
    (mkFinder (Some (mkBlockTime n (time n))) (Some (mkBlockTime (n + 1) (time (n + 1)))),
     Ok (mkBlockTime n (time n))).
Proof.
  intros Hcan. revert k below above. induction remaining as [|remaining IH]; intros k below above Hb Ha Hr Hk Hs; [lia|].
  cbn [find_loop]. rewrite Hcan. rewrite reached by done. pose proof (range_order _ _ _ Hb Ha Hr) as Hlt.
  case_bool_decide as Hone.
  - destruct below as [n tn], above as [n' tn'], Hb as [Hb Eb], Ha as [Ha Ea]. simpl in *. subst n' tn tn'.
    exists n. split; [split; [lia|done]|reflexivity].
  - rewrite inside_range by (done || lia).
    destruct (reduce_range reference below above
      (Z.of_nat TIMESTAMP_FINDER_MAX_STEPS - Z.of_nat (S remaining)) Hb Ha Hr ltac:(lia))
      as (below' & above' & -> & Hb' & Ha' & Hr' & Hd & Hhalf).
    unfold TIMESTAMP_FINDER_ALLOWED_HEURISTIC_STEPS, TIMESTAMP_FINDER_MAX_STEPS in *.
    destruct (Z_lt_le_dec 10 (Z.of_nat 1000 - Z.of_nat (S remaining))) as [Hbin|Hheur].
    + destruct k as [|k]; [simpl in Hk; lia|]. apply (IH k); try done; [|lia].
      specialize (Hhalf Hbin). rewrite Nat2Z.inj_succ, Z.pow_succ_r in Hk by lia. lia.
    + apply (IH k); try done; lia.
Qed.

Lemma try_cursors_finds reference above attempts :
  in_chain time latest above -> time 1 <= reference < BlockTimeNano above ->
  Forall (fun n => n <= latest) attempts -> 1 ∈ attempts ->
  exists below, try_cursors btg reference attempts = Ok below /\ in_chain time latest below /\
    BlockTimeNano below <= reference.
Proof.
  intros Ha Hr Hall H1. induction attempts as [|n attempts IH]; [by apply elem_of_nil in H1|].
  apply Forall_cons in Hall as [Hn Hall]. cbn [try_cursors]. pose proof (ec_latest _ _ _ chain).
  destruct (1 <=? n) eqn:En.
  - rewrite (ec_get _ _ _ chain) by lia. cbn [bindO BlockNumber BlockTimeNano]. rewrite En. cbn [andb].
    destruct (time n <=? reference) eqn:Et.
    + eexists. split; [reflexivity|]. split; [split; simpl; [lia|done]|simpl; lia].
    + destruct (n =? 1) eqn:E1; [assert (n = 1) as -> by lia; lia|]. apply IH; [done|].
      apply elem_of_cons in H1 as [<-|]; [lia|done].
  - apply IH; [done|]. apply elem_of_cons in H1 as [<-|]; [lia|done].
Qed.

Lemma extend_range_ok f reference :
  cache_ok time latest f -> time 1 <= reference < time latest -> 0 <= reference ->
  exists below above,
    extend_range btg reference (getLastResultCache f).1 (getLastResultCache f).2 = Ok (below, above) /\
    in_chain time latest below /\ in_chain time latest above /\
    BlockTimeNano below <= reference < BlockTimeNano above.
Proof.
  intros [Hcb Hca] Hr H0. pose proof (ec_latest _ _ _ chain) as Hl. unfold extend_range, getLastResultCache. simpl.
  assert (exists above, (if negb (reference <? BlockTimeNano (default (mkBlockTime 0 0) (cache_above f)))
    then algoExtendAbove btg reference else Ok (default (mkBlockTime 0 0) (cache_above f))) = Ok above /\
    in_chain time latest above /\ reference < BlockTimeNano above) as (above & -> & Ha & Hra).
  { destruct (reference <? _) eqn:E; simpl.
    - destruct (cache_above f) as [a|] eqn:Ea; simpl in E; [|lia]. exists a. split; [done|]. split; [by apply Hca|lia].
    - unfold algoExtendAbove. rewrite (ec_get_latest _ _ _ chain). cbn [bindO BlockTimeNano]. lia_if.
      eexists. split; [done|]. split; [split; simpl; [lia|done]|simpl; lia]. }
  cbn [bindO].
  destruct (negb _) eqn:E.
  - unfold algoExtendBelow. set (start := if _ <? 1 then _ else _).
    assert (1 <= start <= latest) as Hst.
    { subst start. case_match; [apply Ha|]. destruct (cache_below f) as [b|] eqn:Eb; [|simpl in *; lia].
      simpl in *. specialize (Hcb _ eq_refl) as [? _]. lia. }
    unfold TIMESTAMP_FINDER_PROBABLE_RANGE_EFFICIENT, TIMESTAMP_FINDER_PROBABLE_RANGE_INEFFICIENT.
    rewrite !i64_small by lia.
    destruct (try_cursors_finds reference above [start - 1000; start - 10000; 1] Ha ltac:(lia)) as (below & -> & Hb & Hrb).
    + repeat constructor; lia.
    + apply list_elem_of_In. simpl. auto.
    + cbn [bindO]. eauto 10.
  - destruct (cache_below f) as [b|] eqn:Eb; simpl in E; [|lia]. simpl.
    exists b, above. split; [done|]. split; [by apply Hcb|]. split; [done|lia].
Qed.
End Search.

Lemma cached_result time latest f reference below above :
  getLastResultCache f = (below, above) -> 0 <= reference -> cache_ok time latest f -> latest < 2 ^ 62 ->
  algoDidReachResult reference below above = true ->
  exists n, last_before time latest reference n /\
    below = mkBlockTime n (time n) /\ above = mkBlockTime (n + 1) (time (n + 1)).
Proof.
  unfold getLastResultCache, algoDidReachResult. intros [= Eb Ea] H0 [Hcb Hca] Hl.
  destruct (cache_below f) as [b|], (cache_above f) as [a|]; simpl in *; subst; simpl;
    try done; try (case_bool_decide; intros; exfalso; simpl in *; lia).
  destruct (Hcb _ eq_refl) as [Hb Ebt], (Hca _ eq_refl) as [Ha Eat]. rewrite i64_small by lia.
  case_bool_decide as Hn; [done|]. intros Hr. exists (BlockNumber below).
  assert (BlockNumber above = BlockNumber below + 1) as En by lia.
  destruct below as [n tn], above as [n' tn']. simpl in *. subst n' tn tn'.
  split; [split; lia|done].
Qed.

(** C17. On a chain whose block times do not decrease, the search finds the last
    block at or before the reference, always within its step limit, and caches a
    range of the chain. *)
Theorem FindBlockByTimestamp_finds btg time latest canceled f reference :
  ethereum_chain btg time latest -> cache_ok time latest f -> (forall step, canceled step = false) ->
  0 <= time 1 <= reference -> reference < time latest ->
  exists n, last_before time latest reference n /\
    (FindBlockByTimestamp btg canceled f reference).2 = Ok (mkBlockTime n (time n)) /\
    cache_ok time latest (FindBlockByTimestamp btg canceled f reference).1.
Proof.
  intros chain Hf Hcan H0 Hr. unfold FindBlockByTimestamp.
  destruct (extend_range_ok btg time latest chain f reference Hf ltac:(lia) ltac:(lia))
    as (below & above & He & Hb & Ha & Hr').
  destruct (getLastResultCache f) as [cb ca] eqn:Ec. simpl in He.
  destruct (algoDidReachResult reference cb ca) eqn:E.
  - apply (cached_result time latest f) in E as (n & Hn & Ecb & Eca); [|done|lia|done|apply chain].
    rewrite Ecb, Eca. exists n. split; [done|]. split; [done|]. destruct Hn as [Hn _].
    split; intros b [= <-]; split; simpl; try done; lia.
  - rewrite He. pose proof (ec_latest _ _ _ chain).
    destruct (find_loop_finds btg time latest chain canceled reference f 62 (TIMESTAMP_FINDER_MAX_STEPS - 1) below above
      Hcan Hb Ha Hr') as (n & Hn & ->).
    + destruct Hb, Ha. lia.
    + unfold TIMESTAMP_FINDER_MAX_STEPS. lia.
    + exists n. split; [done|]. split; [done|]. destruct Hn as [Hn _].
      split; intros b [= <-]; split; simpl; try done; lia.
Qed.
Lemma last_before_unique time latest latest' reference n n' :
  (forall i j, 1 <= i -> i <= j -> j <= Z.max latest latest' -> time i <= time j) ->
  last_before time latest reference n -> last_before time latest' reference n' -> n = n'.
Proof.
  intros Hmono [Hn Ht] [Hn' Ht']. destruct (Z.lt_trichotomy n n') as [Hlt|[->|Hlt]]; [|done|].
  - pose proof (Hmono (n + 1) n'). lia.
  - pose proof (Hmono (n' + 1) n). lia.
Qed.

(** The safe block is [finalityBlocks] below the last block at or before the
    reference less the finality time. *)
Lemma getFinalitySafeBlockNumber_spec btg time latest canceled finalityTime finalityBlocks f reference :
  ethereum_chain btg time latest -> cache_ok time latest f -> (forall step, canceled step = false) ->
  0 <= finalityTime -> 0 <= finalityBlocks < 2 ^ 62 -> is_u64 reference ->
  0 <= time 1 <= reference - finalityTime -> reference - finalityTime < time latest ->
  exists n, last_before time latest (reference - finalityTime) n /\
    (getFinalitySafeBlockNumber btg finalityTime finalityBlocks canceled f reference).2 =
    if n - finalityBlocks <? 1 then Err ErrNotEnoughBlocks
    else Ok (Some (mkBlockTime (n - finalityBlocks) (time (n - finalityBlocks)))).
Proof.
  intros chain Hf Hcan Hft Hfb Href H1 Hr. unfold is_u64 in Href. unfold getFinalitySafeBlockNumber.
  replace (u64_sub reference (u64 finalityTime)) with (reference - finalityTime)
    by (unfold u64_sub, u64, wrap; rewrite (Z.mod_small finalityTime), Z.mod_small by lia; lia).
  destruct (FindBlockByTimestamp_finds btg time latest canceled f (reference - finalityTime)) as (n & Hn & E & _);
    try done.
  destruct (FindBlockByTimestamp _ _ _ _) as [f' r]. simpl in E. subst r. exists n. split; [done|].
  pose proof (ec_latest _ _ _ chain). destruct Hn as [Hn _]. cbn [snd bindO BlockNumber].
  rewrite !i64_small by (rewrite ?i64_small; lia). case_match; [done|]. by rewrite (ec_get _ _ _ chain) by lia.
Qed.

(** Nodes agree on Ethereum: two nodes that follow the same Ethereum chain to
    different heights, with different caches, get the same finality-safe block. *)
Theorem finality_agreement btg btg' time latest latest' canceled finalityTime finalityBlocks f f' reference :
  ethereum_chain btg time latest -> ethereum_chain btg' time latest' ->
  cache_ok time latest f -> cache_ok time latest' f' -> (forall step, canceled step = false) ->
  0 <= finalityTime -> 0 <= finalityBlocks < 2 ^ 62 -> is_u64 reference ->
  0 <= time 1 <= reference - finalityTime ->
  reference - finalityTime < time latest -> reference - finalityTime < time latest' ->
  (getFinalitySafeBlockNumber btg finalityTime finalityBlocks canceled f reference).2 =
  (getFinalitySafeBlockNumber btg' finalityTime finalityBlocks canceled f' reference).2.
Proof.
  intros chain chain' Hf Hf' Hcan Hft Hfb Href H1 Hr Hr'.
  destruct (getFinalitySafeBlockNumber_spec btg time latest canceled finalityTime finalityBlocks f reference)
    as (n & Hn & ->); try done.
  destruct (getFinalitySafeBlockNumber_spec btg' time latest' canceled finalityTime finalityBlocks f' reference)
    as (n' & Hn' & ->); try done.
  assert (n = n') as ->; [|done]. eapply last_before_unique; [|done..]. intros i j Hi Hij Hj.
  destruct (Z.max_spec latest latest') as [[_ E]|[_ E]]; rewrite E in Hj;
    [by apply (ec_time _ _ _ chain')|by apply (ec_time _ _ _ chain)].
Qed.

(** ** An example chain: a block every ten nanoseconds *)

Definition example_time (n : Z) : Z := 10 * n.
Definition example_getter (latest : Z) : BlockTimeGetter :=
  mkGetter (fun n => if (1 <=? n) && (n <=? latest) then Ok (Some (mkBlockTime n (example_time n))) else Err ErrGetter)
    (Ok (Some (mkBlockTime latest (example_time latest)))).

Lemma example_chain latest : 1 <= latest < 2 ^ 62 -> ethereum_chain (example_getter latest) example_time latest.
Proof.
  intros Hl. split; [done| |intros n Hn|done]; [unfold example_time; lia|].
  unfold example_getter. cbn [GetTimestampForBlockNumber]. by rewrite (proj2 (andb_true_iff _ _)) by lia.
Qed.

Lemma new_cache_ok time latest : cache_ok time latest NewTimestampFinder.
Proof. by split. Qed.

Lemma FindBlockByTimestamp_finds_witness :
  exists n, last_before example_time 5000000 1234567 n /\
    (FindBlockByTimestamp (example_getter 5000000) (fun _ => false) NewTimestampFinder 1234567).2 =
    Ok (mkBlockTime n (example_time n)).
Proof.
  destruct (FindBlockByTimestamp_finds (example_getter 5000000) example_time 5000000 (fun _ => false)
    NewTimestampFinder 1234567) as (n & Hn & E & _).
  - apply example_chain. lia.
  - apply new_cache_ok.
  - reflexivity.
  - unfold example_time. lia.
  - unfold example_time. lia.
  - exists n. split; [exact Hn|exact E].
Defined.

Lemma finality_agreement_witness :
  (getFinalitySafeBlockNumber (example_getter 5000000) 100 3 (fun _ => false) NewTimestampFinder 1234567).2 =
  (getFinalitySafeBlockNumber (example_getter 6000000) 100 3 (fun _ => false)
     (mkFinder (Some (mkBlockTime 7 70)) None) 1234567).2.
Proof.
  apply (finality_agreement _ _ example_time 5000000 6000000).
  - apply example_chain. lia.
  - apply example_chain. lia.
  - apply new_cache_ok.
  - split; [|done]. intros b [= <-]. split; [simpl; lia|reflexivity].
  - reflexivity.
  - lia.
  - lia.
  - unfold is_u64. lia.
  - unfold example_time. lia.
  - unfold example_time. lia.
  - unfold example_time. lia.
Defined.

(** The search on this chain, evaluated with its floating point interpolation. *)
Example find_example :
  FindBlockByTimestamp (example_getter 5000000) (fun _ => false) NewTimestampFinder 1234567 =
  (mkFinder (Some (mkBlockTime 123456 1234560)) (Some (mkBlockTime 123457 1234570)), Ok (mkBlockTime 123456 1234560)).
Proof. vm_compute. reflexivity. Qed.
End TimestampFinder.
