(* ===== verification/EthereumLogs.v ===== *)
(** * Logs of Ethereum transactions (services/crosschainconnector/ethereum)

    EthereumGetTransactionLogs (service.go): the log of an event in a transaction, which
    has to be the only one of its kind, of the right contract and final; its arguments are
    packed again with the indexed ones (events.go), so that contracts can unpack them all
    (abi.go).  The logs come from the receipt of the transaction (adapter/logs.go).  The
    Ethereum node and the ABI encoding of go-ethereum are arguments. *)
From stdpp Require Import base list.
From Stdlib Require Import ZArith Lia ZifyBool.
From S2P Require Import Prelude TimestampFinder.

Module EthereumLogs.
Import TimestampFinder.

(** ** ABIs *)

(** go-ethereum's packing of values. *)
Class AbiCodec := {
  abi_type : Type;
  abi_value : Type;
  UnpackValues : list abi_type -> bytes -> option (list abi_value);
  Pack : list abi_type -> list abi_value -> option bytes
}.
Class AbiCodecLaws `{AbiCodec} : Prop := {
  unpack_pack types values b : Pack types values = Some b -> UnpackValues types b = Some values
}.

Section Events.
Context `{AbiCodec}.

Record Argument := mkArgument { arg_Type : abi_type; arg_Indexed : bool }.
Record Event := mkEvent { ev_ID : bytes; ev_Anonymous : bool; ev_Inputs : list Argument }.

Definition types (inputs : list Argument) : list abi_type := map arg_Type inputs.
Definition NonIndexed (inputs : list Argument) : list Argument := filter (fun a => arg_Indexed a = false) inputs.

(** ** Logs of a receipt (adapter/logs.go) *)

Record types_Log := mkLog { log_Address : bytes; log_Topics : list bytes; log_Data : bytes; log_BlockNumber : Z; log_TxIndex : Z }.

Record TransactionLog := mkTransactionLog {
  ContractAddress : bytes;
  PackedTopics : list bytes;
  Data : bytes;
  tl_BlockNumber : Z;
  TxIndex : Z
}.

Inductive log_error :=
| ErrDecodeHash
| ErrDecodeAddress
| ErrParseAbi
| ErrEventNotFound
| ErrReceipt
| ErrNotOneLog
| ErrOtherContract
| ErrFinality (e : finder_error)
| ErrUnpackNonIndexed
| ErrUnpackIndexed
| ErrPack
| ErrUnpack.

Definition matchesEvent (log : types_Log) (eventSignature : bytes) : bool := existsb (fun topic => bool_decide (topic = eventSignature)) (log_Topics log).

(** The receipt of a transaction, or the error of getting it; without a receipt and an
    error there are no logs. *)
Definition GetTransactionLogs (TransactionReceipt : bytes -> option (option (list types_Log))) (txHash eventSignature : bytes)
    : outcome log_error (list TransactionLog) :=
  match TransactionReceipt txHash with
  | None => Err ErrReceipt
  | Some None => Ok []
  | Some (Some logs) =>
      Ok (map (fun log => mkTransactionLog (log_Address log) (log_Topics log) (log_Data log) (log_BlockNumber log) (wrap 32 (log_TxIndex log)))
            (filter (fun log => matchesEvent log eventSignature = true) logs))
  end.

(** ** Packing an event again (events.go) *)

(** The indexed arguments, each from its topic. *)
Fixpoint unpack_indexed (inputs : list Argument) (topics : list bytes) (topicIndex : nat) : outcome log_error (list abi_value) :=
  match inputs with
  | [] => Ok []
  | arg :: inputs =>
      if arg_Indexed arg then
        match topics !! topicIndex with
        | None => Panic
        | Some topic =>
            match UnpackValues [arg_Type arg] topic with
            | None => Err ErrUnpackIndexed
            | Some [] => Panic
            | Some (v :: _) => let! vs := unpack_indexed inputs topics (S topicIndex) in Ok (v :: vs)
            end
        end
      else unpack_indexed inputs topics topicIndex
  end.

Definition repackEventABIWithTopics (eventABI : Event) (log : TransactionLog) : outcome log_error bytes :=
  let topicIndex := if negb (ev_Anonymous eventABI) then 1%nat else 0%nat in
  match UnpackValues (types (NonIndexed (ev_Inputs eventABI))) (Data log) with
  | None => Err ErrUnpackNonIndexed
  | Some nonIndexedData =>
      let! indexed := unpack_indexed (ev_Inputs eventABI) (PackedTopics log) topicIndex in
      match Pack (types (ev_Inputs eventABI)) (indexed ++ nonIndexedData) with
      | Some b => Ok b
      | None => Err ErrPack
      end
  end.

(** ** Unpacking it (abi.go) *)

Definition cloneEventABIWithoutIndexed (eventABI : Event) : Event :=
  mkEvent (ev_ID eventABI) (ev_Anonymous eventABI) (map (fun arg => mkArgument (arg_Type arg) false) (ev_Inputs eventABI)).

Definition ABIUnpackAllEventArguments (events : bytes -> option Event) (eventName packedOutput : bytes)
    : outcome log_error (list abi_value) :=
  match events eventName with
  | None => Err ErrEventNotFound
  | Some eventABI =>
      match UnpackValues (types (NonIndexed (ev_Inputs (cloneEventABIWithoutIndexed eventABI)))) packedOutput with
      | Some vs => Ok vs
      | None => Err ErrUnpack
      end
  end.

(** ** The operation (service.go) *)

Section Service.
Variable btg : BlockTimeGetter.
Variables finalityTime finalityBlocks : Z.
Variable canceled : Z -> bool.
Variable decode_hex : bytes -> option bytes.
Variable parse_abi : bytes -> option (bytes -> option Event).
Variable TransactionReceipt : bytes -> option (option (list types_Log)).

Definition EthereumGetTransactionLogs (f : finder) (reference : Z) (contractAddress eventName jsonAbi txhash : bytes)
    : finder * outcome log_error (bytes * Z * Z) :=
  match decode_hex txhash with
  | None => (f, Err ErrDecodeHash)
  | Some ethereumTxHash =>
      match decode_hex contractAddress with
      | None => (f, Err ErrDecodeAddress)
      | Some ethereumContractAddress =>
          match parse_abi jsonAbi with
          | None => (f, Err ErrParseAbi)
          | Some events =>
              match events eventName with
              | None => (f, Err ErrEventNotFound)
              | Some eventABI =>
                  match GetTransactionLogs TransactionReceipt ethereumTxHash (ev_ID eventABI) with
                  | Ok [log] =>
                      if bool_decide (ethereumContractAddress <> ContractAddress log) then (f, Err ErrOtherContract)
                      else
                        let '(f, verified) := verifyBlockNumberIsFinalitySafe btg finalityTime finalityBlocks canceled f
                                                (tl_BlockNumber log) reference in
                        (f, match verified with
                            | Err e => Err (ErrFinality e)
                            | Panic => Panic
                            | Ok _ =>
                                let! output := repackEventABIWithTopics eventABI log in
                                Ok (output, tl_BlockNumber log, TxIndex log)
                            end)
                  | Ok _ => (f, Err ErrNotOneLog)
                  | Err e => (f, Err e)
                  | Panic => (f, Panic)
                  end
              end
          end
      end
  end.

(** ** Events that were emitted *)

Definition indexed_values (inputs : list Argument) (vs : list abi_value) : list abi_value :=
  (filter (fun p => arg_Indexed p.1 = true) (zip inputs vs)).*2.
Definition other_values (inputs : list Argument) (vs : list abi_value) : list abi_value :=
  (filter (fun p => arg_Indexed p.1 = false) (zip inputs vs)).*2.

(** The log of an event with these values: topics for the indexed arguments, after the id
    of the event, and the others packed as data. *)
Record emitted (eventABI : Event) (vs : list abi_value) (log : types_Log) : Prop := {
  em_length : length vs = length (ev_Inputs eventABI);
  em_topics : exists topics,
    log_Topics log = (if ev_Anonymous eventABI then [] else [ev_ID eventABI]) ++ topics /\
    Forall2 (fun p topic => Pack [arg_Type p.1] [p.2] = Some topic)
      (filter (fun p => arg_Indexed p.1 = true) (zip (ev_Inputs eventABI) vs)) topics;
  em_data : Pack (types (NonIndexed (ev_Inputs eventABI))) (other_values (ev_Inputs eventABI) vs) = Some (log_Data log)
}.

Definition indexed_first (inputs : list Argument) : Prop :=
  exists a b, inputs = a ++ b /\ Forall (fun arg => arg_Indexed arg = true) a /\ Forall (fun arg => arg_Indexed arg = false) b.

Context `{!AbiCodecLaws}.

Lemma unpack_indexed_emitted inputs vs before topics :
  length vs = length inputs ->
  Forall2 (fun p topic => Pack [arg_Type p.1] [p.2] = Some topic) (filter (fun p => arg_Indexed p.1 = true) (zip inputs vs)) topics ->
  unpack_indexed inputs (before ++ topics) (length before) = Ok (indexed_values inputs vs).
Proof.
  unfold indexed_values. revert vs before topics.
  induction inputs as [|arg inputs IH]; intros [|v vs] before topics Hlen Htopics; [done..|]. injection Hlen as Hlen.
  cbn [unpack_indexed zip zip_with] in *. rewrite filter_cons in *. cbn [fst] in *. destruct (arg_Indexed arg).
  - rewrite decide_True in * by done. apply Forall2_cons_inv_l in Htopics as (topic & topics' & Hp & Htopics & ->).
    cbn [fst snd] in Hp. rewrite list_lookup_middle, (unpack_pack _ _ _ Hp) by done.
    specialize (IH vs (before ++ [topic]) topics' Hlen Htopics). rewrite <-app_assoc, length_app, Nat.add_1_r in IH.
    cbn [app] in IH. by rewrite IH.
  - rewrite decide_False in * by done. by apply IH.
Qed.

Lemma types_clone eventABI :
  types (NonIndexed (ev_Inputs (cloneEventABIWithoutIndexed eventABI))) = types (ev_Inputs eventABI).
Proof.
  unfold types, NonIndexed. cbn. induction (ev_Inputs eventABI) as [|a l IH]; [done|]. cbn [map].
  rewrite filter_cons, decide_True by done. cbn [map arg_Type]. by rewrite IH.
Qed.

(** Packed again, the indexed arguments come first. *)
Lemma repack_emitted eventABI vs log b :
  emitted eventABI vs log ->
  Pack (types (ev_Inputs eventABI)) (indexed_values (ev_Inputs eventABI) vs ++ other_values (ev_Inputs eventABI) vs) = Some b ->
  repackEventABIWithTopics eventABI
    (mkTransactionLog (log_Address log) (log_Topics log) (log_Data log) (log_BlockNumber log) (wrap 32 (log_TxIndex log))) = Ok b.
Proof.
  intros [Hlen (topics & Htopics & Hpacked) Hdata] Hpack. unfold repackEventABIWithTopics. cbn [Data PackedTopics].
  rewrite (unpack_pack _ _ _ Hdata), Htopics.
  replace (if negb (ev_Anonymous eventABI) then 1%nat else 0%nat)
    with (length (if ev_Anonymous eventABI then [] else [ev_ID eventABI])) by (by destruct (ev_Anonymous eventABI)).
  rewrite (unpack_indexed_emitted _ vs) by done. cbn [bindO]. by rewrite Hpack.
Qed.

Lemma indexed_values_cons arg inputs v vs :
  indexed_values (arg :: inputs) (v :: vs) = if arg_Indexed arg then v :: indexed_values inputs vs else indexed_values inputs vs.
Proof. unfold indexed_values. cbn [zip zip_with]. rewrite filter_cons. cbn [fst]. by destruct (arg_Indexed arg). Qed.

Lemma other_values_cons arg inputs v vs :
  other_values (arg :: inputs) (v :: vs) = if arg_Indexed arg then other_values inputs vs else v :: other_values inputs vs.
Proof. unfold other_values. cbn [zip zip_with]. rewrite filter_cons. cbn [fst]. by destruct (arg_Indexed arg). Qed.

Lemma indexed_first_values inputs vs :
  indexed_first inputs -> length vs = length inputs -> indexed_values inputs vs ++ other_values inputs vs = vs.
Proof.
  intros (a & b & -> & Ha & Hb). revert vs. induction Ha as [|arg a Harg _ IH]; intros vs Hlen.
  - cbn [app] in *. assert (indexed_values b vs = [] /\ other_values b vs = vs) as [-> ->]; [|done].
    induction Hb as [|arg b Harg _ IH] in vs, Hlen |- *; destruct vs as [|v vs]; try done. injection Hlen as Hlen.
    rewrite indexed_values_cons, other_values_cons, Harg. destruct (IH vs Hlen) as [-> ->]. done.
  - destruct vs as [|v vs]; [done|]. injection Hlen as Hlen. cbn [app].
    rewrite indexed_values_cons, other_values_cons, Harg. cbn [app]. by rewrite IH.
Qed.

(** A transaction whose receipt has one log with the id of the event, of the contract. *)
Record logged (contractAddress eventName jsonAbi txhash : bytes) (events : bytes -> option Event) (eventABI : Event)
    (log : types_Log) : Prop := {
  lg_abi : parse_abi jsonAbi = Some events;
  lg_event : events eventName = Some eventABI;
  lg_address : decode_hex contractAddress = Some (log_Address log);
  lg_receipt : exists hash logs, decode_hex txhash = Some hash /\ TransactionReceipt hash = Some (Some logs) /\
    filter (fun log => matchesEvent log (ev_ID eventABI) = true) logs = [log]
}.

Lemma EthereumGetTransactionLogs_logged f f' reference contractAddress eventName jsonAbi txhash events eventABI log :
  logged contractAddress eventName jsonAbi txhash events eventABI log ->
  verifyBlockNumberIsFinalitySafe btg finalityTime finalityBlocks canceled f (log_BlockNumber log) reference = (f', Ok tt) ->
  EthereumGetTransactionLogs f reference contractAddress eventName jsonAbi txhash
  = (f', let! output := repackEventABIWithTopics eventABI
           (mkTransactionLog (log_Address log) (log_Topics log) (log_Data log) (log_BlockNumber log) (wrap 32 (log_TxIndex log))) in
         Ok (output, log_BlockNumber log, wrap 32 (log_TxIndex log))).
Proof.
  intros [Habi Hevent Haddress (hash & logs & Hhash & Hreceipt & Hone)] Hfinal. unfold EthereumGetTransactionLogs.
  rewrite Hhash, Haddress, Habi, Hevent. unfold GetTransactionLogs. rewrite Hreceipt, Hone. cbn [map ContractAddress tl_BlockNumber TxIndex].
  rewrite bool_decide_false by (intros Hne; by apply Hne). by rewrite Hfinal.
Qed.

(** C31. A contract reads the event that was emitted: for an event whose indexed arguments
    come before the others, in a final block, the output of EthereumGetTransactionLogs
    unpacks to all the values of the event in their order, with the block and the index
    of the transaction. *)
Theorem logged_event_roundtrip f f' reference contractAddress eventName jsonAbi txhash events eventABI log vs b :
  logged contractAddress eventName jsonAbi txhash events eventABI log ->
  verifyBlockNumberIsFinalitySafe btg finalityTime finalityBlocks canceled f (log_BlockNumber log) reference = (f', Ok tt) ->
  emitted eventABI vs log -> indexed_first (ev_Inputs eventABI) -> Pack (types (ev_Inputs eventABI)) vs = Some b ->
  EthereumGetTransactionLogs f reference contractAddress eventName jsonAbi txhash
  = (f', Ok (b, log_BlockNumber log, wrap 32 (log_TxIndex log))) /\
  ABIUnpackAllEventArguments events eventName b = Ok vs.
Proof.
  intros Hlogged Hfinal Hemitted Hfirst Hpack.
  rewrite (EthereumGetTransactionLogs_logged _ _ _ _ _ _ _ _ _ _ Hlogged Hfinal).
  rewrite (repack_emitted eventABI vs log b) by (rewrite ?indexed_first_values; by try apply Hemitted). split; [done|].
  unfold ABIUnpackAllEventArguments. by rewrite (lg_event _ _ _ _ _ _ _ Hlogged), types_clone, (unpack_pack _ _ _ Hpack).
Qed.

(** The values of an event whose indexed argument comes after one of the same type that
    is not indexed are exchanged. *)
Theorem logged_event_swapped f f' reference contractAddress eventName jsonAbi txhash events eventABI log ty x y b :
  logged contractAddress eventName jsonAbi txhash events eventABI log ->
  verifyBlockNumberIsFinalitySafe btg finalityTime finalityBlocks canceled f (log_BlockNumber log) reference = (f', Ok tt) ->
  ev_Inputs eventABI = [mkArgument ty false; mkArgument ty true] ->
  emitted eventABI [x; y] log -> Pack [ty; ty] [y; x] = Some b ->
  EthereumGetTransactionLogs f reference contractAddress eventName jsonAbi txhash
  = (f', Ok (b, log_BlockNumber log, wrap 32 (log_TxIndex log))) /\
  ABIUnpackAllEventArguments events eventName b = Ok [y; x].
Proof.
  intros Hlogged Hfinal Hinputs Hemitted Hpack.
  rewrite (EthereumGetTransactionLogs_logged _ _ _ _ _ _ _ _ _ _ Hlogged Hfinal).
  rewrite (repack_emitted eventABI [x; y] log b) by (rewrite ?Hinputs; done). split; [done|].
  unfold ABIUnpackAllEventArguments. by rewrite (lg_event _ _ _ _ _ _ _ Hlogged), types_clone, Hinputs; cbn [types map arg_Type]; rewrite (unpack_pack _ _ _ Hpack).
Qed.
End Service.
End Events.

(** ** Examples *)

Module Example.
(** Values are numbers, packed one after the other. *)
#[export] Instance example_codec : AbiCodec := {
  abi_type := unit;
  abi_value := Z;
  UnpackValues types b := if (length types =? length b)%nat then Some b else None;
  Pack types values := if (length types =? length values)%nat then Some values else None
}.
#[export] Instance example_codec_laws : AbiCodecLaws.
Proof. split. cbn. intros types values b. destruct (_ =? _)%nat eqn:E; [|done]. intros [= <-]. by rewrite E. Qed.

Definition arg (indexed : bool) : Argument := mkArgument tt indexed.
Definition transfer_event : Event := mkEvent [99] false [arg true; arg true; arg false].
Definition reversed : Event := mkEvent [98] false [arg false; arg true].
Definition events (name : bytes) : option Event := match name with [1] => Some transfer_event | [2] => Some reversed | _ => None end.
Definition parse (json : bytes) : option (bytes -> option Event) := match json with [] => None | _ => Some events end.
Definition transfer_log : types_Log := mkLog [7] [[99]; [10]; [20]] [30] 5 1.
Definition reversed_log : types_Log := mkLog [7] [[98]; [20]] [10] 5 2.
Definition receipt (hash : bytes) : option (option (list types_Log)) := Some (Some [transfer_log; reversed_log]).
Definition getter : BlockTimeGetter := example_getter 5000000.
Definition verified : finder * outcome finder_error unit :=
  verifyBlockNumberIsFinalitySafe getter 100 3 (fun _ => false) NewTimestampFinder 5 1234567.

Lemma verified_ok : verified.2 = Ok tt.
Proof. vm_compute. reflexivity. Qed.

Lemma logged_event_roundtrip_witness :
  EthereumGetTransactionLogs getter 100 3 (fun _ => false) Some parse receipt NewTimestampFinder 1234567 [7] [1] [0] [42]
  = (verified.1, Ok ([10; 20; 30], 5, 1)) /\ ABIUnpackAllEventArguments events [1] [10; 20; 30] = Ok [10; 20; 30].
Proof.
  apply (logged_event_roundtrip getter 100 3 (fun _ => false) Some parse receipt NewTimestampFinder verified.1 1234567
    [7] [1] [0] [42] events transfer_event transfer_log [10; 20; 30] [10; 20; 30]).
  - split; [reflexivity..|]. exists [42], [transfer_log; reversed_log]. repeat split; reflexivity.
  - rewrite <-verified_ok. unfold verified. destruct (verifyBlockNumberIsFinalitySafe _ _ _ _ _ _ _). reflexivity.
  - split; [reflexivity| |reflexivity]. exists [[10]; [20]]. split; [reflexivity|]. repeat constructor.
  - exists [arg true; arg true], [arg false]. split; [reflexivity|]. split; repeat constructor.
  - reflexivity.
Defined.

Lemma logged_event_swapped_witness :
  EthereumGetTransactionLogs getter 100 3 (fun _ => false) Some parse receipt NewTimestampFinder 1234567 [7] [2] [0] [42]
  = (verified.1, Ok ([20; 10], 5, 2)) /\ ABIUnpackAllEventArguments events [2] [20; 10] = Ok [20; 10].
Proof.
  apply (logged_event_swapped getter 100 3 (fun _ => false) Some parse receipt NewTimestampFinder verified.1 1234567
    [7] [2] [0] [42] events reversed reversed_log tt 10 20 [20; 10]).
  - split; [reflexivity..|]. exists [42], [transfer_log; reversed_log]. repeat split; reflexivity.
  - rewrite <-verified_ok. unfold verified. destruct (verifyBlockNumberIsFinalitySafe _ _ _ _ _ _ _). reflexivity.
  - reflexivity.
  - split; [reflexivity| |reflexivity]. exists [[20]]. split; [reflexivity|]. repeat constructor.
  - reflexivity.
Defined.
End Example.
End EthereumLogs.
