(* ===== verification/BlockPersistence.v ===== *)
(** * Block persistence (services/blockstorage/adapter)

    The interface of a block persistence, the laws the block storage relies on,
    and the in-memory implementation. *)

From stdpp Require Import base list.
From Stdlib Require Import ZArith Lia ZifyBool.
From S2P Require Import Prelude Protocol BlockTracker.

(** ** The interface (adapter/persistence.go) *)

Inductive persistence_error :=
| ErrBlockNotFound
| ErrUnknownHeight
| ErrOpen
| ErrDecode
| ErrWrite
| ErrIndexOffset.

(** A callback over pages, with the variables it captures as its state. *)
Definition CursorFunc (S : Type) : Type :=
  Z -> list BlockPairContainer -> S -> outcome persistence_error (S * bool).

(** [WriteNextBlock] returns whether the block was added and the height of the top
    block; what is stored may change even when it fails. *)
Class BlockPersistence (P : Type) := {
  WriteNextBlock : P -> BlockPairContainer -> P * outcome persistence_error (bool * Z);
  ScanBlocks : forall {S}, P -> Z -> Z -> CursorFunc S -> S -> outcome persistence_error S;
  GetLastBlockHeight : P -> outcome persistence_error Z;
  GetLastBlock : P -> outcome persistence_error (option BlockPairContainer);
  GetTransactionsBlock : P -> Z -> outcome persistence_error TransactionsBlockContainer;
  GetResultsBlock : P -> Z -> outcome persistence_error ResultsBlockContainer;
  GetBlockByTx : P -> bytes -> Z -> Z -> outcome persistence_error (option (BlockPairContainer * nat));
  GetBlockTracker : P -> BlockTracker
}.

Definition tx_height (b : BlockPairContainer) : Z := txh_BlockHeight (txb_Header (bpc_TransactionsBlock b)).
Definition rx_height (b : BlockPairContainer) : Z := rxh_BlockHeight (rxb_Header (bpc_ResultsBlock b)).
Definition tx_time (b : BlockPairContainer) : Z := txh_Timestamp (txb_Header (bpc_TransactionsBlock b)).
Definition rx_time (b : BlockPairContainer) : Z := rxh_Timestamp (rxb_Header (bpc_ResultsBlock b)).

(** ** The contract

    A persistence holds a chain: its [i]th block has height [i + 1] in both headers. *)

Definition pair_at (i : nat) (b : BlockPairContainer) : Prop :=
  tx_height b = Z.of_nat (S i) /\ rx_height b = Z.of_nat (S i).

Definition chain_ok (chain : list BlockPairContainer) : Prop :=
  Z.of_nat (length chain) < 2 ^ 63 /\ forall i b, chain !! i = Some b -> pair_at i b.

Definition top (chain : list BlockPairContainer) : Z := Z.of_nat (length chain).

(** Pages of one block, from a height on, while the cursor wants more. *)
Fixpoint scan_each {S} (f : CursorFunc S) (from : Z) (blocks : list BlockPairContainer) (s : S)
    : outcome persistence_error S :=
  match blocks with
  | [] => Ok s
  | b :: blocks' =>
      let! out := f from [b] s in
      let '(s', wantsMore) := out in
      if wantsMore : bool then scan_each f (from + 1) blocks' s' else Ok s'
  end.

(** [holds] relates a persistence to its chain, [storable] tells the blocks it can
    store. *)
Class BlockPersistenceLaws (P : Type) `{BlockPersistence P} (holds : P -> list BlockPairContainer -> Prop)
    (storable : BlockPairContainer -> Prop) : Prop := {
  holds_ok p chain : holds p chain -> chain_ok chain;
  write_next p chain b :
    holds p chain -> storable b -> pair_at (length chain) b -> top chain + 1 < 2 ^ 63 ->
    exists p', WriteNextBlock p b = (p', Ok (true, top chain + 1)) /\ holds p' (chain ++ [b]);
  write_other p chain b :
    holds p chain -> tx_height b = rx_height b -> tx_height b <> top chain + 1 ->
    WriteNextBlock p b = (p, Ok (false, top chain));
  scan_from {S} p chain from (f : CursorFunc S) s :
    holds p chain -> 1 <= from <= top chain ->
    ScanBlocks p from 1 f s = scan_each f from (drop (Z.to_nat (from - 1)) chain) s;
  scan_unknown {S} p chain from (f : CursorFunc S) s :
    holds p chain -> top chain < from -> ScanBlocks p from 1 f s = Err ErrUnknownHeight;
  last_height p chain : holds p chain -> GetLastBlockHeight p = Ok (top chain);
  last_block p chain : holds p chain -> GetLastBlock p = Ok (last chain);
  transactions_block p chain h b :
    holds p chain -> 1 <= h -> chain !! Z.to_nat (h - 1) = Some b ->
    GetTransactionsBlock p h = Ok (bpc_TransactionsBlock b);
  results_block p chain h b :
    holds p chain -> 1 <= h -> chain !! Z.to_nat (h - 1) = Some b ->
    GetResultsBlock p h = Ok (bpc_ResultsBlock b);
  results_unknown p chain h :
    holds p chain -> top chain < h -> exists e, GetResultsBlock p h = Err e;
  tracker_height p chain : holds p chain -> currentHeight (GetBlockTracker p) = top chain
}.

(** ** The in-memory persistence (adapter/memory/memory_persistence.go) *)

Record InMemoryBlockPersistence := mkBlockMemory {
  mem_blocks : list BlockPairContainer;
  mem_tracker : BlockTracker
}.

(** [NewBlockPersistence]; the blocks are copied. *)
Definition NewMemoryPersistence (preloadedBlocks : list BlockPairContainer) : InMemoryBlockPersistence :=
  mkBlockMemory preloadedBlocks (NewBlockTracker (Z.of_nat (length preloadedBlocks)) 5).

Definition memory_GetBlockTracker (bp : InMemoryBlockPersistence) : BlockTracker := mem_tracker bp.

Definition memory_GetLastBlock (bp : InMemoryBlockPersistence)
    : outcome persistence_error (option BlockPairContainer) :=
  let count := length (mem_blocks bp) in
  if (count =? 0)%nat then Ok None
  else match mem_blocks bp !! (count - 1)%nat with Some b => Ok (Some b) | None => Panic end.

Definition memory_GetLastBlockHeight (bp : InMemoryBlockPersistence) : outcome persistence_error Z :=
  Ok (Z.of_nat (length (mem_blocks bp))).

Definition validateAndAddNextBlock (bp : InMemoryBlockPersistence) (blockPair : BlockPairContainer)
    : InMemoryBlockPersistence * outcome persistence_error (bool * Z) :=
  let currentTop := Z.of_nat (length (mem_blocks bp)) in
  if negb (u64_add currentTop 1 =? tx_height blockPair) then (bp, Ok (false, currentTop))
  else match IncrementTo (mem_tracker bp) (rx_height blockPair) with
       | Ok tracker => (mkBlockMemory (mem_blocks bp ++ [blockPair]) tracker, Ok (true, rx_height blockPair))
       | _ => (mkBlockMemory (mem_blocks bp ++ [blockPair]) (mem_tracker bp), Panic)
       end.

(** Metrics apart. *)
Definition memory_WriteNextBlock (bp : InMemoryBlockPersistence) (blockPair : BlockPairContainer)
    : InMemoryBlockPersistence * outcome persistence_error (bool * Z) :=
  validateAndAddNextBlock bp blockPair.

(** The index of the first receipt of a transaction. *)
Definition receipt_index (txHash : bytes) (b : BlockPairContainer) : option nat :=
  fst <$> list_find (fun r => tr_Txhash r = txHash) (rxb_TransactionReceipts (bpc_ResultsBlock b)).

Fixpoint find_tx (txHash : bytes) (candidates : list BlockPairContainer) : option (BlockPairContainer * nat) :=
  match candidates with
  | [] => None
  | b :: candidates' =>
      match receipt_index txHash b with
      | Some i => Some (b, i)
      | None => find_tx txHash candidates'
      end
  end.

Definition memory_GetBlockByTx (bp : InMemoryBlockPersistence) (txHash : bytes) (minBlockTs maxBlockTs : Z)
    : outcome persistence_error (option (BlockPairContainer * nat)) :=
  let candidateBlocks :=
    List.filter (fun b => (tx_time b <=? maxBlockTs) && (minBlockTs <=? tx_time b)) (mem_blocks bp) in
  if (length candidateBlocks =? 0)%nat then Ok None else Ok (find_tx txHash candidateBlocks).

(** Height 0 is an index out of range. *)
Definition getBlockPairAtHeight (bp : InMemoryBlockPersistence) (height : Z)
    : outcome persistence_error BlockPairContainer :=
  if Z.of_nat (length (mem_blocks bp)) <? height then Err ErrBlockNotFound
  else match mem_blocks bp !! Z.to_nat (u64_sub height 1) with Some b => Ok b | None => Panic end.

Definition memory_GetTransactionsBlock (bp : InMemoryBlockPersistence) (height : Z)
    : outcome persistence_error TransactionsBlockContainer :=
  let! blockPair := getBlockPairAtHeight bp height in Ok (bpc_TransactionsBlock blockPair).

Definition memory_GetResultsBlock (bp : InMemoryBlockPersistence) (height : Z)
    : outcome persistence_error ResultsBlockContainer :=
  let! blockPair := getBlockPairAtHeight bp height in Ok (bpc_ResultsBlock blockPair).

(** The loop of [ScanBlocks]; a page size of zero never ends it, which is the only
    way to use up the fuel [ScanBlocks] gives. *)
Fixpoint scan_loop {S} (fuel : nat) (allBlocks : list BlockPairContainer) (from pageSize : Z)
    (f : CursorFunc S) (s : S) : outcome persistence_error S :=
  match fuel with
  | O => Panic
  | Datatypes.S fuel' =>
      let allBlocksLength := Z.of_nat (length allBlocks) in
      if from <=? allBlocksLength then
        let fromIndex := u64_sub from 1 in
        let toIndex := u64_add fromIndex pageSize in
        let toIndex := if allBlocksLength <? toIndex then allBlocksLength else toIndex in
        let! out := f from (take (Z.to_nat (toIndex - fromIndex)) (drop (Z.to_nat fromIndex) allBlocks)) s in
        let '(s', wantsMore) := out in
        if wantsMore : bool then scan_loop fuel' allBlocks (u64_add toIndex 1) pageSize f s' else Ok s'
      else Ok s
  end.

Definition memory_ScanBlocks {S} (bp : InMemoryBlockPersistence) (from pageSize : Z)
    (f : CursorFunc S) (s : S) : outcome persistence_error S :=
  if (Z.of_nat (length (mem_blocks bp)) <? from) || (from =? 0) then Err ErrUnknownHeight
  else scan_loop (Datatypes.S (length (mem_blocks bp))) (mem_blocks bp) from pageSize f s.

#[export] Instance memory_persistence : BlockPersistence InMemoryBlockPersistence := {
  WriteNextBlock := memory_WriteNextBlock;
  ScanBlocks := @memory_ScanBlocks;
  GetLastBlockHeight := memory_GetLastBlockHeight;
  GetLastBlock := memory_GetLastBlock;
  GetTransactionsBlock := memory_GetTransactionsBlock;
  GetResultsBlock := memory_GetResultsBlock;
  GetBlockByTx := memory_GetBlockByTx;
  GetBlockTracker := memory_GetBlockTracker
}.

(** ** The in-memory persistence keeps the contract *)

Definition memory_holds (bp : InMemoryBlockPersistence) (chain : list BlockPairContainer) : Prop :=
  mem_blocks bp = chain /\ chain_ok chain /\ currentHeight (mem_tracker bp) = top chain.

Lemma chain_ok_app chain b :
  chain_ok chain -> pair_at (length chain) b -> top chain + 1 < 2 ^ 63 -> chain_ok (chain ++ [b]).
Proof.
  intros [_ Hc] Hb Ht. unfold top in Ht. split; [rewrite length_app; simpl; lia|].
  intros i b' [Hi|[Hge Hi]]%lookup_app_Some; [by apply Hc|].
  apply list_lookup_singleton_Some in Hi as [Hz <-]. by replace i with (length chain) by lia.
Qed.

(** Scanning with pages of one block is the walk over the blocks from there on. *)
Lemma scan_loop_each {S} (f : CursorFunc S) allBlocks fuel from s :
  Z.of_nat (length allBlocks) < 2 ^ 63 -> 1 <= from ->
  (length allBlocks - Z.to_nat (from - 1) < fuel)%nat ->
  scan_loop fuel allBlocks from 1 f s = scan_each f from (drop (Z.to_nat (from - 1)) allBlocks) s.
Proof.
  intros Hlen. revert from s. induction fuel as [|fuel IH]; intros from s Hfrom Hfuel; [lia|].
  cbn [scan_loop]. destruct (Z.leb_spec from (Z.of_nat (length allBlocks))) as [Hle|Hgt].
  - rewrite u64_sub_small, (u64_add_small (from - 1)) by lia.
    lia_if. replace (from - 1 + 1 - (from - 1)) with 1 by lia.
    destruct (lookup_lt_is_Some_2 allBlocks (Z.to_nat (from - 1))) as [b Hb]; [lia|].
    rewrite (drop_S _ _ _ Hb). cbn [scan_each take Z.to_nat].
    change (take (Z.to_nat 1) (b :: ?l)) with [b].
    destruct (f from [b] s) as [[s' [|]]| |]; try done. cbn [bindO].
    words. rewrite IH by lia. f_equal; [lia|f_equal; lia].
  - by rewrite drop_ge by lia.
Qed.

Lemma memory_pair_at p chain h b :
  memory_holds p chain -> 1 <= h -> chain !! Z.to_nat (h - 1) = Some b -> getBlockPairAtHeight p h = Ok b.
Proof.
  intros (Hm & [Hlen _] & _) Hh Hb. unfold getBlockPairAtHeight. rewrite Hm.
  pose proof (lookup_lt_Some _ _ _ Hb). lia_if.
  words. by rewrite Hb.
Qed.

#[export] Instance memory_persistence_laws :
  BlockPersistenceLaws InMemoryBlockPersistence memory_holds (fun _ => True).
Proof.
  split.
  - by intros p chain (_ & Hc & _).
  - intros p chain b (Hm & Hc & Ht) _ [Htx Hrx] Hsmall. cbn. unfold memory_WriteNextBlock, validateAndAddNextBlock.
    rewrite Hm. fold (top chain). unfold top in *. words.
    lia_if. unfold IncrementTo. rewrite Ht, u64_add_small by lia.
    rewrite bool_decide_eq_false_2 by lia. eexists. split; [repeat f_equal; lia|].
    split_and!; [done|by apply chain_ok_app|]. cbn. unfold top. rewrite length_app. simpl. lia.
  - intros p chain b (Hm & [Hlen _] & _) _ Hne. cbn. unfold memory_WriteNextBlock, validateAndAddNextBlock.
    rewrite Hm. unfold top in *. words. by lia_if.
  - intros S p chain from f s (Hm & [Hlen _] & _) Hfrom. cbn. unfold memory_ScanBlocks. rewrite Hm.
    unfold top in *. lia_if. apply scan_loop_each; lia.
  - intros S p chain from f s (Hm & _ & _) Hfrom. cbn. unfold memory_ScanBlocks. rewrite Hm.
    unfold top in *. by lia_if.
  - intros p chain (Hm & _ & _). cbn. unfold memory_GetLastBlockHeight. by rewrite Hm.
  - intros p chain (Hm & _ & _). cbn. unfold memory_GetLastBlock. rewrite Hm, last_lookup.
    destruct chain as [|b chain]; [done|]. simpl. replace (length chain - 0)%nat with (length chain) by lia.
    destruct (lookup_lt_is_Some_2 (b :: chain) (length chain)) as [b' Hb']; [simpl; lia|]. by rewrite Hb'.
  - intros p chain h b Hp Hh Hb. cbn. unfold memory_GetTransactionsBlock.
    by rewrite (memory_pair_at _ _ _ _ Hp Hh Hb).
  - intros p chain h b Hp Hh Hb. cbn. unfold memory_GetResultsBlock. by rewrite (memory_pair_at _ _ _ _ Hp Hh Hb).
  - intros p chain h (Hm & _ & _) Hh. cbn. unfold memory_GetResultsBlock, getBlockPairAtHeight. rewrite Hm.
    unfold top in *. lia_if. eauto.
  - by intros p chain (_ & _ & Ht).
Qed.

Lemma new_memory_holds chain : chain_ok chain -> memory_holds (NewMemoryPersistence chain) chain.
Proof. intros Hc. by repeat split; try apply Hc. Qed.
