(* ===== verification/BlockStorage.v ===== *)
(** * Block storage (services/blockstorage)

    Committing and validating blocks, block queries, receipt proofs and the server
    side of block sync, over any block persistence. *)

From stdpp Require Import base list.
From Stdlib Require Import ZArith Lia ZifyBool.
From S2P Require Import Prelude Hash MerkleAlgo OrderedTree Protocol Digest BlockTracker BlockPersistence.

Module BlockStorage.

Definition ProtocolVersion : Z := 1.

Inductive storage_error :=
| ErrTxProtocolVersion
| ErrRxProtocolVersion
| ErrFutureBlock
| ErrForkTimestamp
| ErrForkTxHeader
| ErrForkRxHeader
| ErrPairHeightMismatch
| ErrNotConsecutive
| ErrAllRefused
| ErrNotFoundInRange
| ErrTxNotInBlock
| ErrFirstAboveCommitted
| ErrSend
| ErrWaiting (e : tracker_error)
| ErrProof (e : tree_error)
| ErrPersistence (e : persistence_error).

Record BlockStorageConfig := mkStorageConfig {
  NodeAddress : bytes;
  BlockSyncNumBlocksInBatch : Z;
  BlockStorageTransactionReceiptQueryTimestampGrace : Z;
  TransactionExpirationWindow : Z
}.

Inductive HandleBlockConsensusMode :=
| HANDLE_BLOCK_CONSENSUS_MODE_VERIFY_AND_UPDATE
| HANDLE_BLOCK_CONSENSUS_MODE_VERIFY_ONLY
| HANDLE_BLOCK_CONSENSUS_MODE_UPDATE_ONLY.

(** A registered consensus algorithm: mode, block and previous block to "no error",
    as it answers at the time of the call. *)
Definition ConsensusBlocksHandler : Type :=
  HandleBlockConsensusMode -> option BlockPairContainer -> option BlockPairContainer -> bool.

Record Service (P : Type) := mkService {
  persistence : P;
  config : BlockStorageConfig;
  handlers : list ConsensusBlocksHandler
}.
Arguments mkService {P}.
Arguments persistence {P}.
Arguments config {P}.
Arguments handlers {P}.

Definition of_persistence {A} (m : outcome persistence_error A) : outcome storage_error A :=
  match m with Ok a => Ok a | Err e => Err (ErrPersistence e) | Panic => Panic end.

Definition getBlockHeight (block : option BlockPairContainer) : Z :=
  match block with None => 0 | Some b => tx_height b end.

Definition getBlockTimestamp (block : option BlockPairContainer) : Z :=
  match block with None => 0 | Some b => tx_time b end.

Definition validateProtocolVersion (blockPair : BlockPairContainer) : outcome storage_error unit :=
  if negb (txh_ProtocolVersion (txb_Header (bpc_TransactionsBlock blockPair)) =? ProtocolVersion)
  then Err ErrTxProtocolVersion
  else if negb (rxh_ProtocolVersion (rxb_Header (bpc_ResultsBlock blockPair)) =? ProtocolVersion)
  then Err ErrRxProtocolVersion
  else Ok tt.

Definition validateConsecutiveBlockHeight (blockPair : BlockPairContainer)
    (lastCommittedBlock : option BlockPairContainer) : outcome storage_error unit :=
  let expectedBlockHeight := u64_add (getBlockHeight lastCommittedBlock) 1 in
  if negb (tx_height blockPair =? rx_height blockPair) then Err ErrPairHeightMismatch
  else if negb (tx_height blockPair =? expectedBlockHeight) then Err ErrNotConsecutive
  else Ok tt.

(** The result is whether the block is new. *)
Definition validateBlockDoesNotExist (txBlockHeader : TransactionsBlockHeader) (rsBlockHeader : ResultsBlockHeader)
    (lastCommittedBlock : option BlockPairContainer) : outcome storage_error bool :=
  let currentBlockHeight := getBlockHeight lastCommittedBlock in
  let attemptedBlockHeight := txh_BlockHeight txBlockHeader in
  if attemptedBlockHeight <? currentBlockHeight then Ok false
  else if attemptedBlockHeight =? currentBlockHeight then
    if negb (txh_Timestamp txBlockHeader =? getBlockTimestamp lastCommittedBlock) then Err ErrForkTimestamp
    else match lastCommittedBlock with
         | None => Panic
         | Some b =>
             if bool_decide (txBlockHeader <> txb_Header (bpc_TransactionsBlock b)) then Err ErrForkTxHeader
             else if bool_decide (rsBlockHeader <> rxb_Header (bpc_ResultsBlock b)) then Err ErrForkRxHeader
             else Ok false
         end
  else Ok true.

Definition detectForks (proposedBlock : BlockPairContainer) (storedTxBlockHeader : TransactionsBlockHeader)
    (storedRsBlockHeader : ResultsBlockHeader) : outcome storage_error unit :=
  let txBlockHeader := txb_Header (bpc_TransactionsBlock proposedBlock) in
  let rsBlockHeader := rxb_Header (bpc_ResultsBlock proposedBlock) in
  if negb (txh_Timestamp txBlockHeader =? txh_Timestamp storedTxBlockHeader) then Err ErrForkTimestamp
  else if bool_decide (txBlockHeader <> storedTxBlockHeader) then Err ErrForkTxHeader
  else if bool_decide (rsBlockHeader <> storedRsBlockHeader) then Err ErrForkRxHeader
  else Ok tt.

Section Service.
Context `{Sha256, Membuffers} {P : Type} `{BlockPersistence P}.
Implicit Types s : Service P.

Definition with_persistence s (p : P) : Service P := mkService p (config s) (handlers s).

(** The node sync is started elsewhere; the handlers register later. *)
Definition NewBlockStorage (cfg : BlockStorageConfig) (p : P) : Service P := mkService p cfg [].

(** ** Committing (commit_block.go)

    The boolean says that the node sync is to be notified; whether it is ready to
    receive is up to the scheduler. *)
Definition commitBlock s (blockPair : BlockPairContainer) (notifyNodeSync : bool)
    : Service P * outcome storage_error bool :=
  let proposedBlockHeight := tx_height blockPair in
  match validateProtocolVersion blockPair with
  | Ok _ =>
      let '(p, written) := WriteNextBlock (persistence s) blockPair in
      (with_persistence s p,
       let! out := of_persistence written in
       let '(added, persistedHeight) := out in
       if u64_add persistedHeight 1 <? proposedBlockHeight then Err ErrFutureBlock
       else if negb added then
         let! storedRsBlock := of_persistence (GetResultsBlock p proposedBlockHeight) in
         let! storedTxBlock := of_persistence (GetTransactionsBlock p proposedBlockHeight) in
         let! _ := detectForks blockPair (txb_Header storedTxBlock) (rxb_Header storedRsBlock) in
         Ok false
       else Ok notifyNodeSync)
  | Err e => (s, Err e)
  | Panic => (s, Panic)
  end.

Definition NodeSyncCommitBlock s (blockPair : BlockPairContainer) := commitBlock s blockPair false.
Definition CommitBlock s (blockPair : BlockPairContainer) := commitBlock s blockPair true.

(** ** Validating (validate_block.go) *)

Definition verify_mode (mode : HandleBlockConsensusMode) : bool :=
  match mode with
  | HANDLE_BLOCK_CONSENSUS_MODE_VERIFY_AND_UPDATE | HANDLE_BLOCK_CONSENSUS_MODE_VERIFY_ONLY => true
  | HANDLE_BLOCK_CONSENSUS_MODE_UPDATE_ONLY => false
  end.

(** [ctxErr] says that the context is done when the handlers have answered. *)
Definition notifyConsensusAlgos s (ctxErr : bool) (prevBlockPair blockPair : option BlockPairContainer)
    (mode : HandleBlockConsensusMode) : outcome storage_error unit :=
  let verifyMode := verify_mode mode in
  let verifiedCount :=
    foldl (fun count (handler : ConsensusBlocksHandler) =>
      if verifyMode && handler mode blockPair prevBlockPair then S count else count) 0%nat (handlers s) in
  if verifyMode && (verifiedCount =? 0)%nat && negb ctxErr then Err ErrAllRefused else Ok tt.

Definition ValidateBlockForCommit s (ctxErr : bool) (blockPair : BlockPairContainer) : outcome storage_error unit :=
  let! _ := validateProtocolVersion blockPair in
  let! lastCommittedBlock := of_persistence (GetLastBlock (persistence s)) in
  let! _ := validateConsecutiveBlockHeight blockPair lastCommittedBlock in
  notifyConsensusAlgos s ctxErr lastCommittedBlock (Some blockPair) HANDLE_BLOCK_CONSENSUS_MODE_VERIFY_AND_UPDATE.

(** Errors are only logged. *)
Definition UpdateConsensusAlgosAboutLastCommittedBlockInLocalPersistence s (ctxErr : bool)
    : outcome storage_error unit :=
  match GetLastBlock (persistence s) with
  | Ok lastCommittedBlock =>
      match notifyConsensusAlgos s ctxErr None lastCommittedBlock HANDLE_BLOCK_CONSENSUS_MODE_UPDATE_ONLY with
      | Panic => Panic
      | _ => Ok tt
      end
  | Err _ => Ok tt
  | Panic => Panic
  end.

Definition appendHandlerUnderLock s (handler : ConsensusBlocksHandler) : Service P :=
  mkService (persistence s) (config s) (handlers s ++ [handler]).

Definition RegisterConsensusBlocksHandler s (handler : ConsensusBlocksHandler)
    : outcome storage_error (Service P) :=
  let s := appendHandlerUnderLock s handler in
  let! _ := UpdateConsensusAlgosAboutLastCommittedBlockInLocalPersistence s false in
  Ok s.

(** ** Queries (block_queries.go)

    [wait] is what waiting for the block gave. *)

Definition GetLastCommittedBlockHeight s : outcome storage_error (Z * Z) :=
  let! b := of_persistence (GetLastBlock (persistence s)) in
  Ok (getBlockHeight b, getBlockTimestamp b).

Definition loadTransactionsBlockHeader s (height : Z)
    : outcome storage_error (BlockProof * TransactionsBlockHeader * bytes) :=
  let! txBlock := of_persistence (GetTransactionsBlock (persistence s) height) in
  Ok (txb_BlockProof txBlock, txb_Header txBlock, txb_Metadata txBlock).

Definition GetTransactionsBlockHeader s (wait : option tracker_error) (height : Z)
    : outcome storage_error (BlockProof * TransactionsBlockHeader * bytes) :=
  match wait with None => loadTransactionsBlockHeader s height | Some e => Err (ErrWaiting e) end.

Definition loadResultsBlockHeader s (height : Z) : outcome storage_error (BlockProof * ResultsBlockHeader) :=
  let! rxBlock := of_persistence (GetResultsBlock (persistence s) height) in
  Ok (rxb_BlockProof rxBlock, rxb_Header rxBlock).

Definition GetResultsBlockHeader s (wait : option tracker_error) (height : Z)
    : outcome storage_error (BlockProof * ResultsBlockHeader) :=
  match wait with None => loadResultsBlockHeader s height | Some e => Err (ErrWaiting e) end.

Definition createEmptyTransactionReceiptResult s : outcome storage_error (option TransactionReceipt * Z * Z) :=
  let! out := GetLastCommittedBlockHeight s in
  Ok (None, out.1, out.2).

Definition GetTransactionReceipt s (txHash : bytes) (transactionTimestamp : Z)
    : outcome storage_error (option TransactionReceipt * Z * Z) :=
  let graceNano := BlockStorageTransactionReceiptQueryTimestampGrace (config s) in
  let txExpireNano := TransactionExpirationWindow (config s) in
  let start := u64_sub transactionTimestamp graceNano in
  let end_ := u64_add transactionTimestamp (graceNano + txExpireNano) in
  let! found := of_persistence (GetBlockByTx (persistence s) txHash start end_) in
  match found with
  | None => createEmptyTransactionReceiptResult s
  | Some (blockPair, txIdx) =>
      match rxb_TransactionReceipts (bpc_ResultsBlock blockPair) !! txIdx with
      | Some receipt => Ok (Some receipt, rx_height blockPair, rx_time blockPair)
      | None => Panic
      end
  end.

(** [make] of a slice of pointers panics when the capacity is beyond what the
    run-time can address (2^48 bytes). *)
Definition make_ok (capacity : Z) : bool := capacity * 8 <=? 2 ^ 48.

Definition GetBlockSlice s (first last : Z) : outcome storage_error (list BlockPairContainer * Z * Z) :=
  if negb (make_ok (u64_add (u64_sub last first) 1)) then Panic
  else
    let! blocks := of_persistence (ScanBlocks (persistence s) first 1
                     (fun firstInPage page blocks => Ok (blocks ++ page, firstInPage <? last)) []) in
    if (length blocks =? 0)%nat then Err ErrNotFoundInRange
    else Ok (blocks, first, u64_sub (u64_add first (Z.of_nat (length blocks))) 1).

Definition GetBlockPair s (wait : option tracker_error) (height : Z)
    : outcome storage_error (option BlockPairContainer) :=
  match wait with
  | Some _ => Ok None
  | None =>
      of_persistence (ScanBlocks (persistence s) height 1
        (fun _ page (_ : option BlockPairContainer) =>
           match page with b :: _ => Ok (Some b, false) | [] => Panic end) None)
  end.

(** ** Receipt proofs (generate_proofs.go) *)

Definition generateProof (receipts : list TransactionReceipt) (index : nat) : outcome storage_error bytes :=
  match GetProof (NewOrderedTree (CalcReceiptHashes receipts)) (Z.of_nat index) with
  | Ok proof => Ok (FlattenOrderedTreeProof proof)
  | Err e => Err (ErrProof e)
  | Panic => Panic
  end.

Definition GenerateReceiptProof s (blockHeight : Z) (txHash : bytes)
    : outcome storage_error (ResultsBlockHeader * BlockProof * bytes) :=
  let! block := of_persistence (GetResultsBlock (persistence s) blockHeight) in
  match list_find (fun r => tr_Txhash r = txHash) (rxb_TransactionReceipts block) with
  | Some (i, _) =>
      let! proof := generateProof (rxb_TransactionReceipts block) i in
      Ok (rxb_Header block, rxb_BlockProof block, proof)
  | None => Err ErrTxNotInBlock
  end.

(** ** Serving block sync (block_sync_server.go) *)

Record BlockSyncRange := mkRange {
  FirstBlockHeight : Z;
  LastBlockHeight : Z;
  LastCommittedBlockHeight : Z
}.

Record BlockAvailabilityResponse := mkAvailability {
  ar_Recipient : bytes;
  ar_Sender : bytes;
  ar_Range : BlockSyncRange
}.

(** [None]: there is nothing to offer and nothing is sent.  Otherwise the response,
    whose sending may fail. *)
Definition sourceHandleBlockAvailabilityRequest s (sender : bytes) (range : BlockSyncRange)
    : outcome storage_error (option BlockAvailabilityResponse) :=
  let! out := GetLastCommittedBlockHeight s in
  let lastCommittedBlockHeight := out.1 in
  if lastCommittedBlockHeight <=? LastCommittedBlockHeight range then Ok None
  else Ok (Some (mkAvailability sender (NodeAddress (config s))
                   (mkRange 1 lastCommittedBlockHeight lastCommittedBlockHeight))).

Record BlockSyncResponse := mkSyncResponse {
  sr_Recipient : bytes;
  sr_Sender : bytes;
  sr_Range : BlockSyncRange;
  sr_BlockPairs : list BlockPairContainer
}.

Inductive send_result := Sent | ChunkTooBig | SendFailed.

(** The loop that halves the chunk until it fits; [gossip] is the outcome of each
    [SendBlockSyncResponse]. *)
Fixpoint send_chunks (fuel : nat) (gossip : BlockSyncResponse -> send_result) (recipient sender : bytes)
    (firstAvailable lastCommitted : Z) (blocks : list BlockPairContainer) (chunkSize : nat)
    : outcome storage_error BlockSyncResponse :=
  let lastAvailable := u64_sub (u64_add firstAvailable (Z.of_nat chunkSize)) 1 in
  let response := mkSyncResponse recipient sender (mkRange firstAvailable lastAvailable lastCommitted)
                    (take chunkSize blocks) in
  match fuel with
  | O => Err ErrSend
  | S fuel' =>
      match gossip response with
      | Sent => Ok response
      | SendFailed => Err ErrSend
      | ChunkTooBig =>
          if (chunkSize =? 0)%nat then Err ErrSend
          else send_chunks fuel' gossip recipient sender firstAvailable lastCommitted blocks (chunkSize / 2)
      end
  end.

Definition sourceHandleBlockSyncRequest s (gossip : BlockSyncResponse -> send_result)
    (senderNodeAddress : bytes) (range : BlockSyncRange) : outcome storage_error BlockSyncResponse :=
  let firstRequestedBlockHeight := FirstBlockHeight range in
  let! out := GetLastCommittedBlockHeight s in
  let lastCommittedBlockHeight := out.1 in
  if lastCommittedBlockHeight <? firstRequestedBlockHeight then Err ErrFirstAboveCommitted
  else
    let batch := u32_sub (BlockSyncNumBlocksInBatch (config s)) 1 in
    let lastRequestedBlockHeight :=
      if batch <? u64_sub firstRequestedBlockHeight lastCommittedBlockHeight
      then u64_add firstRequestedBlockHeight batch
      else LastBlockHeight range in
    let! slice := GetBlockSlice s firstRequestedBlockHeight lastRequestedBlockHeight in
    let '(blocks, firstAvailableBlockHeight, _) := slice in
    send_chunks (S (length blocks)) gossip senderNodeAddress (NodeAddress (config s))
      firstAvailableBlockHeight lastCommittedBlockHeight blocks (length blocks).

Definition HandleBlockAvailabilityRequest := sourceHandleBlockAvailabilityRequest.
Definition HandleBlockSyncRequest := sourceHandleBlockSyncRequest.
End Service.

(** ** Lemmas *)

Lemma validateProtocolVersion_Ok b :
  validateProtocolVersion b = Ok tt <->
  txh_ProtocolVersion (txb_Header (bpc_TransactionsBlock b)) = ProtocolVersion /\
  rxh_ProtocolVersion (rxb_Header (bpc_ResultsBlock b)) = ProtocolVersion.
Proof.
  unfold validateProtocolVersion.
  destruct (Z.eqb_spec (txh_ProtocolVersion (txb_Header (bpc_TransactionsBlock b))) ProtocolVersion);
    destruct (Z.eqb_spec (rxh_ProtocolVersion (rxb_Header (bpc_ResultsBlock b))) ProtocolVersion);
    simpl; split; intros; tauto || done.
Qed.

Lemma validateProtocolVersion_cases b :
  validateProtocolVersion b = Ok tt \/ exists e, validateProtocolVersion b = Err e.
Proof. unfold validateProtocolVersion. repeat case_match; eauto. Qed.

(** A fork is told exactly when one of the headers differs. *)
Lemma detectForks_spec b txHeader rxHeader :
  (detectForks b txHeader rxHeader = Ok tt /\
     txb_Header (bpc_TransactionsBlock b) = txHeader /\ rxb_Header (bpc_ResultsBlock b) = rxHeader) \/
  ((exists e, detectForks b txHeader rxHeader = Err e) /\
     (txb_Header (bpc_TransactionsBlock b) <> txHeader \/ rxb_Header (bpc_ResultsBlock b) <> rxHeader)).
Proof.
  unfold detectForks.
  destruct (Z.eqb_spec (txh_Timestamp (txb_Header (bpc_TransactionsBlock b))) (txh_Timestamp txHeader)); simpl.
  - case_bool_decide as Htx; [by right; eauto|]. case_bool_decide as Hrx; [by right; eauto|].
    by left.
  - right. split; [eauto|]. left. congruence.
Qed.

Lemma verified_count (hs : list ConsensusBlocksHandler) vm mode b prev n :
  foldl (fun count (handler : ConsensusBlocksHandler) =>
    if vm && handler mode b prev then S count else count) n hs = 0%nat <->
  n = 0%nat /\ (vm = true -> forall h, In h hs -> h mode b prev = false).
Proof.
  revert n. induction hs as [|h hs IH]; intros n; simpl; [split; [by intros ->|by intros [-> _]]|].
  rewrite IH. destruct vm; simpl.
  - destruct (h mode b prev) eqn:E; split; intros [Hn Hh]; try (split; [done|]); try lia.
    + specialize (Hh eq_refl h (or_introl eq_refl)). congruence.
    + intros _ h' [<-|Hin]; [done|by apply Hh].
    + intros _ h' Hin. apply Hh; auto.
  - split; intros [Hn _]; by split.
Qed.

Lemma notify_verify {P} (s : Service P) ctxErr prev b :
  notifyConsensusAlgos s ctxErr prev b HANDLE_BLOCK_CONSENSUS_MODE_VERIFY_AND_UPDATE = Ok tt <->
  ctxErr = true \/
  exists h, In h (handlers s) /\ h HANDLE_BLOCK_CONSENSUS_MODE_VERIFY_AND_UPDATE b prev = true.
Proof.
  unfold notifyConsensusAlgos. cbn [verify_mode]. set (count := foldl _ _ _).
  destruct (Nat.eqb_spec count 0) as [Hc|Hc]; cbn [andb].
  - apply verified_count in Hc as [_ Hall]. destruct ctxErr; cbn [negb]; [by split; [left|]|].
    split; [done|]. intros [?|(h & Hin & Hh)]; [done|]. rewrite Hall in Hh; done.
  - split; [|done]. intros _. right.
    destruct (existsb (fun h : ConsensusBlocksHandler => h HANDLE_BLOCK_CONSENSUS_MODE_VERIFY_AND_UPDATE b prev)
                (handlers s)) eqn:E; [by apply existsb_exists in E|].
    destruct Hc. apply verified_count. split; [done|]. intros _ h Hin.
    apply not_true_iff_false. intros Hh. apply not_true_iff_false in E. apply E, existsb_exists. eauto.
Qed.

Lemma scan_slice last first blocks acc :
  scan_each (fun firstInPage page blocks => Ok (blocks ++ page, firstInPage <? last)) first blocks acc
  = Ok (acc ++ take (S (Z.to_nat (last - first))) blocks).
Proof.
  revert first acc. induction blocks as [|b blocks IH]; intros first acc; cbn [scan_each].
  - by rewrite app_nil_r.
  - cbn [bindO]. destruct (Z.ltb_spec first last).
    + rewrite IH. rewrite <- app_assoc. simpl.
      by replace (Z.to_nat (last - first)) with (S (Z.to_nat (last - (first + 1)))) by lia.
    + by replace (Z.to_nat (last - first)) with 0%nat by lia.
Qed.

Section Laws.
Context `{Sha256Laws, Membuffers} {P : Type} `{BlockPersistence P} {holds : P -> list BlockPairContainer -> Prop}
  {storable : BlockPairContainer -> Prop} `{!BlockPersistenceLaws P holds storable}.
Implicit Types s : Service P.

Lemma last_committed s chain :
  holds (persistence s) chain -> exists ts, GetLastCommittedBlockHeight s = Ok (top chain, ts).
Proof.
  intros Hs. unfold GetLastCommittedBlockHeight. rewrite (last_block _ _ Hs). cbn [of_persistence bindO].
  exists (getBlockTimestamp (last chain)). f_equal. f_equal. rewrite last_lookup. unfold top.
  destruct (chain !! pred (length chain)) as [b|] eqn:Hb; simpl.
  - pose proof (lookup_lt_Some _ _ _ Hb). apply (holds_ok _ _ Hs) in Hb as [Hh _]. rewrite Hh. lia.
  - apply lookup_ge_None in Hb. lia.
Qed.

Lemma GetBlockSlice_take s chain first last :
  holds (persistence s) chain -> 1 <= first <= top chain -> first <= last -> last - first < 2 ^ 45 ->
  let blocks := take (Z.to_nat (last - first + 1)) (drop (Z.to_nat (first - 1)) chain) in
  GetBlockSlice s first last = Ok (blocks, first, first + Z.of_nat (length blocks) - 1) /\ blocks <> [].
Proof.
  intros Hs Hf Hl Hsmall blocks. pose proof (holds_ok _ _ Hs) as [Hlen _]. unfold top in *.
  assert (length blocks <> 0%nat) as Hne by (unfold blocks; rewrite length_take, length_drop; lia).
  assert (length blocks <= length chain)%nat as Hbl by (unfold blocks; rewrite length_take, length_drop; lia).
  split; [|by destruct blocks].
  unfold GetBlockSlice, make_ok. rewrite (u64_sub_small last first), (u64_add_small (last - first)) by lia. lia_if.
  rewrite (scan_from _ _ _ _ _ Hs) by (unfold top; lia).
  rewrite scan_slice. cbn [of_persistence bindO]. rewrite app_nil_l.
  replace (S (Z.to_nat (last - first))) with (Z.to_nat (last - first + 1)) by lia. fold blocks.
  replace (length blocks =? 0)%nat with false by lia.
  words. done.
Qed.

(** Halving ends, and what is sent is a prefix of the blocks with its range. *)
Lemma send_chunks_spec fuel gossip recipient sender first committed blocks chunk :
  (chunk < fuel)%nat -> (chunk <= length blocks)%nat -> 1 <= first -> first + Z.of_nat chunk < 2 ^ 64 ->
  let out := send_chunks fuel gossip recipient sender first committed blocks chunk in
  out = Err ErrSend \/
  exists k, (k <= chunk)%nat /\
    out = Ok (mkSyncResponse recipient sender (mkRange first (first + Z.of_nat k - 1) committed) (take k blocks)) /\
    gossip (mkSyncResponse recipient sender (mkRange first (first + Z.of_nat k - 1) committed) (take k blocks)) = Sent.
Proof.
  revert chunk. induction fuel as [|fuel IH]; intros chunk Hfuel Hlen Hfirst Hsmall; [lia|]. cbn [send_chunks].
  words. destruct (gossip _) eqn:Hg.
  - right. exists chunk. done.
  - destruct (Nat.eqb_spec chunk 0); [by left|].
    assert (chunk / 2 < chunk)%nat by (apply Nat.div_lt; lia).
    destruct (IH (chunk / 2)%nat) as [?|(k & ? & ?)]; [lia..|by left|]. right. exists k. split; [lia|done].
  - by left.
Qed.

(** The range a block sync request asks for, whatever its last height, when it starts
    below the top: a full batch. *)
Lemma sync_request_slice s chain gossip sender first last committed :
  let batch := BlockSyncNumBlocksInBatch (config s) in
  holds (persistence s) chain -> 1 <= batch < 2 ^ 32 -> 1 <= first <= top chain ->
  (first = top chain -> last = first + batch - 1) ->
  let blocks := take (Z.to_nat batch) (drop (Z.to_nat (first - 1)) chain) in
  blocks <> [] /\
  sourceHandleBlockSyncRequest s gossip sender (mkRange first last committed) =
  send_chunks (S (length blocks)) gossip sender (NodeAddress (config s)) first (top chain) blocks (length blocks).
Proof.
  intros batch Hs Hb Hf Hlast blocks. pose proof (holds_ok _ _ Hs) as [Hlen _].
  unfold sourceHandleBlockSyncRequest. destruct (last_committed s chain Hs) as [ts ->]. cbn [bindO fst FirstBlockHeight].
  lia_if. fold batch. unfold u32_sub. rewrite wrap_small by lia.
  replace (if batch - 1 <? u64_sub first (top chain) then u64_add first (batch - 1)
           else LastBlockHeight (mkRange first last committed)) with (first + batch - 1).
  2: { unfold top in *. destruct (decide (first = Z.of_nat (length chain))) as [Heq|Hne].
       - words. lia_if. simpl. rewrite Hlast; lia.
       - rewrite u64_sub_wrap, u64_add_small by (unfold is_u64; lia). lia_if. lia. }
  destruct (GetBlockSlice_take s chain first (first + batch - 1)) as [-> Hne]; [done|lia..|].
  replace (first + batch - 1 - first + 1) with batch in * by lia. by fold blocks in Hne |- *.
Qed.

Lemma commitBlock_cases s chain b notify :
  holds (persistence s) chain -> storable b -> tx_height b = rx_height b -> 1 <= tx_height b < 2 ^ 64 ->
  top chain + 1 < 2 ^ 63 -> validateProtocolVersion b = Ok tt ->
  let s' := (commitBlock s b notify).1 in
  let result := (commitBlock s b notify).2 in
  if decide (tx_height b = top chain + 1) then holds (persistence s') (chain ++ [b]) /\ result = Ok notify
  else
    holds (persistence s') chain /\
    if decide (top chain < tx_height b) then result = Err ErrFutureBlock
    else exists stored, chain !! Z.to_nat (tx_height b - 1) = Some stored /\
      ((result = Ok false /\ txb_Header (bpc_TransactionsBlock b) = txb_Header (bpc_TransactionsBlock stored) /\
          rxb_Header (bpc_ResultsBlock b) = rxb_Header (bpc_ResultsBlock stored)) \/
       ((exists e, result = Err e) /\
          (txb_Header (bpc_TransactionsBlock b) <> txb_Header (bpc_TransactionsBlock stored) \/
           rxb_Header (bpc_ResultsBlock b) <> rxb_Header (bpc_ResultsBlock stored)))).
Proof.
  intros Hs Hst Heq Hh Hsmall Hv. unfold commitBlock. rewrite Hv. unfold top in *.
  case_decide as Hnext.
  - destruct (write_next (persistence s) chain b) as (p' & -> & Hp'); [done|done|split; lia|done|].
    cbn [fst snd persistence with_persistence of_persistence bindO negb]. split; [done|].
    unfold top in *. words. by lia_if.
  - rewrite (write_other _ _ _ Hs Heq) by done.
    cbn [fst snd persistence with_persistence of_persistence bindO negb]. split; [done|].
    unfold top in *. words. case_decide.
    { by lia_if. }
    lia_if.
    destruct (lookup_lt_is_Some_2 chain (Z.to_nat (tx_height b - 1))) as [stored Hstored]; [lia|].
    exists stored. split; [done|].
    rewrite (results_block _ _ _ _ Hs (proj1 Hh) Hstored), (transactions_block _ _ _ _ Hs (proj1 Hh) Hstored).
    cbn [of_persistence bindO].
    destruct (detectForks_spec b (txb_Header (bpc_TransactionsBlock stored)) (rxb_Header (bpc_ResultsBlock stored)))
      as [(-> & ? & ?)|[[e ->] ?]]; [by left|by right; eauto].
Qed.

(** Whatever is committed, the stored chain only grows. *)
Lemma commitBlock_grows s chain b notify :
  holds (persistence s) chain -> storable b -> tx_height b = rx_height b -> 1 <= tx_height b < 2 ^ 64 ->
  top chain + 1 < 2 ^ 63 ->
  exists more, holds (persistence (commitBlock s b notify).1) (chain ++ more).
Proof.
  intros Hs Hst Heq Hh Hsmall. destruct (validateProtocolVersion_cases b) as [Hv|[e Hv]].
  - pose proof (commitBlock_cases s chain b notify Hs Hst Heq Hh Hsmall Hv) as Hc. cbn zeta in Hc. case_decide.
    + exists [b]. apply Hc.
    + exists []. rewrite app_nil_r. apply Hc.
  - exists []. unfold commitBlock. by rewrite Hv, app_nil_r.
Qed.

(** ** Properties *)

(** Committing a block pair of one height: a new top is appended; a later height and
    a different block at a stored height are errors; the stored block again is
    accepted; and no block that was stored ever changes. *)
Theorem commitBlock_spec s chain b notify :
  holds (persistence s) chain -> storable b -> tx_height b = rx_height b -> 1 <= tx_height b < 2 ^ 64 ->
  top chain + 1 < 2 ^ 63 -> validateProtocolVersion b = Ok tt ->
  let s' := (commitBlock s b notify).1 in
  let result := (commitBlock s b notify).2 in
  if decide (tx_height b = top chain + 1) then holds (persistence s') (chain ++ [b]) /\ result = Ok notify
  else
    holds (persistence s') chain /\
    if decide (top chain < tx_height b) then result = Err ErrFutureBlock
    else exists stored, chain !! Z.to_nat (tx_height b - 1) = Some stored /\
      ((result = Ok false /\ txb_Header (bpc_TransactionsBlock b) = txb_Header (bpc_TransactionsBlock stored) /\
          rxb_Header (bpc_ResultsBlock b) = rxb_Header (bpc_ResultsBlock stored)) \/
       ((exists e, result = Err e) /\
          (txb_Header (bpc_TransactionsBlock b) <> txb_Header (bpc_TransactionsBlock stored) \/
           rxb_Header (bpc_ResultsBlock b) <> rxb_Header (bpc_ResultsBlock stored)))).
Proof. apply commitBlock_cases. Qed.

Lemma ValidateBlockForCommit_iff s chain ctxErr b :
  holds (persistence s) chain ->
  ValidateBlockForCommit s ctxErr b = Ok tt <->
  (txh_ProtocolVersion (txb_Header (bpc_TransactionsBlock b)) = ProtocolVersion /\
   rxh_ProtocolVersion (rxb_Header (bpc_ResultsBlock b)) = ProtocolVersion) /\
  pair_at (length chain) b /\
  (ctxErr = true \/
   exists h, In h (handlers s) /\
     h HANDLE_BLOCK_CONSENSUS_MODE_VERIFY_AND_UPDATE (Some b) (last chain) = true).
Proof.
  intros Hs. unfold ValidateBlockForCommit. destruct (validateProtocolVersion b) as [[]|e|] eqn:Hv.
  2,3: rewrite <- validateProtocolVersion_Ok, Hv; cbn [bindO]; split; [done|by intros []].
  rewrite <- validateProtocolVersion_Ok, Hv, (last_block _ _ Hs). cbn [of_persistence bindO].
  assert (getBlockHeight (last chain) = top chain) as Hh.
  { destruct (last_committed s chain Hs) as [ts Hc]. unfold GetLastCommittedBlockHeight in Hc.
    rewrite (last_block _ _ Hs) in Hc. by injection Hc. }
  pose proof (holds_ok _ _ Hs) as [Hlen _]. unfold validateConsecutiveBlockHeight, pair_at, top in *.
  rewrite Hh, u64_add_small by lia.
  destruct (Z.eqb_spec (tx_height b) (rx_height b)); cbn [negb bindO]; [|split; [done|lia]].
  destruct (Z.eqb_spec (tx_height b) (Z.of_nat (length chain) + 1)); cbn [negb bindO]; [|split; [done|lia]].
  rewrite notify_verify. split; [intros Hn; split_and!; [done|lia|lia|done]|by intros (_ & _ & ?)].
Qed.

Lemma ValidateBlockForCommit_accepts s chain ctxErr b :
  holds (persistence s) chain -> ValidateBlockForCommit s ctxErr b = Ok tt ->
  validateProtocolVersion b = Ok tt /\ pair_at (length chain) b /\
  (ctxErr = true \/
   exists h, In h (handlers s) /\ h HANDLE_BLOCK_CONSENSUS_MODE_VERIFY_AND_UPDATE (Some b) (last chain) = true).
Proof. intros Hs Hv. apply (ValidateBlockForCommit_iff s chain) in Hv; [|done]. by rewrite validateProtocolVersion_Ok. Qed.

Lemma ValidateBlockForCommit_no_panic s chain ctxErr b :
  holds (persistence s) chain -> ValidateBlockForCommit s ctxErr b <> Panic.
Proof.
  intros Hs. unfold ValidateBlockForCommit.
  destruct (validateProtocolVersion_cases b) as [->|[e ->]]; [|done]. cbn [bindO].
  rewrite (last_block _ _ Hs). cbn [of_persistence bindO].
  unfold validateConsecutiveBlockHeight, notifyConsensusAlgos. by repeat (case_match; simpl).
Qed.

(** A block is valid for commit exactly when its versions are supported, its two
    heights are the next one, and a consensus algorithm accepts it after the last
    block, or the context is done. *)
Theorem ValidateBlockForCommit_spec s chain ctxErr b :
  holds (persistence s) chain ->
  ValidateBlockForCommit s ctxErr b = Ok tt <->
  (txh_ProtocolVersion (txb_Header (bpc_TransactionsBlock b)) = ProtocolVersion /\
   rxh_ProtocolVersion (rxb_Header (bpc_ResultsBlock b)) = ProtocolVersion) /\
  pair_at (length chain) b /\
  (ctxErr = true \/
   exists h, In h (handlers s) /\
     h HANDLE_BLOCK_CONSENSUS_MODE_VERIFY_AND_UPDATE (Some b) (last chain) = true).
Proof. apply ValidateBlockForCommit_iff. Qed.

(** A server asked for blocks below its top answers with a prefix of one full batch
    from the first height asked for, as large as the network takes by halving,
    whatever last height was asked for. *)
Theorem sourceHandleBlockSyncRequest_spec s chain gossip sender first last committed :
  let batch := BlockSyncNumBlocksInBatch (config s) in
  holds (persistence s) chain -> 1 <= batch < 2 ^ 32 -> 1 <= first < top chain ->
  let result := HandleBlockSyncRequest s gossip sender (mkRange first last committed) in
  result = Err ErrSend \/
  exists response k, (k <= Z.to_nat batch)%nat /\ result = Ok response /\ gossip response = Sent /\
    response = mkSyncResponse sender (NodeAddress (config s)) (mkRange first (first + Z.of_nat k - 1) (top chain))
                 (take k (drop (Z.to_nat (first - 1)) chain)).
Proof.
  intros batch Hs Hb Hf result. unfold result, HandleBlockSyncRequest.
  destruct (sync_request_slice s chain gossip sender first last committed) as [_ ->]; [done|done|lia|lia|].
  pose proof (holds_ok _ _ Hs) as [Hlen _]. unfold top in *. fold batch.
  set (blocks := take _ _). assert (length blocks <= Z.to_nat batch)%nat by (unfold blocks; rewrite length_take; lia).
  destruct (send_chunks_spec (S (length blocks)) gossip sender (NodeAddress (config s)) first
              (Z.of_nat (length chain)) blocks (length blocks)) as [->|(k & Hk & -> & Hsent)]; [lia..|by left|].
  right. eexists _, k. split; [lia|]. split; [done|]. split; [done|].
  unfold blocks. by rewrite take_take, Nat.min_l by lia.
Qed.

(** A request that starts at the top is answered with the last height it names: one
    that names a height far above makes the server panic. *)
Theorem sync_request_panics s chain gossip sender last committed :
  let batch := BlockSyncNumBlocksInBatch (config s) in
  holds (persistence s) chain -> 1 <= batch < 2 ^ 32 -> 1 <= top chain ->
  top chain + 2 ^ 45 <= last < 2 ^ 64 ->
  HandleBlockSyncRequest s gossip sender (mkRange (top chain) last committed) = Panic.
Proof.
  intros batch Hs Hb Ht Hlast. pose proof (holds_ok _ _ Hs) as [Hlen _].
  unfold HandleBlockSyncRequest, sourceHandleBlockSyncRequest.
  destruct (last_committed s chain Hs) as [ts ->]. cbn [bindO fst FirstBlockHeight LastBlockHeight].
  unfold top in *. rewrite Z.ltb_irrefl. fold batch. unfold u32_sub. rewrite wrap_small by lia.
  words. lia_if.
  unfold GetBlockSlice, make_ok. words.
  by lia_if.
Qed.

(** A receipt proof made for a transaction of a stored block is accepted against the
    receipts root in the header it comes with. *)
Theorem GenerateReceiptProof_verifies s chain height b txHash :
  holds (persistence s) chain -> 1 <= height -> chain !! Z.to_nat (height - 1) = Some b ->
  ValidateReceiptsMerkleRoot (bpc_ResultsBlock b) = Ok tt ->
  Forall (fun r => CalcReceiptHash r <> zeroValueHash) (rxb_TransactionReceipts (bpc_ResultsBlock b)) ->
  Exists (fun r => tr_Txhash r = txHash) (rxb_TransactionReceipts (bpc_ResultsBlock b)) ->
  exists receipt proof,
    tr_Txhash receipt = txHash /\ In receipt (rxb_TransactionReceipts (bpc_ResultsBlock b)) /\
    GenerateReceiptProof s height txHash
    = Ok (rxb_Header (bpc_ResultsBlock b), rxb_BlockProof (bpc_ResultsBlock b), FlattenOrderedTreeProof proof) /\
    Verify (CalcReceiptHash receipt) proof (rxh_ReceiptsMerkleRootHash (rxb_Header (bpc_ResultsBlock b))) = Ok tt.
Proof.
  intros Hs Hh Hb Hroot Hz (r & Hin & Hr)%list.Exists_exists. unfold GenerateReceiptProof.
  rewrite (results_block _ _ _ _ Hs Hh Hb). cbn [of_persistence bindO].
  set (rs := rxb_TransactionReceipts (bpc_ResultsBlock b)) in *.
  destruct (list_find_elem_of (fun r => tr_Txhash r = txHash) rs r Hin Hr) as [[i r'] Hfind]. rewrite Hfind.
  apply list_find_Some in Hfind as (Hi & Hr' & _).
  unfold ValidateReceiptsMerkleRoot in Hroot. case_bool_decide as Hroot'; [|done].
  pose proof (GetProof_Verify (CalcReceiptHashes rs) (Z.of_nat i)) as Hp.
  rewrite decide_True in Hp by (pose proof (lookup_lt_Some _ _ _ Hi); unfold CalcReceiptHashes; rewrite length_map; lia).
  destruct Hp as (proof & Hget & Hver); [by apply Forall_map|].
  exists r', proof. split_and!; [done|by eapply list_elem_of_In, list_elem_of_lookup_2| |].
  - unfold generateProof. by rewrite Hget.
  - rewrite Hroot'. unfold CalcReceiptsMerkleRoot. fold rs. rewrite Nat2Z.id in Hver.
    replace (CalcReceiptHash r') with (nth i (CalcReceiptHashes rs) []); [done|].
    apply nth_lookup_Some. unfold CalcReceiptHashes. by rewrite list_lookup_fmap, Hi.
Qed.
End Laws.

(** ** Witnesses *)

Definition block_at (height time : Z) : BlockPairContainer :=
  mkBlockPair
    (mkTxBlock (mkTxHeader 1 42 height [] time [] [] 0 []) [] [] (mkBlockProof ProofNone []))
    (mkRxBlock (mkRxHeader 1 42 height [] time [] [] [] [] 0 0 []) [] [] (mkBlockProof ProofNone [])).

Definition chain3 : list BlockPairContainer := [block_at 1 10; block_at 2 20; block_at 3 30].

Lemma chain3_ok : chain_ok chain3.
Proof.
  split; [simpl; lia|]. intros [|[|[|i]]] b Hb; simpl in Hb; try discriminate; by simplify_eq.
Qed.

Definition storage_config : BlockStorageConfig := mkStorageConfig [9] 2 5 100.
Definition storage3 : Service InMemoryBlockPersistence := mkService (NewMemoryPersistence chain3) storage_config [].

Lemma storage3_holds : memory_holds (persistence storage3) chain3.
Proof. apply new_memory_holds, chain3_ok. Qed.

Lemma commitBlock_spec_witness :
  memory_holds (persistence (commitBlock storage3 (block_at 4 40) true).1) (chain3 ++ [block_at 4 40]) /\
  (commitBlock storage3 (block_at 4 40) true).2 = Ok true.
Proof.
  exact (commitBlock_spec storage3 chain3 (block_at 4 40) true storage3_holds I eq_refl
           ltac:(eval_Z) ltac:(eval_Z) eq_refl).
Defined.

Lemma ValidateBlockForCommit_spec_witness :
  ValidateBlockForCommit storage3 true (block_at 4 40) = Ok tt.
Proof.
  apply (ValidateBlockForCommit_spec storage3 chain3 true (block_at 4 40) storage3_holds).
  split_and!; try done. by left.
Defined.

Lemma sourceHandleBlockSyncRequest_spec_witness :
  let result := HandleBlockSyncRequest storage3 (fun r => if (length (sr_BlockPairs r) <? 2)%nat then Sent else ChunkTooBig)
                  [8] (mkRange 1 1 0) in
  result = Err ErrSend \/
  exists response k, (k <= 2)%nat /\ result = Ok response /\
    (if (length (sr_BlockPairs response) <? 2)%nat then Sent else ChunkTooBig) = Sent /\
    response = mkSyncResponse [8] [9] (mkRange 1 (1 + Z.of_nat k - 1) 3) (take k (drop 0 chain3)).
Proof.
  exact (sourceHandleBlockSyncRequest_spec storage3 chain3
           (fun r => if (length (sr_BlockPairs r) <? 2)%nat then Sent else ChunkTooBig) [8] 1 1 0 storage3_holds
           ltac:(eval_Z) ltac:(eval_Z)).
Defined.

Lemma sync_request_panics_witness :
  HandleBlockSyncRequest storage3 (fun _ => Sent) [8] (mkRange 3 (2 ^ 50) 0) = Panic.
Proof.
  apply (sync_request_panics storage3 chain3 (fun _ => Sent) [8] (2 ^ 50) 0 storage3_holds);
    eval_Z.
Defined.

Section ReceiptWitness.
#[local] Existing Instance crypto_sha256.
#[local] Existing Instance crypto_sha256_laws.
#[local] Existing Instance plain_membuffers.

Definition receipt7 : TransactionReceipt := mkReceipt [7] 1 [] [].
Definition receipt_block : BlockPairContainer :=
  mkBlockPair
    (mkTxBlock (mkTxHeader 1 42 1 [] 10 [] [] 0 []) [] [] (mkBlockProof ProofNone []))
    (mkRxBlock (mkRxHeader 1 42 1 [] 10 (CalcReceiptsMerkleRoot [receipt7]) [] [] [] 1 0 []) [receipt7] []
       (mkBlockProof ProofNone [])).
Definition storage7 : Service InMemoryBlockPersistence :=
  mkService (NewMemoryPersistence [receipt_block]) storage_config [].

Lemma receipt7_nonzero : CalcReceiptHash receipt7 <> zeroValueHash.
Proof. vm_compute. congruence. Qed.

Lemma receipt_chain_ok : chain_ok [receipt_block].
Proof. split; [simpl; lia|]. intros [|i] b Hb; [by injection Hb as <-|done]. Qed.

Lemma GenerateReceiptProof_verifies_witness :
  exists receipt proof,
    tr_Txhash receipt = [7] /\ In receipt [receipt7] /\
    GenerateReceiptProof storage7 1 [7]
    = Ok (rxb_Header (bpc_ResultsBlock receipt_block), mkBlockProof ProofNone [], FlattenOrderedTreeProof proof) /\
    Verify (CalcReceiptHash receipt) proof (rxh_ReceiptsMerkleRootHash (rxb_Header (bpc_ResultsBlock receipt_block))) = Ok tt.
Proof.
  apply (GenerateReceiptProof_verifies storage7 [receipt_block] 1 receipt_block [7]
           (new_memory_holds _ receipt_chain_ok)).
  - lia.
  - reflexivity.
  - unfold ValidateReceiptsMerkleRoot. rewrite bool_decide_eq_true_2; reflexivity.
  - constructor; [exact receipt7_nonzero|constructor].
  - constructor. reflexivity.
Defined.
End ReceiptWitness.
End BlockStorage.
