(* ===== verification/ServiceSync.v ===== *)
(** * Feeding services with stored blocks (services/blockstorage/servicesync)

    A committed block reaches the state storage and the transaction pool through a
    loop that waits for a new top block and commits every block the service still
    lacks.  The loop is proved against the contract of a committer; the state
    storage and the transaction pool discharge it. *)

From stdpp Require Import base gmap list.
From Stdlib Require Import ZArith Lia ZifyBool.
From S2P Require Import Prelude Hash Protocol Digest MerkleAlgo MerkleForest BlockTracker.
From S2P Require Import StateStorage StateStorageService TransactionPool TransactionPoolService.
From S2P Require Import BlockPersistence BlockStorage.

(** The service after the block, and the height it asks for next. *)
Class BlockPairCommitter (C : Type) :=
  commitBlockPair : C -> BlockPairContainer -> outcome unit (C * Z).

Section Sync.
Context {P : Type} `{BlockPersistence P} {C : Type} `{BlockPairCommitter C}.

(** An error of the service is a panic of the sync; a service that asks for the same
    height again is only logged. *)
Definition syncOneBlock (block : BlockPairContainer) (committer : C) : outcome persistence_error (C * Z) :=
  match commitBlockPair committer block with
  | Ok out => Ok out
  | Err _ | Panic => Panic
  end.

(** The variables the cursor captures: the committer, [requestedHeight] and
    [committedHeight]. *)
Definition sync_cursor : CursorFunc (C * Z * Z) :=
  fun h page st =>
    let '(committer, _, _) := st in
    match page with
    | [] => Panic
    | block :: _ =>
        let! out := syncOneBlock block committer in
        let '(committer', requestedHeight) := out in
        Ok ((committer', requestedHeight, h), requestedHeight =? u64_add h 1)
    end.

(** The committed height, and the committer after it. *)
Definition syncToTopBlock (source : P) (committer : C) : outcome persistence_error (C * Z) :=
  let! topBlock := GetLastBlock source in
  match topBlock with
  | None => Panic
  | Some topBlock =>
      let! out := syncOneBlock topBlock committer in
      let '(committer, requestedHeight) := out in
      if tx_height topBlock <? requestedHeight then Ok (committer, u64_sub requestedHeight 1)
      else
        let! st := ScanBlocks source requestedHeight 1 sync_cursor
                     (committer, requestedHeight, u64_sub requestedHeight 1) in
        let '(committer, _, committedHeight) := st in
        Ok (committer, committedHeight)
  end.

(** [NewServiceBlockSync]: the loop, over the states the source is in when a wait for
    the next height ends; [None] for a wait that failed, which ends it. *)
Fixpoint service_block_sync (sources : list (option P)) (committer : C) (height : Z)
    : outcome persistence_error (C * Z) :=
  match sources with
  | [] | None :: _ => Ok (committer, height)
  | Some source :: sources' =>
      let! out := syncToTopBlock source committer in
      let '(committer', height') := out in
      service_block_sync sources' committer' height'
  end.
End Sync.

(** ** The contract of a committer *)

Class BlockPairCommitterLaws (C : Type) `{BlockPairCommitter C} (synced : C -> list BlockPairContainer -> Prop)
    : Prop := {
  commit_next c chain b :
    synced c chain -> rx_height b = top chain + 1 -> top chain + 1 < 2 ^ 63 ->
    exists c', commitBlockPair c b = Ok (c', top chain + 2) /\ synced c' (chain ++ [b]);
  commit_other c chain b :
    synced c chain -> top chain < 2 ^ 63 -> rx_height b <> top chain + 1 ->
    commitBlockPair c b = Ok (c, top chain + 1)
}.

Section Laws.
Context {P : Type} `{BlockPersistence P} {holds : P -> list BlockPairContainer -> Prop}
  {storable : BlockPairContainer -> Prop} `{!BlockPersistenceLaws P holds storable}.
Context {C : Type} `{BlockPairCommitter C} {synced : C -> list BlockPairContainer -> Prop}
  `{!BlockPairCommitterLaws C synced}.

(** Scanning the blocks a committer lacks commits them all. *)
Lemma sync_scan chain k c r m :
  chain_ok chain -> (k <= length chain)%nat -> synced c (take k chain) -> m = Z.of_nat k ->
  exists c' r', scan_each sync_cursor (Z.of_nat k + 1) (drop k chain) (c, r, m) = Ok (c', r', top chain) /\
    synced c' chain.
Proof.
  intros [Hlen Hat]. remember (length chain - k)%nat as n eqn:Hn. revert k c r m Hn.
  induction n as [|n IH]; intros k c r m Hn Hk Hc ->.
  - rewrite drop_ge, take_ge in * by lia. exists c, r. split; [|done]. cbn [scan_each]. unfold top.
    by replace (Z.of_nat k) with (Z.of_nat (length chain)) by lia.
  - destruct (lookup_lt_is_Some_2 chain k) as [b Hb]; [lia|]. destruct (Hat _ _ Hb) as [_ Hrx].
    assert (top (take k chain) = Z.of_nat k) as Htop by (unfold top; rewrite length_take; lia).
    destruct (commit_next c (take k chain) b Hc) as (c' & Hcommit & Hc'); [lia..|].
    rewrite (drop_S _ _ _ Hb). cbn [scan_each sync_cursor]. unfold syncOneBlock. rewrite Hcommit. cbn [bindO].
    rewrite Htop, u64_add_small by lia. lia_if.
    rewrite <- (take_S_r _ _ _ Hb) in Hc'.
    destruct (IH (S k) c' (Z.of_nat k + 2) (Z.of_nat k + 1)) as (c2 & r2 & Hscan & Hc2); [lia..|done|lia|].
    exists c2, r2. split; [|done]. by replace (Z.of_nat k + 1 + 1) with (Z.of_nat (S k) + 1) by lia.
Qed.

(** One round from a committer that has committed the first [k] blocks. *)
Lemma syncToTopBlock_synced source chain k c :
  holds source chain -> chain <> [] -> top chain + 1 < 2 ^ 63 -> (k <= length chain)%nat -> synced c (take k chain) ->
  exists c', syncToTopBlock source c = Ok (c', top chain) /\ synced c' chain.
Proof.
  intros Hs Hne Hsmall Hk Hc. pose proof (holds_ok _ _ Hs) as Hok. unfold syncToTopBlock.
  assert (length chain <> 0%nat) by by destruct chain.
  rewrite (last_block _ _ Hs), last_lookup. cbn [bindO].
  destruct (lookup_lt_is_Some_2 chain (pred (length chain))) as [b Hb]; [lia|].
  rewrite Hb. destruct (proj2 Hok _ _ Hb) as [Htx Hrx].
  assert (top (take k chain) = Z.of_nat k) as Htop by (unfold top; rewrite length_take; lia).
  unfold syncOneBlock, top in *. destruct (decide (rx_height b = Z.of_nat k + 1)) as [Hnext|Hother].
  - destruct (commit_next c (take k chain) b Hc) as (c' & -> & Hc'); [unfold top; lia..|]. cbn [bindO].
    unfold top. rewrite Htop. lia_if. words.
    exists c'. split; [do 2 f_equal; lia|].
    replace chain with (take k chain ++ [b]); [done|].
    replace k with (pred (length chain)) by lia. rewrite <- (take_S_r _ _ _ Hb). apply take_ge. lia.
  - rewrite (commit_other c (take k chain) b Hc) by (unfold top; lia). cbn [bindO]. unfold top. rewrite Htop.
    destruct (Z.ltb_spec (tx_height b) (Z.of_nat k + 1)) as [Hlt|Hge].
    + exists c. words. split; [do 2 f_equal; lia|]. by rewrite take_ge in Hc by lia.
    + rewrite (scan_from _ _ _ _ _ Hs) by (unfold top; lia). words.
      replace (Z.to_nat (Z.of_nat k + 1 - 1)) with k by lia.
      destruct (sync_scan chain k c (Z.of_nat k + 1) (Z.of_nat k + 1 - 1) Hok) as (c' & r' & -> & Hc'); [done..|lia|].
      cbn [bindO]. by exists c'.
Qed.
End Laws.

(** ** The state storage as a committer (committers.go) *)

Section StateStorageCommitter.
Context {SHA : Sha256} {GMO : GoMapOrder} {P M : Type}.
Context `{!StatePersistence P, !StatePersistenceLaws P, !MerkleRevisions M, !MerkleRevisionsLaws M}.

#[export] Instance stateStorageCommitter : BlockPairCommitter (service P M NopHeightReporter) :=
  fun s committedBlockPair =>
    match CommitStateDiff s (mkCommitInput (Some (rxb_Header (bpc_ResultsBlock committedBlockPair)))
                               (Some (rxb_ContractStateDiffs (bpc_ResultsBlock committedBlockPair)))) with
    | Ok out => Ok out
    | Err _ | Panic => Panic
    end.

(** The history a chain of blocks leaves in the state storage. *)
Definition chain_history (chain : list BlockPairContainer) : list commit :=
  map (fun b => commit_of (rxb_Header (bpc_ResultsBlock b)) (rxb_ContractStateDiffs (bpc_ResultsBlock b))) chain.

#[export] Instance stateStorageCommitter_laws base base_trie :
  BlockPairCommitterLaws (service P M NopHeightReporter)
    (fun s chain => service_ok base base_trie s (chain_history chain)).
Proof.
  assert (forall chain, Z.of_nat (length (chain_history chain)) = top chain) as Hlen.
  { intros chain. unfold chain_history, top. by rewrite length_map. }
  split.
  - intros s chain b Hs Hb Hsmall. unfold commitBlockPair, stateStorageCommitter. unfold rx_height in Hb.
    destruct (CommitStateDiff_next base base_trie s (chain_history chain) (rxb_Header (bpc_ResultsBlock b))
                (rxb_ContractStateDiffs (bpc_ResultsBlock b)) mkNopHeightReporter Hs) as (s' & HC & Hs' & _);
      [rewrite Hlen; lia|rewrite Hlen; lia|by destruct (heightReporter s)|].
    unfold block_input in HC. rewrite HC. exists s'. split; [|by unfold chain_history; rewrite map_app].
    rewrite Hb, u64_add_small by (unfold top in *; lia). do 2 f_equal. lia.
  - intros s chain b Hs Hsmall Hb. unfold commitBlockPair, stateStorageCommitter, CommitStateDiff. simpl.
    unfold rx_height in Hb. rewrite (service_ok_height _ _ s _ Hs), Hlen, u64_add_small by (unfold top in *; lia).
    by rewrite bool_decide_eq_true_2 by congruence.
Qed.
End StateStorageCommitter.

(** ** The transaction pool as a committer *)

Section TransactionPoolCommitter.
Context `{Sha256, Membuffers}.

#[export] Instance transactionPoolCommitter : BlockPairCommitter (Service NopHeightReporter) :=
  fun s committedBlockPair =>
    match CommitTransactionReceipts s
            (mkCommitReceiptsInput (rx_height committedBlockPair) (rxb_Header (bpc_ResultsBlock committedBlockPair))
               (rxb_TransactionReceipts (bpc_ResultsBlock committedBlockPair))) with
    | Ok (s', (nextDesired, _)) => Ok (s', nextDesired)
    | Err _ | Panic => Panic
    end.

(** A pool that has committed the blocks of a chain is at its height, and has the
    transactions of a block it commits in its committed pool. *)
Definition pool_synced (s : Service NopHeightReporter) (chain : list BlockPairContainer) : Prop :=
  tp_blockHeight s = top chain /\ currentHeight (tp_blockTracker s) = top chain /\
  forall b r, b ∈ chain -> r ∈ rxb_TransactionReceipts (bpc_ResultsBlock b) ->
    committed_has (committedPool s) (tr_Txhash r) = true.
End TransactionPoolCommitter.

Section PoolLaws.
Context `{Sha256, Membuffers}.

#[export] Instance transactionPoolCommitter_laws :
  BlockPairCommitterLaws (Service NopHeightReporter) pool_synced.
Proof.
  split.
  - intros s chain b (Hh & Ht & Hc) Hb Hsmall. unfold commitBlockPair, transactionPoolCommitter.
    set (input := mkCommitReceiptsInput _ _ _). unfold rx_height in *. unfold top in *.
    assert (exists s', CommitTransactionReceipts s input = Ok (s', (top chain + 2, top chain + 1)) /\
      currentHeight (tp_blockTracker s') = top chain + 1) as (s' & HC & Ht').
    { unfold CommitTransactionReceipts, input. cbn [cr_LastCommittedBlockHeight cr_ResultsBlockHeader cr_TransactionReceipts].
      unfold rx_height, top in *. rewrite Hh, Hb, u64_add_small by lia.
      rewrite bool_decide_eq_false_2 by (intros Hne; by apply Hne).
      rewrite IncrementTo_next by (rewrite Ht, u64_add_small by lia; done). cbn.
      words. replace (Z.of_nat (length chain) + 1 + 1) with (Z.of_nat (length chain) + 2) by lia.
      by eexists. }
    exists s'. rewrite HC. split; [done|].
    destruct (CommitTransactionReceipts_committed s input s' (top chain + 2, top chain + 1)) as (_ & _ & Hh' & Hlook);
      [unfold input, rx_height; cbn; rewrite Hh, Hb, u64_add_small by lia; done|done|].
    cbn in Hh', Hlook. unfold top in *.
    unfold pool_synced, top. rewrite length_app. simpl. split_and!; [lia|lia|].
    intros b' r [Hin| ->%list_elem_of_singleton]%elem_of_app Hr; unfold committed_has; rewrite Hlook.
    + specialize (Hc _ _ Hin Hr). unfold committed_has in Hc. by destruct (List.find _ _).
    + destruct (List.find _ _) eqn:E; [done|]. apply list_elem_of_In, in_rev in Hr.
      apply (List.find_none _ _ E) in Hr. by apply bool_decide_eq_false in Hr.
  - intros s chain b (Hh & _) Hsmall Hb. unfold commitBlockPair, transactionPoolCommitter, CommitTransactionReceipts.
    simpl. unfold top in *. rewrite Hh, u64_add_small by lia. by rewrite bool_decide_eq_true_2 by done.
Qed.
End PoolLaws.

(** ** Properties *)

(** Sources whose chains grow from the first to the last. *)
Inductive growing {P} (holds : P -> list BlockPairContainer -> Prop)
    : list BlockPairContainer -> list (option P) -> list BlockPairContainer -> Prop :=
| growing_end chain : growing holds chain [] chain
| growing_stop chain sources : growing holds chain (None :: sources) chain
| growing_next chain more source sources final :
    holds source (chain ++ more) -> chain ++ more <> [] -> top (chain ++ more) + 1 < 2 ^ 63 ->
    growing holds (chain ++ more) sources final ->
    growing holds chain (Some source :: sources) final.

Section Properties.
Context {P : Type} `{BlockPersistence P} {holds : P -> list BlockPairContainer -> Prop}
  {storable : BlockPairContainer -> Prop} `{!BlockPersistenceLaws P holds storable}.

(** A service fed by the sync loop has, whenever the loop waits, committed exactly
    the blocks of the chain in order, however many blocks were added between two
    rounds, and the height waited for is the one after the top. *)
Theorem service_block_sync_follows {C : Type} `{BlockPairCommitter C}
    {synced : C -> list BlockPairContainer -> Prop} `{!BlockPairCommitterLaws C synced}
    (chain final : list BlockPairContainer) (sources : list (option P)) (c : C) :
  synced c chain -> growing holds chain sources final ->
  exists c', service_block_sync sources c (top chain) = Ok (c', top final) /\ synced c' final.
Proof.
  intros Hc Hg. revert c Hc. induction Hg as [chain|chain sources|chain more source sources final Hs Hne Hsm Hg IH];
    intros c Hc; cbn [service_block_sync]; [by eauto..|].
  destruct (syncToTopBlock_synced source (chain ++ more) (length chain) c Hs Hne Hsm) as (c' & -> & Hc').
  - rewrite length_app. lia.
  - by rewrite take_app_length.
  - cbn [bindO]. apply IH, Hc'.
Qed.

(** One round brings the state storage of a node, wherever in the chain it is, to
    the whole chain: it then represents the state diffs of all stored blocks. *)
Theorem state_storage_follows_chain {SHA : Sha256} {GMO : GoMapOrder} {SP M : Type}
    `{!StatePersistence SP, !StatePersistenceLaws SP, !MerkleRevisions M, !MerkleRevisionsLaws M}
    base base_trie source chain k (s : service SP M NopHeightReporter) :
  holds source chain -> chain <> [] -> top chain + 1 < 2 ^ 63 -> (k <= length chain)%nat ->
  service_ok base base_trie s (chain_history (take k chain)) ->
  exists s', syncToTopBlock source s = Ok (s', top chain) /\ service_ok base base_trie s' (chain_history chain).
Proof. intros. by eapply (syncToTopBlock_synced (synced := fun s chain => service_ok base base_trie s (chain_history chain))). Qed.

(** One round brings a transaction pool to the whole chain: every transaction of a
    stored block is then in its committed pool. *)
Theorem transaction_pool_follows_chain `{Sha256, Membuffers} source chain k (s : Service NopHeightReporter) :
  holds source chain -> chain <> [] -> top chain + 1 < 2 ^ 63 -> (k <= length chain)%nat ->
  pool_synced s (take k chain) ->
  exists s', syncToTopBlock source s = Ok (s', top chain) /\ pool_synced s' chain.
Proof. intros. by eapply syncToTopBlock_synced. Qed.
End Properties.

(** ** Witnesses *)

Section Witness.
#[local] Existing Instance plain_membuffers.
#[local] Instance plain_hash2 : Sha256 := fun data => data.

Definition source3 : InMemoryBlockPersistence := NewMemoryPersistence BlockStorage.chain3.
Definition pool0 : Service NopHeightReporter := NewTransactionPool config1 3 mkNopHeightReporter.

Lemma source3_holds : memory_holds source3 BlockStorage.chain3.
Proof. apply new_memory_holds, BlockStorage.chain3_ok. Qed.

Lemma pool0_synced : pool_synced pool0 [].
Proof. split_and!; [done..|]. intros b r []%not_elem_of_nil. Qed.

Lemma service_block_sync_follows_witness :
  exists c', service_block_sync [Some source3] pool0 0 = Ok (c', 3) /\ pool_synced c' BlockStorage.chain3.
Proof.
  apply (service_block_sync_follows (holds := memory_holds) (synced := pool_synced)
           [] BlockStorage.chain3 [Some source3] pool0 pool0_synced).
  apply (growing_next _ [] BlockStorage.chain3); [exact source3_holds|done|eval_Z|constructor].
Defined.

Lemma transaction_pool_follows_chain_witness :
  exists s', syncToTopBlock source3 pool0 = Ok (s', 3) /\ pool_synced s' BlockStorage.chain3.
Proof.
  apply (transaction_pool_follows_chain source3 BlockStorage.chain3 0 pool0 source3_holds);
    [done|eval_Z|lia|exact pool0_synced].
Defined.
End Witness.

Section StateWitness.
#[local] Existing Instance crypto_sha256.
#[local] Existing Instance ascending_order.

Lemma state_storage_follows_chain_witness :
  exists s s' : memory_service,
    syncToTopBlock source3 s = Ok (s', 3) /\
    service_ok no_state empty_trie s' (chain_history BlockStorage.chain3).
Proof.
  destruct (new_memory_service_ok 5 3 ltac:(lia)) as (s & _ & Hs & _ & _). exists s.
  apply (state_storage_follows_chain no_state empty_trie source3 BlockStorage.chain3 0 s source3_holds);
    [done|eval_Z|lia|exact Hs].
Defined.
End StateWitness.
