(* ===== verification/BlockSync.v ===== *)
(** * Block sync between nodes (services/blockstorage/internodesync)

    The petitioner's state machine: collecting availability responses, choosing a
    source, waiting for a chunk of blocks and committing it.  A state's
    [processState] is a function of what its [select] receives, in order; the
    machine is a step relation interleaved with the commits of the consensus
    algorithm. *)

From stdpp Require Import base list relations.
From Stdlib Require Import ZArith Lia ZifyBool.
From S2P Require Import Prelude Hash Protocol BlockTracker BlockPersistence BlockStorage.
Import BlockStorage.

(** ** Messages and states *)

Inductive conduit_message :=
| idleResetMessage
| AvailabilityResponseMessage (response : BlockAvailabilityResponse)
| SyncResponseMessage (response : BlockSyncResponse).

(** What a [select] of a state receives: the timer, a message, or the end of the
    context. *)
Inductive event := TimerFired | Received (e : conduit_message) | CtxDone.

(** [shutdown] is the [nil] state. *)
Inductive syncState :=
| idleState
| collectingAvailabilityResponsesState
| finishedCARState (responses : list BlockAvailabilityResponse)
| waitingForChunksState (sourceNodeAddress : bytes)
| processingBlocksState (blocks : option BlockSyncResponse)
| shutdown.

Section Machine.
Context {P : Type} `{BlockPersistence P}.
Implicit Types s : Service P.

(** ** The gossip client (block_sync_gossip_client.go)

    The range of the request, which is then sent. *)

Definition petitionerBroadcastBlockAvailabilityRequest s : outcome storage_error BlockSyncRange :=
  let! out := GetLastCommittedBlockHeight s in
  let lastCommittedBlockHeight := out.1 in
  let firstBlockHeight := u64_add lastCommittedBlockHeight 1 in
  let lastBlockHeight := u64_add lastCommittedBlockHeight (BlockSyncNumBlocksInBatch (config s)) in
  if lastBlockHeight <? firstBlockHeight then Err ErrNotFoundInRange
  else Ok (mkRange firstBlockHeight lastBlockHeight lastCommittedBlockHeight).

Definition petitionerSendBlockSyncRequest s : outcome storage_error BlockSyncRange :=
  let! out := GetLastCommittedBlockHeight s in
  let lastCommittedBlockHeight := out.1 in
  let firstBlockHeight := u64_add lastCommittedBlockHeight 1 in
  let lastBlockHeight := u64_add lastCommittedBlockHeight (BlockSyncNumBlocksInBatch (config s)) in
  Ok (mkRange firstBlockHeight lastBlockHeight lastCommittedBlockHeight).

(** ** The states

    [None]: the state still waits after these events. *)

Fixpoint idle_processState (events : list event) : option syncState :=
  match events with
  | [] => None
  | Received idleResetMessage :: _ => Some idleState
  | Received _ :: events' => idle_processState events'
  | TimerFired :: _ => Some collectingAvailabilityResponsesState
  | CtxDone :: _ => Some shutdown
  end.

Fixpoint collecting_loop (responses : list BlockAvailabilityResponse) (events : list event) : option syncState :=
  match events with
  | [] => None
  | TimerFired :: _ => Some (finishedCARState responses)
  | Received (AvailabilityResponseMessage r) :: events' => collecting_loop (responses ++ [r]) events'
  | Received _ :: events' => collecting_loop responses events'
  | CtxDone :: _ => Some shutdown
  end.

(** [sent] is whether the broadcast reached the network. *)
Definition collecting_processState s (sent : bool) (events : list event) : option syncState :=
  match petitionerBroadcastBlockAvailabilityRequest s with
  | Ok _ => if sent then collecting_loop [] events else Some idleState
  | _ => Some idleState
  end.

(** [random] is the result of [rand.Intn], [running] that of
    [drainAndCheckForShutdown]. *)
Definition finished_processState (responses : list BlockAvailabilityResponse) (random : nat) (running : bool)
    : option syncState :=
  if (length responses =? 0)%nat then Some idleState
  else match responses !! random with
       | None => None
       | Some syncSource => if running then Some (waitingForChunksState (ar_Sender syncSource)) else Some shutdown
       end.

Fixpoint waiting_loop (sourceNodeAddress : bytes) (events : list event) : option syncState :=
  match events with
  | [] => None
  | TimerFired :: _ => Some idleState
  | Received (SyncResponseMessage blocks) :: events' =>
      if bool_decide (sr_Sender blocks = sourceNodeAddress) then Some (processingBlocksState (Some blocks))
      else waiting_loop sourceNodeAddress events'
  | Received _ :: events' => waiting_loop sourceNodeAddress events'
  | CtxDone :: _ => Some shutdown
  end.

Definition waiting_processState s (sourceNodeAddress : bytes) (sent : bool) (events : list event)
    : option syncState :=
  match petitionerSendBlockSyncRequest s with
  | Ok _ => if sent then waiting_loop sourceNodeAddress events else Some idleState
  | _ => Some idleState
  end.

(** What happens around each block of a chunk: [be_running] is the result of
    [drainAndCheckForShutdown], [be_ctxErr] says that the context is done when the
    consensus algorithms have answered. *)
Record block_env := mkEnv { be_running : bool; be_ctxErr : bool }.

(** The loop over the blocks: the storage after it, and whether it was left by a
    [return nil]. *)
Fixpoint process_blocks s (blocks : list BlockPairContainer) (env : nat -> block_env)
    : outcome storage_error (Service P * bool) :=
  match blocks with
  | [] => Ok (s, false)
  | blockPair :: blocks' =>
      if negb (be_running (env 0%nat)) then Ok (s, true)
      else match ValidateBlockForCommit s (be_ctxErr (env 0%nat)) blockPair with
           | Err _ => Ok (s, false)
           | Panic => Panic
           | Ok _ =>
               let '(s', committed) := NodeSyncCommitBlock s blockPair in
               match committed with
               | Err _ => Ok (s', false)
               | Panic => Panic
               | Ok _ => process_blocks s' blocks' (fun i => env (S i))
               end
           end
  end.

Definition processing_processState s (blocks : option BlockSyncResponse) (env : nat -> block_env) (running : bool)
    : outcome storage_error (Service P * syncState) :=
  match blocks with
  | None => Ok (s, idleState)
  | Some message =>
      let! out := process_blocks s (sr_BlockPairs message) env in
      let '(s', stopped) := out in
      if stopped : bool then Ok (s', shutdown)
      else if running then Ok (s', collectingAvailabilityResponsesState)
      else Ok (s', shutdown)
  end.

(** ** The machine

    [syncLoop], with the commits the consensus algorithm makes in between.  The
    numbers of blocks are bounded, as heights are 64-bit, and the blocks are ones
    the persistence can store. *)

Definition room s (blocks : Z) : Prop :=
  exists h, GetLastBlockHeight (persistence s) = Ok h /\ h + blocks + 1 < 2 ^ 63.

Definition chunk_blocks (blocks : option BlockSyncResponse) : list BlockPairContainer :=
  match blocks with Some m => sr_BlockPairs m | None => [] end.

Definition chunk_size (blocks : option BlockSyncResponse) : Z :=
  Z.of_nat (length (chunk_blocks blocks)).

Inductive sync_step (storable : BlockPairContainer -> Prop) : Service P * syncState -> Service P * syncState -> Prop :=
| step_idle s st events :
    idle_processState events = Some st -> sync_step storable (s, idleState) (s, st)
| step_collecting s st sent events :
    collecting_processState s sent events = Some st ->
    sync_step storable (s, collectingAvailabilityResponsesState) (s, st)
| step_finished s st responses random running :
    finished_processState responses random running = Some st -> sync_step storable (s, finishedCARState responses) (s, st)
| step_waiting s st source sent events :
    waiting_processState s source sent events = Some st -> sync_step storable (s, waitingForChunksState source) (s, st)
| step_processing s s' st blocks env running :
    room s (chunk_size blocks) -> Forall storable (chunk_blocks blocks) ->
    processing_processState s blocks env running = Ok (s', st) ->
    sync_step storable (s, processingBlocksState blocks) (s', st)
| step_consensus s st b :
    room s 1 -> storable b -> tx_height b = rx_height b -> 1 <= tx_height b < 2 ^ 64 ->
    sync_step storable (s, st) ((CommitBlock s b).1, st).

(** From the initial state of [syncLoop]. *)
Inductive sync_reachable (storable : BlockPairContainer -> Prop) (s0 : Service P) : Service P * syncState -> Prop :=
| reach_start : sync_reachable storable s0 (s0, collectingAvailabilityResponsesState)
| reach_step m m' : sync_reachable storable s0 m -> sync_step storable m m' -> sync_reachable storable s0 m'.
End Machine.

(** ** Lemmas *)

Section Laws.
Context {P : Type} `{BlockPersistence P} {holds : P -> list BlockPairContainer -> Prop}
  {storable : BlockPairContainer -> Prop} `{!BlockPersistenceLaws P holds storable}.
Implicit Types s : Service P.

(** A block that the storage of a chain accepts from another node. *)
Definition accepted (hs : list ConsensusBlocksHandler) (ctxErr : bool) (chain : list BlockPairContainer)
    (b : BlockPairContainer) : Prop :=
  validateProtocolVersion b = Ok tt /\ pair_at (length chain) b /\
  (ctxErr = true \/
   exists h, In h hs /\ h HANDLE_BLOCK_CONSENSUS_MODE_VERIFY_AND_UPDATE (Some b) (last chain) = true).

(** Blocks accepted one after the other. *)
Fixpoint accepted_blocks (hs : list ConsensusBlocksHandler) (env : nat -> block_env)
    (chain blocks : list BlockPairContainer) : Prop :=
  match blocks with
  | [] => True
  | b :: blocks' =>
      accepted hs (be_ctxErr (env 0%nat)) chain b /\
      accepted_blocks hs (fun i => env (S i)) (chain ++ [b]) blocks'
  end.

Lemma commit_accepted s chain b :
  holds (persistence s) chain -> storable b -> pair_at (length chain) b -> top chain + 1 < 2 ^ 63 ->
  validateProtocolVersion b = Ok tt ->
  (NodeSyncCommitBlock s b).2 = Ok false /\
  holds (persistence (NodeSyncCommitBlock s b).1) (chain ++ [b]) /\
  config (NodeSyncCommitBlock s b).1 = config s /\ handlers (NodeSyncCommitBlock s b).1 = handlers s.
Proof.
  intros Hs Hst Hb Hsmall Hv. unfold NodeSyncCommitBlock, commitBlock. rewrite Hv.
  destruct (write_next (persistence s) chain b) as (p' & -> & Hp'); [done..|]. destruct Hb as [Htx _].
  cbn [fst snd persistence with_persistence of_persistence bindO negb config handlers]. unfold top in *.
  words. by lia_if.
Qed.

(** Committing a chunk adds a prefix of it, each of whose blocks was accepted. *)
Lemma process_blocks_extends blocks env s chain :
  holds (persistence s) chain -> Forall storable blocks -> top chain + Z.of_nat (length blocks) + 1 < 2 ^ 63 ->
  exists s' stopped n, process_blocks s blocks env = Ok (s', stopped) /\
    holds (persistence s') (chain ++ take n blocks) /\
    accepted_blocks (handlers s) env chain (take n blocks) /\
    config s' = config s /\ handlers s' = handlers s.
Proof.
  revert env s chain. induction blocks as [|b blocks IH]; intros env s chain Hs Hst Hsmall; cbn [process_blocks].
  { exists s, false, 0%nat. by rewrite app_nil_r. }
  apply Forall_cons in Hst as [Hstb Hst].
  destruct (be_running (env 0%nat)); cbn [negb]; [|by exists s, true, 0%nat; rewrite app_nil_r].
  destruct (ValidateBlockForCommit s (be_ctxErr (env 0%nat)) b) as [[]|e|] eqn:Hv.
  - apply (ValidateBlockForCommit_accepts s chain) in Hv as (Hver & Hat & Hacc); [|done].
    destruct (commit_accepted s chain b Hs Hstb Hat) as (Hr & Hs' & Hc' & Hh'); [simpl in *; unfold top in *; lia|done|].
    destruct (NodeSyncCommitBlock s b) as [s' r]. cbn in Hr, Hs', Hc', Hh'. subst r.
    destruct (IH (fun i => env (S i)) s' (chain ++ [b])) as (s2 & stopped & n & Hp & Hs2 & Ha & Hc2 & Hh2);
      [done|done|unfold top in *; rewrite length_app; simpl in *; lia|].
    exists s2, stopped, (S n). rewrite <- app_assoc in Hs2. cbn [take accepted_blocks app]. rewrite Hh' in Ha.
    split_and!; try done; congruence.
  - by exists s, false, 0%nat; rewrite app_nil_r.
  - by destruct (ValidateBlockForCommit_no_panic s chain (be_ctxErr (env 0%nat)) b Hs).
Qed.

Lemma room_top s chain n : holds (persistence s) chain -> room s n -> top chain + n + 1 < 2 ^ 63.
Proof. intros Hs (h & Hh & Hn). rewrite (last_height _ _ Hs) in Hh. by injection Hh as <-. Qed.

Lemma sync_step_grows m m' chain :
  sync_step storable m m' -> holds (persistence m.1) chain -> exists more, holds (persistence m'.1) (chain ++ more).
Proof.
  intros Hstep Hs. destruct Hstep as [s|s|s|s|s s' st blocks env running Hroom Hst Hp|s st b Hroom Hst Heq Hb]; cbn in *.
  1-4: by exists []; rewrite app_nil_r.
  - apply (room_top s chain) in Hroom; [|done]. destruct blocks as [m|]; cbn in *.
    + destruct (process_blocks_extends (sr_BlockPairs m) env s chain Hs Hst Hroom) as (s1 & stopped & n & Hpb & Hs1 & _).
      rewrite Hpb in Hp. cbn in Hp. exists (take n (sr_BlockPairs m)).
      destruct stopped, running; by simplify_eq.
    + simplify_eq. by exists []; rewrite app_nil_r.
  - apply (room_top s chain) in Hroom; [|done]. apply commitBlock_grows; done || lia.
Qed.

(** ** Properties *)

(** In every interleaving of the sync machine with the commits of the consensus
    algorithm, the stored chain is an extension of the initial one. *)
Theorem sync_extends_chain s0 chain0 s st :
  holds (persistence s0) chain0 -> sync_reachable storable s0 (s, st) ->
  exists more, holds (persistence s) (chain0 ++ more).
Proof.
  intros Hs0 Hr. remember (s, st) as m eqn:Em. assert (s = m.1) as -> by by subst.
  clear Em. induction Hr as [|m m' _ IH Hstep]; [by exists []; rewrite app_nil_r|].
  destruct IH as [more Hm]. destruct (sync_step_grows m m' _ Hstep Hm) as [more' Hm'].
  exists (more ++ more'). by rewrite app_assoc.
Qed.

(** Processing a chunk commits a prefix of it, every block of which has the next
    height and was accepted by a consensus algorithm (or the context was done);
    the machine then asks for availability again, or stops. *)
Theorem processing_commits_accepted s chain message env running :
  holds (persistence s) chain -> Forall storable (sr_BlockPairs message) ->
  top chain + Z.of_nat (length (sr_BlockPairs message)) + 1 < 2 ^ 63 ->
  exists s' st n, processing_processState s (Some message) env running = Ok (s', st) /\
    (st = collectingAvailabilityResponsesState \/ st = shutdown) /\
    holds (persistence s') (chain ++ take n (sr_BlockPairs message)) /\
    accepted_blocks (handlers s) env chain (take n (sr_BlockPairs message)).
Proof.
  intros Hs Hst Hsmall.
  destruct (process_blocks_extends (sr_BlockPairs message) env s chain Hs Hst Hsmall)
    as (s' & stopped & n & Hp & Hs' & Ha & _).
  unfold processing_processState. rewrite Hp. cbn [bindO].
  destruct stopped; [|destruct running]; eexists s', _, n; split_and!; eauto.
Qed.
End Laws.

(** ** Catching up with another node *)

Section CatchUp.
Context {P P' : Type} `{BlockPersistence P, BlockPersistence P'}
  {holds : P -> list BlockPairContainer -> Prop} {holds' : P' -> list BlockPairContainer -> Prop}
  {storable storable' : BlockPairContainer -> Prop}
  `{!BlockPersistenceLaws P holds storable, !BlockPersistenceLaws P' holds' storable'}.
Implicit Types (client : Service P) (server : Service P').

Definition no_trouble : nat -> block_env := fun _ => mkEnv true false.

(** A round of the client with one server, all of whose messages arrive: [None] when
    the server has nothing to offer. *)
Definition sync_round client server : outcome storage_error (option (Service P)) :=
  let! request := petitionerBroadcastBlockAvailabilityRequest client in
  let! offer := HandleBlockAvailabilityRequest server (NodeAddress (config client)) request in
  match offer with
  | None => Ok None
  | Some _ =>
      let! request := petitionerSendBlockSyncRequest client in
      let! chunk := HandleBlockSyncRequest server (fun _ => Sent) (NodeAddress (config client)) request in
      let! out := processing_processState client (Some chunk) no_trouble true in
      Ok (Some out.1)
  end.

Fixpoint sync_rounds (rounds : nat) client server : outcome storage_error (Service P) :=
  match rounds with
  | O => Ok client
  | S rounds' =>
      let! out := sync_round client server in
      match out with
      | None => Ok client
      | Some client' => sync_rounds rounds' client' server
      end
  end.

(** The client can store the blocks of the server's chain, and its consensus
    algorithms accept them. *)
Definition trusts (hs : list ConsensusBlocksHandler) (chain : list BlockPairContainer) : Prop :=
  forall i b, chain !! i = Some b -> storable b /\ accepted hs false (take i chain) b.

Lemma process_trusted blocks client chain k :
  holds (persistence client) (take k chain) -> trusts (handlers client) chain ->
  chain_ok chain -> top chain + 1 < 2 ^ 63 -> (k <= length chain)%nat ->
  blocks = take (length blocks) (drop k chain) ->
  exists client', process_blocks client blocks no_trouble = Ok (client', false) /\
    holds (persistence client') (take (k + length blocks) chain) /\
    config client' = config client /\ handlers client' = handlers client.
Proof.
  intros Hs Ht Hok Hsmall. revert client k Hs Ht.
  induction blocks as [|b blocks IH]; intros client k Hs Ht Hk Hb; cbn [process_blocks length].
  { exists client. by rewrite Nat.add_0_r. }
  destruct (chain !! k) as [b'|] eqn:Hkb.
  2: { apply lookup_ge_None in Hkb. by rewrite drop_ge in Hb by lia. }
  rewrite (drop_S _ _ _ Hkb) in Hb. injection Hb as <- Hb. cbn [negb be_running no_trouble be_ctxErr].
  destruct (Ht _ _ Hkb) as (Hst & Hver & Hat & Hacc).
  assert (length (take k chain) = k) as Hlk by (rewrite length_take; pose proof (lookup_lt_Some _ _ _ Hkb); lia).
  rewrite (proj2 (ValidateBlockForCommit_iff client (take k chain) false b Hs)).
  2: { by rewrite <- validateProtocolVersion_Ok. }
  destruct (commit_accepted client (take k chain) b Hs) as (Hr & Hs' & Hc' & Hh');
    [done|done|unfold top in *; pose proof (lookup_lt_Some _ _ _ Hkb); lia|done|].
  destruct (NodeSyncCommitBlock client b) as [client' r]. cbn in Hr, Hs', Hc', Hh'. subst r.
  rewrite <- (take_S_r _ _ _ Hkb) in Hs'.
  destruct (IH client' (S k)) as (c2 & Hp & Hs2 & Hc2 & Hh2); [done|by rewrite Hh'| |done|].
  { pose proof (lookup_lt_Some _ _ _ Hkb). lia. }
  exists c2. replace (k + S (length blocks))%nat with (S k + length blocks)%nat by lia.
  split_and!; try done; congruence.
Qed.

Lemma request_range client chain :
  holds (persistence client) chain -> 1 <= BlockSyncNumBlocksInBatch (config client) < 2 ^ 32 ->
  let range := mkRange (top chain + 1) (top chain + BlockSyncNumBlocksInBatch (config client)) (top chain) in
  petitionerBroadcastBlockAvailabilityRequest client = Ok range /\ petitionerSendBlockSyncRequest client = Ok range.
Proof.
  intros Hs Hb. pose proof (holds_ok _ _ Hs) as [Hlen _].
  unfold petitionerBroadcastBlockAvailabilityRequest, petitionerSendBlockSyncRequest.
  destruct (last_committed client chain Hs) as [ts ->]. cbn [bindO fst]. unfold top.
  words. split; [|done]. by lia_if.
Qed.

(** The path of the machine in a round. *)
Lemma round_path client client' offer chunk :
  (exists r, petitionerBroadcastBlockAvailabilityRequest client = Ok r) ->
  (exists r, petitionerSendBlockSyncRequest client = Ok r) ->
  sr_Sender chunk = ar_Sender offer -> room client (chunk_size (Some chunk)) -> Forall storable (sr_BlockPairs chunk) ->
  processing_processState client (Some chunk) no_trouble true = Ok (client', collectingAvailabilityResponsesState) ->
  rtc (sync_step storable) (client, collectingAvailabilityResponsesState) (client', collectingAvailabilityResponsesState).
Proof.
  intros [r1 H1'] [r2 H2'] Hsend Hroom Hst Hp.
  eapply rtc_l; [apply (step_collecting _ _ (finishedCARState [offer]) true
    [Received (AvailabilityResponseMessage offer); TimerFired])|].
  { unfold collecting_processState. by rewrite H1'. }
  eapply rtc_l; [by apply (step_finished _ _ (waitingForChunksState (ar_Sender offer)) [offer] 0 true)|].
  eapply rtc_l; [apply (step_waiting _ _ (processingBlocksState (Some chunk)) _ true [Received (SyncResponseMessage chunk)])|].
  { unfold waiting_processState. rewrite H2'. cbn. by rewrite bool_decide_eq_true_2. }
  eapply rtc_once, step_processing; done.
Qed.

Lemma sync_round_spec client server chain k :
  let batch := BlockSyncNumBlocksInBatch (config client) in
  holds' (persistence server) chain -> holds (persistence client) (take k chain) ->
  trusts (handlers client) chain -> BlockSyncNumBlocksInBatch (config server) = batch ->
  1 <= batch < 2 ^ 32 -> top chain + 1 < 2 ^ 63 -> (k <= length chain)%nat ->
  if decide (k = length chain) then sync_round client server = Ok None
  else exists client', sync_round client server = Ok (Some client') /\
    holds (persistence client') (take (k + Z.to_nat batch) chain) /\
    config client' = config client /\ handlers client' = handlers client /\
    rtc (sync_step storable) (client, collectingAvailabilityResponsesState) (client', collectingAvailabilityResponsesState).
Proof.
  intros batch Hsv Hcl Ht Hbs Hb Hsmall Hk. unfold sync_round.
  destruct (request_range client (take k chain) Hcl Hb) as [Hreq1 Hreq2]. rewrite Hreq1, Hreq2. cbn [bindO].
  assert (top (take k chain) = Z.of_nat k) as Htk by (unfold top; rewrite length_take; lia).
  rewrite Htk in *. fold batch.
  unfold HandleBlockAvailabilityRequest, sourceHandleBlockAvailabilityRequest.
  destruct (last_committed server chain Hsv) as [ts ->]. cbn [bindO fst LastCommittedBlockHeight].
  unfold top. case_decide as Hend; [by lia_if|].
  lia_if. cbn [bindO].
  unfold HandleBlockSyncRequest.
  destruct (sync_request_slice server chain (fun _ => Sent) (NodeAddress (config client)) (Z.of_nat k + 1)
              (Z.of_nat k + batch) (Z.of_nat k)) as [Hne ->]; [done|lia|unfold top; lia|intros _; lia|].
  rewrite Hbs in *. replace (Z.to_nat (Z.of_nat k + 1 - 1)) with k in * by lia.
  set (blocks := take (Z.to_nat batch) (drop k chain)) in *. cbn [send_chunks bindO].
  set (chunk := mkSyncResponse _ _ _ _).
  assert (sr_BlockPairs chunk = blocks) as Hch by (cbn; by rewrite take_ge).
  destruct (process_trusted blocks client chain k) as (client' & Hp & Hs' & Hc' & Hh');
    [done|done|by apply (holds_ok _ _ Hsv)|done|done|apply take_length_take|].
  assert (processing_processState client (Some chunk) no_trouble true
          = Ok (client', collectingAvailabilityResponsesState)) as Hps.
  { unfold processing_processState. by rewrite Hch, Hp. }
  rewrite Hps. exists client'. split_and!; [done| |done|done|].
  - replace (take (k + Z.to_nat batch) chain) with (take (k + length blocks) chain); [done|].
    unfold blocks. rewrite length_take, length_drop, (take_min_length (k + Z.to_nat batch)). f_equal. lia.
  - eapply (round_path client client' (mkAvailability (NodeAddress (config client)) (NodeAddress (config server))
      (mkRange 1 (top chain) (top chain))) chunk); [by eauto|by eauto|done| | |done].
    2: { rewrite Hch. apply Forall_lookup. intros i b Hi%lookup_take_Some. destruct Hi as [Hi _].
         rewrite lookup_drop in Hi. by apply Ht in Hi as [? _]. }
    exists (Z.of_nat k). rewrite (last_height _ _ Hcl), Htk. split; [done|]. unfold chunk_size, chunk_blocks.
    rewrite Hch. unfold blocks. rewrite length_take, length_drop. unfold top in *. lia.
Qed.

Lemma sync_rounds_synced server chain batch rounds client k :
  holds' (persistence server) chain -> BlockSyncNumBlocksInBatch (config server) = batch ->
  1 <= batch < 2 ^ 32 -> top chain + 1 < 2 ^ 63 ->
  (length chain - k < rounds)%nat -> (k <= length chain)%nat ->
  holds (persistence client) (take k chain) -> trusts (handlers client) chain ->
  BlockSyncNumBlocksInBatch (config client) = batch ->
  exists client', sync_rounds rounds client server = Ok client' /\ holds (persistence client') chain /\
    rtc (sync_step storable) (client, collectingAvailabilityResponsesState) (client', collectingAvailabilityResponsesState).
Proof.
  intros Hsv Hbs Hb Hsmall. revert client k.
  induction rounds as [|rounds IH]; intros client k Hr Hk Hcl Ht Hcb; [lia|]. cbn [sync_rounds].
  pose proof (sync_round_spec client server chain k) as Hround. cbn zeta in Hround. rewrite Hcb in Hround.
  specialize (Hround Hsv Hcl Ht Hbs Hb Hsmall Hk). case_decide as Hend.
  - rewrite Hround. exists client. rewrite take_ge in Hcl by lia. split_and!; [done..|constructor].
  - destruct Hround as (c1 & -> & Hs1 & Hc1 & Hh1 & Hpath). cbn [bindO]. rewrite take_min_length in Hs1.
    destruct (IH c1 (Nat.min (k + Z.to_nat batch) (length chain))) as (c2 & Hrs & Hs2 & Hpath2);
      [lia|lia|done|by rewrite Hh1|by rewrite Hc1|].
    exists c2. split_and!; [done..|]. by etransitivity.
Qed.

End CatchUp.

(** ** Witnesses *)

Section Witness.
Definition accepts_all : ConsensusBlocksHandler := fun _ _ _ => true.
Definition client1 : Service InMemoryBlockPersistence :=
  mkService (NewMemoryPersistence [block_at 1 10]) storage_config [accepts_all].

Lemma client1_holds : memory_holds (persistence client1) (take 1 chain3).
Proof.
  apply new_memory_holds. split; [simpl; lia|]. intros [|i] b Hb; [by injection Hb as <-|done].
Qed.

Lemma trusts_chain3 : trusts (storable := fun _ => True) (handlers client1) chain3.
Proof.
  intros i b Hb. split; [done|]. split_and!.
  - destruct i as [|[|[|i]]]; simpl in Hb; by simplify_eq.
  - rewrite length_take. pose proof (lookup_lt_Some _ _ _ Hb). rewrite Nat.min_l by lia. by apply chain3_ok.
  - right. exists accepts_all. by split; [left|].
Qed.


Lemma sync_extends_chain_witness :
  exists more, memory_holds (persistence (CommitBlock client1 (block_at 2 20)).1) (take 1 chain3 ++ more).
Proof.
  apply (sync_extends_chain client1 (take 1 chain3) _ collectingAvailabilityResponsesState client1_holds).
  eapply reach_step; [apply reach_start|]. apply (step_consensus _ _ _ (block_at 2 20)); [|done|done|eval_Z].
  exists 1. split; [reflexivity|eval_Z].
Defined.

Lemma processing_commits_accepted_witness :
  exists s' st n,
    processing_processState client1 (Some (mkSyncResponse [9] [8] (mkRange 2 3 3) [block_at 2 20; block_at 3 30]))
      no_trouble true = Ok (s', st) /\
    (st = collectingAvailabilityResponsesState \/ st = shutdown) /\
    memory_holds (persistence s') (take 1 chain3 ++ take n [block_at 2 20; block_at 3 30]) /\
    accepted_blocks [accepts_all] no_trouble (take 1 chain3) (take n [block_at 2 20; block_at 3 30]).
Proof.
  apply (processing_commits_accepted client1 (take 1 chain3)
           (mkSyncResponse [9] [8] (mkRange 2 3 3) [block_at 2 20; block_at 3 30]) no_trouble true client1_holds); [by repeat constructor|eval_Z].
Defined.
End Witness.
