(* ===== verification/BlockCodec.v ===== *)
(** * The format of the blocks file (services/blockstorage/adapter/filesystem/codec.go)

    Blocks are written one after the other as a header with section sizes, four
    sections of length-prefixed messages, each followed by its checksum, and a
    checksum of the whole block. *)

From stdpp Require Import base list strings.
From Stdlib Require Import ZArith Lia ZifyBool.
From S2P Require Import Prelude Protocol Hash MerkleAlgo OrderedTree Digest.

(** ** Checksums (hash/crc32 with the Castagnoli table) *)

(** An entry of the table: eight steps of the reflected polynomial. *)
Fixpoint crc_bits (n : nat) (crc : Z) : Z :=
  match n with
  | O => crc
  | S n' => crc_bits n' (if Z.odd crc then Z.lxor (Z.shiftr crc 1) 0x82f63b78 else Z.shiftr crc 1)
  end.

Definition crc_step (crc b : Z) : Z :=
  wrap 32 (Z.lxor (crc_bits 8 (Z.lxor (wrap 8 crc) (wrap 8 b))) (Z.shiftr crc 8)).

Definition Sum32 (data : bytes) : Z :=
  wrap 32 (Z.lxor (foldl crc_step 0xffffffff data) 0xffffffff).

Example Sum32_check : Sum32 (go_string "123456789") = 0xe3069283.
Proof. reflexivity. Qed.

(** ** Readers

    A reader is what is left to read.  [binary.Read] and [io.ReadFull] fail with
    [EOF] when nothing is left and with [ErrUnexpectedEOF] when too little is. *)

Inductive codec_error :=
| EOF
| ErrUnexpectedEOF
| ErrInvalid
| ErrTooBig
| ErrSizeMismatch
| ErrChecksum.

Definition ReadFull (n : Z) (r : bytes) : outcome codec_error (bytes * bytes) :=
  if n =? 0 then Ok ([], r)
  else match r with
       | [] => Err EOF
       | _ => if Z.of_nat (length r) <? n then Err ErrUnexpectedEOF
              else Ok (take (Z.to_nat n) r, drop (Z.to_nat n) r)
       end.

Definition read_u32 (r : bytes) : outcome codec_error (Z * bytes) :=
  let! out := ReadFull 4 r in Ok (le_word out.1, out.2).

Definition u32_bytes (z : Z) : bytes := le_bytes 4 (wrap 32 z).

(** Reading a message back from its encoding, a library the codec calls. *)
Class MembuffersReaders := {
  TransactionsBlockHeaderReader : bytes -> TransactionsBlockHeader;
  TransactionsBlockProofReader : bytes -> BlockProof;
  ResultsBlockHeaderReader : bytes -> ResultsBlockHeader;
  ResultsBlockProofReader : bytes -> BlockProof;
  TransactionReceiptReader : bytes -> TransactionReceipt;
  ContractStateDiffReader : bytes -> ContractStateDiff;
  SignedTransactionReader : bytes -> SignedTransaction
}.

(** ** Sizes and headers *)

Definition blockHeaderSize : Z := 24.
Definition checksumSize : Z := 4.
Definition chunkLengthSize : Z := 4.
Definition orbsFormatMagic : Z := 0x5342524f.
Definition orbsFormatVersion : Z := 0.
Definition blockMagic : Z := 0x6b4f4c42.
Definition blockVersion : Z := 0.

Record codec := newCodec { maxBlockSize : Z }.

Record blockHeader := mkBlockHeader {
  Magic : Z;
  Version : Z;
  FixedSize : Z;
  ReceiptsSize : Z;
  DiffsSize : Z;
  TxsSize : Z
}.

Definition diskChunkSize (raw : bytes) : Z := u32_add chunkLengthSize (wrap 32 (Z.of_nat (length raw))).

Definition newBlockHeader : blockHeader := mkBlockHeader blockMagic blockVersion 0 0 0 0.

Definition addFixed (bh : blockHeader) (raw : bytes) : blockHeader :=
  mkBlockHeader (Magic bh) (Version bh) (u32_add (FixedSize bh) (diskChunkSize raw))
    (ReceiptsSize bh) (DiffsSize bh) (TxsSize bh).

Definition addReceipt (bh : blockHeader) (raw : bytes) : blockHeader :=
  mkBlockHeader (Magic bh) (Version bh) (FixedSize bh)
    (u32_add (ReceiptsSize bh) (diskChunkSize raw)) (DiffsSize bh) (TxsSize bh).

Definition addDiff (bh : blockHeader) (raw : bytes) : blockHeader :=
  mkBlockHeader (Magic bh) (Version bh) (FixedSize bh) (ReceiptsSize bh)
    (u32_add (DiffsSize bh) (diskChunkSize raw)) (TxsSize bh).

Definition addTx (bh : blockHeader) (raw : bytes) : blockHeader :=
  mkBlockHeader (Magic bh) (Version bh) (FixedSize bh) (ReceiptsSize bh) (DiffsSize bh)
    (u32_add (TxsSize bh) (diskChunkSize raw)).

Definition totalSize (bh : blockHeader) : Z :=
  u32_add (u32_add (u32_add (FixedSize bh) (DiffsSize bh)) (ReceiptsSize bh)) (TxsSize bh).

Definition header_write (bh : blockHeader) : bytes :=
  u32_bytes (Magic bh) ++ u32_bytes (Version bh) ++ u32_bytes (FixedSize bh) ++ u32_bytes (ReceiptsSize bh)
    ++ u32_bytes (DiffsSize bh) ++ u32_bytes (TxsSize bh).

(** [binary.Read] of a struct reads all its bytes at once. *)
Definition word_at (raw : bytes) (i : nat) : Z := le_word (take 4 (drop (4 * i) raw)).

Definition header_read (r : bytes) : outcome codec_error (blockHeader * bytes) :=
  let! out := ReadFull blockHeaderSize r in
  let '(raw, r) := out in
  let bh := mkBlockHeader (word_at raw 0) (word_at raw 1) (word_at raw 2) (word_at raw 3) (word_at raw 4)
              (word_at raw 5) in
  if negb (Magic bh =? blockMagic) then Err ErrInvalid
  else if negb (Version bh =? blockVersion) then Err ErrInvalid
  else Ok (bh, r).

(** ** The header of the file *)

Record blocksFileHeader := mkFileHeader {
  fh_Magic : Z;
  fh_FileVersion : Z;
  fh_NetworkType : Z;
  fh_ChainId : Z
}.

Definition newBlocksFileHeader (networkType vchainId : Z) : blocksFileHeader :=
  mkFileHeader orbsFormatMagic orbsFormatVersion networkType vchainId.

Definition file_header_raw (bfh : blocksFileHeader) : bytes :=
  u32_bytes (fh_Magic bfh) ++ u32_bytes (fh_FileVersion bfh) ++ u32_bytes (fh_NetworkType bfh)
    ++ u32_bytes (fh_ChainId bfh).

Definition file_header_write (bfh : blocksFileHeader) : bytes :=
  file_header_raw bfh ++ u32_bytes (Sum32 (file_header_raw bfh)).

Definition file_header_read (r : bytes) : outcome codec_error (blocksFileHeader * bytes) :=
  let! out := ReadFull 16 r in
  let '(raw, r) := out in
  let bfh := mkFileHeader (word_at raw 0) (word_at raw 1) (word_at raw 2) (word_at raw 3) in
  let! out := read_u32 r in
  let '(sum32, r) := out in
  if negb (sum32 =? Sum32 raw) then Err ErrChecksum
  else if negb (fh_Magic bfh =? orbsFormatMagic) then Err ErrInvalid
  else if negb (fh_FileVersion bfh =? orbsFormatVersion) then Err ErrInvalid
  else Ok (bfh, r).

(** ** Writing a block *)

Definition writeMessage (raw : bytes) : bytes := u32_bytes (Z.of_nat (length raw)) ++ raw.

(** What a [checksumWriter] passes on, followed by its checksum. *)
Definition with_checksum (data : bytes) : bytes := data ++ u32_bytes (Sum32 data).

Definition writeDynamicBlockSectionWithChecksum (messages : list bytes) : bytes :=
  with_checksum (concat (map writeMessage messages)).

Section Codec.
Context `{Membuffers, MembuffersReaders}.

(** The messages of the fixed section. *)
Definition fixed_messages (block : BlockPairContainer) : list bytes :=
  let tb := bpc_TransactionsBlock block in
  let rb := bpc_ResultsBlock block in
  [raw_TransactionsBlockHeader (txb_Header tb); txb_Metadata tb; bp_Raw (txb_BlockProof tb);
   raw_ResultsBlockHeader (rxb_Header rb); bp_Raw (rxb_BlockProof rb)].

Definition writeFixedBlockSectionWithChecksum (block : BlockPairContainer) : bytes :=
  with_checksum (concat (map writeMessage (fixed_messages block))).

Definition transactionReceiptsToMessages (receipts : list TransactionReceipt) : list bytes :=
  map raw_TransactionReceipt receipts.
Definition diffsToMessages (diffs : list ContractStateDiff) : list bytes := map raw_ContractStateDiff diffs.
Definition transactionsToMessages (txs : list SignedTransaction) : list bytes := map raw_SignedTransaction txs.

Definition block_header_of (block : BlockPairContainer) : blockHeader :=
  let rb := bpc_ResultsBlock block in
  let bh := foldl addFixed newBlockHeader (fixed_messages block) in
  let bh := foldl addReceipt bh (transactionReceiptsToMessages (rxb_TransactionReceipts rb)) in
  let bh := foldl addDiff bh (diffsToMessages (rxb_ContractStateDiffs rb)) in
  foldl addTx bh (transactionsToMessages (txb_SignedTransactions (bpc_TransactionsBlock block))).

(** What goes through the writer with the checksum of the block. *)
Definition block_body (block : BlockPairContainer) : bytes :=
  let rb := bpc_ResultsBlock block in
  header_write (block_header_of block)
    ++ writeFixedBlockSectionWithChecksum block
    ++ writeDynamicBlockSectionWithChecksum (transactionReceiptsToMessages (rxb_TransactionReceipts rb))
    ++ writeDynamicBlockSectionWithChecksum (diffsToMessages (rxb_ContractStateDiffs rb))
    ++ writeDynamicBlockSectionWithChecksum
         (transactionsToMessages (txb_SignedTransactions (bpc_TransactionsBlock block))).

(** The bytes that reach the file, and the result: a block that is too big is
    noticed when all but its checksum is written. *)
Definition encode (c : codec) (block : BlockPairContainer) : bytes * outcome codec_error Z :=
  let body := block_body block in
  if maxBlockSize c <? Z.of_nat (length body) then (body, Err ErrTooBig)
  else (body ++ u32_bytes (Sum32 body), Ok (blockHeaderSize + totalSize (block_header_of block) + checksumSize * 5)).

(** ** Reading a block *)

Record readingBudget := newReadingBudget { limit : Z; bytesRead : Z }.

(** The chunk, the budget after it, and what is left to read. *)
Definition readChunk (reader : bytes) (budget : readingBudget)
    : outcome codec_error (bytes * readingBudget * bytes) :=
  let! out := read_u32 reader in
  let '(chunkLength, reader) := out in
  let budget := newReadingBudget (limit budget) (bytesRead budget + chunkLengthSize) in
  if limit budget <? bytesRead budget + chunkLength then Err ErrInvalid
  else
    let! out := ReadFull chunkLength reader in
    let '(chunk, reader) := out in
    Ok (chunk, newReadingBudget (limit budget) (bytesRead budget + Z.of_nat (length chunk)), reader).

Fixpoint read_chunks (count : nat) (reader : bytes) (budget : readingBudget)
    : outcome codec_error (list bytes * readingBudget * bytes) :=
  match count with
  | O => Ok ([], budget, reader)
  | S count' =>
      let! out := readChunk reader budget in
      let '(chunk, budget, reader) := out in
      let! out := read_chunks count' reader budget in
      let '(chunks, budget, reader) := out in
      Ok (chunk :: chunks, budget, reader)
  end.

(** The checksum of the section is read and returned. *)
Definition readDynamicBlockSection (reader : bytes) (budget : readingBudget) (count : Z)
    : outcome codec_error (list bytes * Z * readingBudget * bytes) :=
  if wrap 32 (limit budget) <? count then Err ErrInvalid
  else
    let! out := read_chunks (Z.to_nat count) reader budget in
    let '(chunks, budget, reader) := out in
    let! out := read_u32 reader in
    let '(checksum, reader) := out in
    Ok (chunks, checksum, budget, reader).

Record fixedSizeBlockSection := mkFixed {
  fixed_transactionsBlockHeader : TransactionsBlockHeader;
  fixed_transactionsBlockMetadata : bytes;
  fixed_transactionsBlockProof : BlockProof;
  fixed_resultsBlockHeader : ResultsBlockHeader;
  fixed_resultsBlockProof : BlockProof
}.

Definition readFixedSection (reader : bytes) (budget : readingBudget)
    : outcome codec_error (fixedSizeBlockSection * Z * readingBudget * bytes) :=
  let! out := readChunk reader budget in
  let '(tbHeaderChunk, budget, reader) := out in
  let! out := readChunk reader budget in
  let '(tbMetadataChunk, budget, reader) := out in
  let! out := readChunk reader budget in
  let '(tbBlockProofChunk, budget, reader) := out in
  let! out := readChunk reader budget in
  let '(rbHeaderChunk, budget, reader) := out in
  let! out := readChunk reader budget in
  let '(rbBlockProofChunk, budget, reader) := out in
  let! out := read_u32 reader in
  let '(checksum, reader) := out in
  Ok (mkFixed (TransactionsBlockHeaderReader tbHeaderChunk) tbMetadataChunk
        (TransactionsBlockProofReader tbBlockProofChunk) (ResultsBlockHeaderReader rbHeaderChunk)
        (ResultsBlockProofReader rbBlockProofChunk), checksum, budget, reader).

Definition readReceiptsSection (reader : bytes) (budget : readingBudget) (count : Z)
    : outcome codec_error (list TransactionReceipt * Z * readingBudget * bytes) :=
  let! out := readDynamicBlockSection reader budget count in
  let '(chunks, checksum, budget, reader) := out in
  Ok (map TransactionReceiptReader chunks, checksum, budget, reader).

Definition readStateDiffsSection (reader : bytes) (budget : readingBudget) (count : Z)
    : outcome codec_error (list ContractStateDiff * Z * readingBudget * bytes) :=
  let! out := readDynamicBlockSection reader budget count in
  let '(chunks, checksum, budget, reader) := out in
  Ok (map ContractStateDiffReader chunks, checksum, budget, reader).

Definition readTransactionsSection (reader : bytes) (budget : readingBudget) (count : Z)
    : outcome codec_error (list SignedTransaction * Z * readingBudget * bytes) :=
  let! out := readDynamicBlockSection reader budget count in
  let '(chunks, checksum, budget, reader) := out in
  Ok (map SignedTransactionReader chunks, checksum, budget, reader).

(** What the [TeeReader] has copied to the checksum. *)
Definition consumed (before after : bytes) : bytes := take (length before - length after) before.

(** The block, its size in the file, and what is left to read. *)
Definition decode (c : codec) (r : bytes) : outcome codec_error (BlockPairContainer * Z * bytes) :=
  let! out := header_read r in
  let '(serializationHeader, tr) := out in
  let budget := newReadingBudget (totalSize serializationHeader + blockHeaderSize) blockHeaderSize in
  if maxBlockSize c <? limit budget then Err ErrTooBig
  else
    let! out := readFixedSection tr budget in
    let '(fixed, _, budget, tr) := out in
    let! out := readReceiptsSection tr budget (rxh_NumTransactionReceipts (fixed_resultsBlockHeader fixed)) in
    let '(receipts, _, budget, tr) := out in
    let! out := readStateDiffsSection tr budget (rxh_NumContractStateDiffs (fixed_resultsBlockHeader fixed)) in
    let '(stateDiffs, _, budget, tr) := out in
    let! out := readTransactionsSection tr budget (txh_NumSignedTransactions (fixed_transactionsBlockHeader fixed)) in
    let '(txs, _, budget, tr) := out in
    if negb (bytesRead budget =? limit budget) then Err ErrSizeMismatch
    else
      let! out := read_u32 tr in
      let '(checksum, rest) := out in
      if negb (checksum =? Sum32 (consumed r tr)) then Err ErrChecksum
      else
        Ok (mkBlockPair
              (mkTxBlock (fixed_transactionsBlockHeader fixed) (fixed_transactionsBlockMetadata fixed) txs
                 (fixed_transactionsBlockProof fixed))
              (mkRxBlock (fixed_resultsBlockHeader fixed) receipts stateDiffs (fixed_resultsBlockProof fixed)),
            bytesRead budget + checksumSize * 5, rest).
End Codec.

(** ** Lemmas *)

Lemma Sum32_bound data : 0 <= Sum32 data < 2 ^ 32.
Proof. apply wrap_bound. lia. Qed.

Lemma u32_bytes_length z : length (u32_bytes z) = 4%nat.
Proof. apply le_bytes_length. Qed.

Lemma le_word_u32_bytes z : 0 <= z < 2 ^ 32 -> le_word (u32_bytes z) = z.
Proof. intros Hz. unfold u32_bytes. rewrite wrap_small by done. apply le_word_bytes. simpl. lia. Qed.

Lemma ReadFull_app n a r : n = Z.of_nat (length a) -> ReadFull n (a ++ r) = Ok (a, r).
Proof.
  intros ->. unfold ReadFull. destruct (Z.eqb_spec (Z.of_nat (length a)) 0) as [Ha|Ha].
  - by destruct a.
  - destruct (a ++ r) as [|x l] eqn:E; [by apply app_nil in E as [-> _]|]. rewrite <- E.
    rewrite length_app. lia_if.
    by rewrite Nat2Z.id, take_app_length, drop_app_length.
Qed.

Lemma read_u32_app z r : 0 <= z < 2 ^ 32 -> read_u32 (u32_bytes z ++ r) = Ok (z, r).
Proof.
  intros Hz. unfold read_u32. rewrite (ReadFull_app 4 (u32_bytes z) r) by (rewrite u32_bytes_length; done).
  cbn [bindO fst snd]. by rewrite le_word_u32_bytes.
Qed.

(** The bytes of a list of messages with their lengths. *)
Definition chunks_size (messages : list bytes) : Z :=
  foldr (fun m size => chunkLengthSize + Z.of_nat (length m) + size) 0 messages.

Lemma chunks_size_nonneg messages : 0 <= chunks_size messages.
Proof. induction messages; simpl; unfold chunkLengthSize in *; lia. Qed.

Lemma messages_length messages : Z.of_nat (length (concat (map writeMessage messages))) = chunks_size messages.
Proof.
  induction messages as [|m messages IH]; [done|].
  cbn [map concat chunks_size foldr]. unfold writeMessage at 1. rewrite !length_app, u32_bytes_length.
  fold (chunks_size messages). unfold chunkLengthSize. lia.
Qed.

Lemma with_checksum_length data : length (with_checksum data) = (length data + 4)%nat.
Proof. unfold with_checksum. by rewrite length_app, u32_bytes_length. Qed.

Lemma readChunk_app raw r lim rd :
  rd + chunkLengthSize + Z.of_nat (length raw) <= lim -> Z.of_nat (length raw) < 2 ^ 32 ->
  readChunk (writeMessage raw ++ r) (newReadingBudget lim rd) =
  Ok (raw, newReadingBudget lim (rd + chunkLengthSize + Z.of_nat (length raw)), r).
Proof.
  intros Hlim Hlen. unfold readChunk, writeMessage. rewrite <- app_assoc, read_u32_app by lia.
  cbn [bindO limit bytesRead]. lia_if. by rewrite ReadFull_app by done.
Qed.

Lemma read_chunks_app messages r lim rd :
  rd + chunks_size messages <= lim -> chunks_size messages < 2 ^ 32 ->
  read_chunks (length messages) (concat (map writeMessage messages) ++ r) (newReadingBudget lim rd) =
  Ok (messages, newReadingBudget lim (rd + chunks_size messages), r).
Proof.
  revert rd. induction messages as [|m messages IH]; intros rd Hlim Hlen;
    cbn [map concat chunks_size foldr length read_chunks] in *; [by rewrite Z.add_0_r|].
  fold (chunks_size messages) in *. pose proof (chunks_size_nonneg messages) as Hnn. unfold chunkLengthSize in *.
  rewrite <- app_assoc, readChunk_app by (unfold chunkLengthSize; lia). cbn [bindO].
  unfold chunkLengthSize. rewrite IH by lia. cbn [bindO]. do 4 f_equal. lia.
Qed.

Lemma readDynamicBlockSection_app messages r lim rd count :
  count = Z.of_nat (length messages) -> 0 <= rd -> rd + chunks_size messages <= lim -> lim < 2 ^ 32 ->
  readDynamicBlockSection (writeDynamicBlockSectionWithChecksum messages ++ r) (newReadingBudget lim rd) count =
  Ok (messages, Sum32 (concat (map writeMessage messages)), newReadingBudget lim (rd + chunks_size messages), r).
Proof.
  intros -> Hrd Hlim Hsmall. unfold readDynamicBlockSection. cbn [limit].
  assert (Z.of_nat (length messages) <= chunks_size messages) as Hcount.
  { clear. induction messages; simpl; unfold chunkLengthSize in *; lia. }
  rewrite wrap_small by lia. lia_if.
  unfold writeDynamicBlockSectionWithChecksum, with_checksum. rewrite <- app_assoc, Nat2Z.id.
  rewrite read_chunks_app by lia. cbn [bindO]. by rewrite read_u32_app by apply Sum32_bound.
Qed.

(** The sizes of the header are the sizes of the sections, modulo the width. *)
Lemma diskChunkSize_wrap raw : diskChunkSize raw = wrap 32 (chunkLengthSize + Z.of_nat (length raw)).
Proof. unfold diskChunkSize, u32_add. by rewrite wrap_add_r. Qed.

Lemma fold_sizes (size : blockHeader -> Z) (add : blockHeader -> bytes -> blockHeader) bh messages :
  (forall bh raw, size (add bh raw) = u32_add (size bh) (diskChunkSize raw)) ->
  wrap 32 (size bh) = size bh ->
  size (foldl add bh messages) = wrap 32 (size bh + chunks_size messages).
Proof.
  intros Hadd. revert bh. induction messages as [|m messages IH]; intros bh Hbh; simpl.
  { by rewrite Z.add_0_r. }
  assert (size (add bh m) = wrap 32 (size bh + (chunkLengthSize + Z.of_nat (length m)))) as Hs.
  { rewrite Hadd, diskChunkSize_wrap. unfold u32_add. by rewrite wrap_add_r. }
  rewrite IH, Hs, wrap_add_l.
  - f_equal. lia.
  - rewrite Hs. apply wrap_small, wrap_bound. lia.
Qed.

Lemma fold_keeps {A} (field : blockHeader -> A) (add : blockHeader -> bytes -> blockHeader) bh messages :
  (forall bh raw, field (add bh raw) = field bh) -> field (foldl add bh messages) = field bh.
Proof. intros Hadd. revert bh. induction messages as [|m messages IH]; intros bh; simpl; [done|]. by rewrite IH, Hadd. Qed.

Section RoundTrip.
Context `{Membuffers, MembuffersReaders}.

(** The messages of the four sections of a block. *)
Definition receipt_messages (b : BlockPairContainer) : list bytes :=
  transactionReceiptsToMessages (rxb_TransactionReceipts (bpc_ResultsBlock b)).
Definition diff_messages (b : BlockPairContainer) : list bytes :=
  diffsToMessages (rxb_ContractStateDiffs (bpc_ResultsBlock b)).
Definition tx_messages (b : BlockPairContainer) : list bytes :=
  transactionsToMessages (txb_SignedTransactions (bpc_TransactionsBlock b)).

Definition payload_size (b : BlockPairContainer) : Z :=
  chunks_size (fixed_messages b) + chunks_size (receipt_messages b) + chunks_size (diff_messages b)
  + chunks_size (tx_messages b).

Lemma block_body_length b : Z.of_nat (length (block_body b)) = blockHeaderSize + payload_size b + 4 * checksumSize.
Proof.
  unfold block_body, header_write, writeFixedBlockSectionWithChecksum, writeDynamicBlockSectionWithChecksum.
  cbn zeta. rewrite !length_app, !with_checksum_length, !u32_bytes_length.
  pose proof (messages_length (fixed_messages b)). pose proof (messages_length (receipt_messages b)).
  pose proof (messages_length (diff_messages b)). pose proof (messages_length (tx_messages b)).
  unfold payload_size, receipt_messages, diff_messages, tx_messages, blockHeaderSize, checksumSize in *. lia.
Qed.

Lemma block_header_sizes b :
  payload_size b < 2 ^ 32 ->
  block_header_of b = mkBlockHeader blockMagic blockVersion (chunks_size (fixed_messages b))
    (chunks_size (receipt_messages b)) (chunks_size (diff_messages b)) (chunks_size (tx_messages b)).
Proof.
  intros Hsmall. pose proof (chunks_size_nonneg (fixed_messages b)). pose proof (chunks_size_nonneg (receipt_messages b)).
  pose proof (chunks_size_nonneg (diff_messages b)). pose proof (chunks_size_nonneg (tx_messages b)).
  unfold payload_size in Hsmall. unfold block_header_of.
  fold (receipt_messages b) (diff_messages b) (tx_messages b).
  set (h1 := foldl addFixed newBlockHeader (fixed_messages b)).
  set (h2 := foldl addReceipt h1 (receipt_messages b)). set (h3 := foldl addDiff h2 (diff_messages b)).
  set (h4 := foldl addTx h3 (tx_messages b)).
  assert (FixedSize h1 = chunks_size (fixed_messages b) /\ ReceiptsSize h1 = 0 /\ DiffsSize h1 = 0 /\ TxsSize h1 = 0
    /\ Magic h1 = blockMagic /\ Version h1 = blockVersion) as (F1 & R1 & D1 & T1 & M1 & V1).
  { unfold h1. rewrite (fold_sizes FixedSize), !fold_keeps by done.
    change (FixedSize newBlockHeader) with 0. rewrite wrap_small by lia. by split_and!. }
  assert (FixedSize h2 = FixedSize h1 /\ ReceiptsSize h2 = chunks_size (receipt_messages b) /\ DiffsSize h2 = 0
    /\ TxsSize h2 = 0 /\ Magic h2 = blockMagic /\ Version h2 = blockVersion) as (F2 & R2 & D2 & T2 & M2 & V2).
  { unfold h2. rewrite (fold_sizes ReceiptsSize), !fold_keeps by (done || by rewrite R1).
    rewrite R1. by rewrite wrap_small by lia. }
  assert (FixedSize h3 = FixedSize h2 /\ ReceiptsSize h3 = ReceiptsSize h2 /\
    DiffsSize h3 = chunks_size (diff_messages b) /\ TxsSize h3 = 0 /\ Magic h3 = blockMagic /\ Version h3 = blockVersion)
    as (F3 & R3 & D3 & T3 & M3 & V3).
  { unfold h3. rewrite (fold_sizes DiffsSize), !fold_keeps by (done || by rewrite D2).
    rewrite D2. by rewrite wrap_small by lia. }
  assert (FixedSize h4 = FixedSize h3 /\ ReceiptsSize h4 = ReceiptsSize h3 /\ DiffsSize h4 = DiffsSize h3 /\
    TxsSize h4 = chunks_size (tx_messages b) /\ Magic h4 = blockMagic /\ Version h4 = blockVersion)
    as (F4 & R4 & D4 & T4 & M4 & V4).
  { unfold h4. rewrite (fold_sizes TxsSize), !fold_keeps by (done || by rewrite T3).
    rewrite T3. by rewrite wrap_small by lia. }
  destruct h4. cbn in *. f_equal; congruence.
Qed.

Lemma word_at_app (a r : bytes) i :
  length a = 4%nat -> word_at (a ++ r) (S i) = word_at r i.
Proof.
  intros Ha. unfold word_at. do 2 f_equal. rewrite drop_app_ge by lia. f_equal. lia.
Qed.

Lemma word_at_0 z r : 0 <= z < 2 ^ 32 -> word_at (u32_bytes z ++ r) 0 = z.
Proof.
  intros Hz. unfold word_at. rewrite Nat.mul_0_r, drop_0.
  rewrite take_app_length' by by rewrite u32_bytes_length. by apply le_word_u32_bytes.
Qed.

Lemma header_read_write bh r :
  Magic bh = blockMagic -> Version bh = blockVersion ->
  is_u32 (FixedSize bh) -> is_u32 (ReceiptsSize bh) -> is_u32 (DiffsSize bh) -> is_u32 (TxsSize bh) ->
  header_read (header_write bh ++ r) = Ok (bh, r).
Proof.
  intros Hm Hv Hf Hr Hd Ht. unfold header_read. unfold is_u32 in *.
  rewrite (ReadFull_app blockHeaderSize (header_write bh) r)
    by (unfold header_write; rewrite !length_app, !u32_bytes_length; done).
  cbn [bindO]. unfold header_write.
  rewrite <- (app_nil_r (u32_bytes (TxsSize bh))).
  repeat rewrite word_at_app by apply u32_bytes_length.
  rewrite !word_at_0 by (rewrite ?Hm, ?Hv; unfold blockMagic, blockVersion; lia).
  cbn [Magic Version]. rewrite Hm, Hv, !Z.eqb_refl. cbn [negb]. rewrite <- Hm, <- Hv. by destruct bh.
Qed.

Lemma readFixedSection_app b r lim rd :
  rd + chunks_size (fixed_messages b) <= lim -> chunks_size (fixed_messages b) < 2 ^ 32 ->
  readFixedSection (writeFixedBlockSectionWithChecksum b ++ r) (newReadingBudget lim rd) =
  Ok (mkFixed (TransactionsBlockHeaderReader (raw_TransactionsBlockHeader (txb_Header (bpc_TransactionsBlock b))))
        (txb_Metadata (bpc_TransactionsBlock b))
        (TransactionsBlockProofReader (bp_Raw (txb_BlockProof (bpc_TransactionsBlock b))))
        (ResultsBlockHeaderReader (raw_ResultsBlockHeader (rxb_Header (bpc_ResultsBlock b))))
        (ResultsBlockProofReader (bp_Raw (rxb_BlockProof (bpc_ResultsBlock b)))),
      Sum32 (concat (map writeMessage (fixed_messages b))),
      newReadingBudget lim (rd + chunks_size (fixed_messages b)), r).
Proof.
  intros Hlim Hsmall. unfold readFixedSection, writeFixedBlockSectionWithChecksum, with_checksum.
  set (sum := Sum32 _). unfold fixed_messages in *. cbn [map concat] in *. rewrite app_nil_r, <- !app_assoc.
  cbn [chunks_size foldr] in *.
  assert (0 <= chunkLengthSize) by done.
  do 5 (rewrite readChunk_app by lia; cbn [bindO]).
  rewrite read_u32_app by apply Sum32_bound. cbn [bindO]. do 4 f_equal. lia.
Qed.

(** A block whose header counts are those of its lists, and which the readers of the
    library give back. *)
Record decodable (c : codec) (b : BlockPairContainer) : Prop := {
  dec_width : maxBlockSize c < 2 ^ 32;
  dec_size : Z.of_nat (length (block_body b)) <= maxBlockSize c;
  dec_receipts : rxh_NumTransactionReceipts (rxb_Header (bpc_ResultsBlock b))
                 = Z.of_nat (length (rxb_TransactionReceipts (bpc_ResultsBlock b)));
  dec_diffs : rxh_NumContractStateDiffs (rxb_Header (bpc_ResultsBlock b))
              = Z.of_nat (length (rxb_ContractStateDiffs (bpc_ResultsBlock b)));
  dec_txs : txh_NumSignedTransactions (txb_Header (bpc_TransactionsBlock b))
            = Z.of_nat (length (txb_SignedTransactions (bpc_TransactionsBlock b)));
  dec_txProof : TransactionsBlockProofReader (bp_Raw (txb_BlockProof (bpc_TransactionsBlock b)))
                = txb_BlockProof (bpc_TransactionsBlock b);
  dec_rxProof : ResultsBlockProofReader (bp_Raw (rxb_BlockProof (bpc_ResultsBlock b)))
                = rxb_BlockProof (bpc_ResultsBlock b)
}.
End RoundTrip.

(** A message read back from its encoding is the message. *)
Class MembuffersLaws `{Membuffers, MembuffersReaders} : Prop := {
  read_tx_header h : TransactionsBlockHeaderReader (raw_TransactionsBlockHeader h) = h;
  read_rx_header h : ResultsBlockHeaderReader (raw_ResultsBlockHeader h) = h;
  read_receipt r : TransactionReceiptReader (raw_TransactionReceipt r) = r;
  read_diff d : ContractStateDiffReader (raw_ContractStateDiff d) = d;
  read_tx t : SignedTransactionReader (raw_SignedTransaction t) = t
}.

Lemma map_inverse {A B} (f : A -> B) (g : B -> A) l : (forall x, g (f x) = x) -> map g (map f l) = l.
Proof. intros Hgf. rewrite map_map. rewrite <- (map_id l) at 2. by apply map_ext. Qed.

Section Decode.
Context `{MembuffersLaws}.

(** What [encode] returns when the block fits. *)
Lemma encode_Ok c b :
  decodable c b ->
  payload_size b < 2 ^ 32 /\ totalSize (block_header_of b) = payload_size b /\
  encode c b = (block_body b ++ u32_bytes (Sum32 (block_body b)), Ok (Z.of_nat (length (block_body b)) + 4)).
Proof.
  intros Hdec. pose proof (block_body_length b) as Hlen. destruct Hdec as [Hw Hs _ _ _ _ _].
  unfold blockHeaderSize, checksumSize in Hlen. assert (payload_size b < 2 ^ 32) as Hsmall by lia.
  assert (totalSize (block_header_of b) = payload_size b) as Htotal.
  { pose proof (chunks_size_nonneg (fixed_messages b)). pose proof (chunks_size_nonneg (receipt_messages b)).
    pose proof (chunks_size_nonneg (diff_messages b)). pose proof (chunks_size_nonneg (tx_messages b)).
    rewrite block_header_sizes by done. unfold totalSize, payload_size, u32_add in *.
    cbn [FixedSize DiffsSize ReceiptsSize TxsSize]. 
    rewrite (wrap_small 32 (chunks_size (fixed_messages b) + chunks_size (diff_messages b))) by lia.
    rewrite !wrap_add_l, wrap_small; lia. }
  split_and!; [done..|]. unfold encode. lia_if.
  rewrite Htotal. do 2 f_equal. unfold blockHeaderSize, checksumSize. lia.
Qed.

Lemma consumed_app (a r : bytes) : consumed (a ++ r) r = a.
Proof. unfold consumed. rewrite length_app. by replace (_ - _)%nat with (length a) by lia; rewrite take_app_length. Qed.

Lemma decode_encode_app c b rest :
  decodable c b ->
  decode c (fst (encode c b) ++ rest) = Ok (b, Z.of_nat (length (fst (encode c b))), rest).
Proof.
  intros Hdec. destruct (encode_Ok c b Hdec) as (Hsmall & Htotal & ->). cbn [fst].
  pose proof (block_body_length b) as Hlen. destruct Hdec as [Hw Hs Hr Hd Ht Htp Hrp].
  pose proof (chunks_size_nonneg (fixed_messages b)). pose proof (chunks_size_nonneg (receipt_messages b)).
  pose proof (chunks_size_nonneg (diff_messages b)). pose proof (chunks_size_nonneg (tx_messages b)).
  rewrite length_app, u32_bytes_length, <- app_assoc. set (tail := u32_bytes _ ++ rest).
  unfold blockHeaderSize, checksumSize, payload_size in *.
  unfold decode. set (all := block_body b ++ tail).
  assert (all = header_write (block_header_of b) ++ writeFixedBlockSectionWithChecksum b ++
    writeDynamicBlockSectionWithChecksum (receipt_messages b) ++ writeDynamicBlockSectionWithChecksum (diff_messages b) ++
    writeDynamicBlockSectionWithChecksum (tx_messages b) ++ tail) as Hall.
  { unfold all, block_body. by rewrite <- !app_assoc. }
  rewrite Hall at 1. rewrite header_read_write by
    (rewrite block_header_sizes by (unfold payload_size; lia); unfold is_u32;
     cbn [Magic Version FixedSize DiffsSize ReceiptsSize TxsSize]; done || lia).
  cbn [bindO limit]. rewrite Htotal. unfold blockHeaderSize. lia_if.
  rewrite readFixedSection_app by lia. cbn [bindO fixed_resultsBlockHeader fixed_transactionsBlockHeader].
  rewrite read_rx_header, read_tx_header. unfold readReceiptsSection, readStateDiffsSection, readTransactionsSection.
  rewrite readDynamicBlockSection_app by (lia || by unfold receipt_messages, transactionReceiptsToMessages; rewrite length_map).
  cbn [bindO].
  rewrite readDynamicBlockSection_app by (lia || by unfold diff_messages, diffsToMessages; rewrite length_map).
  cbn [bindO].
  rewrite readDynamicBlockSection_app by (lia || by unfold tx_messages, transactionsToMessages; rewrite length_map).
  cbn [bindO bytesRead limit]. lia_if.
  unfold tail at 1. rewrite read_u32_app by apply Sum32_bound. cbn [bindO].
  unfold all. rewrite consumed_app, Z.eqb_refl. cbn [negb].
  unfold receipt_messages, diff_messages, tx_messages, transactionReceiptsToMessages, diffsToMessages,
    transactionsToMessages in *.
  rewrite !map_inverse by (apply read_receipt || apply read_diff || apply read_tx).
  rewrite Htp, Hrp. unfold checksumSize. do 3 f_equal; [|lia].
  destruct b as [[] []]. done.
Qed.
End Decode.

Section Properties.
Context `{MembuffersLaws}.


(** A block without receipts whose header counts some is written without an error and
    cannot be read back. *)
Theorem miscounted_block_unreadable c b rest :
  let header := rxb_Header (bpc_ResultsBlock b) in
  maxBlockSize c < 2 ^ 32 -> Z.of_nat (length (block_body b)) <= maxBlockSize c ->
  rxb_TransactionReceipts (bpc_ResultsBlock b) = [] ->
  rxb_ContractStateDiffs (bpc_ResultsBlock b) = [] ->
  txb_SignedTransactions (bpc_TransactionsBlock b) = [] ->
  1 <= rxh_NumTransactionReceipts header ->
  exists data n, encode c b = (data, Ok n) /\ decode c (data ++ rest) = Err ErrInvalid.
Proof.
  intros header Hw Hs Hr Hd Ht Hnum. pose proof (block_body_length b) as Hlen.
  unfold encode. lia_if. eexists _, _. split; [done|].
  rewrite <- app_assoc. set (tail := u32_bytes _ ++ rest).
  assert (receipt_messages b = [] /\ diff_messages b = [] /\ tx_messages b = []) as (Mr & Md & Mt).
  { unfold receipt_messages, diff_messages, tx_messages. by rewrite Hr, Hd, Ht. }
  unfold payload_size in Hlen. rewrite Mr, Md, Mt in Hlen. change (chunks_size []) with 0 in Hlen.
  pose proof (chunks_size_nonneg (fixed_messages b)). unfold blockHeaderSize, checksumSize in Hlen.
  assert (payload_size b = chunks_size (fixed_messages b)) as Hp.
  { unfold payload_size. rewrite Mr, Md, Mt. change (chunks_size []) with 0. lia. }
  assert (exists more, block_body b ++ tail =
    header_write (block_header_of b) ++ writeFixedBlockSectionWithChecksum b ++ u32_bytes (Sum32 []) ++ more) as [more ->].
  { unfold block_body. cbn zeta. fold (receipt_messages b). rewrite Mr.
    unfold writeDynamicBlockSectionWithChecksum at 1, with_checksum. cbn [map concat app].
    eexists. by rewrite <- !app_assoc. }
  unfold decode. rewrite header_read_write by
    (rewrite block_header_sizes by (rewrite Hp; lia); rewrite ?Mr, ?Md, ?Mt; unfold is_u32;
     cbn [Magic Version FixedSize DiffsSize ReceiptsSize TxsSize]; done || lia || by cbn).
  cbn [bindO limit].
  replace (totalSize (block_header_of b)) with (chunks_size (fixed_messages b)).
  2: { rewrite block_header_sizes, Mr, Md, Mt by (rewrite Hp; lia). unfold totalSize, u32_add.
       cbn [FixedSize DiffsSize ReceiptsSize TxsSize]. change (chunks_size []) with 0. rewrite !Z.add_0_r.
       by rewrite !(wrap_small 32 (chunks_size (fixed_messages b))) by lia. }
  unfold blockHeaderSize. lia_if.
  rewrite readFixedSection_app by lia. cbn [bindO fixed_resultsBlockHeader].
  rewrite read_rx_header. fold header. unfold readReceiptsSection, readDynamicBlockSection. cbn [limit].
  rewrite wrap_small by lia. destruct (Z.ltb_spec (chunks_size (fixed_messages b) + 24) (rxh_NumTransactionReceipts header)); [done|].
  destruct (Z.to_nat (rxh_NumTransactionReceipts header)) as [|k] eqn:Ek; [lia|]. cbn [read_chunks].
  unfold readChunk. rewrite read_u32_app by apply Sum32_bound. cbn [bindO limit bytesRead].
  pose proof (Sum32_bound []). unfold chunkLengthSize. by lia_if.
Qed.

Lemma file_header_read_write networkType vchainId rest :
  is_u32 networkType -> is_u32 vchainId ->
  file_header_read (file_header_write (newBlocksFileHeader networkType vchainId) ++ rest)
  = Ok (newBlocksFileHeader networkType vchainId, rest).
Proof.
  intros Hn Hv. unfold file_header_read, file_header_write. unfold is_u32 in *. rewrite <- app_assoc.
  set (raw := file_header_raw _). rewrite (ReadFull_app 16 raw) by done. cbn [bindO].
  rewrite read_u32_app by apply Sum32_bound. cbn [bindO]. rewrite Z.eqb_refl. cbn [negb].
  unfold raw, file_header_raw. rewrite <- (app_nil_r (u32_bytes (fh_ChainId _))).
  repeat rewrite word_at_app by apply u32_bytes_length.
  cbn [newBlocksFileHeader fh_Magic fh_FileVersion fh_NetworkType fh_ChainId].
  rewrite !word_at_0 by (unfold orbsFormatMagic, orbsFormatVersion; lia).
  cbn [fh_Magic fh_FileVersion]. done.
Qed.
End Properties.

(** ** A concrete encoding of messages, for evaluating examples

    Every field with its length before it. *)

Definition pack (fields : list bytes) : bytes := concat (map (fun f => Z.of_nat (length f) :: f) fields).

Fixpoint unpack (fuel : nat) (raw : bytes) : list bytes :=
  match fuel, raw with
  | S fuel', len :: raw' => take (Z.to_nat len) raw' :: unpack fuel' (drop (Z.to_nat len) raw')
  | _, _ => []
  end.

Lemma unpack_pack fields : unpack (length (pack fields)) (pack fields) = fields.
Proof.
  assert (forall fuel, (length (pack fields) <= fuel)%nat -> unpack fuel (pack fields) = fields) as Hall; [|by apply Hall].
  induction fields as [|f fields IH]; intros fuel Hfuel; [by destruct fuel|].
  destruct fuel as [|fuel]; [simpl in Hfuel; lia|].
  change (pack (f :: fields)) with (Z.of_nat (length f) :: (f ++ pack fields)) in *. cbn [unpack].
  rewrite Nat2Z.id, take_app_length, drop_app_length. f_equal. apply IH.
  cbn [length] in Hfuel. rewrite length_app in Hfuel. lia.
Qed.

Definition fields_of (raw : bytes) : list bytes := unpack (length raw) raw.

Arguments pack : simpl never.
Arguments fields_of : simpl never.

(** A field, and a number in a field. *)
Definition field (raw : bytes) (i : nat) : bytes := nth i (fields_of raw) [].
Definition number (raw : bytes) (i : nat) : Z := nth 0 (field raw i) 0.

Definition pack_signer (s : Signer) : list bytes :=
  [sg_Raw s; match sg_Eddsa s with Some k => 1 :: k | None => [0] end].

Definition pack_tx (t : Transaction) : list bytes :=
  [[tx_ProtocolVersion t]; [tx_VirtualChainId t]; [tx_Timestamp t]; tx_ContractName t; tx_MethodName t;
   tx_InputArgumentArray t] ++ pack_signer (tx_Signer t).

Definition unpack_tx (raw : bytes) : Transaction :=
  mkTransaction (number raw 0) (number raw 1) (number raw 2)
    (mkSigner (field raw 6) (match field raw 7 with 1 :: k => Some k | _ => None end))
    (field raw 3) (field raw 4) (field raw 5).

Definition packed_membuffers : Membuffers := {|
  raw_Transaction t := pack (pack_tx t);
  raw_SignedTransaction t := pack (pack_tx (stx_Transaction t) ++ [stx_Signature t]);
  raw_TransactionReceipt r :=
    pack [tr_Txhash r; [tr_ExecutionResult r]; tr_OutputArgumentArray r; tr_OutputEventsArray r];
  raw_ContractStateDiff d :=
    pack (csd_ContractName d :: map (fun r => pack [sr_Key r; sr_Value r]) (csd_StateDiffs d));
  raw_TransactionsBlockHeader h :=
    pack [[txh_ProtocolVersion h]; [txh_VirtualChainId h]; [txh_BlockHeight h]; txh_PrevBlockHashPtr h;
          [txh_Timestamp h]; txh_TransactionsMerkleRootHash h; txh_MetadataHash h; [txh_NumSignedTransactions h];
          txh_BlockProposerAddress h];
  raw_ResultsBlockHeader h :=
    pack [[rxh_ProtocolVersion h]; [rxh_VirtualChainId h]; [rxh_BlockHeight h]; rxh_PrevBlockHashPtr h;
          [rxh_Timestamp h]; rxh_ReceiptsMerkleRootHash h; rxh_StateDiffHash h; rxh_TransactionsBlockHashPtr h;
          rxh_PreExecutionStateMerkleRootHash h; [rxh_NumTransactionReceipts h]; [rxh_NumContractStateDiffs h];
          rxh_BlockProposerAddress h];
  raw_EmptyMetadata := [];
  empty_TransactionsBlockProof := mkBlockProof ProofNone [];
  empty_ResultsBlockProof := mkBlockProof ProofNone []
|}.

Definition packed_readers : MembuffersReaders := {|
  TransactionsBlockHeaderReader raw :=
    mkTxHeader (number raw 0) (number raw 1) (number raw 2) (field raw 3) (number raw 4) (field raw 5) (field raw 6)
      (number raw 7) (field raw 8);
  TransactionsBlockProofReader raw := mkBlockProof ProofNone raw;
  ResultsBlockHeaderReader raw :=
    mkRxHeader (number raw 0) (number raw 1) (number raw 2) (field raw 3) (number raw 4) (field raw 5) (field raw 6)
      (field raw 7) (field raw 8) (number raw 9) (number raw 10) (field raw 11);
  ResultsBlockProofReader raw := mkBlockProof ProofNone raw;
  TransactionReceiptReader raw := mkReceipt (field raw 0) (number raw 1) (field raw 2) (field raw 3);
  ContractStateDiffReader raw :=
    mkContractStateDiff (field raw 0)
      (map (fun r => mkStateRecord (field r 0) (field r 1)) (tail (fields_of raw)));
  SignedTransactionReader raw := mkSignedTransaction (unpack_tx raw) (field raw 8)
|}.

Lemma fields_of_pack fields : fields_of (pack fields) = fields.
Proof. apply unpack_pack. Qed.

Section Packed.
#[local] Existing Instance packed_membuffers.
#[local] Existing Instance packed_readers.

Lemma packed_laws : MembuffersLaws.
Proof.
  split.
  - intros []. cbn. unfold number, field. by rewrite fields_of_pack.
  - intros []. cbn. unfold number, field. by rewrite fields_of_pack.
  - intros []. cbn. unfold number, field. by rewrite fields_of_pack.
  - intros []. cbn. unfold field at 1. rewrite fields_of_pack. cbn. f_equal. rewrite map_map.
    rewrite <- map_id. apply map_ext. intros []. unfold field. by rewrite fields_of_pack.
  - intros [[? ? ? [? [k|]]] ?]; cbn; unfold unpack_tx, number, field; by rewrite fields_of_pack.
Qed.
#[local] Existing Instance packed_laws.

Definition codec1000 : codec := newCodec 1000.
Definition block5 : BlockPairContainer :=
  mkBlockPair
    (mkTxBlock (mkTxHeader 1 42 5 [1; 2] 10 [3] [] 0 [9]) [] [] (mkBlockProof ProofNone [4]))
    (mkRxBlock (mkRxHeader 1 42 5 [1; 2] 10 [] [] [] [] 1 1 [9]) [mkReceipt [7] 1 [] []]
       [mkContractStateDiff [8] [mkStateRecord [1] [2; 3]]] (mkBlockProof ProofNone [])).

Lemma block5_decodable : decodable codec1000 block5.
Proof. split; reflexivity || eval_Z. Qed.


Definition miscounted : BlockPairContainer :=
  mkBlockPair
    (mkTxBlock (mkTxHeader 1 42 5 [1; 2] 10 [3] [] 0 [9]) [] [] (mkBlockProof ProofNone [4]))
    (mkRxBlock (mkRxHeader 1 42 5 [1; 2] 10 [] [] [] [] 2 0 [9]) [] [] (mkBlockProof ProofNone [])).

Lemma miscounted_block_unreadable_witness :
  exists data n, encode codec1000 miscounted = (data, Ok n) /\ decode codec1000 (data ++ []) = Err ErrInvalid.
Proof. apply (miscounted_block_unreadable codec1000 miscounted []); reflexivity || eval_Z. Defined.
End Packed.
