(* ===== verification/BlockFile.v ===== *)
(** * The file-system block persistence (services/blockstorage/adapter/filesystem)

    A file of encoded blocks, an index from heights to offsets rebuilt when the
    node starts, and the same interface as the in-memory persistence.  The file is
    the bytes on disk; errors of the disk itself are not modelled. *)

From stdpp Require Import base gmap list.
From Stdlib Require Import ZArith Lia ZifyBool.
From S2P Require Import Prelude Protocol Hash Digest BlockTracker BlockPersistence BlockCodec.

(** ** The index (index.go) *)

Record blockHeightIndex := mkIndex {
  heightOffset : gmap Z Z;
  firstBlockInTsBucket : gmap Z Z;
  topBlock : option BlockPairContainer;
  topBlockHeight : Z
}.

Definition newBlockHeightIndex (firstBlockOffset : Z) : blockHeightIndex :=
  mkIndex {[ 1 := firstBlockOffset ]} ∅ None 0.

Definition fetchBlockOffset (i : blockHeightIndex) (height : Z) : outcome persistence_error Z :=
  match heightOffset i !! height with Some offset => Ok offset | None => Panic end.

Definition fetchTopOffset (i : blockHeightIndex) : outcome persistence_error Z :=
  fetchBlockOffset i (u64_add (topBlockHeight i) 1).

Definition minuteToNanoRatio : Z := 60 * 1000 * 1000 * 1000.

Definition blockTsBucketKey (nano : Z) : Z := wrap 32 (nano / minuteToNanoRatio).

(** The loop over the buckets of a range, [count] of them. *)
Fixpoint first_bucket (i : blockHeightIndex) (bucket : Z) (count : nat) : option Z :=
  match count with
  | O => None
  | S count' =>
      match firstBlockInTsBucket i !! bucket with
      | Some height => Some height
      | None => first_bucket i (u32_add bucket 1) count'
      end
  end.

Definition getEarliestTxBlockInBucketForTsRange (i : blockHeightIndex) (rangeStart rangeEnd : Z) : option Z :=
  let fromBucket := blockTsBucketKey rangeStart in
  let toBucket := blockTsBucketKey rangeEnd in
  first_bucket i fromBucket (Z.to_nat (toBucket - fromBucket + 1)).

Definition appendBlock (i : blockHeightIndex) (prevTopOffset newTopOffset : Z) (newBlock : BlockPairContainer)
    : outcome persistence_error blockHeightIndex :=
  let newBlockHeight := rx_height newBlock in
  let numTxReceipts := rxh_NumTransactionReceipts (rxb_Header (bpc_ResultsBlock newBlock)) in
  let blockTs := rx_time newBlock in
  match heightOffset i !! u64_add (topBlockHeight i) 1 with
  | None => Err ErrIndexOffset
  | Some currentTopOffset =>
      if negb (currentTopOffset =? prevTopOffset) then Err ErrIndexOffset
      else
        let bucket := blockTsBucketKey blockTs in
        let firstInBucket :=
          if (0 <? numTxReceipts) && bool_decide (firstBlockInTsBucket i !! bucket = None)
          then <[bucket := newBlockHeight]> (firstBlockInTsBucket i)
          else firstBlockInTsBucket i in
        Ok (mkIndex (<[u64_add newBlockHeight 1 := newTopOffset]> (heightOffset i)) firstInBucket
              (Some newBlock) newBlockHeight)
  end.

(** ** The persistence (file_system_persistence.go, block_writer.go) *)

Record FilePersistenceConfig := mkFileConfig {
  NetworkType : Z;
  VirtualChainId : Z;
  BlockStorageFileSystemMaxBlockSizeInBytes : Z
}.

(** [fs_file] is the content of the blocks file, [fs_pos] the offset of the writer. *)
Record FileBlockPersistence := mkFilePersistence {
  fs_config : FilePersistenceConfig;
  bhIndex : blockHeightIndex;
  fs_tracker : BlockTracker;
  fs_codec : codec;
  fs_file : bytes;
  fs_pos : Z
}.

(** [Write] at an offset: the bytes there are replaced, the file grows at its end, and
    a gap reads as zeros. *)
Definition write_at (file : bytes) (pos : Z) (data : bytes) : bytes :=
  let pos := Z.to_nat pos in
  take pos file ++ replicate (pos - length file) 0 ++ data ++ drop (pos + length data) file.

Section FilePersistence.
Context `{Membuffers, MembuffersReaders}.
Implicit Types f : FileBlockPersistence.

(** The file after the write, the offset, and the result. *)
Definition writeBlock (c : codec) (file : bytes) (pos : Z) (blockPair : BlockPairContainer)
    : bytes * Z * outcome persistence_error Z :=
  let '(data, written) := encode c blockPair in
  (write_at file pos data, pos + Z.of_nat (length data),
   match written with Ok n => Ok n | Err _ => Err ErrWrite | Panic => Panic end).

Definition file_WriteNextBlock f (blockPair : BlockPairContainer)
    : FileBlockPersistence * outcome persistence_error (bool * Z) :=
  let bh := rx_height blockPair in
  let currentTop := topBlockHeight (bhIndex f) in
  if negb (bh =? u64_add currentTop 1) then (f, Ok (false, currentTop))
  else
    let '(file, pos, written) := writeBlock (fs_codec f) (fs_file f) (fs_pos f) blockPair in
    let f' := mkFilePersistence (fs_config f) (bhIndex f) (fs_tracker f) (fs_codec f) file pos in
    match written with
    | Ok n =>
        match (let! startPos := fetchBlockOffset (bhIndex f) bh in
               appendBlock (bhIndex f) startPos (startPos + n) blockPair) with
        | Ok index =>
            match IncrementTo (fs_tracker f) bh with
            | Ok tracker =>
                (mkFilePersistence (fs_config f) index tracker (fs_codec f) file pos, Ok (true, bh))
            | _ => (mkFilePersistence (fs_config f) index (fs_tracker f) (fs_codec f) file pos, Panic)
            end
        | Err e => (f', Err e)
        | Panic => (f', Panic)
        end
    | Err e => (f', Err e)
    | Panic => (f', Panic)
    end.

(** The inner loop of [ScanBlocks]: a page, what is left to read, and whether the end
    of the file was met. *)
Fixpoint read_page (c : codec) (n : nat) (reader : bytes) (page : list BlockPairContainer)
    : outcome persistence_error (list BlockPairContainer * bytes * bool) :=
  match n with
  | O => Ok (page, reader, false)
  | S n' =>
      match decode c reader with
      | Ok (aBlock, _, reader') => read_page c n' reader' (page ++ [aBlock])
      | Err EOF | Err ErrUnexpectedEOF => Ok (page, reader, true)
      | Err _ => Err ErrDecode
      | Panic => Panic
      end
  end.

(** The outer loop; only a page size of zero, which never ends it, uses up the fuel
    [file_ScanBlocks] gives. *)
Fixpoint scan_file {S} (fuel : nat) (c : codec) (reader : bytes) (pageSize : Z) (cursor : CursorFunc S) (s : S)
    : outcome persistence_error S :=
  match fuel with
  | O => Panic
  | Datatypes.S fuel' =>
      let! out := read_page c (Z.to_nat pageSize) reader [] in
      let '(page, reader', eof) := out in
      let! out :=
        match page with
        | [] => Ok (s, true)
        | b :: _ => cursor (rx_height b) page s
        end in
      let '(s', wantNext) := out in
      if (wantNext : bool) && negb eof then scan_file fuel' c reader' pageSize cursor s' else Ok s'
  end.

Definition file_ScanBlocks {S} f (from pageSize : Z) (cursor : CursorFunc S) (s : S) : outcome persistence_error S :=
  if topBlockHeight (bhIndex f) <? from then Err ErrUnknownHeight
  else
    let! initialOffset := fetchBlockOffset (bhIndex f) from in
    let reader := drop (Z.to_nat initialOffset) (fs_file f) in
    scan_file (Datatypes.S (length reader)) (fs_codec f) reader pageSize cursor s.

Definition file_GetLastBlockHeight f : outcome persistence_error Z := Ok (topBlockHeight (bhIndex f)).

Definition file_GetLastBlock f : outcome persistence_error (option BlockPairContainer) := Ok (topBlock (bhIndex f)).

(** A missing block is a [nil] pointer, which the callers dereference. *)
Definition getBlockAtHeight f (height : Z) : outcome persistence_error (option BlockPairContainer) :=
  file_ScanBlocks f height 1
    (fun _ page (_ : option BlockPairContainer) =>
       match page with b :: _ => Ok (Some b, false) | [] => Panic end) None.

Definition file_GetTransactionsBlock f (height : Z) : outcome persistence_error TransactionsBlockContainer :=
  let! bpc := getBlockAtHeight f height in
  match bpc with Some b => Ok (bpc_TransactionsBlock b) | None => Panic end.

Definition file_GetResultsBlock f (height : Z) : outcome persistence_error ResultsBlockContainer :=
  let! bpc := getBlockAtHeight f height in
  match bpc with Some b => Ok (bpc_ResultsBlock b) | None => Panic end.

Definition by_tx_cursor (txHash : bytes) (minBlockTs maxBlockTs : Z) : CursorFunc (option (BlockPairContainer * nat)) :=
  fun _ page found =>
    match page with
    | [] => Panic
    | b :: _ =>
        if maxBlockTs <? rx_time b then Ok (found, false)
        else if rx_time b <? minBlockTs then Ok (found, true)
        else match receipt_index txHash b with
             | Some i => Ok (Some (b, i), false)
             | None => Ok (found, true)
             end
    end.

Definition file_GetBlockByTx f (txHash : bytes) (minBlockTs maxBlockTs : Z)
    : outcome persistence_error (option (BlockPairContainer * nat)) :=
  match getEarliestTxBlockInBucketForTsRange (bhIndex f) minBlockTs maxBlockTs with
  | None => Ok None
  | Some scanFrom => file_ScanBlocks f scanFrom 1 (by_tx_cursor txHash minBlockTs maxBlockTs) None
  end.

#[export] Instance file_persistence : BlockPersistence FileBlockPersistence := {
  WriteNextBlock := file_WriteNextBlock;
  ScanBlocks := @file_ScanBlocks;
  GetLastBlockHeight := file_GetLastBlockHeight;
  GetLastBlock := file_GetLastBlock;
  GetTransactionsBlock := file_GetTransactionsBlock;
  GetResultsBlock := file_GetResultsBlock;
  GetBlockByTx := file_GetBlockByTx;
  GetBlockTracker := fs_tracker
}.

(** ** Starting on a file *)

(** The file, with a header when it was empty, and the offset of the first block. *)
Definition validateFileHeader (file : bytes) (conf : FilePersistenceConfig) : outcome persistence_error (bytes * Z) :=
  let file :=
    if (length file =? 0)%nat
    then file_header_write (newBlocksFileHeader (wrap 32 (NetworkType conf)) (wrap 32 (VirtualChainId conf)))
    else file in
  match file_header_read file with
  | Ok (header, rest) =>
      if negb (fh_NetworkType header =? wrap 32 (NetworkType conf)) then Err ErrOpen
      else if negb (fh_ChainId header =? wrap 32 (VirtualChainId conf)) then Err ErrOpen
      else Ok (file, Z.of_nat (length file) - Z.of_nat (length rest))
  | Err _ => Err ErrOpen
  | Panic => Panic
  end.

(** The loop of [buildIndex], up to the end of the file or the first invalid record;
    a block is never empty, so the length of the file is enough fuel. *)
Fixpoint build_index (fuel : nat) (c : codec) (r : bytes) (offset : Z) (index : blockHeightIndex)
    : outcome persistence_error blockHeightIndex :=
  match fuel with
  | O => Ok index
  | S fuel' =>
      match decode c r with
      | Ok (aBlock, blockSize, r') =>
          let! index := appendBlock index offset (offset + blockSize) aBlock in
          build_index fuel' c r' (offset + blockSize) index
      | Err _ => Ok index
      | Panic => Panic
      end
  end.

Definition buildIndex (r : bytes) (firstBlockOffset : Z) (c : codec) : outcome persistence_error blockHeightIndex :=
  build_index (S (length r)) c r firstBlockOffset (newBlockHeightIndex firstBlockOffset).

(** Locks and sizes for metrics apart. *)
Definition NewFilePersistence (conf : FilePersistenceConfig) (file : bytes)
    : outcome persistence_error FileBlockPersistence :=
  let c := newCodec (BlockStorageFileSystemMaxBlockSizeInBytes conf) in
  let! out := validateFileHeader file conf in
  let '(file, blocksOffset) := out in
  let! index := buildIndex (drop (Z.to_nat blocksOffset) file) blocksOffset c in
  let! nextBlockOffset := fetchTopOffset index in
  Ok (mkFilePersistence conf index (NewBlockTracker (topBlockHeight index) 5) c file nextBlockOffset).
End FilePersistence.

(** ** The file-system persistence keeps the contract *)

Section Laws.
Context `{MembuffersLaws}.
Implicit Types f : FileBlockPersistence.

Definition enc (c : codec) (b : BlockPairContainer) : bytes := fst (encode c b).

(** The blocks of a chain in the file. *)
Definition enc_chain (c : codec) (chain : list BlockPairContainer) : bytes := concat (map (enc c) chain).

Definition fileHeaderSize : Z := 20.

(** Offsets of the index: one for every block and one for the next. *)
Definition index_offsets (c : codec) (chain : list BlockPairContainer) (index : blockHeightIndex) : Prop :=
  forall i, (i <= length chain)%nat ->
    heightOffset index !! (Z.of_nat i + 1) = Some (fileHeaderSize + Z.of_nat (length (enc_chain c (take i chain)))).

(** The height of the first block of a bucket that has receipts. *)
Definition in_bucket (bucket : Z) (b : BlockPairContainer) : bool :=
  (0 <? rxh_NumTransactionReceipts (rxb_Header (bpc_ResultsBlock b))) && (blockTsBucketKey (rx_time b) =? bucket).

Definition first_in_bucket (chain : list BlockPairContainer) (bucket : Z) : option Z :=
  (fun x => Z.of_nat x.1 + 1) <$> list_find (fun b => in_bucket bucket b = true) chain.

Record index_of (c : codec) (chain : list BlockPairContainer) (index : blockHeightIndex) : Prop := {
  io_offsets : index_offsets c chain index;
  io_top : topBlock index = last chain;
  io_height : topBlockHeight index = top chain;
  io_buckets : forall bucket, firstBlockInTsBucket index !! bucket = first_in_bucket chain bucket
}.

Record file_holds f (chain : list BlockPairContainer) : Prop := {
  fh_chain : chain_ok chain;
  fh_file : exists header, length header = Z.to_nat fileHeaderSize /\ fs_file f = header ++ enc_chain (fs_codec f) chain;
  fh_pos : fs_pos f = Z.of_nat (length (fs_file f));
  fh_index : index_of (fs_codec f) chain (bhIndex f);
  fh_tracker : currentHeight (fs_tracker f) = top chain;
  fh_blocks : Forall (decodable (fs_codec f)) chain
}.

(** A codec is fixed for the life of a persistence. *)
Definition file_holds_with (c : codec) f chain : Prop := fs_codec f = c /\ file_holds f chain.

Lemma enc_chain_app c chain1 chain2 : enc_chain c (chain1 ++ chain2) = enc_chain c chain1 ++ enc_chain c chain2.
Proof. unfold enc_chain. by rewrite map_app, concat_app. Qed.

Lemma enc_nonempty c b : (length (enc c b) <> 0)%nat.
Proof.
  unfold enc, encode. pose proof (block_body_length b) as Hl.
  pose proof (chunks_size_nonneg (fixed_messages b)). pose proof (chunks_size_nonneg (receipt_messages b)).
  pose proof (chunks_size_nonneg (diff_messages b)). pose proof (chunks_size_nonneg (tx_messages b)).
  unfold payload_size, blockHeaderSize, checksumSize in Hl.
  case_match; cbn [fst]; rewrite ?length_app; lia.
Qed.

Lemma decode_enc c b rest :
  decodable c b -> decode c (enc c b ++ rest) = Ok (b, Z.of_nat (length (enc c b)), rest).
Proof. apply decode_encode_app. Qed.

Lemma decode_nil c : decode c [] = Err EOF.
Proof. done. Qed.

Lemma encode_decodable c b : decodable c b -> encode c b = (enc c b, Ok (Z.of_nat (length (enc c b)))).
Proof.
  intros Hdec. unfold enc. destruct (encode_Ok c b Hdec) as (_ & _ & ->). cbn [fst].
  do 2 f_equal. rewrite length_app, u32_bytes_length. lia.
Qed.

Lemma first_in_bucket_snoc chain b bucket :
  first_in_bucket (chain ++ [b]) bucket =
  match first_in_bucket chain bucket with
  | Some h => Some h
  | None => if in_bucket bucket b then Some (Z.of_nat (length chain) + 1) else None
  end.
Proof.
  unfold first_in_bucket. destruct (list_find _ chain) as [[i x]|] eqn:E.
  - by rewrite (list_find_app_l _ _ _ _ _ E).
  - rewrite (list_find_app_r _ _ _ E). simpl. destruct (decide (in_bucket bucket b = true)) as [Hin|Hin].
    + by rewrite Hin.
    + apply not_true_is_false in Hin. by rewrite Hin.
Qed.

(** Adding a block to the index of a chain. *)
Lemma appendBlock_index c chain index b :
  index_of c chain index -> rx_height b = top chain + 1 -> top chain + 1 < 2 ^ 63 ->
  let offset := fileHeaderSize + Z.of_nat (length (enc_chain c chain)) in
  exists index', appendBlock index offset (offset + Z.of_nat (length (enc c b))) b = Ok index' /\
    index_of c (chain ++ [b]) index'.
Proof.
  intros [Ho Ht Hh Hbk] Hb Hsmall offset. unfold appendBlock. unfold top in *.
  assert (heightOffset index !! (Z.of_nat (length chain) + 1) = Some offset) as Hcur.
  { rewrite (Ho (length chain)) by lia. by rewrite take_ge by lia. }
  rewrite Hh, u64_add_small, Hcur, Z.eqb_refl by lia. cbn [negb]. eexists. split; [done|].
  split; cbn [heightOffset topBlock topBlockHeight firstBlockInTsBucket].
  - intros i Hi. cbn [heightOffset]. rewrite length_app in Hi. simpl in Hi. rewrite Hb, u64_add_small by lia.
    destruct (decide (i = S (length chain))) as [->|Hne].
    + replace (Z.of_nat (S (length chain)) + 1) with (Z.of_nat (length chain) + 1 + 1) by lia.
      rewrite lookup_insert_eq, take_ge by (rewrite length_app; simpl; lia).
      rewrite enc_chain_app, length_app. unfold enc_chain at 2. simpl. rewrite app_nil_r. unfold offset. f_equal. lia.
    + rewrite lookup_insert_ne by lia. rewrite take_app_le by lia. apply Ho. lia.
  - by rewrite last_snoc.
  - unfold top. rewrite Hb, length_app. simpl. lia.
  - intros bucket. rewrite first_in_bucket_snoc, <- Hbk, Hb.
    unfold in_bucket. destruct (0 <? _); cbn [andb]; [|by destruct (firstBlockInTsBucket index !! bucket)].
    destruct (Z.eqb_spec (blockTsBucketKey (rx_time b)) bucket) as [<-|Hne].
    + case_bool_decide as Hnone; [by rewrite lookup_insert_eq, Hnone|].
      by destruct (firstBlockInTsBucket index !! blockTsBucketKey (rx_time b)).
    + case_bool_decide; [rewrite lookup_insert_ne by done|]; by destruct (firstBlockInTsBucket index !! bucket).
Qed.

Lemma write_at_end file data : write_at file (Z.of_nat (length file)) data = file ++ data.
Proof.
  unfold write_at. rewrite Nat2Z.id, take_ge, Nat.sub_diag, drop_ge by lia. simpl. by rewrite app_nil_r.
Qed.

Lemma enc_chain_snoc c chain b : enc_chain c (chain ++ [b]) = enc_chain c chain ++ enc c b.
Proof. rewrite enc_chain_app. unfold enc_chain at 2. simpl. by rewrite app_nil_r. Qed.

(** Writing the next block of a chain. *)
Lemma file_write_next f chain b :
  file_holds f chain -> decodable (fs_codec f) b -> pair_at (length chain) b -> top chain + 1 < 2 ^ 63 ->
  exists f', file_WriteNextBlock f b = (f', Ok (true, top chain + 1)) /\ file_holds f' (chain ++ [b]) /\
    fs_codec f' = fs_codec f.
Proof.
  intros [Hok (header & Hhl & Hf) Hpos Hidx Htr Hbl] Hdec [Htx Hrx] Hsmall.
  assert (rx_height b = top chain + 1) as Hrx' by (unfold top; lia).
  unfold file_WriteNextBlock. rewrite (io_height _ _ _ Hidx), u64_add_small by (unfold top in *; lia).
  lia_if. unfold writeBlock. rewrite (encode_decodable _ _ Hdec).
  destruct (appendBlock_index _ _ _ b Hidx Hrx' Hsmall) as (index' & Happ & Hidx').
  assert (fetchBlockOffset (bhIndex f) (rx_height b)
          = Ok (fileHeaderSize + Z.of_nat (length (enc_chain (fs_codec f) chain)))) as Hoff.
  { unfold fetchBlockOffset. rewrite Hrx'. unfold top. rewrite (io_offsets _ _ _ Hidx) by lia. by rewrite take_ge by lia. }
  rewrite Hoff. cbn [bindO]. rewrite Happ.
  rewrite IncrementTo_next by (rewrite Htr, u64_add_small by (unfold top in *; lia); done).
  eexists. split; [by rewrite Hrx'|]. split; [|done].
  rewrite Hpos, write_at_end. split; cbn [fs_file fs_codec fs_pos bhIndex fs_tracker currentHeight].
  - by apply chain_ok_app.
  - exists header. split; [done|]. by rewrite enc_chain_snoc, Hf, app_assoc.
  - rewrite length_app. lia.
  - done.
  - unfold top in *. rewrite length_app. simpl. lia.
  - by apply Forall_app_2; [|apply Forall_singleton].
Qed.

(** Scanning the blocks of a chain from a reader placed before them. *)
Lemma scan_file_each {S} c blocks (cursor : CursorFunc S) fuel from s :
  Forall (decodable c) blocks -> (forall i b, blocks !! i = Some b -> rx_height b = from + Z.of_nat i) ->
  (length blocks < fuel)%nat ->
  scan_file fuel c (enc_chain c blocks) 1 cursor s = scan_each cursor from blocks s.
Proof.
  intros Hdec. revert from s fuel. induction Hdec as [|b blocks Hb Hdec IH]; intros from s fuel Hh Hfuel.
  - destruct fuel; [simpl in Hfuel; lia|]. done.
  - destruct fuel as [|fuel]; [simpl in Hfuel; lia|]. change (enc_chain c (b :: blocks)) with (enc c b ++ enc_chain c blocks).
    cbn [scan_file]. change (Z.to_nat 1) with 1%nat. cbn [read_page]. rewrite (decode_enc _ _ _ Hb). cbn [app bindO].
    rewrite (Hh 0%nat b eq_refl), Z.add_0_r. cbn [scan_each].
    destruct (cursor from [b] s) as [[s' wantNext]| |]; [|done..]. cbn [bindO].
    destruct wantNext; cbn [andb negb]; [|done]. apply IH; [|simpl in Hfuel; lia].
    intros i b' Hi. rewrite (Hh (Datatypes.S i) b' Hi). lia.
Qed.

Lemma file_scan_from {S} f chain from (cursor : CursorFunc S) s :
  file_holds f chain -> 1 <= from <= top chain ->
  file_ScanBlocks f from 1 cursor s = scan_each cursor from (drop (Z.to_nat (from - 1)) chain) s.
Proof.
  intros [[Hlen Hat] (header & Hhl & Hf) Hpos Hidx Htr Hbl] Hfrom. unfold top in *.
  unfold file_ScanBlocks. rewrite (io_height _ _ _ Hidx). unfold top. lia_if.
  unfold fetchBlockOffset. set (k := Z.to_nat (from - 1)).
  replace from with (Z.of_nat k + 1) at 1 by lia. rewrite (io_offsets _ _ _ Hidx) by lia. cbn [bindO].
  replace (drop _ (fs_file f)) with (enc_chain (fs_codec f) (drop k chain)).
  2: { rewrite Hf.
       replace (enc_chain (fs_codec f) chain)
         with (enc_chain (fs_codec f) (take k chain) ++ enc_chain (fs_codec f) (drop k chain))
         by by rewrite <- enc_chain_app, take_drop.
       rewrite app_assoc, drop_app_length'; [done|]. rewrite length_app, Hhl. unfold fileHeaderSize. lia. }
  apply scan_file_each.
  - by apply Forall_drop.
  - intros i b Hi. rewrite lookup_drop in Hi. apply Hat in Hi as [_ ->]. lia.
  - rewrite <- Nat.le_succ_l. apply le_n_S. clear -H1. induction (drop k chain) as [|b blocks IH]; [simpl; lia|].
    change (enc_chain (fs_codec f) (b :: blocks)) with (enc (fs_codec f) b ++ enc_chain (fs_codec f) blocks).
    rewrite length_app. pose proof (enc_nonempty (fs_codec f) b). simpl. lia.
Qed.

Lemma file_block_at f chain h b :
  file_holds f chain -> 1 <= h -> chain !! Z.to_nat (h - 1) = Some b -> getBlockAtHeight f h = Ok (Some b).
Proof.
  intros Hf Hh Hb. unfold getBlockAtHeight. pose proof (lookup_lt_Some _ _ _ Hb).
  rewrite (file_scan_from _ _ _ _ _ Hf) by (unfold top; lia). by rewrite (drop_S _ _ _ Hb).
Qed.

#[export] Instance file_persistence_laws c :
  BlockPersistenceLaws FileBlockPersistence (file_holds_with c) (decodable c).
Proof.
  split.
  - by intros f chain [_ [Hok _ _ _ _ _]].
  - intros f chain b [<- Hf] Hdec Hb Hsmall. destruct (file_write_next f chain b Hf Hdec Hb Hsmall) as (f' & ? & ? & ?).
    by exists f'.
  - intros f chain b [_ [Hok _ _ Hidx _ _]] Heq Hne. cbn. unfold file_WriteNextBlock.
    destruct Hok as [Hlen _]. rewrite (io_height _ _ _ Hidx). unfold top in *.
    words. by lia_if.
  - intros S f chain from cursor s [_ Hf] Hfrom. by apply file_scan_from.
  - intros S f chain from cursor s [_ [_ _ _ Hidx _ _]] Hfrom. cbn. unfold file_ScanBlocks.
    rewrite (io_height _ _ _ Hidx). by lia_if.
  - intros f chain [_ [_ _ _ Hidx _ _]]. cbn. unfold file_GetLastBlockHeight. by rewrite (io_height _ _ _ Hidx).
  - intros f chain [_ [_ _ _ Hidx _ _]]. cbn. unfold file_GetLastBlock. by rewrite (io_top _ _ _ Hidx).
  - intros f chain h b [_ Hf] Hh Hb. cbn. unfold file_GetTransactionsBlock. by rewrite (file_block_at _ _ _ _ Hf Hh Hb).
  - intros f chain h b [_ Hf] Hh Hb. cbn. unfold file_GetResultsBlock. by rewrite (file_block_at _ _ _ _ Hf Hh Hb).
  - intros f chain h [_ [_ _ _ Hidx _ _]] Hh. cbn. unfold file_GetResultsBlock, getBlockAtHeight, file_ScanBlocks.
    rewrite (io_height _ _ _ Hidx). lia_if. by eexists.
  - by intros f chain [_ [_ _ _ _ Htr _]].
Qed.

(** ** Starting again *)

(** The index rebuilt from the blocks of a chain, with anything that is not a block
    after them. *)
Lemma build_index_chain c blocks junk fuel chain index :
  Forall (decodable c) blocks -> (exists e, decode c junk = Err e) ->
  (length blocks < fuel)%nat -> index_of c chain index ->
  (forall i b, blocks !! i = Some b -> rx_height b = top chain + Z.of_nat i + 1) ->
  top (chain ++ blocks) < 2 ^ 63 ->
  exists index', build_index fuel c (enc_chain c blocks ++ junk)
    (fileHeaderSize + Z.of_nat (length (enc_chain c chain))) index = Ok index' /\
    index_of c (chain ++ blocks) index'.
Proof.
  intros Hdec [e Hjunk]. revert fuel chain index.
  induction Hdec as [|b blocks Hb Hdec IH]; intros fuel chain index Hfuel Hidx Hh Hsmall;
    (destruct fuel as [|fuel]; [simpl in Hfuel; lia|]); cbn [build_index].
  - cbn [enc_chain map concat app]. rewrite Hjunk. exists index. by rewrite app_nil_r.
  - change (enc_chain c (b :: blocks)) with (enc c b ++ enc_chain c blocks).
    rewrite <- app_assoc, (decode_enc _ _ _ Hb).
    assert (rx_height b = top chain + 1) as Hrx by (rewrite (Hh 0%nat b eq_refl); lia).
    unfold top in Hsmall. rewrite length_app in Hsmall. simpl in Hsmall.
    destruct (appendBlock_index c chain index b Hidx Hrx) as (index' & -> & Hidx'); [unfold top; lia|].
    cbn [bindO].
    replace (fileHeaderSize + Z.of_nat (length (enc_chain c chain)) + Z.of_nat (length (enc c b)))
      with (fileHeaderSize + Z.of_nat (length (enc_chain c (chain ++ [b]))))
      by (rewrite enc_chain_snoc, length_app; lia).
    destruct (IH fuel (chain ++ [b]) index') as (index2 & Hbuild & Hidx2).
    + simpl in Hfuel. lia.
    + done.
    + intros i b' Hi. rewrite (Hh (S i) b' Hi). unfold top. rewrite length_app. simpl. lia.
    + unfold top. rewrite !length_app. simpl. lia.
    + exists index2. rewrite <- app_assoc in Hidx2. done.
Qed.

Lemma enc_chain_length c blocks : (length blocks <= length (enc_chain c blocks))%nat.
Proof.
  induction blocks as [|b blocks IH]; [simpl; lia|].
  change (enc_chain c (b :: blocks)) with (enc c b ++ enc_chain c blocks).
  rewrite length_app. pose proof (enc_nonempty c b). simpl. lia.
Qed.

Lemma file_header_length networkType vchainId :
  length (file_header_write (newBlocksFileHeader networkType vchainId)) = 20%nat.
Proof. unfold file_header_write, file_header_raw. by rewrite !length_app, !u32_bytes_length. Qed.

Lemma start_on_file conf chain junk :
  let c := newCodec (BlockStorageFileSystemMaxBlockSizeInBytes conf) in
  let header := file_header_write (newBlocksFileHeader (NetworkType conf) (VirtualChainId conf)) in
  is_u32 (NetworkType conf) -> is_u32 (VirtualChainId conf) ->
  chain_ok chain -> Forall (decodable c) chain -> (exists e, decode c junk = Err e) ->
  exists f, NewFilePersistence conf (header ++ enc_chain c chain ++ junk) = Ok f /\
    GetLastBlock f = Ok (last chain) /\ GetLastBlockHeight f = Ok (top chain) /\
    currentHeight (GetBlockTracker f) = top chain /\
    fs_file f = header ++ enc_chain c chain ++ junk /\
    fs_pos f = Z.of_nat (length (header ++ enc_chain c chain)) /\
    (junk = [] -> file_holds f chain).
Proof.
  intros c header Hn Hv Hok Hdec Hjunk. unfold NewFilePersistence, validateFileHeader. fold c.
  pose proof (file_header_length (NetworkType conf) (VirtualChainId conf)) as Hhl. fold header in Hhl.
  rewrite length_app, Hhl. cbn [Nat.add Nat.eqb].
  rewrite (file_header_read_write _ _ _ Hn Hv). unfold is_u32 in *.
  cbn [newBlocksFileHeader fh_NetworkType fh_ChainId]. rewrite !wrap_small, !Z.eqb_refl by lia. cbn [negb bindO].
  rewrite length_app, Hhl.
  replace (Z.of_nat (20 + length (enc_chain c chain ++ junk)) - Z.of_nat (length (enc_chain c chain ++ junk)))
    with fileHeaderSize by (unfold fileHeaderSize; lia).
  rewrite (drop_app_length' header) by (rewrite Hhl; done). unfold buildIndex.
  destruct (build_index_chain c chain junk (S (length (enc_chain c chain ++ junk))) [] (newBlockHeightIndex fileHeaderSize))
    as (index & Hbuild & Hidx).
  - done.
  - done.
  - rewrite length_app. pose proof (enc_chain_length c chain). lia.
  - split; [|done|done|done]. intros i Hi. simpl in Hi. replace i with 0%nat by lia. done.
  - intros i b Hi. apply (proj2 Hok) in Hi as [_ ->]. unfold top. simpl. lia.
  - apply Hok.
  - cbn [enc_chain map concat length] in Hbuild. rewrite Z.add_0_r in Hbuild. rewrite Hbuild. cbn [bindO].
    unfold fetchTopOffset, fetchBlockOffset. rewrite app_nil_l in Hidx. rewrite (io_height _ _ _ Hidx).
    destruct Hok as [Hlen Hat]. unfold top. words.
    rewrite (io_offsets _ _ _ Hidx), take_ge by lia. cbn [bindO]. eexists. split; [done|].
    split_and!.
    + change (Ok (topBlock index) = @Ok persistence_error _ (last chain)). by rewrite (io_top _ _ _ Hidx).
    + change (Ok (topBlockHeight index) = @Ok persistence_error _ (top chain)). by rewrite (io_height _ _ _ Hidx).
    + cbn. rewrite ?(io_height _ _ _ Hidx). done.
    + done.
    + rewrite length_app, Hhl. unfold fileHeaderSize. cbn [fs_pos]. lia.
    + intros ->. rewrite !app_nil_r. split; cbn [fs_file fs_codec fs_pos bhIndex fs_tracker]; try done.
      * by exists header.
      * rewrite length_app, Hhl. unfold fileHeaderSize. lia.
Qed.

(** ** Properties *)


(** ** Finding a transaction *)

Definition in_window (minBlockTs maxBlockTs : Z) (b : BlockPairContainer) : bool :=
  (rx_time b <=? maxBlockTs) && (minBlockTs <=? rx_time b).

(** Blocks in the order of their times. *)
Definition times_ascend (chain : list BlockPairContainer) : Prop :=
  forall i j b b', (i <= j)%nat -> chain !! i = Some b -> chain !! j = Some b' -> rx_time b <= rx_time b'.

Lemma times_ascend_drop chain k : times_ascend chain -> times_ascend (drop k chain).
Proof. intros Ht i j b b' Hij Hi Hj. rewrite lookup_drop in Hi, Hj. apply (Ht (k + i)%nat (k + j)%nat); done || lia. Qed.

Lemma times_ascend_head b chain : times_ascend (b :: chain) ->
  times_ascend chain /\ forall b', b' ∈ chain -> rx_time b <= rx_time b'.
Proof.
  intros Ht. split.
  - intros i j x y Hij Hi Hj. apply (Ht (S i) (S j)); done || lia.
  - intros b' [j Hj]%list_elem_of_lookup. apply (Ht 0%nat (S j)); done || lia.
Qed.

(** The scan with its early stop finds what a search of the window finds. *)
Lemma scan_by_tx txHash minTs maxTs from blocks :
  times_ascend blocks ->
  scan_each (by_tx_cursor txHash minTs maxTs) from blocks None
  = Ok (find_tx txHash (List.filter (in_window minTs maxTs) blocks)).
Proof.
  revert from. induction blocks as [|b blocks IH]; intros from Ht; [done|].
  apply times_ascend_head in Ht as [Ht Hle]. cbn [scan_each by_tx_cursor List.filter]. unfold in_window at 1.
  destruct (Z.ltb_spec maxTs (rx_time b)) as [Hgt|Hin].
  - cbn [bindO]. lia_if.
    replace (List.filter _ blocks) with (@nil BlockPairContainer); [done|]. symmetry.
    apply filter_none. intros b' Hb'. specialize (Hle b' Hb'). unfold in_window. lia.
  - destruct (Z.ltb_spec (rx_time b) minTs) as [Hlt|Hge].
    + cbn [bindO]. lia_if. by apply IH.
    + lia_if. cbn [find_tx].
      destruct (receipt_index txHash b); [done|]. cbn [bindO]. by apply IH.
Qed.

Lemma find_tx_skip txHash (p : BlockPairContainer -> bool) pre post :
  (forall b, b ∈ pre -> p b = true -> rxb_TransactionReceipts (bpc_ResultsBlock b) = []) ->
  find_tx txHash (List.filter p (pre ++ post)) = find_tx txHash (List.filter p post).
Proof.
  intros Hpre. induction pre as [|b pre IH]; [done|]. cbn [app List.filter].
  destruct (p b) eqn:Hp.
  - cbn [find_tx]. unfold receipt_index. rewrite (Hpre b) by (done || by left). simpl.
    apply IH. intros b' Hb'. apply Hpre. by right.
  - apply IH. intros b' Hb'. apply Hpre. by right.
Qed.

Lemma first_bucket_spec index bucket count :
  0 <= bucket -> bucket + Z.of_nat count < 2 ^ 32 ->
  match first_bucket index bucket count with
  | Some h => exists k, bucket <= k < bucket + Z.of_nat count /\ firstBlockInTsBucket index !! k = Some h /\
      forall k', bucket <= k' < k -> firstBlockInTsBucket index !! k' = None
  | None => forall k, bucket <= k < bucket + Z.of_nat count -> firstBlockInTsBucket index !! k = None
  end.
Proof.
  revert bucket. induction count as [|count IH]; intros bucket Hb Hsmall; cbn [first_bucket]; [intros; lia|].
  destruct (firstBlockInTsBucket index !! bucket) as [h|] eqn:E.
  - exists bucket. split_and!; [lia..|done|]. intros k' ?. lia.
  - rewrite u32_add_small by lia. specialize (IH (bucket + 1) ltac:(lia) ltac:(lia)).
    destruct (first_bucket index (bucket + 1) count) as [h|].
    + destruct IH as (k & Hk & Hlk & Hlt). exists k. split_and!; [lia..|done|].
      intros k' Hk'. destruct (decide (k' = bucket)) as [->|]; [done|]. apply Hlt. lia.
    + intros k Hk. destruct (decide (k = bucket)) as [->|]; [done|]. apply IH. lia.
Qed.

Lemma bucket_mono a b : is_u64 a -> is_u64 b -> a <= b ->
  0 <= blockTsBucketKey a <= blockTsBucketKey b /\ blockTsBucketKey b < 2 ^ 30.
Proof.
  unfold is_u64, blockTsBucketKey, minuteToNanoRatio. intros Ha Hb Hab.
  assert (a / (60 * 1000 * 1000 * 1000) <= b / (60 * 1000 * 1000 * 1000)) by (apply Z.div_le_mono; lia).
  assert (0 <= a / (60 * 1000 * 1000 * 1000)) by (apply Z.div_pos; lia).
  assert (b / (60 * 1000 * 1000 * 1000) < 2 ^ 30) by (apply Z.div_lt_upper_bound; lia).
  rewrite !wrap_small by lia. lia.
Qed.

(** Times of a chain as both headers have them. *)
Definition times_ok (chain : list BlockPairContainer) : Prop :=
  times_ascend chain /\ forall b, b ∈ chain -> tx_time b = rx_time b /\ is_u64 (rx_time b).

Lemma memory_find m chain txHash minTs maxTs :
  memory_holds m chain -> times_ok chain ->
  memory_GetBlockByTx m txHash minTs maxTs = Ok (find_tx txHash (List.filter (in_window minTs maxTs) chain)).
Proof.
  intros (Hm & _ & _) [_ Ht]. unfold memory_GetBlockByTx. rewrite Hm.
  rewrite (List.filter_ext_in _ (in_window minTs maxTs)).
  2: { intros b Hb. apply list_elem_of_In in Hb. unfold in_window. by rewrite (proj1 (Ht b Hb)). }
  destruct (List.filter (in_window minTs maxTs) chain); done.
Qed.

(** A block in the window with receipts is in a bucket of the range. *)
Lemma window_bucket c chain b minTs maxTs :
  Forall (decodable c) chain -> times_ok chain -> is_u64 minTs -> is_u64 maxTs ->
  b ∈ chain -> in_window minTs maxTs b = true ->
  let k := blockTsBucketKey (rx_time b) in
  blockTsBucketKey minTs <= k <= blockTsBucketKey maxTs /\
  (rxb_TransactionReceipts (bpc_ResultsBlock b) = [] \/ in_bucket k b = true).
Proof.
  intros Hdec [_ Ht] Hmin Hmax Hb Hw k. unfold in_window in Hw. destruct (Ht b Hb) as [_ Hu].
  destruct (bucket_mono minTs (rx_time b) Hmin Hu ltac:(lia)). destruct (bucket_mono (rx_time b) maxTs Hu Hmax ltac:(lia)).
  split; [unfold k; lia|]. rewrite Forall_forall in Hdec.
  destruct (rxb_TransactionReceipts (bpc_ResultsBlock b)) eqn:E; [by left|]. right. unfold in_bucket.
  rewrite (dec_receipts _ _ (Hdec b Hb)), E, Z.eqb_refl. simpl. lia.
Qed.

Lemma first_in_bucket_None chain k b : first_in_bucket chain k = None -> b ∈ chain -> in_bucket k b = false.
Proof.
  unfold first_in_bucket. intros Hn Hb. apply fmap_None in Hn.
  apply list_find_None in Hn. rewrite Forall_forall in Hn. by apply not_true_is_false, Hn.
Qed.

(** Looking up a transaction through the index of time buckets finds the same block
    and position as searching all blocks of the window, for every window. *)
Theorem GetBlockByTx_agrees f m chain txHash minBlockTs maxBlockTs :
  file_holds f chain -> memory_holds m chain -> times_ok chain -> is_u64 minBlockTs -> is_u64 maxBlockTs ->
  GetBlockByTx f txHash minBlockTs maxBlockTs = GetBlockByTx m txHash minBlockTs maxBlockTs.
Proof.
  intros Hf Hm Ht Hmin Hmax. cbn [GetBlockByTx file_persistence memory_persistence].
  rewrite (memory_find m chain) by done. unfold file_GetBlockByTx, getEarliestTxBlockInBucketForTsRange.
  pose proof (fh_blocks _ _ Hf) as Hdec. pose proof (io_buckets _ _ _ (fh_index _ _ Hf)) as Hbk.
  destruct (bucket_mono minBlockTs minBlockTs) as [? ?]; [done..|lia|].
  destruct (bucket_mono maxBlockTs maxBlockTs) as [? ?]; [done..|lia|].
  pose proof (first_bucket_spec (bhIndex f) (blockTsBucketKey minBlockTs)
    (Z.to_nat (blockTsBucketKey maxBlockTs - blockTsBucketKey minBlockTs + 1)) ltac:(lia) ltac:(lia)) as Hspec.
  destruct (first_bucket _ _ _) as [h|].
  - destruct Hspec as (k & Hk & Hh & Hbefore). rewrite Hbk in Hh. unfold first_in_bucket in Hh.
    apply fmap_Some in Hh as ([i b0] & Hfind & ->). cbn [fst].
    apply list_find_Some in Hfind as (Hi & Hin0 & Hfirst).
    rewrite (file_scan_from _ _ _ _ _ Hf) by (pose proof (lookup_lt_Some _ _ _ Hi); unfold top; lia).
    replace (Z.to_nat (Z.of_nat i + 1 - 1)) with i by lia.
    rewrite scan_by_tx by apply times_ascend_drop, Ht. f_equal. rewrite <- (take_drop i chain) at 2.
    symmetry. apply find_tx_skip. intros b Hb Hw. apply list_elem_of_lookup in Hb as [j Hj].
    apply lookup_take_Some in Hj as [Hj Hji].
    destruct (window_bucket _ _ b _ _ Hdec Ht Hmin Hmax (list_elem_of_lookup_2 _ _ _ Hj) Hw) as [Hkb [?|Hin]]; [done|].
    exfalso. set (kb := blockTsBucketKey (rx_time b)) in *.
    assert (kb <= k) as Hle.
    { apply andb_true_iff in Hin0 as [_ Hk0]. apply Z.eqb_eq in Hk0. rewrite <- Hk0.
      apply bucket_mono; [apply Ht; by eapply list_elem_of_lookup_2..|]. apply (proj1 Ht j i); done || lia. }
    destruct (decide (kb = k)) as [Heq|Hne].
    + apply (Hfirst j b Hj); [lia|]. by rewrite <- Heq.
    + specialize (Hbefore kb ltac:(lia)). rewrite Hbk in Hbefore.
      by rewrite (first_in_bucket_None _ _ b Hbefore (list_elem_of_lookup_2 _ _ _ Hj)) in Hin.
  - f_equal. rewrite <- (app_nil_r chain). rewrite find_tx_skip; [done|]. intros b Hb Hw.
    destruct (window_bucket _ _ b _ _ Hdec Ht Hmin Hmax Hb Hw) as [Hkb [?|Hin]]; [done|]. exfalso.
    specialize (Hspec (blockTsBucketKey (rx_time b)) ltac:(lia)). rewrite Hbk in Hspec.
    by rewrite (first_in_bucket_None _ _ b Hspec Hb) in Hin.
Qed.

(** ** A block that is too big *)

Lemma decode_too_big c b rest :
  maxBlockSize c < blockHeaderSize + payload_size b -> payload_size b < 2 ^ 32 ->
  decode c (block_body b ++ rest) = Err ErrTooBig.
Proof.
  intros Hbig Hsmall. unfold decode, block_body. rewrite <- app_assoc.
  pose proof (chunks_size_nonneg (fixed_messages b)). pose proof (chunks_size_nonneg (receipt_messages b)).
  pose proof (chunks_size_nonneg (diff_messages b)). pose proof (chunks_size_nonneg (tx_messages b)).
  unfold payload_size in *. rewrite header_read_write by
    (rewrite block_header_sizes by (unfold payload_size; lia); unfold is_u32;
     cbn [Magic Version FixedSize DiffsSize ReceiptsSize TxsSize]; done || lia).
  cbn [bindO limit]. rewrite block_header_sizes by (unfold payload_size; lia).
  unfold totalSize, u32_add. cbn [FixedSize DiffsSize ReceiptsSize TxsSize].
  rewrite (wrap_small 32 (chunks_size (fixed_messages b) + chunks_size (diff_messages b))) by lia.
  rewrite (wrap_small 32 (_ + _ + chunks_size (receipt_messages b))) by lia. rewrite wrap_small by lia.
  unfold blockHeaderSize in *. by lia_if.
Qed.

(** A block that is too big fails after its bytes are in the file and the writer has
    moved: the next good block is reported as stored but goes behind those bytes,
    and reading it back fails. *)
Theorem oversize_block_corrupts f chain big b :
  file_holds f chain -> top chain + 1 < 2 ^ 63 ->
  pair_at (length chain) big -> pair_at (length chain) b -> decodable (fs_codec f) b ->
  maxBlockSize (fs_codec f) < blockHeaderSize + payload_size big -> payload_size big < 2 ^ 32 ->
  let '(f1, failed) := WriteNextBlock f big in
  let '(f2, stored) := WriteNextBlock f1 b in
  failed = Err ErrWrite /\ stored = Ok (true, top chain + 1) /\
  GetResultsBlock f2 (top chain + 1) = Err ErrDecode.
Proof.
  intros Hf Hsmall [_ Hbig] [_ Hb] Hdec Hover Hps. cbn [WriteNextBlock file_persistence].
  assert (rx_height big = top chain + 1) as Hbig' by (unfold top; lia).
  assert (rx_height b = top chain + 1) as Hb' by (unfold top; lia).
  pose proof (io_height _ _ _ (fh_index _ _ Hf)) as Hh.
  assert (encode (fs_codec f) big = (block_body big, Err ErrTooBig)) as Henc.
  { unfold encode. pose proof (block_body_length big). unfold checksumSize in *. by lia_if. }
  destruct Hf as [Hok (header & Hhl & Hfile) Hpos Hidx Htr Hbl].
  unfold file_WriteNextBlock at 1. rewrite Hh, u64_add_small, Hbig', Z.eqb_refl by (unfold top in *; lia).
  cbn [negb]. unfold writeBlock. rewrite Henc. rewrite Hpos, write_at_end.
  unfold file_WriteNextBlock. cbn [bhIndex fs_codec fs_file fs_pos fs_tracker fs_config].
  rewrite Hh, u64_add_small, Hb', Z.eqb_refl by (unfold top in *; lia). cbn [negb]. unfold writeBlock.
  rewrite (encode_decodable _ _ Hdec).
  replace (Z.of_nat (length (fs_file f)) + Z.of_nat (length (block_body big)))
    with (Z.of_nat (length (fs_file f ++ block_body big))) by (rewrite length_app; lia).
  rewrite write_at_end.
  destruct (appendBlock_index _ _ _ b Hidx Hb' Hsmall) as (index' & Happ & Hidx').
  unfold fetchBlockOffset at 1. unfold top at 1 2. rewrite (io_offsets _ _ _ Hidx), take_ge by lia. cbn [bindO].
  rewrite Happ, IncrementTo_next by (rewrite Htr, u64_add_small by (unfold top in *; lia); done).
  split_and!; [done|done|]. cbn [GetResultsBlock file_persistence].
  unfold file_GetResultsBlock, getBlockAtHeight, file_ScanBlocks. cbn [bhIndex fs_codec fs_file].
  rewrite (io_height _ _ _ Hidx'). unfold top. rewrite length_app. simpl length.
  lia_if. unfold fetchBlockOffset.
  rewrite (io_offsets _ _ _ Hidx') by (rewrite length_app; lia).
  rewrite take_app_length. cbn [bindO].
  rewrite Hfile, <- !app_assoc, app_assoc.
  rewrite drop_app_length' by (rewrite length_app, Hhl; unfold fileHeaderSize; lia).
  cbn [scan_file]. change (Z.to_nat 1) with 1%nat. cbn [read_page].
  by rewrite decode_too_big by done.
Qed.
End Laws.

(** ** Witnesses *)

Section Witness.
#[local] Existing Instance packed_membuffers.
#[local] Existing Instance packed_readers.
#[local] Existing Instance packed_laws.

Definition file_config : FilePersistenceConfig := mkFileConfig 1 42 200.

(** Blocks with one receipt, of a transaction of the same number. *)
Definition file_block (height time : Z) : BlockPairContainer :=
  mkBlockPair
    (mkTxBlock (mkTxHeader 1 42 height [] time [] [] 0 []) [] [] (mkBlockProof ProofNone []))
    (mkRxBlock (mkRxHeader 1 42 height [] time [] [] [] [] 1 0 []) [mkReceipt [height] 1 [] []] [] (mkBlockProof ProofNone [])).

Definition file_chain : list BlockPairContainer := [file_block 1 1000; file_block 2 200000000000].
Definition file_codec : codec := newCodec 200.
Definition file_header : bytes := file_header_write (newBlocksFileHeader 1 42).

Lemma file_chain_ok : chain_ok file_chain.
Proof. split; [simpl; lia|]. intros [|[|i]] b Hb; simpl in Hb; try discriminate; by simplify_eq. Qed.

Lemma file_chain_decodable : Forall (decodable file_codec) file_chain.
Proof. repeat constructor; reflexivity || eval_Z. Qed.


Lemma file_chain_stored : exists f, file_holds f file_chain /\ fs_codec f = file_codec.
Proof.
  destruct (start_on_file file_config file_chain []) as (f & Hf & _ & _ & _ & _ & _ & Hh);
    [eval_Z|eval_Z|exact file_chain_ok|exact file_chain_decodable|by exists EOF|].
  exists f. split; [by apply Hh|]. revert Hf. unfold NewFilePersistence.
  intros (out & _ & Hf)%bindO_Ok. destruct out as [file offset].
  do 2 inv_bind Hf. by injection Hf as <-.
Qed.

Lemma file_chain_times : times_ok file_chain.
Proof.
  split.
  - intros [|[|i]] [|[|j]] b b' Hij Hi Hj; simpl in *; try discriminate; simplify_eq; cbn; lia.
  - intros b Hb%list_elem_of_In. destruct Hb as [<-|[<-|[]]]; (split; [done|eval_Z]).
Qed.

Lemma GetBlockByTx_agrees_witness :
  exists f : FileBlockPersistence, GetBlockByTx f [2] 0 300000000000 = GetBlockByTx (NewMemoryPersistence file_chain) [2] 0 300000000000
    /\ file_holds f file_chain.
Proof.
  destruct file_chain_stored as (f & Hf & _). exists f. split; [|exact Hf].
  apply (GetBlockByTx_agrees f (NewMemoryPersistence file_chain) file_chain [2] 0 300000000000 Hf
           (new_memory_holds _ file_chain_ok) file_chain_times); eval_Z.
Defined.

Definition big_block : BlockPairContainer :=
  mkBlockPair
    (mkTxBlock (mkTxHeader 1 42 3 [] 10 [] [] 0 []) (replicate 300 0) [] (mkBlockProof ProofNone []))
    (mkRxBlock (mkRxHeader 1 42 3 [] 10 [] [] [] [] 0 0 []) [] [] (mkBlockProof ProofNone [])).

Lemma oversize_block_corrupts_witness :
  exists f : FileBlockPersistence, let '(f1, failed) := WriteNextBlock f big_block in
    let '(f2, stored) := WriteNextBlock f1 (file_block 3 300000000000) in
    failed = Err ErrWrite /\ stored = Ok (true, 3) /\ GetResultsBlock f2 3 = Err ErrDecode.
Proof.
  destruct file_chain_stored as (f & Hf & Hc). exists f.
  apply (oversize_block_corrupts f file_chain big_block (file_block 3 300000000000) Hf).
  - eval_Z.
  - by split.
  - by split.
  - rewrite Hc. split; reflexivity || eval_Z.
  - rewrite Hc. eval_Z.
  - eval_Z.
Defined.
End Witness.
