(* ===== verification/PublicApi.v ===== *)
(** * The public API (services/publicapi)

    The handlers of client requests, and the waiter that hands the result of a
    transaction to the requests that wait for it, with its goroutines interleaved. *)

From stdpp Require Import base list gmap relations.
From Stdlib Require Import ZArith Lia ZifyBool.
From S2P Require Import Prelude Protocol Hash Digest BlockTracker BlockPersistence BlockStorage TransactionPool TransactionPoolService VirtualMachine.

Import VirtualMachine.

Module PublicApi.

(** ** Results (results.go) *)

Inductive RequestStatus :=
| REQUEST_STATUS_RESERVED
| REQUEST_STATUS_COMPLETED
| REQUEST_STATUS_IN_PROCESS
| REQUEST_STATUS_BAD_REQUEST
| REQUEST_STATUS_CONGESTION
| REQUEST_STATUS_SYSTEM_ERROR
| REQUEST_STATUS_OUT_OF_SYNC
| REQUEST_STATUS_NOT_FOUND.

Record txOutput := mkTxOutput {
  out_transactionStatus : TransactionStatus;
  out_transactionReceipt : option TransactionReceipt;
  out_blockHeight : Z;
  out_blockTimestamp : Z
}.

Record PublicApiConfig := mkApiConfig {
  api_VirtualChainId : Z;
  PublicApiNodeSyncWarningTime : Z
}.

Inductive api_error (E : Type) :=
| ErrNilRequest
| ErrInvalidRequest (status : TransactionStatus)
| ErrService (e : E)
| ErrWaitContext
| ErrWaitAborted.
Arguments ErrNilRequest {E}.
Arguments ErrInvalidRequest {E} status.
Arguments ErrService {E} e.
Arguments ErrWaitContext {E}.
Arguments ErrWaitAborted {E}.

(** [now] is the clock in nanoseconds. *)
Definition isOutputPotentiallyOutOfSync (config : PublicApiConfig) (now referenceBlockTimestamp : Z) : bool :=
  if referenceBlockTimestamp =? 0 then false
  else referenceBlockTimestamp <? wrap 64 (now - PublicApiNodeSyncWarningTime config).

(** The status of an invalid request. *)
Definition validateRequest (config : PublicApiConfig) (protocolVersion vcId : Z) : option TransactionStatus :=
  if negb (1 =? protocolVersion) then Some TRANSACTION_STATUS_REJECTED_UNSUPPORTED_VERSION
  else if negb (api_VirtualChainId config =? vcId) then Some TRANSACTION_STATUS_REJECTED_VIRTUAL_CHAIN_MISMATCH
  else None.

Section Results.
Context `{ArgumentArrays}.

(** [None] is [EXECUTION_RESULT_RESERVED]. *)
Definition translateExecutionStatusToRequestStatus (executionResult : option Z) : RequestStatus :=
  match executionResult with
  | None => REQUEST_STATUS_RESERVED
  | Some code =>
      if code =? execution_result_code EXECUTION_RESULT_SUCCESS then REQUEST_STATUS_COMPLETED
      else if code =? execution_result_code EXECUTION_RESULT_ERROR_SMART_CONTRACT then REQUEST_STATUS_COMPLETED
      else if code =? execution_result_code EXECUTION_RESULT_ERROR_INPUT then REQUEST_STATUS_BAD_REQUEST
      else if code =? execution_result_code EXECUTION_RESULT_ERROR_CONTRACT_NOT_DEPLOYED then REQUEST_STATUS_BAD_REQUEST
      else if code =? execution_result_code EXECUTION_RESULT_ERROR_UNEXPECTED then REQUEST_STATUS_SYSTEM_ERROR
      else REQUEST_STATUS_RESERVED
  end.

Definition translateTransactionStatusToRequestStatus (txStatus : TransactionStatus) (executionResult : option Z) : RequestStatus :=
  match txStatus with
  | TRANSACTION_STATUS_COMMITTED
  | TRANSACTION_STATUS_DUPLICATE_TRANSACTION_ALREADY_COMMITTED => translateExecutionStatusToRequestStatus executionResult
  | TRANSACTION_STATUS_PENDING
  | TRANSACTION_STATUS_DUPLICATE_TRANSACTION_ALREADY_PENDING => REQUEST_STATUS_IN_PROCESS
  | TRANSACTION_STATUS_NO_RECORD_FOUND => REQUEST_STATUS_NOT_FOUND
  | TRANSACTION_STATUS_REJECTED_UNSUPPORTED_VERSION
  | TRANSACTION_STATUS_REJECTED_VIRTUAL_CHAIN_MISMATCH
  | TRANSACTION_STATUS_REJECTED_TIMESTAMP_WINDOW_EXCEEDED
  | TRANSACTION_STATUS_REJECTED_SIGNATURE_MISMATCH
  | TRANSACTION_STATUS_REJECTED_UNKNOWN_SIGNER_SCHEME
  | TRANSACTION_STATUS_REJECTED_GLOBAL_PRE_ORDER
  | TRANSACTION_STATUS_REJECTED_VIRTUAL_CHAIN_PRE_ORDER
  | TRANSACTION_STATUS_REJECTED_SMART_CONTRACT_PRE_ORDER
  | TRANSACTION_STATUS_REJECTED_TIMESTAMP_AHEAD_OF_NODE_TIME => REQUEST_STATUS_BAD_REQUEST
  | TRANSACTION_STATUS_REJECTED_CONGESTION => REQUEST_STATUS_CONGESTION
  | TRANSACTION_STATUS_REJECTED_NODE_OUT_OF_SYNC => REQUEST_STATUS_OUT_OF_SYNC
  | TRANSACTION_STATUS_RESERVED | TRANSACTION_STATUS_PRE_ORDER_VALID => REQUEST_STATUS_RESERVED
  end.

(** What a client gets for a transaction. *)
Record TransactionResponse := mkTxResponse {
  res_RequestStatus : RequestStatus;
  res_BlockHeight : Z;
  res_BlockTimestamp : Z;
  res_TransactionStatus : TransactionStatus;
  res_TransactionReceipt : option TransactionReceipt
}.

Definition toSendTxOutput (out : txOutput) : TransactionResponse :=
  mkTxResponse
    (translateTransactionStatusToRequestStatus (out_transactionStatus out)
       (option_map tr_ExecutionResult (out_transactionReceipt out)))
    (out_blockHeight out) (out_blockTimestamp out) (out_transactionStatus out) (out_transactionReceipt out).

Definition toGetTxStatusOutput (config : PublicApiConfig) (now : Z) (out : txOutput) : TransactionResponse :=
  let status := translateTransactionStatusToRequestStatus (out_transactionStatus out)
                  (option_map tr_ExecutionResult (out_transactionReceipt out)) in
  let status :=
    match out_transactionReceipt out with
    | None => if isOutputPotentiallyOutOfSync config now (out_blockTimestamp out) then REQUEST_STATUS_OUT_OF_SYNC else status
    | Some _ => status
    end in
  mkTxResponse status (out_blockHeight out) (out_blockTimestamp out) (out_transactionStatus out) (out_transactionReceipt out).

(** ** The status of a transaction (get_transaction_status.go) *)

Section Status.
Context {E : Type}.

(** The transaction pool and the block storage: an error may come without output. *)
Variable pool_GetCommittedTransactionReceipt : bytes -> Z -> option txOutput * option E.
Variable storage_GetTransactionReceipt : bytes -> Z -> outcome E (option TransactionReceipt * Z * Z).

(** The output, the error and [done]; no output with an error is dereferenced. *)
Definition getFromTxPool (txHash : bytes) (timestamp : Z) : outcome E (option (txOutput * option E)) :=
  let '(txReceipt, err) := pool_GetCommittedTransactionReceipt txHash timestamp in
  match txReceipt with
  | None => Panic
  | Some out =>
      match err with
      | Some e => Ok (Some (out, Some e))
      | None =>
          match out_transactionStatus out with
          | TRANSACTION_STATUS_PENDING | TRANSACTION_STATUS_COMMITTED => Ok (Some (out, None))
          | _ => Ok None
          end
      end
  end.

Definition blockOutputToTxOutput (t : option TransactionReceipt * Z * Z) : txOutput :=
  let '(receipt, height, timestamp) := t in
  mkTxOutput (match receipt with Some _ => TRANSACTION_STATUS_COMMITTED | None => TRANSACTION_STATUS_NO_RECORD_FOUND end)
    receipt height timestamp.

Definition getFromBlockStorage (txHash : bytes) (timestamp : Z) : outcome E txOutput :=
  let! txReceipt := storage_GetTransactionReceipt txHash timestamp in Ok (blockOutputToTxOutput txReceipt).

(** The response, if there is one, and the error. *)
Definition getTransactionStatus (config : PublicApiConfig) (now : Z) (txHash : bytes) (txTimestamp : Z)
    : outcome E (option TransactionResponse * option E) :=
  let! pool := getFromTxPool txHash txTimestamp in
  match pool with
  | Some (out, err) => Ok (Some (toGetTxStatusOutput config now out), err)
  | None =>
      match getFromBlockStorage txHash txTimestamp with
      | Ok out => Ok (Some (toGetTxStatusOutput config now out), None)
      | Err e => Ok (None, Some e)
      | Panic => Panic
      end
  end.

Record TransactionRef := mkTxRef {
  ref_ProtocolVersion : Z;
  ref_VirtualChainId : Z;
  ref_TransactionTimestamp : Z;
  ref_Txhash : bytes
}.

Definition lift_result {A} (r : outcome E (A * option E)) : outcome (api_error E) (A * option (api_error E)) :=
  match r with
  | Ok (a, err) => Ok (a, option_map ErrService err)
  | Err e => Err (ErrService e)
  | Panic => Panic
  end.

Definition GetTransactionStatus (config : PublicApiConfig) (now : Z) (request : option TransactionRef)
    : outcome (api_error E) (option TransactionResponse * option (api_error E)) :=
  match request with
  | None => Ok (None, Some ErrNilRequest)
  | Some tx =>
      match validateRequest config (ref_ProtocolVersion tx) (ref_VirtualChainId tx) with
      | Some txStatus =>
          Ok (Some (toGetTxStatusOutput config now (mkTxOutput txStatus None 0 0)), Some (ErrInvalidRequest txStatus))
      | None => lift_result (getTransactionStatus config now (ref_Txhash tx) (ref_TransactionTimestamp tx))
      end
  end.

(** ** Receipt proofs (get_transaction_receipt_proof.go) *)

Context {Proof : Type}.
Variable storage_GenerateReceiptProof : bytes -> Z -> outcome E Proof.

(** [None] in the proof is the empty packed proof. *)
Record ProofResponse := mkProofResponse {
  proof_Response : TransactionResponse;
  proof_PackedProof : option Proof
}.

Definition toGetTxProofOutput (txStatusOutput : option TransactionResponse) (proofOutput : option Proof) : ProofResponse :=
  match txStatusOutput with
  | Some response => mkProofResponse response proofOutput
  | None =>
      mkProofResponse
        (mkTxResponse (translateTransactionStatusToRequestStatus TRANSACTION_STATUS_NO_RECORD_FOUND None) 0 0
           TRANSACTION_STATUS_NO_RECORD_FOUND None) proofOutput
  end.

Definition GetTransactionReceiptProof (config : PublicApiConfig) (now : Z) (request : option TransactionRef)
    : outcome (api_error E) (option ProofResponse * option (api_error E)) :=
  match request with
  | None => Ok (None, Some ErrNilRequest)
  | Some tx =>
      match validateRequest config (ref_ProtocolVersion tx) (ref_VirtualChainId tx) with
      | Some txStatus =>
          Ok (Some (toGetTxProofOutput (Some (toGetTxStatusOutput config now (mkTxOutput txStatus None 0 0))) None),
              Some (ErrInvalidRequest txStatus))
      | None =>
          let! status := lift_result (getTransactionStatus config now (ref_Txhash tx) (ref_TransactionTimestamp tx)) in
          match status with
          | (Some response, None) =>
              match res_TransactionStatus response with
              | TRANSACTION_STATUS_COMMITTED =>
                  match storage_GenerateReceiptProof (ref_Txhash tx) (res_BlockHeight response) with
                  | Ok proof => Ok (Some (toGetTxProofOutput (Some response) (Some proof)), None)
                  | Err e => Ok (Some (toGetTxProofOutput (Some response) None), Some (ErrService e))
                  | Panic => Panic
                  end
              | _ => Ok (Some (toGetTxProofOutput (Some response) None), None)
              end
          | (response, err) => Ok (Some (toGetTxProofOutput response None), err)
          end
      end
  end.
End Status.

(** ** Queries (run_query.go) *)

Record QueryResponse := mkQueryResponse {
  qr_RequestStatus : RequestStatus;
  qr_BlockHeight : Z;
  qr_BlockTimestamp : Z;
  qr_QueryResult : option ProcessQueryOutput
}.

Definition toRunQueryOutput (requestStatus : RequestStatus) (callOutput : option ProcessQueryOutput) : QueryResponse :=
  match callOutput with
  | None => mkQueryResponse requestStatus 0 0 None
  | Some out =>
      mkQueryResponse (translateExecutionStatusToRequestStatus (Some (execution_result_code (pq_CallResult out))))
        (pq_ReferenceBlockHeight out) (pq_ReferenceBlockTimestamp out) (Some out)
  end.

Record ClientQuery := mkClientQuery { q_ProtocolVersion : Z; q_VirtualChainId : Z; q_Query : TransactionOrQuery }.

(** [ProcessQuery] is called with height zero, the recent one. *)
Definition RunQuery {E} (ProcessQuery : Z -> TransactionOrQuery -> option ProcessQueryOutput * option E)
    (config : PublicApiConfig) (request : option ClientQuery) : option QueryResponse * option (api_error E) :=
  match request with
  | None => (None, Some ErrNilRequest)
  | Some query =>
      match validateRequest config (q_ProtocolVersion query) (q_VirtualChainId query) with
      | Some txStatus => (Some (toRunQueryOutput REQUEST_STATUS_BAD_REQUEST None), Some (ErrInvalidRequest txStatus))
      | None =>
          let '(callOutput, err) := ProcessQuery 0 (q_Query query) in
          (Some (toRunQueryOutput REQUEST_STATUS_RESERVED callOutput), option_map ErrService err)
      end
  end.

(** ** Blocks (get_block.go) *)

(** The containers of the block, in the response. *)
Record BlockResponse := mkBlockResponse {
  br_RequestStatus : RequestStatus;
  br_BlockHeight : Z;
  br_BlockTimestamp : Z;
  br_Block : option BlockPairContainer
}.

Definition toGetBlockErrOutput (status : RequestStatus) (height nano : Z) : BlockResponse :=
  mkBlockResponse status height nano None.

Definition toGetBlockOutput (bpc : BlockPairContainer) : BlockResponse :=
  let header := txb_Header (bpc_TransactionsBlock bpc) in
  mkBlockResponse REQUEST_STATUS_COMPLETED (txh_BlockHeight header) (txh_Timestamp header) (Some bpc).

Section Blocks.
Context {E : Type}.
Variable storage_GetBlockPair : Z -> outcome E (option BlockPairContainer).
Variable storage_GetLastCommittedBlockHeight : outcome E (Z * Z).

Definition toGetBlockErrOutputAddHeight (status : RequestStatus) : outcome E (BlockResponse * option E) :=
  match storage_GetLastCommittedBlockHeight with
  | Ok (height, timestamp) => Ok (toGetBlockErrOutput status height timestamp, None)
  | Err e => Ok (toGetBlockErrOutput REQUEST_STATUS_SYSTEM_ERROR 0 0, Some e)
  | Panic => Panic
  end.

Record BlockRequest := mkBlockRequest { bq_ProtocolVersion : Z; bq_VirtualChainId : Z; bq_BlockHeight : Z }.

Definition GetBlock (config : PublicApiConfig) (request : option BlockRequest)
    : outcome (api_error E) (option BlockResponse * option (api_error E)) :=
  match request with
  | None => Ok (None, Some ErrNilRequest)
  | Some request =>
      match validateRequest config (bq_ProtocolVersion request) (bq_VirtualChainId request) with
      | Some txStatus =>
          Ok (Some (toGetBlockErrOutput REQUEST_STATUS_BAD_REQUEST 0 0), Some (ErrInvalidRequest txStatus))
      | None =>
          let some_response r := match r with
                                 | Ok (response, err) => Ok (Some response, option_map ErrService err)
                                 | Err e => Err (ErrService e)
                                 | Panic => Panic
                                 end in
          if bq_BlockHeight request =? 0 then some_response (toGetBlockErrOutputAddHeight REQUEST_STATUS_BAD_REQUEST)
          else match storage_GetBlockPair (bq_BlockHeight request) with
               | Err e => Ok (Some (toGetBlockErrOutput REQUEST_STATUS_SYSTEM_ERROR 0 0), Some (ErrService e))
               | Panic => Panic
               | Ok None => some_response (toGetBlockErrOutputAddHeight REQUEST_STATUS_NOT_FOUND)
               | Ok (Some bpc) => Ok (Some (toGetBlockOutput bpc), None)
               end
      end
  end.
End Blocks.
End Results.

(** ** The waiter (waiter.go) *)

(** A channel with a buffer for one value. *)
Record waiterChannel := mkWaiterChannel { wc_k : bytes; wc_value : option txOutput; wc_closed : bool }.

(** Channels are named by numbers: [w_m] are the channels of each key, [w_channels]
    their states. *)
Record waiter := mkWaiter {
  w_m : gmap bytes (list nat);
  w_channels : gmap nat waiterChannel;
  w_next : nat
}.

Definition newWaiter : waiter := mkWaiter ∅ ∅ 0.

Definition add (w : waiter) (k : bytes) : waiter * nat :=
  let wc := w_next w in
  let wcs := default [] (w_m w !! k) in
  (mkWaiter (<[k := wcs ++ [wc]]> (w_m w)) (<[wc := mkWaiterChannel k None false]> (w_channels w)) (S wc), wc).

(** The channels of the key. *)
Definition deleteByKey (w : waiter) (k : bytes) : waiter * list nat :=
  match w_m w !! k with
  | Some wcs => (mkWaiter (delete k (w_m w)) (w_channels w) (w_next w), wcs)
  | None => (w, [])
  end.

Definition set_wc (w : waiter) (wc : nat) (c : waiterChannel) : waiter :=
  mkWaiter (w_m w) (<[wc := c]> (w_channels w)) (w_next w).

(** Closing a closed channel panics. *)
Definition close (w : waiter) (wc : nat) : outcome unit waiter :=
  match w_channels w !! wc with
  | Some (mkWaiterChannel k v false) => Ok (set_wc w wc (mkWaiterChannel k v true))
  | _ => Panic
  end.

(** Sending on a closed channel panics; on a full one it blocks, [Err tt]. *)
Definition channel_put (w : waiter) (wc : nat) (v : txOutput) : outcome unit waiter :=
  match w_channels w !! wc with
  | Some (mkWaiterChannel k None false) => Ok (set_wc w wc (mkWaiterChannel k (Some v) false))
  | Some (mkWaiterChannel _ (Some _) false) => Err tt
  | _ => Panic
  end.

(** A receive: [None] blocks; the value, or nothing from a closed channel. *)
Definition receive (w : waiter) (wc : nat) : option (waiter * option txOutput) :=
  match w_channels w !! wc with
  | Some (mkWaiterChannel k (Some v) closed) => Some (set_wc w wc (mkWaiterChannel k None closed), Some v)
  | Some (mkWaiterChannel k None true) => Some (w, None)
  | _ => None
  end.

Definition deleteByChannel (w : waiter) (wc : nat) : outcome unit waiter :=
  match w_channels w !! wc with
  | None => Panic
  | Some c =>
      match w_m w !! wc_k c with
      | None => Ok w
      | Some wcs =>
          if bool_decide (wc ∈ wcs) then
            let wcs := List.filter (fun x => negb (x =? wc)%nat) wcs in
            let m := match wcs with [] => delete (wc_k c) (w_m w) | _ => <[wc_k c := wcs]> (w_m w) end in
            close (mkWaiter m (w_channels w) (w_next w)) wc
          else Ok w
      end
  end.

(** The results of a block, and the removal of a transaction, complete keys
    (service.go). *)
Definition HandleTransactionResults (receipts : list TransactionReceipt) (blockHeight timestamp : Z) : list (bytes * txOutput) :=
  map (fun r => (tr_Txhash r, mkTxOutput TRANSACTION_STATUS_COMMITTED (Some r) blockHeight timestamp)) receipts.

Definition HandleTransactionError (txHash : bytes) (status : TransactionStatus) (blockHeight timestamp : Z) : bytes * txOutput :=
  (txHash, mkTxOutput status None blockHeight timestamp).

(** ** Sending transactions (send_transaction.go) *)

Section Send.
Context {E : Type}.

Definition addOutputToTxOutput (t : AddNewTransactionOutput) : txOutput :=
  mkTxOutput (ao_status t) (ao_receipt t) (ao_blockHeight t) (ao_blockTimestamp t).

(** The key a valid request waits under; an invalid one is answered at once. *)
Definition sendTransaction_key `{Sha256, Membuffers} (config : PublicApiConfig) (request : option SignedTransaction)
    : bytes + option txOutput * api_error E :=
  match request with
  | None => inr (None, ErrNilRequest)
  | Some request =>
      let tx := stx_Transaction request in
      match validateRequest config (tx_ProtocolVersion tx) (tx_VirtualChainId tx) with
      | Some txStatus => inr (Some (mkTxOutput txStatus None 0 0), ErrInvalidRequest txStatus)
      | None => inl (CalcTxHash tx)
      end
  end.

(** What is answered once the pool has answered, or [None] to wait. *)
Definition after_add (asyncMode : bool) (addResp : AddNewTransactionOutput) (err : option E) : option (txOutput * option E) :=
  match err with
  | Some e => Some (addOutputToTxOutput addResp, Some e)
  | None =>
      if bool_decide (ao_status addResp = TRANSACTION_STATUS_DUPLICATE_TRANSACTION_ALREADY_COMMITTED)
      then Some (addOutputToTxOutput addResp, None)
      else if asyncMode then Some (addOutputToTxOutput addResp, None)
      else None
  end.

(** Where a request is: before the pool answers, waiting, answered by the pool, with
    the result of the transaction, after a timeout, or after its channel was closed
    without a value. *)
Inductive phase :=
| Adding
| Waiting (added : txOutput)
| AnsweredByPool (out : txOutput) (err : option E)
| Received (out : txOutput)
| TimedOut (added : txOutput)
| Aborted (added : txOutput).

(** A goroutine in [complete], with the channels left and the one it has sent to. *)
Record completer := mkCompleter { todo : list nat; c_value : txOutput; closing : option nat }.

(** Requests are named by their channels; [completed] are the results reported. *)
Record api_state := mkApi {
  api_waiter : waiter;
  api_requests : gmap nat phase;
  api_completers : list completer;
  api_completed : list (bytes * txOutput)
}.

(** [sendTransaction] registers with the waiter, adds to the pool, and answers or
    waits; [HandleTransactionResults] and [HandleTransactionError] complete keys. *)
Inductive api_step : api_state -> api_state -> Prop :=
| step_request w rs cs done k w' wc :
    add w k = (w', wc) -> api_step (mkApi w rs cs done) (mkApi w' (<[wc := Adding]> rs) cs done)
| step_answer w rs cs done wc asyncMode addResp err out e w' :
    rs !! wc = Some Adding -> after_add asyncMode addResp err = Some (out, e) -> deleteByChannel w wc = Ok w' ->
    api_step (mkApi w rs cs done) (mkApi w' (<[wc := AnsweredByPool out e]> rs) cs done)
| step_wait w rs cs done wc asyncMode addResp err :
    rs !! wc = Some Adding -> after_add asyncMode addResp err = None ->
    api_step (mkApi w rs cs done) (mkApi w (<[wc := Waiting (addOutputToTxOutput addResp)]> rs) cs done)
| step_receive w rs cs done wc added w' v :
    rs !! wc = Some (Waiting added) -> receive w wc = Some (w', Some v) ->
    api_step (mkApi w rs cs done) (mkApi w' (<[wc := Received v]> rs) cs done)
| step_aborted w rs cs done wc added w' :
    rs !! wc = Some (Waiting added) -> receive w wc = Some (w', None) ->
    api_step (mkApi w rs cs done) (mkApi w' (<[wc := Aborted added]> rs) cs done)
| step_timeout w rs cs done wc added w' :
    rs !! wc = Some (Waiting added) -> deleteByChannel w wc = Ok w' ->
    api_step (mkApi w rs cs done) (mkApi w' (<[wc := TimedOut added]> rs) cs done)
| step_complete w rs cs done k v w' wcs :
    deleteByKey w k = (w', wcs) ->
    api_step (mkApi w rs cs done) (mkApi w' rs (mkCompleter wcs v None :: cs) ((k, v) :: done))
| step_put w rs cs1 wc rest v cs2 done w' :
    channel_put w wc v = Ok w' ->
    api_step (mkApi w rs (cs1 ++ mkCompleter (wc :: rest) v None :: cs2) done)
             (mkApi w' rs (cs1 ++ mkCompleter rest v (Some wc) :: cs2) done)
| step_close w rs cs1 rest v wc cs2 done w' :
    close w wc = Ok w' ->
    api_step (mkApi w rs (cs1 ++ mkCompleter rest v (Some wc) :: cs2) done)
             (mkApi w' rs (cs1 ++ mkCompleter rest v None :: cs2) done).

Definition new_api : api_state := mkApi newWaiter ∅ [] [].

(** *** Every channel gets at most one value, and no request loses its result *)

(** The channels that wait under a key. *)
Definition keyed (w : waiter) (k : bytes) : list nat := default [] (w_m w !! k).

Definition todos (cs : list completer) : list nat := concat (map todo cs).
Definition closings (cs : list completer) : list nat := omap closing cs.

Definition waits (ph : phase) : bool := match ph with Adding | Waiting _ => true | _ => false end.

Record waiter_inv (w : waiter) : Prop := {
  inv_nodup_key k : NoDup (keyed w k);
  inv_keyed k wc : wc ∈ keyed w k -> w_channels w !! wc = Some (mkWaiterChannel k None false);
  inv_fresh wc : (w_next w <= wc)%nat -> w_channels w !! wc = None
}.

Record api_inv (s : api_state) : Prop := {
  inv_waiter : waiter_inv (api_waiter s);
  inv_fresh_request wc : (w_next (api_waiter s) <= wc)%nat -> api_requests s !! wc = None;
  inv_nodup : NoDup (todos (api_completers s) ++ closings (api_completers s));
  inv_todo c wc : c ∈ api_completers s -> wc ∈ todo c ->
    exists k, w_channels (api_waiter s) !! wc = Some (mkWaiterChannel k None false) /\
      (wc ∉ keyed (api_waiter s) k) /\ (k, c_value c) ∈ api_completed s;
  inv_closing c wc : c ∈ api_completers s -> closing c = Some wc ->
    exists k v, w_channels (api_waiter s) !! wc = Some (mkWaiterChannel k v false) /\ wc ∉ keyed (api_waiter s) k;
  inv_value wc k v b :
    w_channels (api_waiter s) !! wc = Some (mkWaiterChannel k (Some v) b) -> (k, v) ∈ api_completed s;
  inv_request wc ph : api_requests s !! wc = Some ph ->
    exists c, w_channels (api_waiter s) !! wc = Some c /\
      match ph with
      | Adding | Waiting _ =>
          wc_value c = None -> wc ∈ keyed (api_waiter s) (wc_k c) \/ wc ∈ todos (api_completers s)
      | Received v => (wc_k c, v) ∈ api_completed s
      | Aborted _ => False
      | _ => True
      end
}.

Lemma elem_todos wc cs : wc ∈ todos cs <-> exists c, c ∈ cs /\ wc ∈ todo c.
Proof.
  unfold todos. rewrite list_elem_of_In, in_concat. split.
  - intros (l & (c & <- & Hc)%in_map_iff & Hl). exists c. by rewrite !list_elem_of_In.
  - intros (c & Hc & Hl). exists (todo c). rewrite <- !list_elem_of_In. split; [|done]. by apply list_elem_of_fmap_2.
Qed.

Lemma elem_closings wc cs : wc ∈ closings cs <-> exists c, c ∈ cs /\ closing c = Some wc.
Proof. unfold closings. apply list_elem_of_omap. Qed.

Lemma add_spec w k w' wc :
  add w k = (w', wc) ->
  wc = w_next w /\ w_next w' = S wc /\ w_channels w' = <[wc := mkWaiterChannel k None false]> (w_channels w) /\
  forall k', keyed w' k' = if decide (k' = k) then keyed w k ++ [wc] else keyed w k'.
Proof.
  unfold add. intros [= <- <-]. split_and!; [done..|]. intros k'. unfold keyed. simpl.
  case_decide as Hk; [subst; by rewrite lookup_insert_eq|by rewrite lookup_insert_ne by congruence].
Qed.

Lemma deleteByKey_spec w k w' wcs :
  deleteByKey w k = (w', wcs) ->
  wcs = keyed w k /\ w_next w' = w_next w /\ w_channels w' = w_channels w /\
  forall k', keyed w' k' = if decide (k' = k) then [] else keyed w k'.
Proof.
  unfold deleteByKey, keyed. destruct (w_m w !! k) as [l|] eqn:Hm; intros [= <- <-]; split_and!; try done; intros k'; simpl.
  - case_decide as Hk; [subst; by rewrite lookup_delete_eq|by rewrite lookup_delete_ne by congruence].
  - case_decide as Hk; [subst; by rewrite Hm|done].
Qed.

(** Deleting a channel closes it when it is still under its key. *)
Lemma deleteByChannel_spec w wc c :
  waiter_inv w -> w_channels w !! wc = Some c ->
  ((wc ∉ keyed w (wc_k c)) /\ deleteByChannel w wc = Ok w) \/
  (wc ∈ keyed w (wc_k c) /\ exists w', deleteByChannel w wc = Ok w' /\ w_next w' = w_next w /\
     w_channels w' = <[wc := mkWaiterChannel (wc_k c) None true]> (w_channels w) /\
     forall k, keyed w' k = if decide (k = wc_k c) then List.filter (fun x => negb (x =? wc)%nat) (keyed w k) else keyed w k).
Proof.
  intros Hinv Hc. unfold deleteByChannel. rewrite Hc. unfold keyed at 1 2. destruct (w_m w !! wc_k c) as [wcs|] eqn:Hm.
  2: { left. split; [apply not_elem_of_nil|done]. }
  simpl. case_bool_decide as Hin; [right|by left]. split; [done|].
  assert (w_channels w !! wc = Some (mkWaiterChannel (wc_k c) None false)) as Hopen.
  { apply (inv_keyed w Hinv). unfold keyed. by rewrite Hm. }
  unfold close. simpl. rewrite Hopen. eexists. split; [reflexivity|]. simpl. split_and!; [done..|].
  intros k. unfold keyed. simpl. case_decide as Hk.
  - subst k. rewrite Hm. simpl. destruct (List.filter _ wcs) eqn:Ef; [by rewrite lookup_delete_eq|by rewrite lookup_insert_eq].
  - destruct (List.filter _ wcs); [by rewrite lookup_delete_ne by congruence|by rewrite lookup_insert_ne by congruence].
Qed.

Lemma filter_out wc wc' l : wc' ∈ List.filter (fun x => negb (x =? wc)%nat) l <-> wc' ∈ l /\ wc' <> wc.
Proof. rewrite !list_elem_of_In, filter_In. split; intros [? Hx]; split; try done; [lia|by apply negb_true_iff, Nat.eqb_neq]. Qed.

Lemma new_api_inv : api_inv new_api.
Proof.
  split; simpl; try (intros; by apply not_elem_of_nil in H).
  - split; simpl; intros; [unfold keyed; simpl; rewrite lookup_empty; constructor|..|apply lookup_empty].
    unfold keyed in H. simpl in H. rewrite lookup_empty in H. by apply not_elem_of_nil in H.
  - intros wc _. apply lookup_empty.
  - constructor.
  - intros wc k v b Hc. by rewrite lookup_empty in Hc.
  - intros wc ph Hr. by rewrite lookup_empty in Hr.
Qed.

Lemma request_inv w rs cs done k w' wc :
  api_inv (mkApi w rs cs done) -> add w k = (w', wc) -> api_inv (mkApi w' (<[wc := Adding]> rs) cs done).
Proof.
  intros [[Hnd Hk Hf] Hfr Hndc Ht Hcl Hv Hr] (-> & Hn & Hch & Hkey)%add_spec. simpl in *.
  set (wc := w_next w) in *. assert (w_channels w !! wc = None) as Hnew by (apply Hf; lia).
  assert (forall k' x, x ∈ keyed w k' -> x <> wc) as Hne by (intros k' x Hx ->; apply Hk in Hx; congruence).
  split; simpl; rewrite ?Hch.
  - split; rewrite ?Hch.
    + intros k'. rewrite Hkey. case_decide; [|done]. apply NoDup_app. split_and!; [done| |apply NoDup_singleton].
      intros x Hx ->%list_elem_of_singleton. by apply Hne in Hx.
    + intros k' x. rewrite Hkey. case_decide as E'; [subst k'|].
      * intros [Hx| ->%list_elem_of_singleton]%elem_of_app; [|by rewrite lookup_insert_eq].
        rewrite lookup_insert_ne by (symmetry; by eapply Hne). by apply Hk.
      * intros Hx. rewrite lookup_insert_ne by (symmetry; by eapply Hne). by apply Hk.
    + intros x Hx. rewrite lookup_insert_ne by lia. apply Hf. lia.
  - intros x Hx. rewrite lookup_insert_ne by lia. apply Hfr. lia.
  - done.
  - intros c x Hc Hx. destruct (Ht c x Hc Hx) as (k' & E' & Hout & Hdone). exists k'.
    rewrite lookup_insert_ne by congruence. split_and!; [done| |done]. rewrite Hkey. case_decide; [|done].
    subst k'. intros [Hin| ->%list_elem_of_singleton]%elem_of_app; [done|congruence].
  - intros c x Hc Hx. destruct (Hcl c x Hc Hx) as (k' & v & E' & Hout). exists k', v.
    rewrite lookup_insert_ne by congruence. split; [done|]. rewrite Hkey. case_decide; [|done].
    subst k'. intros [Hin| ->%list_elem_of_singleton]%elem_of_app; [done|congruence].
  - intros x k' v b [[-> [=]]|[Hx Hc]]%lookup_insert_Some. by eapply Hv.
  - intros x ph [[<- <-]|[Hx Hp]]%lookup_insert_Some.
    + eexists. rewrite lookup_insert_eq. split; [done|]. intros _. left. simpl. rewrite Hkey, decide_True by done.
      apply elem_of_app. right. by apply list_elem_of_singleton.
    + destruct (Hr x ph Hp) as (c & Hc & Hph). exists c. rewrite lookup_insert_ne by done. split; [done|].
      assert (keyed w (wc_k c) ⊆ keyed w' (wc_k c)) by (rewrite Hkey; case_decide; [subst; set_solver|done]).
      destruct ph; try done; intros Hnone; destruct (Hph Hnone); auto.
Qed.

(** A request that is answered leaves the waiter. *)
Lemma leave_inv w rs cs done wc c ph w' :
  api_inv (mkApi w rs cs done) -> w_channels w !! wc = Some c -> deleteByChannel w wc = Ok w' ->
  match ph with AnsweredByPool _ _ | TimedOut _ => True | _ => False end ->
  api_inv (mkApi w' (<[wc := ph]> rs) cs done).
Proof.
  intros [Hw Hfr Hndc Ht Hcl Hv Hr] Hc Hdel Hph. simpl in *.
  assert (forall x, (w_next w <= x)%nat -> <[wc := ph]> rs !! x = None) as Hfr'.
  { intros x Hx. rewrite lookup_insert_ne; [by apply Hfr|]. intros ->. rewrite (inv_fresh w Hw) in Hc by done. done. }
  destruct (deleteByChannel_spec w wc c Hw Hc) as [[Hout Hdel']|(Hin & w1 & Hdel' & Hn & Hch & Hkey)];
    rewrite Hdel in Hdel'; injection Hdel' as ->.
  { split; simpl; try done.
    intros x p [[<- <-]|[Hx Hp]]%lookup_insert_Some; [|by apply Hr]. exists c. split; [done|]. by destruct ph. }
  pose proof Hw as [Hnd Hk Hf]. pose proof (Hk _ _ Hin) as Hopen.
  assert (forall k x, x ∈ keyed w1 k <-> x ∈ keyed w k /\ x <> wc) as Hmem.
  { intros k x. rewrite Hkey. case_decide as Hkc; [apply filter_out|]. split; [|by intros []].
    intros Hx. split; [done|]. intros ->. apply Hk in Hx. congruence. }
  split; simpl; rewrite ?Hch, ?Hn; try done.
  - split; rewrite ?Hch, ?Hn.
    + intros k. rewrite Hkey. case_decide; [|done]. apply NoDup_ListNoDup, List.NoDup_filter, NoDup_ListNoDup, Hnd.
    + intros k x [Hx Hne]%Hmem. rewrite lookup_insert_ne by done. by apply Hk.
    + intros x Hx. rewrite lookup_insert_ne; [by apply Hf|]. intros ->. rewrite Hf in Hc by done. done.
  - intros c' x Hc' Hx. destruct (Ht c' x Hc' Hx) as (k & E' & Hout & Hdone). exists k.
    rewrite lookup_insert_ne by congruence. split_and!; [done| |done]. by rewrite Hmem; intros [].
  - intros c' x Hc' Hx. destruct (Hcl c' x Hc' Hx) as (k & v & E' & Hout). exists k, v.
    rewrite lookup_insert_ne by congruence. split; [done|]. by rewrite Hmem; intros [].
  - intros x k v b [[_ [=]]|[Hx Hx']]%lookup_insert_Some. by eapply Hv.
  - intros x p [[<- <-]|[Hx Hp]]%lookup_insert_Some.
    + eexists. rewrite lookup_insert_eq. split; [done|]. by destruct ph.
    + destruct (Hr x p Hp) as (c' & Hc' & Hp'). exists c'. rewrite lookup_insert_ne by done. split; [done|].
      destruct p; try done; intros Hnone; rewrite Hmem; destruct (Hp' Hnone); auto.
Qed.

(** A step of one channel that is under no key, between values and closing. *)
Lemma channel_inv w rs cs cs' done wc k v v' b :
  api_inv (mkApi w rs cs done) -> w_channels w !! wc = Some (mkWaiterChannel k v false) -> wc ∉ keyed w k ->
  (forall x, x ∈ todos cs' <-> x ∈ todos cs /\ x <> wc) -> NoDup (todos cs' ++ closings cs') ->
  (forall c x, c ∈ cs' -> x ∈ todo c -> exists c0, c0 ∈ cs /\ x ∈ todo c0 /\ c_value c0 = c_value c) ->
  (forall c x, c ∈ cs' -> closing c = Some x -> x = wc /\ b = false \/ x <> wc /\ exists c0, c0 ∈ cs /\ closing c0 = Some x) ->
  (forall u, v' = Some u -> (k, u) ∈ done) ->
  (forall ph, rs !! wc = Some ph -> waits ph = true -> v' = None -> False) ->
  api_inv (mkApi (set_wc w wc (mkWaiterChannel k v' b)) rs cs' done).
Proof.
  intros [Hw Hfr Hndc Ht Hcl Hv Hr] Hc Hout Hmem Hnd' Htodo Hclose Hv' Hwait. pose proof Hw as [Hnd Hk Hf]. simpl in *.
  split; simpl; try done.
  - split; simpl; [done|..].
    + intros k0 x Hx. rewrite lookup_insert_ne; [by apply Hk|]. intros <-. pose proof (Hk _ _ Hx) as Hx'.
      assert (k0 = k) as -> by congruence. done.
    + intros x Hx. rewrite lookup_insert_ne; [by apply Hf|]. intros <-. rewrite Hf in Hc by done. done.
  - intros c x Hc' Hx. destruct (Htodo c x Hc' Hx) as (c0 & Hc0 & Hx0 & <-).
    assert (x <> wc) as Hne by (apply (Hmem x), elem_todos; eauto).
    destruct (Ht c0 x Hc0 Hx0) as (k0 & E' & Hrest). exists k0. by rewrite lookup_insert_ne.
  - intros c x Hc' Hx. destruct (Hclose c x Hc' Hx) as [[-> ->]|(Hne & c0 & Hc0 & Hx0)].
    + exists k, v'. by rewrite lookup_insert_eq.
    + destruct (Hcl c0 x Hc0 Hx0) as (k0 & v0 & E' & Hrest). exists k0, v0. by rewrite lookup_insert_ne.
  - intros x k0 u b0 [[-> [= <- -> <-]]|[Hx Hx']]%lookup_insert_Some; [by apply Hv'|by eapply Hv].
  - intros x p Hp. destruct (Hr x p Hp) as (c & Hcx & Hp'). destruct (decide (x = wc)) as [->|Hne].
    + rewrite lookup_insert_eq. eexists. split; [done|]. simpl. assert (c = mkWaiterChannel k v false) as -> by congruence.
      destruct p; try done; intros Hnone; by destruct (Hwait _ Hp eq_refl Hnone).
    + rewrite lookup_insert_ne by done. exists c. split; [done|].
      destruct p; try done; intros Hnone; destruct (Hp' Hnone) as [?|?]; [by left| |by left|]; right; by apply Hmem.
Qed.

Lemma receive_inv w rs cs done wc added w' v :
  api_inv (mkApi w rs cs done) -> rs !! wc = Some (Waiting added) -> receive w wc = Some (w', Some v) ->
  api_inv (mkApi w' (<[wc := Received v]> rs) cs done).
Proof.
  intros [Hw Hfr Hndc Ht Hcl Hv Hr] Hreq Hrec. pose proof Hw as [Hnd Hk Hf]. simpl in *. unfold receive in Hrec.
  destruct (w_channels w !! wc) as [[k [u|] b]|] eqn:Hc; [|by destruct b|done]. inversion Hrec; subst; clear Hrec.
  split; simpl; try done.
  - split; simpl; [done|..].
    + intros k0 x Hx. rewrite lookup_insert_ne; [by apply Hk|]. intros <-. apply Hk in Hx. congruence.
    + intros x Hx. rewrite lookup_insert_ne; [by apply Hf|]. intros <-. rewrite Hf in Hc by done. done.
  - intros x Hx. rewrite lookup_insert_ne; [by apply Hfr|]. intros <-. rewrite Hfr in Hreq by done. done.
  - intros c x Hc' Hx. destruct (Ht c x Hc' Hx) as (k0 & E' & Hrest). exists k0. rewrite lookup_insert_ne by congruence. done.
  - intros c x Hc' Hx. destruct (Hcl c x Hc' Hx) as (k0 & v0 & E' & Hrest). destruct (decide (x = wc)) as [->|Hne].
    + exists k, None. rewrite lookup_insert_eq. rewrite Hc in E'. inversion E'; subst. done.
    + exists k0, v0. by rewrite lookup_insert_ne.
  - intros x k0 u b0 [[_ [=]]|[Hx Hx']]%lookup_insert_Some. by eapply Hv.
  - intros x p [[<- <-]|[Hx Hp]]%lookup_insert_Some.
    + eexists. rewrite lookup_insert_eq. split; [done|]. simpl. by eapply Hv.
    + rewrite lookup_insert_ne by done. by apply Hr.
Qed.

Lemma complete_inv w rs cs done k v w' wcs :
  api_inv (mkApi w rs cs done) -> deleteByKey w k = (w', wcs) ->
  api_inv (mkApi w' rs (mkCompleter wcs v None :: cs) ((k, v) :: done)).
Proof.
  intros [Hw Hfr Hndc Ht Hcl Hv Hr] (-> & Hn & Hch & Hkey)%deleteByKey_spec. pose proof Hw as [Hnd Hk Hf]. simpl in *.
  assert (forall k0 x, x ∉ keyed w k0 -> x ∉ keyed w' k0) as Hout' by (intros k0 x Hx; rewrite Hkey; by case_decide; [apply not_elem_of_nil|]).
  split; simpl; rewrite ?Hch, ?Hn; try done.
  - split; rewrite ?Hch, ?Hn; [..|done].
    + intros k0. rewrite Hkey. case_decide; [constructor|done].
    + intros k0 x. rewrite Hkey. case_decide; [by intros ?%not_elem_of_nil|apply Hk].
  - unfold todos, closings in *. simpl. rewrite <- app_assoc. apply NoDup_app. split_and!; [done| |done].
    intros x Hx [Hx'|Hx']%elem_of_app; [apply elem_todos in Hx' as (c & Hc & Hx')|apply elem_closings in Hx' as (c & Hc & Hx')].
    + destruct (Ht c x Hc Hx') as (k0 & E' & Hout & _). pose proof (Hk _ _ Hx). assert (k0 = k) as -> by congruence. done.
    + destruct (Hcl c x Hc Hx') as (k0 & v0 & E' & Hout). pose proof (Hk _ _ Hx). assert (k0 = k) as -> by congruence. done.
  - intros c x [->|Hc]%elem_of_cons Hx; simpl in *.
    + exists k. split_and!; [by apply Hk| |by left]. rewrite Hkey, decide_True by done. apply not_elem_of_nil.
    + destruct (Ht c x Hc Hx) as (k0 & E' & Hout & Hd). exists k0. split_and!; [done|by apply Hout'|by right].
  - intros c x [->|Hc]%elem_of_cons Hx; simpl in *; [done|].
    destruct (Hcl c x Hc Hx) as (k0 & v0 & E' & Hout). exists k0, v0. split; [done|by apply Hout'].
  - intros x k0 u b Hx. right. by eapply Hv.
  - intros x p Hp. destruct (Hr x p Hp) as (c & Hc & Hp'). exists c. split; [done|].
    assert (wc_value c = None -> (x ∈ keyed w (wc_k c) \/ x ∈ todos cs) ->
      x ∈ keyed w' (wc_k c) \/ x ∈ todos (mkCompleter (keyed w k) v None :: cs)) as Hmove.
    { intros _ [Hx|Hx]; [|right; apply elem_of_app; by right]. rewrite Hkey. case_decide as Hkk; [|by left].
      right. apply elem_of_app. left. simpl. by rewrite <- Hkk. }
    destruct p; try done; [intros Hnone; auto..|by right].
Qed.

Lemma put_inv w rs cs1 wc rest v cs2 done w' :
  api_inv (mkApi w rs (cs1 ++ mkCompleter (wc :: rest) v None :: cs2) done) -> channel_put w wc v = Ok w' ->
  api_inv (mkApi w' rs (cs1 ++ mkCompleter rest v (Some wc) :: cs2) done).
Proof.
  intros Hinv Hput. pose proof Hinv as [Hw Hfr Hndc Ht Hcl Hv Hr]. simpl in *.
  destruct (Ht (mkCompleter (wc :: rest) v None) wc) as (k & Hc & Hout & Hd);
    [apply elem_of_app; right; by left|by left|]. simpl in Hd.
  unfold channel_put in Hput. rewrite Hc in Hput. injection Hput as <-.
  assert (todos (cs1 ++ mkCompleter (wc :: rest) v None :: cs2) ≡ₚ wc :: todos (cs1 ++ mkCompleter rest v (Some wc) :: cs2)) as Hperm.
  { unfold todos. rewrite !map_app, !concat_app. simpl. symmetry. apply Permutation_middle. }
  assert (closings (cs1 ++ mkCompleter rest v (Some wc) :: cs2) ≡ₚ wc :: closings (cs1 ++ mkCompleter (wc :: rest) v None :: cs2)) as Hperm2.
  { unfold closings. rewrite !omap_app. simpl. symmetry. apply Permutation_middle. }
  rewrite Hperm in Hndc. simpl in Hndc. apply NoDup_cons in Hndc as [Hnin Hndc].
  eapply channel_inv; [exact Hinv|exact Hc|exact Hout|..].
  - intros x. rewrite Hperm, elem_of_cons. split; [|intros [[Heq|Hx] Hne]; done]. intros Hx. split; [by right|]. intros ->.
    apply Hnin, elem_of_app. by left.
  - rewrite Hperm2. rewrite <- Permutation_middle. by apply NoDup_cons.
  - intros c x [Hc'|[->|Hc']%elem_of_cons]%elem_of_app Hx.
    + exists c. split_and!; [apply elem_of_app; by left|done..].
    + exists (mkCompleter (wc :: rest) v None). split_and!; [apply elem_of_app; right; by left|by right|done].
    + exists c. split_and!; [apply elem_of_app; right; by right|done..].
  - intros c x Hc' Hx. destruct (decide (x = wc)) as [->|Hne]; [by left|right; split; [done|]].
    apply elem_of_app in Hc' as [Hc'|[->|Hc']%elem_of_cons]; [..|simpl in Hx; congruence|].
    + exists c. split; [apply elem_of_app; by left|done].
    + exists c. split; [apply elem_of_app; right; by right|done].
  - by intros u [= <-].
  - by intros.
Qed.

Lemma close_inv w rs cs1 wc rest v cs2 done w' :
  api_inv (mkApi w rs (cs1 ++ mkCompleter rest v (Some wc) :: cs2) done) -> close w wc = Ok w' ->
  api_inv (mkApi w' rs (cs1 ++ mkCompleter rest v None :: cs2) done).
Proof.
  intros Hinv Hclose. pose proof Hinv as [Hw Hfr Hndc Ht Hcl Hv Hr]. simpl in *.
  destruct (Hcl (mkCompleter rest v (Some wc)) wc) as (k & u & Hc & Hout); [apply elem_of_app; right; by left|done|].
  unfold close in Hclose. rewrite Hc in Hclose. injection Hclose as <-.
  assert (todos (cs1 ++ mkCompleter rest v None :: cs2) = todos (cs1 ++ mkCompleter rest v (Some wc) :: cs2)) as Htd.
  { unfold todos. by rewrite !map_app. }
  assert (closings (cs1 ++ mkCompleter rest v (Some wc) :: cs2) ≡ₚ wc :: closings (cs1 ++ mkCompleter rest v None :: cs2)) as Hperm.
  { unfold closings. rewrite !omap_app. simpl. symmetry. apply Permutation_middle. }
  rewrite Hperm, <- Permutation_middle in Hndc. apply NoDup_cons in Hndc as [Hnin Hndc]. rewrite <- Htd in Hnin, Hndc.
  eapply channel_inv; [exact Hinv|exact Hc|exact Hout|..].
  - intros x. rewrite <- Htd. split; [|by intros []]. intros Hx. split; [done|]. intros ->. apply Hnin, elem_of_app. by left.
  - done.
  - intros c x [Hc'|[->|Hc']%elem_of_cons]%elem_of_app Hx.
    + exists c. split_and!; [apply elem_of_app; by left|done..].
    + exists (mkCompleter rest v (Some wc)). split_and!; [apply elem_of_app; right; by left|done..].
    + exists c. split_and!; [apply elem_of_app; right; by right|done..].
  - intros c x Hc' Hx. right. split.
    + intros ->. apply Hnin, elem_of_app. right. apply elem_closings. eauto.
    + apply elem_of_app in Hc' as [Hc'|[->|Hc']%elem_of_cons]; [|done|].
      * exists c. split; [apply elem_of_app; by left|done].
      * exists c. split; [apply elem_of_app; right; by right|done].
  - intros u' ->. by eapply Hv.
  - intros ph Hph Hwait ->. destruct (Hr wc ph Hph) as (c & Hc' & Hp). rewrite Hc in Hc'. injection Hc' as <-. simpl in Hp.
    assert (wc ∈ keyed w k \/ wc ∈ todos (cs1 ++ mkCompleter rest v (Some wc) :: cs2)) as [?|Hx] by (destruct ph; naive_solver);
      [done|]. rewrite <- Htd in Hx. apply Hnin, elem_of_app. by left.
Qed.

Lemma aborted_never w rs cs done wc added w' :
  api_inv (mkApi w rs cs done) -> rs !! wc = Some (Waiting added) -> receive w wc <> Some (w', None).
Proof.
  intros [Hw Hfr Hndc Ht Hcl Hv Hr] Hreq Hrec. simpl in *. destruct (Hr wc _ Hreq) as (c & Hc & Hwait).
  unfold receive in Hrec. rewrite Hc in Hrec. destruct c as [k [v|] []]; try done. simpl in Hwait.
  destruct (Hwait eq_refl) as [Hin|(c & Hin & Hx)%elem_todos].
  - apply (inv_keyed w Hw) in Hin. congruence.
  - destruct (Ht c wc Hin Hx) as (k' & Hc' & _). congruence.
Qed.

Lemma api_step_inv s s' : api_step s s' -> api_inv s -> api_inv s'.
Proof.
  destruct 1; intros Hinv.
  - by eapply request_inv.
  - destruct (inv_request _ Hinv wc _ H) as (c & Hc & _). by eapply leave_inv.
  - pose proof Hinv as [Hw Hfr Hndc Ht Hcl Hv Hr]. split; simpl in *; try done.
    + intros x Hx. rewrite lookup_insert_ne; [by apply Hfr|]. intros <-. rewrite Hfr in H by done. done.
    + intros x ph [[<- <-]|[Hx Hp]]%lookup_insert_Some; [exact (Hr wc _ H)|by apply Hr].
  - by eapply receive_inv.
  - by destruct (aborted_never w rs cs done wc added w' Hinv H).
  - destruct (inv_request _ Hinv wc _ H) as (c & Hc & _). by eapply leave_inv.
  - by eapply complete_inv.
  - by eapply put_inv.
  - by eapply close_inv.
Qed.

Lemma reachable_inv s : rtc api_step new_api s -> api_inv s.
Proof.
  intros Hs. assert (api_inv new_api) as Hinv by apply new_api_inv. revert Hinv. induction Hs; eauto using api_step_inv.
Qed.

(** In every interleaving of requests, timeouts and completions no goroutine
    sends on a closed or full channel or closes one twice, a request that gets a
    result gets one reported for its own transaction, and none is aborted. *)
Theorem waiter_safe s :
  rtc api_step new_api s ->
  (forall wc ph, api_requests s !! wc = Some ph -> waits ph = true -> exists w', deleteByChannel (api_waiter s) wc = Ok w') /\
  (forall wc rest v, mkCompleter (wc :: rest) v None ∈ api_completers s -> exists w', channel_put (api_waiter s) wc v = Ok w') /\
  (forall rest v wc, mkCompleter rest v (Some wc) ∈ api_completers s -> exists w', close (api_waiter s) wc = Ok w') /\
  (forall wc v, api_requests s !! wc = Some (Received v) ->
     exists c, w_channels (api_waiter s) !! wc = Some c /\ (wc_k c, v) ∈ api_completed s) /\
  (forall wc added, api_requests s !! wc <> Some (Aborted added)).
Proof.
  intros [Hw Hfr Hndc Ht Hcl Hv Hr]%reachable_inv. split_and!.
  - intros wc ph Hph _. destruct (Hr wc ph Hph) as (c & Hc & _).
    destruct (deleteByChannel_spec _ wc c Hw Hc) as [[_ ->]|(_ & w' & -> & _)]; eauto.
  - intros wc rest v Hc. destruct (Ht _ wc Hc) as (k & Hk & _); [by left|]. unfold channel_put. rewrite Hk. eauto.
  - intros rest v wc Hc. destruct (Hcl _ wc Hc eq_refl) as (k & u & Hk & _). unfold close. rewrite Hk. eauto.
  - intros wc v Hph. exact (Hr wc _ Hph).
  - intros wc added Hph. by destruct (Hr wc _ Hph) as (c & _ & []).
Qed.

(** The result [v] is on its way to the request [wc]. *)
Definition promised (wc : nat) (v : txOutput) (s : api_state) : Prop :=
  exists ph c, api_requests s !! wc = Some ph /\ w_channels (api_waiter s) !! wc = Some c /\
    match ph with
    | Adding | Waiting _ => (exists d, d ∈ api_completers s /\ wc ∈ todo d /\ c_value d = v) \/ wc_value c = Some v
    | Received v' => v' = v
    | _ => True
    end.

Lemma todo_unique wc cs c1 c2 :
  NoDup (todos cs) -> c1 ∈ cs -> c2 ∈ cs -> wc ∈ todo c1 -> wc ∈ todo c2 -> c1 = c2.
Proof.
  induction cs as [|c cs IH]; intros Hnd H1 H2 Hw1 Hw2; [by apply not_elem_of_nil in H1|].
  unfold todos in Hnd. simpl in Hnd. apply NoDup_app in Hnd as (_ & Hdis & Hnd).
  apply elem_of_cons in H1 as [->|H1], H2 as [->|H2]; [done|..].
  - exfalso. apply (Hdis wc Hw1). apply elem_todos. eauto.
  - exfalso. apply (Hdis wc Hw2). apply elem_todos. eauto.
  - by apply IH.
Qed.

(** A step that leaves the channel of a request and what is on its way to it. *)
Lemma promised_frame wc v w rs cs done w' rs' cs' done' :
  promised wc v (mkApi w rs cs done) -> rs' !! wc = rs !! wc -> w_channels w' !! wc = w_channels w !! wc ->
  (forall d, d ∈ cs -> wc ∈ todo d -> exists d', d' ∈ cs' /\ wc ∈ todo d' /\ c_value d' = c_value d) ->
  promised wc v (mkApi w' rs' cs' done').
Proof.
  intros (ph & c & Hph & Hc & Hp) Hrs Hch Htodo. simpl in *. exists ph, c. simpl. rewrite Hrs, Hch. split_and!; [done..|].
  destruct ph; try done; (destruct Hp as [(d & Hd & Hwc & <-)|Hp]; [left; destruct (Htodo d Hd Hwc) as (d' & ? & ? & ?); eauto|by right]).
Qed.

Lemma deleteByChannel_other w wc c w' x :
  waiter_inv w -> w_channels w !! wc = Some c -> deleteByChannel w wc = Ok w' -> x <> wc ->
  w_channels w' !! x = w_channels w !! x.
Proof.
  intros Hw Hc Hdel Hne. destruct (deleteByChannel_spec w wc c Hw Hc) as [[_ E']|(_ & w1 & E' & _ & Hch & _)];
    rewrite Hdel in E'; injection E' as ->; [done|by rewrite Hch, lookup_insert_ne].
Qed.

(** A request that leaves keeps its promise or another's. *)
Lemma promised_leave wc v w rs cs done wc0 c0 ph w' :
  promised wc v (mkApi w rs cs done) -> waiter_inv w -> w_channels w !! wc0 = Some c0 -> deleteByChannel w wc0 = Ok w' ->
  match ph with AnsweredByPool _ _ | TimedOut _ => True | _ => False end ->
  promised wc v (mkApi w' (<[wc0 := ph]> rs) cs done).
Proof.
  intros Hp Hw Hc Hdel Hph. destruct (decide (wc = wc0)) as [->|Hne].
  - destruct (deleteByChannel_spec w wc0 c0 Hw Hc) as [[_ E']|(_ & w1 & E' & _ & Hch & _)];
      rewrite Hdel in E'; injection E' as ->; eexists ph, _; simpl; rewrite lookup_insert_eq;
      (split; [done|]); [split; [exact Hc|]|rewrite Hch, lookup_insert_eq; split; [done|]]; by destruct ph.
  - eapply promised_frame; [exact Hp|by rewrite lookup_insert_ne|by eapply deleteByChannel_other|eauto].
Qed.

Lemma promised_put wc v w rs cs1 wc0 rest u cs2 done w' :
  promised wc v (mkApi w rs (cs1 ++ mkCompleter (wc0 :: rest) u None :: cs2) done) ->
  api_inv (mkApi w rs (cs1 ++ mkCompleter (wc0 :: rest) u None :: cs2) done) -> channel_put w wc0 u = Ok w' ->
  promised wc v (mkApi w' rs (cs1 ++ mkCompleter rest u (Some wc0) :: cs2) done).
Proof.
  intros Hp Hinv Hput. set (c0 := mkCompleter (wc0 :: rest) u None) in *.
  assert (c0 ∈ cs1 ++ c0 :: cs2) as Hc0 by (apply elem_of_app; right; by left).
  destruct (inv_todo _ Hinv c0 wc0 Hc0) as (k & Hk & _); [by left|]. simpl in Hk.
  unfold channel_put in Hput. rewrite Hk in Hput. injection Hput as <-. destruct (decide (wc = wc0)) as [->|Hne].
  - destruct Hp as (ph & c & Hph & Hc & Hp). simpl in *. rewrite Hk in Hc. injection Hc as <-.
    exists ph, (mkWaiterChannel k (Some u) false). simpl. rewrite lookup_insert_eq. split_and!; [done..|].
    assert (NoDup (todos (cs1 ++ c0 :: cs2))) as Hnd by (pose proof (inv_nodup _ Hinv) as Hnd; by apply NoDup_app in Hnd as (? & _)).
    assert (forall d, d ∈ cs1 ++ c0 :: cs2 -> wc0 ∈ todo d -> d = c0) as Huniq.
    { intros d Hd Hin. apply (todo_unique wc0 (cs1 ++ c0 :: cs2)); try done. by left. }
    destruct ph; try done; (destruct Hp as [(d & Hd & Hin & <-)|[=]]; right; by rewrite (Huniq d Hd Hin)).
  - eapply promised_frame; [exact Hp|done|simpl; by rewrite lookup_insert_ne|].
    intros d [Hd|[->|Hd]%elem_of_cons]%elem_of_app Hin.
    + exists d. split_and!; [apply elem_of_app; by left|done..].
    + exists (mkCompleter rest u (Some wc0)). simpl in Hin. apply elem_of_cons in Hin as [->|Hin]; [done|].
      split_and!; [apply elem_of_app; right; by left|done..].
    + exists d. split_and!; [apply elem_of_app; right; by right|done..].
Qed.

Lemma promised_close wc v w rs cs1 rest u wc0 cs2 done w' :
  promised wc v (mkApi w rs (cs1 ++ mkCompleter rest u (Some wc0) :: cs2) done) -> close w wc0 = Ok w' ->
  promised wc v (mkApi w' rs (cs1 ++ mkCompleter rest u None :: cs2) done).
Proof.
  intros (ph & c & Hph & Hc & Hp) Hclose. simpl in *. unfold close in Hclose.
  destruct (w_channels w !! wc0) as [[k x []]|] eqn:Hk; try done. injection Hclose as <-.
  assert (exists c', w_channels (set_wc w wc0 (mkWaiterChannel k x true)) !! wc = Some c' /\ wc_value c' = wc_value c) as (c' & Hc' & Hval).
  { simpl. destruct (decide (wc = wc0)) as [->|Hne]; [rewrite lookup_insert_eq|by rewrite lookup_insert_ne; eauto].
    eexists. split; [done|]. by rewrite Hk in Hc; injection Hc as <-. }
  exists ph, c'. simpl in *. rewrite Hval. split_and!; [done..|].
  destruct ph; try done; (destruct Hp as [(d & Hd & Hin & <-)|Hp]; [left|by right]);
    (apply elem_of_app in Hd as [Hd|[->|Hd]%elem_of_cons];
     [exists d; split_and!; [apply elem_of_app; by left|done..]
     |exists (mkCompleter rest u None); split_and!; [apply elem_of_app; right; by left|done..]
     |exists d; split_and!; [apply elem_of_app; right; by right|done..]]).
Qed.

Lemma promised_step wc v s s' : api_step s s' -> api_inv s -> promised wc v s -> promised wc v s'.
Proof.
  destruct 1 as [w rs cs done k w' wc0 Hadd|w rs cs done wc0 am resp err out e w' Hreq Haft Hdel|w rs cs done wc0 am resp err Hreq Haft
    |w rs cs done wc0 added w' u Hreq Hrec|w rs cs done wc0 added w' Hreq Hrec|w rs cs done wc0 added w' Hreq Hdel
    |w rs cs done k u w' wcs Hdel|w rs cs1 wc0 rest u cs2 done w' Hput|w rs cs1 rest u wc0 cs2 done w' Hclose];
    intros Hinv Hp; pose proof Hp as (ph & c & Hph & Hc & Hprom); simpl in Hph, Hc, Hprom.
  - apply add_spec in Hadd as (-> & _ & Hch & _). assert (wc <> w_next w) as Hne.
    { intros ->. pose proof (inv_fresh_request _ Hinv (w_next w)) as Hf. simpl in Hf. rewrite Hf in Hph by lia. done. }
    eapply promised_frame; [exact Hp|by rewrite lookup_insert_ne|by rewrite Hch, lookup_insert_ne|eauto].
  - destruct (inv_request _ Hinv wc0 _ Hreq) as (c0 & Hc0 & _). by eapply promised_leave; [..|apply (inv_waiter _ Hinv)| | |].
  - destruct (decide (wc = wc0)) as [->|Hne]; [|by eapply promised_frame; [exact Hp|rewrite lookup_insert_ne| |eauto]].
    eexists _, c. simpl. rewrite lookup_insert_eq. split_and!; [done..|]. simpl. by assert (ph = Adding) as -> by congruence.
  - unfold receive in Hrec. destruct (decide (wc = wc0)) as [->|Hne].
    + rewrite Hc in Hrec. destruct c as [k [u'|] b]; [|by destruct b]. inversion Hrec; subst; clear Hrec.
      eexists _, _. simpl. rewrite !lookup_insert_eq. split_and!; [done..|]. simpl.
      assert (ph = Waiting added) as -> by congruence. destruct Hprom as [(d & Hd & Hin & _)|[= ->]]; [|done].
      destruct (inv_todo _ Hinv d wc0 Hd Hin) as (k' & Hc' & _). simpl in Hc'. congruence.
    + destruct (w_channels w !! wc0) as [[k [u'|] b]|]; [|by destruct b|done]. inversion Hrec; subst; clear Hrec.
      eapply promised_frame; [exact Hp|by rewrite lookup_insert_ne|simpl; by rewrite lookup_insert_ne|eauto].
  - by destruct (aborted_never w rs cs done wc0 added w' Hinv Hreq).
  - destruct (inv_request _ Hinv wc0 _ Hreq) as (c0 & Hc0 & _). by eapply promised_leave; [..|apply (inv_waiter _ Hinv)| | |].
  - apply deleteByKey_spec in Hdel as (_ & _ & Hch & _). eapply promised_frame; [exact Hp|done|by rewrite Hch|].
    intros d Hd Hin. exists d. split; [by right|done].
  - by eapply promised_put.
  - by eapply promised_close.
Qed.

Lemma promised_steps wc v s s' : rtc api_step s s' -> api_inv s -> promised wc v s -> promised wc v s' /\ api_inv s'.
Proof. induction 1; eauto using promised_step, api_step_inv. Qed.

(** C27. A result reported while a request waits for its transaction is not lost: at
    any later time the request has it, has timed out or was answered by the pool;
    or it still waits, and once the goroutines that complete are done its receive
    gives it that result. *)
Theorem result_not_lost s wc ph k v w' wcs s' :
  rtc api_step new_api s -> api_requests s !! wc = Some ph -> waits ph = true -> wc ∈ keyed (api_waiter s) k ->
  deleteByKey (api_waiter s) k = (w', wcs) ->
  rtc api_step (mkApi w' (api_requests s) (mkCompleter wcs v None :: api_completers s) ((k, v) :: api_completed s)) s' ->
  match api_requests s' !! wc with
  | Some (Received v') => v' = v
  | Some (AnsweredByPool _ _) | Some (TimedOut _) => True
  | Some (Waiting _) | Some Adding =>
      (forall c, c ∈ api_completers s' -> todo c = []) ->
      exists w'', receive (api_waiter s') wc = Some (w'', Some v)
  | Some (Aborted _) | None => False
  end.
Proof.
  intros Hs Hph Hwait Hin Hdel Hs'. apply reachable_inv in Hs. destruct s as [w rs cs done]. simpl in *.
  pose proof (complete_inv _ _ _ _ k v _ _ Hs Hdel) as Hinv. apply deleteByKey_spec in Hdel as (-> & _ & Hch & _).
  pose proof (inv_keyed _ (inv_waiter _ Hs) _ _ Hin) as Hopen. simpl in Hopen.
  assert (promised wc v (mkApi w' rs (mkCompleter (keyed w k) v None :: cs) ((k, v) :: done))) as Hp.
  { exists ph, (mkWaiterChannel k None false). simpl. rewrite Hch. split_and!; [done..|].
    destruct ph; try done; left; exists (mkCompleter (keyed w k) v None); (split_and!; [by left|done..]). }
  destruct (promised_steps wc v _ _ Hs' Hinv Hp) as [(ph' & c & Hph' & Hc & Hp') Hinv']. rewrite Hph'.
  assert ((exists d, d ∈ api_completers s' /\ wc ∈ todo d /\ c_value d = v) \/ wc_value c = Some v ->
    (forall c, c ∈ api_completers s' -> todo c = []) -> exists w'', receive (api_waiter s') wc = Some (w'', Some v)) as Hget.
  { intros [(d & Hd & Hwc & _)|Hval] Hdone; [rewrite (Hdone d Hd) in Hwc; by apply not_elem_of_nil in Hwc|].
    unfold receive. rewrite Hc. destruct c as [k' x b]. simpl in Hval. subst x. eauto. }
  destruct ph'; try done; [by apply Hget..|]. by destruct (inv_request _ Hinv' wc _ Hph') as (? & _ & []).
Qed.
End Send.
Arguments phase : clear implicits.
Arguments api_state : clear implicits.
Arguments new_api : clear implicits.

(** ** The status of a committed transaction *)

Section Composition.
Context `{ArgumentArrays} `{Sha256, Membuffers} {R : Type} {E : Type}.

(** The transaction pool as the service sees it; it never fails. *)
Definition pool_receipt (p : TransactionPoolService.Service R) (txHash : bytes) (_ : Z) : option txOutput * option E :=
  let '(status, receipt, height, timestamp) := GetCommittedTransactionReceipt p txHash in
  (Some (mkTxOutput status receipt height timestamp), None).

(** A transaction in the committed pool is reported with its receipt and block, and
    a proof is asked of the block storage for that block. *)
Lemma committed_status {Pf} (p : TransactionPoolService.Service R) (storage : bytes -> Z -> outcome E (option TransactionReceipt * Z * Z))
    (prove : bytes -> Z -> outcome E Pf) config now tx receipt height timestamp proof :
  GetCommittedTransactionReceipt p (ref_Txhash tx) = (TRANSACTION_STATUS_COMMITTED, Some receipt, height, timestamp) ->
  validateRequest config (ref_ProtocolVersion tx) (ref_VirtualChainId tx) = None ->
  prove (ref_Txhash tx) height = Ok proof ->
  let response := mkTxResponse (translateExecutionStatusToRequestStatus (Some (tr_ExecutionResult receipt))) height timestamp
                    TRANSACTION_STATUS_COMMITTED (Some receipt) in
  GetTransactionStatus (pool_receipt p) storage config now (Some tx) = Ok (Some response, None) /\
  GetTransactionReceiptProof (pool_receipt p) storage prove config now (Some tx)
    = Ok (Some (mkProofResponse response (Some proof)), None).
Proof.
  intros Hp Hv Hprove response.
  assert (getTransactionStatus (pool_receipt p) storage config now (ref_Txhash tx) (ref_TransactionTimestamp tx)
          = Ok (Some response, None)) as Hs.
  { unfold getTransactionStatus, getFromTxPool, pool_receipt. by rewrite Hp. }
  unfold GetTransactionStatus, GetTransactionReceiptProof. rewrite Hv, Hs. split; [done|]. simpl. by rewrite Hprove.
Qed.
End Composition.

(** ** Examples *)

Module Example.
Definition result (height : Z) : txOutput := mkTxOutput TRANSACTION_STATUS_COMMITTED None height 0.
Definition pending : AddNewTransactionOutput := mkAddOutput None TRANSACTION_STATUS_PENDING 4 40.

(** A request waits under the key [7]. *)
Definition waiting : api_state unit :=
  mkApi (mkWaiter {[ [7] := [0%nat] ]} {[ 0%nat := mkWaiterChannel [7] None false ]} 1)
    {[ 0%nat := Waiting (addOutputToTxOutput pending) ]} [] [].

Lemma waiting_reached : rtc api_step (new_api unit) waiting.
Proof.
  eapply rtc_l; [apply (step_request newWaiter ∅ [] [] [7] (fst (add newWaiter [7])) 0); reflexivity|].
  eapply rtc_l; [eapply (step_wait _ _ _ _ 0%nat false pending None); reflexivity|].
  match goal with |- rtc _ ?x ?y => replace x with y by reflexivity end. apply rtc_refl.
Qed.

Lemma waiter_safe_witness : exists w', deleteByChannel (api_waiter waiting) 0 = Ok w'.
Proof. by eapply (proj1 (waiter_safe waiting waiting_reached) 0%nat). Defined.

(** The result is put in its channel. *)
Definition reported : api_state unit :=
  mkApi (mkWaiter (delete [7] {[ [7] := [0%nat] ]}) {[ 0%nat := mkWaiterChannel [7] None false ]} 1)
    {[ 0%nat := Waiting (addOutputToTxOutput pending) ]} [mkCompleter [0%nat] (result 5) None] [([7], result 5)].
Definition put : api_state unit :=
  mkApi (set_wc (api_waiter reported) 0 (mkWaiterChannel [7] (Some (result 5)) false))
    (api_requests reported) [mkCompleter [] (result 5) (Some 0%nat)] [([7], result 5)].

Lemma result_not_lost_witness : exists w, receive (api_waiter put) 0 = Some (w, Some (result 5)).
Proof.
  refine (result_not_lost waiting 0 _ [7] (result 5) _ _ put waiting_reached eq_refl eq_refl _ eq_refl _ _).
  - apply list_elem_of_singleton. reflexivity.
  - eapply rtc_l; [|apply rtc_refl]. apply (step_put _ _ [] 0 [] (result 5) [] _). reflexivity.
  - intros c [->|Hc]%elem_of_cons; [reflexivity|by apply not_elem_of_nil in Hc].
Defined.
End Example.
End PublicApi.
