(* ===== verification/Transport.v ===== *)
(** * Gossip over TCP (services/gossip/adapter/tcp, services/gossip/adapter)

    The queue of a peer with its budget of bytes, the framing of messages on a
    connection, the loops at both ends of it, and the table of peers. *)

From stdpp Require Import base list gmap relations.
From Stdlib Require Import ZArith Lia ZifyBool.
From S2P Require Import Prelude Digest.

Module Transport.

(** ** Messages (adapter/transport.go) *)

Inductive RecipientsListMode :=
| RECIPIENT_LIST_MODE_RESERVED
| RECIPIENT_LIST_MODE_BROADCAST
| RECIPIENT_LIST_MODE_LIST
| RECIPIENT_LIST_MODE_ALL_BUT_LIST.

Record TransportData := mkData {
  SenderNodeAddress : bytes;
  RecipientMode : RecipientsListMode;
  RecipientNodeAddresses : list bytes;
  Payloads : list bytes
}.

Definition TotalSize (d : TransportData) : Z :=
  foldr (fun payload res => Z.of_nat (length payload) + res) 0 (Payloads d).

(** ** The queue (adapter/tcp/queue.go) *)

Definition MAX_PAYLOADS_IN_MESSAGE : Z := 100000.
Definition MAX_PAYLOAD_SIZE_BYTES : Z := 20 * 1024 * 1024.
Definition SEND_QUEUE_MAX_MESSAGES : Z := 1000.
Definition SEND_QUEUE_MAX_BYTES : Z := 20 * 1024 * 1024.

Inductive queue_error :=
| ErrDisabled
| QueueFullError (bytesAttempted bytesInQueue queueSize : Z)
| ErrTooManyMessages.

Definition IsQueueFullError (e : queue_error) : bool :=
  match e with QueueFullError _ _ _ => true | _ => false end.

Record transportQueue := mkQueue {
  channel : list TransportData;
  maxBytes : Z;
  maxMessages : Z;
  bytesLeft : Z;
  disabled : bool
}.

Definition NewTransportQueue (maxSizeBytes maxSizeMessages : Z) : transportQueue :=
  mkQueue [] maxSizeBytes maxSizeMessages maxSizeBytes false.

Definition set_bytesLeft (q : transportQueue) (n : Z) : transportQueue :=
  mkQueue (channel q) (maxBytes q) (maxMessages q) n (disabled q).
Definition set_channel (q : transportQueue) (ch : list TransportData) : transportQueue :=
  mkQueue ch (maxBytes q) (maxMessages q) (bytesLeft q) (disabled q).
Definition set_disabled (q : transportQueue) (b : bool) : transportQueue :=
  mkQueue (channel q) (maxBytes q) (maxMessages q) (bytesLeft q) b.

Definition consumeBytes (q : transportQueue) (data : TransportData) : queue_error + transportQueue :=
  if disabled q then inl ErrDisabled
  else
    let dataSize := TotalSize data in
    if bytesLeft q <? dataSize then inl (QueueFullError dataSize (maxBytes q - bytesLeft q) (maxBytes q))
    else inr (set_bytesLeft q (bytesLeft q - dataSize)).

Definition releaseBytes (q : transportQueue) (data : TransportData) : transportQueue :=
  set_bytesLeft q (bytesLeft q + TotalSize data).

(** A send on the buffered channel, when it has room. *)
Definition channel_send (q : transportQueue) (data : TransportData) : option transportQueue :=
  if Z.of_nat (length (channel q)) <? maxMessages q then Some (set_channel q (channel q ++ [data])) else None.

Definition Push (q : transportQueue) (data : TransportData) : transportQueue * option queue_error :=
  match consumeBytes q data with
  | inl e => (q, Some e)
  | inr q' =>
      match channel_send q' data with
      | Some q'' => (q'', None)
      | None => (q', Some ErrTooManyMessages)
      end
  end.

(** [ctxDone] is the case of the [select] that is taken; on an empty queue the other
    one waits for the context, which is done in the end. *)
Definition Pop (ctxDone : bool) (q : transportQueue) : transportQueue * option TransportData :=
  if ctxDone then (q, None)
  else match channel q with
       | [] => (q, None)
       | res :: rest => (releaseBytes (set_channel q rest) res, Some res)
       end.

(** [rounds] is the number of rounds before the context is done. *)
Fixpoint Clear (rounds : nat) (q : transportQueue) : transportQueue :=
  match rounds, channel q with
  | S rounds, res :: rest => Clear rounds (releaseBytes (set_channel q rest) res)
  | _, _ => q
  end.

Definition Disable (q : transportQueue) : transportQueue := set_disabled q true.
Definition Enable (q : transportQueue) : transportQueue := set_disabled q false.
Definition OnNewConnection (rounds : nat) (q : transportQueue) : transportQueue := Enable (Clear rounds q).

(** *** The queue under many goroutines

    The bytes and the channel are updated one after the other: between the two a
    message is being pushed or being released. [dropped] are the messages whose
    bytes were taken and which the channel had no room for. *)

Record queue_state := mkQueueState {
  queue : transportQueue;
  pushing : list TransportData;
  releasing : list TransportData;
  dropped : list TransportData
}.

Inductive queue_step : queue_state -> queue_state -> Prop :=
| step_consume q q' ps rs ds d :
    consumeBytes q d = inr q' -> queue_step (mkQueueState q ps rs ds) (mkQueueState q' (d :: ps) rs ds)
| step_send q q' ps1 d ps2 rs ds :
    channel_send q d = Some q' ->
    queue_step (mkQueueState q (ps1 ++ d :: ps2) rs ds) (mkQueueState q' (ps1 ++ ps2) rs ds)
| step_drop q ps1 d ps2 rs ds :
    channel_send q d = None ->
    queue_step (mkQueueState q (ps1 ++ d :: ps2) rs ds) (mkQueueState q (ps1 ++ ps2) rs (d :: ds))
| step_receive q d rest ps rs ds :
    channel q = d :: rest ->
    queue_step (mkQueueState q ps rs ds) (mkQueueState (set_channel q rest) ps (d :: rs) ds)
| step_release q ps rs1 d rs2 ds :
    queue_step (mkQueueState q ps (rs1 ++ d :: rs2) ds) (mkQueueState (releaseBytes q d) ps (rs1 ++ rs2) ds)
| step_disabled q b ps rs ds :
    queue_step (mkQueueState q ps rs ds) (mkQueueState (set_disabled q b) ps rs ds).

Definition new_queue_state (maxSizeBytes maxSizeMessages : Z) : queue_state :=
  mkQueueState (NewTransportQueue maxSizeBytes maxSizeMessages) [] [] [].

(** ** The wire (adapter/tcp/outgoing_connection.go, server.go) *)

(** Integers in messages, from the membuffers library. *)
Class Uint32Codec := { WriteUint32 : Z -> bytes; GetUint32 : bytes -> Z }.

Class Uint32CodecLaws `{Uint32Codec} : Prop := {
  WriteUint32_length z : length (WriteUint32 z) = 4%nat;
  GetUint32_Write z : is_u32 z -> GetUint32 (WriteUint32 z) = z;
  WriteUint32_zero : WriteUint32 0 = [0; 0; 0; 0]
}.

Definition calcPaddingSize (size : Z) : Z :=
  let contentAlignment := 4 in
  let alignedSize := wrap 32 (u32_sub (u32_add size contentAlignment) 1 / contentAlignment * contentAlignment) in
  u32_sub alignedSize size.

(** What a write of a buffer does: all of it, its first bytes, or nothing, when the
    context is done or the deadline cannot be set. *)
Inductive write_result := Written | WroteOnly (n : nat) | NotWritten.

(** The bytes that reach the connection, what later writes do, and success. Writes
    past the listed ones succeed. *)
Definition write (results : list write_result) (buffer : bytes) : bytes * list write_result * bool :=
  match results with
  | [] => (buffer, [], true)
  | Written :: rest => (buffer, rest, true)
  | WroteOnly n :: rest => (take n buffer, rest, (length buffer <=? n)%nat)
  | NotWritten :: rest => ([], rest, false)
  end.

Fixpoint write_all (results : list write_result) (buffers : list bytes) : bytes * list write_result * bool :=
  match buffers with
  | [] => ([], results, true)
  | buffer :: rest =>
      let '(out, results, ok) := write results buffer in
      if ok then let '(out', results, ok) := write_all results rest in (out ++ out', results, ok)
      else (out, results, false)
  end.

Section Wire.
Context `{Uint32Codec}.

Definition payload_buffers (payload : bytes) : list bytes :=
  let size := wrap 32 (Z.of_nat (length payload)) in
  [WriteUint32 size; payload]
    ++ (if 0 <? calcPaddingSize size then [replicate (Z.to_nat (calcPaddingSize size)) 0] else []).

Definition message_buffers (data : TransportData) : list bytes :=
  WriteUint32 (wrap 32 (Z.of_nat (length (Payloads data)))) :: concat (map payload_buffers (Payloads data)).

Definition sendToSocket (results : list write_result) (data : TransportData) : bytes * bool :=
  let '(out, _, ok) := write_all results (message_buffers data) in (out, ok).

Definition sendKeepAlive (results : list write_result) : bytes * bool :=
  let '(out, _, ok) := write results [0; 0; 0; 0] in (out, ok).

(** What happens to a connection: another goroutine pushes a message, a message is
    popped and written, the keep-alive interval ends, or the connection is to be
    closed. *)
Inductive connection_event :=
| PushEvent (data : TransportData)
| PopEvent (results : list write_result)
| KeepAliveEvent (results : list write_result)
| DisconnectEvent.

(** [reconnect] is the value returned, [None] while the loop runs; [accepted] are the
    messages the queue took. *)
Record connection_run := mkRun {
  run_queue : transportQueue;
  run_wire : bytes;
  run_accepted : list TransportData;
  run_reconnect : option bool
}.

Definition run_after (wire : bytes) (accepted : list TransportData) (r : connection_run) : connection_run :=
  mkRun (run_queue r) (wire ++ run_wire r) (accepted ++ run_accepted r) (run_reconnect r).

Fixpoint connection_loop (q : transportQueue) (events : list connection_event) : connection_run :=
  match events with
  | [] => mkRun q [] [] None
  | PushEvent data :: events =>
      match Push q data with
      | (q, None) => run_after [] [data] (connection_loop q events)
      | (q, Some _) => connection_loop q events
      end
  | PopEvent results :: events =>
      match Pop false q with
      | (q, Some data) =>
          let '(out, ok) := sendToSocket results data in
          if ok then run_after out [] (connection_loop q events)
          else mkRun (Disable q) out [] (Some true)
      | (q, None) => connection_loop q events
      end
  | KeepAliveEvent results :: events =>
      let '(out, ok) := sendKeepAlive results in
      if ok then run_after out [] (connection_loop q events)
      else mkRun (Disable q) out [] (Some true)
  | DisconnectEvent :: _ => mkRun (Disable q) [] [] (Some false)
  end.

Definition handleOutgoingConnection (rounds : nat) (q : transportQueue) (events : list connection_event)
    : connection_run :=
  connection_loop (OnNewConnection rounds q) events.

(** *** The receiving end *)

(** A read returns at most so many bytes, with or without an error. *)
Record read_result := mkRead { read_size : nat; read_error : bool }.

(** [incoming] are the bytes on the wire; past the listed reads the deadline passes;
    [cancelled] is the number of [readTotal] calls after which the context is done. *)
Record net_conn := mkConn { incoming : bytes; reads : list read_result; cancelled : option nat }.

Inductive receive_error := ErrRead | ErrContext | ErrTooManyPayloads | ErrPayloadTooBig.

Fixpoint read_loop (rs : list read_result) (input : bytes) (remaining : nat)
    : outcome receive_error (bytes * bytes * list read_result) :=
  if (remaining =? 0)%nat then Ok ([], input, rs)
  else match rs with
       | [] => Err ErrRead
       | r :: rs =>
           let n := Nat.min (read_size r) (Nat.min remaining (length input)) in
           if (n =? remaining)%nat then Ok (take n input, drop n input, rs)
           else if read_error r then Err ErrRead
           else let! out := read_loop rs (drop n input) (remaining - n) in
                let '(buffer, input', rs') := out in Ok (take n input ++ buffer, input', rs')
       end.

Definition readTotal (conn : net_conn) (totalSize : Z) : outcome receive_error (bytes * net_conn) :=
  match cancelled conn with
  | Some O => Err ErrContext
  | c => let! out := read_loop (reads conn) (incoming conn) (Z.to_nat totalSize) in
         let '(buffer, input, rs) := out in Ok (buffer, mkConn input rs (option_map pred c))
  end.

Fixpoint receive_payloads (n : nat) (conn : net_conn) : outcome receive_error (list bytes * net_conn) :=
  match n with
  | O => Ok ([], conn)
  | S n =>
      let! sizeBuffer := readTotal conn 4 in
      let payloadSize := GetUint32 sizeBuffer.1 in
      if MAX_PAYLOAD_SIZE_BYTES <? payloadSize then Err ErrPayloadTooBig
      else
        let! payload := readTotal sizeBuffer.2 payloadSize in
        let paddingSize := calcPaddingSize (wrap 32 (Z.of_nat (length payload.1))) in
        let! padding := (if 0 <? paddingSize then readTotal payload.2 paddingSize else Ok ([], payload.2)) in
        let! rest := receive_payloads n padding.2 in
        Ok (payload.1 :: rest.1, rest.2)
  end.

Definition receiveTransportData (conn : net_conn) : outcome receive_error (list bytes * net_conn) :=
  let! sizeBuffer := readTotal conn 4 in
  let numPayloads := GetUint32 sizeBuffer.1 in
  if MAX_PAYLOADS_IN_MESSAGE <? numPayloads then Err ErrTooManyPayloads
  else receive_payloads (Z.to_nat numPayloads) sizeBuffer.2.

(** The payloads the listener is notified of, and the error that ends the loop. *)
Fixpoint incoming_loop (fuel : nat) (conn : net_conn) : list (list bytes) * option receive_error :=
  match fuel with
  | O => ([], None)
  | S fuel =>
      match receiveTransportData conn with
      | Ok (payloads, conn) =>
          let '(notified, e) := incoming_loop fuel conn in
          (match payloads with [] => notified | _ => payloads :: notified end, e)
      | Err e => ([], Some e)
      | Panic => ([], None)
      end
  end.

(** Every round takes a read. *)
Definition handleIncomingConnection (conn : net_conn) : list (list bytes) * option receive_error :=
  incoming_loop (S (length (reads conn))) conn.
End Wire.

(** ** Peers (adapter/peers.go, adapter/tcp/outgoing_connections.go) *)

Record gossipPeer := mkPeer { gossipPort : Z; gossipEndpoint : bytes; hexOrbsAddress : bytes }.

Definition peerHasChangedPortOrIPAddress (p1 p2 : gossipPeer) : bool :=
  bool_decide (gossipEndpoint p1 <> gossipEndpoint p2) || negb (gossipPort p1 =? gossipPort p2).

(** The peers of [a] that [b] does not have, or has at another address. *)
Definition peers_missing (a b : gmap bytes gossipPeer) : gmap bytes gossipPeer :=
  map_imap (fun k n =>
    match b !! k with
    | Some o => if peerHasChangedPortOrIPAddress n o then Some n else None
    | None => Some n
    end) a.

(** [peersToRemove] and [peersToAdd]. *)
Definition PeerDiff (oldPeers newPeers : gmap bytes gossipPeer) : gmap bytes gossipPeer * gmap bytes gossipPeer :=
  (peers_missing oldPeers newPeers, peers_missing newPeers oldPeers).

Record outgoingConnection := mkConnection { oc_peer : gossipPeer; oc_queue : transportQueue }.

(** The hexadecimal address is sliced to its first six characters. *)
Definition newOutgoingConnection (peer : gossipPeer) : outcome unit outgoingConnection :=
  if (length (hexOrbsAddress peer) <? 6)%nat then Panic
  else Ok (mkConnection peer (Disable (NewTransportQueue SEND_QUEUE_MAX_BYTES SEND_QUEUE_MAX_MESSAGES))).

Record outgoingConnections := mkConnections {
  activeConnections : gmap bytes outgoingConnection;
  peerTopology : gmap bytes gossipPeer;
  nodeAddress : bytes
}.

Definition connectForever (c : outgoingConnections) (peerNodeAddress : bytes) (peer : gossipPeer)
    : outcome unit outgoingConnections :=
  if bool_decide (nodeAddress c <> peerNodeAddress) then
    let! client := newOutgoingConnection peer in
    Ok (mkConnections (<[peerNodeAddress := client]> (activeConnections c))
          (<[peerNodeAddress := peer]> (peerTopology c)) (nodeAddress c))
  else Ok c.

(** [closes] tells which connections close before the system shuts down. *)
Definition disconnect_one (closes : bytes -> bool) (c : outgoingConnections) (key : bytes) : outgoingConnections :=
  mkConnections
    (if closes key then delete key (activeConnections c) else activeConnections c)
    (delete key (peerTopology c)) (nodeAddress c).

Definition disconnectAll (closes : bytes -> bool) (c : outgoingConnections) (peers : list (bytes * gossipPeer))
    : outgoingConnections :=
  foldl (fun c p => disconnect_one closes c p.1) c peers.

Fixpoint connect_all (c : outgoingConnections) (peers : list (bytes * gossipPeer)) : outcome unit outgoingConnections :=
  match peers with
  | [] => Ok c
  | (peerNodeAddress, peer) :: rest => let! c := connectForever c peerNodeAddress peer in connect_all c rest
  end.

Definition updateTopology (closes : bytes -> bool) (c : outgoingConnections) (newPeers : gmap bytes gossipPeer)
    : outcome unit outgoingConnections :=
  let '(peersToRemove, peersToAdd) := PeerDiff (peerTopology c) newPeers in
  connect_all (disconnectAll closes c (map_to_list peersToRemove)) (map_to_list peersToAdd).

Definition addDataToOutgoingPeerQueue (client : outgoingConnection) (data : TransportData) : outgoingConnection :=
  mkConnection (oc_peer client) (fst (Push (oc_queue client) data)).

Definition send_to (data : TransportData) (c : outgoingConnections) (recipient : bytes) : outgoingConnections :=
  match activeConnections c !! recipient with
  | Some client =>
      mkConnections (<[recipient := addDataToOutgoingPeerQueue client data]> (activeConnections c))
        (peerTopology c) (nodeAddress c)
  | None => c
  end.

Inductive transport_error := ErrUnknownRecipientMode | ErrQueue (e : queue_error).

(** What the queues refuse is logged. *)
Definition send (c : outgoingConnections) (data : TransportData) : outcome transport_error outgoingConnections :=
  match RecipientMode data with
  | RECIPIENT_LIST_MODE_BROADCAST =>
      Ok (mkConnections ((fun client => addDataToOutgoingPeerQueue client data) <$> activeConnections c)
            (peerTopology c) (nodeAddress c))
  | RECIPIENT_LIST_MODE_LIST => Ok (foldl (send_to data) c (RecipientNodeAddresses data))
  | RECIPIENT_LIST_MODE_ALL_BUT_LIST => Panic
  | RECIPIENT_LIST_MODE_RESERVED => Err ErrUnknownRecipientMode
  end.

(** ** Accounting of the queue *)

Definition bytes_of (l : list TransportData) : Z := foldr (fun d n => TotalSize d + n) 0 l.

Lemma bytes_of_app l1 l2 : bytes_of (l1 ++ l2) = bytes_of l1 + bytes_of l2.
Proof. unfold bytes_of. induction l1; simpl; lia. Qed.

Lemma bytes_of_cons d l : bytes_of (d :: l) = TotalSize d + bytes_of l.
Proof. done. Qed.

Lemma TotalSize_nonneg d : 0 <= TotalSize d.
Proof. unfold TotalSize. induction (Payloads d); simpl; lia. Qed.

Lemma bytes_of_nonneg l : 0 <= bytes_of l.
Proof. induction l as [|d l IH]; [done|]. rewrite bytes_of_cons. pose proof (TotalSize_nonneg d). lia. Qed.

Record queue_ok (mb mm : Z) (s : queue_state) : Prop := {
  ok_maxBytes : maxBytes (queue s) = mb;
  ok_maxMessages : maxMessages (queue s) = mm;
  ok_left : 0 <= bytesLeft (queue s);
  ok_length : Z.of_nat (length (channel (queue s))) <= mm;
  ok_sum : bytesLeft (queue s) + bytes_of (channel (queue s)) + bytes_of (pushing s) + bytes_of (releasing s)
           + bytes_of (dropped s) = mb
}.

Lemma queue_step_ok mb mm s s' : queue_step s s' -> queue_ok mb mm s -> queue_ok mb mm s'.
Proof.
  intros Hstep [H1 H2 H3 H4 H5].
  destruct Hstep as [q q' ps rs ds d Hc|q q' ps1 d ps2 rs ds Hc|q ps1 d ps2 rs ds Hc|q d rest ps rs ds Hc
                    |q ps rs1 d rs2 ds|q b ps rs ds]; simpl in *.
  - unfold consumeBytes in Hc. destruct (disabled q); [done|]. destruct (bytesLeft q <? TotalSize d) eqn:E; [done|].
    injection Hc as <-. split; simpl; rewrite ?bytes_of_cons; lia.
  - unfold channel_send in Hc. destruct (_ <? _) eqn:E; [|done]. injection Hc as <-.
    rewrite bytes_of_app, bytes_of_cons in H5.
    split; simpl; rewrite ?length_app, ?bytes_of_app, ?bytes_of_cons; simpl; lia.
  - rewrite bytes_of_app, bytes_of_cons in H5. split; simpl; rewrite ?bytes_of_app, ?bytes_of_cons; lia.
  - rewrite Hc, ?bytes_of_cons in *. simpl in H4. split; simpl; rewrite ?bytes_of_cons; lia.
  - rewrite bytes_of_app, bytes_of_cons in H5. pose proof (TotalSize_nonneg d).
    split; simpl; rewrite ?bytes_of_app; lia.
  - split; simpl; lia.
Qed.

Lemma queue_steps_ok mb mm s s' : rtc queue_step s s' -> queue_ok mb mm s -> queue_ok mb mm s'.
Proof. induction 1; eauto using queue_step_ok. Qed.

Lemma new_queue_ok mb mm : 0 <= mb -> 0 <= mm -> queue_ok mb mm (new_queue_state mb mm).
Proof. split; simpl; lia. Qed.

(** In every interleaving of pushes, pops and clearing, the bytes left stay
    within the budget, the channel within its capacity, and the bytes left are
    those not held by a message in the channel, on its way in or out, or dropped. *)
Theorem queue_accounting mb mm s :
  0 <= mb -> 0 <= mm -> rtc queue_step (new_queue_state mb mm) s ->
  0 <= bytesLeft (queue s) <= mb /\ Z.of_nat (length (channel (queue s))) <= mm /\
  bytesLeft (queue s) = mb - bytes_of (channel (queue s) ++ pushing s ++ releasing s ++ dropped s).
Proof.
  intros Hb Hm Hs. destruct (queue_steps_ok _ _ _ _ Hs (new_queue_ok mb mm Hb Hm)) as [H1 H2 H3 H4 H5].
  rewrite !bytes_of_app. pose proof (bytes_of_nonneg (channel (queue s))). pose proof (bytes_of_nonneg (pushing s)).
  pose proof (bytes_of_nonneg (releasing s)). pose proof (bytes_of_nonneg (dropped s)). lia.
Qed.

Lemma dropped_grow s s' : rtc queue_step s s' -> bytes_of (dropped s) <= bytes_of (dropped s').
Proof.
  induction 1 as [|s s1 s' Hstep _ IH]; [done|]. etransitivity; [|exact IH]. destruct Hstep; cbn [dropped]; try done.
  rewrite bytes_of_cons. pose proof (TotalSize_nonneg d). lia.
Qed.

(** The bytes of a message the channel had no room for are never given back: a
    message that does not fit in what the dropped messages leave is refused in
    every later state, also when the queue is empty. *)
Theorem dropped_bytes_lost mb mm s s' d :
  0 <= mb -> 0 <= mm -> rtc queue_step (new_queue_state mb mm) s -> mb - bytes_of (dropped s) < TotalSize d ->
  rtc queue_step s s' ->
  exists e, Push (queue s') d = (queue s', Some e).
Proof.
  intros Hb Hm Hs Hd Hs'. pose proof (dropped_grow _ _ Hs') as Hg.
  assert (rtc queue_step (new_queue_state mb mm) s') as Hall by by etransitivity.
  destruct (queue_steps_ok mb mm _ _ Hall (new_queue_ok mb mm Hb Hm)) as [H1 H2 H3 H4 H5].
  pose proof (bytes_of_nonneg (channel (queue s'))). pose proof (bytes_of_nonneg (pushing s')).
  pose proof (bytes_of_nonneg (releasing s')).
  unfold Push, consumeBytes. destruct (disabled (queue s')); [eauto|]. replace (_ <? _) with true by lia. eauto.
Qed.

(** The operations are steps. *)
Lemma Push_steps q d ps rs ds :
  exists ds', rtc queue_step (mkQueueState q ps rs ds) (mkQueueState (fst (Push q d)) ps rs ds').
Proof.
  unfold Push. destruct (consumeBytes q d) as [e|q'] eqn:Hc; [exists ds; apply rtc_refl|].
  destruct (channel_send q' d) as [q''|] eqn:Hs.
  - exists ds. eapply rtc_l; [by apply step_consume|]. eapply rtc_l; [by apply (step_send q' q'' [])|apply rtc_refl].
  - exists (d :: ds). eapply rtc_l; [by apply step_consume|]. eapply rtc_l; [by apply (step_drop q' [])|apply rtc_refl].
Qed.

Lemma take_steps q d rest ps rs ds :
  channel q = d :: rest ->
  rtc queue_step (mkQueueState q ps rs ds) (mkQueueState (releaseBytes (set_channel q rest) d) ps rs ds).
Proof.
  intros E. eapply rtc_l; [by apply step_receive|]. eapply rtc_l; [by apply (step_release (set_channel q rest) ps [])|apply rtc_refl].
Qed.

Lemma Pop_steps c q ps rs ds : rtc queue_step (mkQueueState q ps rs ds) (mkQueueState (fst (Pop c q)) ps rs ds).
Proof. unfold Pop. destruct c; [apply rtc_refl|]. destruct (channel q) eqn:E; [apply rtc_refl|by apply take_steps]. Qed.

Lemma OnNewConnection_steps n q ps rs ds :
  rtc queue_step (mkQueueState q ps rs ds) (mkQueueState (OnNewConnection n q) ps rs ds).
Proof.
  eapply rtc_r; [|apply step_disabled]. revert q. induction n as [|n IH]; intros q; [apply rtc_refl|].
  simpl. destruct (channel q) eqn:E; [apply rtc_refl|]. etransitivity; [by apply take_steps|apply IH].
Qed.

(** ** Framing *)

Section Framing.
Context `{Uint32CodecLaws}.

Definition payload_bytes (payload : bytes) : bytes := concat (payload_buffers payload).
Definition frame (payloads : list bytes) : bytes :=
  WriteUint32 (wrap 32 (Z.of_nat (length payloads))) ++ concat (map payload_bytes payloads).

Definition sendable (payloads : list bytes) : Prop :=
  Z.of_nat (length payloads) <= MAX_PAYLOADS_IN_MESSAGE /\
  Forall (fun payload => Z.of_nat (length payload) <= MAX_PAYLOAD_SIZE_BYTES) payloads.

Definition notifiable (items : list (list bytes)) : list (list bytes) :=
  List.filter (fun payloads => match payloads with [] => false | _ => true end) items.

Lemma message_buffers_frame d : concat (message_buffers d) = frame (Payloads d).
Proof.
  unfold message_buffers, frame. cbn [concat]. f_equal. unfold payload_bytes.
  induction (Payloads d) as [|p l IH]; [done|]. cbn [map concat]. by rewrite concat_app, IH.
Qed.

Lemma write_prefix rs b out rs' ok :
  write rs b = (out, rs', ok) -> out `prefix_of` b /\ (ok = true -> out = b).
Proof.
  unfold write. destruct rs as [|[|n|] rs]; intros [= <- <- <-]; [done..| |].
  - split; [apply prefix_take|]. intros Hn%Nat.leb_le. by rewrite take_ge.
  - split; [apply prefix_nil|done].
Qed.

Lemma write_all_prefix bs : forall rs out rs' ok,
  write_all rs bs = (out, rs', ok) -> out `prefix_of` concat bs /\ (ok = true -> out = concat bs).
Proof.
  induction bs as [|b bs IH]; intros rs out rs' ok Hw; simpl in Hw; [by injection Hw as <- <- <-|].
  destruct (write rs b) as [[o1 r1] []] eqn:E1; apply write_prefix in E1 as [Hp He].
  - rewrite (He eq_refl) in *. destruct (write_all r1 bs) as [[o2 r2] k2] eqn:E2. injection Hw as <- <- <-.
    destruct (IH _ _ _ _ E2) as [Hp2 He2]. cbn [concat]. split; [by apply prefix_app|]. intros ->. by rewrite He2.
  - injection Hw as <- <- <-. split; [|done]. cbn [concat]. by apply prefix_app_r.
Qed.

Lemma sendToSocket_prefix rs d out ok :
  sendToSocket rs d = (out, ok) -> out `prefix_of` frame (Payloads d) /\ (ok = true -> out = frame (Payloads d)).
Proof.
  unfold sendToSocket. destruct (write_all _ _) as [[o r] k] eqn:E. intros [= <- <-].
  rewrite <- message_buffers_frame. by apply write_all_prefix in E.
Qed.

Lemma frame_nil : frame [] = [0; 0; 0; 0].
Proof. unfold frame. simpl. by rewrite WriteUint32_zero. Qed.

Lemma sendKeepAlive_prefix rs out ok :
  sendKeepAlive rs = (out, ok) -> out `prefix_of` frame [] /\ (ok = true -> out = frame []).
Proof.
  unfold sendKeepAlive. destruct (write rs _) as [[o r] k] eqn:E. intros [= <- <-].
  rewrite frame_nil. by apply write_prefix in E.
Qed.

(** *** Reading *)

Lemma read_loop_Ok rs : forall input n b input' rs',
  read_loop rs input n = Ok (b, input', rs') ->
  input = b ++ input' /\ length b = n /\ (length rs' <= length rs)%nat /\ (n <> 0 -> length rs' < length rs)%nat.
Proof.
  induction rs as [|r rs IH]; intros input n b input' rs'; simpl; destruct (n =? 0)%nat eqn:En.
  - intros [= <- <- <-]. apply Nat.eqb_eq in En as ->. simpl. split_and!; (done || lia).
  - done.
  - intros [= <- <- <-]. apply Nat.eqb_eq in En as ->. simpl. split_and!; (done || lia).
  - set (k := Nat.min (read_size r) (Nat.min n (length input))). destruct (k =? n)%nat eqn:Ek.
    + intros [= <- <- <-]. rewrite take_drop, length_take. split_and!; (done || lia).
    + destruct (read_error r); [done|]. destruct (read_loop rs (drop k input) (n - k)) as [[[b1 i1] r1]| |] eqn:E; try done.
      intros [= <- <- <-]. destruct (IH _ _ _ _ _ E) as (H1 & H2 & H3 & H4).
      rewrite <- app_assoc, <- H1, take_drop, length_app, length_take. split_and!; (done || lia).
Qed.

Lemma readTotal_Ok conn n b conn' :
  readTotal conn n = Ok (b, conn') ->
  incoming conn = b ++ incoming conn' /\ length b = Z.to_nat n /\
  (length (reads conn') <= length (reads conn))%nat /\ (0 < n -> (length (reads conn') < length (reads conn))%nat).
Proof.
  unfold readTotal. intros Hr. destruct (cancelled conn) as [[|c]|]; [done|..].
  all: inv_bind Hr; destruct x as [[b1 i1] r1]; injection Hr as <- <-; apply read_loop_Ok in Hx; simpl.
  all: destruct Hx as (H1 & H2 & H3 & H4); split_and!; (done || lia).
Qed.

Lemma calcPaddingSize_bound n : 0 <= n <= MAX_PAYLOAD_SIZE_BYTES -> 0 <= calcPaddingSize n < 4.
Proof.
  unfold MAX_PAYLOAD_SIZE_BYTES. intros Hn. unfold calcPaddingSize.
  rewrite (u32_add_small n 4), (u32_sub_small (n + 4) 1) by lia.
  assert (n <= (n + 4 - 1) / 4 * 4 < n + 4) by (Z.to_euclidean_division_equations; lia).
  rewrite wrap_small, u32_sub_small by lia. lia.
Qed.

Lemma payload_bytes_split p :
  Z.of_nat (length p) <= MAX_PAYLOAD_SIZE_BYTES ->
  payload_bytes p = WriteUint32 (Z.of_nat (length p)) ++ p
                    ++ replicate (Z.to_nat (calcPaddingSize (Z.of_nat (length p)))) 0.
Proof.
  intros Hp. unfold payload_bytes, payload_buffers. unfold MAX_PAYLOAD_SIZE_BYTES in Hp. rewrite wrap_small by lia.
  pose proof (calcPaddingSize_bound (Z.of_nat (length p))) as Hc. unfold MAX_PAYLOAD_SIZE_BYTES in Hc.
  destruct (0 <? calcPaddingSize _) eqn:E; cbn [app concat]; rewrite app_nil_r; [done|].
  replace (calcPaddingSize _) with 0 by lia. simpl. by rewrite app_nil_r.
Qed.

Lemma read_exact conn n b conn' tail s rest :
  readTotal conn n = Ok (b, conn') -> incoming conn ++ tail = s ++ rest -> length s = Z.to_nat n ->
  b = s /\ incoming conn' ++ tail = rest /\ (length (reads conn') <= length (reads conn))%nat.
Proof.
  intros (H1 & H2 & H3 & _)%readTotal_Ok Hin Hs. rewrite H1, <- app_assoc in Hin.
  apply app_inj_1 in Hin as [-> Hin]; [done|lia].
Qed.

(** What a message is received as, from a connection that may end within it:
    [tail] is what does not arrive. *)
Lemma receive_payloads_Ok ps : forall conn tail rest x conn',
  Forall (fun p => Z.of_nat (length p) <= MAX_PAYLOAD_SIZE_BYTES) ps ->
  incoming conn ++ tail = concat (map payload_bytes ps) ++ rest ->
  receive_payloads (length ps) conn = Ok (x, conn') ->
  x = ps /\ incoming conn' ++ tail = rest /\ (length (reads conn') <= length (reads conn))%nat.
Proof.
  induction ps as [|p ps IH]; intros conn tail rest x conn' Hps Hin Hr; cbn [length receive_payloads] in Hr.
  { injection Hr as <- <-. done. }
  apply Forall_cons in Hps as [Hp Hps]. cbn [map concat] in Hin.
  rewrite payload_bytes_split, <- !app_assoc in Hin by done.
  pose proof (calcPaddingSize_bound (Z.of_nat (length p))) as Hc. unfold MAX_PAYLOAD_SIZE_BYTES in *.
  inv_bind Hr. destruct x0 as [b1 c1]. cbn [fst snd] in Hr.
  destruct (read_exact _ _ _ _ _ _ _ Hx Hin) as (-> & Hin1 & L1); [by rewrite WriteUint32_length|].
  rewrite GetUint32_Write in Hr by (unfold is_u32; lia). replace (20 * 1024 * 1024 <? _) with false in Hr by lia.
  inv_bind Hr. destruct x0 as [b2 c2]. cbn [fst snd] in Hr.
  destruct (read_exact _ _ _ _ _ _ _ Hx0 Hin1) as (-> & Hin2 & L2); [by rewrite Nat2Z.id|].
  rewrite wrap_small in Hr by lia. inv_bind Hr. destruct x0 as [b3 c3]. cbn [fst snd] in Hr.
  assert (incoming c3 ++ tail = concat (map payload_bytes ps) ++ rest /\ length (reads c3) <= length (reads c2))%nat as [Hin3 L3].
  { destruct (0 <? calcPaddingSize _) eqn:E.
    - destruct (read_exact _ _ _ _ _ _ _ Hx1 Hin2) as (_ & Hin3 & L3); [by rewrite length_replicate|done].
    - injection Hx1 as <- <-. replace (calcPaddingSize _) with 0 in Hin2 by lia. done. }
  inv_bind Hr. destruct x0 as [b4 c4]. injection Hr as <- <-. cbn [fst snd].
  destruct (IH _ _ _ _ _ Hps Hin3 Hx2) as (-> & Hin4 & L4). split_and!; (done || lia).
Qed.

Lemma receive_Ok ps conn tail rest x conn' :
  sendable ps -> incoming conn ++ tail = frame ps ++ rest -> receiveTransportData conn = Ok (x, conn') ->
  x = ps /\ incoming conn' ++ tail = rest /\ (length (reads conn') < length (reads conn))%nat.
Proof.
  intros [Hn Hps] Hin Hr. unfold receiveTransportData in Hr. inv_bind Hr. destruct x0 as [b c]. cbn [fst snd] in Hr.
  unfold frame in Hin. unfold MAX_PAYLOADS_IN_MESSAGE in *. rewrite wrap_small, <- app_assoc in Hin by lia.
  destruct (read_exact _ _ _ _ _ _ _ Hx Hin) as (-> & Hin1 & _); [by rewrite WriteUint32_length|].
  apply readTotal_Ok in Hx as (_ & _ & _ & Hlt). specialize (Hlt ltac:(lia)).
  rewrite GetUint32_Write in Hr by (unfold is_u32; lia). replace (100000 <? _) with false in Hr by lia.
  rewrite Nat2Z.id in Hr. destruct (receive_payloads_Ok _ _ _ _ _ _ Hps Hin1 Hr) as (-> & Hin2 & L). split_and!; (done || lia).
Qed.

Lemma readTotal_no_panic conn n : readTotal conn n <> Panic.
Proof.
  unfold readTotal. assert (forall rs input k, read_loop rs input k <> Panic) as Hl.
  { induction rs as [|r rs IH]; intros input k; simpl; destruct (_ =? _)%nat; try done.
    destruct (_ =? _)%nat; [done|]. destruct (read_error r); [done|].
    destruct (read_loop rs _ _) as [[[]]| |] eqn:E; try done. by apply IH in E. }
  destruct (cancelled conn) as [[|c]|]; try done.
  all: destruct (read_loop (reads conn) _ _) as [[[]]| |] eqn:E; try done; by apply Hl in E.
Qed.


(** *** The loop of the receiving end *)

(** A result that is not a panic and whose connection has at most so many reads. *)
Definition reads_at_most {A} (n : nat) (out : outcome receive_error (A * net_conn)) : Prop :=
  match out with Ok (_, conn) => (length (reads conn) <= n)%nat | Err _ => True | Panic => False end.

Lemma readTotal_reads conn n k : (length (reads conn) <= k)%nat -> reads_at_most k (readTotal conn n).
Proof.
  intros Hk. destruct (readTotal conn n) as [[b c]| |] eqn:E; simpl; [|done|by apply readTotal_no_panic in E].
  apply readTotal_Ok in E. lia.
Qed.

Lemma reads_bind {A B} k (m : outcome receive_error (A * net_conn)) (f : A * net_conn -> outcome receive_error (B * net_conn)) :
  reads_at_most k m -> (forall x, (length (reads x.2) <= k)%nat -> reads_at_most k (f x)) -> reads_at_most k (bindO m f).
Proof. destruct m as [[a c]| |]; simpl; [|done..]. intros Hc Hf. by apply (Hf (a, c)). Qed.

Lemma receive_payloads_reads n : forall conn k,
  (length (reads conn) <= k)%nat -> reads_at_most k (receive_payloads n conn).
Proof.
  induction n as [|n IH]; intros conn k Hk; [done|]. cbn [receive_payloads].
  apply reads_bind; [by apply readTotal_reads|]. intros x Hx. destruct (_ <? _); [done|].
  apply reads_bind; [by apply readTotal_reads|]. intros y Hy.
  apply reads_bind; [destruct (_ <? _); [by apply readTotal_reads|done]|]. intros z Hz.
  apply reads_bind; [by apply IH|done].
Qed.

Lemma receive_reads conn :
  match receiveTransportData conn with
  | Ok (_, conn') => (length (reads conn') < length (reads conn))%nat
  | Err _ => True
  | Panic => False
  end.
Proof.
  unfold receiveTransportData. destruct (readTotal conn 4) as [[b c]| |] eqn:E; simpl;
    [|done|by apply readTotal_no_panic in E].
  apply readTotal_Ok in E as (_ & _ & _ & Hlt). specialize (Hlt ltac:(lia)). destruct (_ <? _); [done|].
  pose proof (receive_payloads_reads (Z.to_nat (GetUint32 b)) c (length (reads c)) ltac:(lia)) as Hr.
  destruct (receive_payloads _ c) as [[x c']| |]; simpl in Hr; (done || lia).
Qed.

(** The loop ends, with an error, however the reads go. *)
Lemma handleIncomingConnection_ends conn : exists e, snd (handleIncomingConnection conn) = Some e.
Proof.
  unfold handleIncomingConnection. generalize (Nat.lt_succ_diag_r (length (reads conn))).
  generalize (S (length (reads conn))). intros n. revert conn. induction n as [|n IH]; intros conn Hn; [lia|].
  simpl. pose proof (receive_reads conn) as Hr. destruct (receiveTransportData conn) as [[x c]|e|]; [|by exists e|done].
  destruct (IH c) as [e He]; [lia|]. destruct (incoming_loop n c). exists e. done.
Qed.

Lemma notifiable_cons x items :
  notifiable (x :: items) = match x with [] => notifiable items | _ => x :: notifiable items end.
Proof. by destruct x. Qed.

Lemma incoming_prefix n : forall items conn tail,
  Forall sendable items -> incoming conn ++ tail = concat (map frame items) ->
  fst (incoming_loop n conn) `prefix_of` notifiable items.
Proof.
  induction n as [|n IH]; intros items conn tail Hs Hin; simpl; [apply prefix_nil|].
  destruct (receiveTransportData conn) as [[x c]| |] eqn:Hr; [|apply prefix_nil..].
  destruct items as [|ps items]; cbn [map concat] in Hin.
  - apply app_eq_nil in Hin as [Hin _]. unfold receiveTransportData in Hr. inv_bind Hr. destruct x0 as [b c'].
    apply readTotal_Ok in Hx as (Hb & Hl & _). rewrite Hin in Hb. symmetry in Hb. apply app_eq_nil in Hb as [-> _]. done.
  - apply Forall_cons in Hs as [Hps Hs]. destruct (receive_Ok _ _ _ _ _ _ Hps Hin Hr) as (-> & Hin' & _).
    specialize (IH items c tail Hs Hin'). destruct (incoming_loop n c) as [notified e]. cbn [fst] in *.
    rewrite notifiable_cons. destruct ps; [done|]. by apply prefix_cons.
Qed.

(** *** Reads that deliver everything *)

Record delivering (conn : net_conn) : Prop := {
  del_context : cancelled conn = None;
  del_reads : Forall (fun r => (0 < read_size r)%nat /\ read_error r = false) (reads conn);
  del_enough : (length (incoming conn) <= length (reads conn))%nat
}.

Lemma read_loop_delivers rs : forall b rest,
  Forall (fun r => (0 < read_size r)%nat /\ read_error r = false) rs -> (length (b ++ rest) <= length rs)%nat ->
  exists rs', read_loop rs (b ++ rest) (length b) = Ok (b, rest, rs') /\
    Forall (fun r => (0 < read_size r)%nat /\ read_error r = false) rs' /\ (length rest <= length rs')%nat.
Proof.
  induction rs as [|r rs IH]; intros b rest Hrs Hl; rewrite length_app in Hl; simpl in Hl.
  { destruct b; [|simpl in Hl; lia]. exists []. split_and!; (done || lia). }
  destruct b as [|b0 b]; [exists (r :: rs); simpl; split_and!; (done || lia)|].
  apply Forall_cons in Hrs as [[Hr He] Hrs]. set (s := b0 :: b) in *. assert (0 < length s)%nat by (simpl; lia).
  cbn [read_loop]. replace (length s =? 0)%nat with false by lia. rewrite length_app. set (k := Nat.min _ _).
  assert (0 < k <= length s)%nat by lia. destruct (k =? length s)%nat eqn:Ek.
  - apply Nat.eqb_eq in Ek as ->. rewrite take_app_length, drop_app_length. exists rs. split_and!; (done || lia).
  - rewrite He. rewrite drop_app_le, take_app_le by lia.
    destruct (IH (drop k s) rest) as (rs' & E & Hrs' & Hl'); [done|rewrite length_app, length_drop; lia|].
    rewrite length_drop in E. rewrite E. exists rs'. cbn [bindO]. by rewrite take_drop.
Qed.

Lemma readTotal_delivers conn n b rest :
  delivering conn -> incoming conn = b ++ rest -> length b = Z.to_nat n ->
  exists conn', readTotal conn n = Ok (b, conn') /\ incoming conn' = rest /\ delivering conn'.
Proof.
  intros [Hc Hr He] Hin Hb. unfold readTotal. rewrite Hc, Hin, <- Hb. rewrite Hin in He.
  destruct (read_loop_delivers _ _ _ Hr He) as (rs' & -> & Hr' & He'). eexists. split; [reflexivity|]. done.
Qed.

Lemma receive_payloads_delivers ps : forall conn rest,
  Forall (fun p => Z.of_nat (length p) <= MAX_PAYLOAD_SIZE_BYTES) ps -> delivering conn ->
  incoming conn = concat (map payload_bytes ps) ++ rest ->
  exists conn', receive_payloads (length ps) conn = Ok (ps, conn') /\ incoming conn' = rest /\ delivering conn'.
Proof.
  induction ps as [|p ps IH]; intros conn rest Hps Hd Hin; [by exists conn|].
  apply Forall_cons in Hps as [Hp Hps]. cbn [map concat] in Hin. rewrite payload_bytes_split, <- !app_assoc in Hin by done.
  pose proof (calcPaddingSize_bound (Z.of_nat (length p))) as Hc. unfold MAX_PAYLOAD_SIZE_BYTES in *.
  cbn [length receive_payloads].
  destruct (readTotal_delivers conn 4 _ _ Hd Hin) as (c1 & -> & Hin1 & Hd1); [by rewrite WriteUint32_length|].
  cbn [bindO fst snd]. rewrite GetUint32_Write by (unfold is_u32; lia). unfold MAX_PAYLOAD_SIZE_BYTES. lia_if.
  destruct (readTotal_delivers c1 (Z.of_nat (length p)) _ _ Hd1 Hin1) as (c2 & -> & Hin2 & Hd2); [by rewrite Nat2Z.id|].
  cbn [bindO fst snd]. rewrite wrap_small by lia.
  assert (exists b c3, (if 0 <? calcPaddingSize (Z.of_nat (length p)) then readTotal c2 (calcPaddingSize (Z.of_nat (length p)))
    else Ok ([], c2)) = Ok (b, c3) /\ incoming c3 = concat (map payload_bytes ps) ++ rest /\ delivering c3) as (b & c3 & -> & Hin3 & Hd3).
  { destruct (0 <? calcPaddingSize _) eqn:E.
    - destruct (readTotal_delivers c2 (calcPaddingSize (Z.of_nat (length p))) _ _ Hd2 Hin2) as (c3 & -> & Hin3 & Hd3); [by rewrite length_replicate|eauto].
    - exists [], c2. replace (calcPaddingSize _) with 0 in Hin2 by lia. done. }
  cbn [bindO fst snd]. destruct (IH c3 rest Hps Hd3 Hin3) as (c4 & -> & Hin4 & Hd4). exists c4. done.
Qed.

Lemma receive_delivers ps conn rest :
  sendable ps -> delivering conn -> incoming conn = frame ps ++ rest ->
  exists conn', receiveTransportData conn = Ok (ps, conn') /\ incoming conn' = rest /\ delivering conn'.
Proof.
  intros [Hn Hps] Hd Hin. unfold receiveTransportData, frame in *. unfold MAX_PAYLOADS_IN_MESSAGE in *.
  rewrite wrap_small, <- app_assoc in Hin by lia.
  destruct (readTotal_delivers conn 4 _ _ Hd Hin) as (c & -> & Hin1 & Hd1); [by rewrite WriteUint32_length|].
  cbn [bindO fst snd]. rewrite GetUint32_Write by (unfold is_u32; lia). lia_if. rewrite Nat2Z.id.
  by apply receive_payloads_delivers.
Qed.

Lemma incoming_delivers items : forall n conn,
  Forall sendable items -> delivering conn -> incoming conn = concat (map frame items) -> (length items <= n)%nat ->
  notifiable items `prefix_of` fst (incoming_loop n conn).
Proof.
  induction items as [|ps items IH]; intros n conn Hs Hd Hin Hn; [apply prefix_nil|].
  apply Forall_cons in Hs as [Hps Hs]. cbn [map concat] in Hin. destruct n as [|n]; [simpl in Hn; lia|].
  cbn [incoming_loop]. destruct (receive_delivers _ _ _ Hps Hd Hin) as (c & -> & Hin' & Hd').
  specialize (IH n c Hs Hd' Hin' ltac:(simpl in Hn; lia)). destruct (incoming_loop n c). cbn [fst] in *.
  rewrite notifiable_cons. destruct ps; [done|]. by apply prefix_cons.
Qed.

(** *** From queue to listener *)

Definition payloads_of (l : list TransportData) : list (list bytes) := notifiable (map Payloads l).

Lemma payloads_of_cons d l : payloads_of (d :: l) = notifiable [Payloads d] ++ payloads_of l.
Proof. unfold payloads_of. cbn [map]. rewrite !notifiable_cons. by destruct (Payloads d). Qed.

Lemma payloads_of_app l1 l2 : payloads_of (l1 ++ l2) = payloads_of l1 ++ payloads_of l2.
Proof. unfold payloads_of, notifiable. by rewrite map_app, List.filter_app. Qed.

Lemma notifiable_one x l : notifiable (x :: l) = notifiable [x] ++ notifiable l.
Proof. by destruct x. Qed.

Lemma Push_channel q d :
  channel (fst (Push q d)) = match snd (Push q d) with None => channel q ++ [d] | Some _ => channel q end.
Proof.
  unfold Push, consumeBytes, channel_send. destruct (disabled q); [done|]. destruct (_ <? _); [done|].
  simpl. by destruct (_ <? _).
Qed.

(** Every message written is sendable when the messages of the queue are. *)
Definition all_sendable (l : list TransportData) : Prop := Forall (fun d => sendable (Payloads d)) l.

(** What a connection writes: frames, the last one maybe cut short, of messages
    popped in order, and of keep-alives. *)
Lemma connection_loop_wire events : forall q,
  let r := connection_loop q events in
  all_sendable (channel q ++ run_accepted r) ->
  exists items, Forall sendable items /\ run_wire r `prefix_of` concat (map frame items) /\
    notifiable items `prefix_of` payloads_of (channel q ++ run_accepted r) /\
    (run_reconnect r = None -> run_wire r = concat (map frame items) /\
       payloads_of (channel q ++ run_accepted r) = notifiable items ++ payloads_of (channel (run_queue r))).
Proof.
  induction events as [|e events IH]; intros q; cbv zeta in *; cbn [connection_loop].
  { intros _. exists []. cbn [run_wire run_accepted run_queue map concat]. rewrite app_nil_r.
    split_and!; [constructor|done|apply prefix_nil|done]. }
  destruct e as [d|rs|rs|].
  - destruct (Push q d) as [q' e] eqn:E. pose proof (Push_channel q d) as Hch. rewrite E in Hch. cbn [fst snd] in Hch.
    destruct e; cbn [run_after run_wire run_accepted run_queue run_reconnect app].
    + rewrite <- Hch. apply IH.
    + specialize (IH q'). rewrite Hch, <- app_assoc in IH. exact IH.
  - unfold Pop. destruct (channel q) as [|d rest] eqn:Hch; [rewrite <- Hch; apply IH|].
    destruct (sendToSocket rs d) as [out ok] eqn:E. apply sendToSocket_prefix in E as [Hp Hok].
    destruct ok; cbn [run_after run_wire run_accepted run_queue run_reconnect app].
    + intros [Hd Hall]%Forall_cons. rewrite Hok by done.
      destruct (IH (releaseBytes (set_channel q rest) d) Hall) as (items & Hs & Hw & Hn & Hfin).
      cbn [channel releaseBytes set_bytesLeft set_channel] in Hn, Hfin. exists (Payloads d :: items). rewrite payloads_of_cons, (notifiable_one _ items). cbn [map concat].
      split_and!; [by constructor|by apply prefix_app|by apply prefix_app|].
      intros [-> ->]%Hfin. by rewrite app_assoc.
    + intros [Hd _]%Forall_cons. exists [Payloads d]. cbn [map concat]. rewrite app_nil_r, payloads_of_cons.
      split_and!; [by apply Forall_singleton|done|by apply prefix_app_r|done].
  - destruct (sendKeepAlive rs) as [out ok] eqn:E. apply sendKeepAlive_prefix in E as [Hp Hok].
    assert (sendable []) as Hnil by (split; [done|constructor]).
    destruct ok; cbn [run_after run_wire run_accepted run_queue run_reconnect app].
    + intros Hall. rewrite Hok by done. destruct (IH q Hall) as (items & Hs & Hw & Hn & Hfin).
      exists ([] :: items). rewrite (notifiable_one _ items). cbn [map concat].
      split_and!; [by constructor|by apply prefix_app|done|]. intros [-> ->]%Hfin. done.
    + intros _. exists [[]]. cbn [map concat]. rewrite app_nil_r. split_and!; [by apply Forall_singleton|done|apply prefix_nil|done].
  - intros _. exists []. split_and!; [constructor|done|apply prefix_nil|done].
Qed.

(** C35. Whatever the network does to a connection (writes cut short, reads of any
    sizes, errors and timeouts at any point), the listener at the other end is
    notified of a prefix of the messages the queue held and accepted: in order,
    unaltered, none twice. *)
Theorem tcp_fifo rounds q events conn :
  let r := handleOutgoingConnection rounds q events in
  let accepted := channel (OnNewConnection rounds q) ++ run_accepted r in
  all_sendable accepted -> incoming conn `prefix_of` run_wire r ->
  fst (handleIncomingConnection conn) `prefix_of` payloads_of accepted.
Proof.
  intros r accepted Hall Hin. destruct (connection_loop_wire events _ Hall) as (items & Hs & Hw & Hn & _).
  assert (incoming conn `prefix_of` concat (map frame items)) as [tail Ht] by by etransitivity.
  etransitivity; [|exact Hn]. by apply (incoming_prefix _ items conn tail).
Qed.

Lemma frame_length_pos ps : (4 <= length (frame ps))%nat.
Proof. unfold frame. rewrite length_app, WriteUint32_length. lia. Qed.

Lemma frames_length items : (length items <= length (concat (map frame items)))%nat.
Proof.
  induction items as [|ps items IH]; simpl; [lia|]. rewrite length_app. pose proof (frame_length_pos ps). lia.
Qed.

(** While the connection stands, a reader that keeps reading is notified of
    every message accepted by the queue but those still in it. *)
Lemma tcp_delivers rounds q events conn :
  let r := handleOutgoingConnection rounds q events in
  let accepted := channel (OnNewConnection rounds q) ++ run_accepted r in
  all_sendable accepted -> run_reconnect r = None -> incoming conn = run_wire r -> delivering conn ->
  payloads_of accepted = fst (handleIncomingConnection conn) ++ payloads_of (channel (run_queue r)).
Proof.
  intros r accepted Hall Hrun Hin Hd. destruct (connection_loop_wire events _ Hall) as (items & Hs & _ & _ & Hfin).
  destruct (Hfin Hrun) as [Hw Hn]. unfold accepted, r, handleOutgoingConnection in *. rewrite Hn. f_equal. rewrite Hw in Hin.
  pose proof (frames_length items) as Hl. pose proof (del_enough conn Hd) as He. rewrite Hin in He.
  pose proof (incoming_delivers items (S (length (reads conn))) conn Hs Hd Hin ltac:(lia)) as H1.
  pose proof (incoming_prefix (S (length (reads conn))) items conn [] Hs ltac:(by rewrite app_nil_r)) as H2.
  by apply (anti_symm prefix).
Qed.

(** A message the queue takes has payloads within the limit of the receiving end. *)
Lemma pushed_payloads_fit q d q' :
  bytesLeft q <= SEND_QUEUE_MAX_BYTES -> Push q d = (q', None) ->
  Forall (fun p => Z.of_nat (length p) <= MAX_PAYLOAD_SIZE_BYTES) (Payloads d).
Proof.
  unfold Push, consumeBytes. intros Hq Hp. destruct (disabled q); [done|]. destruct (_ <? TotalSize d) eqn:E; [done|].
  assert (TotalSize d <= MAX_PAYLOAD_SIZE_BYTES) as Hd by (unfold SEND_QUEUE_MAX_BYTES, MAX_PAYLOAD_SIZE_BYTES in *; lia).
  revert Hd. unfold TotalSize. clear. induction (Payloads d) as [|p l IH]; constructor.
  - cbn [foldr] in Hd. pose proof (TotalSize_nonneg (mkData [] RECIPIENT_LIST_MODE_RESERVED [] l)) as Hl. cbn in Hl. lia.
  - apply IH. cbn [foldr] in Hd. lia.
Qed.
End Framing.

(** ** Topology *)

Definition fresh_connection (peer : gossipPeer) : outgoingConnection :=
  mkConnection peer (Disable (NewTransportQueue SEND_QUEUE_MAX_BYTES SEND_QUEUE_MAX_MESSAGES)).

Lemma peers_missing_lookup a b k :
  peers_missing a b !! k =
    match a !! k with
    | Some n => match b !! k with
                | Some o => if peerHasChangedPortOrIPAddress n o then Some n else None
                | None => Some n
                end
    | None => None
    end.
Proof. unfold peers_missing. rewrite map_lookup_imap. by destruct (a !! k). Qed.

Lemma keys_map_to_list (m : gmap bytes gossipPeer) k : k ∈ (map_to_list m).*1 <-> m !! k <> None.
Proof.
  rewrite list_elem_of_fmap. split.
  - intros ([k' p] & -> & Hin%elem_of_map_to_list). simpl. congruence.
  - intros Hk. destruct (m !! k) as [p|] eqn:E; [|done]. exists (k, p). split; [done|]. by apply elem_of_map_to_list.
Qed.

Lemma peerHasChanged_sym p1 p2 : peerHasChangedPortOrIPAddress p1 p2 = peerHasChangedPortOrIPAddress p2 p1.
Proof. unfold peerHasChangedPortOrIPAddress. rewrite Z.eqb_sym. f_equal. apply bool_decide_ext. split; congruence. Qed.

(** What is known of a peer: its connection and its address. *)
Definition entry (c : outgoingConnections) (k : bytes) : option outgoingConnection * option gossipPeer :=
  (activeConnections c !! k, peerTopology c !! k).

Lemma disconnectAll_entry l : forall c k,
  let c' := disconnectAll (fun _ => true) c l in
  nodeAddress c' = nodeAddress c /\ (k ∉ l.*1 -> entry c' k = entry c k) /\ (k ∈ l.*1 -> entry c' k = (None, None)).
Proof.
  induction l as [|[k' p] l IH]; intros c k; [by split_and!; [..|intros Hk%not_elem_of_nil]|].
  cbn [fmap list_fmap fst disconnectAll foldl]. cbv zeta in IH.
  destruct (IH (disconnect_one (fun _ => true) c k') k) as (Hn & Hout & Hin). unfold disconnectAll in *. split_and!; [done|..].
  - intros [Hk Hk']%not_elem_of_cons. rewrite Hout by done. unfold entry. simpl. by rewrite !lookup_delete_ne.
  - intros [->|Hk]%elem_of_cons; [|by apply Hin]. destruct (decide (k' ∈ l.*1)); [by apply Hin|].
    rewrite Hout by done. unfold entry. simpl. by rewrite !lookup_delete_eq.
Qed.

Lemma connect_all_entry l : forall c,
  NoDup l.*1 -> (forall k p, (k, p) ∈ l -> k <> nodeAddress c -> (6 <= length (hexOrbsAddress p))%nat) ->
  exists c', connect_all c l = Ok c' /\ nodeAddress c' = nodeAddress c /\
    forall k, (forall p, (k, p) ∈ l -> k <> nodeAddress c -> entry c' k = (Some (fresh_connection p), Some p)) /\
      (k ∉ l.*1 \/ k = nodeAddress c -> entry c' k = entry c k).
Proof.
  induction l as [|[k p] l IH]; intros c Hnd Hhex.
  { exists c. split_and!; [done..|]. intros k. split; [by intros p Hk%not_elem_of_nil|done]. }
  apply NoDup_cons in Hnd as [Hk Hnd]. cbn [connect_all]. unfold connectForever.
  case_bool_decide as Hself; cbn [bindO].
  - unfold newOutgoingConnection. pose proof (Hhex k p ltac:(left) ltac:(congruence)). lia_if. cbn [bindO].
    edestruct (IH (mkConnections (<[k := fresh_connection p]> (activeConnections c)) (<[k := p]> (peerTopology c)) (nodeAddress c)))
      as (c' & E & Hn & Hl); [done|intros; by eapply Hhex; [right|]|]. exists c'. split_and!; [done..|].
    intros k0. destruct (Hl k0) as [H1 H2]. unfold entry in *. cbn [activeConnections peerTopology nodeAddress] in *. split.
    + intros p0 [Heq|Hin]%elem_of_cons Hne; [|by apply H1]. injection Heq as -> ->. rewrite H2 by (by left).
      by rewrite !lookup_insert_eq.
    + intros Hout. rewrite H2 by (destruct Hout as [Hout|Hout]; [left; by apply not_elem_of_cons in Hout as []|by right]).
      rewrite !lookup_insert_ne; [done|..]; intros ->; (destruct Hout as [Hout|Hout]; [apply Hout; by left|congruence]).
  - destruct (IH c) as (c' & E & Hn & Hl); [done|intros; by eapply Hhex; [right|]|].
    exists c'. split_and!; [done..|]. intros k0. destruct (Hl k0) as [H1 H2]. split.
    + intros p0 [Heq|Hin]%elem_of_cons Hne; [|by apply H1]. congruence.
    + intros Hout. apply H2. destruct Hout as [Hout|Hout]; [left; by apply not_elem_of_cons in Hout as []|by right].
Qed.

(** A connection for every known peer, and none to the node itself. *)
Definition topology_ok (c : outgoingConnections) : Prop :=
  forall k, (activeConnections c !! k = None <-> peerTopology c !! k = None) /\
    (k = nodeAddress c -> activeConnections c !! k = None).

Definition valid_peers (c : outgoingConnections) (newPeers : gmap bytes gossipPeer) : Prop :=
  forall k p, newPeers !! k = Some p -> k <> nodeAddress c -> (6 <= length (hexOrbsAddress p))%nat.

Lemma updateTopology_entry c newPeers :
  valid_peers c newPeers ->
  exists c', updateTopology (fun _ => true) c newPeers = Ok c' /\ nodeAddress c' = nodeAddress c /\
    forall k, entry c' k =
      match peers_missing newPeers (peerTopology c) !! k with
      | Some n => if decide (k = nodeAddress c)
                  then match peers_missing (peerTopology c) newPeers !! k with Some _ => (None, None) | None => entry c k end
                  else (Some (fresh_connection n), Some n)
      | None => match peers_missing (peerTopology c) newPeers !! k with Some _ => (None, None) | None => entry c k end
      end.
Proof.
  intros Hhex. unfold updateTopology, PeerDiff. set (c1 := disconnectAll _ c _).
  assert (nodeAddress c1 = nodeAddress c) as Hn1 by apply (disconnectAll_entry _ c []).
  destruct (connect_all_entry (map_to_list (peers_missing newPeers (peerTopology c))) c1) as (c' & E & Hn & Hl).
  { apply NoDup_fst_map_to_list. }
  { intros k p Hin%elem_of_map_to_list Hk. rewrite Hn1 in Hk. rewrite peers_missing_lookup in Hin.
    destruct (newPeers !! k) as [n|] eqn:En; [|done]. apply (Hhex k p); [|done]. rewrite En.
    repeat case_match; congruence. }
  exists c'. split_and!; [done|congruence|]. intros k. destruct (Hl k) as [Hin Hout]. rewrite Hn1 in *.
  destruct (disconnectAll_entry (map_to_list (peers_missing (peerTopology c) newPeers)) c k) as (_ & Hkeep & Hgone).
  fold c1 in Hkeep, Hgone. rewrite keys_map_to_list in *.
  assert (entry c1 k = match peers_missing (peerTopology c) newPeers !! k with Some _ => (None, None) | None => entry c k end) as Hc1.
  { destruct (peers_missing (peerTopology c) newPeers !! k); [by apply Hgone|apply Hkeep; by intros []]. }
  rewrite <- Hc1. destruct (peers_missing newPeers (peerTopology c) !! k) as [n|] eqn:Em.
  - destruct (decide (k = nodeAddress c)); [by apply Hout; right|]. apply Hin; [by apply elem_of_map_to_list|done].
  - apply Hout. left. by intros [].
Qed.

(** After a change of topology there is a connection to exactly the new peers
    other than the node: a new one for a peer that is new or has moved, and the
    old one, with the messages in its queue, for every other. *)
Theorem updateTopology_spec c newPeers :
  topology_ok c -> valid_peers c newPeers ->
  exists c', updateTopology (fun _ => true) c newPeers = Ok c' /\ topology_ok c' /\
    forall k, activeConnections c' !! k =
      if decide (k = nodeAddress c) then None
      else match newPeers !! k with
           | None => None
           | Some n =>
               match peerTopology c !! k with
               | Some o => if peerHasChangedPortOrIPAddress n o then Some (fresh_connection n) else activeConnections c !! k
               | None => Some (fresh_connection n)
               end
           end.
Proof.
  intros Hok Hhex. destruct (updateTopology_entry c newPeers Hhex) as (c' & E & Hn & He).
  exists c'. split; [done|]. unfold topology_ok. rewrite Hn. rewrite <- forall_and_distr. intros k.
  specialize (He k). destruct (Hok k) as [[Hact Htop] Hself]. rewrite !peers_missing_lookup in He.
  assert (k = nodeAddress c -> peerTopology c !! k = None) as Hself' by auto.
  destruct (decide (k = nodeAddress c)) as [Hk|Hk].
  - rewrite (Hself' Hk) in He. rewrite (Hself Hk), (Hself' Hk) in *. unfold entry in He.
    rewrite (Hself Hk), (Hself' Hk) in He. destruct (newPeers !! k); injection He as -> ->; done.
  - unfold entry in He. destruct (newPeers !! k) as [n|], (peerTopology c !! k) as [o|].
    + rewrite (peerHasChanged_sym o n) in He. destruct (peerHasChangedPortOrIPAddress n o); by injection He as -> ->.
    + by injection He as -> ->.
    + by injection He as -> ->.
    + injection He as -> ->. rewrite Htop by done. done.
Qed.

(** ** Examples *)

Module Example.

(** Integers are little endian. *)
Definition le_uint32 : Uint32Codec := {| WriteUint32 := le_bytes 4; GetUint32 := le_word |}.
#[local] Existing Instance le_uint32.

#[local] Instance le_uint32_laws : Uint32CodecLaws.
Proof.
  split; [intros z; apply (le_bytes_length 4)|intros z Hz; apply (le_word_bytes 4); unfold is_u32 in Hz; simpl; lia|done].
Qed.

Definition message (payloads : list bytes) : TransportData := mkData [1] RECIPIENT_LIST_MODE_BROADCAST [] payloads.
Definition small : TransportData := message [[7]].
Definition large : TransportData := message [[1; 2; 3]; [4; 5; 6; 7; 8]].

(** A queue for one message, after a second one found it full. *)
Definition crowded : queue_state :=
  mkQueueState (mkQueue [small] 10 1 1 false) [] [] [large].

Lemma crowded_reached : rtc queue_step (new_queue_state 10 1) crowded.
Proof.
  eapply rtc_l; [by apply (step_consume _ (mkQueue [] 10 1 9 false) _ _ _ small)|].
  eapply rtc_l; [by apply (step_send _ (mkQueue [small] 10 1 9 false) [] small [])|].
  eapply rtc_l; [by apply (step_consume _ (mkQueue [small] 10 1 1 false) _ _ _ large)|].
  eapply rtc_l; [by apply (step_drop _ [] large [])|apply rtc_refl].
Qed.

(** The queue is emptied: two of its ten bytes are left for good. *)
Definition emptied : queue_state := mkQueueState (mkQueue [] 10 1 2 false) [] [] [large].

Lemma emptied_reached : rtc queue_step crowded emptied.
Proof. apply (take_steps (mkQueue [small] 10 1 1 false) small []). done. Qed.

Lemma queue_accounting_witness : 0 <= bytesLeft (queue crowded) <= 10.
Proof.
  refine (proj1 (queue_accounting 10 1 crowded _ _ crowded_reached)).
  - vm_compute. discriminate.
  - vm_compute. discriminate.
Defined.

Lemma dropped_bytes_lost_witness : exists e, Push (queue emptied) (message [[1; 2; 3]]) = (queue emptied, Some e).
Proof.
  refine (dropped_bytes_lost 10 1 crowded emptied (message [[1; 2; 3]]) _ _ crowded_reached _ emptied_reached).
  - vm_compute. discriminate.
  - vm_compute. discriminate.
  - vm_compute. reflexivity.
Defined.

(** A connection with a keep-alive between two messages. *)
Definition events : list connection_event :=
  [PushEvent small; PushEvent large; PopEvent []; KeepAliveEvent []; PopEvent []].
Definition new_queue : transportQueue := Disable (NewTransportQueue SEND_QUEUE_MAX_BYTES SEND_QUEUE_MAX_MESSAGES).
Definition run : connection_run := handleOutgoingConnection 0 new_queue events.
Definition connection (n : nat) : net_conn := mkConn (take n (run_wire run)) (replicate 40 (mkRead 3 false)) None.

Lemma events_sendable : all_sendable (channel (OnNewConnection 0 new_queue) ++ run_accepted run).
Proof. repeat constructor; vm_compute; discriminate. Qed.

(** The connection breaks after twenty-five bytes. *)
Lemma tcp_fifo_witness :
  fst (handleIncomingConnection (connection 25)) `prefix_of` [[[7]]; [[1; 2; 3]; [4; 5; 6; 7; 8]]].
Proof. apply (tcp_fifo 0 new_queue events (connection 25)); [apply events_sendable|apply prefix_take]. Defined.

Definition peer (port : Z) : gossipPeer := mkPeer port [127] (replicate 6 65).
Definition connections : outgoingConnections :=
  mkConnections {[ [2] := mkConnection (peer 2) new_queue ]} {[ [2] := peer 2 ]} [1].

(** One peer stays, one is new, and the node itself is on the list. *)
Lemma updateTopology_spec_witness :
  exists c, updateTopology (fun _ => true) connections (<[ [1] := peer 1 ]> (<[ [2] := peer 2 ]> {[ [3] := peer 3 ]})) = Ok c /\
    activeConnections c !! [3] = Some (fresh_connection (peer 3)) /\ activeConnections c !! [1] = None.
Proof.
  destruct (updateTopology_spec connections (<[ [1] := peer 1 ]> (<[ [2] := peer 2 ]> {[ [3] := peer 3 ]}))) as (c & E & _ & Hl).
  - intros k. unfold connections. cbn [activeConnections peerTopology nodeAddress].
    rewrite !lookup_singleton_None. split; [done|]. intros ->. discriminate.
  - intros k p Hk _. repeat (apply lookup_insert_Some in Hk as [[_ <-]|[_ Hk]]; [simpl; lia|]).
    apply lookup_singleton_Some in Hk as [_ <-]. simpl. lia.
  - exists c. split; [exact E|]. split; rewrite Hl; reflexivity.
Defined.
End Example.
End Transport.
