(* ===== verification/Gossip.v ===== *)
(** * Gossip (services/gossip)

    The codec of messages into payloads, the handlers that send and receive each
    topic, the validation of headers and the dispatcher with its buffered topics. *)

From stdpp Require Import base list gmap.
From Stdlib Require Import ZArith Lia ZifyBool.
From S2P Require Import Prelude Protocol Hash Digest BlockCodec BlockPersistence BlockStorage Transport.
Import Transport.

Module Gossip.

(** ** Messages (orbs-spec gossipmessages)

    Fields that may be [nil] are options. *)

Record BlockSyncRange := mkBlockSyncRange {
  BlockType : Z;
  FirstBlockHeight : Z;
  LastBlockHeight : Z;
  LastCommittedBlockHeight : Z
}.

Record SenderSignature := mkSender { ss_NodeAddress : bytes; ss_Signature : bytes }.

Record TransactionsBlockFields := mkTxFields {
  ftx_Header : option TransactionsBlockHeader;
  ftx_Metadata : option bytes;
  ftx_SignedTransactions : list SignedTransaction;
  ftx_BlockProof : option BlockProof
}.

Record ResultsBlockFields := mkRxFields {
  frx_Header : option ResultsBlockHeader;
  frx_TransactionReceipts : list TransactionReceipt;
  frx_ContractStateDiffs : list ContractStateDiff;
  frx_BlockProof : option BlockProof
}.

Record BlockPairFields := mkPairFields {
  f_TransactionsBlock : option TransactionsBlockFields;
  f_ResultsBlock : option ResultsBlockFields
}.

(** A block pair with all its fields. *)
Definition fields_of_block (b : BlockPairContainer) : BlockPairFields :=
  let tx := bpc_TransactionsBlock b in
  let rx := bpc_ResultsBlock b in
  mkPairFields
    (Some (mkTxFields (Some (txb_Header tx)) (Some (txb_Metadata tx)) (txb_SignedTransactions tx) (Some (txb_BlockProof tx))))
    (Some (mkRxFields (Some (rxb_Header rx)) (rxb_TransactionReceipts rx) (rxb_ContractStateDiffs rx) (Some (rxb_BlockProof rx)))).

Record ForwardedTransactionsMessage := mkForwarded {
  fwd_Sender : option SenderSignature;
  fwd_SignedTransactions : list SignedTransaction
}.

(** Requests and responses of availability, and requests of blocks. *)
Record BlockRangeMessage := mkRangeMessage {
  rm_SignedRange : option BlockSyncRange;
  rm_Sender : option SenderSignature
}.

Record BlockSyncResponseMessage := mkResponseMessage {
  bsr_SignedChunkRange : option BlockSyncRange;
  bsr_Sender : option SenderSignature;
  bsr_BlockPairs : list (option BlockPairFields)
}.

Record BenchmarkConsensusCommittedMessage := mkCommittedMessage {
  bcc_Status : option Z;
  bcc_Sender : option SenderSignature
}.

Record LeanHelixMessage := mkLeanHelix {
  lh_Content : option bytes;
  lh_BlockPair : option BlockPairFields
}.

Inductive TransactionRelayMessageType := TRANSACTION_RELAY_RESERVED | TRANSACTION_RELAY_FORWARDED_TRANSACTIONS.
Inductive BlockSyncMessageType :=
| BLOCK_SYNC_RESERVED
| BLOCK_SYNC_AVAILABILITY_REQUEST
| BLOCK_SYNC_AVAILABILITY_RESPONSE
| BLOCK_SYNC_REQUEST
| BLOCK_SYNC_RESPONSE.
Inductive BenchmarkConsensusMessageType :=
| BENCHMARK_CONSENSUS_RESERVED
| BENCHMARK_CONSENSUS_COMMIT
| BENCHMARK_CONSENSUS_COMMITTED.

(** The topic of a header, with the kind of message of that topic. *)
Inductive HeaderTopic :=
| HEADER_TOPIC_TRANSACTION_RELAY (TransactionRelay : TransactionRelayMessageType)
| HEADER_TOPIC_BLOCK_SYNC (BlockSync : BlockSyncMessageType)
| HEADER_TOPIC_LEAN_HELIX
| HEADER_TOPIC_BENCHMARK_CONSENSUS (BenchmarkConsensus : BenchmarkConsensusMessageType)
| HEADER_TOPIC_OTHER (topic : Z).

Record Header := mkHeader {
  h_Topic : HeaderTopic;
  h_RecipientMode : RecipientsListMode;
  h_RecipientNodeAddresses : list bytes;
  h_VirtualChainId : Z
}.

(** The encoding of these messages, a library the codec calls.  A reader gives
    [None] when [IsValid] is false. *)
Class GossipMembuffers := {
  raw_Header : Header -> bytes;
  raw_BlockSyncRange : BlockSyncRange -> bytes;
  raw_SenderSignature : SenderSignature -> bytes;
  raw_BenchmarkStatus : Z -> bytes;
  HeaderReader : bytes -> option Header;
  BlockSyncRangeReader : bytes -> option BlockSyncRange;
  SenderSignatureReader : bytes -> option SenderSignature;
  BenchmarkStatusReader : bytes -> option Z;
  SignedTransaction_IsValid : bytes -> bool
}.

(** ** Block pairs (codec/blocks.go) *)

Inductive codec_error :=
| ErrMissingFields
| ErrMissingPayloads
| ErrRemainingPayloads
| ErrNoBlockPair
| ErrWrongNumOfPayloads
| ErrCorrupted.

Definition NUM_HARDCODED_PAYLOADS_FOR_BLOCK_PAIR : Z := 5.

Section Codec.
Context `{Membuffers, MembuffersReaders, GossipMembuffers}.

Definition EncodeBlockPair (blockPair : option BlockPairFields) : outcome codec_error (list bytes) :=
  match blockPair with
  | Some (mkPairFields (Some tx) (Some rx)) =>
      match ftx_Header tx, ftx_Metadata tx, ftx_BlockProof tx, frx_Header rx, frx_BlockProof rx with
      | Some txHeader, Some txMetadata, Some txProof, Some rxHeader, Some rxProof =>
          Ok ([raw_TransactionsBlockHeader txHeader; txMetadata; bp_Raw txProof; raw_ResultsBlockHeader rxHeader; bp_Raw rxProof]
                ++ map raw_SignedTransaction (ftx_SignedTransactions tx)
                ++ map raw_TransactionReceipt (frx_TransactionReceipts rx)
                ++ map raw_ContractStateDiff (frx_ContractStateDiffs rx))
      | _, _, _, _, _ => Err ErrMissingFields
      end
  | _ => Err ErrMissingFields
  end.

Fixpoint EncodeBlockPairs (blockPairs : list (option BlockPairFields)) : outcome codec_error (list bytes) :=
  match blockPairs with
  | [] => Ok []
  | b :: rest =>
      let! payloads := EncodeBlockPair b in
      let! more := EncodeBlockPairs rest in
      Ok (payloads ++ more)
  end.

(** An index out of range panics. *)
Definition payload_at (payloads : list bytes) (i : Z) : outcome codec_error bytes :=
  match payloads !! Z.to_nat i with Some p => Ok p | None => Panic end.

(** [n] messages from the first of [rest]. *)
Fixpoint read_messages {A} (reader : bytes -> A) (rest : list bytes) (n : Z) : outcome codec_error (list A) :=
  if n <=? 0 then Ok []
  else match rest with
       | [] => Panic
       | payload :: rest => let! more := read_messages reader rest (n - 1) in Ok (reader payload :: more)
       end.

(** The loop of [DecodeBlockPairs]; every round moves the index. *)
Fixpoint decode_blocks (fuel : nat) (payloads : list bytes) (payloadIndex : Z) : outcome codec_error (list BlockPairContainer) :=
  let len := wrap 32 (Z.of_nat (length payloads)) in
  if payloadIndex <? len then
    match fuel with
    | O => Ok []
    | S fuel =>
        if len <? u32_add payloadIndex NUM_HARDCODED_PAYLOADS_FOR_BLOCK_PAIR then Err ErrMissingPayloads
        else
          let! p0 := payload_at payloads payloadIndex in
          let! p1 := payload_at payloads (u32_add payloadIndex 1) in
          let! p2 := payload_at payloads (u32_add payloadIndex 2) in
          let! p3 := payload_at payloads (u32_add payloadIndex 3) in
          let! p4 := payload_at payloads (u32_add payloadIndex 4) in
          let txBlockHeader := TransactionsBlockHeaderReader p0 in
          let rxBlockHeader := ResultsBlockHeaderReader p3 in
          let payloadIndex := u32_add payloadIndex NUM_HARDCODED_PAYLOADS_FOR_BLOCK_PAIR in
          let numTxs := txh_NumSignedTransactions txBlockHeader in
          let numReceipts := rxh_NumTransactionReceipts rxBlockHeader in
          let numDiffs := rxh_NumContractStateDiffs rxBlockHeader in
          let expectedPayloads := u32_add (u32_add numTxs numReceipts) numDiffs in
          if len <? u32_add payloadIndex expectedPayloads then Err ErrRemainingPayloads
          else
            let! txs := read_messages SignedTransactionReader (drop (Z.to_nat payloadIndex) payloads) numTxs in
            let payloadIndex := u32_add payloadIndex numTxs in
            let! receipts := read_messages TransactionReceiptReader (drop (Z.to_nat payloadIndex) payloads) numReceipts in
            let payloadIndex := u32_add payloadIndex numReceipts in
            let! sdiffs := read_messages ContractStateDiffReader (drop (Z.to_nat payloadIndex) payloads) numDiffs in
            let payloadIndex := u32_add payloadIndex numDiffs in
            let blockPair :=
              mkBlockPair (mkTxBlock txBlockHeader p1 txs (TransactionsBlockProofReader p2))
                (mkRxBlock rxBlockHeader receipts sdiffs (ResultsBlockProofReader p4)) in
            let! results := decode_blocks fuel payloads payloadIndex in
            Ok (blockPair :: results)
    end
  else Ok [].

Definition DecodeBlockPairs (payloads : list bytes) : outcome codec_error (list BlockPairContainer) :=
  decode_blocks (length payloads) payloads 0.

Definition DecodeBlockPair (payloads : list bytes) : outcome codec_error BlockPairContainer :=
  let! results := DecodeBlockPairs payloads in
  match results with [] => Err ErrNoBlockPair | b :: _ => Ok b end.

(** ** Messages (codec/topic_*.go) *)

Definition EncodeForwardedTransactions (header : Header) (message : ForwardedTransactionsMessage)
    : outcome codec_error (list bytes) :=
  match fwd_Sender message with
  | None => Err ErrMissingFields
  | Some sender =>
      match fwd_SignedTransactions message with
      | [] => Err ErrMissingFields
      | txs => Ok ([raw_Header header; raw_SenderSignature sender] ++ map raw_SignedTransaction txs)
      end
  end.

Fixpoint read_valid_transactions (payloads : list bytes) : outcome codec_error (list SignedTransaction) :=
  match payloads with
  | [] => Ok []
  | payload :: rest =>
      if SignedTransaction_IsValid payload then
        let! txs := read_valid_transactions rest in Ok (SignedTransactionReader payload :: txs)
      else Err ErrCorrupted
  end.

Definition DecodeForwardedTransactions (payloads : list bytes) : outcome codec_error ForwardedTransactionsMessage :=
  match payloads with
  | p0 :: ((_ :: _) as rest) =>
      match SenderSignatureReader p0 with
      | None => Err ErrCorrupted
      | Some sender => let! txs := read_valid_transactions rest in Ok (mkForwarded (Some sender) txs)
      end
  | _ => Err ErrWrongNumOfPayloads
  end.

Definition encode_range (header : Header) (message : BlockRangeMessage) : outcome codec_error (list bytes) :=
  match rm_SignedRange message, rm_Sender message with
  | Some range, Some sender => Ok [raw_Header header; raw_BlockSyncRange range; raw_SenderSignature sender]
  | _, _ => Err ErrMissingFields
  end.

Definition decode_range (payloads : list bytes) : outcome codec_error BlockRangeMessage :=
  match payloads with
  | [p0; p1] =>
      match BlockSyncRangeReader p0, SenderSignatureReader p1 with
      | Some range, Some sender => Ok (mkRangeMessage (Some range) (Some sender))
      | _, _ => Err ErrCorrupted
      end
  | _ => Err ErrWrongNumOfPayloads
  end.

Definition EncodeBlockAvailabilityRequest := encode_range.
Definition DecodeBlockAvailabilityRequest := decode_range.
Definition EncodeBlockAvailabilityResponse := encode_range.
Definition DecodeBlockAvailabilityResponse := decode_range.
Definition EncodeBlockSyncRequest := encode_range.
Definition DecodeBlockSyncRequest := decode_range.

Definition EncodeBlockSyncResponse (header : Header) (message : BlockSyncResponseMessage) : outcome codec_error (list bytes) :=
  match bsr_SignedChunkRange message, bsr_BlockPairs message, bsr_Sender message with
  | Some range, _ :: _, Some sender =>
      let! blockPairPayloads := EncodeBlockPairs (bsr_BlockPairs message) in
      Ok ([raw_Header header; raw_BlockSyncRange range; raw_SenderSignature sender] ++ blockPairPayloads)
  | _, _, _ => Err ErrMissingFields
  end.

Definition DecodeBlockSyncResponse (payloads : list bytes)
    : outcome codec_error BlockSyncResponseMessage :=
  if Z.of_nat (length payloads) <? 2 + NUM_HARDCODED_PAYLOADS_FOR_BLOCK_PAIR then Err ErrWrongNumOfPayloads
  else match payloads with
       | p0 :: p1 :: rest =>
           match BlockSyncRangeReader p0, SenderSignatureReader p1 with
           | Some range, Some sender =>
               let! blocks := DecodeBlockPairs rest in
               Ok (mkResponseMessage (Some range) (Some sender) (map (fun b => Some (fields_of_block b)) blocks))
           | _, _ => Err ErrCorrupted
           end
       | _ => Panic
       end.

Definition EncodeBenchmarkConsensusCommitMessage (header : Header) (blockPair : option BlockPairFields)
    : outcome codec_error (list bytes) :=
  let! payloads := EncodeBlockPair blockPair in Ok (raw_Header header :: payloads).

Definition DecodeBenchmarkConsensusCommitMessage (payloads : list bytes) : outcome codec_error (option BlockPairFields) :=
  let! b := DecodeBlockPair payloads in Ok (Some (fields_of_block b)).

Definition EncodeBenchmarkConsensusCommittedMessage (header : Header) (message : BenchmarkConsensusCommittedMessage)
    : outcome codec_error (list bytes) :=
  match bcc_Status message, bcc_Sender message with
  | Some status, Some sender => Ok [raw_Header header; raw_BenchmarkStatus status; raw_SenderSignature sender]
  | _, _ => Err ErrMissingFields
  end.

Definition DecodeBenchmarkConsensusCommittedMessage (payloads : list bytes)
    : outcome codec_error BenchmarkConsensusCommittedMessage :=
  match payloads with
  | [p0; p1] =>
      match BenchmarkStatusReader p0, SenderSignatureReader p1 with
      | Some status, Some sender => Ok (mkCommittedMessage (Some status) (Some sender))
      | _, _ => Err ErrCorrupted
      end
  | _ => Err ErrWrongNumOfPayloads
  end.

Definition EncodeLeanHelixMessage (header : Header) (message : LeanHelixMessage) : outcome codec_error (list bytes) :=
  match lh_Content message with
  | None => Err ErrMissingFields
  | Some content =>
      let! blockPairPayloads := (match lh_BlockPair message with
                                 | Some b => EncodeBlockPair (Some b)
                                 | None => Ok []
                                 end) in
      Ok ([raw_Header header; content] ++ blockPairPayloads)
  end.

Definition DecodeLeanHelixMessage (payloads : list bytes) : outcome codec_error LeanHelixMessage :=
  match payloads with
  | [] => Err ErrWrongNumOfPayloads
  | [content] => Ok (mkLeanHelix (Some content) None)
  | content :: rest => let! b := DecodeBlockPair rest in Ok (mkLeanHelix (Some content) (Some (fields_of_block b)))
  end.
End Codec.

(** ** Sending (topic_*.go)

    The data handed to the transport, whose result is returned. *)

Record Config := mkConfig { NodeAddress : bytes; VirtualChainId : Z }.

Section Send.
Context `{Membuffers, GossipMembuffers}.
Variable config : Config.

Definition broadcast_header (topic : HeaderTopic) : Header :=
  mkHeader topic RECIPIENT_LIST_MODE_BROADCAST [] (VirtualChainId config).
Definition list_header (topic : HeaderTopic) (recipient : bytes) : Header :=
  mkHeader topic RECIPIENT_LIST_MODE_LIST [recipient] (VirtualChainId config).

Definition broadcast_data (payloads : outcome codec_error (list bytes)) : outcome codec_error TransportData :=
  let! payloads := payloads in Ok (mkData (NodeAddress config) RECIPIENT_LIST_MODE_BROADCAST [] payloads).
Definition list_data (recipient : bytes) (payloads : outcome codec_error (list bytes)) : outcome codec_error TransportData :=
  let! payloads := payloads in Ok (mkData (NodeAddress config) RECIPIENT_LIST_MODE_LIST [recipient] payloads).

Definition BroadcastForwardedTransactions (message : ForwardedTransactionsMessage) : outcome codec_error TransportData :=
  broadcast_data (EncodeForwardedTransactions
    (broadcast_header (HEADER_TOPIC_TRANSACTION_RELAY TRANSACTION_RELAY_FORWARDED_TRANSACTIONS)) message).

Definition BroadcastBlockAvailabilityRequest (message : BlockRangeMessage) : outcome codec_error TransportData :=
  broadcast_data (EncodeBlockAvailabilityRequest
    (broadcast_header (HEADER_TOPIC_BLOCK_SYNC BLOCK_SYNC_AVAILABILITY_REQUEST)) message).

Definition SendBlockAvailabilityResponse (recipient : bytes) (message : BlockRangeMessage) : outcome codec_error TransportData :=
  list_data recipient (EncodeBlockAvailabilityResponse
    (list_header (HEADER_TOPIC_BLOCK_SYNC BLOCK_SYNC_AVAILABILITY_RESPONSE) recipient) message).

Definition SendBlockSyncRequest (recipient : bytes) (message : BlockRangeMessage) : outcome codec_error TransportData :=
  list_data recipient (EncodeBlockSyncRequest
    (list_header (HEADER_TOPIC_BLOCK_SYNC BLOCK_SYNC_REQUEST) recipient) message).

Definition SendBlockSyncResponse (recipient : bytes) (message : BlockSyncResponseMessage) : outcome codec_error TransportData :=
  list_data recipient (EncodeBlockSyncResponse
    (list_header (HEADER_TOPIC_BLOCK_SYNC BLOCK_SYNC_RESPONSE) recipient) message).

Definition BroadcastBenchmarkConsensusCommit (blockPair : option BlockPairFields) : outcome codec_error TransportData :=
  broadcast_data (EncodeBenchmarkConsensusCommitMessage
    (broadcast_header (HEADER_TOPIC_BENCHMARK_CONSENSUS BENCHMARK_CONSENSUS_COMMIT)) blockPair).

Definition SendBenchmarkConsensusCommitted (recipient : bytes) (message : BenchmarkConsensusCommittedMessage)
    : outcome codec_error TransportData :=
  list_data recipient (EncodeBenchmarkConsensusCommittedMessage
    (list_header (HEADER_TOPIC_BENCHMARK_CONSENSUS BENCHMARK_CONSENSUS_COMMITTED) recipient) message).

Definition SendLeanHelixMessage (mode : RecipientsListMode) (recipients : list bytes) (message : LeanHelixMessage)
    : outcome codec_error TransportData :=
  let! payloads := EncodeLeanHelixMessage (mkHeader HEADER_TOPIC_LEAN_HELIX mode recipients (VirtualChainId config)) message in
  Ok (mkData (NodeAddress config) mode recipients payloads).
End Send.

(** ** Receiving *)

(** Registered handlers are named by numbers. *)
Record gossipListeners := mkListeners {
  transactionHandlers : list nat;
  leanHelixHandlers : list nat;
  benchmarkConsensusHandlers : list nat;
  blockSyncHandlers : list nat
}.

Inductive handler_call :=
| HandleForwardedTransactions (message : ForwardedTransactionsMessage)
| HandleBlockAvailabilityRequest (message : BlockRangeMessage)
| HandleBlockAvailabilityResponse (message : BlockRangeMessage)
| HandleBlockSyncRequest (message : BlockRangeMessage)
| HandleBlockSyncResponse (message : BlockSyncResponseMessage)
| HandleBenchmarkConsensusCommit (blockPair : option BlockPairFields)
| HandleBenchmarkConsensusCommitted (message : BenchmarkConsensusCommittedMessage)
| HandleLeanHelixMessage (message : LeanHelixMessage).

(** A message that cannot be decoded is dropped; otherwise every handler is called,
    and their errors are only logged. *)
Definition notify {A} (handlers : list nat) (call : A -> handler_call) (decoded : outcome codec_error A)
    : outcome unit (list (nat * handler_call)) :=
  match decoded with
  | Ok message => Ok (map (fun l => (l, call message)) handlers)
  | Err _ => Ok []
  | Panic => Panic
  end.

Section Receive.
Context `{MembuffersReaders, GossipMembuffers}.
Variable handlers : gossipListeners.

Definition receivedForwardedTransactions (payloads : list bytes) :=
  notify (transactionHandlers handlers) HandleForwardedTransactions (DecodeForwardedTransactions payloads).
Definition receivedBlockSyncAvailabilityRequest (payloads : list bytes) :=
  notify (blockSyncHandlers handlers) HandleBlockAvailabilityRequest (DecodeBlockAvailabilityRequest payloads).
Definition receivedBlockSyncAvailabilityResponse (payloads : list bytes) :=
  notify (blockSyncHandlers handlers) HandleBlockAvailabilityResponse (DecodeBlockAvailabilityResponse payloads).
Definition receivedBlockSyncRequest (payloads : list bytes) :=
  notify (blockSyncHandlers handlers) HandleBlockSyncRequest (DecodeBlockSyncRequest payloads).
Definition receivedBlockSyncResponse (payloads : list bytes) :=
  notify (blockSyncHandlers handlers) HandleBlockSyncResponse (DecodeBlockSyncResponse payloads).
Definition receivedBenchmarkConsensusCommit (payloads : list bytes) :=
  notify (benchmarkConsensusHandlers handlers) HandleBenchmarkConsensusCommit (DecodeBenchmarkConsensusCommitMessage payloads).
Definition receivedBenchmarkConsensusCommitted (payloads : list bytes) :=
  notify (benchmarkConsensusHandlers handlers) HandleBenchmarkConsensusCommitted
    (DecodeBenchmarkConsensusCommittedMessage payloads).
Definition receivedLeanHelixMessage (header : Header) (payloads : list bytes) :=
  notify (leanHelixHandlers handlers) HandleLeanHelixMessage (DecodeLeanHelixMessage payloads).

Definition receivedTransactionRelayMessage (header : Header) (payloads : list bytes) :=
  match h_Topic header with
  | HEADER_TOPIC_TRANSACTION_RELAY TRANSACTION_RELAY_FORWARDED_TRANSACTIONS => receivedForwardedTransactions payloads
  | _ => Ok []
  end.

(** The requests are handled on a goroutine of their own. *)
Definition receivedBlockSyncMessage (header : Header) (payloads : list bytes) :=
  match h_Topic header with
  | HEADER_TOPIC_BLOCK_SYNC BLOCK_SYNC_AVAILABILITY_REQUEST => receivedBlockSyncAvailabilityRequest payloads
  | HEADER_TOPIC_BLOCK_SYNC BLOCK_SYNC_AVAILABILITY_RESPONSE => receivedBlockSyncAvailabilityResponse payloads
  | HEADER_TOPIC_BLOCK_SYNC BLOCK_SYNC_REQUEST => receivedBlockSyncRequest payloads
  | HEADER_TOPIC_BLOCK_SYNC BLOCK_SYNC_RESPONSE => receivedBlockSyncResponse payloads
  | _ => Ok []
  end.

Definition receivedBenchmarkConsensusMessage (header : Header) (payloads : list bytes) :=
  match h_Topic header with
  | HEADER_TOPIC_BENCHMARK_CONSENSUS BENCHMARK_CONSENSUS_COMMIT => receivedBenchmarkConsensusCommit payloads
  | HEADER_TOPIC_BENCHMARK_CONSENSUS BENCHMARK_CONSENSUS_COMMITTED => receivedBenchmarkConsensusCommitted payloads
  | _ => Ok []
  end.
End Receive.

(** ** Headers (header_validator.go) *)

Inductive header_error := ErrVirtualChain | ErrNotInList | ErrInExcludedList.

Definition isInRecipientList (me : bytes) (recipients : list bytes) : bool :=
  existsb (fun recipient => bool_decide (me = recipient)) recipients.

Definition validateMessageHeader (config : Config) (header : Header) : outcome header_error unit :=
  if negb (h_VirtualChainId header =? VirtualChainId config) then Err ErrVirtualChain
  else match h_RecipientMode header with
       | RECIPIENT_LIST_MODE_LIST =>
           if isInRecipientList (NodeAddress config) (h_RecipientNodeAddresses header) then Ok tt else Err ErrNotInList
       | RECIPIENT_LIST_MODE_ALL_BUT_LIST =>
           if isInRecipientList (NodeAddress config) (h_RecipientNodeAddresses header) then Err ErrInExcludedList else Ok tt
       | _ => Ok tt
       end.

(** ** The dispatcher (dispatcher.go) *)

Record gossipMessage := mkMessage { gm_header : Header; gm_payloads : list bytes }.

Record meteredTopicChannel := mkChannel { ch : list gossipMessage; topicBufferSize : nat }.

(** [None]: the buffer is full. *)
Definition channel_push (c : meteredTopicChannel) (message : gossipMessage) : option meteredTopicChannel :=
  if (length (ch c) <? topicBufferSize c)%nat then Some (mkChannel (ch c ++ [message]) (topicBufferSize c)) else None.

Record gossipMessageDispatcher := mkDispatcher {
  transactionRelay : meteredTopicChannel;
  blockSync : meteredTopicChannel;
  leanHelix : meteredTopicChannel;
  benchmarkConsensus : meteredTopicChannel
}.

Definition newMessageDispatcher : gossipMessageDispatcher :=
  mkDispatcher (mkChannel [] 200) (mkChannel [] 10) (mkChannel [] 100) (mkChannel [] 20).

Definition get (d : gossipMessageDispatcher) (topic : HeaderTopic) : option meteredTopicChannel :=
  match topic with
  | HEADER_TOPIC_TRANSACTION_RELAY _ => Some (transactionRelay d)
  | HEADER_TOPIC_BLOCK_SYNC _ => Some (blockSync d)
  | HEADER_TOPIC_LEAN_HELIX => Some (leanHelix d)
  | HEADER_TOPIC_BENCHMARK_CONSENSUS _ => Some (benchmarkConsensus d)
  | HEADER_TOPIC_OTHER _ => None
  end.

Definition set_topic (d : gossipMessageDispatcher) (topic : HeaderTopic) (c : meteredTopicChannel) : gossipMessageDispatcher :=
  match topic with
  | HEADER_TOPIC_TRANSACTION_RELAY _ => mkDispatcher c (blockSync d) (leanHelix d) (benchmarkConsensus d)
  | HEADER_TOPIC_BLOCK_SYNC _ => mkDispatcher (transactionRelay d) c (leanHelix d) (benchmarkConsensus d)
  | HEADER_TOPIC_LEAN_HELIX => mkDispatcher (transactionRelay d) (blockSync d) c (benchmarkConsensus d)
  | HEADER_TOPIC_BENCHMARK_CONSENSUS _ => mkDispatcher (transactionRelay d) (blockSync d) (leanHelix d) c
  | HEADER_TOPIC_OTHER _ => d
  end.

(** A message without a topic, or with a full one, is dropped. *)
Definition dispatch (d : gossipMessageDispatcher) (header : Header) (payloads : list bytes) : gossipMessageDispatcher :=
  match get d (h_Topic header) with
  | None => d
  | Some c =>
      match channel_push c (mkMessage header payloads) with
      | Some c' => set_topic d (h_Topic header) c'
      | None => d
      end
  end.

(** ** The service (service.go) *)

Record Service := mkService {
  config : Config;
  listeners : gossipListeners;
  messageDispatcher : gossipMessageDispatcher
}.

Definition NewGossip (c : Config) : Service := mkService c (mkListeners [] [] [] []) newMessageDispatcher.

Definition RegisterTransactionRelayHandler (s : Service) (handler : nat) : Service :=
  let l := listeners s in
  mkService (config s) (mkListeners (transactionHandlers l ++ [handler]) (leanHelixHandlers l)
    (benchmarkConsensusHandlers l) (blockSyncHandlers l)) (messageDispatcher s).
Definition RegisterLeanHelixHandler (s : Service) (handler : nat) : Service :=
  let l := listeners s in
  mkService (config s) (mkListeners (transactionHandlers l) (leanHelixHandlers l ++ [handler])
    (benchmarkConsensusHandlers l) (blockSyncHandlers l)) (messageDispatcher s).
Definition RegisterBenchmarkConsensusHandler (s : Service) (handler : nat) : Service :=
  let l := listeners s in
  mkService (config s) (mkListeners (transactionHandlers l) (leanHelixHandlers l)
    (benchmarkConsensusHandlers l ++ [handler]) (blockSyncHandlers l)) (messageDispatcher s).
Definition RegisterBlockSyncHandler (s : Service) (handler : nat) : Service :=
  let l := listeners s in
  mkService (config s) (mkListeners (transactionHandlers l) (leanHelixHandlers l)
    (benchmarkConsensusHandlers l) (blockSyncHandlers l ++ [handler])) (messageDispatcher s).

Section Service.
Context `{MembuffersReaders, GossipMembuffers}.

Definition OnTransportMessageReceived (ctxErr : bool) (s : Service) (payloads : list bytes) : Service :=
  if ctxErr then s
  else match payloads with
       | [] => s
       | p0 :: rest =>
           match HeaderReader p0 with
           | None => s
           | Some header =>
               match validateMessageHeader (config s) header with
               | Ok _ => mkService (config s) (listeners s) (dispatch (messageDispatcher s) header rest)
               | _ => s
               end
           end
       end.

(** The handler that runs on the channel of a topic. *)
Definition topic_handler (l : gossipListeners) (topic : HeaderTopic) (message : gossipMessage)
    : outcome unit (list (nat * handler_call)) :=
  let header := gm_header message in
  let payloads := gm_payloads message in
  match topic with
  | HEADER_TOPIC_TRANSACTION_RELAY _ => receivedTransactionRelayMessage l header payloads
  | HEADER_TOPIC_BLOCK_SYNC _ => receivedBlockSyncMessage l header payloads
  | HEADER_TOPIC_LEAN_HELIX => receivedLeanHelixMessage l header payloads
  | HEADER_TOPIC_BENCHMARK_CONSENSUS _ => receivedBenchmarkConsensusMessage l header payloads
  | HEADER_TOPIC_OTHER _ => Ok []
  end.

(** One round of the loop of a topic: the next message, if there is one, is taken and
    handled. *)
Definition run_topic (s : Service) (topic : HeaderTopic) : Service * outcome unit (list (nat * handler_call)) :=
  match get (messageDispatcher s) topic with
  | Some (mkChannel (message :: rest) size) =>
      (mkService (config s) (listeners s) (set_topic (messageDispatcher s) topic (mkChannel rest size)),
       topic_handler (listeners s) topic message)
  | _ => (s, Ok [])
  end.
End Service.

(** ** Round trips *)

Class GossipLaws `{Membuffers, GossipMembuffers} : Prop := {
  read_header h : HeaderReader (raw_Header h) = Some h;
  read_range r : BlockSyncRangeReader (raw_BlockSyncRange r) = Some r;
  read_sender s : SenderSignatureReader (raw_SenderSignature s) = Some s;
  read_status z : BenchmarkStatusReader (raw_BenchmarkStatus z) = Some z;
  valid_tx t : SignedTransaction_IsValid (raw_SignedTransaction t) = true
}.

Section RoundTrips.
Context `{MembuffersLaws} `{!GossipMembuffers} `{!GossipLaws}.

(** A block whose header counts are those of its lists, and whose proofs are read
    back. *)
Record wf_block (b : BlockPairContainer) : Prop := {
  wf_txs : txh_NumSignedTransactions (txb_Header (bpc_TransactionsBlock b))
           = Z.of_nat (length (txb_SignedTransactions (bpc_TransactionsBlock b)));
  wf_receipts : rxh_NumTransactionReceipts (rxb_Header (bpc_ResultsBlock b))
                = Z.of_nat (length (rxb_TransactionReceipts (bpc_ResultsBlock b)));
  wf_diffs : rxh_NumContractStateDiffs (rxb_Header (bpc_ResultsBlock b))
             = Z.of_nat (length (rxb_ContractStateDiffs (bpc_ResultsBlock b)));
  wf_txProof : TransactionsBlockProofReader (bp_Raw (txb_BlockProof (bpc_TransactionsBlock b)))
               = txb_BlockProof (bpc_TransactionsBlock b);
  wf_rxProof : ResultsBlockProofReader (bp_Raw (rxb_BlockProof (bpc_ResultsBlock b)))
               = rxb_BlockProof (bpc_ResultsBlock b)
}.

Definition block_payloads (b : BlockPairContainer) : list bytes :=
  let tx := bpc_TransactionsBlock b in
  let rx := bpc_ResultsBlock b in
  [raw_TransactionsBlockHeader (txb_Header tx); txb_Metadata tx; bp_Raw (txb_BlockProof tx);
   raw_ResultsBlockHeader (rxb_Header rx); bp_Raw (rxb_BlockProof rx)]
    ++ map raw_SignedTransaction (txb_SignedTransactions tx)
    ++ map raw_TransactionReceipt (rxb_TransactionReceipts rx)
    ++ map raw_ContractStateDiff (rxb_ContractStateDiffs rx).

Lemma encode_block b : EncodeBlockPair (Some (fields_of_block b)) = Ok (block_payloads b).
Proof. done. Qed.

Lemma encode_blocks bs :
  EncodeBlockPairs (map (fun b => Some (fields_of_block b)) bs) = Ok (concat (map block_payloads bs)).
Proof. induction bs as [|b bs IH]; [done|]. cbn [map EncodeBlockPairs concat]. by rewrite encode_block, IH. Qed.

Lemma read_messages_app {A} (reader : bytes -> A) (raw : A -> bytes) l rest :
  (forall a, reader (raw a) = a) -> read_messages reader (map raw l ++ rest) (Z.of_nat (length l)) = Ok l.
Proof.
  intros Hr. induction l as [|a l IH].
  { destruct rest; done. }
  cbn [map app read_messages length]. lia_if. replace (Z.of_nat (S (length l)) - 1) with (Z.of_nat (length l)) by lia.
  rewrite IH. cbn [bindO]. by rewrite Hr.
Qed.

Lemma payload_at_app pre l k p :
  0 <= k -> l !! Z.to_nat k = Some p -> payload_at (pre ++ l) (Z.of_nat (length pre) + k) = Ok p.
Proof.
  intros Hk Hp. unfold payload_at. replace (Z.to_nat (_ + k)) with (length pre + Z.to_nat k)%nat by lia.
  by rewrite lookup_app_r, Nat.add_comm, Nat.add_sub, Hp by lia.
Qed.

Lemma block_payloads_length b :
  length (block_payloads b) =
    (5 + length (txb_SignedTransactions (bpc_TransactionsBlock b))
       + length (rxb_TransactionReceipts (bpc_ResultsBlock b)) + length (rxb_ContractStateDiffs (bpc_ResultsBlock b)))%nat.
Proof. unfold block_payloads. rewrite !length_app, !length_map. simpl. lia. Qed.

Lemma drop_pre {A} (all pre post : list A) n : all = pre ++ post -> n = length pre -> drop n all = post.
Proof. intros -> ->. apply drop_app_length. Qed.

(** Where the messages of a block start. *)
Lemma drop_block pre b post :
  let all := pre ++ block_payloads b ++ post in
  let n := length pre in
  let nt := length (txb_SignedTransactions (bpc_TransactionsBlock b)) in
  let nr := length (rxb_TransactionReceipts (bpc_ResultsBlock b)) in
  exists r1 r2 r3,
  drop (n + 5) all = map raw_SignedTransaction (txb_SignedTransactions (bpc_TransactionsBlock b)) ++ r1 /\
  drop (n + 5 + nt) all = map raw_TransactionReceipt (rxb_TransactionReceipts (bpc_ResultsBlock b)) ++ r2 /\
  drop (n + 5 + nt + nr) all = map raw_ContractStateDiff (rxb_ContractStateDiffs (bpc_ResultsBlock b)) ++ r3.
Proof.
  intros all n nt nr. unfold all, block_payloads.
  set (five := [raw_TransactionsBlockHeader _; _; _; _; _]).
  set (txs := map raw_SignedTransaction _). set (receipts := map raw_TransactionReceipt _).
  eexists _, _, post. rewrite <- !app_assoc. assert (length five = 5%nat) as H5 by done.
  assert (length txs = nt) by apply length_map. assert (length receipts = nr) by apply length_map.
  split_and!; eapply drop_pre.
  - apply (app_assoc pre five).
  - rewrite length_app. lia.
  - rewrite (app_assoc five), (app_assoc pre). reflexivity.
  - rewrite !length_app. lia.
  - rewrite (app_assoc txs), (app_assoc five), (app_assoc pre). reflexivity.
  - rewrite !length_app. lia.
Qed.

(** One block of a sequence. *)
Lemma decode_blocks_cons fuel pre b post :
  wf_block b -> Z.of_nat (length (pre ++ block_payloads b ++ post)) < 2 ^ 32 ->
  decode_blocks (S fuel) (pre ++ block_payloads b ++ post) (Z.of_nat (length pre)) =
    (let! results := decode_blocks fuel (pre ++ block_payloads b ++ post) (Z.of_nat (length (pre ++ block_payloads b))) in
     Ok (b :: results)).
Proof.
  intros [Ht Hr Hd Htp Hrp] Hlen. set (all := pre ++ block_payloads b ++ post).
  pose proof (block_payloads_length b) as Hb. set (n := length pre).
  assert (length all = n + length (block_payloads b) + length post)%nat as Hall by (unfold all; rewrite !length_app; lia).
  fold all in Hlen. cbn [decode_blocks]. rewrite wrap_small by lia. unfold NUM_HARDCODED_PAYLOADS_FOR_BLOCK_PAIR.
  lia_if. rewrite (u32_add_small (Z.of_nat n) 5) by lia. lia_if.
  assert (forall k p, 0 <= k -> (block_payloads b ++ post) !! Z.to_nat k = Some p ->
    payload_at all (Z.of_nat n + k) = Ok p) as Hat by (intros; by apply payload_at_app).
  pose proof (Hat 0 _ ltac:(lia) eq_refl) as E0. rewrite Z.add_0_r in E0. rewrite E0. clear E0. cbn [bindO].
  rewrite (u32_add_small (Z.of_nat n) 1), (u32_add_small (Z.of_nat n) 2), (u32_add_small (Z.of_nat n) 3),
    (u32_add_small (Z.of_nat n) 4) by lia.
  rewrite (Hat 1 _ ltac:(lia) eq_refl), (Hat 2 _ ltac:(lia) eq_refl), (Hat 3 _ ltac:(lia) eq_refl),
    (Hat 4 _ ltac:(lia) eq_refl). cbn [bindO]. clear Hat.
  rewrite read_tx_header, read_rx_header, Htp, Hrp, Ht, Hr, Hd.
  set (nt := length (txb_SignedTransactions _)) in *. set (nr := length (rxb_TransactionReceipts _)) in *.
  set (nd := length (rxb_ContractStateDiffs _)) in *.
  rewrite (u32_add_small (Z.of_nat nt) (Z.of_nat nr)), (u32_add_small _ (Z.of_nat nd)) by lia.
  rewrite (u32_add_small (Z.of_nat n + 5)) by lia. lia_if.
  rewrite (u32_add_small (Z.of_nat n + 5)) by lia. rewrite (u32_add_small _ (Z.of_nat nr)) by lia.
  rewrite (u32_add_small _ (Z.of_nat nd)) by lia.
  destruct (drop_block pre b post) as (r1 & r2 & r3 & D1 & D2 & D3). fold all n nt nr in D1, D2, D3.
  pose proof (read_messages_app _ _ (txb_SignedTransactions (bpc_TransactionsBlock b)) r1 read_tx) as R1.
  pose proof (read_messages_app _ _ (rxb_TransactionReceipts (bpc_ResultsBlock b)) r2 read_receipt) as R2.
  pose proof (read_messages_app _ _ (rxb_ContractStateDiffs (bpc_ResultsBlock b)) r3 read_diff) as R3.
  fold nt nr nd in R1, R2, R3.
  replace (Z.to_nat (Z.of_nat n + 5)) with (n + 5)%nat by lia. rewrite D1, R1. cbn [bindO].
  replace (Z.to_nat (_ + Z.of_nat nt)) with (n + 5 + nt)%nat by lia. rewrite D2, R2. cbn [bindO].
  replace (Z.to_nat (_ + Z.of_nat nr)) with (n + 5 + nt + nr)%nat by lia. rewrite D3, R3. cbn [bindO].
  rewrite length_app, Hb. replace (Z.of_nat n + 5 + _ + _ + _) with (Z.of_nat (length pre + (5 + nt + nr + nd))) by lia.
  by destruct b as [[] []].
Qed.

Lemma decode_blocks_all bs : forall fuel pre,
  Forall wf_block bs -> Z.of_nat (length (pre ++ concat (map block_payloads bs))) < 2 ^ 32 -> (length bs <= fuel)%nat ->
  decode_blocks fuel (pre ++ concat (map block_payloads bs)) (Z.of_nat (length pre)) = Ok bs.
Proof.
  induction bs as [|b bs IH]; intros fuel pre Hwf Hlen Hf; cbn [map concat] in *.
  { rewrite app_nil_r in *. destruct fuel; cbn [decode_blocks]; rewrite wrap_small by lia; by lia_if. }
  apply Forall_cons in Hwf as [Hb Hbs]. destruct fuel as [|fuel]; [simpl in Hf; lia|].
  rewrite decode_blocks_cons by done. rewrite (app_assoc pre), IH; [done..|by rewrite <- app_assoc|simpl in Hf; lia].
Qed.

(** ** From sender to handlers *)

(** What a node sends. *)
Inductive outgoing :=
| OutForwardedTransactions (message : ForwardedTransactionsMessage)
| OutAvailabilityRequest (message : BlockRangeMessage)
| OutAvailabilityResponse (recipient : bytes) (message : BlockRangeMessage)
| OutBlockSyncRequest (recipient : bytes) (message : BlockRangeMessage)
| OutBlockSyncResponse (recipient : bytes) (message : BlockSyncResponseMessage)
| OutCommit (blockPair : option BlockPairFields)
| OutCommitted (recipient : bytes) (message : BenchmarkConsensusCommittedMessage)
| OutLeanHelix (mode : RecipientsListMode) (recipients : list bytes) (message : LeanHelixMessage).

Definition send_message (c : Config) (out : outgoing) : outcome codec_error TransportData :=
  match out with
  | OutForwardedTransactions m => BroadcastForwardedTransactions c m
  | OutAvailabilityRequest m => BroadcastBlockAvailabilityRequest c m
  | OutAvailabilityResponse r m => SendBlockAvailabilityResponse c r m
  | OutBlockSyncRequest r m => SendBlockSyncRequest c r m
  | OutBlockSyncResponse r m => SendBlockSyncResponse c r m
  | OutCommit b => BroadcastBenchmarkConsensusCommit c b
  | OutCommitted r m => SendBenchmarkConsensusCommitted c r m
  | OutLeanHelix mode rs m => SendLeanHelixMessage c mode rs m
  end.

(** The calls it stands for at a node with these listeners. *)
Definition calls_of (l : gossipListeners) (out : outgoing) : list (nat * handler_call) :=
  match out with
  | OutForwardedTransactions m => map (fun h => (h, HandleForwardedTransactions m)) (transactionHandlers l)
  | OutAvailabilityRequest m => map (fun h => (h, HandleBlockAvailabilityRequest m)) (blockSyncHandlers l)
  | OutAvailabilityResponse _ m => map (fun h => (h, HandleBlockAvailabilityResponse m)) (blockSyncHandlers l)
  | OutBlockSyncRequest _ m => map (fun h => (h, HandleBlockSyncRequest m)) (blockSyncHandlers l)
  | OutBlockSyncResponse _ m => map (fun h => (h, HandleBlockSyncResponse m)) (blockSyncHandlers l)
  | OutCommit b => map (fun h => (h, HandleBenchmarkConsensusCommit b)) (benchmarkConsensusHandlers l)
  | OutCommitted _ m => map (fun h => (h, HandleBenchmarkConsensusCommitted m)) (benchmarkConsensusHandlers l)
  | OutLeanHelix _ _ m => map (fun h => (h, HandleLeanHelixMessage m)) (leanHelixHandlers l)
  end.

Definition topic_of (out : outgoing) : HeaderTopic :=
  match out with
  | OutForwardedTransactions _ => HEADER_TOPIC_TRANSACTION_RELAY TRANSACTION_RELAY_FORWARDED_TRANSACTIONS
  | OutAvailabilityRequest _ => HEADER_TOPIC_BLOCK_SYNC BLOCK_SYNC_AVAILABILITY_REQUEST
  | OutAvailabilityResponse _ _ => HEADER_TOPIC_BLOCK_SYNC BLOCK_SYNC_AVAILABILITY_RESPONSE
  | OutBlockSyncRequest _ _ => HEADER_TOPIC_BLOCK_SYNC BLOCK_SYNC_REQUEST
  | OutBlockSyncResponse _ _ => HEADER_TOPIC_BLOCK_SYNC BLOCK_SYNC_RESPONSE
  | OutCommit _ => HEADER_TOPIC_BENCHMARK_CONSENSUS BENCHMARK_CONSENSUS_COMMIT
  | OutCommitted _ _ => HEADER_TOPIC_BENCHMARK_CONSENSUS BENCHMARK_CONSENSUS_COMMITTED
  | OutLeanHelix _ _ _ => HEADER_TOPIC_LEAN_HELIX
  end.

(** The blocks of a message are well formed. *)
Definition wf_blocks (bs : list BlockPairContainer) : Prop :=
  Forall wf_block bs /\ Z.of_nat (length (concat (map block_payloads bs))) < 2 ^ 32.

Definition wf_outgoing (out : outgoing) : Prop :=
  match out with
  | OutBlockSyncResponse _ m => exists bs, bsr_BlockPairs m = map (fun b => Some (fields_of_block b)) bs /\ wf_blocks bs
  | OutCommit b => forall f, b = Some f -> exists blk, f = fields_of_block blk /\ wf_blocks [blk]
  | OutLeanHelix _ _ m => forall f, lh_BlockPair m = Some f -> exists blk, f = fields_of_block blk /\ wf_blocks [blk]
  | _ => True
  end.

Lemma decode_wf bs : wf_blocks bs -> DecodeBlockPairs (concat (map block_payloads bs)) = Ok bs.
Proof.
  intros [Hwf Hlen]. unfold DecodeBlockPairs. apply (decode_blocks_all bs _ []); [done..|].
  clear. induction bs as [|b bs IH]; [done|]. cbn [map concat length]. rewrite length_app, block_payloads_length. lia.
Qed.

Lemma decode_one b : wf_blocks [b] -> DecodeBlockPair (block_payloads b) = Ok b.
Proof.
  intros Hwf. apply decode_wf in Hwf. cbn [map concat] in Hwf. rewrite app_nil_r in Hwf.
  unfold DecodeBlockPair. by rewrite Hwf.
Qed.

Lemma read_valid_app txs : read_valid_transactions (map raw_SignedTransaction txs) = Ok txs.
Proof. induction txs as [|t txs IH]; [done|]. cbn [map read_valid_transactions]. by rewrite valid_tx, IH, read_tx. Qed.

(** A message that was sent is its header and payloads the handlers of its topic
    decode to it. *)
Definition sent_as (c : Config) (out : outgoing) (d : TransportData) : Prop :=
  SenderNodeAddress d = NodeAddress c /\
  exists payloads,
    Payloads d = raw_Header (mkHeader (topic_of out) (RecipientMode d) (RecipientNodeAddresses d) (VirtualChainId c)) :: payloads /\
    forall l header, h_Topic header = topic_of out ->
      topic_handler l (topic_of out) (mkMessage header payloads) = Ok (calls_of l out).

Lemma send_range_sent (m : BlockRangeMessage) header payloads :
  encode_range header m = Ok payloads -> exists rest, payloads = raw_Header header :: rest /\ decode_range rest = Ok m.
Proof.
  unfold encode_range. destruct m as [[range|] [sender|]]; cbn; try done. intros [= <-].
  eexists. split; [reflexivity|]. cbn. by rewrite read_range, read_sender.
Qed.

Lemma send_forwarded_sent m header payloads :
  EncodeForwardedTransactions header m = Ok payloads ->
  exists rest, payloads = raw_Header header :: rest /\ DecodeForwardedTransactions rest = Ok m.
Proof.
  unfold EncodeForwardedTransactions. destruct m as [[sender|] [|tx txs]]; cbn; try done. intros [= <-].
  eexists. split; [reflexivity|]. pose proof (read_valid_app (tx :: txs)) as Hr. cbn [map] in Hr. cbn [DecodeForwardedTransactions].
  by rewrite read_sender, Hr.
Qed.

Lemma send_response_sent m header payloads bs :
  bsr_BlockPairs m = map (fun b => Some (fields_of_block b)) bs -> wf_blocks bs ->
  EncodeBlockSyncResponse header m = Ok payloads ->
  exists rest, payloads = raw_Header header :: rest /\ DecodeBlockSyncResponse rest = Ok m.
Proof.
  unfold EncodeBlockSyncResponse. destruct m as [[range|] [sender|] pairs]; cbn [bsr_BlockPairs bsr_SignedChunkRange bsr_Sender];
    intros -> Hwf; destruct bs as [|b bs]; try done. cbn [map].
  change (Some (fields_of_block b) :: map _ bs) with (map (fun b => Some (fields_of_block b)) (b :: bs)).
  assert (5 <= length (concat (map block_payloads (b :: bs))))%nat as H5
    by (cbn [map concat]; rewrite length_app, block_payloads_length; lia).
  rewrite encode_blocks. apply decode_wf in Hwf. revert Hwf H5. generalize (concat (map block_payloads (b :: bs))).
  intros enc Hdec H5. cbn [bindO]. intros [= <-]. eexists. split; [reflexivity|].
  unfold DecodeBlockSyncResponse. cbn [app length]. unfold NUM_HARDCODED_PAYLOADS_FOR_BLOCK_PAIR.
  lia_if. by rewrite read_range, read_sender, Hdec.
Qed.

Lemma send_commit_sent b header payloads :
  (forall f, b = Some f -> exists blk, f = fields_of_block blk /\ wf_blocks [blk]) ->
  EncodeBenchmarkConsensusCommitMessage header b = Ok payloads ->
  exists rest, payloads = raw_Header header :: rest /\ DecodeBenchmarkConsensusCommitMessage rest = Ok b.
Proof.
  intros Hwf. destruct b as [f|]; [|done]. destruct (Hwf f eq_refl) as (blk & -> & Hb).
  unfold EncodeBenchmarkConsensusCommitMessage. rewrite encode_block. intros [= <-].
  eexists. split; [reflexivity|]. unfold DecodeBenchmarkConsensusCommitMessage. by rewrite decode_one.
Qed.

Lemma send_committed_sent m header payloads :
  EncodeBenchmarkConsensusCommittedMessage header m = Ok payloads ->
  exists rest, payloads = raw_Header header :: rest /\ DecodeBenchmarkConsensusCommittedMessage rest = Ok m.
Proof.
  unfold EncodeBenchmarkConsensusCommittedMessage. destruct m as [[status|] [sender|]]; cbn; try done. intros [= <-].
  eexists. split; [reflexivity|]. cbn. by rewrite read_status, read_sender.
Qed.

Lemma send_lean_helix_sent m header payloads :
  (forall f, lh_BlockPair m = Some f -> exists blk, f = fields_of_block blk /\ wf_blocks [blk]) ->
  EncodeLeanHelixMessage header m = Ok payloads ->
  exists rest, payloads = raw_Header header :: rest /\ DecodeLeanHelixMessage rest = Ok m.
Proof.
  unfold EncodeLeanHelixMessage. destruct m as [[content|] [f|]]; cbn [lh_Content lh_BlockPair]; intros Hwf; try done.
  - destruct (Hwf f eq_refl) as (blk & -> & Hb). rewrite encode_block. intros [= <-].
    eexists. split; [reflexivity|]. cbn [app DecodeLeanHelixMessage]. pose proof (decode_one blk Hb) as Hd.
    destruct (block_payloads blk) eqn:E; [done|]. rewrite <- E in *. cbn [DecodeLeanHelixMessage]. by rewrite E, <- E, Hd.
  - intros [= <-]. eexists. split; reflexivity.
Qed.

Lemma send_message_sent c out d : wf_outgoing out -> send_message c out = Ok d -> sent_as c out d.
Proof.
  intros Hwf Hs. destruct out as [m|m|r m|r m|r m|b|r m|mode rs m]; cbn in Hs.
  all: apply bindO_Ok in Hs as (payloads & He & [= <-]); split; [done|]; cbn in Hwf.
  1: apply send_forwarded_sent in He as (rest & -> & Hd).
  2-4: apply send_range_sent in He as (rest & -> & Hd).
  5: destruct Hwf as (bs & Hbs & Hwf); eapply send_response_sent in He as (rest & -> & Hd); [|done..].
  6: apply send_commit_sent in He as (rest & -> & Hd); [|done].
  7: apply send_committed_sent in He as (rest & -> & Hd).
  8: apply send_lean_helix_sent in He as (rest & -> & Hd); [|done].
  all: exists rest; split; [reflexivity|]; intros l header Hh; unfold topic_handler; cbn [topic_of gm_header gm_payloads] in *.
  1: unfold receivedTransactionRelayMessage.
  2-5: unfold receivedBlockSyncMessage.
  6-7: unfold receivedBenchmarkConsensusMessage.
  8: unfold receivedLeanHelixMessage.
  1-7: rewrite Hh.
  all: unfold receivedForwardedTransactions, receivedBlockSyncAvailabilityRequest, receivedBlockSyncAvailabilityResponse,
    receivedBlockSyncRequest, receivedBlockSyncResponse, receivedBenchmarkConsensusCommit, receivedBenchmarkConsensusCommitted,
    DecodeBlockAvailabilityRequest, DecodeBlockAvailabilityResponse, DecodeBlockSyncRequest; by rewrite Hd.
Qed.

(** The recipients of a message. *)
Definition addressed (d : TransportData) (me : bytes) : Prop :=
  match RecipientMode d with
  | RECIPIENT_LIST_MODE_LIST => me ∈ RecipientNodeAddresses d
  | RECIPIENT_LIST_MODE_ALL_BUT_LIST => me ∉ RecipientNodeAddresses d
  | _ => True
  end.

Lemma isInRecipientList_spec me l : isInRecipientList me l = bool_decide (me ∈ l).
Proof.
  unfold isInRecipientList. apply eq_true_iff_eq. rewrite existsb_exists, bool_decide_eq_true. split.
  - intros (x & Hx & ->%bool_decide_eq_true). by apply list_elem_of_In.
  - intros Hme. exists me. rewrite bool_decide_eq_true. by rewrite <- list_elem_of_In.
Qed.

Lemma validate_addressed (c : Config) topic d vc :
  vc = VirtualChainId c -> addressed d (NodeAddress c) ->
  validateMessageHeader c (mkHeader topic (RecipientMode d) (RecipientNodeAddresses d) vc) = Ok tt.
Proof.
  intros -> Ha. unfold validateMessageHeader, addressed in *.
  cbn [h_VirtualChainId h_RecipientMode h_RecipientNodeAddresses]. rewrite Z.eqb_refl. cbn [negb].
  destruct (RecipientMode d); rewrite ?isInRecipientList_spec; [done|done|by rewrite bool_decide_true|by rewrite bool_decide_false].
Qed.

(** No message waits, and no topic is without a buffer. *)
Definition idle (s : Service) : Prop :=
  let d := messageDispatcher s in
  Forall (fun c => ch c = [] /\ (0 < topicBufferSize c)%nat) [transactionRelay d; blockSync d; leanHelix d; benchmarkConsensus d].

(** A round of every topic. *)
Fixpoint run_topics (s : Service) (topics : list HeaderTopic) : Service * outcome unit (list (nat * handler_call)) :=
  match topics with
  | [] => (s, Ok [])
  | topic :: topics =>
      let '(s, calls) := run_topic s topic in
      let '(s, more) := run_topics s topics in
      (s, let! calls := calls in let! more := more in Ok (calls ++ more))
  end.

Definition all_topics : list HeaderTopic :=
  [HEADER_TOPIC_TRANSACTION_RELAY TRANSACTION_RELAY_RESERVED; HEADER_TOPIC_BLOCK_SYNC BLOCK_SYNC_RESERVED;
   HEADER_TOPIC_LEAN_HELIX; HEADER_TOPIC_BENCHMARK_CONSENSUS BENCHMARK_CONSENSUS_RESERVED].

(** Messages arrive one after the other, with a round of the topics after each. *)
Fixpoint receive_all (s : Service) (messages : list (list bytes)) : Service * outcome unit (list (nat * handler_call)) :=
  match messages with
  | [] => (s, Ok [])
  | payloads :: messages =>
      let '(s, calls) := run_topics (OnTransportMessageReceived false s payloads) all_topics in
      let '(s, more) := receive_all s messages in
      (s, let! calls := calls in let! more := more in Ok (calls ++ more))
  end.

Lemma channel_push_idle size m : (0 < size)%nat -> channel_push (mkChannel [] size) m = Some (mkChannel [m] size).
Proof. intros Hs. unfold channel_push. cbn. by destruct size; [lia|]. Qed.

Lemma receive_sent sender s out d :
  idle s -> sent_as sender out d -> VirtualChainId sender = VirtualChainId (config s) -> addressed d (NodeAddress (config s)) ->
  run_topics (OnTransportMessageReceived false s (Payloads d)) all_topics = (s, Ok (calls_of (listeners s) out)).
Proof.
  intros Hidle [_ (rest & -> & Hrun)] Hvc Ha. unfold OnTransportMessageReceived.
  rewrite read_header, validate_addressed by done. set (header := mkHeader _ _ _ _).
  specialize (Hrun (listeners s) header eq_refl).
  destruct s as [c l [[c1 n1] [c2 n2] [c3 n3] [c4 n4]]]. unfold idle in Hidle.
  rewrite !Forall_cons in Hidle.
  cbn [ch topicBufferSize messageDispatcher transactionRelay blockSync leanHelix benchmarkConsensus] in Hidle. destruct Hidle as ([-> H1'] & [-> H2'] & [-> H3'] & [-> H4'] & _).
  unfold dispatch. cbn [h_Topic header config listeners messageDispatcher] in *.
  destruct out; cbn [topic_of get transactionRelay blockSync leanHelix benchmarkConsensus]; rewrite channel_push_idle by done;
    cbn [run_topics all_topics run_topic get set_topic messageDispatcher config listeners transactionRelay blockSync leanHelix
         benchmarkConsensus ch topicBufferSize bindO];
    cbn [topic_of] in Hrun; unfold topic_handler in *; rewrite Hrun; cbn [bindO]; by rewrite ?app_nil_r.
Qed.

Lemma receive_all_sent sender s outs ds :
  idle s -> VirtualChainId sender = VirtualChainId (config s) ->
  Forall2 (fun out d => sent_as sender out d /\ addressed d (NodeAddress (config s))) outs ds ->
  receive_all s (map Payloads ds) = (s, Ok (concat (map (calls_of (listeners s)) outs))).
Proof.
  intros Hidle Hvc. induction 1 as [|out d outs ds [Hs Ha] _ IH]; [done|]. cbn [map receive_all concat].
  rewrite (receive_sent sender s out d), IH by done. done.
Qed.

Lemma payloads_of_sent sender outs ds (P : TransportData -> Prop) :
  Forall2 (fun out d => sent_as sender out d /\ P d) outs ds -> payloads_of ds = map Payloads ds.
Proof.
  induction 1 as [|out d outs ds [[_ (rest & Hd & _)] _] _ IH]; [done|]. rewrite payloads_of_cons, IH, Hd. cbn [map]. by rewrite Hd.
Qed.


Lemma run_received s header rest :
  idle s -> validateMessageHeader (config s) header = Ok tt -> get (messageDispatcher s) (h_Topic header) <> None ->
  snd (run_topic (OnTransportMessageReceived false s (raw_Header header :: rest)) (h_Topic header))
  = topic_handler (listeners s) (h_Topic header) (mkMessage header rest).
Proof.
  intros Hidle Hv Hg. unfold OnTransportMessageReceived. rewrite read_header, Hv. unfold dispatch.
  destruct s as [c l [[c1 n1] [c2 n2] [c3 n3] [c4 n4]]]. unfold idle in Hidle. rewrite !Forall_cons in Hidle.
  cbn [ch topicBufferSize messageDispatcher transactionRelay blockSync leanHelix benchmarkConsensus] in Hidle.
  destruct Hidle as ([-> H1'] & [-> H2'] & [-> H3'] & [-> H4'] & _). cbn [messageDispatcher listeners config] in *.
  destruct (h_Topic header); cbn [get transactionRelay blockSync leanHelix benchmarkConsensus] in *; try done;
    rewrite channel_push_idle by done; done.
Qed.

Lemma validate_broadcast c topic :
  validateMessageHeader c (mkHeader topic RECIPIENT_LIST_MODE_BROADCAST [] (VirtualChainId c)) = Ok tt.
Proof. unfold validateMessageHeader. cbn. by rewrite Z.eqb_refl. Qed.

Lemma decode_overflow txHeader rxHeader payload1 payload2 payload4 :
  0 < txh_NumSignedTransactions txHeader ->
  txh_NumSignedTransactions txHeader + rxh_NumTransactionReceipts rxHeader + rxh_NumContractStateDiffs rxHeader = 2 ^ 32 ->
  DecodeBlockPairs [raw_TransactionsBlockHeader txHeader; payload1; payload2; raw_ResultsBlockHeader rxHeader; payload4] = Panic.
Proof.
  intros Hn Hsum. set (payloads := [_; _; _; _; _]). unfold DecodeBlockPairs. cbn [length payloads decode_blocks].
  change (wrap 32 (Z.of_nat 5)) with 5. change (0 <? 5) with true. cbv iota.
  change (5 <? u32_add 0 NUM_HARDCODED_PAYLOADS_FOR_BLOCK_PAIR) with false. cbv iota.
  change (payload_at payloads 0) with (@Ok codec_error _ (raw_TransactionsBlockHeader txHeader)).
  change (payload_at payloads (u32_add 0 1)) with (@Ok codec_error _ payload1).
  change (payload_at payloads (u32_add 0 2)) with (@Ok codec_error _ payload2).
  change (payload_at payloads (u32_add 0 3)) with (@Ok codec_error _ (raw_ResultsBlockHeader rxHeader)).
  change (payload_at payloads (u32_add 0 4)) with (@Ok codec_error _ payload4).
  cbn [bindO]. rewrite read_tx_header, read_rx_header. change (u32_add 0 NUM_HARDCODED_PAYLOADS_FOR_BLOCK_PAIR) with 5.
  replace (u32_add 5 (u32_add _ _)) with 5 by (unfold u32_add; rewrite wrap_add_l, Hsum; done).
  change (5 <? 5) with false. cbv iota. change (drop (Z.to_nat 5) payloads) with (@nil bytes).
  cbn [read_messages]. by replace (_ <=? 0) with false by lia.
Qed.

(** A message of any node whose header counts add up to 2^32 passes the check of
    the number of payloads and makes the handler of its topic panic. *)
Theorem oversized_counts_panic s txHeader rxHeader payload1 payload2 payload4 :
  idle s -> 0 < txh_NumSignedTransactions txHeader ->
  txh_NumSignedTransactions txHeader + rxh_NumTransactionReceipts rxHeader + rxh_NumContractStateDiffs rxHeader = 2 ^ 32 ->
  let topic := HEADER_TOPIC_BENCHMARK_CONSENSUS BENCHMARK_CONSENSUS_COMMIT in
  let header := mkHeader topic RECIPIENT_LIST_MODE_BROADCAST [] (VirtualChainId (config s)) in
  let message := [raw_Header header; raw_TransactionsBlockHeader txHeader; payload1; payload2;
                  raw_ResultsBlockHeader rxHeader; payload4] in
  snd (run_topic (OnTransportMessageReceived false s message) topic) = Panic.
Proof.
  intros Hidle Hn Hsum topic header message. unfold message.
  rewrite (run_received s header) by (done || apply validate_broadcast).
  unfold header, topic. cbn [h_Topic topic_handler gm_header gm_payloads].
  unfold receivedBenchmarkConsensusMessage. cbn [h_Topic].
  unfold receivedBenchmarkConsensusCommit, DecodeBenchmarkConsensusCommitMessage, DecodeBlockPair.
  by rewrite decode_overflow.
Qed.
End RoundTrips.

(** ** Blocks that do not fit in the queue *)

Inductive gossip_error := ErrCodec (e : codec_error) | ErrTransport (e : transport_error).

Definition IsChunkTooBigError (e : gossip_error) : bool :=
  match e with ErrTransport (ErrQueue e) => IsQueueFullError e | _ => false end.

Section Chunks.
Context `{Membuffers, GossipMembuffers}.

(** The service of a node with these connections. *)
Definition service_SendBlockSyncResponse (config : Config) (c : outgoingConnections) (recipient : bytes)
    (message : BlockSyncResponseMessage) : outcome gossip_error outgoingConnections :=
  match SendBlockSyncResponse config recipient message with
  | Ok d => match send c d with Ok c' => Ok c' | Err e => Err (ErrTransport e) | Panic => Panic end
  | Err e => Err (ErrCodec e)
  | Panic => Panic
  end.

Definition response_message (blockType : Z) (r : BlockStorage.BlockSyncResponse) : BlockSyncResponseMessage :=
  let range := BlockStorage.sr_Range r in
  mkResponseMessage
    (Some (mkBlockSyncRange blockType (BlockStorage.FirstBlockHeight range) (BlockStorage.LastBlockHeight range)
       (BlockStorage.LastCommittedBlockHeight range)))
    (Some (mkSender (BlockStorage.sr_Sender r) []))
    (map (fun b => Some (fields_of_block b)) (BlockStorage.sr_BlockPairs r)).

(** What the block sync server sees of a send. *)
Definition chunk_result (config : Config) (c : outgoingConnections) (blockType : Z) (r : BlockStorage.BlockSyncResponse)
    : BlockStorage.send_result :=
  match service_SendBlockSyncResponse config c (BlockStorage.sr_Recipient r) (response_message blockType r) with
  | Ok _ => BlockStorage.Sent
  | Err e => if IsChunkTooBigError e then BlockStorage.ChunkTooBig else BlockStorage.SendFailed
  | Panic => BlockStorage.SendFailed
  end.

Lemma encode_response header blockType r :
  BlockStorage.sr_BlockPairs r <> [] ->
  exists payloads, EncodeBlockSyncResponse header (response_message blockType r) = Ok payloads.
Proof.
  intros Hne. unfold EncodeBlockSyncResponse, response_message. cbn [bsr_SignedChunkRange bsr_BlockPairs bsr_Sender].
  destruct (BlockStorage.sr_BlockPairs r) as [|b bs]; [done|]. cbn [map].
  change (Some (fields_of_block b) :: map _ bs) with (map (fun b => Some (fields_of_block b)) (b :: bs)).
  rewrite encode_blocks. eexists. reflexivity.
Qed.

(** Over TCP a response that can be encoded is always reported as sent. *)
Lemma chunk_sent config c blockType r : BlockStorage.sr_BlockPairs r <> [] -> chunk_result config c blockType r = BlockStorage.Sent.
Proof.
  intros Hne. unfold chunk_result, service_SendBlockSyncResponse, SendBlockSyncResponse, list_data.
  destruct (encode_response (list_header config (HEADER_TOPIC_BLOCK_SYNC BLOCK_SYNC_RESPONSE) (BlockStorage.sr_Recipient r))
              blockType r Hne) as [payloads ->]. done.
Qed.

Lemma full_queue_refuses client d :
  bytesLeft (oc_queue client) < TotalSize d -> addDataToOutgoingPeerQueue client d = client.
Proof.
  intros Hl. unfold addDataToOutgoingPeerQueue, Push, consumeBytes. destruct client as [p q]. cbn [oc_queue oc_peer] in *.
  destruct (disabled q); [done|]. by lia_if.
Qed.

Context `{Sha256Laws} {P : Type} `{BlockPersistence P} {holds : P -> list BlockPairContainer -> Prop}
  {storable : BlockPairContainer -> Prop} `{!BlockPersistenceLaws P holds storable}.

(** A batch of blocks too big for the queue of the peer that asks for it is
    dropped, and reported to the block sync server as sent: the server takes the
    whole batch as delivered, never sends a smaller one, and the queue is as it was. *)
Theorem oversize_chunk_lost (s : BlockStorage.Service P) chain config c blockType sender first last committed client d :
  let batch := BlockStorage.BlockSyncNumBlocksInBatch (BlockStorage.config s) in
  let blocks := take (Z.to_nat batch) (drop (Z.to_nat (first - 1)) chain) in
  let response := BlockStorage.mkSyncResponse sender (BlockStorage.NodeAddress (BlockStorage.config s))
                    (BlockStorage.mkRange first (first + Z.of_nat (length blocks) - 1) (top chain)) blocks in
  holds (BlockStorage.persistence s) chain -> 1 <= batch < 2 ^ 32 -> 1 <= first < top chain ->
  activeConnections c !! sender = Some client ->
  SendBlockSyncResponse config sender (response_message blockType response) = Ok d ->
  bytesLeft (oc_queue client) < TotalSize d ->
  BlockStorage.HandleBlockSyncRequest s (chunk_result config c blockType) sender (BlockStorage.mkRange first last committed)
    = Ok response /\
  exists c', send c d = Ok c' /\ activeConnections c' !! sender = Some client.
Proof.
  intros batch blocks response Hs Hb Hf Hclient Hd Hfull. split.
  - unfold BlockStorage.HandleBlockSyncRequest.
    destruct (BlockStorage.sync_request_slice s chain (chunk_result config c blockType) sender first last committed)
      as [Hne ->]; [done|done|lia|lia|]. fold batch in Hne |- *. fold blocks in Hne |- *. cbn [BlockStorage.send_chunks].
    pose proof (holds_ok _ _ Hs) as [Hlen _]. unfold top in *.
    assert (length blocks <= length chain)%nat by (unfold blocks; rewrite length_take, length_drop; lia).
    rewrite u64_add_small, u64_sub_small, firstn_all by lia. rewrite chunk_sent by done. done.
  - unfold SendBlockSyncResponse, list_data in Hd. inv_bind Hd. injection Hd as <-. unfold send. cbn [RecipientMode].
    eexists. split; [reflexivity|]. cbn [RecipientNodeAddresses foldl]. unfold send_to. rewrite Hclient.
    cbn [activeConnections]. by rewrite lookup_insert_eq, full_queue_refuses.
Qed.
End Chunks.

(** ** Examples *)

Module Example.
#[local] Existing Instance packed_membuffers.
#[local] Existing Instance packed_readers.
#[local] Existing Instance packed_laws.
#[local] Existing Instance Transport.Example.le_uint32.
#[local] Existing Instance Transport.Example.le_uint32_laws.

(** Topics and recipient modes as numbers. *)
Definition topic_code (t : HeaderTopic) : bytes :=
  match t with
  | HEADER_TOPIC_TRANSACTION_RELAY TRANSACTION_RELAY_RESERVED => [1; 0]
  | HEADER_TOPIC_TRANSACTION_RELAY TRANSACTION_RELAY_FORWARDED_TRANSACTIONS => [1; 1]
  | HEADER_TOPIC_BLOCK_SYNC BLOCK_SYNC_RESERVED => [2; 0]
  | HEADER_TOPIC_BLOCK_SYNC BLOCK_SYNC_AVAILABILITY_REQUEST => [2; 1]
  | HEADER_TOPIC_BLOCK_SYNC BLOCK_SYNC_AVAILABILITY_RESPONSE => [2; 2]
  | HEADER_TOPIC_BLOCK_SYNC BLOCK_SYNC_REQUEST => [2; 3]
  | HEADER_TOPIC_BLOCK_SYNC BLOCK_SYNC_RESPONSE => [2; 4]
  | HEADER_TOPIC_LEAN_HELIX => [3; 0]
  | HEADER_TOPIC_BENCHMARK_CONSENSUS BENCHMARK_CONSENSUS_RESERVED => [4; 0]
  | HEADER_TOPIC_BENCHMARK_CONSENSUS BENCHMARK_CONSENSUS_COMMIT => [4; 1]
  | HEADER_TOPIC_BENCHMARK_CONSENSUS BENCHMARK_CONSENSUS_COMMITTED => [4; 2]
  | HEADER_TOPIC_OTHER z => [5; z]
  end.

Definition topic_decode (raw : bytes) : option HeaderTopic :=
  match raw with
  | [1; 0] => Some (HEADER_TOPIC_TRANSACTION_RELAY TRANSACTION_RELAY_RESERVED)
  | [1; 1] => Some (HEADER_TOPIC_TRANSACTION_RELAY TRANSACTION_RELAY_FORWARDED_TRANSACTIONS)
  | [2; 0] => Some (HEADER_TOPIC_BLOCK_SYNC BLOCK_SYNC_RESERVED)
  | [2; 1] => Some (HEADER_TOPIC_BLOCK_SYNC BLOCK_SYNC_AVAILABILITY_REQUEST)
  | [2; 2] => Some (HEADER_TOPIC_BLOCK_SYNC BLOCK_SYNC_AVAILABILITY_RESPONSE)
  | [2; 3] => Some (HEADER_TOPIC_BLOCK_SYNC BLOCK_SYNC_REQUEST)
  | [2; 4] => Some (HEADER_TOPIC_BLOCK_SYNC BLOCK_SYNC_RESPONSE)
  | [3; 0] => Some HEADER_TOPIC_LEAN_HELIX
  | [4; 0] => Some (HEADER_TOPIC_BENCHMARK_CONSENSUS BENCHMARK_CONSENSUS_RESERVED)
  | [4; 1] => Some (HEADER_TOPIC_BENCHMARK_CONSENSUS BENCHMARK_CONSENSUS_COMMIT)
  | [4; 2] => Some (HEADER_TOPIC_BENCHMARK_CONSENSUS BENCHMARK_CONSENSUS_COMMITTED)
  | [5; z] => Some (HEADER_TOPIC_OTHER z)
  | _ => None
  end.

Definition mode_code (m : RecipientsListMode) : Z :=
  match m with
  | RECIPIENT_LIST_MODE_RESERVED => 0
  | RECIPIENT_LIST_MODE_BROADCAST => 1
  | RECIPIENT_LIST_MODE_LIST => 2
  | RECIPIENT_LIST_MODE_ALL_BUT_LIST => 3
  end.
Definition mode_decode (z : Z) : RecipientsListMode :=
  match z with
  | 1 => RECIPIENT_LIST_MODE_BROADCAST
  | 2 => RECIPIENT_LIST_MODE_LIST
  | 3 => RECIPIENT_LIST_MODE_ALL_BUT_LIST
  | _ => RECIPIENT_LIST_MODE_RESERVED
  end.

Definition packed_gossip : GossipMembuffers := {|
  raw_Header h := pack (topic_code (h_Topic h) :: [mode_code (h_RecipientMode h)] :: [h_VirtualChainId h]
                        :: h_RecipientNodeAddresses h);
  raw_BlockSyncRange r := pack [[BlockType r]; [FirstBlockHeight r]; [LastBlockHeight r]; [LastCommittedBlockHeight r]];
  raw_SenderSignature s := pack [ss_NodeAddress s; ss_Signature s];
  raw_BenchmarkStatus z := [z];
  HeaderReader raw :=
    match fields_of raw with
    | topic :: [mode] :: [vc] :: recipients =>
        option_map (fun t => mkHeader t (mode_decode mode) recipients vc) (topic_decode topic)
    | _ => None
    end;
  BlockSyncRangeReader raw :=
    match fields_of raw with
    | [[blockType]; [first]; [last]; [committed]] => Some (mkBlockSyncRange blockType first last committed)
    | _ => None
    end;
  SenderSignatureReader raw :=
    match fields_of raw with [address; signature] => Some (mkSender address signature) | _ => None end;
  BenchmarkStatusReader raw := match raw with [z] => Some z | _ => None end;
  SignedTransaction_IsValid raw := true
|}.
#[local] Existing Instance packed_gossip.

#[local] Instance packed_gossip_laws : GossipLaws.
Proof.
  split.
  - intros [topic mode recipients vc]. cbn. rewrite fields_of_pack.
    destruct mode, topic as [[]|[]| |[]|]; reflexivity.
  - intros []. cbn. by rewrite fields_of_pack.
  - intros []. cbn. by rewrite fields_of_pack.
  - done.
  - done.
Qed.

Definition sender : Config := mkConfig [1] 42.
Definition receiver : Service :=
  RegisterBenchmarkConsensusHandler (RegisterTransactionRelayHandler (NewGossip (mkConfig [2] 42)) 7) 8.

Definition transaction : SignedTransaction :=
  mkSignedTransaction (mkTransaction 1 42 10 (mkSigner [] None) [65] [66] []) [9].
Definition forwarded : outgoing := OutForwardedTransactions (mkForwarded (Some (mkSender [1] [5])) [transaction]).
Definition commit : outgoing := OutCommit (Some (fields_of_block block5)).
Definition data (out : outgoing) : TransportData :=
  match send_message sender out with Ok d => d | _ => mkData [] RECIPIENT_LIST_MODE_RESERVED [] [] end.

Definition events : list connection_event :=
  [PushEvent (data forwarded); PushEvent (data commit); PopEvent []; KeepAliveEvent []; PopEvent []].
Definition run : connection_run := handleOutgoingConnection 0 Transport.Example.new_queue events.
Definition connection : net_conn := mkConn (run_wire run) (replicate 400 (mkRead 3 false)) None.

Lemma block5_wf : wf_blocks [block5].
Proof. split; [apply Forall_singleton; split; reflexivity|vm_compute; reflexivity]. Qed.


Definition huge_tx_header : TransactionsBlockHeader := mkTxHeader 1 42 5 [] 10 [] [] 1 [].
Definition huge_rx_header : ResultsBlockHeader := mkRxHeader 1 42 5 [] 10 [] [] [] [] (2 ^ 32 - 1) 0 [].

Lemma oversized_counts_panic_witness :
  let topic := HEADER_TOPIC_BENCHMARK_CONSENSUS BENCHMARK_CONSENSUS_COMMIT in
  snd (run_topic (OnTransportMessageReceived false receiver
    [raw_Header (mkHeader topic RECIPIENT_LIST_MODE_BROADCAST [] 42); raw_TransactionsBlockHeader huge_tx_header; []; [];
     raw_ResultsBlockHeader huge_rx_header; []]) topic) = Panic.
Proof.
  apply (oversized_counts_panic receiver huge_tx_header huge_rx_header [] [] []).
  - repeat constructor.
  - reflexivity.
  - reflexivity.
Defined.

Definition connections : outgoingConnections :=
  mkConnections {[ [8] := mkConnection (mkPeer 1 [] []) (NewTransportQueue 20 10) ]} ∅ [9].

Lemma oversize_chunk_lost_witness :
  exists response, BlockStorage.HandleBlockSyncRequest BlockStorage.storage3 (chunk_result (mkConfig [9] 42) connections 1) [8]
    (BlockStorage.mkRange 1 1 0) = Ok response /\ length (BlockStorage.sr_BlockPairs response) = 2%nat.
Proof.
  eexists. split.
  - refine (proj1 (oversize_chunk_lost BlockStorage.storage3 BlockStorage.chain3 (mkConfig [9] 42) connections 1 [8] 1 1 0
             (mkConnection (mkPeer 1 [] []) (NewTransportQueue 20 10)) _ BlockStorage.storage3_holds _ _ _ _ _)).
    + eval_Z.
    + eval_Z.
    + reflexivity.
    + reflexivity.
    + vm_compute. reflexivity.
  - reflexivity.
Defined.
End Example.
End Gossip.
