(* ===== verification/BenchmarkConsensus.v ===== *)
(** * Benchmark consensus (services/consensusalgo/benchmarkconsensus)

    One constant leader makes blocks, signs and broadcasts them; the other nodes
    commit them and reply with their last height; the leader goes on when enough
    nodes have replied.

    A block the code compares by pointer is a [bref], a block with its pointer.
    The block storage, the consensus context, the signer and gossip are arguments;
    a call that sends returns the messages it sends. *)

From stdpp Require Import base gmap list.
From Stdlib Require Import ZArith Lia ZifyBool.
From S2P Require Import Prelude Hash Protocol Digest.

Module BenchmarkConsensus.

(** ** Data *)

Definition blockHeightNone : Z := 2 ^ 64 - 1.

Record Config := mkConfig {
  NodeAddress : bytes;
  GenesisValidatorNodes : gset bytes;
  BenchmarkConsensusConstantLeader : bytes;
  BenchmarkConsensusRequiredQuorumPercentage : Z
}.

Record bref := mkRef { ptr : nat; pair : BlockPairContainer }.

Definition height_of (b : BlockPairContainer) : Z := txh_BlockHeight (txb_Header (bpc_TransactionsBlock b)).

Record Service := mkService {
  isLeader : bool;
  lastCommittedBlock : option bref;
  lastSuccessfullyVotedBlock : Z;
  lastCommittedBlockVoters : gset bytes;
  lastCommittedBlockVotersReachedQuorum : bool
}.

Inductive consensus_error :=
| ErrEmptyBlock
| ErrTxProofType
| ErrRxProofType
| ErrTxPrevHash
| ErrRxPrevHash
| ErrNotSigned
| ErrNotFromLeader
| ErrSignature
| ErrBlockType
| ErrHeightMismatch
| ErrFutureHeight
| ErrStorage
| ErrSign
| ErrNoSigner
| ErrGossip
| ErrConsensusContext
| ErrPartialBlock
| ErrWrongHeight
| ErrNotValidator
| ErrInconsistent.

(** The benchmark messages of orbs-spec: the signed block reference, the status of
    a vote, and block proofs with their signers. *)
Class BenchmarkMessages := {
  raw_BlockRef : Z -> bytes -> bytes;
  raw_Status : Z -> bytes;
  proof_nodes : BlockProof -> list (bytes * bytes);
  tx_proof : BlockProof;
  rx_proof : bytes -> bytes -> bytes -> bytes -> BlockProof
}.

(** What the encodings and the builders promise. *)
Class BenchmarkMessagesLaws `{BenchmarkMessages} : Prop := {
  raw_BlockRef_inj h x h' x' : raw_BlockRef h x = raw_BlockRef h' x' -> h = h' /\ x = x';
  tx_proof_type : bp_Type tx_proof = ProofBenchmarkConsensus;
  rx_proof_type txHash data address signature :
    bp_Type (rx_proof txHash data address signature) = ProofBenchmarkConsensus;
  rx_proof_nodes txHash data address signature :
    proof_nodes (rx_proof txHash data address signature) = [(address, signature)]
}.

(** [digest.VerifyNodeSignature] without an error. *)
Class NodeVerifier := verify_node : bytes -> bytes -> bytes -> bool.

Inductive message :=
| Commit (b : BlockPairContainer)
| Committed (recipient : bytes) (lastCommittedBlockHeight : Z) (sender signature : bytes).

Inductive HandleMode := VerifyAndUpdate | VerifyOnly | UpdateOnly.

#[export] Instance HandleMode_eq_dec : EqDecision HandleMode.
Proof. solve_decision. Defined.

#[export] Instance BlockProof_eq_dec : EqDecision BlockProof.
Proof. solve_decision. Defined.

Definition NewBenchmarkConsensusAlgo (config : Config) : Service :=
  mkService (bool_decide (BenchmarkConsensusConstantLeader config = NodeAddress config)) None blockHeightNone ∅ false.

(** ** The committed block (common.go) *)

Definition getLastCommittedBlock (s : Service) : Z * option bref :=
  match lastCommittedBlock s with
  | None => (0, None)
  | Some b => (height_of (pair b), Some b)
  end.

Definition setLastCommittedBlockIfPreviousBlockMatches (s : Service) (block : bref) (expected : option bref)
    : Service * bool :=
  if bool_decide ((ptr <$> lastCommittedBlock s) <> (ptr <$> expected)) then (s, false)
  else (mkService (isLeader s) (Some block) (lastSuccessfullyVotedBlock s) ∅ false, true).

(** The ceiling of a quotient by 100 of a product far below 2^53, which float64
    gives exactly. *)
Definition requiredQuorumSize (config : Config) : Z :=
  let networkSize := Z.of_nat (size (GenesisValidatorNodes config)) in
  (networkSize * BenchmarkConsensusRequiredQuorumPercentage config + 99) / 100.

Section Consensus.
Context `{Sha256} `{Membuffers} `{BenchmarkMessages} `{NodeVerifier}.
Variable config : Config.

(** [Sign] of the node's signer; [CommitBlock] of the block storage, with what it
    keeps and whether it returns without an error; whether a send succeeds. *)
Variable Sign : bytes -> option bytes.
Context {B : Type}.
Variable CommitBlock : B -> BlockPairContainer -> B * bool.
Variable send : message -> bool.

Definition saveToBlockStorage (storage : B) (b : BlockPairContainer) : B * outcome consensus_error unit :=
  if height_of b =? 0 then (storage, Ok tt)
  else let '(storage, ok) := CommitBlock storage b in (storage, if ok then Ok tt else Err ErrStorage).

Definition signedDataForBlockProof (b : BlockPairContainer) : bytes :=
  raw_BlockRef (height_of b) (CalcBlockHash (Some (bpc_TransactionsBlock b)) (Some (bpc_ResultsBlock b))).

Definition validateBlockConsensus (block prev : option BlockPairContainer) : outcome consensus_error unit :=
  match block with
  | None => Err ErrEmptyBlock
  | Some b =>
      let tx := bpc_TransactionsBlock b in
      let rx := bpc_ResultsBlock b in
      if bool_decide (bp_Type (txb_BlockProof tx) <> ProofBenchmarkConsensus) then Err ErrTxProofType
      else if bool_decide (bp_Type (rxb_BlockProof rx) <> ProofBenchmarkConsensus) then Err ErrRxProofType
      else
        let! _ :=
          match prev with
          | None => Ok tt
          | Some p =>
              if bool_decide (txh_PrevBlockHashPtr (txb_Header tx)
                              <> CalcTransactionsBlockHash (Some (bpc_TransactionsBlock p))) then Err ErrTxPrevHash
              else if bool_decide (rxh_PrevBlockHashPtr (rxb_Header rx)
                                   <> CalcResultsBlockHash (Some (bpc_ResultsBlock p))) then Err ErrRxPrevHash
              else Ok tt
          end in
        match proof_nodes (rxb_BlockProof rx) with
        | [] => Err ErrNotSigned
        | (address, signature) :: _ =>
            if bool_decide (address <> BenchmarkConsensusConstantLeader config) then Err ErrNotFromLeader
            else if verify_node address (signedDataForBlockProof b) signature then Ok tt else Err ErrSignature
        end
  end.

(** [blockPairType] says that the block type is that of a block pair. *)
Definition handleBlockConsensusFromHandler (s : Service) (mode : HandleMode) (blockPairType : bool)
    (block : option bref) (prev : option BlockPairContainer) : Service * outcome consensus_error unit :=
  if negb blockPairType then (s, Err ErrBlockType)
  else
    match (if bool_decide (mode = UpdateOnly) then Ok tt else validateBlockConsensus (pair <$> block) prev) with
    | Err e => (s, Err e)
    | Panic => (s, Panic)
    | Ok _ =>
        if bool_decide (mode = VerifyOnly) then (s, Ok tt)
        else
          let '(lastHeight, last) := getLastCommittedBlock s in
          match block with
          | None => (s, Ok tt)
          | Some b =>
              if lastHeight <? height_of (pair b)
              then ((setLastCommittedBlockIfPreviousBlockMatches s b last).1, Ok tt)
              else (s, Ok tt)
          end
    end.

(** ** The other nodes (non_leader.go) *)

Definition nonLeaderValidateBlock (b : BlockPairContainer) (lastHeight : Z) (last : option bref)
    : outcome consensus_error unit :=
  if bool_decide (height_of b <> rxh_BlockHeight (rxb_Header (bpc_ResultsBlock b))) then Err ErrHeightMismatch
  else if u64_add lastHeight 1 <? height_of b then Err ErrFutureHeight
  else
    let prev := if bool_decide (height_of b = u64_add lastHeight 1) then pair <$> last else None in
    validateBlockConsensus (Some b) prev.

(** The reply with the last height, to the signer of the block. *)
Definition reply (b : BlockPairContainer) (lastHeight : Z) : list message * outcome consensus_error unit :=
  match Sign (raw_Status lastHeight) with
  | None => ([], Err ErrSign)
  | Some signature =>
      match proof_nodes (rxb_BlockProof (bpc_ResultsBlock b)) with
      | [] => ([], Err ErrNoSigner)
      | (recipient, _) :: _ =>
          let m := Committed recipient lastHeight (NodeAddress config) signature in
          ([m], if send m then Ok tt else Err ErrGossip)
      end
  end.

Definition nonLeaderCommitAndReply (s : Service) (storage : B) (block : bref) (lastHeight : Z) (last : option bref)
    : Service * B * (list message * outcome consensus_error unit) :=
  let b := pair block in
  match saveToBlockStorage storage b with
  | (storage, Ok _) =>
      if bool_decide (height_of b = u64_add lastHeight 1) then
        let '(s, updated) := setLastCommittedBlockIfPreviousBlockMatches s block last in
        if (updated : bool) then (s, storage, reply b (height_of b)) else (s, storage, ([], Ok tt))
      else (s, storage, reply b lastHeight)
  | (storage, Err e) => (s, storage, ([], Err e))
  | (storage, Panic) => (s, storage, ([], Panic))
  end.

(** The rest of the handler once it has read the last committed block: other
    handlers may run in between. *)
Definition nonLeaderFinish (s : Service) (storage : B) (block : bref) (lastHeight : Z) (last : option bref)
    : Service * B * (list message * outcome consensus_error unit) :=
  match nonLeaderValidateBlock (pair block) lastHeight last with
  | Ok _ => nonLeaderCommitAndReply s storage block lastHeight last
  | Err e => (s, storage, ([], Err e))
  | Panic => (s, storage, ([], Panic))
  end.

Definition nonLeaderHandleCommit (s : Service) (storage : B) (block : bref)
    : Service * B * (list message * outcome consensus_error unit) :=
  let '(lastHeight, last) := getLastCommittedBlock s in
  nonLeaderFinish s storage block lastHeight last.

(** ** The leader (leader.go)

    The consensus context makes the two blocks of a pair: from the height, the
    hash and timestamp of the previous block and the proposer. *)

Variable RequestNewTransactionsBlock : Z -> bytes -> Z -> bytes -> option TransactionsBlockContainer.
Variable RequestNewResultsBlock :
  Z -> bytes -> TransactionsBlockContainer -> Z -> bytes -> option ResultsBlockContainer.

Definition leaderSignBlockProposal (tx : TransactionsBlockContainer) (rx : ResultsBlockContainer)
    : outcome consensus_error BlockPairContainer :=
  let signedData := signedDataForBlockProof (mkBlockPair tx rx) in
  match Sign signedData with
  | None => Err ErrSign
  | Some signature =>
      Ok (mkBlockPair
            (mkTxBlock (txb_Header tx) (txb_Metadata tx) (txb_SignedTransactions tx) tx_proof)
            (mkRxBlock (rxb_Header rx) (rxb_TransactionReceipts rx) (rxb_ContractStateDiffs rx)
               (rx_proof (CalcTransactionsBlockHash (Some tx)) signedData (NodeAddress config) signature)))
  end.

(** Fields that a builder does not set are zero; a proof not set yet is nil. *)
Definition nil_proof : BlockProof := mkBlockProof ProofNone [].

Definition leaderGenerateGenesisBlock : outcome consensus_error BlockPairContainer :=
  let leader := BenchmarkConsensusConstantLeader config in
  match leaderSignBlockProposal
          (mkTxBlock (mkTxHeader 0 0 0 [] 0 [] [] 0 leader) raw_EmptyMetadata [] nil_proof)
          (mkRxBlock (mkRxHeader 0 0 0 [] 0 [] [] [] [] 0 0 leader) [] [] nil_proof) with
  | Ok b => Ok b
  | _ => Panic
  end.

Definition leaderGenerateNewProposedBlock (lastHeight : Z) (last : BlockPairContainer)
    : outcome consensus_error BlockPairContainer :=
  let leader := BenchmarkConsensusConstantLeader config in
  let height := u64_add lastHeight 1 in
  match RequestNewTransactionsBlock height (CalcTransactionsBlockHash (Some (bpc_TransactionsBlock last)))
          (txh_Timestamp (txb_Header (bpc_TransactionsBlock last))) leader with
  | None => Err ErrConsensusContext
  | Some tx =>
      match RequestNewResultsBlock height (CalcResultsBlockHash (Some (bpc_ResultsBlock last))) tx
              (rxh_Timestamp (rxb_Header (bpc_ResultsBlock last))) leader with
      | None => Err ErrConsensusContext
      | Some rx => leaderSignBlockProposal tx rx
      end
  end.

(** The log line before the nil check dereferences the block. *)
Definition leaderBroadcastCommittedBlock (block : option bref) : list message * outcome consensus_error unit :=
  match block with
  | None => ([], Panic)
  | Some b =>
      if bool_decide (txb_BlockProof (bpc_TransactionsBlock (pair b)) = nil_proof)
         || bool_decide (rxb_BlockProof (bpc_ResultsBlock (pair b)) = nil_proof)
      then ([], Err ErrPartialBlock)
      else ([Commit (pair b)], if send (Commit (pair b)) then Ok tt else Err ErrGossip)
  end.

(** How a tick ends.  With one validator it sends on a channel without a buffer
    that only its own goroutine receives from. *)
Inductive tick_result := TickDone | TickFailed (e : consensus_error) | TickBlocked (height : Z) | TickPanics.

Definition broadcast_and_end (block : option bref) (height : Z) : list message * tick_result :=
  match leaderBroadcastCommittedBlock block with
  | (out, Ok _) =>
      (out, if bool_decide (size (GenesisValidatorNodes config) = 1%nat) then TickBlocked height else TickDone)
  | (out, Err e) => (out, TickFailed e)
  | (out, Panic) => (out, TickPanics)
  end.

(** [p] is the pointer of the new block, if one is made. *)
Definition leaderConsensusRoundTick (s : Service) (storage : B) (p : nat)
    : Service * B * (list message * tick_result) :=
  let '(lastHeight, last) := getLastCommittedBlock s in
  if bool_decide (lastSuccessfullyVotedBlock s = lastHeight) then
    match last with
    | None => (s, storage, ([], TickPanics))
    | Some lastBlock =>
        match leaderGenerateNewProposedBlock lastHeight (pair lastBlock) with
        | Ok proposed =>
            match saveToBlockStorage storage proposed with
            | (storage, Ok _) =>
                let block := mkRef p proposed in
                let '(s, updated) := setLastCommittedBlockIfPreviousBlockMatches s block last in
                if (updated : bool) then (s, storage, broadcast_and_end (Some block) (height_of proposed))
                else (s, storage, ([], TickDone))
            | (storage, Err e) => (s, storage, ([], TickFailed e))
            | (storage, Panic) => (s, storage, ([], TickPanics))
            end
        | Err e => (s, storage, ([], TickFailed e))
        | Panic => (s, storage, ([], TickPanics))
        end
    end
  else (s, storage, broadcast_and_end last lastHeight).

Definition leaderValidateVote (sender signature : bytes) (statusHeight lastHeight : Z)
    : outcome consensus_error unit :=
  if bool_decide (statusHeight <> lastHeight) then Err ErrWrongHeight
  else if bool_decide (sender ∉ GenesisValidatorNodes config) then Err ErrNotValidator
  else if verify_node sender (raw_Status statusHeight) signature then Ok tt else Err ErrSignature.

Definition leaderAddVote (s : Service) (sender : bytes) (expected : option bref)
    : Service * outcome consensus_error bool :=
  if bool_decide ((ptr <$> lastCommittedBlock s) <> (ptr <$> expected)) then (s, Err ErrInconsistent)
  else
    let voters := {[sender]} ∪ lastCommittedBlockVoters s in
    let existingVotes := Z.of_nat (size voters) + 1 in
    let enough := (requiredQuorumSize config <=? existingVotes) && negb (lastCommittedBlockVotersReachedQuorum s) in
    (mkService (isLeader s) (lastCommittedBlock s) (lastSuccessfullyVotedBlock s) voters
       (if enough then true else lastCommittedBlockVotersReachedQuorum s), Ok enough).

(** The height to send on the channel, when there are enough votes. *)
Definition leaderHandleCommittedVote (s : Service) (sender signature : bytes) (statusHeight : Z)
    : Service * outcome consensus_error (option Z) :=
  let '(lastHeight, last) := getLastCommittedBlock s in
  match leaderValidateVote sender signature statusHeight lastHeight with
  | Ok _ =>
      match leaderAddVote s sender last with
      | (s, Ok enough) => (s, Ok (if (enough : bool) then Some lastHeight else None))
      | (s, Err e) => (s, Err e)
      | (s, Panic) => (s, Panic)
      end
  | Err e => (s, Err e)
  | Panic => (s, Panic)
  end.

(** ** The handlers (service.go) *)

Definition HandleBlockConsensus (s : Service) (mode : HandleMode) (blockPairType : bool) (block : option bref)
    (prev : option BlockPairContainer) : Service * outcome consensus_error unit :=
  handleBlockConsensusFromHandler s mode blockPairType block prev.

Definition HandleBenchmarkConsensusCommit (s : Service) (storage : B) (block : bref)
    : Service * B * (list message * outcome consensus_error unit) :=
  if isLeader s then (s, storage, ([], Ok tt)) else nonLeaderHandleCommit s storage block.

Definition HandleBenchmarkConsensusCommitted (s : Service) (sender signature : bytes) (statusHeight : Z)
    : Service * outcome consensus_error (option Z) :=
  if isLeader s then leaderHandleCommittedVote s sender signature statusHeight else (s, Ok None).
End Consensus.

(** ** The network

    The leader's loop, its handlers of votes and the nodes' handlers of commits
    interleave; a handler reads the last committed block first and goes on later.
    The network loses, repeats, delays and alters messages, and delivers blocks
    that nobody sent; it does not forge the leader's signature. *)

Inductive loop_phase := Ticking | Waiting | Stuck.

Section Network.
Context `{Sha256} `{Membuffers} `{BenchmarkMessages} `{NodeVerifier}.
Variable config : Config.
Variable Sign : bytes -> bytes -> option bytes.
Context {B : Type}.
Variable CommitBlock : B -> BlockPairContainer -> B * bool.
Variable send : message -> bool.
Variable RequestNewTransactionsBlock : Z -> bytes -> Z -> bytes -> option TransactionsBlockContainer.
Variable RequestNewResultsBlock :
  Z -> bytes -> TransactionsBlockContainer -> Z -> bytes -> option ResultsBlockContainer.

Definition node_config (a : bytes) : Config :=
  mkConfig a (GenesisValidatorNodes config) (BenchmarkConsensusConstantLeader config)
    (BenchmarkConsensusRequiredQuorumPercentage config).
Definition leader_address : bytes := BenchmarkConsensusConstantLeader config.

Record follower := mkFollower {
  f_service : Service;
  f_storage : B;
  f_reading : list (bref * Z * option bref)
}.

(** [l_votes] are votes found valid, with what the handler read; [l_sends] the
    heights that handlers send on the channel; [sent] the blocks broadcast and
    [votes] the valid votes so far. *)
Record network := mkNetwork {
  l_service : Service;
  l_storage : B;
  l_phase : loop_phase;
  l_votes : list (bytes * Z * option bref);
  l_sends : list Z;
  followers : gmap bytes follower;
  sent : list BlockPairContainer;
  votes : list (bytes * Z);
  next_ptr : nat
}.

Definition commits (out : list message) : list BlockPairContainer :=
  omap (fun m => match m with Commit b => Some b | _ => None end) out.

Definition phase_after (r : tick_result) : loop_phase :=
  match r with
  | TickDone | TickFailed _ => Waiting
  | TickBlocked _ => Stuck
  | TickPanics => Ticking
  end.

(** A block that carries the leader's signature only on data the leader has
    broadcast. *)
Definition unforged (sent : list BlockPairContainer) (b : BlockPairContainer) : Prop :=
  forall signature, verify_node leader_address (signedDataForBlockProof b) signature = true ->
  exists b', b' ∈ sent /\ signedDataForBlockProof b' = signedDataForBlockProof b.

Definition tick (n : network) : Service * B * (list message * tick_result) :=
  leaderConsensusRoundTick (node_config leader_address) (Sign leader_address) CommitBlock send
    RequestNewTransactionsBlock RequestNewResultsBlock (l_service n) (l_storage n) (next_ptr n).

Definition voted (h : Z) (s : Service) : Service :=
  mkService (isLeader s) (lastCommittedBlock s) h (lastCommittedBlockVoters s)
    (lastCommittedBlockVotersReachedQuorum s).

Definition with_follower (n : network) (a : bytes) (f : follower) : network :=
  mkNetwork (l_service n) (l_storage n) (l_phase n) (l_votes n) (l_sends n) (<[a := f]> (followers n))
    (sent n) (votes n) (S (next_ptr n)).

Inductive step (n : network) : network -> Prop :=
| StepTick s storage out r :
    l_phase n = Ticking -> (getLastCommittedBlock (l_service n)).1 + 1 < blockHeightNone ->
    tick n = (s, storage, (out, r)) ->
    step n (mkNetwork s storage (phase_after r) (l_votes n) (l_sends n) (followers n)
              (sent n ++ commits out) (votes n) (S (next_ptr n)))
| StepTimeout :
    l_phase n = Waiting ->
    step n (mkNetwork (l_service n) (l_storage n) Ticking (l_votes n) (l_sends n) (followers n) (sent n)
              (votes n) (next_ptr n))
| StepVoted h before after :
    l_phase n = Waiting -> l_sends n = before ++ h :: after ->
    step n (mkNetwork (voted h (l_service n)) (l_storage n) Ticking (l_votes n) (before ++ after) (followers n)
              (sent n) (votes n) (next_ptr n))
| StepVoteRead sender signature statusHeight h last :
    getLastCommittedBlock (l_service n) = (h, last) ->
    leaderValidateVote (node_config leader_address) sender signature statusHeight h = Ok tt ->
    step n (mkNetwork (l_service n) (l_storage n) (l_phase n) (l_votes n ++ [(sender, h, last)]) (l_sends n)
              (followers n) (sent n) ((sender, h) :: votes n) (next_ptr n))
| StepVoteAdded before after sender h last s r :
    l_votes n = before ++ (sender, h, last) :: after ->
    leaderAddVote (node_config leader_address) (l_service n) sender last = (s, r) ->
    step n (mkNetwork s (l_storage n) (l_phase n) (before ++ after)
              (l_sends n ++ match r with Ok true => [h] | _ => [] end) (followers n) (sent n) (votes n)
              (next_ptr n))
| StepCommitRead a f b h last :
    followers n !! a = Some f -> unforged (sent n) b ->
    getLastCommittedBlock (f_service f) = (h, last) ->
    step n (with_follower n a (mkFollower (f_service f) (f_storage f)
              (f_reading f ++ [(mkRef (next_ptr n) b, h, last)])))
| StepCommitDone a f before after block h last s storage out :
    followers n !! a = Some f -> f_reading f = before ++ (block, h, last) :: after ->
    nonLeaderFinish (node_config a) (Sign a) CommitBlock send (f_service f) (f_storage f) block h last
      = (s, storage, out) ->
    step n (with_follower n a (mkFollower s storage (before ++ after)))
| StepSync a f b prev s storage ok :
    followers n !! a = Some f -> unforged (sent n) b ->
    handleBlockConsensusFromHandler (node_config a) (f_service f) VerifyAndUpdate true
      (Some (mkRef (next_ptr n) b)) prev = (s, Ok tt) ->
    CommitBlock (f_storage f) b = (storage, ok) ->
    step n (with_follower n a (mkFollower s storage (f_reading f))).

(** What a storage holds. *)
Variable stored : B -> list BlockPairContainer.

(** The leader has its genesis block; the other nodes have stored and read
    nothing. *)
Definition initial (genesis : BlockPairContainer) (n : network) : Prop :=
  leaderGenerateGenesisBlock (node_config leader_address) (Sign leader_address) = Ok genesis /\
  l_service n = mkService true (Some (mkRef 0 genesis)) blockHeightNone ∅ false /\
  l_phase n = Ticking /\ l_votes n = [] /\ l_sends n = [] /\ sent n = [] /\ votes n = [] /\ next_ptr n = 1%nat /\
  (forall a f, followers n !! a = Some f -> stored (f_storage f) = [] /\ f_reading f = []).

Inductive reachable (genesis : BlockPairContainer) : network -> Prop :=
| reachable_initial n : initial genesis n -> reachable genesis n
| reachable_step n n' : reachable genesis n -> step n n' -> reachable genesis n'.

(** ** The leader's steps *)

(** The consensus context makes blocks of the height it is asked for. *)
Hypothesis context_height : forall h prev timestamp proposer tx,
  RequestNewTransactionsBlock h prev timestamp proposer = Some tx -> txh_BlockHeight (txb_Header tx) = h.

Lemma sign_height cfg sign tx rx b :
  leaderSignBlockProposal cfg sign tx rx = Ok b -> height_of b = txh_BlockHeight (txb_Header tx).
Proof. unfold leaderSignBlockProposal. destruct (sign _); [|done]. by intros [= <-]. Qed.

Lemma proposed_height cfg sign h last b :
  leaderGenerateNewProposedBlock cfg sign RequestNewTransactionsBlock RequestNewResultsBlock h last = Ok b ->
  height_of b = u64_add h 1.
Proof.
  unfold leaderGenerateNewProposedBlock. destruct (RequestNewTransactionsBlock _ _ _ _) as [tx|] eqn:E; [|done].
  destruct (RequestNewResultsBlock _ _ _ _ _); [|done]. intros Hs. rewrite (sign_height _ _ _ _ _ Hs).
  by eapply context_height.
Qed.

Lemma broadcast_commits cfg block h b :
  b ∈ commits (broadcast_and_end cfg send (Some block) h).1 -> b = pair block.
Proof.
  unfold broadcast_and_end, leaderBroadcastCommittedBlock. destruct (_ || _); [by intros ?%elem_of_nil|].
  destruct (send _); cbn; intros ->%list_elem_of_singleton; done.
Qed.

(** A tick broadcasts the last block again, or makes the next one when the last
    was voted for. *)
Lemma tick_cases n last s storage out r :
  lastCommittedBlock (l_service n) = Some last -> tick n = (s, storage, (out, r)) ->
  (s = l_service n /\ (forall b, b ∈ commits out -> b = pair last)) \/
  (lastSuccessfullyVotedBlock (l_service n) = height_of (pair last) /\
   exists proposed, height_of proposed = u64_add (height_of (pair last)) 1 /\
     s = mkService (isLeader (l_service n)) (Some (mkRef (next_ptr n) proposed))
           (lastSuccessfullyVotedBlock (l_service n)) ∅ false /\
     (forall b, b ∈ commits out -> b = proposed)).
Proof.
  intros Hl. unfold tick, leaderConsensusRoundTick, getLastCommittedBlock. rewrite Hl.
  case_bool_decide as Hv.
  2: { intros [= <- _ E]. left. split; [done|]. intros b Hb. eapply broadcast_commits. by rewrite E. }
  destruct (leaderGenerateNewProposedBlock _ _ _ _ _ _) as [proposed|e|] eqn:Ep.
  2,3: intros [= <- _ <- _]; left; split; [done|]; intros b Hb; by apply elem_of_nil in Hb.
  destruct (saveToBlockStorage _ _ _) as [storage' [[]|e|]].
  2,3: intros [= <- _ <- _]; left; split; [done|]; intros b Hb; by apply elem_of_nil in Hb.
  unfold setLastCommittedBlockIfPreviousBlockMatches. rewrite Hl, bool_decide_false by tauto.
  intros [= <- _ E]. right. split; [done|]. exists proposed. split; [by eapply proposed_height|]. split; [done|].
  intros b Hb. apply (broadcast_commits (node_config leader_address) (mkRef (next_ptr n) proposed) (height_of proposed)).
  by rewrite E.
Qed.

Record leader_ok (n : network) (last : bref) : Prop := {
  lo_last : lastCommittedBlock (l_service n) = Some last;
  lo_ptr : (ptr last < next_ptr n)%nat;
  lo_height : 0 <= height_of (pair last) < blockHeightNone;
  lo_sent b : b ∈ sent n -> 0 <= height_of b <= height_of (pair last);
  lo_top b : b ∈ sent n -> height_of b = height_of (pair last) -> b = pair last;
  lo_unique b b' : b ∈ sent n -> b' ∈ sent n -> height_of b = height_of b' -> b = b'
}.

Lemma leader_ok_frame n n' last :
  leader_ok n last -> lastCommittedBlock (l_service n') = lastCommittedBlock (l_service n) ->
  sent n' = sent n -> (next_ptr n <= next_ptr n')%nat -> leader_ok n' last.
Proof. intros [] El Es Hp. split; rewrite ?Es; try done; [congruence|lia]. Qed.

Lemma tick_ok n last s storage out r phase lv ls fs vs :
  leader_ok n last -> height_of (pair last) + 1 < blockHeightNone -> tick n = (s, storage, (out, r)) ->
  exists last', leader_ok (mkNetwork s storage phase lv ls fs (sent n ++ commits out) vs (S (next_ptr n))) last'.
Proof.
  intros [Hl Hp Hh Hs Ht Hu] Hb E.
  destruct (tick_cases n last s storage out r Hl E) as [[-> Hout]|(_ & proposed & Hph & -> & Hout)].
  - exists last. split; simpl; try done; [lia|..].
    + intros b [Hb'|Hb']%elem_of_app; [by apply Hs|]. apply Hout in Hb' as ->. lia.
    + intros b [Hb'|Hb']%elem_of_app; [by apply Ht|]. by apply Hout in Hb' as ->.
    + intros b b' [H1'|H1']%elem_of_app [H2'|H2']%elem_of_app E'; [by apply Hu|..];
        repeat match goal with H : _ ∈ commits out |- _ => apply Hout in H as -> end; auto using eq_sym.
  - exists (mkRef (next_ptr n) proposed). unfold blockHeightNone in *.
    assert (height_of proposed = height_of (pair last) + 1) as Hp1.
    { rewrite Hph. unfold u64_add, wrap. rewrite Z.mod_small; lia. }
    split; simpl; [done|lia|unfold blockHeightNone; lia|..].
    + intros b [Hb'|Hb']%elem_of_app; [apply Hs in Hb'; lia|]. apply Hout in Hb' as ->. lia.
    + intros b [Hb'|Hb']%elem_of_app; [apply Hs in Hb'; lia|]. by apply Hout in Hb' as ->.
    + intros b b' [H1'|H1']%elem_of_app [H2'|H2']%elem_of_app E'; [by apply Hu|..];
        repeat match goal with H : _ ∈ commits out |- _ => apply Hout in H as -> end; [apply Hs in H1'|apply Hs in H2'|done]; lia.
Qed.

Lemma leader_ok_step n n' last : leader_ok n last -> step n n' -> exists last', leader_ok n' last'.
Proof.
  intros Hok Hst. destruct Hst; try (exists last; eapply leader_ok_frame; eauto; simpl; lia).
  - eapply tick_ok; eauto. revert H4. unfold getLastCommittedBlock. by rewrite (lo_last _ _ Hok).
  - exists last. eapply leader_ok_frame; eauto. revert H4. unfold leaderAddVote.
    case_bool_decide; intros [= <- _]; done.
Qed.

Lemma genesis_height cfg sign genesis : leaderGenerateGenesisBlock cfg sign = Ok genesis -> height_of genesis = 0.
Proof.
  unfold leaderGenerateGenesisBlock. destruct (leaderSignBlockProposal _ _ _ _) eqn:E; [|done..].
  intros [= <-]. by apply sign_height in E.
Qed.

Lemma reachable_leader genesis n : reachable genesis n -> exists last, leader_ok n last.
Proof.
  induction 1 as [n (Hg & Hs & _ & _ & _ & He & _ & Hp & _)|n n' _ [last IH] Hst]; [|by eapply leader_ok_step].
  exists (mkRef 0 genesis). apply genesis_height in Hg.
  split; rewrite ?Hs, ?He, ?Hp; simpl; try done; try lia; try (unfold blockHeightNone; lia);
    by intros; rewrite elem_of_nil in *.
Qed.

(** ** Votes *)

(** Enough validators, the leader apart, voted at a height. *)
Definition quorum_at (vs : list (bytes * Z)) (h : Z) : Prop :=
  exists voters : gset bytes, requiredQuorumSize config <= Z.of_nat (size voters) + 1 /\
    forall v, v ∈ voters -> v ∈ GenesisValidatorNodes config /\ (v, h) ∈ vs.

Lemma quorum_at_mono vs vs' h : vs ⊆ vs' -> quorum_at vs h -> quorum_at vs' h.
Proof. intros Hs (voters & Hq & Hv). exists voters. split; [done|]. intros v Hin. destruct (Hv v Hin). eauto. Qed.

Record votes_ok (n : network) (last : bref) : Prop := {
  vo_voters v : v ∈ lastCommittedBlockVoters (l_service n) ->
    v ∈ GenesisValidatorNodes config /\ (v, height_of (pair last)) ∈ votes n;
  vo_read v h r : (v, h, r) ∈ l_votes n ->
    v ∈ GenesisValidatorNodes config /\ (v, h) ∈ votes n /\
    exists b, r = Some b /\ (ptr b <= ptr last)%nat /\ height_of (pair b) = h /\ (ptr b = ptr last -> b = last);
  vo_sends h : h ∈ l_sends n -> quorum_at (votes n) h;
  vo_voted : lastSuccessfullyVotedBlock (l_service n) <> blockHeightNone ->
    quorum_at (votes n) (lastSuccessfullyVotedBlock (l_service n));
  vo_sent b : b ∈ sent n -> 1 <= height_of b -> quorum_at (votes n) (height_of b - 1);
  vo_last : 1 <= height_of (pair last) -> quorum_at (votes n) (height_of (pair last) - 1)
}.

Lemma votes_ok_frame n n' last :
  votes_ok n last -> lastCommittedBlockVoters (l_service n') = lastCommittedBlockVoters (l_service n) ->
  lastSuccessfullyVotedBlock (l_service n') = lastSuccessfullyVotedBlock (l_service n) ->
  l_votes n' = l_votes n -> l_sends n' = l_sends n -> votes n' = votes n -> sent n' = sent n -> votes_ok n' last.
Proof. intros [] E1 E2 E3 E4 E5 E6. split; rewrite ?E1, ?E2, ?E3, ?E4, ?E5, ?E6; done. Qed.

Lemma votes_ok_tick n last s storage out r phase :
  leader_ok n last -> votes_ok n last -> height_of (pair last) + 1 < blockHeightNone ->
  tick n = (s, storage, (out, r)) ->
  exists last', lastCommittedBlock s = Some last' /\
    votes_ok (mkNetwork s storage phase (l_votes n) (l_sends n) (followers n) (sent n ++ commits out) (votes n)
                (S (next_ptr n))) last'.
Proof.
  intros Hl [V1 V2 V3 V4 V5 V6] Hb E.
  destruct (tick_cases n last s storage out r (lo_last _ _ Hl) E) as [[-> Hout]|(Hv & proposed & Hph & -> & Hout)].
  - exists last. split; [apply Hl|]. split; simpl; try done.
    intros b [Hin|Hin]%elem_of_app; [by apply V5|]. by apply Hout in Hin as ->.
  - exists (mkRef (next_ptr n) proposed). split; [done|]. pose proof (lo_height _ _ Hl) as Hh. unfold blockHeightNone in *.
    assert (height_of proposed - 1 = height_of (pair last)) as Hp1.
    { rewrite Hph. unfold u64_add, wrap. rewrite Z.mod_small; lia. }
    assert (quorum_at (votes n) (height_of (pair last))) as Hq by (rewrite <- Hv; apply V4; unfold blockHeightNone; lia).
    split; simpl; [set_solver| |done|done| |by rewrite Hp1].
    + intros v h r' Hin. destruct (V2 v h r' Hin) as (? & ? & b & -> & Hp & Hbh & _). split; [done|]. split; [done|].
      pose proof (lo_ptr _ _ Hl). exists b. split; [done|]. split; [lia|]. split; [done|]. lia.
    + intros b [Hin|Hin]%elem_of_app; [by apply V5|]. apply Hout in Hin as ->. by rewrite Hp1.
Qed.

Lemma votes_ok_add n last before after sender h r s res :
  leader_ok n last -> votes_ok n last -> l_votes n = before ++ (sender, h, r) :: after ->
  leaderAddVote (node_config leader_address) (l_service n) sender r = (s, res) ->
  votes_ok (mkNetwork s (l_storage n) (l_phase n) (before ++ after)
              (l_sends n ++ match res with Ok true => [h] | _ => [] end) (followers n) (sent n) (votes n)
              (next_ptr n)) last.
Proof.
  intros Hl [V1 V2 V3 V4 V5 V6] Ev. rewrite Ev in V2. unfold leaderAddVote. rewrite (lo_last _ _ Hl).
  destruct (V2 sender h r ltac:(set_solver)) as (Hval & Hvote & b & -> & _ & Hbh & Hptr).
  assert (forall v h r, (v, h, r) ∈ before ++ after -> v ∈ GenesisValidatorNodes config /\ (v, h) ∈ votes n /\
    exists b, r = Some b /\ (ptr b <= ptr last)%nat /\ height_of (pair b) = h /\ (ptr b = ptr last -> b = last)) as V2'.
  { intros v h' r' Hin. apply (V2 v h' r'). set_solver. }
  case_bool_decide as Hp.
  - intros [= <- <-]. split; simpl; try done. intros h' Hh'. rewrite app_nil_r in Hh'. by apply V3.
  - simpl in Hp. assert (b = last) as -> by (apply Hptr; congruence).
    assert (forall v, v ∈ {[sender]} ∪ lastCommittedBlockVoters (l_service n) ->
      v ∈ GenesisValidatorNodes config /\ (v, height_of (pair last)) ∈ votes n) as V1'.
    { intros v [->%elem_of_singleton|Hv]%elem_of_union; [by rewrite Hbh|by apply V1]. }
    intros [= <- <-]. split; simpl; try done.
    intros h' [Hh'|Hh']%elem_of_app; [by apply V3|].
    destruct (_ && _) eqn:Eq; [|by apply elem_of_nil in Hh']. apply list_elem_of_singleton in Hh' as ->.
    apply andb_true_iff in Eq as [Eq _]. exists ({[sender]} ∪ lastCommittedBlockVoters (l_service n)).
    split; [apply Z.leb_le in Eq; exact Eq|]. by rewrite <- Hbh.
Qed.

Lemma votes_ok_step n n' last :
  leader_ok n last -> votes_ok n last -> step n n' ->
  exists last', lastCommittedBlock (l_service n') = Some last' /\ votes_ok n' last'.
Proof.
  intros Hl Hv Hst. pose proof (lo_last _ _ Hl) as El.
  destruct Hst as [s storage out r Hph Hb E|Hph|h before after Hph Es|sender signature sh h r Eg Ev
    |before after sender h r s res Es Ea| | |];
    try (exists last; split; [done|]; by apply (votes_ok_frame n)).
  - unfold getLastCommittedBlock in Hb. rewrite El in Hb. by eapply votes_ok_tick.
  - exists last. split; [done|]. destruct Hv as [V1 V2 V3 V4 V5 V6]. rewrite Es in V3.
    split; simpl; try done; [intros h' ?; apply V3; set_solver|intros _; apply V3; set_solver].
  - exists last. split; [done|]. destruct Hv as [V1 V2 V3 V4 V5 V6].
    assert (votes n ⊆ (sender, h) :: votes n) as Hsub by set_solver.
    unfold getLastCommittedBlock in Eg. rewrite El in Eg. injection Eg as <- <-.
    assert (sender ∈ GenesisValidatorNodes config) as Hval.
    { revert Ev. unfold leaderValidateVote. case_bool_decide; [done|]. case_bool_decide as Hin; [done|].
      done. }
    split; simpl; try (intros; eapply quorum_at_mono; [done|]; by auto).
    + intros v Hin. destruct (V1 v Hin). auto using list_elem_of_further.
    + intros v h' r' [Hin|Hin]%elem_of_app.
      * destruct (V2 v h' r' Hin) as (? & ? & ?). auto using list_elem_of_further.
      * apply list_elem_of_singleton in Hin. injection Hin as -> -> ->. split; [done|]. split; [left|]. by exists last.
  - exists last. split; [|by eapply votes_ok_add]. revert Ea. unfold leaderAddVote.
    case_bool_decide; intros [= <- _]; done.
Qed.

Lemma reachable_votes genesis n : reachable genesis n -> exists last, leader_ok n last /\ votes_ok n last.
Proof.
  intros Hr. assert (exists last, lastCommittedBlock (l_service n) = Some last /\ votes_ok n last) as (last & El & Hv).
  { induction Hr as [n (Hg & Hs & _ & Hvs & Hse & He & Hvo & Hp & _)|n n' Hr' (last & El & IH) Hst].
    - exists (mkRef 0 genesis). apply genesis_height in Hg.
      split; [by rewrite Hs|].
      split; rewrite ?Hs, ?Hvs, ?Hse, ?He; simpl; try done; try (intros; by rewrite elem_of_nil in * ); lia.
    - destruct (reachable_leader _ _ Hr') as [last' Hl]. assert (last' = last) as -> by (pose proof (lo_last _ _ Hl); congruence).
      by eapply votes_ok_step. }
  destruct (reachable_leader _ _ Hr) as [last' Hl]. exists last'. split; [done|].
  assert (last' = last) as -> by (pose proof (lo_last _ _ Hl); congruence). done.
Qed.

Lemma votes_verified genesis n v h :
  reachable genesis n -> (v, h) ∈ votes n -> exists signature, verify_node v (raw_Status h) signature = true.
Proof.
  induction 1 as [n (_ & _ & _ & _ & _ & _ & -> & _)|n n' _ IH Hst]; [by intros ?%elem_of_nil|].
  destruct Hst as [| | |sender signature sh h' r Eg Ev| | | |]; try exact IH.
  simpl. intros [E|]%elem_of_cons; [|auto]. injection E as -> ->. revert Ev. unfold leaderValidateVote.
  case_bool_decide as Hh; [done|]. case_bool_decide; [done|]. assert (sh = h') as -> by lia.
  destruct (verify_node _ _ _) eqn:E; [eauto|done].
Qed.

(** The leader broadcasts a block after the first only when, the leader
    counted, the required quorum of validators has signed the height before. *)
Theorem leader_waits_for_quorum genesis n b :
  reachable genesis n -> b ∈ sent n -> 1 <= height_of b ->
  exists voters : gset bytes, requiredQuorumSize config <= Z.of_nat (size voters) + 1 /\
    forall v, v ∈ voters -> v ∈ GenesisValidatorNodes config /\
      exists signature, verify_node v (raw_Status (height_of b - 1)) signature = true.
Proof.
  intros Hr Hb Hh. destruct (reachable_votes _ _ Hr) as (last & _ & Hv).
  destruct (vo_sent _ _ Hv b Hb Hh) as (voters & Hq & Hvs). exists voters. split; [done|].
  intros v Hin. destruct (Hvs v Hin) as [Hval Hvote]. split; [done|]. by eapply votes_verified.
Qed.

(** ** A network of one *)

Lemma genesis_proofs `{!BenchmarkMessagesLaws} cfg sign genesis :
  leaderGenerateGenesisBlock cfg sign = Ok genesis ->
  txb_BlockProof (bpc_TransactionsBlock genesis) <> nil_proof /\
  rxb_BlockProof (bpc_ResultsBlock genesis) <> nil_proof.
Proof.
  unfold leaderGenerateGenesisBlock, leaderSignBlockProposal. destruct (sign _) as [signature|]; [|done].
  intros [= <-]. simpl. split; intros E; apply (f_equal bp_Type) in E;
    [by rewrite tx_proof_type in E|by rewrite rx_proof_type in E].
Qed.

(** With a single validator the leader stops for good after it has broadcast
    its genesis block: it waits to send on a channel that it alone receives from. *)
Theorem single_validator_stops `{!BenchmarkMessagesLaws} genesis n :
  size (GenesisValidatorNodes config) = 1%nat -> (forall m, send m = true) -> reachable genesis n ->
  forall b, b ∈ sent n -> b = genesis.
Proof.
  intros Hone Hsend Hr.
  assert (l_phase n = Stuck /\ sent n = [genesis] \/ l_phase n = Ticking /\ sent n = [] /\
    leaderGenerateGenesisBlock (node_config leader_address) (Sign leader_address) = Ok genesis /\
    lastCommittedBlock (l_service n) = Some (mkRef 0 genesis) /\
    lastSuccessfullyVotedBlock (l_service n) = blockHeightNone) as Hn.
  { induction Hr as [n (Hg & Hs & Hp & _ & _ & He & _)|n n' Hr IH Hst]; [rewrite Hs; tauto|].
    destruct IH as [[Hp Hs]|(Hp & Hs & Hg & Hl & Hv)].
    - left. by destruct Hst as [s storage out r Hph| Hph|h before after Hph| | | | |]; simpl; try congruence.
    - destruct Hst as [s storage out r Hph Hb Et| Hph|h before after Hph| |before after sender h r s res _ Ea| | |];
        simpl; try congruence; try tauto.
      + left. revert Et. unfold tick, leaderConsensusRoundTick, getLastCommittedBlock. rewrite Hl, Hv.
        rewrite bool_decide_false by (cbn [pair]; rewrite (genesis_height _ _ _ Hg); done).
        destruct (genesis_proofs _ _ _ Hg) as [Hnt Hnr].
        unfold broadcast_and_end, leaderBroadcastCommittedBlock. cbn [pair].
        rewrite !bool_decide_false by done. cbn [orb]. rewrite Hsend, bool_decide_true by done.
        intros [= _ _ <- <-]. by rewrite Hs.
      + right. revert Ea. unfold leaderAddVote. case_bool_decide; intros [= <- _]; simpl; tauto. }
  intros b Hb. destruct Hn as [[_ E]|(_ & E & _)]; rewrite E in Hb.
  - by apply list_elem_of_singleton in Hb.
  - by apply elem_of_nil in Hb.
Qed.
(** ** What the other nodes store *)

(** A commit adds at most the block committed. *)
Hypothesis stored_commit : forall storage b storage' ok,
  CommitBlock storage b = (storage', ok) -> forall x, x ∈ stored storage' -> x ∈ stored storage \/ x = b.

Definition signed_by_leader (n : network) (b : BlockPairContainer) : Prop :=
  exists b', b' ∈ sent n /\ signedDataForBlockProof b' = signedDataForBlockProof b.

Lemma validated_signed cfg b prev :
  BenchmarkConsensusConstantLeader cfg = leader_address ->
  validateBlockConsensus cfg (Some b) prev = Ok tt ->
  exists signature, verify_node leader_address (signedDataForBlockProof b) signature = true.
Proof.
  intros Hl. unfold validateBlockConsensus. repeat (case_bool_decide; [done|]).
  destruct (match prev with Some _ => _ | None => _ end); [|done..]. cbn [bindO].
  destruct (proof_nodes _) as [|[address signature] ?]; [done|]. case_bool_decide as Ha; [done|].
  destruct (verify_node _ _ _) eqn:E; [|done]. intros _. exists signature.
  by rewrite <- Hl, <- Ha.
Qed.

Lemma finish_stored cfg sign s storage block h last s' storage' out :
  nonLeaderFinish cfg sign CommitBlock send s storage block h last = (s', storage', out) ->
  forall x, x ∈ stored storage' -> x ∈ stored storage \/
    (x = pair block /\ exists prev, validateBlockConsensus cfg (Some x) prev = Ok tt).
Proof.
  unfold nonLeaderFinish. destruct (nonLeaderValidateBlock _ _ _ _) as [[]|e|] eqn:Ev.
  2,3: intros [= _ <- _]; auto.
  assert (exists prev, validateBlockConsensus cfg (Some (pair block)) prev = Ok tt) as Hv.
  { revert Ev. unfold nonLeaderValidateBlock. case_bool_decide; [done|]. case_match; [done|]. eauto. }
  unfold nonLeaderCommitAndReply. destruct (saveToBlockStorage _ _ _) as [storage1 r] eqn:Es. intros E.
  assert (storage' = storage1) as ->.
  { revert E. destruct r; [|congruence..]. case_bool_decide; [|congruence].
    destruct (setLastCommittedBlockIfPreviousBlockMatches _ _ _) as [? []]; congruence. }
  revert Es. unfold saveToBlockStorage. destruct (height_of _ =? 0); [intros Es; simplify_eq; auto|].
  destruct (CommitBlock _ _) as [storage2 ok] eqn:Ec. intros Es x Hx. simplify_eq.
  destruct (stored_commit _ _ _ _ Ec x Hx) as [Hold| ->]; eauto.
Qed.

Definition followers_ok (n : network) : Prop := forall a f, followers n !! a = Some f ->
  (forall b, b ∈ stored (f_storage f) -> signed_by_leader n b) /\
  (forall block h last, (block, h, last) ∈ f_reading f -> unforged (sent n) (pair block)).

Lemma followers_ok_mono n n' :
  followers_ok n -> followers n' = followers n -> sent n ⊆ sent n' -> followers_ok n'.
Proof.
  intros Hok Ef Hs a f Hf. rewrite Ef in Hf. destruct (Hok a f Hf) as [Hb Hr]. split.
  - intros b (b' & Hb' & E)%Hb. exists b'. eauto.
  - intros block h last Hin signature Hv. destruct (Hr _ _ _ Hin signature Hv) as (b' & Hb' & E). eauto.
Qed.

Lemma followers_ok_insert n a f :
  followers_ok n ->
  (forall b, b ∈ stored (f_storage f) -> signed_by_leader n b) ->
  (forall block h last, (block, h, last) ∈ f_reading f -> unforged (sent n) (pair block)) ->
  followers_ok (with_follower n a f).
Proof.
  intros Hok Hb Hr a' f' Hf'. simpl in Hf'. destruct (decide (a = a')) as [<-|Hne].
  - rewrite lookup_insert_eq in Hf'. by injection Hf' as <-.
  - rewrite lookup_insert_ne in Hf' by done. by apply (Hok a').
Qed.

Lemma unforged_signed n a b prev :
  unforged (sent n) b -> validateBlockConsensus (node_config a) (Some b) prev = Ok tt -> signed_by_leader n b.
Proof. intros Hu Hv. destruct (validated_signed (node_config a) b prev eq_refl Hv) as [signature Hs]. by eapply Hu. Qed.

Lemma followers_ok_step n n' : followers_ok n -> step n n' -> followers_ok n'.
Proof.
  intros Hok Hst.
  destruct Hst as [| | | | |a f b h last Hf Hu Hl|a f before after block h last s storage out Hf Hr Hfin
    |a f b prev s storage ok Hf Hu Hh Hc];
    try (apply (followers_ok_mono n); [done|done|simpl; set_solver]).
  - destruct (Hok a f Hf) as [Hb Hr]. apply followers_ok_insert; simpl; [done|done|].
    intros block h' last' [Hin|Hin]%elem_of_app; [by eapply Hr|].
    apply list_elem_of_singleton in Hin. by injection Hin as -> _ _.
  - destruct (Hok a f Hf) as [Hb Hrd]. rewrite Hr in Hrd. apply followers_ok_insert; simpl; [done| |set_solver].
    intros x Hx. destruct (finish_stored _ _ _ _ _ _ _ _ _ _ Hfin x Hx) as [Hold|(-> & prev & Hv)]; [by apply Hb|].
    eapply unforged_signed; [|done]. apply (Hrd block h last). set_solver.
  - destruct (Hok a f Hf) as [Hb Hr]. apply followers_ok_insert; simpl; [done| |done].
    intros x Hx. destruct (stored_commit _ _ _ _ Hc x Hx) as [Hold| ->]; [by apply Hb|].
    revert Hh. unfold handleBlockConsensusFromHandler. cbn [negb]. rewrite bool_decide_false by done.
    cbn [fmap option_fmap option_map pair]. destruct (validateBlockConsensus _ _ _) as [[]|e|] eqn:Ev; [|congruence..]. intros _.
    by eapply unforged_signed.
Qed.

Lemma reachable_followers genesis n : reachable genesis n -> followers_ok n.
Proof.
  induction 1 as [n (_ & _ & _ & _ & _ & _ & _ & _ & Hr)|n n' _ IH Hst]; [|by eapply followers_ok_step].
  intros a f Hf. destruct (Hr a f Hf) as [-> ->]. split; intros; by rewrite elem_of_nil in *.
Qed.


End Network.

(** ** Bodies

    The block with other transactions, receipts and state diffs, and the same
    headers and proofs. *)
Definition with_body (b : BlockPairContainer) (txs : list SignedTransaction) (receipts : list TransactionReceipt)
    (diffs : list ContractStateDiff) : BlockPairContainer :=
  let tx := bpc_TransactionsBlock b in
  let rx := bpc_ResultsBlock b in
  mkBlockPair (mkTxBlock (txb_Header tx) (txb_Metadata tx) txs (txb_BlockProof tx))
    (mkRxBlock (rxb_Header rx) receipts diffs (rxb_BlockProof rx)).

(** The leader's signature is not checked to cover the body: a node accepts,
    stores and acknowledges a block of the leader whose transactions, receipts and
    state diffs were replaced by any others. *)
Theorem replaced_body_accepted `{Sha256} `{Membuffers} `{BenchmarkMessages} `{NodeVerifier} config Sign
    send s storage block txs receipts diffs :
  let forged := mkRef (ptr block) (with_body (pair block) txs receipts diffs) in
  let commit (st : list BlockPairContainer) b := (st ++ [b], true) in
  let run b := nonLeaderHandleCommit config Sign commit send s storage b in
  1 <= height_of (pair block) ->
  (run block).1.2 = storage ++ [pair block] ->
  (run forged).1.2 = storage ++ [pair forged] /\ (run forged).2 = (run block).2.
Proof.
  intros forged commit run Hh. unfold run, nonLeaderHandleCommit. destruct (getLastCommittedBlock s) as [h last].
  unfold nonLeaderFinish.
  change (nonLeaderValidateBlock config (pair forged) h last) with (nonLeaderValidateBlock config (pair block) h last).
  destruct (nonLeaderValidateBlock _ _ _ _) as [[]|e|].
  2,3: simpl; intros E; apply (f_equal length) in E; rewrite length_app in E; simpl in E; lia.
  unfold nonLeaderCommitAndReply, saveToBlockStorage.
  change (height_of (pair forged)) with (height_of (pair block)). lia_if. unfold commit.
  unfold setLastCommittedBlockIfPreviousBlockMatches. repeat case_bool_decide; done.
Qed.
(** ** An example network

    Two validators, the leader [1] and the node [2]; a signature is the address
    and the data. *)
Module Example.
#[local] Instance plain_hash : Sha256 := fun data => data.
#[local] Existing Instance plain_membuffers.

#[local] Instance messages : BenchmarkMessages := {
  raw_BlockRef h x := h :: x;
  raw_Status h := [h];
  proof_nodes p :=
    match bp_Raw p with n :: rest => [(take (Z.to_nat n) rest, drop (Z.to_nat n) rest)] | [] => [] end;
  tx_proof := mkBlockProof ProofBenchmarkConsensus [];
  rx_proof _ _ address signature :=
    mkBlockProof ProofBenchmarkConsensus (Z.of_nat (length address) :: address ++ signature)
}.

#[local] Instance messages_laws : BenchmarkMessagesLaws.
Proof.
  split; simpl; [by intros h x h' x' [= -> ->]|done|done|].
  intros _ _ address signature. by rewrite Nat2Z.id, take_app_length, drop_app_length.
Qed.

#[local] Instance verifier : NodeVerifier := fun address data signature => bool_decide (signature = address ++ data).

Definition config (validators : list bytes) : Config := mkConfig [1] (list_to_set validators) [1] 100.
Definition Sign (address data : bytes) : option bytes := Some (address ++ data).
Definition commit (storage : list BlockPairContainer) (b : BlockPairContainer) : list BlockPairContainer * bool :=
  (storage ++ [b], true).
Definition new_tx (h : Z) (prev : bytes) (timestamp : Z) (proposer : bytes) : option TransactionsBlockContainer :=
  Some (mkTxBlock (mkTxHeader 1 42 h prev (timestamp + 1) [] [] 0 proposer) [] [] nil_proof).
Definition new_rx (h : Z) (prev : bytes) (tx : TransactionsBlockContainer) (timestamp : Z) (proposer : bytes)
    : option ResultsBlockContainer :=
  Some (mkRxBlock (mkRxHeader 1 42 h prev (timestamp + 1) [] [] [] [] 0 0 proposer) [] [] nil_proof).

Definition genesis : BlockPairContainer :=
  match leaderGenerateGenesisBlock (config []) (Sign [1]) with
  | Ok b => b
  | _ => mkBlockPair (mkTxBlock (mkTxHeader 0 0 0 [] 0 [] [] 0 []) [] [] nil_proof)
           (mkRxBlock (mkRxHeader 0 0 0 [] 0 [] [] [] [] 0 0 []) [] [] nil_proof)
  end.

Abbreviation net := (network (B:=list BlockPairContainer)).

Definition start (validators : list bytes) : net :=
  mkNetwork (mkService true (Some (mkRef 0 genesis)) blockHeightNone ∅ false) [] Ticking [] []
    {[ [2] := mkFollower (NewBenchmarkConsensusAlgo (mkConfig [2] (list_to_set validators) [1] 100)) [] [] ]} [] [] 1.

Abbreviation reach validators := (reachable (config validators) Sign commit (fun _ => true) new_tx new_rx (fun b => b) genesis).
Abbreviation two := [[1]; [2]].

(** The results of the steps, as functions. *)
Definition ticked (validators : list bytes) (n : net) : net :=
  let '(s, storage, (out, r)) := tick (config validators) Sign commit (fun _ => true) new_tx new_rx n in
  mkNetwork s storage (phase_after r) (l_votes n) (l_sends n) (followers n) (sent n ++ commits out) (votes n)
    (S (next_ptr n)).
Definition replica (n : net) : follower (B:=list BlockPairContainer) :=
  default (mkFollower (NewBenchmarkConsensusAlgo (config [])) [] []) (followers n !! [2]).
Definition read (n : net) (b : BlockPairContainer) : net :=
  let '(h, last) := getLastCommittedBlock (f_service (replica n)) in
  with_follower n [2] (mkFollower (f_service (replica n)) (f_storage (replica n)) [(mkRef (next_ptr n) b, h, last)]).
Definition committed (n : net) : net :=
  match f_reading (replica n) with
  | (block, h, last) :: rest =>
      let '(s, storage, _) := nonLeaderFinish (node_config (config two) [2]) (Sign [2]) commit (fun _ => true)
        (f_service (replica n)) (f_storage (replica n)) block h last in
      with_follower n [2] (mkFollower s storage rest)
  | [] => n
  end.
Definition vote_read (n : net) : net :=
  let '(h, last) := getLastCommittedBlock (l_service n) in
  mkNetwork (l_service n) (l_storage n) (l_phase n) (l_votes n ++ [([2], h, last)]) (l_sends n) (followers n)
    (sent n) (([2], h) :: votes n) (next_ptr n).
Definition vote_added (n : net) : net :=
  match l_votes n with
  | (sender, h, last) :: rest =>
      let '(s, r) := leaderAddVote (node_config (config two) [1]) (l_service n) sender last in
      mkNetwork s (l_storage n) (l_phase n) rest (l_sends n ++ match r with Ok true => [h] | _ => [] end)
        (followers n) (sent n) (votes n) (next_ptr n)
  | [] => n
  end.
Definition woken (n : net) : net :=
  match l_sends n with
  | h :: rest => mkNetwork (voted h (l_service n)) (l_storage n) Ticking (l_votes n) rest (followers n) (sent n)
                   (votes n) (next_ptr n)
  | [] => n
  end.

Definition after_vote : net := woken (vote_added (vote_read (ticked two (start two)))).
Definition first_block : BlockPairContainer := default genesis (last (sent (ticked two after_vote))).
Definition final : net := committed (read (ticked two after_vote) first_block).

(** No signature is valid but the one made; what is delivered was sent. *)
Lemma unforged_sent (n : net) b : b ∈ sent n -> unforged (config two) (sent n) b.
Proof. intros Hb signature _. by exists b. Qed.

Lemma reach_start validators : reach validators (start validators).
Proof.
  apply reachable_initial. split; [vm_compute; reflexivity|]. do 7 (split; [reflexivity|]).
  intros a f Hf. simpl in Hf. apply lookup_singleton_Some in Hf as [_ <-]. done.
Qed.

Lemma reach_ticked validators n :
  reach validators n -> l_phase n = Ticking -> (getLastCommittedBlock (l_service n)).1 + 1 < blockHeightNone ->
  reach validators (ticked validators n).
Proof.
  intros Hn Hp Hb. eapply reachable_step; [done|]. unfold ticked.
  destruct (tick _ _ _ _ _ _ n) as [[s storage] [out r]] eqn:E. by apply (StepTick _ _ _ _ _ _ n).
Qed.

Lemma reach_vote_read n :
  reach two n -> (getLastCommittedBlock (l_service n)).1 = 0 -> reach two (vote_read n).
Proof.
  intros Hn Hh. eapply reachable_step; [done|]. unfold vote_read.
  destruct (getLastCommittedBlock (l_service n)) as [h last] eqn:E. simpl in Hh. subst h.
  apply (StepVoteRead _ _ _ _ _ _ n [2] [2; 0] 0); [done|]. vm_compute. reflexivity.
Qed.

Lemma reach_vote_added n v rest : reach two n -> l_votes n = v :: rest -> reach two (vote_added n).
Proof.
  intros Hn Hv. eapply reachable_step; [done|]. unfold vote_added. rewrite Hv. destruct v as [[sender h] last].
  destruct (leaderAddVote _ _ _ _) as [s r] eqn:E. by apply (StepVoteAdded _ _ _ _ _ _ n [] rest sender h last).
Qed.

Lemma reach_woken n h rest : reach two n -> l_phase n = Waiting -> l_sends n = h :: rest -> reach two (woken n).
Proof.
  intros Hn Hp Hs. eapply reachable_step; [done|]. unfold woken. rewrite Hs.
  by apply (StepVoted _ _ _ _ _ _ n h [] rest).
Qed.

Lemma reach_read n b f :
  reach two n -> followers n !! [2] = Some f -> f_reading f = [] -> b ∈ sent n -> reach two (read n b).
Proof.
  intros Hn Hf Hr Hb. eapply reachable_step; [done|]. unfold read, replica. rewrite Hf. simpl.
  destruct (getLastCommittedBlock (f_service f)) as [h last] eqn:E.
  pose proof (StepCommitRead (config two) Sign commit (fun _ => true) new_tx new_rx n [2] f b h last Hf
    (unforged_sent n b Hb) E) as Hst. by rewrite Hr in Hst.
Qed.

Lemma reach_committed n f block h last :
  reach two n -> followers n !! [2] = Some f -> f_reading f = [(block, h, last)] -> reach two (committed n).
Proof.
  intros Hn Hf Hr. eapply reachable_step; [done|]. unfold committed, replica. rewrite Hf. simpl. rewrite Hr.
  destruct (nonLeaderFinish _ _ _ _ _ _ _ _ _) as [[s storage] out] eqn:E.
  by apply (StepCommitDone _ _ _ _ _ _ n [2] f [] [] block h last s storage out).
Qed.

Lemma reach_after_vote : reach two after_vote.
Proof.
  unfold after_vote. eapply reach_woken; [eapply reach_vote_added; [apply reach_vote_read|]| |].
  - apply reach_ticked; [apply reach_start|reflexivity|vm_compute; reflexivity].
  - vm_compute. reflexivity.
  - vm_compute. reflexivity.
  - vm_compute. reflexivity.
  - vm_compute. reflexivity.
Qed.

Lemma reach_final : reach two final.
Proof.
  unfold final. eapply reach_committed; [eapply reach_read; [apply reach_ticked|..]|..].
  - apply reach_after_vote.
  - vm_compute. reflexivity.
  - vm_compute. reflexivity.
  - vm_compute. reflexivity.
  - vm_compute. reflexivity.
  - vm_compute. right. left.
  - vm_compute. reflexivity.
  - vm_compute. reflexivity.
Qed.

Lemma context_height h prev timestamp proposer tx :
  new_tx h prev timestamp proposer = Some tx -> txh_BlockHeight (txb_Header tx) = h.
Proof. by intros [= <-]. Qed.

Lemma stored_commit (storage : list BlockPairContainer) b storage' ok :
  commit storage b = (storage', ok) -> forall x, x ∈ storage' -> x ∈ storage \/ x = b.
Proof. intros [= <- _] x [Hx|Hx]%elem_of_app; [by left|right]. by apply list_elem_of_singleton in Hx. Qed.


Lemma leader_waits_for_quorum_witness : exists voters : gset bytes, 2 <= Z.of_nat (size voters) + 1.
Proof.
  destruct (leader_waits_for_quorum (config two) Sign commit (fun _ => true) new_tx new_rx (fun b => b)
    context_height genesis final first_block reach_final) as (voters & Hq & _).
  - vm_compute. right. left.
  - vm_compute. discriminate.
  - exists voters. exact Hq.
Defined.

Lemma single_validator_stops_witness : sent (ticked [[1]] (start [[1]])) = [genesis] /\
  forall b, b ∈ sent (ticked [[1]] (start [[1]])) -> b = genesis.
Proof.
  split; [vm_compute; reflexivity|].
  apply (single_validator_stops (config [[1]]) Sign commit (fun _ => true) new_tx new_rx (fun b => b)).
  - vm_compute. reflexivity.
  - reflexivity.
  - apply reach_ticked; [apply reach_start|reflexivity|vm_compute; reflexivity].
Defined.

Lemma replaced_body_accepted_witness :
  let forged := mkRef 7 (with_body first_block [] [mkReceipt [9] 1 [] []] []) in
  (nonLeaderHandleCommit (config two) (Sign [2]) commit (fun _ => true)
     (NewBenchmarkConsensusAlgo (config two)) [] forged).1.2 = [pair forged].
Proof.
  refine (proj1 (replaced_body_accepted (config two) (Sign [2]) (fun _ => true)
    (NewBenchmarkConsensusAlgo (config two)) [] (mkRef 7 first_block) [] [mkReceipt [9] 1 [] []] [] _ _)).
  - vm_compute. discriminate.
  - vm_compute. reflexivity.
Defined.
End Example.
End BenchmarkConsensus.
