(* ===== verification/Management.v ===== *)
(** * Management of a virtual chain (services/management)

    The committees, subscriptions and protocol versions of a virtual chain by reference
    time, and the topology of its network: the service (management.go), which polls a
    provider and answers lookups, the provider that reads a file or a URL
    (adapter/file_provider.go) and the one of tests (adapter/memory_provider.go).  The
    decoding of JSON, the parsing of IP addresses, the file and the HTTP response are
    arguments; so is the package errors of pkg, of which [Wrapf] of no error is no error. *)
From stdpp Require Import base gmap strings numbers list sorting.
From Stdlib Require Import ZArith Lia ZifyBool.
From S2P Require Import Prelude Hash Encoding ContractSdk Transport.

Module Management.
Import Transport.

(** ** sort.SliceStable *)

Section Sort.
Context {A : Type}.
Variable less : A -> A -> bool.

(** Before the first element that is not less: elements of the same rank keep their order. *)
Fixpoint insert_stable (x : A) (l : list A) : list A :=
  match l with
  | [] => [x]
  | y :: l => if less y x then y :: insert_stable x l else x :: y :: l
  end.

Definition SliceStable (l : list A) : list A := foldr insert_stable [] l.

Lemma insert_stable_permutation x l : insert_stable x l ≡ₚ x :: l.
Proof. induction l as [|y l IH]; cbn; [done|]. destruct (less y x); [|done]. rewrite IH. constructor. Qed.

Lemma SliceStable_permutation l : SliceStable l ≡ₚ l.
Proof. induction l as [|x l IH]; cbn; [done|]. by rewrite insert_stable_permutation, IH. Qed.

(** For a strict weak order the result is sorted. *)
Hypothesis less_asym : forall x y, less y x = true -> less x y = false.
Hypothesis not_less_trans : forall x y z, less y x = false -> less z y = false -> less z x = false.

Lemma SliceStable_sorted l : StronglySorted (fun a b => less b a = false) (SliceStable l).
Proof.
  induction l as [|x l IH]; [constructor|]. cbn [SliceStable foldr]. fold (SliceStable l).
  induction IH as [|y l' Hs IH Hall]; cbn [insert_stable]; [repeat constructor|]. destruct (less y x) eqn:E.
  - constructor; [done|]. rewrite insert_stable_permutation. constructor; [by apply less_asym|done].
  - constructor; [by constructor|]. constructor; [done|]. eapply Forall_impl; [exact Hall|]. cbn. intros z. by apply not_less_trans.
Qed.
End Sort.

(** ** Data *)

Record CommitteeTerm := mkCommitteeTerm { ct_AsOfReference : Z; ct_Committee : list bytes }.
Record SubscriptionTerm := mkSubscriptionTerm { st_AsOfReference : Z; st_IsActive : bool }.
Record ProtocolVersionTerm := mkVersionTerm { pt_AsOfReference : Z; pt_Version : Z }.

Record VirtualChainManagementData := mkData {
  CurrentReference : Z;
  Topology : gmap bytes gossipPeer;
  Committees : list CommitteeTerm;
  Subscriptions : list SubscriptionTerm;
  ProtocolVersions : list ProtocolVersionTerm
}.

(** ** Lookups (management.go) *)

(** [for ; i > 0 && reference < terms[i].AsOfReference; i-- {}] *)
Fixpoint search {T} (AsOfReference : T -> Z) (terms : list T) (reference : Z) (i : nat) : nat :=
  match i with
  | O => O
  | S i' =>
      match terms !! i with
      | Some t => if reference <? AsOfReference t then search AsOfReference terms reference i' else i
      | None => i
      end
  end.

(** The term at the index of the loop, which starts at [len(terms) - 1]; of no terms
    the index is -1, which panics. *)
Definition term_at {T} (AsOfReference : T -> Z) (terms : list T) (reference : Z) : outcome unit T :=
  match terms with
  | [] => Panic
  | _ =>
      match terms !! search AsOfReference terms reference (length terms - 1) with
      | Some t => Ok t
      | None => Panic
      end
  end.

Definition GetCurrentReference (s : VirtualChainManagementData) : Z := CurrentReference s.
Definition GetTopology (s : VirtualChainManagementData) : gmap bytes gossipPeer := Topology s.

Definition GetCommittee (s : VirtualChainManagementData) (reference : Z) : outcome unit (list bytes) :=
  let! t := term_at ct_AsOfReference (Committees s) reference in Ok (ct_Committee t).

Definition GetSubscriptionStatus (s : VirtualChainManagementData) (reference : Z) : outcome unit bool :=
  let! t := term_at st_AsOfReference (Subscriptions s) reference in Ok (st_IsActive t).

Definition GetProtocolVersion (s : VirtualChainManagementData) (reference : Z) : outcome unit Z :=
  let! t := term_at pt_AsOfReference (ProtocolVersions s) reference in Ok (pt_Version t).

(** ** Updates *)

Inductive management_error :=
| ErrHttpGet
| ErrReadBody
| ErrStat
| ErrFileTooBig
| ErrReadFile
| ErrUnmarshal
| ErrVcNotFound
| ErrTopologyAddress
| ErrCommitteeAddress
| ErrNoSubscription
| ErrCommitteeNotNewer.

(** A consumer of topologies, such as the outgoing connections of the transport. *)
Class TopologyConsumer (T : Type) := UpdateTopology : T -> gmap bytes gossipPeer -> outcome unit T.

#[export] Instance transport_consumer : TopologyConsumer outgoingConnections := updateTopology (fun _ => true).

Section Service.
Context {T : Type} `{!TopologyConsumer T}.

(** What the provider returns: data or an error. *)
Definition provided : Type := VirtualChainManagementData * option management_error.

(** The service keeps its data and the consumer its topology. *)
Definition update (p : provided) (data : VirtualChainManagementData) (consumer : T)
    : outcome management_error (VirtualChainManagementData * T) :=
  match p.2 with
  | Some err => Err err
  | None =>
      match UpdateTopology consumer (Topology p.1) with
      | Ok consumer => Ok (p.1, consumer)
      | _ => Panic
      end
  end.

Definition no_data : VirtualChainManagementData := mkData 0 ∅ [] [] [].

(** An error of the first update panics. *)
Definition NewManagement (p : provided) (consumer : T) : outcome unit (VirtualChainManagementData * T) :=
  match update p no_data consumer with
  | Ok s => Ok s
  | _ => Panic
  end.

(** The polls, with what the provider returns at each; errors are logged.  A panic of the
    consumer ends the function; that govnr starts it again is not modelled. *)
Fixpoint startPollingForUpdates (polls : list provided) (s : VirtualChainManagementData * T)
    : outcome unit (VirtualChainManagementData * T) :=
  match polls with
  | [] => Ok s
  | p :: polls =>
      match update p s.1 s.2 with
      | Ok s => startPollingForUpdates polls s
      | Err _ => startPollingForUpdates polls s
      | Panic => Panic
      end
  end.
End Service.

(** ** The file provider (adapter/file_provider.go) *)

Record topologyNode := mkTopologyNode { tn_Address : bytes; tn_Ip : bytes; tn_Port : Z }.
(** Of a member of a committee, its Orbs address; its stake and the like are not used. *)
Record committeeEvent := mkCommitteeEvent { ce_RefTime : Z; ce_Committee : list bytes }.
Record subscriptionEvent := mkSubscriptionEvent { se_RefTime : Z; se_Status : bytes }.
Record protocolVersionEvent := mkVersionEvent { pe_RefTime : Z; pe_Version : Z }.

Record vc := mkVc {
  CurrentTopology : list topologyNode;
  CommitteeEvents : list committeeEvent;
  SubscriptionEvents : list subscriptionEvent;
  ProtocolVersionEvents : list protocolVersionEvent
}.

Record mgmt := mkMgmt { CurrentRefTime : Z; VirtualChains : gmap bytes vc }.

(** What http.Get returns: an error, or a response with its length, -1 if unknown, and
    its body, or the error of reading it. *)
Inductive http_result := HttpError | HttpResponse (ContentLength : Z) (body : option bytes).

(** A file: its size, and its contents or the error of reading it. *)
Record file := mkFile { fi_Size : Z; fi_contents : option bytes }.

(** The package errors of pkg. *)
Class PkgErrors := Wrapf : option management_error -> option management_error.
Class PkgErrorsLaws `{PkgErrors} : Prop := {
  Wrapf_nil : Wrapf None = None;
  Wrapf_error e : is_Some (Wrapf (Some e))
}.

Record FileConfig := mkFileConfig {
  VirtualChainId : Z;
  ManagementFilePath : bytes;
  ManagementMaxFileSize : Z
}.

Section FileProvider.
Context `{PkgErrors}.
Variable json_Unmarshal : bytes -> option mgmt.
Variable net_ParseIP : bytes -> bool.
Variable http_Get : bytes -> http_result.
Variable os_file : bytes -> option file.
Variable config : FileConfig.

Definition readUrl (path : bytes) : bytes * option management_error :=
  match http_Get path with
  | HttpError => ([], Wrapf (Some ErrHttpGet))
  | HttpResponse ContentLength body =>
      if (0 <? ContentLength) && (ManagementMaxFileSize config <? wrap 32 ContentLength) then ([], Wrapf None)
      else match body with Some contents => (contents, None) | None => ([], Some ErrReadBody) end
  end.

Definition readFile (filePath : bytes) : bytes * option management_error :=
  match os_file filePath with
  | None => ([], Some ErrStat)
  | Some fi =>
      if ManagementMaxFileSize config <? wrap 32 (fi_Size fi) then ([], Some ErrFileTooBig)
      else match fi_contents fi with Some contents => (contents, None) | None => ([], Wrapf (Some ErrReadFile)) end
  end.

(** The errors of the IP address and the port wrap the error of the address, which is nil. *)
Fixpoint parse_nodes (currentTopology : list topologyNode) (topology : gmap bytes gossipPeer)
    : gmap bytes gossipPeer * option management_error :=
  match currentTopology with
  | [] => (topology, None)
  | item :: rest =>
      match hex_DecodeString (tn_Address item) with
      | None => (∅, Wrapf (Some ErrTopologyAddress))
      | Some nodeAddress =>
          if negb (net_ParseIP (tn_Ip item)) then (∅, Wrapf None)
          else if (tn_Port item <? 1024) || (65535 <? tn_Port item) then (∅, Wrapf None)
          else parse_nodes rest (<[nodeAddress := mkPeer (tn_Port item) (tn_Ip item) (tn_Address item)]> topology)
      end
  end.

Definition parseTopology (currentTopology : list topologyNode) : gmap bytes gossipPeer * option management_error :=
  parse_nodes currentTopology ∅.

Definition after (a b : bytes) : bool := match bytes_compare a b with Gt => true | _ => false end.

Fixpoint decode_addresses (addresses : list bytes) : option (list bytes) :=
  match addresses with
  | [] => Some []
  | a :: rest =>
      match hex_DecodeString a with
      | None => None
      | Some address => match decode_addresses rest with Some l => Some (address :: l) | None => None end
      end
  end.

Fixpoint parse_events (committeeEvents : list committeeEvent) (committeeTerms : list CommitteeTerm)
    : list CommitteeTerm * option management_error :=
  match committeeEvents with
  | [] => (SliceStable (fun x y => ct_AsOfReference x <? ct_AsOfReference y) committeeTerms, None)
  | event :: rest =>
      match decode_addresses (ce_Committee event) with
      | None => ([], Wrapf (Some ErrCommitteeAddress))
      | Some committee =>
          parse_events rest (committeeTerms ++ [mkCommitteeTerm (ce_RefTime event) (SliceStable after committee)])
      end
  end.

Definition parseCommittees (committeeEvents : list committeeEvent) : list CommitteeTerm * option management_error :=
  parse_events committeeEvents [].

Definition parseSubscription (subscriptionEvents : list subscriptionEvent)
    : list SubscriptionTerm * option management_error :=
  if (length subscriptionEvents =? 0)%nat then ([], Some ErrNoSubscription)
  else
    (SliceStable (fun x y => st_AsOfReference x <? st_AsOfReference y)
       (map (fun event => mkSubscriptionTerm (se_RefTime event) (bool_decide (se_Status event = go_string "active")))
          subscriptionEvents), None).

(** Versions are uint32. *)
Definition parseProtocolVersion (protocolVersionEvents : list protocolVersionEvent) : list ProtocolVersionTerm :=
  let periods := SliceStable (fun x y => pt_AsOfReference x <? pt_AsOfReference y)
    (map (fun event => mkVersionTerm (pe_RefTime event) (wrap 32 (pe_Version event))) protocolVersionEvents) in
  if (length periods =? 0)%nat then [mkVersionTerm 0 1] else periods.

Definition parseData (contents : bytes) : provided :=
  match json_Unmarshal contents with
  | None => (no_data, Wrapf (Some ErrUnmarshal))
  | Some data =>
      match VirtualChains data !! sprint_d (VirtualChainId config) with
      | None => (no_data, Some ErrVcNotFound)
      | Some vcData =>
          let '(topology, err) := parseTopology (CurrentTopology vcData) in
          match err with Some _ => (no_data, err) | None =>
          let '(committeeTerms, err) := parseCommittees (CommitteeEvents vcData) in
          match err with Some _ => (no_data, err) | None =>
          let '(subscriptions, err) := parseSubscription (SubscriptionEvents vcData) in
          match err with Some _ => (no_data, err) | None =>
          (mkData (CurrentRefTime data) topology committeeTerms subscriptions
             (parseProtocolVersion (ProtocolVersionEvents vcData)), None)
          end end end
      end
  end.

Definition Get : provided :=
  let path := ManagementFilePath config in
  let '(contents, err) := if bool_decide (take 4 path = go_string "http") then readUrl path else readFile path in
  match err with Some _ => (no_data, err) | None => parseData contents end.
End FileProvider.

(** ** The memory provider (adapter/memory_provider.go) *)

Section MemoryProvider.
(** The addresses of the genesis validators, in the order of the map. *)
Definition getCommitteeFromConfig (allNodes : list bytes) : list bytes := SliceStable after allNodes.

Definition NewMemoryProvider (peers : gmap bytes gossipPeer) (allNodes : list bytes) (version : Z)
    : VirtualChainManagementData :=
  mkData 0 peers [mkCommitteeTerm 0 (getCommitteeFromConfig allNodes)] [mkSubscriptionTerm 0 true]
    [mkVersionTerm 0 version].

Definition MemoryProvider_Get (mp : VirtualChainManagementData) : provided := (mp, None).

Definition AddCommittee (mp : VirtualChainManagementData) (reference : Z) (committee : list bytes)
    : outcome management_error VirtualChainManagementData :=
  match last (Committees mp) with
  | None => Panic
  | Some t =>
      if reference <=? ct_AsOfReference t then Err ErrCommitteeNotNewer
      else Ok (mkData reference (Topology mp) (Committees mp ++ [mkCommitteeTerm reference committee])
                 (Subscriptions mp) (ProtocolVersions mp))
  end.
End MemoryProvider.

(** ** The term in force *)

Section Terms.
Context {T : Type}.
Variable AsOf : T -> Z.
Definition earlier (x y : T) : bool := AsOf x <? AsOf y.

(** The latest term at or before the reference; of several of the same time the last. *)
Fixpoint as_of (reference : Z) (l : list T) : option T :=
  match l with
  | [] => None
  | t :: l =>
      match as_of reference l with
      | None => if AsOf t <=? reference then Some t else None
      | Some b => if (AsOf t <=? reference) && (AsOf b <? AsOf t) then Some t else Some b
      end
  end.

Lemma as_of_insert reference x l : as_of reference (insert_stable earlier x l) = as_of reference (x :: l).
Proof.
  induction l as [|y l IH]; [done|]. cbn [insert_stable]. unfold earlier at 1. destruct (Z.ltb_spec (AsOf y) (AsOf x)); [|done].
  cbn [as_of] in *. rewrite IH. destruct (as_of reference l) as [b|];
    repeat (match goal with
            | |- context [?a <=? ?b] => destruct (Z.leb_spec a b)
            | |- context [?a <? ?b] => destruct (Z.ltb_spec a b)
            end; cbn [andb]); (done || lia).
Qed.

Lemma as_of_sort reference l : as_of reference (SliceStable earlier l) = as_of reference l.
Proof. induction l as [|x l IH]; [done|]. cbn [SliceStable foldr]. rewrite as_of_insert. cbn [as_of]. by rewrite <-IH. Qed.

Lemma sort_sorted l : StronglySorted (fun a b => AsOf a <= AsOf b) (SliceStable earlier l).
Proof.
  assert (StronglySorted (fun a b => earlier b a = false) (SliceStable earlier l)) as Hs.
  { apply SliceStable_sorted; unfold earlier; lia. }
  induction Hs as [|a l' _ IH Hall]; constructor; [done|]. eapply Forall_impl; [exact Hall|]. unfold earlier. cbn. lia.
Qed.

Lemma as_of_snoc reference l t :
  Forall (fun a => AsOf a <= AsOf t) l ->
  as_of reference (l ++ [t]) = if AsOf t <=? reference then Some t else as_of reference l.
Proof.
  induction 1 as [|a l Ha _ IH]; cbn [app as_of]; [done|]. rewrite IH. destruct (Z.leb_spec (AsOf t) reference); [|done].
  by lia_if.
Qed.

Lemma search_app l l' reference i :
  (i < length l)%nat -> search AsOf (l ++ l') reference i = search AsOf l reference i.
Proof.
  induction i as [|i IH]; intros Hi; [done|]. cbn [search]. rewrite lookup_app_l by done.
  destruct (l !! S i); [|done]. rewrite IH by lia. done.
Qed.

(** The loop finds the term in force, or takes the first one. *)
Lemma term_at_as_of terms reference :
  StronglySorted (fun a b => AsOf a <= AsOf b) terms -> terms <> [] ->
  exists t, term_at AsOf terms reference = Ok t /\
    (as_of reference terms = Some t \/ as_of reference terms = None /\ head terms = Some t).
Proof.
  intros Hs Hne. induction terms as [|t terms IH] using rev_ind; [done|]. clear Hne.
  assert (Forall (fun a => AsOf a <= AsOf t) terms) as Hall.
  { apply StronglySorted_app in Hs as (Hcross & _ & _). apply Forall_forall. intros a Ha. apply Hcross; [done|by left]. }
  rewrite as_of_snoc by done. unfold term_at. rewrite length_app. cbn [length].
  destruct terms as [|a terms]; [cbn; exists t; destruct (AsOf t <=? reference); auto|].
  replace (length (a :: terms) + 1 - 1)%nat with (length (a :: terms)) by lia.
  assert (search AsOf ((a :: terms) ++ [t]) reference (length (a :: terms))
    = if reference <? AsOf t then search AsOf (a :: terms) reference (length terms) else length (a :: terms)) as ->.
  { cbn [search length]. rewrite (lookup_app_r (a :: terms) [t]), Nat.sub_diag by (cbn; lia). cbn.
    destruct (reference <? AsOf t); [|done]. apply (search_app (a :: terms)). cbn. lia. }
  cbn [app]. change (a :: terms ++ [t]) with ((a :: terms) ++ [t]).
  destruct (Z.ltb_spec reference (AsOf t)); [|rewrite lookup_app_r, Nat.sub_diag by (cbn; lia); exists t; by lia_if; auto].
  lia_if. destruct IH as (r & Hr & Hcases); [by apply StronglySorted_app in Hs as (_ & Hs & _)|done|].
  unfold term_at in Hr. cbn [length] in Hr. rewrite Nat.sub_succ, Nat.sub_0_r in Hr.
  destruct ((a :: terms) !! _) as [r'|] eqn:Hl in Hr; [|done]. injection Hr as ->.
  exists r. rewrite (lookup_app_l_Some _ _ _ _ Hl). auto.
Qed.

(** The term that is in force at a reference: of those at or before it the latest, and the
    last of these in the file; before the first term, the earliest, and the first of these. *)
Definition in_force (l : list T) (reference : Z) (t : T) : Prop :=
  exists before after, l = before ++ t :: after /\
    (AsOf t <= reference /\ Forall (fun a => reference < AsOf a \/ AsOf a <= AsOf t) before /\
       Forall (fun a => reference < AsOf a \/ AsOf a < AsOf t) after
     \/ reference < AsOf t /\ Forall (fun a => AsOf t < AsOf a) before /\ Forall (fun a => AsOf t <= AsOf a) after).

Lemma in_force_exists l reference : l <> [] -> exists t, in_force l reference t.
Proof.
  intros Hne. induction l as [|a l IH]; [done|]. destruct l as [|b l].
  { exists a, [], []. split; [done|]. destruct (Z.leb_spec (AsOf a) reference); [left|right]; auto. }
  destruct IH as (t & before & after & Hl & Hcases); [done|]. rewrite Hl in *. clear Hl.
  destruct (Z.leb_spec (AsOf a) reference) as [Ha|Ha], Hcases as [(Ht & Hb & Hf)|(Ht & Hb & Hf)].
  - destruct (Z.leb_spec (AsOf a) (AsOf t)).
    + exists t, (a :: before), after. split; [done|]. left. split_and!; auto.
    + exists a, [], (before ++ t :: after). split; [done|]. left. split_and!; [done|done|].
      apply Forall_app. split; [|constructor; [lia|]]; eapply Forall_impl; [exact Hb| |exact Hf|]; cbn; lia.
  - exists a, [], (before ++ t :: after). split; [done|]. left. split_and!; [done|done|].
    apply Forall_app. split; [|constructor; [lia|]]; eapply Forall_impl; [exact Hb| |exact Hf|]; cbn; lia.
  - exists t, (a :: before), after. split; [done|]. left. split_and!; auto.
  - destruct (Z.ltb_spec (AsOf t) (AsOf a)).
    + exists t, (a :: before), after. split; [done|]. right. auto.
    + exists a, [], (before ++ t :: after). split; [done|]. right. split_and!; [done|done|].
      apply Forall_app. split; [|constructor; [lia|]]; eapply Forall_impl; [exact Hb| |exact Hf|]; cbn; lia.
Qed.

Lemma as_of_none l reference : Forall (fun a => reference < AsOf a) l -> as_of reference l = None.
Proof. induction 1 as [|a l Ha _ IH]; cbn; [done|]. rewrite IH. by lia_if. Qed.

Lemma as_of_below l reference t :
  Forall (fun a => reference < AsOf a \/ AsOf a < AsOf t) l ->
  match as_of reference l with Some b => AsOf b < AsOf t | None => True end.
Proof.
  induction 1 as [|a l Ha _ IH]; cbn; [done|].
  destruct (as_of reference l) as [b|]; [destruct (_ && _) eqn:E|destruct (_ <=? _) eqn:E]; (done || lia).
Qed.

Lemma as_of_found before after reference t :
  AsOf t <= reference -> Forall (fun a => reference < AsOf a \/ AsOf a <= AsOf t) before ->
  Forall (fun a => reference < AsOf a \/ AsOf a < AsOf t) after ->
  as_of reference (before ++ t :: after) = Some t.
Proof.
  intros Ht Hb Hf%as_of_below. induction Hb as [|a before Ha _ IH]; cbn [app as_of].
  - destruct (as_of reference after); by lia_if.
  - rewrite IH. by lia_if.
Qed.

Lemma head_sort before after t :
  Forall (fun a => AsOf t < AsOf a) before -> Forall (fun a => AsOf t <= AsOf a) after ->
  head (SliceStable earlier (before ++ t :: after)) = Some t.
Proof.
  assert (forall x l, head (insert_stable earlier x l)
    = match head l with Some y => if AsOf y <? AsOf x then Some y else Some x | None => Some x end) as Hhead.
  { intros x [|y l]; [done|]. cbn. unfold earlier. by destruct (_ <? _). }
  intros Hb Hf. induction Hb as [|a before Ha _ IH]; cbn [app SliceStable foldr]; rewrite Hhead.
  - destruct (head _) as [y|] eqn:E; [|done]. apply head_Some_elem_of in E.
    change (foldr _ _ _) with (SliceStable earlier after) in E. rewrite SliceStable_permutation in E.
    rewrite Forall_forall in Hf. specialize (Hf y E). by lia_if.
  - change (foldr _ _ _) with (SliceStable earlier (before ++ t :: after)). rewrite IH. by lia_if.
Qed.

Lemma term_in_force l reference t :
  in_force l reference t -> term_at AsOf (SliceStable earlier l) reference = Ok t.
Proof.
  intros (before & after & -> & Hcases).
  destruct (term_at_as_of (SliceStable earlier (before ++ t :: after)) reference) as (r & -> & Hr); [apply sort_sorted| |].
  { intros Hnil. pose proof (SliceStable_permutation earlier (before ++ t :: after)) as Hp. rewrite Hnil in Hp.
    apply Permutation_nil_l in Hp. by destruct before. }
  rewrite as_of_sort in Hr. destruct Hcases as [(Ht & Hb & Hf)|(Ht & Hb & Hf)].
  - rewrite as_of_found in Hr by done. naive_solver.
  - rewrite head_sort in Hr by done. rewrite as_of_none in Hr; [naive_solver|].
    apply Forall_app. split; [|constructor; [done|]]; eapply Forall_impl; [exact Hb| |exact Hf|]; cbn; lia.
Qed.
End Terms.

Lemma in_force_Forall2 {E T} (RefTime : E -> Z) (AsOf : T -> Z) (R : E -> T -> Prop) events terms reference e :
  Forall2 (fun e t => AsOf t = RefTime e /\ R e t) events terms ->
  in_force RefTime events reference e -> exists t, R e t /\ in_force AsOf terms reference t.
Proof.
  intros Hall (before & after & -> & Hcases).
  apply Forall2_app_inv_l in Hall as (tb & ta & Hb2 & Ha2 & ->).
  apply Forall2_cons_inv_l in Ha2 as (t & tf & [Ht HR] & Hf2 & ->).
  exists t. split; [done|]. exists tb, tf. split; [done|]. rewrite Ht.
  assert (forall (P : Z -> Prop) l l', Forall2 (fun e t => AsOf t = RefTime e /\ R e t) l l' ->
    Forall (fun e => P (RefTime e)) l -> Forall (fun t => P (AsOf t)) l') as Hmap.
  { intros P l l'. induction 1 as [|x y l l' [Hxy _] _ IH]; intros Hl; [constructor|].
    apply Forall_cons in Hl as [Hx Hl]. constructor; [by rewrite Hxy|auto]. }
  destruct Hcases as [(Hr & Hb & Hf)|(Hr & Hb & Hf)]; [left|right]; (split; [done|]); split.
  - by apply (Hmap (fun z => reference < z \/ z <= RefTime e) before).
  - by apply (Hmap (fun z => reference < z \/ z < RefTime e) after).
  - by apply (Hmap (fun z => RefTime e < z) before).
  - by apply (Hmap (fun z => RefTime e <= z) after).
Qed.

Lemma in_force_map {E T} (RefTime : E -> Z) (AsOf : T -> Z) (f : E -> T) events reference e :
  (forall e, AsOf (f e) = RefTime e) -> in_force RefTime events reference e ->
  term_at AsOf (SliceStable (earlier AsOf) (map f events)) reference = Ok (f e).
Proof.
  intros Hf He. apply term_in_force.
  destruct (in_force_Forall2 RefTime AsOf (fun e t => t = f e) events (map f events) reference e) as (t & -> & Hin); [|done..].
  clear He. apply Forall2_fmap_r. induction events; constructor; auto.
Qed.

Section Provider.
Context `{PkgErrors} `{!PkgErrorsLaws}.
Variable json_Unmarshal : bytes -> option mgmt.
Variable net_ParseIP : bytes -> bool.
Variable http_Get : bytes -> http_result.
Variable os_file : bytes -> option file.
Variable config : FileConfig.

(** The term of an event. *)
Definition committee_of (e : committeeEvent) (t : CommitteeTerm) : Prop :=
  exists members, decode_addresses (ce_Committee e) = Some members /\ ct_Committee t = SliceStable after members.

Lemma parse_events_spec events acc terms :
  parse_events events acc = (terms, None) ->
  exists cs, terms = SliceStable (earlier ct_AsOfReference) (acc ++ cs) /\
    Forall2 (fun e t => ct_AsOfReference t = ce_RefTime e /\ committee_of e t) events cs.
Proof.
  revert acc. induction events as [|e events IH]; intros acc; cbn [parse_events].
  - intros [= <-]. exists []. by rewrite app_nil_r.
  - destruct (decode_addresses (ce_Committee e)) as [members|] eqn:Hd.
    + intros (cs & -> & Hcs)%IH. exists (mkCommitteeTerm (ce_RefTime e) (SliceStable after members) :: cs).
      rewrite <-app_assoc. split; [done|]. constructor; [|done]. split; [done|by exists members].
    + destruct (Wrapf_error ErrCommitteeAddress) as [err Herr]. by rewrite Herr.
Qed.

Lemma parseData_inv contents m vcData data :
  json_Unmarshal contents = Some m -> VirtualChains m !! sprint_d (VirtualChainId config) = Some vcData ->
  parseData json_Unmarshal net_ParseIP config contents = (data, None) ->
  parseTopology net_ParseIP (CurrentTopology vcData) = (Topology data, None) /\
  parseCommittees (CommitteeEvents vcData) = (Committees data, None) /\
  parseSubscription (SubscriptionEvents vcData) = (Subscriptions data, None) /\
  ProtocolVersions data = parseProtocolVersion (ProtocolVersionEvents vcData) /\ CurrentReference data = CurrentRefTime m.
Proof.
  intros Hm Hvc. unfold parseData. rewrite Hm, Hvc.
  destruct (parseTopology _ _) as [topology [?|]]; [done|]. destruct (parseCommittees _) as [committees [?|]]; [done|].
  destruct (parseSubscription _) as [subscriptions [?|]]; [done|]. by intros [= <-].
Qed.

Lemma SliceStable_nil {A} (less : A -> A -> bool) l : SliceStable less l = [] <-> l = [].
Proof.
  split; [|by intros ->]. intros Hnil. pose proof (SliceStable_permutation less l) as Hp. rewrite Hnil in Hp.
  by apply Permutation_nil_l in Hp.
Qed.

Lemma committee_lookup events terms data reference :
  parseCommittees events = (terms, None) -> Committees data = terms ->
  (forall e, in_force ce_RefTime events reference e ->
     exists members, decode_addresses (ce_Committee e) = Some members /\
       GetCommittee data reference = Ok (SliceStable after members)) /\
  (GetCommittee data reference = Panic <-> events = []).
Proof.
  intros (cs & -> & Hcs)%parse_events_spec Hdata. cbn [app] in Hdata.
  assert (forall e, in_force ce_RefTime events reference e ->
     exists members, decode_addresses (ce_Committee e) = Some members /\
       GetCommittee data reference = Ok (SliceStable after members)) as Hfound.
  { intros e He. destruct (in_force_Forall2 _ ct_AsOfReference _ _ _ _ _ Hcs He) as (t & (members & Hd & Ht) & Hin).
    exists members. split; [done|]. unfold GetCommittee. rewrite Hdata, (term_in_force _ _ _ _ Hin). cbn. by rewrite Ht. }
  split; [done|]. split.
  - intros Hpanic. destruct (decide (events = [])) as [|Hne]; [done|].
    destruct (in_force_exists ce_RefTime events reference Hne) as [e (members & _ & Hok)%Hfound]. congruence.
  - intros ->. apply Forall2_nil_inv_l in Hcs as ->. unfold GetCommittee. by rewrite Hdata.
Qed.

Lemma subscription_lookup events terms data reference :
  parseSubscription events = (terms, None) -> Subscriptions data = terms ->
  (forall e, in_force se_RefTime events reference e ->
     GetSubscriptionStatus data reference = Ok (bool_decide (se_Status e = go_string "active"))) /\
  exists b, GetSubscriptionStatus data reference = Ok b.
Proof.
  unfold parseSubscription. destruct (Nat.eqb_spec (length events) 0) as [|Hlen]; [done|]. intros [= <-] Hdata.
  assert (forall e, in_force se_RefTime events reference e ->
     GetSubscriptionStatus data reference = Ok (bool_decide (se_Status e = go_string "active"))) as Hfound.
  { intros e He. unfold GetSubscriptionStatus. rewrite Hdata. fold (earlier st_AsOfReference).
    by rewrite (in_force_map se_RefTime st_AsOfReference _ events reference e). }
  split; [done|]. destruct (in_force_exists se_RefTime events reference) as [e He%Hfound]; [by destruct events|by eauto].
Qed.

Lemma version_lookup events data reference :
  ProtocolVersions data = parseProtocolVersion events ->
  (forall e, in_force pe_RefTime events reference e -> GetProtocolVersion data reference = Ok (wrap 32 (pe_Version e))) /\
  exists v, GetProtocolVersion data reference = Ok v.
Proof.
  intros Hdata. set (terms := map (fun event => mkVersionTerm (pe_RefTime event) (wrap 32 (pe_Version event))) events) in *.
  assert (forall e, in_force pe_RefTime events reference e ->
     GetProtocolVersion data reference = Ok (wrap 32 (pe_Version e))) as Hfound.
  { intros e He. unfold GetProtocolVersion. rewrite Hdata. unfold parseProtocolVersion. fold terms (earlier pt_AsOfReference).
    destruct (Nat.eqb_spec (length (SliceStable (earlier pt_AsOfReference) terms)) 0) as [Hnil|].
    { apply length_zero_iff_nil, SliceStable_nil, fmap_nil_inv in Hnil. destruct He as (before & rest & Hl & _).
      rewrite Hnil in Hl. by destruct before. }
    subst terms. by rewrite (in_force_map pe_RefTime pt_AsOfReference _ events reference e). }
  split; [done|]. destruct (decide (events = [])) as [Hnil|Hne].
  - unfold GetProtocolVersion. rewrite Hdata, Hnil. by exists 1.
  - destruct (in_force_exists pe_RefTime events reference Hne) as [e He%Hfound]. by eauto.
Qed.

(** C30. Lookups of what a management file says: at every reference time the committee,
    the subscription and the protocol version are those of the event in force - whatever
    the order of the events in the file -, the committee with its addresses decoded and
    in one order.  Subscriptions and versions are found for every reference; a lookup of
    the committee panics exactly for a file without committee events, which is read
    without an error. *)
Theorem management_in_force contents m vcData data reference :
  json_Unmarshal contents = Some m -> VirtualChains m !! sprint_d (VirtualChainId config) = Some vcData ->
  parseData json_Unmarshal net_ParseIP config contents = (data, None) ->
  (forall e, in_force ce_RefTime (CommitteeEvents vcData) reference e ->
     exists members, decode_addresses (ce_Committee e) = Some members /\
       GetCommittee data reference = Ok (SliceStable after members)) /\
  (GetCommittee data reference = Panic <-> CommitteeEvents vcData = []) /\
  (forall e, in_force se_RefTime (SubscriptionEvents vcData) reference e ->
     GetSubscriptionStatus data reference = Ok (bool_decide (se_Status e = go_string "active"))) /\
  (exists b, GetSubscriptionStatus data reference = Ok b) /\
  (forall e, in_force pe_RefTime (ProtocolVersionEvents vcData) reference e ->
     GetProtocolVersion data reference = Ok (wrap 32 (pe_Version e))) /\
  (exists v, GetProtocolVersion data reference = Ok v).
Proof.
  intros Hm Hvc Hdata. destruct (parseData_inv _ _ _ _ Hm Hvc Hdata) as (_ & Hc & Hs & Hv & _).
  destruct (committee_lookup _ _ data reference Hc eq_refl) as [Hc1 Hc2].
  destruct (subscription_lookup _ _ data reference Hs eq_refl) as [Hs1 Hs2].
  destruct (version_lookup _ data reference Hv) as [Hv1 Hv2]. done.
Qed.

(** *** Topologies *)

Definition valid_port (n : topologyNode) : bool := negb ((tn_Port n <? 1024) || (65535 <? tn_Port n)).
Definition valid_node (n : topologyNode) : Prop :=
  is_Some (hex_DecodeString (tn_Address n)) /\ net_ParseIP (tn_Ip n) = true /\ valid_port n = true.

Lemma parse_nodes_invalid before bad rest topology :
  Forall valid_node before -> is_Some (hex_DecodeString (tn_Address bad)) ->
  net_ParseIP (tn_Ip bad) && valid_port bad = false ->
  parse_nodes net_ParseIP (before ++ bad :: rest) topology = (∅, None).
Proof.
  intros Hb [address Ha] Hbad. revert topology.
  induction Hb as [|n before [[a Hn] [Hip Hport]] _ IH]; intros topology; cbn [app parse_nodes].
  - rewrite Ha. unfold valid_port in Hbad. destruct (net_ParseIP (tn_Ip bad)); cbn [andb negb] in *; [|by rewrite Wrapf_nil].
    destruct (_ || _); [by rewrite Wrapf_nil|done].
  - rewrite Hn, Hip. unfold valid_port in Hport. cbn [negb]. destruct (_ || _); [done|]. apply IH.
Qed.

(** One peer with an IP address or a port that is not valid takes the whole network
    away: the file is read without an error, with an empty topology, and the update
    closes the connections to all peers. *)
Theorem invalid_peer_disconnects_all contents m vcData before bad rest terms subscriptions old c :
  json_Unmarshal contents = Some m -> VirtualChains m !! sprint_d (VirtualChainId config) = Some vcData ->
  CurrentTopology vcData = before ++ bad :: rest ->
  Forall valid_node before -> is_Some (hex_DecodeString (tn_Address bad)) ->
  net_ParseIP (tn_Ip bad) && valid_port bad = false ->
  parseCommittees (CommitteeEvents vcData) = (terms, None) ->
  parseSubscription (SubscriptionEvents vcData) = (subscriptions, None) ->
  topology_ok c ->
  exists data c', update (parseData json_Unmarshal net_ParseIP config contents) old c = Ok (data, c') /\
    Topology data = ∅ /\ activeConnections c' = ∅.
Proof.
  intros Hm Hvc Htop Hb Ha Hbad Hcommittees Hsubscriptions Hok. unfold parseData, parseTopology.
  rewrite Hm, Hvc, Htop, parse_nodes_invalid, Hcommittees, Hsubscriptions by done.
  destruct (updateTopology_spec c ∅ Hok) as (c' & Hc' & _ & Hactive); [intros k p; by rewrite lookup_empty|].
  unfold update, UpdateTopology, transport_consumer. cbn [snd fst Topology]. rewrite Hc'. eexists _, c'. split_and!; [done..|].
  apply map_eq. intros k. rewrite Hactive, !lookup_empty. by destruct (decide _).
Qed.
End Provider.

(** ** Agreement on the committee

    The order of the addresses is total, so that the committee does not depend on the
    order in which a map or a file gives them. *)

#[local] Instance not_after_antisymm : AntiSymm (=) (fun a b : bytes => after b a = false).
Proof.
  intros a b. unfold after. rewrite (bytes_compare_antisym a b). destruct (bytes_compare a b) eqn:E; cbn; [|done..].
  by apply bytes_compare_eq in E.
Qed.

Lemma after_sorted l : StronglySorted (fun a b : bytes => after b a = false) (SliceStable after l).
Proof.
  apply SliceStable_sorted; unfold after.
  - intros x y. rewrite (bytes_compare_antisym x y). by destruct (bytes_compare x y).
  - intros x y z Hyx Hzy. pose proof (bytes_compare_trans z y x) as Htrans. destruct (bytes_compare z x); [done..|].
    destruct (bytes_compare y x), (bytes_compare z y); naive_solver.
Qed.

Lemma genesis_committee_agrees l l' : l ≡ₚ l' -> getCommitteeFromConfig l = getCommitteeFromConfig l'.
Proof.
  intros Hp. apply (StronglySorted_unique (fun a b : bytes => after b a = false)); [apply after_sorted..|].
  unfold getCommitteeFromConfig. by rewrite !SliceStable_permutation.
Qed.

(** ** Examples *)

Module Example.
Import Transport.Example.

#[export] Instance pkg_errors : PkgErrors := fun err => err.
#[export] Instance pkg_errors_laws : PkgErrorsLaws.
Proof. split; [done|by eexists]. Qed.

(** A file with its events out of order and two of the same time, and one of which the
    second peer has a low port. *)
Definition chain (topology : list topologyNode) : vc :=
  mkVc topology
    [mkCommitteeEvent 20 [go_string "0a"; go_string "0b"]; mkCommitteeEvent 10 [go_string "01"];
     mkCommitteeEvent 20 [go_string "0b"; go_string "0c"]]
    [mkSubscriptionEvent 5 (go_string "active"); mkSubscriptionEvent 30 (go_string "expired")]
    [].
Definition peers : list topologyNode := [mkTopologyNode (go_string "010203") [127] 4400].
Definition low_port : topologyNode := mkTopologyNode (go_string "040506") [127] 80.
Definition unmarshal (contents : bytes) : option mgmt :=
  match contents with
  | [] => None
  | 1 :: _ => Some (mkMgmt 40 {[ go_string "42" := chain peers ]})
  | _ => Some (mkMgmt 40 {[ go_string "42" := chain (peers ++ [low_port]) ]})
  end.
Definition parse_ip (ip : bytes) : bool := (0 <? length ip)%nat.
Definition file_config : FileConfig := mkFileConfig 42 (go_string "/opt/management.json") 1000.
Definition data : VirtualChainManagementData := fst (parseData unmarshal parse_ip file_config [1]).

Lemma management_in_force_witness :
  GetCommittee data 25 = Ok [[12]; [11]] /\ GetSubscriptionStatus data 25 = Ok true /\ GetProtocolVersion data 25 = Ok 1.
Proof.
  destruct (management_in_force unmarshal parse_ip file_config [1] (mkMgmt 40 {[ go_string "42" := chain peers ]}) (chain peers) data 25)
    as (Hc & _ & Hs & _ & _ & v & Hv).
  - reflexivity.
  - vm_compute. reflexivity.
  - vm_compute. reflexivity.
  - destruct (Hc (mkCommitteeEvent 20 [go_string "0b"; go_string "0c"])) as (members & Hd & Hget).
    { eexists [_; _], []. split; [reflexivity|]. left. repeat constructor; cbn; lia. }
    vm_compute in Hd. injection Hd as <-. split; [exact Hget|]. split.
    + apply (Hs (mkSubscriptionEvent 5 (go_string "active"))). eexists [], [_]. split; [reflexivity|]. left. repeat constructor; cbn; lia.
    + rewrite Hv. vm_compute in Hv. injection Hv as <-. reflexivity.
Defined.

Lemma invalid_peer_disconnects_all_witness :
  exists s, update (parseData unmarshal parse_ip file_config [2]) data connections = Ok s /\ activeConnections s.2 = ∅.
Proof.
  destruct (invalid_peer_disconnects_all unmarshal parse_ip file_config [2]
    (mkMgmt 40 {[ go_string "42" := chain (peers ++ [low_port]) ]}) (chain (peers ++ [low_port])) peers low_port []
    (Committees data) (Subscriptions data) data connections) as (d & c & Hupdate & _ & Hactive).
  - reflexivity.
  - vm_compute. reflexivity.
  - reflexivity.
  - repeat constructor. eexists. vm_compute. reflexivity.
  - eexists. vm_compute. reflexivity.
  - vm_compute. reflexivity.
  - vm_compute. reflexivity.
  - vm_compute. reflexivity.
  - intros k. unfold connections. cbn [activeConnections peerTopology nodeAddress].
    rewrite !lookup_singleton_None. split; [done|]. intros ->. discriminate.
  - exists (d, c). split; [exact Hupdate|exact Hactive].
Defined.
End Example.
End Management.
