(* ===== verification/LeanHelix.v ===== *)
(** * The adapters of Lean Helix (services/consensusalgo/leanhelixconsensus)

    The Lean Helix library runs the consensus; these are the parts that the node gives
    it: proposals of blocks and their validation (block_provider.go,
    validate_block_proposal.go, validate_block_commitment.go), what the service does
    with a committed block and with blocks that are synced (service.go), the
    committee, the keys and the messages.  The library is an argument.

    A block pair that comes from outside may have [nil] in every place: it is
    [Gossip.BlockPairFields], and reading through [nil] panics. *)
From stdpp Require Import base gmap list.
From Stdlib Require Import ZArith Lia ZifyBool.
From S2P Require Import Prelude Hash Protocol Digest Encoding TransactionPool TransactionPoolService ConsensusContext BlockStorage Transport Gossip.
Import Gossip.

Module LeanHelix.
Import ConsensusContext.

Inductive lh_error :=
| ErrNilBlocks
| ErrNilProof
| ErrProofType
| ErrProofsDiffer
| ErrBlock (e : block_error)
| ErrTransactionsBlock
| ErrResultsBlock
| ErrBlockHash
| ErrBlockType
| ErrContextCanceled
| ErrRefused
| ErrGenesis
| ErrStorage
| ErrSeed
| ErrSignature (e : signature_error)
| ErrCommittee.

(** Reading through a pointer. *)
Definition deref {E A} (o : option A) : outcome E A := match o with Some a => Ok a | None => Panic end.

Definition tx_header {E} (b : BlockPairFields) : outcome E TransactionsBlockHeader :=
  let! tx := deref (f_TransactionsBlock b) in deref (ftx_Header tx).

(** A block with its parts; the proof is not read through the result. *)
Definition no_proof : BlockProof := mkBlockProof ProofNone [].
Definition tx_block {E} (b : BlockPairFields) : outcome E TransactionsBlockContainer :=
  let! tx := deref (f_TransactionsBlock b) in
  let! header := deref (ftx_Header tx) in
  let! metadata := deref (ftx_Metadata tx) in
  Ok (mkTxBlock header metadata (ftx_SignedTransactions tx) no_proof).
(** The same where the metadata is not read. *)
Definition tx_without_metadata {E} (b : BlockPairFields) : outcome E TransactionsBlockContainer :=
  let! tx := deref (f_TransactionsBlock b) in
  let! header := deref (ftx_Header tx) in
  Ok (mkTxBlock header [] (ftx_SignedTransactions tx) no_proof).
Definition rx_block {E} (b : BlockPairFields) : outcome E ResultsBlockContainer :=
  let! rx := deref (f_ResultsBlock b) in
  let! header := deref (frx_Header rx) in
  Ok (mkRxBlock header (frx_TransactionReceipts rx) (frx_ContractStateDiffs rx) no_proof).

(** ** Blocks of the library (block_provider.go) *)

(** The only implementation of the library's blocks. *)
Record BlockPairWrapper := mkWrapper { blockPair : BlockPairFields }.

Definition Height {E} (b : BlockPairWrapper) : outcome E Z := let! h := tx_header (blockPair b) in Ok (txh_BlockHeight h).

Definition ToLeanHelixBlock (blockPair : option BlockPairFields) : option BlockPairWrapper := mkWrapper <$> blockPair.
Definition FromLeanHelixBlock (lhBlock : option BlockPairWrapper) : option BlockPairFields := blockPair <$> lhBlock.

Section Provider.
Context `{Sha256, Membuffers}.

Definition hash_tx_block {E} (tx : option TransactionsBlockFields) : outcome E bytes :=
  match tx with
  | None => Ok []
  | Some tx => let! h := deref (ftx_Header tx) in Ok (CalcTransactionsBlockHash (Some (mkTxBlock h [] [] no_proof)))
  end.
Definition hash_rx_block {E} (rx : option ResultsBlockFields) : outcome E bytes :=
  match rx with
  | None => Ok []
  | Some rx => let! h := deref (frx_Header rx) in Ok (CalcResultsBlockHash (Some (mkRxBlock h [] [] no_proof)))
  end.

(** What a block after [prevBlock] has to have: its height, the hashes of the previous
    blocks and the previous timestamp. *)
Record prev_values := mkPrev { pv_height : Z; pv_txHash : bytes; pv_rxHash : bytes; pv_timestamp : Z }.

Definition values_after {E} (prevBlock : option BlockPairWrapper) : outcome E prev_values :=
  match prevBlock with
  | None => Ok (mkPrev 1 [] [] 0)
  | Some prev =>
      let! height := Height prev in
      let! txHash := hash_tx_block (f_TransactionsBlock (blockPair prev)) in
      let! rxHash := hash_rx_block (f_ResultsBlock (blockPair prev)) in
      let! header := tx_header (blockPair prev) in
      Ok (mkPrev (u64_add height 1) txHash rxHash (txh_Timestamp header))
  end.

(** A pair of new blocks, and its hash; [None] stands for the results [nil, nil]. *)
Definition RequestNewBlockProposal (consensusContext : service) (blockProposer : bytes) (prevBlock : option BlockPairWrapper)
    : outcome unit (option (BlockPairWrapper * bytes)) :=
  let! prev := values_after prevBlock in
  match RequestNewTransactionsBlock consensusContext
          (mkNewTxInput (pv_height prev) (pv_txHash prev) (pv_timestamp prev) blockProposer) with
  | Panic => Panic
  | Err _ => Ok None
  | Ok tx =>
      match RequestNewResultsBlock consensusContext (mkNewRxInput (pv_height prev) (pv_rxHash prev) tx blockProposer) with
      | Panic => Panic
      | Err _ => Ok None
      | Ok rx => Ok (Some (mkWrapper (fields_of_block (mkBlockPair tx rx)), CalcBlockHash (Some tx) (Some rx)))
      end
  end.

(** ** Validating a commitment (validate_block_commitment.go) *)

Definition of_validator (m : outcome block_error unit) : outcome lh_error unit :=
  match m with Ok u => Ok u | Err e => Err (ErrBlock e) | Panic => Panic end.

Definition blockValidator : Type := option BlockPairFields -> bytes -> outcome lh_error unit.

Definition validateBlockNotNil : blockValidator := fun block _ =>
  match block with
  | Some b =>
      match f_TransactionsBlock b, f_ResultsBlock b with
      | Some _, Some _ => Ok tt
      | _, _ => Err ErrNilBlocks
      end
  | None => Err ErrNilBlocks
  end.

Definition validateTransactionsBlockMerkleRoot : blockValidator := fun block _ =>
  let! b := deref block in let! tx := tx_without_metadata b in of_validator (ValidateTransactionsBlockMerkleRoot tx).
Definition validateTransactionsMetadataHash : blockValidator := fun block _ =>
  let! b := deref block in let! tx := tx_block b in of_validator (ValidateTransactionsBlockMetadataHash tx).
Definition validateReceiptsMerkleRoot : blockValidator := fun block _ =>
  let! b := deref block in let! rx := rx_block b in of_validator (ValidateReceiptsMerkleRoot rx).
Definition validateResultsBlockStateDiffHash : blockValidator := fun block _ =>
  let! b := deref block in let! rx := rx_block b in of_validator (ValidateResultsBlockStateDiffHash rx).
Definition validateBlockHash_Commitment : blockValidator := fun block blockHash =>
  let! b := deref block in
  let! tx := tx_without_metadata b in
  let! rx := rx_block b in
  of_validator (ValidateBlockHash blockHash (Some tx) (Some rx)).

(** The first error makes it false. *)
Fixpoint validate_all (validators : list blockValidator) (block : option BlockPairFields) (blockHash : bytes) : outcome unit bool :=
  match validators with
  | [] => Ok true
  | v :: validators =>
      match v block blockHash with
      | Ok _ => validate_all validators block blockHash
      | Err _ => Ok false
      | Panic => Panic
      end
  end.

Definition commitmentvalidators : list blockValidator :=
  [validateBlockNotNil; validateTransactionsBlockMerkleRoot; validateTransactionsMetadataHash;
   validateReceiptsMerkleRoot; validateResultsBlockStateDiffHash; validateBlockHash_Commitment].

Definition ValidateBlockCommitment (block : option BlockPairWrapper) (blockHash : bytes) : outcome unit bool :=
  validate_all commitmentvalidators (FromLeanHelixBlock block) blockHash.

(** ** Validating a proposal (validate_block_proposal.go) *)

Definition wrap_error {E A} (e : lh_error) (m : outcome E A) : outcome lh_error A :=
  match m with Ok a => Ok a | Err _ => Err e | Panic => Panic end.

Definition ValidateBlockProposal (consensusContext : service) (now : Z) (ctxErr : nat -> bool) (blockProposer : bytes)
    (block : option BlockPairWrapper) (blockHash : bytes) (prevBlock : option BlockPairWrapper) : outcome lh_error unit :=
  let! _ := validateBlockNotNil (FromLeanHelixBlock block) blockHash in
  let! b := deref (FromLeanHelixBlock block) in
  let! prev := values_after prevBlock in
  let! tx := tx_block b in
  let! _ := wrap_error ErrTransactionsBlock
    (ValidateTransactionsBlock consensusContext
       (mkValidateTxInput (pv_height prev) tx (pv_txHash prev) (pv_timestamp prev) blockProposer) now) in
  let! rx := rx_block b in
  let! _ := wrap_error ErrResultsBlock
    (ValidateResultsBlock consensusContext ctxErr
       (mkValidateRxInput (pv_height prev) rx (pv_rxHash prev) tx blockProposer)) in
  wrap_error ErrBlockHash (ValidateBlockHash blockHash (Some tx) (Some rx)).
End Provider.

(** ** The service (service.go) *)

(** The block proofs of orbs-spec: the field of the Lean Helix proof, which panics for a
    proof of another kind, and the builders. *)
Class LeanHelixProofs := {
  proof_LeanHelix : BlockProof -> option bytes;
  build_TransactionsBlockProof : bytes -> bytes -> BlockProof;
  build_ResultsBlockProof : bytes -> bytes -> BlockProof
}.
Class LeanHelixProofsLaws `{LeanHelixProofs} : Prop := {
  proof_LeanHelix_type p : bp_Type p = ProofLeanHelix -> is_Some (proof_LeanHelix p);
  tx_proof_type hash proof : bp_Type (build_TransactionsBlockProof hash proof) = ProofLeanHelix;
  rx_proof_type hash proof : bp_Type (build_ResultsBlockProof hash proof) = ProofLeanHelix;
  tx_proof_content hash proof : proof_LeanHelix (build_TransactionsBlockProof hash proof) = Some proof;
  rx_proof_content hash proof : proof_LeanHelix (build_ResultsBlockProof hash proof) = Some proof
}.

Definition IsTypeLeanHelix (p : BlockProof) : bool := bool_decide (bp_Type p = ProofLeanHelix).

(** The library: its state, the validation of a proof with that of the previous block,
    the update with a block and its proof, and the handler of messages. *)
Record MainLoop (L : Type) := mkMainLoop {
  lib_ValidateBlockConsensus : L -> option BlockPairWrapper -> bytes -> bytes -> bool;
  lib_UpdateState : L -> option BlockPairWrapper -> bytes -> L;
  lib_HandleConsensusMessage : L -> option bytes -> option BlockPairWrapper -> L
}.
Arguments lib_ValidateBlockConsensus {L}.
Arguments lib_UpdateState {L}.
Arguments lib_HandleConsensusMessage {L}.

Record LeanHelixConfig := mkLhConfig {
  ActiveConsensusAlgo_LeanHelix : bool;
  InterNodeSyncAuditBlocksYoungerThan : Z
}.

Definition shouldValidateBlockConsensusWithLeanHelix (mode : BlockStorage.HandleBlockConsensusMode) : bool :=
  match mode with
  | BlockStorage.HANDLE_BLOCK_CONSENSUS_MODE_VERIFY_AND_UPDATE | BlockStorage.HANDLE_BLOCK_CONSENSUS_MODE_VERIFY_ONLY => true
  | BlockStorage.HANDLE_BLOCK_CONSENSUS_MODE_UPDATE_ONLY => false
  end.
Definition shouldUpdateStateInLeanHelix (mode : BlockStorage.HandleBlockConsensusMode) : bool :=
  match mode with
  | BlockStorage.HANDLE_BLOCK_CONSENSUS_MODE_VERIFY_AND_UPDATE | BlockStorage.HANDLE_BLOCK_CONSENSUS_MODE_UPDATE_ONLY => true
  | BlockStorage.HANDLE_BLOCK_CONSENSUS_MODE_VERIFY_ONLY => false
  end.

Section Service.
Context `{Sha256, Membuffers, LeanHelixProofs} {L : Type}.
Variable leanHelix : MainLoop L.
Variable consensusContext : service.
Variable config : LeanHelixConfig.

Definition validLeanHelixBlockPair (blockPair : option BlockPairFields) : outcome lh_error unit :=
  match blockPair with
  | None => Err ErrNilBlocks
  | Some b =>
      match f_TransactionsBlock b, f_ResultsBlock b with
      | Some tx, Some rx =>
          match ftx_BlockProof tx, frx_BlockProof rx with
          | Some txProof, Some rxProof =>
              if negb (IsTypeLeanHelix txProof) then Err ErrProofType
              else if negb (IsTypeLeanHelix rxProof) then Err ErrProofType
              else
                let! p := deref (proof_LeanHelix txProof) in
                let! p' := deref (proof_LeanHelix rxProof) in
                if bool_decide (p <> p') then Err ErrProofsDiffer else Ok tt
          | _, _ => Err ErrNilProof
          end
      | _, _ => Err ErrNilBlocks
      end
  end.

(** [nil] for a previous block that has no proof. *)
Definition prev_proof (prevBlockPair : option BlockPairFields) : outcome lh_error bytes :=
  match prevBlockPair with
  | Some b =>
      match f_TransactionsBlock b with
      | Some tx => match ftx_BlockProof tx with Some p => deref (proof_LeanHelix p) | None => Ok [] end
      | None => Ok []
      end
  | None => Ok []
  end.

Definition ExtractBlockProof (blockPair : option BlockPairFields) : outcome lh_error bytes :=
  match blockPair with
  | Some b =>
      match f_TransactionsBlock b with
      | Some tx =>
          match ftx_BlockProof tx with
          | Some p => if IsTypeLeanHelix p then deref (proof_LeanHelix p) else Err ErrProofType
          | None => Err ErrNilProof
          end
      | None => Err ErrNilProof
      end
  | None => Err ErrNilProof
  end.

Definition validateBlockConsensus (lib : L) (ctxErr : bool) (blockPair prevBlockPair : option BlockPairFields)
    : outcome lh_error unit :=
  if ctxErr then Err ErrContextCanceled
  else
    let! _ := validLeanHelixBlockPair blockPair in
    let! blockProof := ExtractBlockProof blockPair in
    let! prevBlockProof := prev_proof prevBlockPair in
    if lib_ValidateBlockConsensus leanHelix lib (ToLeanHelixBlock blockPair) blockProof prevBlockProof
    then Ok tt else Err ErrRefused.

(** [int64] of a [uint64]. *)
Definition int64 (n : Z) : Z := if n <? 2 ^ 63 then n else n - 2 ^ 64.

(** The request to the consensus context to execute a young block, if one is made; its
    result is ignored.  [now] is [time.Now().UnixNano()]. *)
Definition validateBlockExecutionIfYoung (now : Z) (blockPair prevBlockPair : option BlockPairFields)
    : outcome lh_error (option RequestNewResultsBlockInput) :=
  let! b := deref blockPair in
  let! header := tx_header b in
  if now - InterNodeSyncAuditBlocksYoungerThan config <? int64 (txh_Timestamp header) then
    let! prev := deref prevBlockPair in
    let! _ := tx_header prev in
    let! tx := tx_block b in
    let input := mkNewRxInput (txh_BlockHeight header) (txh_PrevBlockHashPtr header) tx (txh_BlockProposerAddress header) in
    match RequestNewResultsBlock consensusContext input with
    | Panic => Panic
    | _ => Ok (Some input)
    end
  else Ok None.

(** The new state of the library, the request of an execution, and the result. *)
Definition HandleBlockConsensus (lib : L) (now : Z) (ctxErr : bool) (mode : BlockStorage.HandleBlockConsensusMode)
    (isBlockPair : bool) (blockPair prevBlockPair : option BlockPairFields)
    : L * option RequestNewResultsBlockInput * outcome lh_error unit :=
  if negb isBlockPair then (lib, None, Err ErrBlockType)
  else
    let checked :=
      if shouldValidateBlockConsensusWithLeanHelix mode then
        match validateBlockExecutionIfYoung now blockPair prevBlockPair with
        | Ok request => (request, validateBlockConsensus lib ctxErr blockPair prevBlockPair)
        | Err e => (None, Err e)
        | Panic => (None, Panic)
        end
      else (None, Ok tt) in
    match checked.2 with
    | Err e => (lib, checked.1, Err e)
    | Panic => (lib, checked.1, Panic)
    | Ok _ =>
        if shouldUpdateStateInLeanHelix mode && ActiveConsensusAlgo_LeanHelix config then
          match blockPair with
          | None => (lib_UpdateState leanHelix lib None [], checked.1, Ok tt)
          | Some _ =>
              match ExtractBlockProof blockPair with
              | Ok proof => (lib_UpdateState leanHelix lib (ToLeanHelixBlock blockPair) proof, checked.1, Ok tt)
              | Err e => (lib, checked.1, Err e)
              | Panic => (lib, checked.1, Panic)
              end
          end
        else (lib, checked.1, Ok tt)
    end.

Definition HandleLeanHelixMessage (lib : L) (message : LeanHelixMessage) : L :=
  lib_HandleConsensusMessage leanHelix lib (lh_Content message) (ToLeanHelixBlock (lh_BlockPair message)).

(** The storage: what it keeps after a commit, and whether it returns without an error. *)
Context {B : Type}.
Variable CommitBlock : B -> BlockPairFields -> B * bool.

Definition saveToBlockStorage (storage : B) (b : BlockPairFields) : B * outcome lh_error unit :=
  match tx_header (E := lh_error) b with
  | Ok header =>
      if txh_BlockHeight header =? 0 then (storage, Err ErrGenesis)
      else let '(storage, ok) := CommitBlock storage b in (storage, if ok then Ok tt else Err ErrStorage)
  | _ => (storage, Panic)
  end.

Definition CreateResultsBlockProof (b : BlockPairFields) (blockProof : bytes) : outcome lh_error BlockProof :=
  let! txHash := hash_tx_block (f_TransactionsBlock b) in Ok (build_ResultsBlockProof txHash blockProof).
Definition CreateTransactionBlockProof (b : BlockPairFields) (blockProof : bytes) : outcome lh_error BlockProof :=
  let! rxHash := hash_rx_block (f_ResultsBlock b) in Ok (build_TransactionsBlockProof rxHash blockProof).

(** The pair with the two proofs set. *)
Definition with_proofs (b : BlockPairFields) (blockProof : bytes) : outcome lh_error BlockPairFields :=
  let! txProof := CreateTransactionBlockProof b blockProof in
  let! tx := deref (f_TransactionsBlock b) in
  let! rxProof := CreateResultsBlockProof b blockProof in
  let! rx := deref (f_ResultsBlock b) in
  Ok (mkPairFields
        (Some (mkTxFields (ftx_Header tx) (ftx_Metadata tx) (ftx_SignedTransactions tx) (Some txProof)))
        (Some (mkRxFields (frx_Header rx) (frx_TransactionReceipts rx) (frx_ContractStateDiffs rx) (Some rxProof)))).

Definition onCommit (storage : B) (block : option BlockPairWrapper) (blockProof : bytes) : B * outcome lh_error unit :=
  match (let! b := deref block in with_proofs (blockPair b) blockProof) with
  | Ok b => saveToBlockStorage storage b
  | Err e => (storage, Err e)
  | Panic => (storage, Panic)
  end.
End Service.

(** ** Committee, keys and messages *)

(** membership.go: member ids are node addresses. *)
Definition RequestOrderedCommittee (consensusContext : service) (blockHeight now : Z) : outcome lh_error (list bytes) :=
  wrap_error ErrCommittee (RequestOrderingCommittee consensusContext blockHeight now).

(** instance_id.go: two bytes of the network type and four of the chain, after two zeros. *)
Definition CalcInstanceId (networkType id : Z) : Z :=
  le_word ([0; 0] ++ le_bytes 2 (wrap 16 networkType) ++ le_bytes 4 (wrap 32 id)).

Section Keys.
Context `{Sha256} `{NodeKeys}.

(** A signature that fails is logged and is [nil]. *)
Definition SignConsensusMessage (Sign : bytes -> option bytes) (content : bytes) : bytes := default [] (Sign content).
Definition SignRandomSeed (Sign : bytes -> option bytes) (content : bytes) : bytes := default [] (Sign content).

Definition VerifyConsensusMessage (content memberId signature : bytes) : outcome signature_error unit :=
  Encoding.VerifyNodeSignature memberId content signature.

(** The shares are not used. *)
Definition AggregateRandomSeed (blockHeight : Z) : bytes := CalcSha256 [le_bytes 8 (wrap 64 blockHeight)].

(** Without a member id the signature is the aggregated one. *)
Definition VerifyRandomSeed (blockHeight : Z) (content memberId signature : bytes) : outcome lh_error unit :=
  if (length memberId =? 0)%nat then
    if bool_decide (signature = AggregateRandomSeed blockHeight) then Ok tt else Err ErrSeed
  else
    match Encoding.VerifyNodeSignature memberId content signature with
    | Ok _ => Ok tt
    | Err e => Err (ErrSignature e)
    | Panic => Panic
    end.
End Keys.

(** communication.go *)
Section Communication.
Context `{Membuffers, GossipMembuffers}.
Definition SendConsensusMessage (gossip : Config) (targets : list bytes) (content : option bytes) (block : option BlockPairWrapper)
    : outcome codec_error Transport.TransportData :=
  SendLeanHelixMessage gossip Transport.RECIPIENT_LIST_MODE_LIST targets (mkLeanHelix content (FromLeanHelixBlock block)).
End Communication.

(** ** Lemmas *)

Section Blocks.
Context `{Sha256, Membuffers}.

Lemma values_after_any {E E'} prevBlock v : values_after (E := E) prevBlock = Ok v -> values_after (E := E') prevBlock = Ok v.
Proof.
  unfold values_after, Height, tx_header, hash_tx_block, hash_rx_block. destruct prevBlock as [[[[[h ? ? ?]|] [[h' ? ? ?]|]]]|]; cbn;
    try (destruct h as [h|]); try (destruct h' as [h'|]); cbn; congruence.
Qed.

Definition without_tx_proof (tx : TransactionsBlockContainer) : TransactionsBlockContainer :=
  mkTxBlock (txb_Header tx) (txb_Metadata tx) (txb_SignedTransactions tx) no_proof.
Definition without_rx_proof (rx : ResultsBlockContainer) : ResultsBlockContainer :=
  mkRxBlock (rxb_Header rx) (rxb_TransactionReceipts rx) (rxb_ContractStateDiffs rx) no_proof.

Lemma tx_block_fields {E} b : tx_block (E := E) (fields_of_block b) = Ok (without_tx_proof (bpc_TransactionsBlock b)).
Proof. done. Qed.
Lemma rx_block_fields {E} b : rx_block (E := E) (fields_of_block b) = Ok (without_rx_proof (bpc_ResultsBlock b)).
Proof. done. Qed.

(** What a commitment to a block means. *)
Definition committed (b : BlockPairContainer) (blockHash : bytes) : Prop :=
  let tx := bpc_TransactionsBlock b in
  let rx := bpc_ResultsBlock b in
  txh_TransactionsMerkleRootHash (txb_Header tx) = CalcTransactionsMerkleRoot (txb_SignedTransactions tx) /\
  txh_MetadataHash (txb_Header tx) = CalcTransactionMetaDataHash (txb_Metadata tx) /\
  rxh_ReceiptsMerkleRootHash (rxb_Header rx) = CalcReceiptsMerkleRoot (rxb_TransactionReceipts rx) /\
  rxh_StateDiffHash (rxb_Header rx) = CalcStateDiffHash (rxb_ContractStateDiffs rx) /\
  blockHash = CalcBlockHash (Some tx) (Some rx).

Lemma ValidateBlockCommitment_spec b blockHash :
  exists r, ValidateBlockCommitment (Some (mkWrapper (fields_of_block b))) blockHash = Ok r /\ (r = true <-> committed b blockHash).
Proof.
  unfold ValidateBlockCommitment, commitmentvalidators, committed. cbn.
  unfold ValidateTransactionsBlockMerkleRoot, ValidateTransactionsBlockMetadataHash, ValidateReceiptsMerkleRoot,
    ValidateResultsBlockStateDiffHash. cbn.
  repeat (case_bool_decide; cbn; [|eexists; split; [reflexivity|]; split; [done|tauto]]).
  eexists. split; [reflexivity|]. tauto.
Qed.

(** Proofs are not read. *)
Lemma ValidateTransactionsBlock_proof s height tx hash ts proposer now :
  ValidateTransactionsBlock s (mkValidateTxInput height (without_tx_proof tx) hash ts proposer) now
  = ValidateTransactionsBlock s (mkValidateTxInput height tx hash ts proposer) now.
Proof. done. Qed.

Lemma ValidateResultsBlock_proof s ctxErr height rx hash tx proposer :
  ValidateResultsBlock s ctxErr (mkValidateRxInput height (without_rx_proof rx) hash (without_tx_proof tx) proposer)
  = ValidateResultsBlock s ctxErr (mkValidateRxInput height rx hash tx proposer).
Proof. done. Qed.

(** What a proposal is made of. *)
Lemma proposal_inv leader proposer prevBlock block hash pv :
  values_after (E := unit) prevBlock = Ok pv ->
  RequestNewBlockProposal leader proposer prevBlock = Ok (Some (block, hash)) ->
  exists tx rx,
    RequestNewTransactionsBlock leader (mkNewTxInput (pv_height pv) (pv_txHash pv) (pv_timestamp pv) proposer) = Ok tx /\
    RequestNewResultsBlock leader (mkNewRxInput (pv_height pv) (pv_rxHash pv) tx proposer) = Ok rx /\
    block = mkWrapper (fields_of_block (mkBlockPair tx rx)) /\ hash = CalcBlockHash (Some tx) (Some rx).
Proof.
  intros Hpv. unfold RequestNewBlockProposal. rewrite Hpv. cbn [bindO].
  destruct (RequestNewTransactionsBlock _ _) as [tx| |] eqn:Htx; [|done..].
  destruct (RequestNewResultsBlock _ _) as [rx| |] eqn:Hrx; [|done..]. intros [= <- <-]. by exists tx, rx.
Qed.

Lemma new_block_header s input tx :
  RequestNewTransactionsBlock s input = Ok tx ->
  txh_BlockHeight (txb_Header tx) = ntx_CurrentBlockHeight input /\
  txh_BlockProposerAddress (txb_Header tx) = ntx_BlockProposerAddress input.
Proof.
  unfold RequestNewTransactionsBlock, createTransactionsBlock. intros ([txs ts] & _ & Htx)%bindO_Ok.
  destruct (ts =? 0); [done|]. by injection Htx as <-.
Qed.

Lemma proposal_committed leader proposer prevBlock block hash pv :
  values_after (E := unit) prevBlock = Ok pv ->
  RequestNewBlockProposal leader proposer prevBlock = Ok (Some (block, hash)) ->
  exists b, block = mkWrapper (fields_of_block b) /\ committed b hash.
Proof.
  intros Hpv (tx & rx & Htx & Hrx & -> & ->)%(proposal_inv _ _ _ _ _ _ Hpv). eexists. split; [reflexivity|].
  unfold RequestNewTransactionsBlock, createTransactionsBlock in Htx.
  apply bindO_Ok in Htx as ([txs ts] & _ & Htx). destruct (ts =? 0); [done|]. injection Htx as <-.
  unfold RequestNewResultsBlock, createResultsBlock in Hrx. apply bindO_Ok in Hrx as ([receipts diffs] & _ & Hrx).
  cbn in Hrx. destruct (_ =? 0); [done|]. apply bindO_Ok in Hrx as (root & _ & [= <-]). by split_and!.
Qed.

(** ** Properties *)

(** C11. Nodes that run Lean Helix accept the proposals of a leader: the block that the
    leader's node makes after the previous block, for which the validator's pool, its
    execution and its state agree with the leader's, passes the validation of the
    proposal on the validator if its time is in the validator's window and no client
    sent a trigger; and on every node it passes the validation of a commitment, with its
    hash and with no other. *)
Theorem proposal_accepted leader validator proposer prevBlock block hash pv now txs ts :
  same_chain (config leader) (config validator) ->
  PoolAgreement (transactionPool leader) (transactionPool validator) ->
  SameExecution leader validator ->
  values_after (E := unit) prevBlock = Ok pv ->
  fetchTransactions leader (pv_height pv) (pv_timestamp pv) (ConsensusContextMaximumTransactionsInBlock (config leader)) = Ok (txs, ts) ->
  isValidBlockTimestamp ts (pv_timestamp pv) (wrap 64 now)
    (wrap 64 (ConsensusContextSystemTimestampAllowedJitter (config validator))) = Ok tt ->
  no_trigger (pooled_checked (config leader) txs) = true ->
  RequestNewBlockProposal leader proposer prevBlock = Ok (Some (block, hash)) ->
  ValidateBlockProposal validator now (fun _ => false) proposer (Some block) hash prevBlock = Ok tt /\
  forall hash', ValidateBlockCommitment (Some block) hash' = Ok (bool_decide (hash' = hash)).
Proof.
  intros Hsame Hpool Hexec Hpv Hfetch Htime Htrigger Hnew. split.
  - destruct (proposal_inv _ _ _ _ _ _ Hpv Hnew) as (tx & rx & Htx & Hrx & -> & ->).
    assert (ts <> 0) as Hts.
    { intros ->. unfold RequestNewTransactionsBlock, createTransactionsBlock in Htx. cbn in Htx. by rewrite Hfetch in Htx. }
    destruct (created_transactions_block_accepted leader validator
      (mkNewTxInput (pv_height pv) (pv_txHash pv) (pv_timestamp pv) proposer) now txs ts Hsame Hpool Hfetch Hts) as (tx' & Htx' & Hvalid).
    assert (tx' = tx) as -> by congruence.
    unfold ValidateBlockProposal. cbn [FromLeanHelixBlock fmap option_fmap option_map blockPair deref bindO].
    rewrite (values_after_any prevBlock pv Hpv). cbn [validateBlockNotNil f_TransactionsBlock f_ResultsBlock fields_of_block bindO].
    rewrite tx_block_fields, rx_block_fields. cbn [bindO bpc_TransactionsBlock bpc_ResultsBlock].
    rewrite ValidateTransactionsBlock_proof, ValidateResultsBlock_proof.
    replace (ValidateTransactionsBlock validator _ now) with (@Ok context_error unit tt) by (symmetry; by apply Hvalid).
    cbn [wrap_error bindO]. destruct (new_block_header _ _ _ Htx) as [Hheight Hproposer].
    rewrite (created_results_block_accepted leader validator (mkNewRxInput (pv_height pv) (pv_rxHash pv) tx proposer) rx);
      [|done..].
    cbn [wrap_error bindO]. unfold ValidateBlockHash. by rewrite bool_decide_true.
  - destruct (proposal_committed _ _ _ _ _ _ Hpv Hnew) as (b & -> & Hb). intros hash'.
    destruct (ValidateBlockCommitment_spec b hash') as (r & -> & Hr). f_equal. unfold committed in *.
    case_bool_decide as Heq; destruct r; [done| |exfalso|done].
    + subst hash'. by apply Hr.
    + apply Heq. destruct Hb as (_ & _ & _ & _ & ->), Hr as [Hr _]. by destruct (Hr eq_refl) as (_ & _ & _ & _ & ->).
Qed.
End Blocks.

Section Committed.
Context `{Sha256, Membuffers} `{LeanHelixProofs} `{!LeanHelixProofsLaws} {L B : Type}.
Variable leanHelix : MainLoop L.
Variable consensusContext : service.
Variable config : LeanHelixConfig.
Variable CommitBlock : B -> BlockPairFields -> B * bool.

(** The block with the proofs of its commit. *)
Definition proven (b : BlockPairContainer) (blockProof : bytes) : BlockPairContainer :=
  let tx := bpc_TransactionsBlock b in
  let rx := bpc_ResultsBlock b in
  mkBlockPair
    (mkTxBlock (txb_Header tx) (txb_Metadata tx) (txb_SignedTransactions tx)
       (build_TransactionsBlockProof (CalcResultsBlockHash (Some rx)) blockProof))
    (mkRxBlock (rxb_Header rx) (rxb_TransactionReceipts rx) (rxb_ContractStateDiffs rx)
       (build_ResultsBlockProof (CalcTransactionsBlockHash (Some tx)) blockProof)).

Lemma with_proofs_proven b blockProof : with_proofs (fields_of_block b) blockProof = Ok (fields_of_block (proven b blockProof)).
Proof. done. Qed.

Lemma ExtractBlockProof_proven b blockProof : ExtractBlockProof (Some (fields_of_block (proven b blockProof))) = Ok blockProof.
Proof. unfold ExtractBlockProof, IsTypeLeanHelix. cbn. rewrite tx_proof_type. cbn. by rewrite tx_proof_content. Qed.

Lemma proven_valid b blockProof : validLeanHelixBlockPair (Some (fields_of_block (proven b blockProof))) = Ok tt.
Proof.
  unfold validLeanHelixBlockPair, IsTypeLeanHelix. cbn [fields_of_block proven f_TransactionsBlock f_ResultsBlock ftx_BlockProof
    frx_BlockProof bpc_TransactionsBlock bpc_ResultsBlock txb_BlockProof rxb_BlockProof].
  rewrite tx_proof_type, rx_proof_type, bool_decide_true by done. cbn [negb].
  rewrite tx_proof_content, rx_proof_content. cbn [deref bindO]. rewrite bool_decide_false; [done|]. intros Hne. by apply Hne.
Qed.


(** Blocks from the network are executed before their proof is looked at: a block whose
    time is after the audit threshold - anyone can send one that claims a later time, with
    any proof - is executed by the consensus context and then refused; and a node that has
    no blocks yet panics on it. *)
Theorem unverified_block_executed lib now ctxErr b prevBlock :
  let tx := bpc_TransactionsBlock b in
  let header := txb_Header tx in
  let input := mkNewRxInput (txh_BlockHeight header) (txh_PrevBlockHashPtr header) (without_tx_proof tx) (txh_BlockProposerAddress header) in
  let handle := HandleBlockConsensus leanHelix consensusContext config lib now ctxErr
    BlockStorage.HANDLE_BLOCK_CONSENSUS_MODE_VERIFY_AND_UPDATE true (Some (fields_of_block b)) in
  now - InterNodeSyncAuditBlocksYoungerThan config < int64 (txh_Timestamp header) ->
  RequestNewResultsBlock consensusContext input <> Panic ->
  bp_Type (txb_BlockProof tx) <> ProofLeanHelix ->
  snd (handle None) = Panic /\
  exists e, handle (Some (fields_of_block prevBlock)) = (lib, Some input, Err e).
Proof.
  intros tx header input handle Hyoung Hrun Hproof. unfold handle, HandleBlockConsensus.
  cbn [negb shouldValidateBlockConsensusWithLeanHelix].
  unfold validateBlockExecutionIfYoung. cbn [deref bindO tx_header fields_of_block f_TransactionsBlock ftx_Header].
  fold tx. fold header.
  lia_if. split; [done|]. cbn [deref bindO tx_block f_TransactionsBlock ftx_Header ftx_Metadata ftx_SignedTransactions tx_header].
  rewrite tx_block_fields. cbn [bindO]. fold tx header input.
  assert (exists e, validateBlockConsensus leanHelix lib ctxErr (Some (fields_of_block b)) (Some (fields_of_block prevBlock)) = Err e)
    as [e He].
  { unfold validateBlockConsensus. destruct ctxErr; [by eexists|]. unfold validLeanHelixBlockPair, IsTypeLeanHelix.
    cbn [fields_of_block f_TransactionsBlock f_ResultsBlock ftx_BlockProof frx_BlockProof]. fold tx.
    rewrite bool_decide_false by done. by eexists. }
  exists e. destruct (RequestNewResultsBlock consensusContext input); [| |congruence]; cbn [fst snd]; by rewrite He.
Qed.
End Committed.

(** ** Instances of the library *)

Lemma le_word_app a b : le_word (a ++ b) = le_word a + 256 ^ Z.of_nat (length a) * le_word b.
Proof.
  induction a as [|x a IH]; [cbn; lia|]. cbn [app le_word length]. rewrite IH, Nat2Z.inj_succ, Z.pow_succ_r by lia. lia.
Qed.

(** Chains and networks have instances of their own. *)
Lemma CalcInstanceId_inj networkType id networkType' id' :
  0 <= networkType < 2 ^ 16 -> 0 <= networkType' < 2 ^ 16 -> 0 <= id < 2 ^ 32 -> 0 <= id' < 2 ^ 32 ->
  CalcInstanceId networkType id = CalcInstanceId networkType' id' -> networkType = networkType' /\ id = id'.
Proof.
  intros Hn Hn' Hi Hi'. unfold CalcInstanceId. rewrite !wrap_small by done.
  rewrite !le_word_app, !le_bytes_length, !le_word_bytes by (cbn; lia). cbn. lia.
Qed.

(** ** Examples *)

Section Witness.
#[local] Existing Instance plain_membuffers.
#[local] Existing Instance all_valid_vm.
#[local] Existing Instance any_signature.
#[local] Existing Instance plain_hash'.

(** A chain of one block. *)
Definition block1 : BlockPairContainer :=
  mkBlockPair (mkTxBlock (mkTxHeader 1 42 1 [] 10 [] [] 0 [9]) [] [] no_proof)
    (mkRxBlock (mkRxHeader 1 42 1 [] 10 [] [] [] [] 0 0 [9]) [] [] no_proof).
Definition prev1 : option BlockPairWrapper := Some (mkWrapper (fields_of_block block1)).
Definition values1 : prev_values := match values_after (E := unit) prev1 with Ok v => v | _ => mkPrev 0 [] [] 0 end.
Definition proposal1 : BlockPairWrapper * bytes :=
  match RequestNewBlockProposal leader1 [9] prev1 with Ok (Some p) => p | _ => (mkWrapper (fields_of_block block1), []) end.

Lemma proposal_accepted_witness :
  ValidateBlockProposal validator1 12 (fun _ => false) [9] (Some proposal1.1) proposal1.2 prev1 = Ok tt /\
  forall hash', ValidateBlockCommitment (Some proposal1.1) hash' = Ok (bool_decide (hash' = proposal1.2)).
Proof.
  apply (proposal_accepted leader1 validator1 [9] prev1 proposal1.1 proposal1.2 values1 12 [tx_at 9] 11).
  - split_and!; reflexivity.
  - apply (pool_of_agreement _ _ _ _ _ _ _ (fun _ _ _ => TRANSACTION_STATUS_PRE_ORDER_VALID)); [done| |done].
    by split.
  - by split.
  - reflexivity.
  - vm_compute. reflexivity.
  - vm_compute. reflexivity.
  - vm_compute. reflexivity.
  - vm_compute. reflexivity.
Defined.

#[local] Instance proofs : LeanHelixProofs := {
  proof_LeanHelix p := match bp_Type p with ProofLeanHelix => Some (bp_Raw p) | _ => None end;
  build_TransactionsBlockProof _ proof := mkBlockProof ProofLeanHelix proof;
  build_ResultsBlockProof _ proof := mkBlockProof ProofLeanHelix proof
}.
#[local] Instance proofs_laws : LeanHelixProofsLaws.
Proof. split; cbn; [|done..]. intros p ->. by eexists. Qed.

(** A library that keeps the proofs and accepts those that begin with 7. *)
Definition library : MainLoop (list bytes) :=
  mkMainLoop _ (fun _ _ proof _ => bool_decide (head proof = Some 7)) (fun l _ proof => proof :: l) (fun l _ _ => l).
Definition commit_block (storage : list BlockPairFields) (b : BlockPairFields) : list BlockPairFields * bool := (b :: storage, true).


(** A block that says it is of the year 2262. *)
Definition late_block : BlockPairContainer :=
  mkBlockPair (mkTxBlock (mkTxHeader 1 42 1 [] (2 ^ 63 - 1) [] [] 0 [9]) [] [] no_proof)
    (mkRxBlock (mkRxHeader 1 42 1 [] 10 [] [] [] [] 0 0 [9]) [] [] no_proof).

Lemma unverified_block_executed_witness :
  snd (HandleBlockConsensus library validator1 (mkLhConfig true 0) [] 100 false
    BlockStorage.HANDLE_BLOCK_CONSENSUS_MODE_VERIFY_AND_UPDATE true (Some (fields_of_block late_block)) None) = Panic.
Proof.
  refine (proj1 (unverified_block_executed library validator1 (mkLhConfig true 0) [] 100 false late_block block1 _ _ _)).
  - vm_compute. reflexivity.
  - vm_compute. discriminate.
  - vm_compute. discriminate.
Defined.
End Witness.
End LeanHelix.
