(* ===== verification/GoStd.v ===== *)
(** * What the node uses of Go's standard library

    Strings and paths ([strings], [path/filepath]), durations ([time.ParseDuration]),
    dates ([time.Time.Format] of RFC 3339) and the floating point numbers of decoded JSON.
    A Go string is a [string] of bytes here; [go_string] gives its bytes.  Floating point
    numbers are the binary64 numbers of the Standard Library's [SpecFloat], on which
    multiplication and division round as the hardware does. *)
From stdpp Require Import base strings list.
From Stdlib Require Import ZArith Lia ZifyBool SpecFloat Ascii.
From S2P Require Import Prelude Encoding.

Module GoStd.
Open Scope string_scope.
Open Scope Z_scope.

(** ** Strings *)

Definition code (c : ascii) : Z := Z.of_N (N_of_ascii c).
Definition char (n : Z) : ascii := ascii_of_N (Z.to_N n).

Definition bytes_string (b : bytes) : string := String.string_of_list_ascii (map char b).

Fixpoint map_string (f : ascii -> ascii) (s : string) : string :=
  match s with EmptyString => EmptyString | String c s => String (f c) (map_string f s) end.

Fixpoint all_chars (p : ascii -> bool) (s : string) : bool :=
  match s with EmptyString => true | String c s => p c && all_chars p s end.

(** [strings.Replace(s, old, new, -1)] for characters. *)
Definition Replace (old new : ascii) (s : string) : string :=
  map_string (fun c => if Ascii.eqb c old then new else c) s.

Definition upper (c : ascii) : ascii :=
  if (97 <=? code c) && (code c <=? 122) then char (code c - 32) else c.

(** [strings.ToUpper]: letter by letter when the string is ASCII, else by the tables of
    package unicode, which are an argument. *)
Definition ToUpper (unicode_ToUpper : string -> string) (s : string) : string :=
  if all_chars (fun c => code c <? 128) s then map_string upper s else unicode_ToUpper s.

Definition is_digit (c : ascii) : bool := (48 <=? code c) && (code c <=? 57).

Fixpoint HasPrefix (s prefix : string) : bool :=
  match prefix, s with
  | EmptyString, _ => true
  | String p prefix, String c s => Ascii.eqb p c && HasPrefix s prefix
  | _, _ => false
  end.

(** [strings.Split(s, sep)] for a separator of one character: never empty. *)
Fixpoint Split (sep : ascii) (s : string) : list string :=
  match s with
  | EmptyString => [EmptyString]
  | String c s =>
      if Ascii.eqb c sep then EmptyString :: Split sep s
      else match Split sep s with
           | w :: ws => String c w :: ws
           | [] => [String c EmptyString]
           end
  end.

Fixpoint Join (sep : string) (ws : list string) : string :=
  match ws with
  | [] => ""
  | [w] => w
  | w :: ws => (w ++ sep ++ Join sep ws)%string
  end.

(** ** Paths *)

(** The elements of a path as [Clean] keeps them, the last one first: a dot is dropped,
    a double dot takes the element before it away. *)
Definition clean_element (rooted : bool) (out : list string) (w : string) : list string :=
  if String.eqb w "" || String.eqb w "." then out
  else if String.eqb w ".." then
    match out with
    | x :: out' => if String.eqb x ".." then w :: out else out'
    | [] => if rooted then [] else [w]
    end
  else w :: out.

Definition rooted (path : string) : bool := HasPrefix path "/".

Definition path_Clean (path : string) : string :=
  let words := rev (foldl (clean_element (rooted path)) [] (Split "/" path)) in
  if rooted path then ("/" ++ Join "/" words)%string
  else match words with [] => "." | _ => Join "/" words end.

(** Of elements that are all empty the result is empty. *)
Fixpoint path_Join (elem : list string) : string :=
  match elem with
  | [] => ""
  | e :: rest => if String.eqb e "" then path_Join rest else path_Clean (Join "/" elem)
  end.

(** ** Floating point numbers *)

Definition prec : Z := 53.
Definition emax : Z := 1024.

Definition float64_of (z : Z) : spec_float := binary_normalize prec emax z 0 false.
Definition float_mul : spec_float -> spec_float -> spec_float := SFmul prec emax.
Definition float_div : spec_float -> spec_float -> spec_float := SFdiv prec emax.

(** [m * 2^e] rounded to an integer, to even on a tie. *)
Definition round_even (m e : Z) : Z :=
  if 0 <=? e then m * 2 ^ e
  else
    let d := 2 ^ (- e) in
    let q := m / d in
    let r := m mod d in
    if (d <? 2 * r) || ((2 * r =? d) && Z.odd q) then q + 1 else q.

(** The integer that [fmt.Sprintf] of [%.0f] shows; none for infinities and NaN. *)
Definition float_round (f : spec_float) : option Z :=
  match f with
  | S754_zero _ => Some 0
  | S754_finite s m e => let n := round_even (Zpos m) e in Some (if s then - n else n)
  | _ => None
  end.

(** [int64(f)] truncates towards zero; what it gives out of range is not used here. *)
Definition float_truncate (f : spec_float) : Z :=
  match f with
  | S754_finite s m e =>
      let n := if 0 <=? e then Zpos m * 2 ^ e else Zpos m / 2 ^ (- e) in if s then - n else n
  | _ => 0
  end.

(** ** Durations (time.ParseDuration) *)

Definition Nanosecond : Z := 1.
Definition Microsecond : Z := 1000.
Definition Millisecond : Z := 1000000.
Definition Second : Z := 1000000000.
Definition Minute : Z := 60 * Second.
Definition Hour : Z := 60 * Minute.

Definition max_int64 : Z := 2 ^ 63 - 1.
Definition is_int64 (z : Z) : Prop := - 2 ^ 63 <= z < 2 ^ 63.

(** The micro sign and the Greek letter mu in UTF-8. *)
Definition micro_sign : string := bytes_string [194; 181].
Definition greek_mu : string := bytes_string [206; 188].

Definition unitMap (u : string) : option Z :=
  if String.eqb u "ns" then Some Nanosecond
  else if String.eqb u "us" then Some Microsecond
  else if String.eqb u (micro_sign ++ "s")%string then Some Microsecond
  else if String.eqb u (greek_mu ++ "s")%string then Some Microsecond
  else if String.eqb u "ms" then Some Millisecond
  else if String.eqb u "s" then Some Second
  else if String.eqb u "m" then Some Minute
  else if String.eqb u "h" then Some Hour
  else None.

(** The number in front, and the rest; none on overflow. *)
Fixpoint leadingInt (x : Z) (s : string) : option (Z * string) :=
  match s with
  | String c rest =>
      if is_digit c then
        if max_int64 / 10 <? x then None
        else
          let x := x * 10 + (code c - 48) in
          if max_int64 <? x then None else leadingInt x rest
      else Some (x, s)
  | EmptyString => Some (x, s)
  end.

(** Digits behind the point that overflow are dropped. *)
Fixpoint leadingFraction (x : Z) (scale : spec_float) (overflow : bool) (s : string) : Z * spec_float * string :=
  match s with
  | String c rest =>
      if is_digit c then
        if overflow || (max_int64 / 10 <? x) then leadingFraction x scale true rest
        else
          let y := x * 10 + (code c - 48) in
          if max_int64 <? y then leadingFraction x scale true rest
          else leadingFraction y (float_mul scale (float64_of 10)) false rest
      else (x, scale, s)
  | EmptyString => (x, scale, s)
  end.

(** The unit: all characters up to a point or a digit. *)
Fixpoint leadingUnit (s : string) : string * string :=
  match s with
  | String c rest =>
      if Ascii.eqb c "." || is_digit c then ("", s)
      else let '(u, rest) := leadingUnit rest in (String c u, rest)
  | EmptyString => ("", s)
  end.

Definition starts_number (s : string) : bool :=
  match s with String c _ => Ascii.eqb c "." || is_digit c | EmptyString => false end.

(** One number with its unit, and the rest. *)
Definition parse_term (s : string) : option (Z * string) :=
  if negb (starts_number s) then None
  else
    match leadingInt 0 s with
    | None => None
    | Some (v, s1) =>
        let pre := negb (String.length s1 =? String.length s)%nat in
        let '(f, scale, s2, post) :=
          match s1 with
          | String "." s1' =>
              let '(f, scale, s2) := leadingFraction 0 (float64_of 1) false s1' in
              (f, scale, s2, negb (String.length s2 =? String.length s1')%nat)
          | _ => (0, float64_of 1, s1, false)
          end in
        if negb pre && negb post then None
        else
          let '(u, s3) := leadingUnit s2 in
          if String.eqb u "" then None
          else
            match unitMap u with
            | None => None
            | Some unit =>
                if max_int64 / unit <? v then None
                else
                  let v := v * unit in
                  let v :=
                    if 0 <? f
                    then v + float_truncate (float_mul (float64_of f) (float_div (float64_of unit) scale))
                    else v in
                  if max_int64 <? v then None else Some (v, s3)
            end
    end.

Fixpoint parse_terms (fuel : nat) (d : Z) (s : string) : option Z :=
  if String.eqb s "" then Some d
  else
    match fuel with
    | O => None
    | S fuel =>
        match parse_term s with
        | None => None
        | Some (v, rest) =>
            let d := d + v in
            if max_int64 <? d then None else parse_terms fuel d rest
        end
    end.

(** A term takes at least one character, so the length of the string is enough fuel. *)
Definition ParseDuration (s : string) : option Z :=
  let '(neg, s) :=
    match s with
    | String "-" rest => (true, rest)
    | String "+" rest => (false, rest)
    | _ => (false, s)
    end in
  if String.eqb s "0" then Some 0
  else if String.eqb s "" then None
  else
    match parse_terms (String.length s) 0 s with
    | Some d => Some (if neg : bool then - d else d)
    | None => None
    end.

(** ** The fuel of [ParseDuration] is enough *)

Lemma leadingInt_length x s v rest : leadingInt x s = Some (v, rest) -> (String.length rest <= String.length s)%nat.
Proof.
  revert x. induction s as [|c s IH]; cbn [leadingInt]; intros x; [intros [= _ <-]; done|].
  destruct (is_digit c); [|intros [= _ <-]; done]. destruct (max_int64 / 10 <? x); [done|].
  cbn zeta. destruct (max_int64 <? _); [done|]. intros ?%IH. cbn. lia.
Qed.

Lemma leadingFraction_length x scale o s f sc rest :
  leadingFraction x scale o s = (f, sc, rest) -> (String.length rest <= String.length s)%nat.
Proof.
  revert x scale o. induction s as [|c s IH]; cbn [leadingFraction]; intros x scale o; [intros [= _ _ <-]; done|].
  destruct (is_digit c); [|intros [= _ _ <-]; done].
  destruct (o || _); [intros ?%IH; cbn; lia|]. cbn zeta. destruct (max_int64 <? _); intros ?%IH; cbn; lia.
Qed.

Lemma leadingUnit_length s u rest :
  leadingUnit s = (u, rest) -> (String.length u + String.length rest = String.length s)%nat.
Proof.
  revert u rest. induction s as [|c s IH]; cbn [leadingUnit]; intros u rest; [by intros [= <- <-]|].
  destruct (Ascii.eqb c "." || is_digit c); [by intros [= <- <-]|].
  destruct (leadingUnit s) as [u' rest'] eqn:E. intros [= <- <-]. cbn. f_equal. by apply IH.
Qed.

Lemma parse_term_progress s v rest : parse_term s = Some (v, rest) -> (String.length rest < String.length s)%nat.
Proof.
  unfold parse_term. destruct (negb (starts_number s)); [done|].
  destruct (leadingInt 0 s) as [[v0 s1]|] eqn:E1; [|done]. apply leadingInt_length in E1.
  destruct (match s1 with String "." s1' => _ | _ => _ end) as [[[f scale] s2] post] eqn:E2.
  assert (String.length s2 <= String.length s1)%nat as E3.
  { destruct s1 as [|c s1']; [injection E2; intros; subst; done|].
    destruct c as [[|] [|] [|] [|] [|] [|] [|] [|]]; try (injection E2; intros; subst; done).
    destruct (leadingFraction 0 (float64_of 1) false s1') as [[f' sc'] s2'] eqn:Ef.
    apply leadingFraction_length in Ef. injection E2; intros; subst. cbn. lia. }
  clear E2. destruct (_ && _); [done|]. destruct (leadingUnit s2) as [u s3] eqn:E4. apply leadingUnit_length in E4.
  destruct (String.eqb_spec u ""); [done|]. destruct (unitMap u); [|done].
  destruct (_ <? v0); [done|]. cbn zeta. destruct (max_int64 <? _); [done|]. intros [= _ <-].
  destruct u; [done|]. cbn in E4. lia.
Qed.

Lemma parse_terms_fuel n m d s :
  (String.length s <= n)%nat -> (n <= m)%nat -> parse_terms m d s = parse_terms n d s.
Proof.
  revert m d s. induction n as [|n IH]; intros m d s Hs Hm.
  - destruct s; [|cbn in Hs; lia]. by destruct m.
  - destruct m as [|m]; [lia|]. cbn [parse_terms]. destruct (String.eqb s ""); [done|].
    destruct (parse_term s) as [[v rest]|] eqn:E; [|done]. apply parse_term_progress in E.
    destruct (max_int64 <? d + v); [done|]. apply IH; lia.
Qed.

Example ParseDuration_10m : ParseDuration "10m" = Some (10 * Minute).
Proof. vm_compute. done. Qed.
Example ParseDuration_fraction : ParseDuration "-1.5h3.25ms" = Some (- (90 * Minute + 3250 * Microsecond)).
Proof. vm_compute. done. Qed.
Example ParseDuration_text : ParseDuration "http://172.31.1.100:8545" = None.
Proof. vm_compute. done. Qed.
Example path_Join_up : path_Join ["/src/config/.."; "_tmp"; "processor-artifacts"] = "/src/_tmp/processor-artifacts".
Proof. vm_compute. done. Qed.
End GoStd.
