(* ===== verification/GoTime.v ===== *)
(** * Timestamps as text (time.Time.Format, httpserver.sprintfTimestamp)

    The date of a timestamp by the algorithm of package time, its text in the format
    RFC3339Nano, and the proof that a reader of that format gets the timestamp back. *)
From stdpp Require Import base list.
From Stdlib Require Import ZArith Lia ZifyBool.
From S2P Require Import Prelude.

Module GoTime.

(** ** Dates (time.absDate) *)

Definition secondsPerDay : Z := 86400.
Definition daysPer400Years : Z := 365 * 400 + 97.
Definition daysPer100Years : Z := 365 * 100 + 24.
Definition daysPer4Years : Z := 365 * 4 + 1.

Definition isLeap (year : Z) : bool := (year mod 4 =? 0) && (negb (year mod 100 =? 0) || (year mod 400 =? 0)).

(** The days of the year before each month. *)
Definition daysBefore (month : Z) : Z :=
  nth (Z.to_nat month) [0; 31; 59; 90; 120; 151; 181; 212; 243; 273; 304; 334; 365] 0.

(** The year and the day of the year, from the day that counts from the first of January
    of year 1: Go counts from a year that lies a multiple of 400 years before. *)
Definition absYear (d : Z) : Z * Z :=
  let n := d / daysPer400Years in let y := 400 * n in let d := d - daysPer400Years * n in
  let n := d / daysPer100Years in let n := n - Z.shiftr n 2 in let y := y + 100 * n in let d := d - daysPer100Years * n in
  let n := d / daysPer4Years in let y := y + 4 * n in let d := d - daysPer4Years * n in
  let n := d / 365 in let n := n - Z.shiftr n 2 in let y := y + n in let d := d - 365 * n in
  (y + 1, d).

(** Month and day of a day of the year; every month is taken to have 31 days at first. *)
Definition monthDay (leap : bool) (yday : Z) : Z * Z :=
  if leap && (yday =? 31 + 29 - 1) then (2, 29)
  else
    let day := if leap && (31 + 29 - 1 <? yday) then yday - 1 else yday in
    let month := day / 31 in
    let end_ := daysBefore (month + 1) in
    let '(month, begin) := if end_ <=? day then (month + 1, end_) else (month, daysBefore month) in
    (month + 1, day - begin + 1).

Definition absDate (d : Z) : Z * Z * Z :=
  let '(year, yday) := absYear d in
  let '(month, day) := monthDay (isLeap year) yday in
  (year, month, day).

(** The day of the first of January 1970. *)
Definition unixToAbsolute : Z := 719162.

(** ** Text *)

Definition digit (n : Z) : Z := 48 + n mod 10.

(** [n] in decimal with [width] digits, zeros in front. *)
Fixpoint digits (width : nat) (n : Z) : bytes :=
  match width with
  | O => []
  | S w => digits w (n / 10) ++ [digit n]
  end.

Fixpoint drop_zeros (r : bytes) : bytes :=
  match r with
  | c :: r' => if c =? 48 then drop_zeros r' else r
  | [] => []
  end.

(** Zeros at the end dropped. *)
Definition trim_zeros (s : bytes) : bytes := rev (drop_zeros (rev s)).

(** A point and the digits, or nothing. *)
Definition fraction (nanosec : Z) : bytes :=
  match trim_zeros (digits 9 nanosec) with [] => [] | ds => 46 :: ds end.

Definition date_text (d : Z) : bytes :=
  let '(year, month, day) := absDate (d + unixToAbsolute) in
  digits 4 year ++ [45] ++ digits 2 month ++ [45] ++ digits 2 day.

Definition clock_text (sec : Z) : bytes :=
  digits 2 (sec / 3600) ++ [58] ++ digits 2 (sec mod 3600 / 60) ++ [58] ++ digits 2 (sec mod 60).

(** [time.Unix(0, nsec).UTC().Format(time.RFC3339Nano)], for years of four digits. *)
Definition formatRFC3339Nano (nsec : Z) : bytes :=
  let sec := nsec / 1000000000 in
  date_text (sec / secondsPerDay) ++ [84] ++ clock_text (sec mod secondsPerDay) ++ fraction (nsec mod 1000000000) ++ [90].

Definition int64 (z : Z) : Z := (z + 2 ^ 63) mod 2 ^ 64 - 2 ^ 63.

(** The header of a response (bootstrap/httpserver/server.go). *)
Definition sprintfTimestamp (timestamp : Z) : bytes := formatRFC3339Nano (int64 timestamp).

(** ** A reader *)

Definition number (ds : bytes) : Z := fold_left (fun n c => 10 * n + (c - 48)) ds 0.

(** The day of a date, from the number of leap years before it. *)
Definition day_of_date (year month day : Z) : Z :=
  let y := year - 1 in
  365 * y + y / 4 - y / 100 + y / 400
    + daysBefore (month - 1) + (if isLeap year && (2 <? month) then 1 else 0) + (day - 1) - unixToAbsolute.

Definition read_date (s : bytes) : Z :=
  day_of_date (number (take 4 s)) (number (take 2 (drop 5 s))) (number (take 2 (drop 8 s))).

Definition read_clock (s : bytes) : Z :=
  3600 * number (take 2 s) + 60 * number (take 2 (drop 3 s)) + number (take 2 (drop 6 s)).

(** The digits of a fraction are filled up to nine. *)
Definition read_fraction (s : bytes) : Z :=
  match s with 46 :: ds => number (ds ++ replicate (9 - length ds) 48) | _ => 0 end.

(** The text ends with the letter Z. *)
Definition read_timestamp (s : bytes) : Z :=
  (86400 * read_date (take 10 s) + read_clock (take 8 (drop 11 s))) * 1000000000
    + read_fraction (take (length s - 20) (drop 19 s)).

(** ** Reading back *)

Lemma digits_length w n : length (digits w n) = w.
Proof. revert n. induction w as [|w IH]; intros n; [done|]. cbn. rewrite length_app, IH. cbn. lia. Qed.

Lemma number_app ds c : number (ds ++ [c]) = 10 * number ds + (c - 48).
Proof. unfold number. by rewrite fold_left_app. Qed.

Lemma number_digits w n : 0 <= n < 10 ^ Z.of_nat w -> number (digits w n) = n.
Proof.
  revert n. induction w as [|w IH]; intros n Hn; [cbn in *; lia|].
  cbn [digits]. rewrite number_app, IH.
  - unfold digit. pose proof (Z.div_mod n 10). lia.
  - rewrite Nat2Z.inj_succ, Z.pow_succ_r in Hn by lia. split; [apply Z.div_pos; lia|apply Z.div_lt_upper_bound; lia].
Qed.

Lemma drop_zeros_length r : (length (drop_zeros r) <= length r)%nat.
Proof. induction r as [|c r IH]; cbn; [done|]. destruct (c =? 48); cbn; lia. Qed.

Lemma fill_drop r : rev (drop_zeros r) ++ replicate (length r - length (drop_zeros r)) 48 = rev r.
Proof.
  induction r as [|c r IH]; [done|]. cbn [drop_zeros length rev]. destruct (c =? 48) eqn:Ec.
  - assert (c = 48) as -> by lia. pose proof (drop_zeros_length r).
    rewrite Nat.sub_succ_l by done. by rewrite replicate_S_end, app_assoc, IH.
  - cbn [rev length]. by rewrite Nat.sub_diag, app_nil_r.
Qed.

(** Filling up to the length gives the digits back. *)
Lemma fill_trim s : trim_zeros s ++ replicate (length s - length (trim_zeros s)) 48 = s.
Proof.
  unfold trim_zeros. pose proof (fill_drop (rev s)) as H. rewrite rev_involutive, length_rev in H.
  by rewrite length_rev.
Qed.

Lemma read_fraction_text n : 0 <= n < 1000000000 -> read_fraction (fraction n) = n.
Proof.
  intros Hn. pose proof (fill_trim (digits 9 n)) as Hf. rewrite digits_length in Hf. unfold fraction.
  destruct (trim_zeros (digits 9 n)) as [|c ds] eqn:E.
  - cbn. rewrite <- (number_digits 9 n) by (cbn; lia). rewrite <- Hf. done.
  - cbn [read_fraction]. rewrite Hf. apply number_digits. cbn; lia.
Qed.

(** A property of the integers from [d] on, checked one after another. *)
Fixpoint all_from (p : Z -> bool) (n : nat) (d : Z) : bool :=
  match n with
  | O => true
  | S n => p d && all_from p n (d + 1)
  end.

Lemma all_from_spec p n d z : all_from p n d = true -> d <= z < d + Z.of_nat n -> p z = true.
Proof.
  revert d. induction n as [|n IH]; intros d H Hz; [lia|]. cbn in H. apply andb_true_iff in H as [Hp H].
  destruct (decide (z = d)) as [->|]; [done|]. apply (IH (d + 1)); [done|lia].
Qed.

(** The years before a year of the calendar: cycles of 400, 100, 4 and 1 year. *)
Lemma cycles n c q r :
  0 <= n -> 0 <= c <= 3 -> 0 <= q <= 24 -> 0 <= r <= 3 ->
  let y := 400 * n + 100 * c + 4 * q + r in
  365 * y + y / 4 - y / 100 + y / 400 = daysPer400Years * n + daysPer100Years * c + daysPer4Years * q + 365 * r /\
  isLeap (y + 1) = (r =? 3) && (negb (q =? 24) || (c =? 3)).
Proof.
  intros Hn Hc Hq Hr y. unfold daysPer400Years, daysPer100Years, daysPer4Years, isLeap.
  assert (y / 4 = 100 * n + 25 * c + q) as E4 by (symmetry; apply (Z.div_unique _ _ _ r); lia).
  assert (y / 100 = 4 * n + c) as E100 by (symmetry; apply (Z.div_unique _ _ _ (4 * q + r)); lia).
  assert (y / 400 = n) as E400 by (symmetry; apply (Z.div_unique _ _ _ (100 * c + 4 * q + r)); lia).
  split; [lia|]. pose proof (Z.div_mod (y + 1) 4). pose proof (Z.mod_pos_bound (y + 1) 4).
  pose proof (Z.div_mod (y + 1) 100). pose proof (Z.mod_pos_bound (y + 1) 100).
  pose proof (Z.div_mod (y + 1) 400). pose proof (Z.mod_pos_bound (y + 1) 400).
  assert (((y + 1) mod 4 =? 0) = (r =? 3)) as -> by lia.
  assert (((y + 1) mod 100 =? 0) = ((r =? 3) && (q =? 24))) as -> by lia.
  assert (((y + 1) mod 400 =? 0) = ((r =? 3) && (q =? 24) && (c =? 3))) as -> by lia. lia.
Qed.

Lemma shiftr_small n : 0 <= n <= 4 -> n - Z.shiftr n 2 = Z.min n 3.
Proof. intros. rewrite Z.shiftr_div_pow2 by lia. change (2 ^ 2) with 4. pose proof (Z.div_mod n 4). pose proof (Z.mod_pos_bound n 4). lia. Qed.

(** The year and the day of the year of [d]. *)
Lemma absYear_spec d y yday :
  0 <= d -> absYear d = (y, yday) ->
  1 <= y /\ 0 <= yday < (if isLeap y then 366 else 365) /\
  365 * (y - 1) + (y - 1) / 4 - (y - 1) / 100 + (y - 1) / 400 + yday = d.
Proof.
  intros Hd. unfold absYear.
  change daysPer400Years with 146097. change daysPer100Years with 36524. change daysPer4Years with 1461.
  set (n := d / 146097). set (d1 := d - 146097 * n).
  assert (0 <= n /\ 0 <= d1 < 146097) as [Hn Hd1].
  { subst n d1. pose proof (Z.div_mod d 146097). pose proof (Z.mod_pos_bound d 146097). lia. }
  set (c0 := d1 / 36524).
  assert (0 <= c0 <= 4 /\ 36524 * c0 <= d1 < 36524 * c0 + 36524) as [Hc0 Hd1'].
  { subst c0. pose proof (Z.div_mod d1 36524). pose proof (Z.mod_pos_bound d1 36524). lia. }
  rewrite (shiftr_small c0) by lia. set (c := Z.min c0 3). set (d2 := d1 - 36524 * c).
  set (q := d2 / 1461). set (d3 := d2 - 1461 * q).
  assert (0 <= d2 <= 36524 /\ (c < 3 -> d2 < 36524)) as [Hd2 Hd2'].
  { subst d2 c. lia. }
  assert (0 <= q <= 24 /\ 0 <= d3 < 1461) as [Hq Hd3].
  { subst q d3. pose proof (Z.div_mod d2 1461). pose proof (Z.mod_pos_bound d2 1461). lia. }
  set (r0 := d3 / 365).
  assert (0 <= r0 <= 4 /\ 365 * r0 <= d3 < 365 * r0 + 365) as [Hr0 Hd3'].
  { subst r0. pose proof (Z.div_mod d3 365). pose proof (Z.mod_pos_bound d3 365). lia. }
  rewrite (shiftr_small r0) by lia. set (r := Z.min r0 3). intros [= <- <-].
  destruct (cycles n c q r) as [Hsum Hleap]; [lia..|]. cbn zeta in Hsum, Hleap.
  change daysPer400Years with 146097 in Hsum. change daysPer100Years with 36524 in Hsum. change daysPer4Years with 1461 in Hsum.
  replace (400 * n + 100 * c + 4 * q + r + 1 - 1) with (400 * n + 100 * c + 4 * q + r) by lia. rewrite Hleap.
  split; [lia|]. clearbody n.
  split; [|lia]. destruct ((r =? 3) && (negb (q =? 24) || (c =? 3))) eqn:E; lia.
Qed.

(** Every day of a year, with and without a leap day. *)
Lemma months_checked :
  all_from (fun yday => forallb (fun leap : bool => let '(m, d) := monthDay leap yday in
    (365 <=? yday) && negb leap ||
    ((1 <=? m) && (m <=? 12) && (1 <=? d) && (d <=? 31) &&
     (daysBefore (m - 1) + (if leap && (2 <? m) then 1 else 0) + (d - 1) =? yday)))
    [true; false]) 366 0 = true.
Proof. vm_compute. done. Qed.

Lemma monthDay_spec (leap : bool) yday m d :
  0 <= yday < (if leap then 366 else 365) -> monthDay leap yday = (m, d) ->
  1 <= m <= 12 /\ 1 <= d <= 31 /\ daysBefore (m - 1) + (if leap && (2 <? m) then 1 else 0) + (d - 1) = yday.
Proof.
  intros Hy E. pose proof (all_from_spec _ _ _ yday months_checked) as H. rewrite forallb_forall in H.
  specialize (H ltac:(destruct leap; lia) leap ltac:(destruct leap; cbn; auto)). cbn beta in H. rewrite E in H.
  destruct leap; cbn [negb] in H; lia.
Qed.

(** The day of the last timestamp of 63 bits. *)
Definition last_day : Z := 2 ^ 63 / 1000000000 / secondsPerDay.

Lemma read_date_text d : 0 <= d <= last_day -> read_date (date_text d) = d /\ length (date_text d) = 10%nat.
Proof.
  change last_day with 106751. intros Hd. unfold date_text, absDate. destruct (absYear (d + unixToAbsolute)) as [y yday] eqn:Ey.
  change unixToAbsolute with 719162 in Ey. apply absYear_spec in Ey as (Hy & Hyd & Hsum); [|lia].
  destruct (monthDay (isLeap y) yday) as [m dd] eqn:Em. apply monthDay_spec in Em as (Hm & Hdd & Hday); [|done].
  split; [|by rewrite !length_app, !digits_length].
  assert (y < 10000) as Hy'.
  { pose proof (Z.div_mod (y - 1) 4). pose proof (Z.mod_pos_bound (y - 1) 4).
    pose proof (Z.div_mod (y - 1) 100). pose proof (Z.mod_pos_bound (y - 1) 100).
    pose proof (Z.div_pos (y - 1) 400). lia. }
  transitivity (day_of_date (number (digits 4 y)) (number (digits 2 m)) (number (digits 2 dd))); [done|].
  rewrite !number_digits by (cbn; lia). unfold day_of_date. change unixToAbsolute with 719162. cbn zeta. lia.
Qed.

Lemma read_clock_text s : 0 <= s < 86400 -> read_clock (clock_text s) = s /\ length (clock_text s) = 8%nat.
Proof.
  intros Hs. split; [|unfold clock_text; by rewrite !length_app, !digits_length].
  transitivity (3600 * number (digits 2 (s / 3600)) + 60 * number (digits 2 (s mod 3600 / 60)) + number (digits 2 (s mod 60))); [done|].
  pose proof (Z.div_mod s 3600). pose proof (Z.mod_pos_bound s 3600). pose proof (Z.div_mod (s mod 3600) 60).
  pose proof (Z.mod_pos_bound (s mod 3600) 60). pose proof (Z.mod_pos_bound s 60).
  assert (s mod 60 = s mod 3600 mod 60) as E60.
  { apply (Z.mod_unique_pos _ _ (s / 60 - 60 * (s / 3600))); [lia|]. pose proof (Z.div_mod s 60). lia. }
  rewrite !number_digits by (cbn; lia). lia.
Qed.

Lemma timestamp_fields (a c f : bytes) t z :
  length a = 10%nat -> length c = 8%nat ->
  let s := a ++ [t] ++ c ++ f ++ [z] in
  take 10 s = a /\ take 8 (drop 11 s) = c /\ take (length s - 20) (drop 19 s) = f.
Proof.
  intros La Lc s. subst s. split_and!; [by apply take_app_length'| |].
  - rewrite (app_assoc a), drop_app_length' by (rewrite length_app, La; done). by apply take_app_length'.
  - rewrite (app_assoc a), (app_assoc _ c), drop_app_length' by (rewrite !length_app, La, Lc; done).
    apply take_app_length'. rewrite !length_app, La, Lc. cbn. lia.
Qed.

(** Every timestamp reads back from its text. *)
Lemma read_sprintfTimestamp ts : 0 <= ts < 2 ^ 63 -> read_timestamp (sprintfTimestamp ts) = ts.
Proof.
  intros Hts. unfold sprintfTimestamp, int64. rewrite Z.mod_small by lia. replace (ts + 2 ^ 63 - 2 ^ 63) with ts by lia.
  unfold formatRFC3339Nano, secondsPerDay. set (sec := ts / 1000000000).
  pose proof (Z.div_mod ts 1000000000). pose proof (Z.mod_pos_bound ts 1000000000).
  pose proof (Z.div_mod sec 86400). pose proof (Z.mod_pos_bound sec 86400).
  destruct (read_date_text (sec / 86400)) as [Ed Ld]; [change last_day with 106751; lia|].
  destruct (read_clock_text (sec mod 86400)) as [Ec Lc]; [lia|].
  pose proof (read_fraction_text (ts mod 1000000000)) as Ef.
  destruct (timestamp_fields (date_text (sec / 86400)) (clock_text (sec mod 86400)) (fraction (ts mod 1000000000)) 84 90 Ld Lc)
    as (F1 & F2 & F3). unfold read_timestamp. rewrite F1, F2, F3, Ed, Ec, Ef by lia. lia.
Qed.
End GoTime.
