(* ===== verification/Config.v ===== *)
(** * The configuration of a node (config)

    A configuration is a map from setting names to values, with the addresses, keys and
    peers beside it (hardcoded_config.go, factory.go).  [NodeConfig] is what the services
    read of it (config.go), the presets are the settings of each kind of network
    (system_factory_presets.go), and [ValidateNodeLogic] is what a node checks before it
    starts (validator.go).  ConfigFile.v has the configuration file. *)
From stdpp Require Import base gmap strings list.
From Stdlib Require Import ZArith Lia ZifyBool.
From S2P Require Import Prelude Hash Encoding Transport GoStd.

Module Config.
Import Transport GoStd.
Open Scope string_scope.
Open Scope Z_scope.

(** ** Settings (hardcoded_config.go) *)

Record NodeConfigValue := mkValue {
  Uint32Value : Z;
  DurationValue : Z;
  StringValue : string;
  BoolValue : bool
}.

(** A validator node is its address. *)
Record config := mkConfig {
  kv : gmap string NodeConfigValue;
  genesisValidatorNodes : gmap bytes bytes;
  gossipPeers : gmap bytes gossipPeer;
  nodeAddress : bytes;
  nodePrivateKey : bytes;
  constantConsensusLeader : bytes;
  activeConsensusAlgo : Z
}.

(** The names of the settings. *)
Inductive setting :=
| PROTOCOL_VERSION
| VIRTUAL_CHAIN_ID
| NETWORK_TYPE
| MANAGEMENT_FILE_PATH
| MANAGEMENT_MAX_FILE_SIZE
| MANAGEMENT_UPDATE_INTERVAL
| BENCHMARK_CONSENSUS_RETRY_INTERVAL
| BENCHMARK_CONSENSUS_REQUIRED_QUORUM_PERCENTAGE
| LEAN_HELIX_CONSENSUS_ROUND_TIMEOUT_INTERVAL
| LEAN_HELIX_CONSENSUS_MINIMUM_COMMITTEE_SIZE
| LEAN_HELIX_CONSENSUS_MAXIMUM_COMMITTEE_SIZE
| INTER_NODE_SYNC_AUDIT_BLOCKS_YOUNGER_THAN
| LEAN_HELIX_SHOW_DEBUG
| BLOCK_SYNC_NUM_BLOCKS_IN_BATCH
| BLOCK_SYNC_NO_COMMIT_INTERVAL
| BLOCK_SYNC_COLLECT_RESPONSE_TIMEOUT
| BLOCK_SYNC_COLLECT_CHUNKS_TIMEOUT
| BLOCK_STORAGE_TRANSACTION_RECEIPT_QUERY_TIMESTAMP_GRACE
| CONSENSUS_CONTEXT_MAXIMUM_TRANSACTIONS_IN_BLOCK
| CONSENSUS_CONTEXT_SYSTEM_TIMESTAMP_ALLOWED_JITTER
| CONSENSUS_CONTEXT_TRIGGERS_ENABLED
| STATE_STORAGE_HISTORY_SNAPSHOT_NUM
| BLOCK_TRACKER_GRACE_DISTANCE
| BLOCK_TRACKER_GRACE_TIMEOUT
| TRANSACTION_POOL_PENDING_POOL_SIZE_IN_BYTES
| TRANSACTION_EXPIRATION_WINDOW
| TRANSACTION_POOL_FUTURE_TIMESTAMP_GRACE_TIMEOUT
| TRANSACTION_POOL_PENDING_POOL_CLEAR_EXPIRED_INTERVAL
| TRANSACTION_POOL_COMMITTED_POOL_CLEAR_EXPIRED_INTERVAL
| TRANSACTION_POOL_PROPAGATION_BATCH_SIZE
| TRANSACTION_POOL_PROPAGATION_BATCHING_TIMEOUT
| TRANSACTION_POOL_TIME_BETWEEN_EMPTY_BLOCKS
| TRANSACTION_POOL_NODE_SYNC_REJECT_TIME
| GOSSIP_LISTEN_PORT
| GOSSIP_CONNECTION_KEEP_ALIVE_INTERVAL
| GOSSIP_NETWORK_TIMEOUT
| GOSSIP_RECONNECT_INTERVAL
| PUBLIC_API_SEND_TRANSACTION_TIMEOUT
| PUBLIC_API_NODE_SYNC_WARNING_TIME
| PROCESSOR_ARTIFACT_PATH
| PROCESSOR_SANITIZE_DEPLOYED_CONTRACTS
| PROCESSOR_PERFORM_WARM_UP_COMPILATION
| ETHEREUM_ENDPOINT
| ETHEREUM_FINALITY_TIME_COMPONENT
| ETHEREUM_FINALITY_BLOCKS_COMPONENT
| LOGGER_HTTP_ENDPOINT
| LOGGER_BULK_SIZE
| LOGGER_FILE_TRUNCATION_INTERVAL
| LOGGER_FULL_LOG
| BLOCK_STORAGE_FILE_SYSTEM_DATA_DIR
| BLOCK_STORAGE_FILE_SYSTEM_MAX_BLOCK_SIZE_IN_BYTES
| PROFILING
| HTTP_ADDRESS
| NTP_ENDPOINT
| SIGNER_ENDPOINT
| EXPERIMENTAL_EXTERNAL_PROCESSOR_PLUGIN_PATH.

Definition key_of (s : setting) : string :=
  match s with
  | PROTOCOL_VERSION => "PROTOCOL_VERSION"
  | VIRTUAL_CHAIN_ID => "VIRTUAL_CHAIN_ID"
  | NETWORK_TYPE => "NETWORK_TYPE"
  | MANAGEMENT_FILE_PATH => "MANAGEMENT_FILE_PATH"
  | MANAGEMENT_MAX_FILE_SIZE => "MANAGEMENT_MAX_FILE_SIZE"
  | MANAGEMENT_UPDATE_INTERVAL => "MANAGEMENT_UPDATE_INTERVAL"
  | BENCHMARK_CONSENSUS_RETRY_INTERVAL => "BENCHMARK_CONSENSUS_RETRY_INTERVAL"
  | BENCHMARK_CONSENSUS_REQUIRED_QUORUM_PERCENTAGE => "BENCHMARK_CONSENSUS_REQUIRED_QUORUM_PERCENTAGE"
  | LEAN_HELIX_CONSENSUS_ROUND_TIMEOUT_INTERVAL => "LEAN_HELIX_CONSENSUS_ROUND_TIMEOUT_INTERVAL"
  | LEAN_HELIX_CONSENSUS_MINIMUM_COMMITTEE_SIZE => "LEAN_HELIX_CONSENSUS_MINIMUM_COMMITTEE_SIZE"
  | LEAN_HELIX_CONSENSUS_MAXIMUM_COMMITTEE_SIZE => "LEAN_HELIX_CONSENSUS_MAXIMUM_COMMITTEE_SIZE"
  | INTER_NODE_SYNC_AUDIT_BLOCKS_YOUNGER_THAN => "INTER_NODE_SYNC_AUDIT_BLOCKS_YOUNGER_THAN"
  | LEAN_HELIX_SHOW_DEBUG => "LEAN_HELIX_SHOW_DEBUG"
  | BLOCK_SYNC_NUM_BLOCKS_IN_BATCH => "BLOCK_SYNC_NUM_BLOCKS_IN_BATCH"
  | BLOCK_SYNC_NO_COMMIT_INTERVAL => "BLOCK_SYNC_NO_COMMIT_INTERVAL"
  | BLOCK_SYNC_COLLECT_RESPONSE_TIMEOUT => "BLOCK_SYNC_COLLECT_RESPONSE_TIMEOUT"
  | BLOCK_SYNC_COLLECT_CHUNKS_TIMEOUT => "BLOCK_SYNC_COLLECT_CHUNKS_TIMEOUT"
  | BLOCK_STORAGE_TRANSACTION_RECEIPT_QUERY_TIMESTAMP_GRACE => "BLOCK_STORAGE_TRANSACTION_RECEIPT_QUERY_TIMESTAMP_GRACE"
  | CONSENSUS_CONTEXT_MAXIMUM_TRANSACTIONS_IN_BLOCK => "CONSENSUS_CONTEXT_MAXIMUM_TRANSACTIONS_IN_BLOCK"
  | CONSENSUS_CONTEXT_SYSTEM_TIMESTAMP_ALLOWED_JITTER => "CONSENSUS_CONTEXT_SYSTEM_TIMESTAMP_ALLOWED_JITTER"
  | CONSENSUS_CONTEXT_TRIGGERS_ENABLED => "CONSENSUS_CONTEXT_TRIGGERS_ENABLED"
  | STATE_STORAGE_HISTORY_SNAPSHOT_NUM => "STATE_STORAGE_HISTORY_SNAPSHOT_NUM"
  | BLOCK_TRACKER_GRACE_DISTANCE => "BLOCK_TRACKER_GRACE_DISTANCE"
  | BLOCK_TRACKER_GRACE_TIMEOUT => "BLOCK_TRACKER_GRACE_TIMEOUT"
  | TRANSACTION_POOL_PENDING_POOL_SIZE_IN_BYTES => "TRANSACTION_POOL_PENDING_POOL_SIZE_IN_BYTES"
  | TRANSACTION_EXPIRATION_WINDOW => "TRANSACTION_EXPIRATION_WINDOW"
  | TRANSACTION_POOL_FUTURE_TIMESTAMP_GRACE_TIMEOUT => "TRANSACTION_POOL_FUTURE_TIMESTAMP_GRACE_TIMEOUT"
  | TRANSACTION_POOL_PENDING_POOL_CLEAR_EXPIRED_INTERVAL => "TRANSACTION_POOL_PENDING_POOL_CLEAR_EXPIRED_INTERVAL"
  | TRANSACTION_POOL_COMMITTED_POOL_CLEAR_EXPIRED_INTERVAL => "TRANSACTION_POOL_COMMITTED_POOL_CLEAR_EXPIRED_INTERVAL"
  | TRANSACTION_POOL_PROPAGATION_BATCH_SIZE => "TRANSACTION_POOL_PROPAGATION_BATCH_SIZE"
  | TRANSACTION_POOL_PROPAGATION_BATCHING_TIMEOUT => "TRANSACTION_POOL_PROPAGATION_BATCHING_TIMEOUT"
  | TRANSACTION_POOL_TIME_BETWEEN_EMPTY_BLOCKS => "TRANSACTION_POOL_TIME_BETWEEN_EMPTY_BLOCKS"
  | TRANSACTION_POOL_NODE_SYNC_REJECT_TIME => "TRANSACTION_POOL_NODE_SYNC_REJECT_TIME"
  | GOSSIP_LISTEN_PORT => "GOSSIP_LISTEN_PORT"
  | GOSSIP_CONNECTION_KEEP_ALIVE_INTERVAL => "GOSSIP_CONNECTION_KEEP_ALIVE_INTERVAL"
  | GOSSIP_NETWORK_TIMEOUT => "GOSSIP_NETWORK_TIMEOUT"
  | GOSSIP_RECONNECT_INTERVAL => "GOSSIP_RECONNECT_INTERVAL"
  | PUBLIC_API_SEND_TRANSACTION_TIMEOUT => "PUBLIC_API_SEND_TRANSACTION_TIMEOUT"
  | PUBLIC_API_NODE_SYNC_WARNING_TIME => "PUBLIC_API_NODE_SYNC_WARNING_TIME"
  | PROCESSOR_ARTIFACT_PATH => "PROCESSOR_ARTIFACT_PATH"
  | PROCESSOR_SANITIZE_DEPLOYED_CONTRACTS => "PROCESSOR_SANITIZE_DEPLOYED_CONTRACTS"
  | PROCESSOR_PERFORM_WARM_UP_COMPILATION => "PROCESSOR_PERFORM_WARM_UP_COMPILATION"
  | ETHEREUM_ENDPOINT => "ETHEREUM_ENDPOINT"
  | ETHEREUM_FINALITY_TIME_COMPONENT => "ETHEREUM_FINALITY_TIME_COMPONENT"
  | ETHEREUM_FINALITY_BLOCKS_COMPONENT => "ETHEREUM_FINALITY_BLOCKS_COMPONENT"
  | LOGGER_HTTP_ENDPOINT => "LOGGER_HTTP_ENDPOINT"
  | LOGGER_BULK_SIZE => "LOGGER_BULK_SIZE"
  | LOGGER_FILE_TRUNCATION_INTERVAL => "LOGGER_FILE_TRUNCATION_INTERVAL"
  | LOGGER_FULL_LOG => "LOGGER_FULL_LOG"
  | BLOCK_STORAGE_FILE_SYSTEM_DATA_DIR => "BLOCK_STORAGE_FILE_SYSTEM_DATA_DIR"
  | BLOCK_STORAGE_FILE_SYSTEM_MAX_BLOCK_SIZE_IN_BYTES => "BLOCK_STORAGE_FILE_SYSTEM_MAX_BLOCK_SIZE_IN_BYTES"
  | PROFILING => "PROFILING"
  | HTTP_ADDRESS => "HTTP_ADDRESS"
  | NTP_ENDPOINT => "NTP_ENDPOINT"
  | SIGNER_ENDPOINT => "SIGNER_ENDPOINT"
  | EXPERIMENTAL_EXTERNAL_PROCESSOR_PLUGIN_PATH => "EXPERIMENTAL_EXTERNAL_PROCESSOR_PLUGIN_PATH"
  end.

Coercion key_of : setting >-> string.

#[export] Instance setting_eq_dec : EqDecision setting.
Proof. solve_decision. Defined.

(** A setting that is not there reads as the zero value. *)
Definition get (c : config) (key : string) : NodeConfigValue := default (mkValue 0 0 "" false) (kv c !! key).

Definition emptyConfig : config := mkConfig ∅ ∅ ∅ [] [] [] 0.

Definition Set_ (key : string) (value : NodeConfigValue) (c : config) : config :=
  mkConfig (<[key := value]> (kv c)) (genesisValidatorNodes c) (gossipPeers c) (nodeAddress c) (nodePrivateKey c)
    (constantConsensusLeader c) (activeConsensusAlgo c).
Definition SetDuration (key : string) (value : Z) : config -> config := Set_ key (mkValue 0 value "" false).
Definition SetUint32 (key : string) (value : Z) : config -> config := Set_ key (mkValue value 0 "" false).
Definition SetString (key : string) (value : string) : config -> config := Set_ key (mkValue 0 0 value false).
Definition SetBool (key : string) (value : bool) : config -> config := Set_ key (mkValue 0 0 "" value).

Definition SetNodeAddress (key : bytes) (c : config) : config :=
  mkConfig (kv c) (genesisValidatorNodes c) (gossipPeers c) key (nodePrivateKey c) (constantConsensusLeader c) (activeConsensusAlgo c).
Definition SetNodePrivateKey (key : bytes) (c : config) : config :=
  mkConfig (kv c) (genesisValidatorNodes c) (gossipPeers c) (nodeAddress c) key (constantConsensusLeader c) (activeConsensusAlgo c).
Definition SetBenchmarkConsensusConstantLeader (key : bytes) (c : config) : config :=
  mkConfig (kv c) (genesisValidatorNodes c) (gossipPeers c) (nodeAddress c) (nodePrivateKey c) key (activeConsensusAlgo c).
Definition SetActiveConsensusAlgo (algoType : Z) (c : config) : config :=
  mkConfig (kv c) (genesisValidatorNodes c) (gossipPeers c) (nodeAddress c) (nodePrivateKey c) (constantConsensusLeader c) algoType.
Definition SetGenesisValidatorNodes (nodes : gmap bytes bytes) (c : config) : config :=
  mkConfig (kv c) nodes (gossipPeers c) (nodeAddress c) (nodePrivateKey c) (constantConsensusLeader c) (activeConsensusAlgo c).
Definition SetGossipPeers (peers : gmap bytes gossipPeer) (c : config) : config :=
  mkConfig (kv c) (genesisValidatorNodes c) peers (nodeAddress c) (nodePrivateKey c) (constantConsensusLeader c) (activeConsensusAlgo c).

(** [Clone] copies the map of settings; the maps of validators and peers are shared, and
    no code changes one in place.  The copy is the same value. *)
Definition Clone (c : config) : config :=
  mkConfig (map_fold (fun k v m => <[k := v]> m) ∅ (kv c)) (genesisValidatorNodes c) (gossipPeers c) (nodeAddress c)
    (nodePrivateKey c) (constantConsensusLeader c) (activeConsensusAlgo c).

(** ** What the services read (config.go) *)

Record NodeConfig := mkNodeConfig {
  NodeAddress : bytes;
  NodePrivateKey : bytes;
  ProtocolVersion : Z;
  VirtualChainId : Z;
  NetworkType : Z;
  ManagementFilePath : string;
  ManagementMaxFileSize : Z;
  ManagementUpdateInterval : Z;
  GenesisValidatorNodes : gmap bytes bytes;
  BenchmarkConsensusConstantLeader : bytes;
  ActiveConsensusAlgo : Z;
  BenchmarkConsensusRetryInterval : Z;
  LeanHelixConsensusRoundTimeoutInterval : Z;
  LeanHelixShowDebug : bool;
  BlockSyncNumBlocksInBatch : Z;
  BlockSyncNoCommitInterval : Z;
  BlockSyncCollectResponseTimeout : Z;
  BlockStorageTransactionReceiptQueryTimestampGrace : Z;
  ConsensusContextMaximumTransactionsInBlock : Z;
  ConsensusContextSystemTimestampAllowedJitter : Z;
  ConsensusContextTriggersEnabled : bool;
  StateStorageHistorySnapshotNum : Z;
  BlockTrackerGraceDistance : Z;
  BlockTrackerGraceTimeout : Z;
  TransactionPoolPendingPoolSizeInBytes : Z;
  TransactionExpirationWindow : Z;
  TransactionPoolFutureTimestampGraceTimeout : Z;
  TransactionPoolPendingPoolClearExpiredInterval : Z;
  TransactionPoolCommittedPoolClearExpiredInterval : Z;
  TransactionPoolPropagationBatchSize : Z;
  TransactionPoolPropagationBatchingTimeout : Z;
  TransactionPoolTimeBetweenEmptyBlocks : Z;
  TransactionPoolNodeSyncRejectTime : Z;
  PublicApiSendTransactionTimeout : Z;
  PublicApiNodeSyncWarningTime : Z;
  BlockSyncCollectChunksTimeout : Z;
  ProcessorArtifactPath : string;
  ProcessorSanitizeDeployedContracts : bool;
  ProcessorPerformWarmUpCompilation : bool;
  GossipListenPort : Z;
  GossipPeers : gmap bytes gossipPeer;
  GossipConnectionKeepAliveInterval : Z;
  GossipNetworkTimeout : Z;
  GossipReconnectInterval : Z;
  BenchmarkConsensusRequiredQuorumPercentage : Z;
  LeanHelixConsensusMinimumCommitteeSize : Z;
  LeanHelixConsensusMaximumCommitteeSize : Z;
  InterNodeSyncAuditBlocksYoungerThan : Z;
  EthereumEndpoint : string;
  EthereumFinalityTimeComponent : Z;
  EthereumFinalityBlocksComponent : Z;
  LoggerHttpEndpoint : string;
  LoggerBulkSize : Z;
  LoggerFileTruncationInterval : Z;
  LoggerFullLog : bool;
  BlockStorageFileSystemDataDir : string;
  BlockStorageFileSystemMaxBlockSizeInBytes : Z;
  Profiling : bool;
  HttpAddress : string;
  NTPEndpoint : string;
  SignerEndpoint : string;
  ExperimentalExternalProcessorPluginPath : string
}.

(** The getters. *)
Definition asNodeConfig (c : config) : NodeConfig := {|
  NodeAddress := nodeAddress c;
  NodePrivateKey := nodePrivateKey c;
  ProtocolVersion := Uint32Value (get c PROTOCOL_VERSION);
  VirtualChainId := Uint32Value (get c VIRTUAL_CHAIN_ID);
  NetworkType := Uint32Value (get c NETWORK_TYPE);
  ManagementFilePath := StringValue (get c MANAGEMENT_FILE_PATH);
  ManagementMaxFileSize := Uint32Value (get c MANAGEMENT_MAX_FILE_SIZE);
  ManagementUpdateInterval := DurationValue (get c MANAGEMENT_UPDATE_INTERVAL);
  GenesisValidatorNodes := genesisValidatorNodes c;
  BenchmarkConsensusConstantLeader := constantConsensusLeader c;
  ActiveConsensusAlgo := activeConsensusAlgo c;
  BenchmarkConsensusRetryInterval := DurationValue (get c BENCHMARK_CONSENSUS_RETRY_INTERVAL);
  LeanHelixConsensusRoundTimeoutInterval := DurationValue (get c LEAN_HELIX_CONSENSUS_ROUND_TIMEOUT_INTERVAL);
  LeanHelixShowDebug := BoolValue (get c LEAN_HELIX_SHOW_DEBUG);
  BlockSyncNumBlocksInBatch := Uint32Value (get c BLOCK_SYNC_NUM_BLOCKS_IN_BATCH);
  BlockSyncNoCommitInterval := DurationValue (get c BLOCK_SYNC_NO_COMMIT_INTERVAL);
  BlockSyncCollectResponseTimeout := DurationValue (get c BLOCK_SYNC_COLLECT_RESPONSE_TIMEOUT);
  BlockStorageTransactionReceiptQueryTimestampGrace := DurationValue (get c BLOCK_STORAGE_TRANSACTION_RECEIPT_QUERY_TIMESTAMP_GRACE);
  ConsensusContextMaximumTransactionsInBlock := Uint32Value (get c CONSENSUS_CONTEXT_MAXIMUM_TRANSACTIONS_IN_BLOCK);
  ConsensusContextSystemTimestampAllowedJitter := DurationValue (get c CONSENSUS_CONTEXT_SYSTEM_TIMESTAMP_ALLOWED_JITTER);
  ConsensusContextTriggersEnabled := BoolValue (get c CONSENSUS_CONTEXT_TRIGGERS_ENABLED);
  StateStorageHistorySnapshotNum := Uint32Value (get c STATE_STORAGE_HISTORY_SNAPSHOT_NUM);
  BlockTrackerGraceDistance := Uint32Value (get c BLOCK_TRACKER_GRACE_DISTANCE);
  BlockTrackerGraceTimeout := DurationValue (get c BLOCK_TRACKER_GRACE_TIMEOUT);
  TransactionPoolPendingPoolSizeInBytes := Uint32Value (get c TRANSACTION_POOL_PENDING_POOL_SIZE_IN_BYTES);
  TransactionExpirationWindow := DurationValue (get c TRANSACTION_EXPIRATION_WINDOW);
  TransactionPoolFutureTimestampGraceTimeout := DurationValue (get c TRANSACTION_POOL_FUTURE_TIMESTAMP_GRACE_TIMEOUT);
  TransactionPoolPendingPoolClearExpiredInterval := DurationValue (get c TRANSACTION_POOL_PENDING_POOL_CLEAR_EXPIRED_INTERVAL);
  TransactionPoolCommittedPoolClearExpiredInterval := DurationValue (get c TRANSACTION_POOL_COMMITTED_POOL_CLEAR_EXPIRED_INTERVAL);
  TransactionPoolPropagationBatchSize := wrap 16 (Uint32Value (get c TRANSACTION_POOL_PROPAGATION_BATCH_SIZE));
  TransactionPoolPropagationBatchingTimeout := DurationValue (get c TRANSACTION_POOL_PROPAGATION_BATCHING_TIMEOUT);
  TransactionPoolTimeBetweenEmptyBlocks := DurationValue (get c TRANSACTION_POOL_TIME_BETWEEN_EMPTY_BLOCKS);
  TransactionPoolNodeSyncRejectTime := DurationValue (get c TRANSACTION_POOL_NODE_SYNC_REJECT_TIME);
  PublicApiSendTransactionTimeout := DurationValue (get c PUBLIC_API_SEND_TRANSACTION_TIMEOUT);
  PublicApiNodeSyncWarningTime := DurationValue (get c PUBLIC_API_NODE_SYNC_WARNING_TIME);
  BlockSyncCollectChunksTimeout := DurationValue (get c BLOCK_SYNC_COLLECT_CHUNKS_TIMEOUT);
  ProcessorArtifactPath := StringValue (get c PROCESSOR_ARTIFACT_PATH);
  ProcessorSanitizeDeployedContracts := BoolValue (get c PROCESSOR_SANITIZE_DEPLOYED_CONTRACTS);
  ProcessorPerformWarmUpCompilation := BoolValue (get c PROCESSOR_PERFORM_WARM_UP_COMPILATION);
  GossipListenPort := wrap 16 (Uint32Value (get c GOSSIP_LISTEN_PORT));
  GossipPeers := gossipPeers c;
  GossipConnectionKeepAliveInterval := DurationValue (get c GOSSIP_CONNECTION_KEEP_ALIVE_INTERVAL);
  GossipNetworkTimeout := DurationValue (get c GOSSIP_NETWORK_TIMEOUT);
  GossipReconnectInterval := DurationValue (get c GOSSIP_RECONNECT_INTERVAL);
  BenchmarkConsensusRequiredQuorumPercentage := Uint32Value (get c BENCHMARK_CONSENSUS_REQUIRED_QUORUM_PERCENTAGE);
  LeanHelixConsensusMinimumCommitteeSize := Uint32Value (get c LEAN_HELIX_CONSENSUS_MINIMUM_COMMITTEE_SIZE);
  LeanHelixConsensusMaximumCommitteeSize := Uint32Value (get c LEAN_HELIX_CONSENSUS_MAXIMUM_COMMITTEE_SIZE);
  InterNodeSyncAuditBlocksYoungerThan := DurationValue (get c INTER_NODE_SYNC_AUDIT_BLOCKS_YOUNGER_THAN);
  EthereumEndpoint := StringValue (get c ETHEREUM_ENDPOINT);
  EthereumFinalityTimeComponent := DurationValue (get c ETHEREUM_FINALITY_TIME_COMPONENT);
  EthereumFinalityBlocksComponent := Uint32Value (get c ETHEREUM_FINALITY_BLOCKS_COMPONENT);
  LoggerHttpEndpoint := StringValue (get c LOGGER_HTTP_ENDPOINT);
  LoggerBulkSize := Uint32Value (get c LOGGER_BULK_SIZE);
  LoggerFileTruncationInterval := DurationValue (get c LOGGER_FILE_TRUNCATION_INTERVAL);
  LoggerFullLog := BoolValue (get c LOGGER_FULL_LOG);
  BlockStorageFileSystemDataDir := StringValue (get c BLOCK_STORAGE_FILE_SYSTEM_DATA_DIR);
  BlockStorageFileSystemMaxBlockSizeInBytes := Uint32Value (get c BLOCK_STORAGE_FILE_SYSTEM_MAX_BLOCK_SIZE_IN_BYTES);
  Profiling := BoolValue (get c PROFILING);
  HttpAddress := StringValue (get c HTTP_ADDRESS);
  NTPEndpoint := StringValue (get c NTP_ENDPOINT);
  SignerEndpoint := StringValue (get c SIGNER_ENDPOINT);
  ExperimentalExternalProcessorPluginPath := StringValue (get c EXPERIMENTAL_EXTERNAL_PROCESSOR_PLUGIN_PATH)
|}.

(** ** Presets (system_factory_presets.go) *)

Section Presets.
(** The directory of the sources, which the compiler records, and the generated numbers of
    the consensus algorithms. *)
Variable GetProjectSourceTmpPath : string.
Variable CONSENSUS_ALGO_TYPE_BENCHMARK_CONSENSUS : Z.

(** Calls of setters, in order. *)
Definition calls (c : config) (setters : list (config -> config)) : config := foldl (fun c f => f c) c setters.

Definition address_String (a : bytes) : string := bytes_string (hex_EncodeToString a).

Definition defaultProductionConfig : config :=
  calls emptyConfig [
    SetUint32 PROTOCOL_VERSION 1;
    SetUint32 VIRTUAL_CHAIN_ID 42;
    SetUint32 GOSSIP_LISTEN_PORT 4400;
    SetDuration MANAGEMENT_UPDATE_INTERVAL (1 * Minute);
    SetUint32 MANAGEMENT_MAX_FILE_SIZE (50 * (2 ^ 20));
    SetDuration LEAN_HELIX_CONSENSUS_ROUND_TIMEOUT_INTERVAL (14 * Second);
    SetDuration BENCHMARK_CONSENSUS_RETRY_INTERVAL (2 * Second);
    SetUint32 LEAN_HELIX_CONSENSUS_MINIMUM_COMMITTEE_SIZE 4;
    SetUint32 LEAN_HELIX_CONSENSUS_MAXIMUM_COMMITTEE_SIZE 22;
    SetBool LEAN_HELIX_SHOW_DEBUG false;
    SetDuration TRANSACTION_POOL_TIME_BETWEEN_EMPTY_BLOCKS (9 * Second);
    SetUint32 BENCHMARK_CONSENSUS_REQUIRED_QUORUM_PERCENTAGE 66;
    SetUint32 CONSENSUS_CONTEXT_MAXIMUM_TRANSACTIONS_IN_BLOCK 1000;
    SetDuration CONSENSUS_CONTEXT_SYSTEM_TIMESTAMP_ALLOWED_JITTER (60 * Second);
    SetBool CONSENSUS_CONTEXT_TRIGGERS_ENABLED true;
    SetUint32 BLOCK_TRACKER_GRACE_DISTANCE 5;
    SetDuration BLOCK_TRACKER_GRACE_TIMEOUT (1 * Second);
    SetUint32 BLOCK_SYNC_NUM_BLOCKS_IN_BATCH 100;
    SetDuration BLOCK_SYNC_NO_COMMIT_INTERVAL (18 * Second);
    SetDuration BLOCK_SYNC_COLLECT_RESPONSE_TIMEOUT (1 * Second);
    SetDuration BLOCK_SYNC_COLLECT_CHUNKS_TIMEOUT (5 * Second);
    SetDuration PUBLIC_API_SEND_TRANSACTION_TIMEOUT (20 * Second);
    SetDuration PUBLIC_API_NODE_SYNC_WARNING_TIME (50 * Second);
    SetDuration BLOCK_STORAGE_TRANSACTION_RECEIPT_QUERY_TIMESTAMP_GRACE (5 * Second);
    SetUint32 STATE_STORAGE_HISTORY_SNAPSHOT_NUM 5;
    SetUint32 TRANSACTION_POOL_PENDING_POOL_SIZE_IN_BYTES (20 * 1024 * 1024);
    SetDuration TRANSACTION_EXPIRATION_WINDOW (30 * Minute);
    SetDuration TRANSACTION_POOL_NODE_SYNC_REJECT_TIME (2 * Minute);
    SetDuration TRANSACTION_POOL_FUTURE_TIMESTAMP_GRACE_TIMEOUT (1 * Minute);
    SetDuration TRANSACTION_POOL_PENDING_POOL_CLEAR_EXPIRED_INTERVAL (10 * Second);
    SetDuration TRANSACTION_POOL_COMMITTED_POOL_CLEAR_EXPIRED_INTERVAL (30 * Second);
    SetUint32 TRANSACTION_POOL_PROPAGATION_BATCH_SIZE 100;
    SetDuration TRANSACTION_POOL_PROPAGATION_BATCHING_TIMEOUT (100 * Millisecond);
    SetDuration GOSSIP_CONNECTION_KEEP_ALIVE_INTERVAL (1 * Second);
    SetDuration GOSSIP_RECONNECT_INTERVAL (1 * Second);
    SetDuration GOSSIP_NETWORK_TIMEOUT (30 * Second);
    SetDuration ETHEREUM_FINALITY_TIME_COMPONENT (10 * Minute);
    SetUint32 ETHEREUM_FINALITY_BLOCKS_COMPONENT 60;
    SetBool PROCESSOR_SANITIZE_DEPLOYED_CONTRACTS true;
    SetBool PROCESSOR_PERFORM_WARM_UP_COMPILATION true;
    SetActiveConsensusAlgo CONSENSUS_ALGO_TYPE_BENCHMARK_CONSENSUS;
    SetString ETHEREUM_ENDPOINT "http://localhost:8545";
    SetString PROCESSOR_ARTIFACT_PATH (path_Join [GetProjectSourceTmpPath; "processor-artifacts"]);
    SetString BLOCK_STORAGE_FILE_SYSTEM_DATA_DIR "/usr/local/var/orbs";
    SetUint32 BLOCK_STORAGE_FILE_SYSTEM_MAX_BLOCK_SIZE_IN_BYTES (64 * 1024 * 1024);
    SetDuration LOGGER_FILE_TRUNCATION_INTERVAL (24 * Hour);
    SetBool LOGGER_FULL_LOG false;
    SetBool PROFILING false;
    SetString HTTP_ADDRESS ":8080"
  ].

Definition ForProduction (processorArtifactPath : string) : config :=
  calls defaultProductionConfig
    (if negb (String.eqb processorArtifactPath "") then [SetString PROCESSOR_ARTIFACT_PATH processorArtifactPath] else []).

Definition ForE2E (httpAddress : string) (virtualChainId gossipListenPort : Z) (addr privateKey : bytes)
    (peers : gmap bytes gossipPeer) (validators : gmap bytes bytes)
    (blockStorageDataDirPrefix processorArtifactPath ethereumEndpoint : string) (leader : bytes) (algo : Z)
    (experimentalExternalProcessorPluginPath : string) : config :=
  calls defaultProductionConfig [
    SetUint32 VIRTUAL_CHAIN_ID (wrap 32 virtualChainId);
    SetDuration BENCHMARK_CONSENSUS_RETRY_INTERVAL (700 * Millisecond);
    SetDuration LEAN_HELIX_CONSENSUS_ROUND_TIMEOUT_INTERVAL (700 * Millisecond);
    SetBool LEAN_HELIX_SHOW_DEBUG true;
    SetActiveConsensusAlgo algo;
    SetBenchmarkConsensusConstantLeader leader;
    SetDuration BLOCK_SYNC_NO_COMMIT_INTERVAL (3 * Second);
    SetUint32 CONSENSUS_CONTEXT_MAXIMUM_TRANSACTIONS_IN_BLOCK 1000;
    SetDuration CONSENSUS_CONTEXT_SYSTEM_TIMESTAMP_ALLOWED_JITTER (30 * Second);
    SetUint32 BLOCK_TRACKER_GRACE_DISTANCE 5;
    SetDuration BLOCK_TRACKER_GRACE_TIMEOUT (1 * Second);
    SetDuration TRANSACTION_POOL_TIME_BETWEEN_EMPTY_BLOCKS (3 * Second);
    SetDuration BLOCK_SYNC_COLLECT_RESPONSE_TIMEOUT (500 * Millisecond);
    SetDuration BLOCK_SYNC_COLLECT_CHUNKS_TIMEOUT (2 * Second);
    SetUint32 TRANSACTION_POOL_PROPAGATION_BATCH_SIZE 1000;
    SetDuration TRANSACTION_POOL_PROPAGATION_BATCHING_TIMEOUT (50 * Millisecond);
    SetUint32 GOSSIP_LISTEN_PORT (wrap 32 gossipListenPort);
    SetDuration GOSSIP_CONNECTION_KEEP_ALIVE_INTERVAL (500 * Millisecond);
    SetDuration GOSSIP_NETWORK_TIMEOUT (4 * Second);
    SetDuration GOSSIP_RECONNECT_INTERVAL (500 * Millisecond);
    SetGossipPeers peers;
    SetGenesisValidatorNodes validators;
    SetString ETHEREUM_ENDPOINT ethereumEndpoint;
    SetUint32 BLOCK_STORAGE_FILE_SYSTEM_MAX_BLOCK_SIZE_IN_BYTES (64 * 1024 * 1024);
    SetString BLOCK_STORAGE_FILE_SYSTEM_DATA_DIR (path_Join [blockStorageDataDirPrefix; address_String addr]);
    SetBool PROCESSOR_SANITIZE_DEPLOYED_CONTRACTS true;
    if negb (String.eqb processorArtifactPath "") then SetString PROCESSOR_ARTIFACT_PATH processorArtifactPath else id;
    SetString HTTP_ADDRESS httpAddress;
    SetNodeAddress addr;
    SetNodePrivateKey privateKey;
    SetString EXPERIMENTAL_EXTERNAL_PROCESSOR_PLUGIN_PATH experimentalExternalProcessorPluginPath
  ].

Definition ForAcceptanceTestNetwork (validators : gmap bytes bytes) (leader : bytes)
    (algo maxTxPerBlock requiredQuorumPercentage virtualChainId emptyBlockTime managementUpdateTime : Z) : config :=
  let emptyBlockTime := if emptyBlockTime =? 0 then 50 * Millisecond else emptyBlockTime in
  calls defaultProductionConfig [
    SetDuration MANAGEMENT_UPDATE_INTERVAL managementUpdateTime;
    SetDuration BENCHMARK_CONSENSUS_RETRY_INTERVAL (50 * Millisecond);
    SetDuration LEAN_HELIX_CONSENSUS_ROUND_TIMEOUT_INTERVAL (200 * Millisecond);
    SetBool LEAN_HELIX_SHOW_DEBUG true;
    SetDuration TRANSACTION_POOL_TIME_BETWEEN_EMPTY_BLOCKS emptyBlockTime;
    SetUint32 BENCHMARK_CONSENSUS_REQUIRED_QUORUM_PERCENTAGE requiredQuorumPercentage;
    SetDuration BLOCK_TRACKER_GRACE_TIMEOUT (300 * Millisecond);
    SetDuration PUBLIC_API_SEND_TRANSACTION_TIMEOUT (24 * Hour);
    SetDuration PUBLIC_API_NODE_SYNC_WARNING_TIME (3000 * Millisecond);
    SetUint32 CONSENSUS_CONTEXT_MAXIMUM_TRANSACTIONS_IN_BLOCK maxTxPerBlock;
    SetUint32 TRANSACTION_POOL_PROPAGATION_BATCH_SIZE 5;
    SetDuration TRANSACTION_POOL_PROPAGATION_BATCHING_TIMEOUT (3 * Millisecond);
    SetUint32 BLOCK_SYNC_NUM_BLOCKS_IN_BATCH 5;
    SetDuration BLOCK_SYNC_NO_COMMIT_INTERVAL (200 * Millisecond);
    SetDuration BLOCK_SYNC_COLLECT_RESPONSE_TIMEOUT (15 * Millisecond);
    SetDuration BLOCK_SYNC_COLLECT_CHUNKS_TIMEOUT (15 * Millisecond);
    SetDuration ETHEREUM_FINALITY_TIME_COMPONENT (0 * Millisecond);
    SetUint32 ETHEREUM_FINALITY_BLOCKS_COMPONENT 0;
    SetUint32 VIRTUAL_CHAIN_ID (wrap 32 virtualChainId);
    SetGenesisValidatorNodes validators;
    SetBenchmarkConsensusConstantLeader leader;
    SetActiveConsensusAlgo algo
  ].

Definition TemplateForGamma (validators : gmap bytes bytes) (leader : bytes) : config :=
  calls defaultProductionConfig [
    SetDuration BENCHMARK_CONSENSUS_RETRY_INTERVAL (100 * Millisecond);
    SetDuration TRANSACTION_POOL_TIME_BETWEEN_EMPTY_BLOCKS (10 * Minute);
    SetUint32 BENCHMARK_CONSENSUS_REQUIRED_QUORUM_PERCENTAGE 100;
    SetDuration LEAN_HELIX_CONSENSUS_ROUND_TIMEOUT_INTERVAL (700 * Millisecond);
    SetBool LEAN_HELIX_SHOW_DEBUG true;
    SetDuration BLOCK_TRACKER_GRACE_TIMEOUT (100 * Millisecond);
    SetDuration PUBLIC_API_SEND_TRANSACTION_TIMEOUT (10 * Second);
    SetDuration PUBLIC_API_NODE_SYNC_WARNING_TIME (24 * Hour);
    SetUint32 CONSENSUS_CONTEXT_MAXIMUM_TRANSACTIONS_IN_BLOCK 10;
    SetBool CONSENSUS_CONTEXT_TRIGGERS_ENABLED false;
    SetUint32 TRANSACTION_POOL_PROPAGATION_BATCH_SIZE 5;
    SetDuration TRANSACTION_POOL_PROPAGATION_BATCHING_TIMEOUT (10 * Millisecond);
    SetDuration TRANSACTION_POOL_NODE_SYNC_REJECT_TIME (24 * Hour);
    SetUint32 BLOCK_SYNC_NUM_BLOCKS_IN_BATCH 5;
    SetDuration BLOCK_SYNC_NO_COMMIT_INTERVAL (1 * Second);
    SetDuration BLOCK_SYNC_COLLECT_RESPONSE_TIMEOUT (100 * Millisecond);
    SetDuration BLOCK_SYNC_COLLECT_CHUNKS_TIMEOUT (100 * Millisecond);
    SetDuration ETHEREUM_FINALITY_TIME_COMPONENT (10 * Second);
    SetUint32 ETHEREUM_FINALITY_BLOCKS_COMPONENT 1;
    SetUint32 BLOCK_STORAGE_FILE_SYSTEM_MAX_BLOCK_SIZE_IN_BYTES (64 * 1024 * 1024);
    SetString ETHEREUM_ENDPOINT "http://host.docker.internal:7545";
    SetGenesisValidatorNodes validators;
    SetBenchmarkConsensusConstantLeader leader;
    SetActiveConsensusAlgo CONSENSUS_ALGO_TYPE_BENCHMARK_CONSENSUS;
    SetString PROCESSOR_ARTIFACT_PATH (path_Join [GetProjectSourceTmpPath; "processor-artifacts"]);
    SetBool PROCESSOR_PERFORM_WARM_UP_COMPILATION false
  ].
End Presets.

(** The copy of a configuration for one node (factory.go). *)
Definition ForNode (c : config) (addr privateKey : bytes) : config :=
  SetNodePrivateKey privateKey (SetNodeAddress addr (Clone c)).

(** ** Validation (validator.go) *)

Inductive config_error :=
| ErrSyncBelowBenchmark
| ErrSyncBelowLeanHelix
| ErrNoNodeAddress
| ErrNoValidators
| ErrNoPrivateKey
| ErrTestSign (e : signature_error)
| ErrTestRecover (e : signature_error)
| ErrWrongAddress
| ErrNoPeers.

Section Validate.
Context `{Sha256} `{NodeKeys}.

Definition requireCorrectNodeAddressAndPrivateKey (address key : bytes) : outcome config_error unit :=
  let msg := replicate 32 0 in
  match SignEcdsaSecp256K1 key msg with
  | Err e => Err (ErrTestSign e)
  | Panic => Panic
  | Ok sign =>
      match RecoverEcdsaSecp256K1 msg sign with
      | Err e => Err (ErrTestRecover e)
      | Panic => Panic
      | Ok recoveredPublicKey =>
          if bool_decide (address <> CalcNodeAddressFromPublicKey recoveredPublicKey) then Err ErrWrongAddress else Ok tt
      end
  end.

Definition ValidateNodeLogic (cfg : NodeConfig) : outcome config_error unit :=
  if BlockSyncNoCommitInterval cfg <? BenchmarkConsensusRetryInterval cfg then Err ErrSyncBelowBenchmark
  else if BlockSyncNoCommitInterval cfg <? LeanHelixConsensusRoundTimeoutInterval cfg then Err ErrSyncBelowLeanHelix
  else if bool_decide (NodeAddress cfg = []) then Err ErrNoNodeAddress
  else if bool_decide (GenesisValidatorNodes cfg = ∅) then Err ErrNoValidators
  else if String.eqb (SignerEndpoint cfg) "" then
    if bool_decide (NodePrivateKey cfg = []) then Err ErrNoPrivateKey
    else requireCorrectNodeAddressAndPrivateKey (NodeAddress cfg) (NodePrivateKey cfg)
  else Ok tt.
End Validate.

Definition ValidateInMemoryManagement (cfg : NodeConfig) : outcome config_error unit :=
  if bool_decide (GossipPeers cfg = ∅) then Err ErrNoPeers
  else if bool_decide (GenesisValidatorNodes cfg = ∅) then Err ErrNoValidators
  else Ok tt.

(** ** The presets pass the validation *)

Lemma Clone_id c : Clone c = c.
Proof.
  destruct c as [m v p a k l g]. unfold Clone. cbn. f_equal.
  induction m as [|i x m Hi IH] using map_ind; [by rewrite map_fold_empty|].
  rewrite map_fold_insert_L; [by rewrite IH| |done].
  intros i1 i2 x1 x2 y Hne _ _. by rewrite insert_insert_ne.
Qed.

Lemma key_of_inj : Inj (=) (=) key_of.
Proof. intros s t. destruct s, t; cbn; congruence. Qed.

Section PresetsValid.
Context `{Sha256} `{NodeKeys}.
Variable GetProjectSourceTmpPath : string.
Variable CONSENSUS_ALGO_TYPE_BENCHMARK_CONSENSUS : Z.
Variables (addr key : bytes) (validators : gmap bytes bytes).
Hypothesis some_validators : validators <> ∅.
Hypothesis address_of_key : addr <> [] /\ key <> [] /\ requireCorrectNodeAddressAndPrivateKey addr key = Ok tt.

(** What the validation reads of a configuration. *)
Lemma ValidateNodeLogic_passes (c : config) :
  genesisValidatorNodes c = validators -> nodeAddress c = addr -> nodePrivateKey c = key ->
  DurationValue (get c BENCHMARK_CONSENSUS_RETRY_INTERVAL) <= DurationValue (get c BLOCK_SYNC_NO_COMMIT_INTERVAL) ->
  DurationValue (get c LEAN_HELIX_CONSENSUS_ROUND_TIMEOUT_INTERVAL) <= DurationValue (get c BLOCK_SYNC_NO_COMMIT_INTERVAL) ->
  ValidateNodeLogic (asNodeConfig c) = Ok tt.
Proof.
  intros Hv Ha Hk H1 H2. destruct address_of_key as (Hne & Hke & Hok). unfold ValidateNodeLogic. cbn -[get key_of].
  do 2 lia_if. rewrite Ha, Hv, Hk, !bool_decide_eq_false_2 by done. by destruct (String.eqb _ _).
Qed.

(** Every preset, with a key that fits the address of the node and some validators, passes. *)
Theorem presets_validate processorArtifactPath leader algo maxTx quorum vcid emptyBlockTime updateTime :
  let passes c := ValidateNodeLogic (asNodeConfig c) = Ok tt in
  passes (ForNode (SetGenesisValidatorNodes validators
    (ForProduction GetProjectSourceTmpPath CONSENSUS_ALGO_TYPE_BENCHMARK_CONSENSUS processorArtifactPath)) addr key) /\
  passes (ForNode (ForAcceptanceTestNetwork GetProjectSourceTmpPath CONSENSUS_ALGO_TYPE_BENCHMARK_CONSENSUS
    validators leader algo maxTx quorum vcid emptyBlockTime updateTime) addr key) /\
  passes (ForNode (TemplateForGamma GetProjectSourceTmpPath CONSENSUS_ALGO_TYPE_BENCHMARK_CONSENSUS validators leader) addr key) /\
  (forall httpAddress port peers dir endpoint plugin,
     passes (ForE2E GetProjectSourceTmpPath CONSENSUS_ALGO_TYPE_BENCHMARK_CONSENSUS httpAddress vcid port addr key peers
       validators dir processorArtifactPath endpoint leader algo plugin)).
Proof.
  cbn zeta. unfold ForNode. rewrite !Clone_id. split_and!; [| | |intros].
  1: unfold ForProduction; destruct (negb _).
  5: unfold ForE2E; destruct (negb _).
  all: apply ValidateNodeLogic_passes; [reflexivity..| |].
  all: try (unfold get; cbn -[Z.mul]; vm_compute; discriminate).
Qed.
End PresetsValid.
End Config.
