(* ===== verification/ConfigFile.v ===== *)
(** * Configuration files (config/file_config.go, array_flags.go)

    A file is a JSON object.  Its entries are applied to a configuration one after another
    in the order in which Go ranges over a map, which is not fixed: [populateConfig] takes
    the entries in some order, and the theorems say when the order does not matter.  The
    decoder of JSON, the files and the letters of package unicode are arguments. *)
From stdpp Require Import base gmap strings list.
From Stdlib Require Import ZArith Lia ZifyBool SpecFloat Ascii.
From S2P Require Import Prelude Hash Encoding Transport GoStd Config.

Module ConfigFile.
Import Transport GoStd Config.
Open Scope string_scope.
Open Scope Z_scope.

(** What [json.Unmarshal] makes of a document; the keys of an object are distinct. *)
Inductive json :=
| JNull
| JBool (b : bool)
| JNumber (f : spec_float)
| JString (s : string)
| JArray (items : list json)
| JObject (fields : list (string * json)).

Fixpoint field (fields : list (string * json)) (key : string) : option json :=
  match fields with
  | [] => None
  | (k, v) :: fields => if String.eqb k key then Some v else field fields key
  end.

(** ** Values *)

(** hex.DecodeString: the bytes decoded so far are returned with an error. *)
Fixpoint hex_Decode (str : bytes) : bytes * bool :=
  match str with
  | [] => ([], false)
  | [_] => ([], true)
  | hi :: lo :: rest =>
      match from_hex hi, from_hex lo with
      | Some h, Some l => let '(data, err) := hex_Decode rest in (16 * h + l :: data, err)
      | _, _ => ([], true)
      end
  end.

(** [fmt.Sprintf] of [%.0f] and [strconv.Atoi]; the conversion to uint32 wraps around. *)
Definition parseUint32 (f64 : spec_float) : option Z :=
  match float_round f64 with
  | Some i => if (- 2 ^ 63 <=? i) && (i <? 2 ^ 63) then Some (wrap 32 i) else None
  | None => None
  end.

(** The nodes and whether an address was invalid; the nodes before it are returned too.
    Another value than a string panics, another value than a list has no nodes. *)
Fixpoint parse_node_list (items : list json) (nodes : gmap bytes bytes) : outcome unit (gmap bytes bytes * bool) :=
  match items with
  | [] => Ok (nodes, false)
  | JString address :: items =>
      match hex_Decode (go_string address) with
      | (_, true) => Ok (nodes, true)
      | (nodeAddress, false) => parse_node_list items (<[nodeAddress := nodeAddress]> nodes)
      end
  | _ :: _ => Panic
  end.

Definition parseNodes (value : json) : outcome unit (gmap bytes bytes * bool) :=
  match value with
  | JArray items => parse_node_list items ∅
  | _ => Ok (∅, false)
  end.

(** The fields are read in the order address, port, ip, each only if those before it are good. *)
Fixpoint parse_peer_list (items : list json) (peers : gmap bytes gossipPeer) : outcome unit (gmap bytes gossipPeer * bool) :=
  match items with
  | [] => Ok (peers, false)
  | JObject kv :: items =>
      match field kv "address" with
      | Some (JString hexAddress) =>
          match hex_Decode (go_string hexAddress) with
          | (_, true) => Ok (peers, true)
          | (nodeAddress, false) =>
              match field kv "port" with
              | Some (JNumber port) =>
                  match parseUint32 port with
                  | None => Ok (peers, true)
                  | Some i =>
                      match field kv "ip" with
                      | Some (JString ip) =>
                          parse_peer_list items (<[nodeAddress := mkPeer i (go_string ip) (go_string hexAddress)]> peers)
                      | _ => Panic
                      end
                  end
              | _ => Panic
              end
          end
      | _ => Panic
      end
  | _ :: _ => Panic
  end.

Definition parsePeers (value : json) : outcome unit (gmap bytes gossipPeer * bool) :=
  match value with
  | JArray items => parse_peer_list items ∅
  | _ => Ok (∅, false)
  end.

(** [value.(string)] and [value.(float64)] panic on a value of another type. *)
Definition as_string {E} (value : json) : outcome E string :=
  match value with JString s => Ok s | _ => Panic end.
Definition as_float {E} (value : json) : outcome E spec_float :=
  match value with JNumber f => Ok f | _ => Panic end.
Definition forget {E A} (m : outcome unit A) : outcome E A :=
  match m with Ok a => Ok a | _ => Panic end.

(** ** Entries *)

Section Populate.
Variable unicode_ToUpper : string -> string.

Definition convertKeyName (key : string) : string := ToUpper unicode_ToUpper (Replace "-"%char "_"%char key).

(** The variables [duration], [numericValue], [stringValue] and [err] after the switch. *)
Definition decode_value (value : json) : Z * Z * string * bool :=
  match value with
  | JNumber f => match parseUint32 f with Some n => (0, n, "", false) | None => (0, 0, "", true) end
  | JString s => match ParseDuration s with Some d => (d, 0, "", false) | None => (0, 0, s, false) end
  | _ => (0, 0, "", false)
  end.

(** The body of the loop.  The keys with a meaning of their own [continue] before the
    check of [err]: what could not be decoded is used as far as it was. *)
Definition populate_entry (cfg : config) (key : string) (value : json) : outcome string config :=
  let cfg := match value with JBool b => SetBool (convertKeyName key) b cfg | _ => cfg end in
  let '(duration, numericValue, stringValue, err) := decode_value value in
  let cfg := if negb (numericValue =? 0) then SetUint32 (convertKeyName key) numericValue cfg else cfg in
  let cfg := if negb (duration =? 0) then SetDuration (convertKeyName key) duration cfg else cfg in
  if String.eqb key "benchmark-consensus-constant-leader" then
    let! s := as_string value in
    Ok (SetBenchmarkConsensusConstantLeader (hex_Decode (go_string s)).1 cfg)
  else if String.eqb key "active-consensus-algo" then
    let! f := as_float value in
    Ok (SetActiveConsensusAlgo (default 0 (parseUint32 f)) cfg)
  else if String.eqb key "node-address" then
    let! s := as_string value in
    Ok (SetNodeAddress (hex_Decode (go_string s)).1 cfg)
  else if String.eqb key "node-private-key" then
    let! s := as_string value in
    Ok (SetNodePrivateKey (hex_Decode (go_string s)).1 cfg)
  else if String.eqb key "ethereum-finality-blocks-component" then
    let! f := as_float value in
    Ok (SetUint32 ETHEREUM_FINALITY_BLOCKS_COMPONENT (default 0 (parseUint32 f)) cfg)
  else if String.eqb key "gossip-port" then
    let! f := as_float value in
    Ok (SetUint32 GOSSIP_LISTEN_PORT (default 0 (parseUint32 f)) cfg)
  else if String.eqb key "genesis-validator-addresses" then
    let! p := forget (parseNodes value) in
    Ok (SetGenesisValidatorNodes p.1 cfg)
  else if String.eqb key "federation-nodes" || String.eqb key "topology-nodes" then
    let! p := forget (parsePeers value) in
    Ok (SetGossipPeers p.1 cfg)
  else
    let cfg := if negb (String.eqb stringValue "") then SetString (convertKeyName key) stringValue cfg else cfg in
    if err then Err key else Ok cfg.

(** The error names the key. *)
Fixpoint populateConfig (cfg : config) (data : list (string * json)) : outcome string config :=
  match data with
  | [] => Ok cfg
  | (key, value) :: data => let! cfg := populate_entry cfg key value in populateConfig cfg data
  end.

Inductive file_error := ErrJson | ErrEntry (key : string) | ErrNoFile (path : string) | ErrRead (path : string).

Variable json_Unmarshal : string -> option (list (string * json)).

Definition newFileConfig (parent : config) (source : string) : outcome file_error config :=
  match json_Unmarshal source with
  | None => Err ErrJson
  | Some data =>
      match populateConfig parent data with
      | Ok cfg => Ok cfg
      | Err key => Err (ErrEntry key)
      | Panic => Panic
      end
  end.

Definition newEmptyFileConfig (source : string) : outcome file_error config := newFileConfig emptyConfig source.
Definition MergeWithFileConfig (c : config) (source : string) : outcome file_error config := newFileConfig c source.

(** A path with no file, a file that cannot be read, and the contents of a file. *)
Inductive file_state := NotExist | Unreadable | Contents (s : string).

Section Files.
Variable files : string -> file_state.
Variable GetProjectSourceTmpPath : string.
Variable CONSENSUS_ALGO_TYPE_BENCHMARK_CONSENSUS : Z.

Fixpoint merge_files (cfg : config) (configFiles : list string) : outcome file_error config :=
  match configFiles with
  | [] => Ok cfg
  | configFile :: configFiles =>
      match files configFile with
      | NotExist => Err (ErrNoFile configFile)
      | Unreadable => Err (ErrRead configFile)
      | Contents contents => let! cfg := MergeWithFileConfig cfg contents in merge_files cfg configFiles
      end
  end.

Definition GetNodeConfigFromFiles (configFiles : list string) (httpAddress : string) : outcome file_error NodeConfig :=
  let! cfg := merge_files (ForProduction GetProjectSourceTmpPath CONSENSUS_ALGO_TYPE_BENCHMARK_CONSENSUS "") configFiles in
  Ok (asNodeConfig (SetString HTTP_ADDRESS httpAddress cfg)).
End Files.
End Populate.

(** ** Entries as writes

    What an entry does to a configuration is a list of writes that does not depend on the
    configuration, and each key has its destinations. *)

Inductive target := TSetting (key : string) | TLeader | TAlgo | TAddress | TPrivateKey | TValidators | TPeers.

#[export] Instance target_eq_dec : EqDecision target.
Proof. solve_decision. Defined.

Inductive write :=
| WSetting (key : string) (v : NodeConfigValue)
| WLeader (a : bytes)
| WAlgo (n : Z)
| WAddress (a : bytes)
| WPrivateKey (k : bytes)
| WValidators (nodes : gmap bytes bytes)
| WPeers (peers : gmap bytes gossipPeer).

Definition target_of (w : write) : target :=
  match w with
  | WSetting key _ => TSetting key
  | WLeader _ => TLeader
  | WAlgo _ => TAlgo
  | WAddress _ => TAddress
  | WPrivateKey _ => TPrivateKey
  | WValidators _ => TValidators
  | WPeers _ => TPeers
  end.

Definition apply_write (c : config) (w : write) : config :=
  match w with
  | WSetting key v => Set_ key v c
  | WLeader a => SetBenchmarkConsensusConstantLeader a c
  | WAlgo n => SetActiveConsensusAlgo n c
  | WAddress a => SetNodeAddress a c
  | WPrivateKey k => SetNodePrivateKey k c
  | WValidators nodes => SetGenesisValidatorNodes nodes c
  | WPeers peers => SetGossipPeers peers c
  end.

Lemma apply_write_comm c v w :
  target_of v <> target_of w -> apply_write (apply_write c v) w = apply_write (apply_write c w) v.
Proof.
  destruct v as [k x| | | | | |], w as [k' x'| | | | | |]; cbn; intros Hne; try done.
  unfold Set_. cbn. f_equal. apply insert_insert_ne. congruence.
Qed.

Lemma apply_writes_comm c vs ws :
  (forall v w, v ∈ vs -> w ∈ ws -> target_of v <> target_of w) ->
  foldl apply_write (foldl apply_write c vs) ws = foldl apply_write (foldl apply_write c ws) vs.
Proof.
  assert (forall w c vs, (forall v, v ∈ vs -> target_of v <> target_of w) ->
    apply_write (foldl apply_write c vs) w = foldl apply_write (apply_write c w) vs) as Hone.
  { clear. intros w c vs. revert c. induction vs as [|v vs IH]; intros c Hne; [done|]. cbn.
    rewrite IH by set_solver. by rewrite apply_write_comm by set_solver. }
  revert c. induction ws as [|w ws IH]; intros c Hne; [done|]. cbn. rewrite <- IH by set_solver.
  by rewrite Hone by set_solver.
Qed.

(** The setting that a sequence of writes leaves behind. *)
Fixpoint last_setting (k : string) (ws : list write) : option NodeConfigValue :=
  match ws with
  | [] => None
  | w :: ws =>
      match last_setting k ws with
      | Some v => Some v
      | None => match w with WSetting key v => if String.eqb key k then Some v else None | _ => None end
      end
  end.

Lemma apply_writes_kv c ws k :
  kv (foldl apply_write c ws) !! k = match last_setting k ws with Some v => Some v | None => kv c !! k end.
Proof.
  revert c. induction ws as [|w ws IH]; intros c; [done|]. cbn [foldl last_setting]. rewrite IH.
  destruct (last_setting k ws); [done|]. destruct w as [key v| | | | | |]; try done. cbn.
  destruct (String.eqb_spec key k) as [->|Hne]; [by rewrite lookup_insert_eq|by rewrite lookup_insert_ne].
Qed.

Section Writes.
Variable unicode_ToUpper : string -> string.

(** The keys with a meaning of their own. *)
Definition special_keys : list string :=
  ["benchmark-consensus-constant-leader"; "active-consensus-algo"; "node-address"; "node-private-key";
   "ethereum-finality-blocks-component"; "gossip-port"; "genesis-validator-addresses"; "federation-nodes"; "topology-nodes"].

Definition special_targets (key : string) : list target :=
  if String.eqb key "benchmark-consensus-constant-leader" then [TLeader]
  else if String.eqb key "active-consensus-algo" then [TAlgo]
  else if String.eqb key "node-address" then [TAddress]
  else if String.eqb key "node-private-key" then [TPrivateKey]
  else if String.eqb key "gossip-port" then [TSetting GOSSIP_LISTEN_PORT]
  else if String.eqb key "genesis-validator-addresses" then [TValidators]
  else if String.eqb key "federation-nodes" || String.eqb key "topology-nodes" then [TPeers]
  else [].

Definition destinations (key : string) : list target := TSetting (convertKeyName unicode_ToUpper key) :: special_targets key.

(** The setting that a value gives; zero, the empty string and a duration of zero give none. *)
Definition setting_of (value : json) : option NodeConfigValue :=
  match value with
  | JBool b => Some (mkValue 0 0 "" b)
  | JNumber f => match parseUint32 f with Some n => if n =? 0 then None else Some (mkValue n 0 "" false) | None => None end
  | JString s =>
      match ParseDuration s with
      | Some d => if d =? 0 then None else Some (mkValue 0 d "" false)
      | None => if String.eqb s "" then None else Some (mkValue 0 0 s false)
      end
  | _ => None
  end.

(** Text under a key with a meaning of its own is not kept as a setting. *)
Definition plain_writes (key : string) (value : json) : list write :=
  match setting_of value with
  | Some v =>
      if String.eqb (StringValue v) "" || bool_decide (key ∉ special_keys)
      then [WSetting (convertKeyName unicode_ToUpper key) v] else []
  | None => []
  end.

Definition special_writes (key : string) (value : json) : list write :=
  match value with
  | JString s =>
      let a := (hex_Decode (go_string s)).1 in
      if String.eqb key "benchmark-consensus-constant-leader" then [WLeader a]
      else if String.eqb key "node-address" then [WAddress a]
      else if String.eqb key "node-private-key" then [WPrivateKey a]
      else []
  | JNumber f =>
      let n := default 0 (parseUint32 f) in
      if String.eqb key "active-consensus-algo" then [WAlgo n]
      else if String.eqb key "ethereum-finality-blocks-component"
      then [WSetting ETHEREUM_FINALITY_BLOCKS_COMPONENT (mkValue n 0 "" false)]
      else if String.eqb key "gossip-port" then [WSetting GOSSIP_LISTEN_PORT (mkValue n 0 "" false)]
      else []
  | _ => []
  end ++
  (if String.eqb key "genesis-validator-addresses"
   then match parseNodes value with Ok (nodes, _) => [WValidators nodes] | _ => [] end
   else if String.eqb key "federation-nodes" || String.eqb key "topology-nodes"
   then match parsePeers value with Ok (peers, _) => [WPeers peers] | _ => [] end
   else []).

Definition entry_writes (e : string * json) : list write := plain_writes e.1 e.2 ++ special_writes e.1 e.2.

(** Whether an entry is applied does not depend on the configuration. *)
Definition entry_ok (e : string * json) : bool :=
  match populate_entry unicode_ToUpper emptyConfig e.1 e.2 with Ok _ => true | _ => false end.

Lemma ordinary_or_special key : key ∉ special_keys \/ key ∈ special_keys.
Proof. destruct (decide (key ∈ special_keys)); auto. Qed.

Lemma not_special key name : key ∉ special_keys -> name ∈ special_keys -> String.eqb key name = false.
Proof. intros Hk Hn. destruct (String.eqb_spec key name) as [->|]; done. Qed.

(** An ordinary key. *)
Lemma populate_ordinary cfg key value :
  key ∉ special_keys ->
  populate_entry unicode_ToUpper cfg key value =
    if (decode_value value).2 then Err key else Ok (foldl apply_write cfg (plain_writes key value)).
Proof.
  intros Hk. unfold populate_entry, plain_writes. rewrite !(not_special key _ Hk) by (unfold special_keys; set_solver).
  rewrite (bool_decide_eq_true_2 (key ∉ special_keys)) by done.
  destruct value as [|b|f|s| |]; cbn [decode_value setting_of snd]; try done.
  - destruct (parseUint32 f) as [n|]; [|done]. by destruct (n =? 0).
  - destruct (ParseDuration s) as [d|]; [by destruct (d =? 0)|].
    destruct (String.eqb s "") eqn:E; [done|]. by rewrite orb_true_r.
Qed.

Lemma special_writes_ordinary key value : key ∉ special_keys -> special_writes key value = [].
Proof. intros Hk. unfold special_writes. rewrite !(not_special key _ Hk) by (unfold special_keys; set_solver). by destruct value. Qed.

(** A key with a meaning of its own. *)
Lemma populate_special cfg key value c :
  key ∈ special_keys -> populate_entry unicode_ToUpper cfg key value = Ok c ->
  c = foldl apply_write cfg (entry_writes (key, value)).
Proof.
  intros Hk. unfold populate_entry, entry_writes, plain_writes. rewrite (bool_decide_eq_false_2 (key ∉ special_keys)) by tauto.
  unfold special_keys in Hk. rewrite !elem_of_cons, elem_of_nil in Hk.
  destruct_or! Hk; try done; subst key; cbn -[convertKeyName hex_Decode ParseDuration];
    destruct value as [|b|f|s|items|fields]; cbn -[convertKeyName hex_Decode ParseDuration]; try done;
    try (destruct (parseUint32 f) as [n|]; [destruct (n =? 0)|]; cbn; by intros [= <-]);
    try (destruct (ParseDuration s) as [d|]; [destruct (d =? 0)|destruct (String.eqb s "") eqn:E]; cbn;
         try rewrite E; by intros [= <-]);
    try by intros [= <-].
  all: try (destruct (parse_node_list items ∅) as [[nodes err]| |]; cbn; by intros [= <-]).
  all: try (destruct (parse_peer_list items ∅) as [[peers err]| |]; cbn; by intros [= <-]).
Qed.

Lemma populate_special_ok cfg cfg' key value c :
  key ∈ special_keys -> populate_entry unicode_ToUpper cfg key value = Ok c ->
  exists c', populate_entry unicode_ToUpper cfg' key value = Ok c'.
Proof.
  intros Hk. unfold populate_entry. destruct (decode_value value) as [[[d n] s] err].
  unfold special_keys in Hk. rewrite !elem_of_cons, elem_of_nil in Hk.
  destruct_or! Hk; try done; subst key; cbn; destruct value; cbn; try done; eauto.
  all: try (destruct (parse_node_list items ∅) as [[nodes ?]| |]; cbn; try done; eauto).
  all: destruct (parse_peer_list items ∅) as [[peers ?]| |]; cbn; try done; eauto.
Qed.

Lemma populate_entry_Ok cfg key value c :
  populate_entry unicode_ToUpper cfg key value = Ok c <->
  entry_ok (key, value) = true /\ c = foldl apply_write cfg (entry_writes (key, value)).
Proof.
  unfold entry_ok. cbn [fst snd]. destruct (ordinary_or_special key) as [Hk|Hk].
  - rewrite !populate_ordinary by done. unfold entry_writes. cbn [fst snd].
    rewrite special_writes_ordinary, app_nil_r by done. destruct (decode_value value).2; naive_solver.
  - split.
    + intros H. split; [|by apply populate_special]. by destruct (populate_special_ok _ emptyConfig _ _ _ Hk H) as [c' ->].
    + intros [H ->]. destruct (populate_entry unicode_ToUpper emptyConfig key value) eqn:E; try done.
      destruct (populate_special_ok _ cfg _ _ _ Hk E) as [c' Hc]. rewrite Hc. f_equal. by apply populate_special.
Qed.

Lemma populateConfig_Ok cfg data c :
  populateConfig unicode_ToUpper cfg data = Ok c <->
  Forall (fun e => entry_ok e = true) data /\ c = foldl apply_write cfg (data ≫= entry_writes).
Proof.
  revert cfg. induction data as [|[key value] data IH]; intros cfg; cbn [populateConfig mbind list_bind].
  - split; [intros [= <-]; by repeat constructor|by intros [_ ->]].
  - rewrite foldl_app, Forall_cons. split.
    + intros H. inv_bind H. apply populate_entry_Ok in Hx as [Hok ->]. apply IH in H as [Hall ->]. done.
    + intros [[Hok Hall] ->].
      rewrite (proj2 (populate_entry_Ok cfg key value _) (conj Hok eq_refl)). cbn [bindO]. by apply IH.
Qed.

(** The writes of an entry go to the destinations of its key. *)
Lemma entry_writes_targets key value w : w ∈ entry_writes (key, value) -> target_of w ∈ destinations key.
Proof.
  unfold entry_writes, destinations. cbn [fst snd]. rewrite elem_of_app. intros [Hw|Hw].
  - unfold plain_writes in Hw. destruct (setting_of value); [|set_solver]. destruct (_ || _); set_solver.
  - destruct (ordinary_or_special key) as [Hk|Hk]; [rewrite special_writes_ordinary in Hw by done; set_solver|].
    unfold special_keys in Hk. rewrite !elem_of_cons, elem_of_nil in Hk.
    destruct_or! Hk; try done; subst key; cbn in Hw |- *; destruct value; cbn in Hw;
      try destruct (parse_node_list items ∅) as [[? ?]| |]; try destruct (parse_peer_list items ∅) as [[? ?]| |];
      try set_solver.
Qed.

(** Entries whose keys have destinations of their own. *)
Definition no_clash (data : list (string * json)) : Prop := NoDup (data ≫= fun e => destinations e.1).

Lemma apply_entries_permute cfg data data' :
  data ≡ₚ data' -> no_clash data ->
  foldl apply_write cfg (data ≫= entry_writes) = foldl apply_write cfg (data' ≫= entry_writes).
Proof.
  unfold no_clash. intros Hp. revert cfg. induction Hp as [|e l l' Hp IH|e1 e2 l|l1 l2 l3 Hp1 IH1 Hp2 IH2]; intros cfg Hnd.
  - done.
  - cbn -[destinations entry_writes] in Hnd |- *. rewrite !foldl_app. apply NoDup_app in Hnd as (_ & _ & Hnd). by apply IH.
  - destruct e1 as [k1 v1], e2 as [k2 v2]. cbn -[destinations entry_writes] in Hnd |- *. rewrite !foldl_app. f_equal. apply apply_writes_comm.
    intros v w Hv%entry_writes_targets Hw%entry_writes_targets He. rewrite He in Hv.
    rewrite app_assoc in Hnd. apply NoDup_app in Hnd as (Hnd & _ & _). apply NoDup_app in Hnd as (_ & Hd & _). by eapply Hd.
  - rewrite IH1 by done. apply IH2. by rewrite <- Hp1.
Qed.

Lemma last_setting_app k vs ws :
  last_setting k (vs ++ ws) = match last_setting k ws with Some v => Some v | None => last_setting k vs end.
Proof.
  induction vs as [|v vs IH]; cbn [app last_setting]; [by destruct (last_setting k ws)|]. rewrite IH.
  by destruct (last_setting k ws).
Qed.

Lemma last_setting_None k ws : (forall w, w ∈ ws -> target_of w <> TSetting k) -> last_setting k ws = None.
Proof.
  induction ws as [|w ws IH]; intros Hne; [done|]. cbn [last_setting]. rewrite IH by set_solver.
  destruct w as [key v| | | | | |]; try done. destruct (String.eqb_spec key k) as [->|]; [|done].
  exfalso. by apply (Hne (WSetting k v)); [set_solver|].
Qed.

Lemma unnamed_setting k data :
  TSetting k ∉ data ≫= (fun e => destinations e.1) -> last_setting k (data ≫= entry_writes) = None.
Proof.
  intros Hk. apply last_setting_None. intros w ([key value] & Hw & He)%list_elem_of_bind Ht.
  apply Hk. apply list_elem_of_bind. exists (key, value). split; [|done]. rewrite <- Ht. by apply entry_writes_targets in Hw.
Qed.

(** An ordinary entry of a file decides its setting. *)
Lemma named_setting key value v data :
  no_clash data -> (key, value) ∈ data -> key ∉ special_keys -> setting_of value = Some v ->
  last_setting (convertKeyName unicode_ToUpper key) (data ≫= entry_writes) = Some v.
Proof.
  unfold no_clash. intros Hnd (l & l' & ->)%list_elem_of_split Hk Hv.
  rewrite bind_app. rewrite bind_app in Hnd. cbn -[destinations entry_writes] in Hnd |- *.
  apply NoDup_app in Hnd as (_ & _ & Hnd). apply NoDup_app in Hnd as (_ & Hd & _).
  rewrite !last_setting_app, unnamed_setting by (apply Hd; left).
  unfold entry_writes. cbn [fst snd]. rewrite special_writes_ordinary, app_nil_r by done. unfold plain_writes. rewrite Hv.
  rewrite (bool_decide_eq_true_2 (key ∉ special_keys)), orb_true_r by done. cbn. by rewrite String.eqb_refl.
Qed.

Section Layers.
Variable json_Unmarshal : string -> option (list (string * json)).
Variable files : string -> file_state.

Definition file_data (path : string) : option (list (string * json)) :=
  match files path with Contents s => json_Unmarshal s | _ => None end.

(** The file at the path has an entry for the setting. *)
Definition names (path : string) (k : string) : Prop :=
  exists data, file_data path = Some data /\ TSetting k ∈ data ≫= (fun e => destinations e.1).

Definition file_writes (path : string) : list write := default [] (file_data path) ≫= entry_writes.

Lemma merge_files_Ok cfg configFiles c :
  merge_files unicode_ToUpper json_Unmarshal files cfg configFiles = Ok c ->
  c = foldl apply_write cfg (configFiles ≫= file_writes).
Proof.
  revert cfg. induction configFiles as [|path paths IH]; intros cfg; cbn [merge_files mbind list_bind]; [by intros [= ->]|].
  rewrite foldl_app. unfold file_writes at 1, file_data. destruct (files path) as [| |s]; try done.
  unfold MergeWithFileConfig, newFileConfig. destruct (json_Unmarshal s) as [data|]; [|done]. cbn [default].
  destruct (populateConfig unicode_ToUpper cfg data) as [c'| |] eqn:E; try done. cbn [bindO].
  apply populateConfig_Ok in E as [_ ->]. apply IH.
Qed.

Lemma unnamed_in_files k paths :
  (forall path, path ∈ paths -> ~ names path k) -> last_setting k (paths ≫= file_writes) = None.
Proof.
  induction paths as [|path paths IH]; intros Hn; [done|]. cbn. rewrite last_setting_app, IH by set_solver.
  unfold file_writes. destruct (file_data path) as [data|] eqn:E; [|done]. cbn. apply unnamed_setting.
  intros Hk. apply (Hn path); [set_solver|]. by exists data.
Qed.
End Layers.
End Writes.

(** ** The configuration of a node from its files *)

(** The configuration that a file gives does not depend on the order in which Go ranges
    over its entries, as long as no two of them have a destination in common. *)
Theorem populateConfig_order_irrelevant unicode_ToUpper cfg data data' c :
  data ≡ₚ data' -> no_clash unicode_ToUpper data ->
  populateConfig unicode_ToUpper cfg data = Ok c -> populateConfig unicode_ToUpper cfg data' = Ok c.
Proof.
  intros Hp Hnd [Hok ->]%populateConfig_Ok. apply populateConfig_Ok.
  split; [by rewrite <- Hp|by apply apply_entries_permute].
Qed.


(** The nodes of addresses that decode. *)
Definition nodes_of (good : list string) : gmap bytes bytes :=
  foldl (fun m s => <[(hex_Decode (go_string s)).1 := (hex_Decode (go_string s)).1]> m) ∅ good.

Lemma parse_node_list_stops good bad rest nodes :
  Forall (fun s => (hex_Decode (go_string s)).2 = false) good -> (hex_Decode (go_string bad)).2 = true ->
  parse_node_list (map JString good ++ JString bad :: rest) nodes =
  Ok (foldl (fun m s => <[(hex_Decode (go_string s)).1 := (hex_Decode (go_string s)).1]> m) nodes good, true).
Proof.
  intros Hg Hb. revert nodes. induction Hg as [|s good Hs Hg IH]; intros nodes; cbn [map app parse_node_list foldl].
  - by destruct (hex_Decode (go_string bad)) as [? []].
  - destruct (hex_Decode (go_string s)) as [a err]. cbn in Hs |- *. subst err. apply IH.
Qed.

(** An invalid address among the genesis validators is not reported: the file is accepted
    with the validators before it, and those after it are left out. *)
Theorem invalid_validator_truncates unicode_ToUpper cfg good bad rest :
  Forall (fun s => (hex_Decode (go_string s)).2 = false) good -> (hex_Decode (go_string bad)).2 = true ->
  populateConfig unicode_ToUpper cfg
    [("genesis-validator-addresses", JArray (map JString good ++ JString bad :: rest))] =
  Ok (SetGenesisValidatorNodes (nodes_of good) cfg).
Proof.
  intros Hg Hb. cbn -[hex_Decode]. unfold populate_entry. cbn -[hex_Decode]. by rewrite parse_node_list_stops.
Qed.

(** A number that is zero, or a duration of zero, does not replace the value below. *)
Lemma zero_setting_ignored unicode_ToUpper cfg key :
  key ∉ special_keys ->
  populateConfig unicode_ToUpper cfg [(key, JNumber (S754_zero false))] = Ok cfg /\
  populateConfig unicode_ToUpper cfg [(key, JString "0s")] = Ok cfg.
Proof. intros Hk. cbn [populateConfig]. by rewrite !populate_ordinary. Qed.

(** *** Witnesses *)

Definition production : config := ForProduction "/src/_tmp" 2 "".

Definition sample_data : list (string * json) :=
  [("virtual-chain-id", JNumber (float64_of 1100000)); ("node-address", JString "a328846cd5b4979d68a8c58a9bdfeee657b34de7");
   ("block-sync-no-commit-interval", JString "20s"); ("ethereum-endpoint", JString "http://172.31.1.100:8545");
   ("gossip-port", JNumber (float64_of 4500)); ("profiling", JBool true)].

Definition sample_config : config :=
  calls production [SetUint32 VIRTUAL_CHAIN_ID 1100000;
    SetNodeAddress (default [] (hex_DecodeString (go_string "a328846cd5b4979d68a8c58a9bdfeee657b34de7")));
    SetDuration BLOCK_SYNC_NO_COMMIT_INTERVAL (20 * Second);
    SetString ETHEREUM_ENDPOINT "http://172.31.1.100:8545"; SetUint32 "GOSSIP_PORT" 4500; SetUint32 GOSSIP_LISTEN_PORT 4500;
    SetBool PROFILING true].

Lemma sample_no_clash : no_clash id sample_data.
Proof. unfold no_clash. apply (bool_decide_unpack _). vm_compute. exact I. Qed.

Lemma sample_populates : populateConfig id production sample_data = Ok sample_config.
Proof. vm_cast_no_check (@eq_refl (outcome string config) (Ok sample_config)). Qed.

Lemma populateConfig_order_irrelevant_witness :
  populateConfig id production (rev sample_data) = Ok sample_config.
Proof.
  apply (populateConfig_order_irrelevant id production sample_data).
  - symmetry. apply Permutation_rev.
  - exact sample_no_clash.
  - exact sample_populates.
Defined.

Definition override_data : list (string * json) :=
  [("virtual-chain-id", JNumber (float64_of 7)); ("topology-nodes", JArray [])].

Definition sample_Unmarshal (s : string) : option (list (string * json)) :=
  if String.eqb s "base" then Some sample_data else if String.eqb s "override" then Some override_data else None.

Definition sample_files (path : string) : file_state :=
  if String.eqb path "node.json" then Contents "base"
  else if String.eqb path "local.json" then Contents "override" else NotExist.

Definition sample_node : NodeConfig :=
  asNodeConfig (SetString HTTP_ADDRESS ":80" (SetUint32 VIRTUAL_CHAIN_ID 7 (SetGossipPeers ∅ sample_config))).

Lemma sample_node_loads :
  GetNodeConfigFromFiles id sample_Unmarshal sample_files "/src/_tmp" 2 ["node.json"; "local.json"] ":80" = Ok sample_node.
Proof. vm_compute. reflexivity. Qed.

Lemma override_no_interval p :
  p ∈ ["local.json"] -> ~ names id sample_Unmarshal sample_files p "BLOCK_SYNC_NO_COMMIT_INTERVAL".
Proof.
  intros ->%list_elem_of_singleton (data & [= <-] & Hin). revert Hin. apply (bool_decide_unpack _). vm_compute. exact I.
Qed.


Lemma invalid_validator_truncates_witness :
  populateConfig id production
    [("genesis-validator-addresses", JArray [JString "a328"; JString "d27x"; JString "6e2c"])] =
  Ok (SetGenesisValidatorNodes {[ [163; 40] := [163; 40] ]} production).
Proof.
  apply (invalid_validator_truncates id production ["a328"] "d27x" [JString "6e2c"]); repeat constructor.
Defined.

(** Two keys for the port of gossip: the port that is used depends on the order. *)
Example gossip_port_clash :
  exists data data' c c', data ≡ₚ data' /\
    populateConfig id production data = Ok c /\ populateConfig id production data' = Ok c' /\
    GossipListenPort (asNodeConfig c) = 4500 /\ GossipListenPort (asNodeConfig c') = 4600.
Proof.
  exists [("gossip-listen-port", JNumber (float64_of 4600)); ("gossip-port", JNumber (float64_of 4500))],
    [("gossip-port", JNumber (float64_of 4500)); ("gossip-listen-port", JNumber (float64_of 4600))].
  eexists _, _. split; [constructor|]. split; [reflexivity|]. split; [reflexivity|]. split; vm_compute; reflexivity.
Qed.
End ConfigFile.
