(* ===== verification/HttpServer.v ===== *)
(** * The HTTP server of a node (bootstrap/httpserver)

    Requests of clients reach the public API through a router (net/http's ServeMux), two
    wrappers and one handler per request; the handlers of the index, the metrics and the
    log filters stand beside them.  The encodings of membuffers, the metrics and the
    profiler are arguments; writes to the connection do not fail. *)
From stdpp Require Import base gmap strings pretty list.
From Stdlib Require Import ZArith Lia ZifyBool Ascii.
From S2P Require Import Prelude Protocol Hash Digest TransactionPool TransactionPoolService VirtualMachine Execution GoStd GoTime PublicApi.

Module HttpServer.
Import GoStd GoTime.
Open Scope string_scope.
Open Scope Z_scope.

(** ** Requests and responses (net/http) *)

(** No body, a body that cannot be read, and the bytes of a body. *)
Inductive body := NoBody | BrokenBody | Body (data : bytes).

Record Request := mkRequest {
  Method : string;
  RequestURI : string;
  URL_Path : string;
  r_Body : body
}.

(** Header names are kept in canonical form: capitals at the start and after a hyphen. *)
Fixpoint canonical_from (up : bool) (s : string) : string :=
  match s with
  | EmptyString => EmptyString
  | String c s =>
      let c' := if up then upper c
                else if (65 <=? code c) && (code c <=? 90) then char (code c + 32) else c in
      String c' (canonical_from (Ascii.eqb c "-") s)
  end.
Definition canonical (key : string) : string := canonical_from true key.

(** [w_sent] is the code with the headers at the time of the first [WriteHeader]. *)
Record ResponseWriter := mkWriter {
  w_header : gmap string string;
  w_sent : option (Z * gmap string string);
  w_body : bytes
}.

Definition new_writer : ResponseWriter := mkWriter ∅ None [].

Definition Header_Set (key value : string) (w : ResponseWriter) : ResponseWriter :=
  mkWriter (<[canonical key := value]> (w_header w)) (w_sent w) (w_body w).

Definition WriteHeader (statusCode : Z) (w : ResponseWriter) : ResponseWriter :=
  match w_sent w with
  | Some _ => w
  | None => mkWriter (w_header w) (Some (statusCode, w_header w)) (w_body w)
  end.

Definition StatusOK : Z := 200.
Definition StatusAccepted : Z := 202.
Definition StatusBadRequest : Z := 400.
Definition StatusNotFound : Z := 404.
Definition StatusInternalServerError : Z := 500.
Definition StatusNotImplemented : Z := 501.
Definition StatusServiceUnavailable : Z := 503.

Definition Write (data : bytes) (w : ResponseWriter) : ResponseWriter :=
  let w := WriteHeader StatusOK w in mkWriter (w_header w) (w_sent w) (w_body w ++ data).

(** [http.NotFound]. *)
Definition http_NotFound (w : ResponseWriter) : ResponseWriter :=
  Write (go_string "404 page not found" ++ [10])
    (WriteHeader StatusNotFound
       (Header_Set "X-Content-Type-Options" "nosniff" (Header_Set "Content-Type" "text/plain; charset=utf-8" w))).

(** ** The server *)

(** A response of the public API: its request result and its encoding.  A status that is
    none of the constants is a number. *)
Record ClientResponse := mkResponse {
  cr_RequestStatus : PublicApi.RequestStatus + Z;
  cr_BlockHeight : Z;
  cr_BlockTimestamp : Z;
  cr_Raw : bytes
}.

(** A call gives a response or none, and an error or none. *)
Definition api_call : Type := bytes -> outcome unit (option ClientResponse * option string).

Record PublicApiService := mkApi {
  SendTransaction : api_call;
  SendTransactionAsync : api_call;
  RunQuery : api_call;
  GetTransactionStatus : api_call;
  GetTransactionReceiptProof : api_call;
  GetBlock : api_call
}.

(** A filter of the logger; conditional ones are switched. *)
Inductive log_filter := ConditionalFilter (enabled : bool) | OtherFilter.

Record Server := mkServer {
  publicApi : option PublicApiService;
  Filters : list log_filter;
  Profiling : bool
}.

Definition Handler : Type := Server -> Request -> ResponseWriter -> outcome unit (Server * ResponseWriter).

Record httpErr := mkHttpErr { he_code : Z; he_message : string }.

(** The messages that clients send. *)
Inductive message :=
| SendTransactionRequest | RunQueryRequest | GetTransactionStatusRequest | GetTransactionReceiptProofRequest | GetBlockRequest.

Section Handlers.
(** Whether bytes are a valid message, and the name of a status. *)
Variable IsValid : message -> bytes -> bool.
Variable status_String : PublicApi.RequestStatus + Z -> string.
(** What the index and the metrics show, and the handlers of the profiler. *)
Variables index_json metrics_json metrics_prometheus : bytes.
Variable pprof : string -> Handler.

Definition readInput (r : Request) : bytes + httpErr :=
  match r_Body r with
  | NoBody | BrokenBody => inr (mkHttpErr StatusBadRequest "http request body is empty")
  | Body data => inl data
  end.

Definition validate (m : message) (data : bytes) : option httpErr :=
  if negb (IsValid m data) then Some (mkHttpErr StatusBadRequest "http request is not a valid membuffer") else None.

Definition translateRequestStatusToHttpCode (responseCode : PublicApi.RequestStatus + Z) : Z :=
  match responseCode with
  | inl PublicApi.REQUEST_STATUS_COMPLETED => StatusOK
  | inl PublicApi.REQUEST_STATUS_IN_PROCESS => StatusAccepted
  | inl PublicApi.REQUEST_STATUS_BAD_REQUEST => StatusBadRequest
  | inl PublicApi.REQUEST_STATUS_CONGESTION => StatusServiceUnavailable
  | inl PublicApi.REQUEST_STATUS_SYSTEM_ERROR => StatusInternalServerError
  | inl PublicApi.REQUEST_STATUS_OUT_OF_SYNC => StatusServiceUnavailable
  | inl PublicApi.REQUEST_STATUS_NOT_FOUND => StatusNotFound
  | inl PublicApi.REQUEST_STATUS_RESERVED => StatusInternalServerError
  | inr _ => StatusNotImplemented
  end.

(** The headers of a response. *)
Definition membuff_headers (w : ResponseWriter) (m : ClientResponse) (errorForVerbosity : option string) : ResponseWriter :=
  let w := Header_Set "Content-Type" "application/membuffers" w in
  let w := Header_Set "X-ORBS-REQUEST-RESULT" (status_String (cr_RequestStatus m)) w in
  let w := Header_Set "X-ORBS-BLOCK-HEIGHT" (pretty (cr_BlockHeight m)) w in
  let w := Header_Set "X-ORBS-BLOCK-TIMESTAMP" (bytes_string (sprintfTimestamp (cr_BlockTimestamp m))) w in
  match errorForVerbosity with Some e => Header_Set "X-ORBS-ERROR-DETAILS" e w | None => w end.

Definition writeMembuffResponse (w : ResponseWriter) (m : ClientResponse) (errorForVerbosity : option string) : ResponseWriter :=
  let httpCode := translateRequestStatusToHttpCode (cr_RequestStatus m) in
  Write (cr_Raw m) (WriteHeader httpCode (membuff_headers w m errorForVerbosity)).

Definition writeErrorResponseAndLog (w : ResponseWriter) (m : httpErr) : ResponseWriter :=
  Write (go_string (he_message m)) (WriteHeader (he_code m) (Header_Set "Content-Type" "text/plain" w)).

(** The handlers of the API have one body, with a message and a call each.  The error is
    dereferenced when there is no response; a call on no API is a nil dereference. *)
Definition api_handler (m : message) (call : PublicApiService -> api_call) : Handler := fun s r w =>
  match readInput r with
  | inr e => Ok (s, writeErrorResponseAndLog w e)
  | inl data =>
      match validate m data with
      | Some e => Ok (s, writeErrorResponseAndLog w e)
      | None =>
          match publicApi s with
          | None => Panic
          | Some api =>
              let! out := call api data in
              match out with
              | (Some response, err) => Ok (s, writeMembuffResponse w response err)
              | (None, Some err) => Ok (s, writeErrorResponseAndLog w (mkHttpErr StatusInternalServerError err))
              | (None, None) => Panic
              end
          end
      end
  end.

Definition sendTransactionHandler : Handler := api_handler SendTransactionRequest SendTransaction.
Definition sendTransactionAsyncHandler : Handler := api_handler SendTransactionRequest SendTransactionAsync.
Definition runQueryHandler : Handler := api_handler RunQueryRequest RunQuery.
Definition getTransactionStatusHandler : Handler := api_handler GetTransactionStatusRequest GetTransactionStatus.
Definition getTransactionReceiptProofHandler : Handler := api_handler GetTransactionReceiptProofRequest GetTransactionReceiptProof.
Definition getBlockHandler : Handler := api_handler GetBlockRequest GetBlock.

Definition Index : Handler := fun s r w =>
  if negb (String.eqb (URL_Path r) "/") then Ok (s, http_NotFound w)
  else Ok (s, Write index_json (Header_Set "Content-Type" "application/json" w)).

Definition robots : Handler := fun s r w =>
  Ok (s, Write (go_string "User-agent: *" ++ [10] ++ go_string "Disallow: /" ++ [10]) (Header_Set "Content-Type" "text/plain" w)).

Definition set_filters (enabled : bool) (s : Server) : Server :=
  mkServer (publicApi s)
    (map (fun f => match f with ConditionalFilter _ => ConditionalFilter enabled | OtherFilter => OtherFilter end) (Filters s))
    (Profiling s).

Definition filterOn : Handler := fun s r w =>
  if negb (String.eqb (Method r) "POST") then Ok (s, WriteHeader StatusBadRequest w)
  else Ok (set_filters true s, Write (go_string "filter on") (Header_Set "Content-Type" "text/plain" w)).

Definition filterOff : Handler := fun s r w =>
  if negb (String.eqb (Method r) "POST") then Ok (s, WriteHeader StatusBadRequest w)
  else Ok (set_filters false s, Write (go_string "filter off") (Header_Set "Content-Type" "text/plain" w)).

Definition dumpMetricsAsJSON : Handler := fun s r w =>
  Ok (s, Write metrics_json (Header_Set "Content-Type" "application/json; charset=utf-8" w)).

Definition dumpMetricsAsPrometheus : Handler := fun s r w =>
  Ok (s, Write metrics_prometheus (Header_Set "Content-Type" "text/plain; charset=utf-8" w)).

(** ** Wrappers and routes *)

Definition wrapHandlerWithCORS (f : Handler) : Handler := fun s r w =>
  let w := Header_Set "Access-Control-Allow-Origin" "*" w in
  let w := Header_Set "Access-Control-Allow-Headers" "*" w in
  let w := Header_Set "Access-Control-Allow-Methods" "*" w in
  if String.eqb (Method r) "OPTIONS" then Ok (s, WriteHeader StatusOK w) else f s r w.

Definition wrapHandlerWithPublicApiChecker (f : Handler) : Handler := fun s r w =>
  match publicApi s with
  | None => Ok (s, WriteHeader StatusServiceUnavailable w)
  | Some _ => f s r w
  end.

(** A pattern with its handler. *)
Definition registerHttpHandler (urlPath : string) (withCORS : bool) (handler : Handler) : string * Handler :=
  let handler := if withCORS then wrapHandlerWithCORS handler else handler in
  let handler := if HasPrefix urlPath "/api" then wrapHandlerWithPublicApiChecker handler else handler in
  (urlPath, handler).

Definition registerPprof : list (string * Handler) :=
  [("/debug/pprof/", pprof "Index"); ("/debug/pprof/cmdline", pprof "Cmdline");
   ("/debug/pprof/symbol", pprof "Symbol"); ("/debug/pprof/trace", pprof "Trace")].

Definition createRouter (profiling : bool) : list (string * Handler) :=
  [registerHttpHandler "/api/v1/send-transaction" true sendTransactionHandler;
   registerHttpHandler "/api/v1/send-transaction-async" true sendTransactionAsyncHandler;
   registerHttpHandler "/api/v1/run-query" true runQueryHandler;
   registerHttpHandler "/api/v1/get-transaction-status" true getTransactionStatusHandler;
   registerHttpHandler "/api/v1/get-transaction-receipt-proof" true getTransactionReceiptProofHandler;
   registerHttpHandler "/api/v1/get-block" true getBlockHandler;
   registerHttpHandler "/metrics" true dumpMetricsAsJSON;
   registerHttpHandler "/metrics.json" true dumpMetricsAsJSON;
   registerHttpHandler "/metrics.prometheus" true dumpMetricsAsPrometheus;
   registerHttpHandler "/robots.txt" false robots;
   registerHttpHandler "/debug/logs/filter-on" false filterOn;
   registerHttpHandler "/debug/logs/filter-off" false filterOff;
   ("/", wrapHandlerWithCORS Index)]
  ++ (if profiling then registerPprof else []).

(** *** ServeMux *)

Fixpoint ends_with_slash (s : string) : bool :=
  match s with
  | EmptyString => false
  | String c EmptyString => Ascii.eqb c "/"
  | String _ s => ends_with_slash s
  end.

Definition cleanPath (p : string) : string :=
  if String.eqb p "" then "/"
  else
    let p := if HasPrefix p "/" then p else ("/" ++ p)%string in
    let np := path_Clean p in
    if ends_with_slash p && negb (String.eqb np "/") then (np ++ "/")%string else np.

Fixpoint exact (mux : list (string * Handler)) (path : string) : option Handler :=
  match mux with
  | [] => None
  | (pattern, h) :: mux => if String.eqb pattern path then Some h else exact mux path
  end.

(** The longest pattern that ends with a slash and that the path starts with. *)
Fixpoint longest (mux : list (string * Handler)) (path : string) (best : option (string * Handler)) : option (string * Handler) :=
  match mux with
  | [] => best
  | (pattern, h) :: mux =>
      let better := match best with Some (p, _) => (String.length p <? String.length pattern)%nat | None => true end in
      longest mux path (if ends_with_slash pattern && HasPrefix path pattern && better then Some (pattern, h) else best)
  end.

Definition mux_match (mux : list (string * Handler)) (path : string) : option Handler :=
  match exact mux path with
  | Some h => Some h
  | None => option_map snd (longest mux path None)
  end.

(** A path that is not registered, with the slash added registered, is redirected. *)
Definition shouldRedirect (mux : list (string * Handler)) (path : string) : bool :=
  match exact mux path with
  | Some _ => false
  | None =>
      match exact mux (path ++ "/")%string with
      | Some _ => negb (String.eqb path "") && negb (ends_with_slash path)
      | None => false
      end
  end.

(** A redirection, or a response with its code, headers and body. *)
Inductive Response := Redirected (path : string) | Responded (code : Z) (header : gmap string string) (data : bytes).

(** A handler that wrote nothing has answered with the code for success. *)
Definition finish (w : ResponseWriter) : Response :=
  let w := WriteHeader StatusOK w in
  match w_sent w with Some (code, header) => Responded code header (w_body w) | None => Responded StatusOK ∅ [] end.

Definition serve (s : Server) (r : Request) (h : option Handler) : outcome unit (Server * Response) :=
  match h with
  | None => Ok (s, finish (http_NotFound new_writer))
  | Some h => let! out := h s r new_writer in Ok (out.1, finish out.2)
  end.

Definition ServeHTTP (s : Server) (r : Request) : outcome unit (Server * Response) :=
  let mux := createRouter (Profiling s) in
  if String.eqb (RequestURI r) "*" then Ok (s, finish (WriteHeader StatusBadRequest new_writer))
  else
    let path := if String.eqb (Method r) "CONNECT" then URL_Path r else cleanPath (URL_Path r) in
    if shouldRedirect mux path then Ok (s, Redirected (path ++ "/")%string)
    else if negb (String.eqb path (URL_Path r)) then Ok (s, Redirected path)
    else serve s r (mux_match mux path).

Definition RegisterPublicApi (api : PublicApiService) (s : Server) : Server := mkServer (Some api) (Filters s) (Profiling s).
End Handlers.

(** ** The requests of clients *)

Inductive endpoint := EpSend | EpSendAsync | EpQuery | EpStatus | EpProof | EpBlock.

Definition endpoint_path (ep : endpoint) : string :=
  match ep with
  | EpSend => "/api/v1/send-transaction"
  | EpSendAsync => "/api/v1/send-transaction-async"
  | EpQuery => "/api/v1/run-query"
  | EpStatus => "/api/v1/get-transaction-status"
  | EpProof => "/api/v1/get-transaction-receipt-proof"
  | EpBlock => "/api/v1/get-block"
  end.

Definition endpoint_message (ep : endpoint) : message :=
  match ep with
  | EpSend | EpSendAsync => SendTransactionRequest
  | EpQuery => RunQueryRequest
  | EpStatus => GetTransactionStatusRequest
  | EpProof => GetTransactionReceiptProofRequest
  | EpBlock => GetBlockRequest
  end.

Definition endpoint_call (ep : endpoint) : PublicApiService -> api_call :=
  match ep with
  | EpSend => SendTransaction
  | EpSendAsync => SendTransactionAsync
  | EpQuery => RunQuery
  | EpStatus => GetTransactionStatus
  | EpProof => GetTransactionReceiptProof
  | EpBlock => GetBlock
  end.

(** The writer with the headers that allow requests from every origin. *)
Definition cors_writer : ResponseWriter :=
  Header_Set "Access-Control-Allow-Methods" "*"
    (Header_Set "Access-Control-Allow-Headers" "*" (Header_Set "Access-Control-Allow-Origin" "*" new_writer)).

Section Routes.
Variable IsValid : message -> bytes -> bool.
Variable status_String : PublicApi.RequestStatus + Z -> string.
Variables index_json metrics_json metrics_prometheus : bytes.
Variable pprof : string -> Handler.
Abbreviation serve_http := (ServeHTTP IsValid status_String index_json metrics_json metrics_prometheus pprof).
Abbreviation router := (createRouter IsValid status_String index_json metrics_json metrics_prometheus pprof).

(** Every request of a client is routed to its wrapped handler. *)
Lemma route_endpoint ep s r :
  URL_Path r = endpoint_path ep -> RequestURI r <> "*" ->
  serve_http s r = serve s r (Some (wrapHandlerWithPublicApiChecker (wrapHandlerWithCORS
    (api_handler IsValid status_String (endpoint_message ep) (endpoint_call ep))))).
Proof.
  intros Hp Hu. unfold ServeHTTP. rewrite (proj2 (String.eqb_neq _ _) Hu). rewrite Hp.
  assert ((if String.eqb (Method r) "CONNECT" then endpoint_path ep else cleanPath (endpoint_path ep)) = endpoint_path ep) as ->
    by (destruct (String.eqb _ _), ep; reflexivity).
  destruct (Profiling s), ep; reflexivity.
Qed.

(** Without a public API it is unavailable. *)
Lemma unregistered_endpoint ep s r :
  publicApi s = None -> URL_Path r = endpoint_path ep -> RequestURI r <> "*" ->
  serve_http s r = Ok (s, Responded StatusServiceUnavailable ∅ []).
Proof.
  intros Hs Hp Hu. rewrite (route_endpoint ep) by done. cbn [serve].
  unfold wrapHandlerWithPublicApiChecker. by rewrite Hs.
Qed.

(** With one, the handler runs behind the headers for other origins. *)
Lemma registered_endpoint ep s r api :
  publicApi s = Some api -> URL_Path r = endpoint_path ep -> RequestURI r <> "*" -> Method r <> "OPTIONS" ->
  serve_http s r =
    let! out := api_handler IsValid status_String (endpoint_message ep) (endpoint_call ep) s r cors_writer in
    Ok (out.1, finish out.2).
Proof.
  intros Hs Hp Hu Hm. rewrite (route_endpoint ep) by done. cbn [serve].
  unfold wrapHandlerWithPublicApiChecker, wrapHandlerWithCORS. by rewrite Hs, (proj2 (String.eqb_neq _ _) Hm).
Qed.
End Routes.

(** ** Transactions over HTTP *)

Lemma go_string_bytes b : valid_bytes b -> go_string (bytes_string b) = b.
Proof.
  intros Hb. unfold go_string, bytes_string. rewrite String.list_ascii_of_string_of_list_ascii.
  induction Hb as [|x b Hx Hb IH]; [done|]. cbn [map]. rewrite IH. f_equal. unfold char.
  rewrite N_ascii_embedding by lia. lia.
Qed.

Lemma digits_valid w n : valid_bytes (digits w n).
Proof.
  revert n. induction w as [|w IH]; intros n; [constructor|]. apply Forall_app. split; [apply IH|].
  constructor; [|constructor]. unfold digit. pose proof (Z.mod_pos_bound n 10). lia.
Qed.

Lemma drop_zeros_valid r : valid_bytes r -> valid_bytes (drop_zeros r).
Proof. induction 1; cbn [drop_zeros]; [constructor|]. destruct (_ =? 48); [done|by constructor]. Qed.

Lemma sprintfTimestamp_valid ts : valid_bytes (sprintfTimestamp ts).
Proof.
  assert (forall n, valid_bytes (fraction n)) as Hf.
  { intros n. unfold fraction. assert (valid_bytes (trim_zeros (digits 9 n))) as H.
    { unfold trim_zeros. apply Forall_rev, drop_zeros_valid, Forall_rev, digits_valid. }
    destruct (trim_zeros (digits 9 n)); [constructor|]. constructor; [lia|done]. }
  unfold sprintfTimestamp, formatRFC3339Nano, date_text, clock_text. destruct (absDate _) as [[y m] d].
  unfold valid_bytes. rewrite !Forall_app. split_and!; try apply digits_valid; try apply Hf; by apply Forall_singleton.
Qed.

(** A response whose headers were set before its code. *)
Lemma finish_write code data w :
  w_sent w = None -> finish (Write data (WriteHeader code w)) = Responded code (w_header w) (w_body w ++ data).
Proof. intros Hw. unfold finish, Write, WriteHeader. by rewrite Hw. Qed.

Lemma membuff_headers_sent status_String w m err : w_sent (membuff_headers status_String w m err) = w_sent w.
Proof. by destruct err. Qed.
Lemma membuff_headers_body status_String w m err : w_body (membuff_headers status_String w m err) = w_body w.
Proof. by destruct err. Qed.

(** The headers that a client finds. *)
Lemma membuff_headers_values status_String m err :
  let h := w_header (membuff_headers status_String cors_writer m err) in
  h !! "Access-Control-Allow-Origin" = Some "*" /\
  h !! "X-Orbs-Block-Height" = Some (pretty (cr_BlockHeight m)) /\
  h !! "X-Orbs-Block-Timestamp" = Some (bytes_string (sprintfTimestamp (cr_BlockTimestamp m))).
Proof.
  cbn zeta. unfold membuff_headers, Header_Set, cors_writer.
  destruct err; cbn [w_header]; repeat match goal with |- context [canonical ?k] => let k' := eval vm_compute in (canonical k) in change (canonical k) with k' end;
    split_and!; by simplify_map_eq.
Qed.

(** The response of the public API for a transaction, with its encoding. *)
Definition client_response (encode : PublicApi.TransactionResponse -> bytes) (t : PublicApi.TransactionResponse) : ClientResponse :=
  mkResponse (inl (PublicApi.res_RequestStatus t)) (PublicApi.res_BlockHeight t) (PublicApi.res_BlockTimestamp t) (encode t).

Section Transactions.
Context `{VirtualMachine.ArgumentArrays}.

(** The transaction is in a block, and its contract returned or failed by itself. *)
Definition executed (out : PublicApi.txOutput) : Prop :=
  (PublicApi.out_transactionStatus out = TRANSACTION_STATUS_COMMITTED \/
   PublicApi.out_transactionStatus out = TRANSACTION_STATUS_DUPLICATE_TRANSACTION_ALREADY_COMMITTED) /\
  exists receipt, PublicApi.out_transactionReceipt out = Some receipt /\
    (tr_ExecutionResult receipt = VirtualMachine.execution_result_code VirtualMachine.EXECUTION_RESULT_SUCCESS \/
     tr_ExecutionResult receipt = VirtualMachine.execution_result_code VirtualMachine.EXECUTION_RESULT_ERROR_SMART_CONTRACT).

Lemma translate_completed status result :
  PublicApi.translateTransactionStatusToRequestStatus status result = PublicApi.REQUEST_STATUS_COMPLETED <->
  (status = TRANSACTION_STATUS_COMMITTED \/ status = TRANSACTION_STATUS_DUPLICATE_TRANSACTION_ALREADY_COMMITTED) /\
  exists code, result = Some code /\
    (code = VirtualMachine.execution_result_code VirtualMachine.EXECUTION_RESULT_SUCCESS \/ code = VirtualMachine.execution_result_code VirtualMachine.EXECUTION_RESULT_ERROR_SMART_CONTRACT).
Proof.
  assert (PublicApi.translateExecutionStatusToRequestStatus result = PublicApi.REQUEST_STATUS_COMPLETED <->
    exists code, result = Some code /\
      (code = VirtualMachine.execution_result_code VirtualMachine.EXECUTION_RESULT_SUCCESS \/ code = VirtualMachine.execution_result_code VirtualMachine.EXECUTION_RESULT_ERROR_SMART_CONTRACT)) as Hx.
  { unfold PublicApi.translateExecutionStatusToRequestStatus. destruct result as [code|]; [|naive_solver].
    destruct (Z.eqb_spec code (VirtualMachine.execution_result_code VirtualMachine.EXECUTION_RESULT_SUCCESS)) as [->|H1]; [naive_solver|].
    destruct (Z.eqb_spec code (VirtualMachine.execution_result_code VirtualMachine.EXECUTION_RESULT_ERROR_SMART_CONTRACT)) as [->|H2]; [naive_solver|].
    split; [repeat destruct (_ =? _); done|naive_solver]. }
  destruct status; cbn [PublicApi.translateTransactionStatusToRequestStatus]; rewrite ?Hx; naive_solver.
Qed.

Lemma completed_executed config now out t :
  t = PublicApi.toSendTxOutput out \/ t = PublicApi.toGetTxStatusOutput config now out ->
  PublicApi.res_RequestStatus t = PublicApi.REQUEST_STATUS_COMPLETED <-> executed out.
Proof.
  unfold executed. intros Ht.
  assert (PublicApi.res_RequestStatus t = PublicApi.REQUEST_STATUS_COMPLETED <->
    PublicApi.translateTransactionStatusToRequestStatus (PublicApi.out_transactionStatus out)
      (option_map tr_ExecutionResult (PublicApi.out_transactionReceipt out)) = PublicApi.REQUEST_STATUS_COMPLETED) as ->.
  { destruct Ht as [-> | ->]; [done|]. unfold PublicApi.toGetTxStatusOutput. cbn.
    destruct (PublicApi.out_transactionReceipt out); [done|].
    destruct (PublicApi.isOutputPotentiallyOutOfSync _ _ _); [|done]. split; [done|].
    intros [_ (code & ? & _)]%translate_completed. done. }
  rewrite translate_completed. destruct (PublicApi.out_transactionReceipt out); naive_solver.
Qed.

Lemma http_code_200 status : translateRequestStatusToHttpCode (inl status) = 200 <-> status = PublicApi.REQUEST_STATUS_COMPLETED.
Proof. by destruct status. Qed.
End Transactions.


(** ** Start-up: the server listens before the public API is registered *)

Section Startup.
Variable IsValid : message -> bytes -> bool.
Variable status_String : PublicApi.RequestStatus + Z -> string.
Variables index_json metrics_json metrics_prometheus : bytes.
Variable pprof : string -> Handler.

(** The handler answers every request. *)
Definition answers (s : Server) (h : Handler) : Prop := forall r w, exists out, h s r w = Ok out.

Lemma cors_answers s h : answers s h -> answers s (wrapHandlerWithCORS h).
Proof. intros Hh r w. unfold wrapHandlerWithCORS. destruct (String.eqb (Method r) "OPTIONS"); [eauto|apply Hh]. Qed.

Lemma register_answers s urlPath withCORS h :
  publicApi s = None -> HasPrefix urlPath "/api" = true \/ answers s h ->
  answers s (registerHttpHandler urlPath withCORS h).2.
Proof.
  intros Hs Hh r w. unfold registerHttpHandler. cbn [snd]. destruct (HasPrefix urlPath "/api").
  - unfold wrapHandlerWithPublicApiChecker. rewrite Hs. eauto.
  - destruct Hh as [|Hh]; [done|]. destruct withCORS; [by apply cors_answers|apply Hh].
Qed.

Lemma router_answers s :
  publicApi s = None -> (forall name, answers s (pprof name)) ->
  Forall (fun e => answers s e.2) (createRouter IsValid status_String index_json metrics_json metrics_prometheus pprof (Profiling s)).
Proof.
  intros Hs Hp. unfold createRouter. apply Forall_app. split.
  - repeat (apply Forall_cons; split); [..|constructor]; try (apply register_answers; [done|by left]).
    1-6: apply register_answers; [done|right; intros r w; cbv [dumpMetricsAsJSON dumpMetricsAsPrometheus robots filterOn filterOff]].
    1-4: eauto.
    1-2: destruct (negb _); eauto.
    apply cors_answers. intros r w. unfold Index. destruct (negb _); eauto.
  - destruct (Profiling s); [|constructor]. repeat constructor; apply Hp.
Qed.

Lemma exact_elem mux path h : exact mux path = Some h -> exists pattern, (pattern, h) ∈ mux.
Proof.
  induction mux as [|[pattern h'] mux IH]; cbn; [done|].
  destruct (String.eqb pattern path); [intros [= ->]; exists pattern; left|]. intros [p Hp]%IH. exists p. by right.
Qed.

Lemma longest_elem mux path best e : longest mux path best = Some e -> e ∈ mux \/ best = Some e.
Proof.
  revert best. induction mux as [|[pattern h'] mux IH]; cbn; intros best; [auto|].
  intros [He|He]%IH; [left; by right|]. destruct (_ && _); [|auto]. injection He as <-. left. left.
Qed.

Lemma mux_match_elem mux path h : mux_match mux path = Some h -> exists pattern, (pattern, h) ∈ mux.
Proof.
  unfold mux_match. destruct (exact mux path) as [h'|] eqn:E; [intros [= ->]; by eapply exact_elem|].
  destruct (longest mux path None) as [[p h']|] eqn:El; [|done]. intros [= ->].
  apply longest_elem in El as [El|]; [by exists p|done].
Qed.
End Startup.

(** The server listens before the public API is registered.  Until then every request is
    answered, no handler dereferences the missing API, and the requests of the API are
    answered with code 503. *)
Theorem no_panic_before_registration IsValid status_String index_json metrics_json metrics_prometheus pprof s r :
  publicApi s = None -> (forall name, answers s (pprof name)) ->
  exists s' response,
    ServeHTTP IsValid status_String index_json metrics_json metrics_prometheus pprof s r = Ok (s', response) /\
    (forall ep, URL_Path r = endpoint_path ep -> RequestURI r <> "*" -> response = Responded StatusServiceUnavailable ∅ []).
Proof.
  intros Hs Hp.
  assert (exists out, ServeHTTP IsValid status_String index_json metrics_json metrics_prometheus pprof s r = Ok out) as [[s' response] Ho].
  { unfold ServeHTTP. destruct (String.eqb (RequestURI r) "*"); [eauto|].
    destruct (shouldRedirect _ _); [eauto|]. destruct (negb _); [eauto|]. unfold serve.
    destruct (mux_match _ _) as [h|] eqn:E; [|eauto]. apply mux_match_elem in E as [pattern Hin].
    pose proof (router_answers IsValid status_String index_json metrics_json metrics_prometheus pprof s Hs Hp) as Hall.
    rewrite Forall_forall in Hall. destruct (Hall _ Hin r new_writer) as [out Hout]. cbn [snd] in Hout. rewrite Hout. cbn. eauto. }
  exists s', response. split; [done|]. intros ep Hpath Hu.
  rewrite (unregistered_endpoint _ _ _ _ _ _ ep) in Ho by done. by injection Ho as <- <-.
Qed.

(** *** Witnesses *)

Definition some_profiler (name : string) : Handler := fun s r w => Ok (s, Write (go_string name) w).
Definition any_valid (m : message) (data : bytes) : bool := negb (bool_decide (data = [])).
Definition no_names (status : PublicApi.RequestStatus + Z) : string := "".

Definition starting : Server := mkServer None [ConditionalFilter false] true.
Definition post (path : string) : Request := mkRequest "POST" path path (Body [1]).

Lemma no_panic_before_registration_witness : exists s' response,
  ServeHTTP any_valid no_names [] [] [] some_profiler starting (post "/api/v1/get-block") = Ok (s', response) /\
  response = Responded 503 ∅ [].
Proof.
  destruct (no_panic_before_registration any_valid no_names [] [] [] some_profiler starting (post "/api/v1/get-block") eq_refl)
    as (s' & response & Hok & Hresp).
  - intros name r w. eexists. reflexivity.
  - exists s', response. split; [exact Hok|]. by apply (Hresp EpBlock).
Defined.

Section Witness.
Import ExampleMachine.

Definition committed_output : PublicApi.txOutput :=
  PublicApi.mkTxOutput TRANSACTION_STATUS_COMMITTED (Some (mkReceipt [9] 1 [] [])) 5 1557225600000000123.

Definition answering : api_call := fun data =>
  Ok (Some (client_response (fun _ => [42]) (PublicApi.toSendTxOutput committed_output)), None).

Definition running : Server := mkServer (Some (mkApi answering answering answering answering answering answering)) [] false.

End Witness.
End HttpServer.
