(* ===== verification/Metrics.v ===== *)
(** * Metrics (instrumentation/metric)

    Gauges, rates, histograms and texts, and the registry of a node that holds them by name
    and exports them.  A metric is shared by the component that measures and by the
    registry: [heap] has the metrics, the registry their pointers.  The moving average and
    the histogram are libraries: class [MetricLibraries] has what is used of them. *)
From stdpp Require Import base gmap strings pretty relations list.
From Stdlib Require Import ZArith Lia ZifyBool SpecFloat Ascii.
From S2P Require Import Prelude Encoding GoStd GoTime.

Module Metrics.
Import GoStd.
Open Scope string_scope.
Open Scope Z_scope.

Class MetricLibraries := {
  MovingAverage : Type;
  NewMovingAverage : MovingAverage;
  ewma_Add : MovingAverage -> spec_float -> MovingAverage;
  ewma_Value : MovingAverage -> spec_float;
  (** A windowed histogram: its current and its merged one. *)
  WindowedHistogram : Type;
  NewWindowed : Z -> Z -> WindowedHistogram;
  RecordValue : WindowedHistogram -> Z -> option WindowedHistogram;
  Rotate_histo : WindowedHistogram -> WindowedHistogram;
  TotalCount : WindowedHistogram -> Z;
  (** Minimum, quantiles, maximum and mean of the merged histogram, and its samples. *)
  Merged : WindowedHistogram -> list spec_float * Z;
  FormatFloat : spec_float -> string
}.

(** The current histogram counts what it records, and nothing else. *)
Class MetricLibrariesLaws `{MetricLibraries} := {
  RecordValue_counts h v h' : RecordValue h v = Some h' -> TotalCount h' = TotalCount h + 1
}.

Section Metrics.
Context `{MetricLibraries}.

(** ** Gauges (gauge.go) *)

Record Gauge := mkGauge { g_name : string; g_value : Z }.

(** [atomic.AddInt64]. *)
Definition Gauge_Add (i : Z) (g : Gauge) : Gauge := mkGauge (g_name g) (GoTime.int64 (g_value g + i)).
Definition Gauge_Inc : Gauge -> Gauge := Gauge_Add 1.
Definition Gauge_AddUint32 (i : Z) : Gauge -> Gauge := Gauge_Add i.
Definition Gauge_Dec : Gauge -> Gauge := Gauge_Add (-1).
Definition Gauge_SubUint32 (size : Z) : Gauge -> Gauge := Gauge_Add (- size).
Definition Gauge_Update (i : Z) (g : Gauge) : Gauge := mkGauge (g_name g) i.

(** ** Rates (rate.go), with the times in nanoseconds *)

Definition hardCodedTickInterval : Z := Second.

Record Rate := mkRate { r_name : string; movingAverage : MovingAverage; runningSum : Z; nextTick : Z }.

Definition newRateWihStart (name : string) (start : Z) : Rate :=
  mkRate name NewMovingAverage 0 (start + hardCodedTickInterval).

Definition maybeRotateAsOf (asOf : Z) (r : Rate) : Rate :=
  if nextTick r <? asOf then
    mkRate (r_name r) (ewma_Add (movingAverage r) (float64_of (runningSum r))) 0 (nextTick r + hardCodedTickInterval)
  else r.

Definition Measure (now eventCount : Z) (r : Rate) : Rate :=
  let r := maybeRotateAsOf now r in
  mkRate (r_name r) (movingAverage r) (GoTime.int64 (runningSum r + eventCount)) (nextTick r).

Definition Rate_Reset (r : Rate) : Rate := mkRate (r_name r) NewMovingAverage (runningSum r) (nextTick r).

(** ** Histograms (histogram.go) *)

Record Histogram := mkHistogram { h_name : string; histo : WindowedHistogram; overflowCount : Z }.

Definition ROTATE_INTERVAL : Z := 30 * Second.
Definition AGGREGATION_SPAN : Z := 10 * Minute.

Definition newHistogram (name : string) (max n : Z) : Histogram := mkHistogram name (NewWindowed n max) 0.

Definition Record_ (measurement : Z) (h : Histogram) : Histogram :=
  match RecordValue (histo h) measurement with
  | Some histo' => mkHistogram (h_name h) histo' (overflowCount h)
  | None => mkHistogram (h_name h) (histo h) (GoTime.int64 (overflowCount h + 1))
  end.

Definition RecordSince (now t : Z) (h : Histogram) : Histogram := Record_ (now - t) h.
Definition Rotate (h : Histogram) : Histogram := mkHistogram (h_name h) (Rotate_histo (histo h)) (overflowCount h).

(** ** Texts (text.go) *)

Record Text := mkText { t_name : string; t_value : string }.

Definition newText (name : string) (defaultValue : list string) : Text :=
  mkText name (match defaultValue with [v] => v | _ => "" end).
Definition Text_Update (value : string) (t : Text) : Text := mkText (t_name t) value.

(** ** Exports (gauge.go, rate.go, histogram_export.go, text.go, prometheus.go) *)

Inductive metric := AGauge (g : Gauge) | ARate (r : Rate) | AHistogram (h : Histogram) | AText (t : Text).

Definition Name (m : metric) : string :=
  match m with AGauge g => g_name g | ARate r => r_name r | AHistogram h => h_name h | AText t => t_name t end.

Inductive exportedMetric :=
| gaugeExport (name : string) (value : Z)
| rateExport (name : string) (rate : spec_float) (interval : spec_float)
| histogramExport (name : string) (stats : list spec_float) (samples : Z)
| textExport (name value : string).

Definition floatToMillis (nanoseconds : spec_float) : spec_float := float_div nanoseconds (float64_of Millisecond).
Definition toMillis (nanoseconds : Z) : spec_float := floatToMillis (float64_of nanoseconds).

(** Reading a rate rotates it. *)
Definition Export (now : Z) (m : metric) : metric * exportedMetric :=
  match m with
  | AGauge g => (m, gaugeExport (g_name g) (g_value g))
  | ARate r =>
      let r := maybeRotateAsOf now r in
      (ARate r, rateExport (r_name r) (ewma_Value (movingAverage r)) (toMillis hardCodedTickInterval))
  | AHistogram h =>
      let '(stats, samples) := Merged (histo h) in (m, histogramExport (h_name h) (map floatToMillis stats) samples)
  | AText t => (m, textExport (t_name t) (t_value t))
  end.

Record prometheusRow := mkRow { row_name : string; aggregationType : string; row_value : string }.
Record prometheusKeyValuePair := mkPair { pair_name : string; pair_value : string }.

Definition quote : string := String "034"%char EmptyString.

Definition prometheusName (name : string) : string := Replace "."%char "_"%char name.

Definition wrapLabels (r : prometheusRow) (pairs : list prometheusKeyValuePair) : string :=
  let pairsCopy :=
    if String.eqb (aggregationType r) "" then pairs else (pairs ++ [mkPair "aggregation" (aggregationType r)])%list in
  let labels := map (fun p => (pair_name p ++ "=" ++ quote ++ pair_value p ++ quote)%string) pairsCopy in
  match labels with [] => "" | _ => ("{" ++ Join "," labels ++ "}")%string end.

Definition row_String (r : prometheusRow) (labelKeyValues : list prometheusKeyValuePair) : string :=
  (row_name r ++ wrapLabels r labelKeyValues ++ " " ++ row_value r)%string.

Definition PrometheusName (e : exportedMetric) : string :=
  match e with
  | gaugeExport name _ | histogramExport name _ _ => prometheusName name
  | _ => ""
  end.

Definition PrometheusType (e : exportedMetric) : string :=
  match e with gaugeExport _ _ => "gauge" | histogramExport _ _ _ => "histogram" | _ => "" end.

Definition aggregations : list string := ["min"; "median"; "95p"; "99p"; "max"; "avg"].

Definition PrometheusRow (e : exportedMetric) : list prometheusRow :=
  match e with
  | gaugeExport _ value => [mkRow (PrometheusName e) "" (pretty value)]
  | histogramExport _ stats samples =>
      (zip_with (fun a f => mkRow (PrometheusName e) a (FormatFloat f)) aggregations stats
         ++ [mkRow (PrometheusName e) "count" (FormatFloat (float64_of samples))])%list
  | _ => []
  end.

(** ** The registry (registry.go) *)

Record inMemoryRegistry := mkRegistry {
  vcid : Z;
  reg_nodeAddress : option bytes;
  metrics : list nat;
  heap : gmap nat metric;
  next : nat
}.

Definition NewRegistry : inMemoryRegistry := mkRegistry 0 None [] ∅ 0.

Definition WithVirtualChainId (id : Z) (r : inMemoryRegistry) : inMemoryRegistry :=
  mkRegistry id (reg_nodeAddress r) (metrics r) (heap r) (next r).
Definition WithNodeAddress (nodeAddress : bytes) (r : inMemoryRegistry) : inMemoryRegistry :=
  mkRegistry (vcid r) (Some nodeAddress) (metrics r) (heap r) (next r).

Definition name_of (r : inMemoryRegistry) (p : nat) : option string := Name <$> heap r !! p.

(** The first metric of the name. *)
Fixpoint find_name (r : inMemoryRegistry) (name : string) (ps : list nat) : option (nat * nat) :=
  match ps with
  | [] => None
  | p :: ps =>
      if bool_decide (name_of r p = Some name) then Some (0%nat, p)
      else match find_name r name ps with Some (i, q) => Some (S i, q) | None => None end
  end.

(** An unknown name panics. *)
Definition Get (r : inMemoryRegistry) (metricName : string) : outcome unit nat :=
  match find_name r metricName (metrics r) with Some (_, p) => Ok p | None => Panic end.

(** The last metric takes the place of the removed one. *)
Definition Remove (r : inMemoryRegistry) (name : string) : outcome unit inMemoryRegistry :=
  match find_name r name (metrics r) with
  | None => Panic
  | Some (i, _) =>
      let s := metrics r in
      let lastMetric := (length s - 1)%nat in
      match s !! lastMetric with
      | Some l => Ok (mkRegistry (vcid r) (reg_nodeAddress r) (take lastMetric (<[i := l]> s)) (heap r) (next r))
      | None => Panic
      end
  end.

(** A new metric and its pointer; a name that is taken panics. *)
Definition register (r : inMemoryRegistry) (m : metric) : outcome unit (inMemoryRegistry * nat) :=
  match find_name r (Name m) (metrics r) with
  | Some _ => Panic
  | None =>
      Ok (mkRegistry (vcid r) (reg_nodeAddress r) (metrics r ++ [next r]) (<[next r := m]> (heap r)) (S (next r)), next r)
  end.

Definition NewGauge (r : inMemoryRegistry) (name : string) : outcome unit (inMemoryRegistry * nat) :=
  register r (AGauge (mkGauge name 0)).
Definition NewRate (r : inMemoryRegistry) (name : string) (now : Z) : outcome unit (inMemoryRegistry * nat) :=
  register r (ARate (newRateWihStart name now)).
Definition NewHistogram (r : inMemoryRegistry) (name : string) (maxValue : Z) : outcome unit (inMemoryRegistry * nat) :=
  register r (AHistogram (newHistogram name maxValue (AGGREGATION_SPAN / ROTATE_INTERVAL))).
Definition NewLatency (r : inMemoryRegistry) (name : string) (maxDuration : Z) : outcome unit (inMemoryRegistry * nat) :=
  register r (AHistogram (newHistogram name maxDuration (AGGREGATION_SPAN / ROTATE_INTERVAL))).
Definition NewText (r : inMemoryRegistry) (name : string) (defaultValue : list string) : outcome unit (inMemoryRegistry * nat) :=
  register r (AText (newText name defaultValue)).

Definition set_heap (r : inMemoryRegistry) (h : gmap nat metric) : inMemoryRegistry :=
  mkRegistry (vcid r) (reg_nodeAddress r) (metrics r) h (next r).

(** What a component does with its metric: no operation changes the name. *)
Definition update (r : inMemoryRegistry) (p : nat) (f : metric -> metric) : inMemoryRegistry :=
  set_heap r (alter f p (heap r)).

(** The rotation that the trigger calls. *)
Definition rotate_metric (m : metric) : metric := match m with AHistogram h => AHistogram (Rotate h) | _ => m end.
Definition rotateAll (r : inMemoryRegistry) : inMemoryRegistry :=
  foldl (fun r p => update r p rotate_metric) r (metrics r).

Fixpoint export_all (now : Z) (r : inMemoryRegistry) (ps : list nat) (all : gmap string exportedMetric)
    : inMemoryRegistry * gmap string exportedMetric :=
  match ps with
  | [] => (r, all)
  | p :: ps =>
      match heap r !! p with
      | None => export_all now r ps all
      | Some m => let '(m', e) := Export now m in export_all now (set_heap r (<[p := m']> (heap r))) ps (<[Name m := e]> all)
      end
  end.

Definition ExportAll (now : Z) (r : inMemoryRegistry) : inMemoryRegistry * gmap string exportedMetric :=
  export_all now r (metrics r) ∅.

Definition labels (r : inMemoryRegistry) : list prometheusKeyValuePair :=
  ((if (0 <? vcid r)%Z then [mkPair "vcid" (pretty (vcid r))] else [])
     ++ match reg_nodeAddress r with Some a => [mkPair "node" (bytes_string (hex_EncodeToString a))] | None => [] end)%list.

(** The metrics in the order in which Go ranges over the map. *)
Definition MetricsToPrometheusStrings (es : list exportedMetric) (ls : list prometheusKeyValuePair) : list string :=
  es ≫= fun v =>
    if String.eqb (PrometheusType v) "" then []
    else ("# TYPE " ++ PrometheusName v ++ " " ++ PrometheusType v)%string :: map (fun row => row_String row ls) (PrometheusRow v).
End Metrics.

(** ** The registry is a map from names to metrics *)

Section Registry.
Context `{MetricLibraries}.

(** The registry has the metric under the name. *)
Definition holds (r : inMemoryRegistry) (name : string) (p : nat) : Prop := p ∈ metrics r /\ name_of r p = Some name.

(** Distinct pointers to metrics with distinct names, and fresh pointers left. *)
Definition registry_inv (r : inMemoryRegistry) : Prop :=
  NoDup (metrics r) /\
  (forall p q name, holds r name p -> holds r name q -> p = q) /\
  (forall p, p ∈ metrics r -> exists name, name_of r p = Some name) /\
  (forall p, is_Some (heap r !! p) -> (p < next r)%nat).

Lemma registry_inv_new : registry_inv NewRegistry.
Proof. split_and!; unfold holds; cbn; try set_solver; [constructor|]. intros p [m Hm]. done. Qed.

Lemma find_name_Some r name ps i p :
  find_name r name ps = Some (i, p) -> ps !! i = Some p /\ name_of r p = Some name.
Proof.
  revert i. induction ps as [|q ps IH]; intros i; cbn [find_name]; [done|]. case_bool_decide.
  - intros [= <- <-]. done.
  - destruct (find_name r name ps) as [[j p']|]; [|done]. intros [= <- <-]. cbn. by apply IH.
Qed.

Lemma find_name_None r name ps : find_name r name ps = None <-> forall p, p ∈ ps -> name_of r p <> Some name.
Proof.
  induction ps as [|q ps IH]; cbn [find_name]; [split; [set_solver|done]|]. case_bool_decide as E.
  - split; [done|]. intros Hn. exfalso. apply (Hn q); [left|done].
  - destruct (find_name r name ps) as [[j p']|]; split; try done.
    + intros Hn. exfalso. discriminate (proj2 IH ltac:(set_solver)).
    + intros _ p. rewrite elem_of_cons. intros [->|Hp]; [done|]. by apply (proj1 IH).
Qed.

(** Overwriting a position with the last element and dropping the last one takes the
    element of that position away. *)
Lemma swap_remove {A} (s : list A) i x l :
  s !! i = Some x -> s !! (length s - 1)%nat = Some l -> s ≡ₚ x :: take (length s - 1) (<[i := l]> s).
Proof.
  intros Hi Hl. destruct s as [|y s] using rev_ind; [done|]. clear IHs.
  rewrite length_app in *. cbn [length] in *. replace (length s + 1 - 1)%nat with (length s) in * by lia.
  rewrite lookup_app_r, Nat.sub_diag in Hl by lia. injection Hl as <-.
  destruct (decide (i < length s)%nat) as [Hlt|Hge].
  - rewrite lookup_app_l in Hi by done. rewrite insert_app_l, take_app_length' by (rewrite ?length_insert; done).
    rewrite <- (take_drop_middle s i x) at 1 by done. rewrite (insert_take_drop s i y) by done.
    rewrite <- app_assoc. cbn. rewrite <- Permutation_middle. do 1 f_equiv.
    f_equiv. symmetry. apply Permutation_cons_append.
  - assert (i = length s) as -> by (apply lookup_lt_Some in Hi; rewrite length_app in Hi; cbn in Hi; lia).
    rewrite lookup_app_r, Nat.sub_diag in Hi by lia. injection Hi as ->.
    rewrite insert_app_r_alt, take_app_length' by (done || lia). symmetry. apply Permutation_cons_append.
Qed.

Lemma Get_holds r name p : registry_inv r -> Get r name = Ok p <-> holds r name p.
Proof.
  intros (_ & Hfun & _). unfold Get. destruct (find_name r name (metrics r)) as [[i q]|] eqn:E.
  - apply find_name_Some in E as [Hi Hq]. assert (holds r name q) as Hh by (split; [by eapply list_elem_of_lookup_2|done]).
    split; [by intros [= <-]|]. intros Hp. f_equal. by eapply Hfun.
  - rewrite find_name_None in E. split; [done|]. intros [Hp Hn]. by destruct (E p Hp).
Qed.

Lemma name_of_new r m p : (p < next r)%nat -> Name <$> <[next r := m]> (heap r) !! p = name_of r p.
Proof. intros Hp. unfold name_of. by rewrite lookup_insert_ne by lia. Qed.

Lemma register_spec r m :
  registry_inv r ->
  match register r m with
  | Ok (r', p) =>
      registry_inv r' /\ (forall q, ~ holds r (Name m) q) /\ heap r' !! p = Some m /\
      (forall name q, holds r' name q <-> (name = Name m /\ q = p) \/ holds r name q)
  | _ => exists q, holds r (Name m) q
  end.
Proof.
  intros (Hnd & Hfun & Hall & Hfresh). unfold register. destruct (find_name r (Name m) (metrics r)) as [[i q]|] eqn:E.
  { apply find_name_Some in E as [Hi Hq]. exists q. split; [by eapply list_elem_of_lookup_2|done]. }
  rewrite find_name_None in E.
  assert (forall q, q ∈ metrics r -> (q < next r)%nat) as Hlt.
  { intros q Hq. apply Hfresh. destruct (Hall q Hq) as [name Hn]. unfold name_of in Hn. destruct (heap r !! q); [eauto|done]. }
  assert (forall name q, holds (mkRegistry (vcid r) (reg_nodeAddress r) (metrics r ++ [next r]) (<[next r := m]> (heap r)) (S (next r))) name q
      <-> (name = Name m /\ q = next r) \/ holds r name q) as Hholds.
  { intros name q. unfold holds. cbn [metrics]. rewrite elem_of_app, list_elem_of_singleton. unfold name_of at 1. cbn [heap]. split.
    - intros [[Hq| ->] Hn]; [right; rewrite name_of_new in Hn by auto; done|].
      left. rewrite lookup_insert_eq in Hn. cbn in Hn. by injection Hn.
    - intros [[-> ->]|[Hq Hn]]; [rewrite lookup_insert_eq; auto|]. rewrite name_of_new by auto. auto. }
  split_and!; [split_and!|intros q [Hq Hn]; by apply (E q Hq)|by cbn; rewrite lookup_insert_eq|exact Hholds].
  - cbn. apply NoDup_app. split_and!; [done|intros x Hx ->%list_elem_of_singleton; pose proof (Hlt _ Hx); lia|apply NoDup_singleton].
  - intros p q name [[-> ->]|Hp]%Hholds [[Hn ->]|Hq]%Hholds; [done| | |by eapply Hfun].
    + destruct Hq as [Hq Hn]. by destruct (E q Hq).
    + subst name. destruct Hp as [Hp Hn]. by destruct (E p Hp).
  - intros p Hp. cbn in Hp. apply elem_of_app in Hp as [Hp|Hp]; unfold name_of; cbn [heap].
    + rewrite name_of_new by auto. by apply Hall.
    + apply list_elem_of_singleton in Hp as ->. rewrite lookup_insert_eq. cbn. eauto.
  - intros p. cbn. destruct (decide (p = next r)) as [->|]; [lia|]. rewrite lookup_insert_ne by done. intros Hs%Hfresh. lia.
Qed.

Lemma Remove_spec r name :
  registry_inv r ->
  match Remove r name with
  | Ok r' => registry_inv r' /\ (exists q, holds r name q) /\ (forall k q, holds r' k q <-> k <> name /\ holds r k q)
  | _ => forall q, ~ holds r name q
  end.
Proof.
  intros (Hnd & Hfun & Hall & Hfresh). unfold Remove. destruct (find_name r name (metrics r)) as [[i p]|] eqn:E.
  2:{ rewrite find_name_None in E. intros q [Hq Hn]. by apply (E q Hq). }
  apply find_name_Some in E as [Hi Hp]. set (s := metrics r) in *.
  destruct (s !! (length s - 1)%nat) as [l|] eqn:El.
  2:{ apply lookup_ge_None in El. apply lookup_lt_Some in Hi. lia. }
  pose proof (swap_remove s i p l Hi El) as Hperm. set (s' := take (length s - 1) (<[i := l]> s)) in *.
  rewrite Hperm in Hnd. apply NoDup_cons in Hnd as [Hnin Hnd'].
  assert (forall q, q ∈ s <-> q = p \/ q ∈ s') as Hs by (intros q; rewrite Hperm, elem_of_cons; done).
  assert (holds r name p) as Hh by (split; [apply Hs; by left|done]).
  assert (forall k q, holds (mkRegistry (vcid r) (reg_nodeAddress r) s' (heap r) (next r)) k q <-> k <> name /\ holds r k q) as Hholds.
  { intros k q. split.
    - intros [Hq Hn]. assert (holds r k q) as Hk by (split; [apply Hs; by right|done]). split; [|done].
      intros ->. assert (q = p) as -> by (by eapply Hfun). done.
    - intros [Hne [Hq Hn]]. split; [|done]. apply Hs in Hq as [->|Hq]; [|done]. congruence. }
  split_and!; [split_and!; [done| | |done]|by exists p|exact Hholds].
  - intros q q' k [_ H1]%Hholds [_ H2]%Hholds. by eapply Hfun.
  - intros q Hq. apply Hall. apply Hs. by right.
Qed.

(** Metrics that change but keep their names leave the registry as it is. *)
Lemma set_heap_holds r h :
  (forall p, Name <$> h !! p = name_of r p) -> registry_inv r ->
  registry_inv (set_heap r h) /\ (forall name p, holds (set_heap r h) name p <-> holds r name p).
Proof.
  intros Hn (Hnd & Hfun & Hall & Hfresh).
  assert (forall name p, holds (set_heap r h) name p <-> holds r name p) as Hh.
  { intros name p. unfold holds. cbn [metrics set_heap]. unfold name_of at 1. cbn [heap set_heap]. by rewrite Hn. }
  split; [|done]. split_and!; [done| | |].
  - intros p q name H1%Hh H2%Hh. by eapply Hfun.
  - intros p Hp. unfold name_of. cbn [heap set_heap]. rewrite Hn. by apply Hall.
  - intros p [m Hm]. apply Hfresh. specialize (Hn p). cbn [heap set_heap] in Hm. rewrite Hm in Hn. unfold name_of in Hn.
    destruct (heap r !! p); [eauto|done].
Qed.

Definition keeps_name (f : metric -> metric) : Prop := forall m, Name (f m) = Name m.

Lemma rotate_keeps_name : keeps_name rotate_metric.
Proof. by intros []. Qed.

Lemma update_name r p f q : keeps_name f -> Name <$> alter f p (heap r) !! q = name_of r q.
Proof.
  intros Hf. unfold name_of. destruct (decide (q = p)) as [->|].
  - rewrite lookup_alter_eq. destruct (heap r !! p); cbn; [by rewrite Hf|done].
  - by rewrite lookup_alter_ne.
Qed.

Lemma Export_name now m : Name (Export now m).1 = Name m.
Proof.
  destruct m as [g|r|h|x]; cbn; try done; [|by destruct (Merged _)]. unfold maybeRotateAsOf. by destruct (_ <? _).
Qed.

Lemma export_all_spec now ps r all :
  registry_inv r -> (forall p, p ∈ ps -> exists name, name_of r p = Some name) ->
  registry_inv (export_all now r ps all).1 /\
  (forall name p, holds (export_all now r ps all).1 name p <-> holds r name p) /\
  (forall name, is_Some ((export_all now r ps all).2 !! name) <-> is_Some (all !! name) \/ exists p, p ∈ ps /\ name_of r p = Some name).
Proof.
  revert r all. induction ps as [|p ps IH]; intros r all Hinv Hall; cbn [export_all fst snd].
  - split_and!; [done..|]. intros name. split; [auto|]. intros [|[p [Hp _]]]; [done|]. by apply not_elem_of_nil in Hp.
  - destruct (Hall p) as [n Hn]; [left|]. unfold name_of in Hn. destruct (heap r !! p) as [m|] eqn:Em; [|done].
    cbn in Hn. injection Hn as <-. destruct (Export now m) as [m' e] eqn:Ee.
    assert (forall q, Name <$> <[p := m']> (heap r) !! q = name_of r q) as Hq.
    { intros q. unfold name_of. destruct (decide (q = p)) as [->|]; [|by rewrite lookup_insert_ne].
      rewrite lookup_insert_eq, Em. cbn. pose proof (Export_name now m) as E. rewrite Ee in E. cbn in E. by rewrite E. }
    destruct (set_heap_holds r _ Hq Hinv) as [Hinv' Hh].
    destruct (IH (set_heap r (<[p := m']> (heap r))) (<[Name m := e]> all)) as (I1 & I2 & I3); [done| |].
    { intros q Hin. unfold name_of. cbn [heap set_heap]. rewrite Hq. apply Hall. by right. }
    split_and!; [done|intros name q; by rewrite I2, Hh|]. intros name. rewrite I3, lookup_insert_is_Some'.
    assert (forall q, name_of (set_heap r (<[p := m']> (heap r))) q = name_of r q) as Hnq by (intros q; apply Hq).
    setoid_rewrite Hnq. setoid_rewrite elem_of_cons. assert (name_of r p = Some (Name m)) by (unfold name_of; by rewrite Em).
    naive_solver.
Qed.

(** What happens to a registry: metrics are made, removed, changed and exported. *)
Inductive rstep : inMemoryRegistry -> inMemoryRegistry -> Prop :=
| rstep_register r m r' p : register r m = Ok (r', p) -> rstep r r'
| rstep_Remove r name r' : Remove r name = Ok r' -> rstep r r'
| rstep_update r p f : keeps_name f -> rstep r (update r p f)
| rstep_rotate r : rstep r (rotateAll r)
| rstep_export r now : rstep r (ExportAll now r).1.

Lemma rotateAll_inv r : registry_inv r -> registry_inv (rotateAll r).
Proof.
  unfold rotateAll. generalize (metrics r). intros ps. revert r. induction ps as [|p ps IH]; intros r Hinv; [done|].
  cbn. apply IH. apply set_heap_holds; [|done]. intros q. apply update_name, rotate_keeps_name.
Qed.

Lemma rstep_inv r r' : rstep r r' -> registry_inv r -> registry_inv r'.
Proof.
  destruct 1 as [r m r' p Hr|r name r' Hr|r p f Hf|r|r now]; intros Hinv.
  - pose proof (register_spec r m Hinv) as Hs. rewrite Hr in Hs. by destruct Hs.
  - pose proof (Remove_spec r name Hinv) as Hs. rewrite Hr in Hs. by destruct Hs.
  - apply set_heap_holds; [|done]. intros q. by apply update_name.
  - by apply rotateAll_inv.
  - apply export_all_spec; [done|]. intros p Hp. destruct Hinv as (_ & _ & Hall & _). by apply Hall.
Qed.

Lemma registry_reachable_inv r : rtc rstep NewRegistry r -> registry_inv r.
Proof.
  intros Hr. assert (forall a, rtc rstep a r -> registry_inv a -> registry_inv r) as Hgo.
  { clear Hr. induction 1 as [|a b c Hs _ IH]; [done|]. intros Ha. apply IH. by eapply rstep_inv. }
  eapply Hgo; [exact Hr|apply registry_inv_new].
Qed.
End Registry.


(** ** Gauges and rates *)

Lemma int64_add a b : GoTime.int64 (GoTime.int64 a + b) = GoTime.int64 (a + b).
Proof.
  unfold GoTime.int64. f_equal. replace ((a + 2 ^ 63) mod 2 ^ 64 - 2 ^ 63 + b + 2 ^ 63) with ((a + 2 ^ 63) mod 2 ^ 64 + b) by lia.
  rewrite Zplus_mod_idemp_l. f_equal. lia.
Qed.

(** Additions from many goroutines give the same value in every order. *)
Lemma gauge_additions_commute g xs ys : xs ≡ₚ ys -> foldl (fun g i => Gauge_Add i g) g xs = foldl (fun g i => Gauge_Add i g) g ys.
Proof.
  intros Hp. revert g. induction Hp as [|x l l' Hp IH|x y l|l1 l2 l3 _ IH1 _ IH2]; intros g; cbn; [done|apply IH| |by rewrite IH1].
  f_equal. unfold Gauge_Add. cbn. rewrite !int64_add. do 2 f_equal. lia.
Qed.

(** Every measurement of a histogram is counted once, as a sample or as an overflow. *)
Lemma Record_counts `{MetricLibrariesLaws} v h :
  0 <= overflowCount h < 2 ^ 63 - 1 ->
  TotalCount (histo (Record_ v h)) + overflowCount (Record_ v h) = TotalCount (histo h) + overflowCount h + 1.
Proof.
  intros Ho. unfold Record_. destruct (RecordValue (histo h) v) as [h'|] eqn:E; cbn; [rewrite (RecordValue_counts _ _ _ E); lia|].
  unfold GoTime.int64. rewrite Z.mod_small by lia. lia.
Qed.

(** Measurements at one time. *)
Definition measure_each `{MetricLibraries} (now : Z) (counts : list Z) (r : Rate) : Rate :=
  foldl (fun r c => Measure now c r) r counts.

(** A rate moves by one tick per measurement however much time has passed: after an idle
    time of [n] ticks, [n] events of one moment are averaged as [n] ticks of one event each
    instead of one tick of [n] events. *)
Theorem idle_rate_counts_events_as_ticks `{MetricLibraries} n now r :
  nextTick r + Z.of_nat n * hardCodedTickInterval < now ->
  measure_each now (replicate (S n) 1) r =
  mkRate (r_name r)
    (foldl ewma_Add (ewma_Add (movingAverage r) (float64_of (runningSum r))) (replicate n (float64_of 1)))
    1 (nextTick r + Z.of_nat (S n) * hardCodedTickInterval).
Proof.
  assert (forall c r, nextTick r < now -> Measure now c r =
    mkRate (r_name r) (ewma_Add (movingAverage r) (float64_of (runningSum r))) (GoTime.int64 c) (nextTick r + hardCodedTickInterval)) as Hone.
  { intros c r' Hr. unfold Measure, maybeRotateAsOf. by rewrite (proj2 (Z.ltb_lt _ _) Hr). }
  unfold hardCodedTickInterval, Second in *. intros Hn. unfold measure_each. rewrite replicate_S. cbn [foldl].
  rewrite Hone by lia. change (GoTime.int64 1) with 1.
  remember (ewma_Add (movingAverage r) (float64_of (runningSum r))) as avg eqn:Ha. clear Ha.
  assert (nextTick r + 1000000000 + Z.of_nat n * 1000000000 < now + 1000000000) as Hn' by lia. clear Hn.
  replace (nextTick r + Z.of_nat (S n) * 1000000000) with (nextTick r + 1000000000 + Z.of_nat n * 1000000000) by lia.
  revert avg Hn'. generalize (nextTick r + 1000000000). induction n as [|n IH]; intros tick avg Hn.
  - cbn. f_equal. lia.
  - cbn [replicate foldl]. rewrite Hone by (cbn; lia). cbn [r_name movingAverage runningSum nextTick].
    change (GoTime.int64 1) with 1. rewrite IH by lia. f_equal. lia.
Qed.

(** *** Witnesses *)

(** An average that keeps what it is given, and a histogram that counts. *)
#[local] Instance plain_libraries : MetricLibraries := {
  MovingAverage := list spec_float;
  NewMovingAverage := [];
  ewma_Add avg f := (avg ++ [f])%list;
  ewma_Value avg := default (S754_zero false) (last avg);
  WindowedHistogram := Z;
  NewWindowed _ _ := 0;
  RecordValue h v := if 0 <=? v then Some (h + 1) else None;
  Rotate_histo h := h;
  TotalCount h := h;
  Merged h := ([], h);
  FormatFloat _ := ""
}.

#[local] Instance plain_laws : MetricLibrariesLaws.
Proof. constructor. cbn. intros h v h'. by destruct (0 <=? v); [intros [= <-]|]. Qed.

Definition two_gauges : inMemoryRegistry :=
  mkRegistry 0 None [0; 1]%nat (<[1%nat := AGauge (mkGauge "Depth" 0)]> {[0%nat := AGauge (mkGauge "Height" 0)]}) 2.


Lemma idle_rate_counts_events_as_ticks_witness :
  measure_each (61 * Second) (replicate 3 1) (newRateWihStart "Queries.PerSecond" 0) =
  mkRate "Queries.PerSecond" [float64_of 0; float64_of 1; float64_of 1] 1 (4 * Second).
Proof.
  transitivity (mkRate "Queries.PerSecond" (foldl ewma_Add (ewma_Add NewMovingAverage (float64_of 0)) (replicate 2 (float64_of 1))) 1
    (1 * Second + Z.of_nat 3 * hardCodedTickInterval)); [|reflexivity].
  apply (idle_rate_counts_events_as_ticks 2 (61 * Second) (newRateWihStart "Queries.PerSecond" 0)). vm_compute. reflexivity.
Defined.
End Metrics.
