(* ===== verification/TcpServer.v ===== *)
(** * The server of the TCP transport (services/gossip/adapter/tcp/server.go)

    The goroutine that accepts connections, one goroutine per connection and the shutdown
    of the server, as a step relation: every shared variable is read and written in a step
    of its own, in any interleaving.  A connection is read by [receiveTransportData] of
    Transport.v. *)
From stdpp Require Import base relations list.
From Stdlib Require Import ZArith Lia ZifyBool.
From S2P Require Import Prelude Encoding Transport.

Module TcpServer.
Import Transport.

(** Where the goroutine of a connection is: before its first line, reading, behind the
    return of [handleIncomingConnection], behind the test of the context with either
    result, and at its end. *)
Inductive conn_state :=
| Starting (conn : net_conn)
| Handling (conn : net_conn)
| Handled
| Leaving
| Closing
| Finished.

(** Where the main loop is: at its top, in [Accept], behind a failed [Accept], at the start
    of the deferred function, at the test of its loop, in the receive from [connClosed],
    behind it, and at its end. *)
Inductive main_state := Top | Accepting | AcceptFailed | Deferred | Testing | Receiving | Received | Returned.

(** [GracefulShutdown]: not begun, the listener forgotten, the listener closed, all done.
    It holds the lock that [IsListening] needs from the first to the last of them. *)
Inductive shutdown_state := Serving | Forgotten | ListenerClosed | ShutDown.

Record metrics := mkMetrics { acceptSuccesses : Z; acceptErrors : Z; transportErrors : Z; activeConnections : Z }.

(** [ctx_done] is the context of the server, [conn_done] that of the connections without it,
    [notified] what the listener was told, by connection.  [numOfConnections] is an int32 in
    the code: fewer than 2^31 connections are open. *)
Record server := mkServer {
  main : main_state;
  conns : list conn_state;
  numOfConnections : Z;
  ctx_done : bool;
  conn_done : bool;
  shutdown : shutdown_state;
  listener : bool;
  notified : list (nat * list bytes);
  server_metrics : metrics
}.

Definition newServer : server := mkServer Top [] 0 false false Serving false [] (mkMetrics 0 0 0 0).

Definition set_main (s : server) (m : main_state) : server :=
  mkServer m (conns s) (numOfConnections s) (ctx_done s) (conn_done s) (shutdown s) (listener s) (notified s) (server_metrics s).
Definition set_conn (s : server) (i : nat) (c : conn_state) : server :=
  mkServer (main s) (<[i := c]> (conns s)) (numOfConnections s) (ctx_done s) (conn_done s) (shutdown s) (listener s) (notified s) (server_metrics s).
Definition add_num (s : server) (d : Z) : server :=
  mkServer (main s) (conns s) (numOfConnections s + d) (ctx_done s) (conn_done s) (shutdown s) (listener s) (notified s) (server_metrics s).
Definition set_metrics (s : server) (m : metrics) : server :=
  mkServer (main s) (conns s) (numOfConnections s) (ctx_done s) (conn_done s) (shutdown s) (listener s) (notified s) m.
Definition add_conn (s : server) (c : conn_state) : server :=
  mkServer (main s) (conns s ++ [c]) (numOfConnections s) (ctx_done s) (conn_done s) (shutdown s) (listener s) (notified s) (server_metrics s).
Definition set_shutdown (s : server) (p : shutdown_state) : server :=
  mkServer (main s) (conns s) (numOfConnections s) (ctx_done s) (conn_done s) p (listener s) (notified s) (server_metrics s).
Definition cancel_ctx (s : server) : server :=
  mkServer (main s) (conns s) (numOfConnections s) true (conn_done s) (shutdown s) (listener s) (notified s) (server_metrics s).
Definition cancel_conns (s : server) : server :=
  mkServer (main s) (conns s) (numOfConnections s) (ctx_done s) true (shutdown s) (listener s) (notified s) (server_metrics s).
Definition registerListener (s : server) : server :=
  mkServer (main s) (conns s) (numOfConnections s) (ctx_done s) (conn_done s) (shutdown s) true (notified s) (server_metrics s).

Definition inc_accepted (s : server) : server :=
  let m := server_metrics s in
  set_metrics s (mkMetrics (acceptSuccesses m + 1) (acceptErrors m) (transportErrors m) (activeConnections m)).
Definition inc_acceptErrors (s : server) : server :=
  let m := server_metrics s in
  set_metrics s (mkMetrics (acceptSuccesses m) (acceptErrors m + 1) (transportErrors m) (activeConnections m)).
Definition inc_transportErrors (s : server) : server :=
  let m := server_metrics s in
  set_metrics s (mkMetrics (acceptSuccesses m) (acceptErrors m) (transportErrors m + 1) (activeConnections m)).
Definition add_active (s : server) (d : Z) : server :=
  let m := server_metrics s in
  set_metrics s (mkMetrics (acceptSuccesses m) (acceptErrors m) (transportErrors m) (activeConnections m + d)).

(** Keep-alives are not passed on, nor is anything without a listener. *)
Definition notifyListener (s : server) (i : nat) (payloads : list bytes) : server :=
  if bool_decide (payloads = []) || negb (listener s) then s
  else mkServer (main s) (conns s) (numOfConnections s) (ctx_done s) (conn_done s) (shutdown s) (listener s)
         (notified s ++ [(i, payloads)]) (server_metrics s).

(** [connCtx.Err() != nil]: the context of the connections is a child of the server's. *)
Definition conn_cancelled (s : server) : bool := conn_done s || ctx_done s.

Section Steps.
Context `{Uint32Codec}.

(** The main loop. *)
Inductive main_step : server -> server -> Prop :=
| m_quit s : main s = Top -> ctx_done s = true -> main_step s (set_main s Deferred)
| m_accept s : main s = Top -> ctx_done s = false -> main_step s (set_main s Accepting)
| m_accepted s inc rs : main s = Accepting -> (shutdown s = Serving \/ shutdown s = Forgotten) ->
    main_step s (set_main (add_num (inc_accepted (add_conn s (Starting (mkConn inc rs None)))) 1) Top)
| m_failed s : main s = Accepting -> main_step s (set_main s AcceptFailed)
| m_listening s : main s = AcceptFailed -> shutdown s = Serving -> main_step s (set_main (inc_acceptErrors s) Top)
| m_stopped s : main s = AcceptFailed -> shutdown s = ShutDown -> main_step s (set_main s Deferred)
| m_cancel s : main s = Deferred -> main_step s (set_main (cancel_conns s) Testing)
| m_wait s : main s = Testing -> 0 < numOfConnections s -> main_step s (set_main s Receiving)
| m_return s : main s = Testing -> numOfConnections s <= 0 -> main_step s (set_main s Returned)
| m_count s : main s = Received -> main_step s (set_main (add_num s (-1)) Testing).

(** The goroutine of connection [i].  The context is found cancelled in the middle of a
    message only if it is cancelled at its end. *)
Inductive conn_step (i : nat) : server -> server -> Prop :=
| c_start s c : conns s !! i = Some (Starting c) -> conn_step i s (set_conn (add_active s 1) i (Handling c))
| c_receive s inc rs cancelled payloads c' :
    conns s !! i = Some (Handling (mkConn inc rs None)) -> (cancelled <> None -> conn_cancelled s = true) ->
    receiveTransportData (mkConn inc rs cancelled) = Ok (payloads, c') ->
    conn_step i s (set_conn (notifyListener s i payloads) i (Handling (mkConn (incoming c') (reads c') None)))
| c_fail s inc rs cancelled e :
    conns s !! i = Some (Handling (mkConn inc rs None)) -> (cancelled <> None -> conn_cancelled s = true) ->
    receiveTransportData (mkConn inc rs cancelled) = Err e ->
    conn_step i s (set_conn (add_active (inc_transportErrors s) (-1)) i Handled)
| c_alone s : conns s !! i = Some Handled -> conn_cancelled s = false -> conn_step i s (set_conn s i Leaving)
| c_shutting s : conns s !! i = Some Handled -> conn_cancelled s = true -> conn_step i s (set_conn s i Closing)
| c_leave s : conns s !! i = Some Leaving -> conn_step i s (set_conn (add_num s (-1)) i Finished)
| c_closed s : conns s !! i = Some Closing -> main s = Receiving -> conn_step i s (set_main (set_conn s i Finished) Received).

(** [GracefulShutdown], the cancellation of the node's context and a listener. *)
Inductive other_step : server -> server -> Prop :=
| o_forget s : shutdown s = Serving -> other_step s (set_shutdown s Forgotten)
| o_close s : shutdown s = Forgotten -> other_step s (set_shutdown s ListenerClosed)
| o_shutdown s : shutdown s = ListenerClosed -> other_step s (cancel_ctx (set_shutdown s ShutDown))
| o_cancel s : other_step s (cancel_ctx s)
| o_register s : other_step s (registerListener s).

Inductive step : server -> server -> Prop :=
| step_main s s' : main_step s s' -> step s s'
| step_conn i s s' : conn_step i s s' -> step s s'
| step_other s s' : other_step s s' -> step s s'.

Definition reachable (s : server) : Prop := rtc step newServer s.
End Steps.

(** ** The count of connections *)

Definition tally (f : conn_state -> Z) (l : list conn_state) : Z := foldr (fun c n => f c + n) 0 l.

Lemma tally_insert f l i x y : l !! i = Some x -> tally f (<[i := y]> l) = tally f l - f x + f y.
Proof.
  revert i. induction l as [|c l IH]; intros [|i] Hi; try done.
  - injection Hi as ->. cbn. lia.
  - change (f c + tally f (<[i := y]> l) = f c + tally f l - f x + f y). rewrite (IH i) by done. lia.
Qed.

Lemma tally_app f l x : tally f (l ++ [x]) = tally f l + f x.
Proof. unfold tally. induction l as [|c l IH]; cbn [app foldr]; [lia|rewrite IH; lia]. Qed.

Lemma tally_nonneg f l : (forall c, 0 <= f c) -> 0 <= tally f l.
Proof. intros Hf. unfold tally. induction l as [|c l IH]; cbn [foldr]; [lia|specialize (Hf c); lia]. Qed.

Lemma tally_zero f l : (forall c, 0 <= f c) -> tally f l = 0 -> Forall (fun c => f c = 0) l.
Proof.
  intros Hf. induction l as [|c l IH]; [constructor|]. change (tally f (c :: l)) with (f c + tally f l). intros H.
  pose proof (Hf c). pose proof (tally_nonneg f l Hf). constructor; [lia|apply IH; lia].
Qed.

(** A connection whose goroutine has not ended, and one that is being read. *)
Definition open (c : conn_state) : Z := match c with Finished => 0 | _ => 1 end.
Definition active (c : conn_state) : Z := match c with Handling _ => 1 | _ => 0 end.

Definition counted (s : server) : Prop :=
  numOfConnections s = tally open (conns s) + (match main s with Received => 1 | _ => 0 end) /\
  activeConnections (server_metrics s) = tally active (conns s) /\
  (main s = Returned -> numOfConnections s <= 0).

Section Invariant.
Context `{Uint32Codec}.

Lemma main_step_counted s s' : main_step s s' -> counted s -> counted s'.
Proof.
  unfold counted. destruct 1 as [s Hm _|s Hm _|s inc rs Hm _|s Hm|s Hm _|s Hm _|s Hm|s Hm Hn|s Hm Hn|s Hm];
    intros (Hn' & Ha & Hr); rewrite Hm in Hn'; cbn -[tally]; rewrite ?tally_app; cbn [open active];
    split_and!; try lia; try done.
Qed.

Lemma conn_step_counted i s s' : conn_step i s s' -> counted s -> counted s'.
Proof.
  unfold counted.
  destruct 1 as [s c Hc|s inc rs ca payloads c' Hc _ _|s inc rs ca e Hc _ _|s Hc _|s Hc _|s Hc|s Hc Hm]; intros (Hn & Ha & Hr).
  all: try (unfold notifyListener; destruct (_ || _)); cbn -[tally].
  all: rewrite !(tally_insert _ _ _ _ _ Hc); cbn [open active]; try rewrite Hm in Hn; split_and!; try lia; try done.
  intros Hm. specialize (Hr Hm). lia.
Qed.

Lemma other_step_counted s s' : other_step s s' -> counted s -> counted s'.
Proof. by destruct 1. Qed.

Lemma reachable_counted s : reachable s -> counted s.
Proof.
  unfold reachable. intros Hr. assert (forall a, rtc step a s -> counted a -> counted s) as Hgo.
  { clear Hr. induction 1 as [|a b c Hs _ IH]; [done|]. intros Ha. apply IH.
    destruct Hs; eauto using main_step_counted, conn_step_counted, other_step_counted. }
  eapply Hgo; [exact Hr|]. split_and!; cbn; try done.
Qed.
End Invariant.

(** C33. The main loop of the TCP server returns only after every connection it accepted has
    ended, whatever the interleaving of accepts, reads, failures and the shutdown; no
    connection is active then. *)
Theorem server_waits_for_connections `{Uint32Codec} s :
  reachable s -> main s = Returned ->
  Forall (fun c => c = Finished) (conns s) /\ activeConnections (server_metrics s) = 0.
Proof.
  intros (Hn & Ha & Hr)%reachable_counted Hm. specialize (Hr Hm). rewrite Hm in Hn.
  assert (Forall (fun c => open c = 0) (conns s)) as Hopen.
  { assert (forall c, 0 <= open c) as Ho by (intros []; cbn; lia).
    pose proof (tally_nonneg open (conns s) Ho). apply tally_zero; [done|lia]. }
  assert (Forall (fun c => c = Finished) (conns s)) as Hall by (eapply Forall_impl; [exact Hopen|]; by intros []).
  split; [done|]. rewrite Ha. clear - Hall. induction Hall as [|c l -> _ IH]; [done|]. exact IH.
Qed.

(** A server that waits for a connection although all of them have ended. *)
Definition abandoned (s : server) : Prop := main s = Receiving /\ Forall (fun c => c = Finished) (conns s).

Lemma abandoned_step `{Uint32Codec} s s' : step s s' -> abandoned s -> abandoned s'.
Proof.
  intros Hs [Hm Hall]. destruct Hs as [s s' Hs|i s s' Hs|s s' Hs].
  - destruct Hs; congruence.
  - assert (forall c, conns s !! i = Some c -> c = Finished) as Hi by (intros c Hc; by eapply Forall_lookup_1 in Hall; [|exact Hc]).
    destruct Hs; by specialize (Hi _ ltac:(eassumption)).
  - by destruct Hs.
Qed.

(** The connection has failed and found the context open; the shutdown begins; the main loop
    counts the connection and waits; the connection takes itself off the count. *)
Definition race_conn : net_conn := mkConn [] [] None.

Definition raced (m : main_state) (c : conn_state) (num : Z) (done_ : bool) (p : shutdown_state) (errors act : Z) : server :=
  mkServer m [c] num done_ (match m with Testing | Receiving => true | _ => false end) p false [] (mkMetrics 1 0 errors act).

Lemma race_before_shutdown `{Uint32Codec} : rtc step newServer (raced Top Leaving 1 false Serving 1 0).
Proof.
  eapply rtc_l; [apply step_main, m_accept; done|]. eapply rtc_l; [apply step_main, (m_accepted _ [] []); [done|by left]|].
  eapply rtc_l; [apply (step_conn 0), (c_start 0 _ race_conn); done|].
  eapply rtc_l; [apply (step_conn 0), (c_fail 0 _ [] [] None ErrRead); [done|done|reflexivity]|].
  eapply rtc_l; [apply (step_conn 0), (c_alone 0); done|]. apply rtc_refl.
Qed.

Lemma race_reachable `{Uint32Codec} : reachable (raced Receiving Finished 0 true ShutDown 1 0).
Proof.
  unfold reachable. eapply transitivity; [exact race_before_shutdown|].
  eapply rtc_l; [apply step_other, o_forget; done|]. eapply rtc_l; [apply step_other, o_close; done|].
  eapply rtc_l; [apply step_other, o_shutdown; done|]. eapply rtc_l; [apply step_main, m_quit; done|].
  eapply rtc_l; [apply step_main, m_cancel; done|]. eapply rtc_l; [apply step_main, m_wait; done|].
  eapply rtc_l; [apply (step_conn 0), (c_leave 0); done|]. apply rtc_refl.
Qed.

(** The shutdown of the TCP server can hang: a connection that ends while the server shuts
    down can find the context still open and take itself off the count without a message,
    after the main loop has decided to wait for that message.  From then on the main loop
    never returns, although the server is shut down and no connection is left. *)
Theorem server_shutdown_hangs `{Uint32Codec} :
  exists s, reachable s /\ shutdown s = ShutDown /\ Forall (fun c => c = Finished) (conns s) /\
    forall s', rtc step s s' -> main s' <> Returned.
Proof.
  exists (raced Receiving Finished 0 true ShutDown 1 0). split_and!; [exact race_reachable|done|by repeat constructor|].
  assert (forall a s', rtc step a s' -> abandoned a -> abandoned s') as Hgo.
  { induction 1 as [|a b c Hs _ IH]; [done|]. intros Ha. apply IH. by eapply abandoned_step. }
  intros s' Hs. destruct (Hgo _ _ Hs) as [Hm _]; [split; [done|by repeat constructor]|]. congruence.
Qed.

(** *** Witness *)

Lemma server_waits_for_connections_witness :
  Forall (fun c => c = Finished) [Finished] /\ activeConnections (mkMetrics 1 0 1 0) = 0.
Proof.
  apply (server_waits_for_connections (H := Example.le_uint32)
    (mkServer Returned [Finished] 0 true true ShutDown false [] (mkMetrics 1 0 1 0))); [|reflexivity].
  unfold reachable. eapply transitivity; [exact (race_before_shutdown (H := Example.le_uint32))|].
  eapply rtc_l; [apply (step_conn 0), (c_leave 0); done|].
  eapply rtc_l; [apply step_other, o_forget; done|]. eapply rtc_l; [apply step_other, o_close; done|].
  eapply rtc_l; [apply step_other, o_shutdown; done|]. eapply rtc_l; [apply step_main, m_quit; done|].
  eapply rtc_l; [apply step_main, m_cancel; done|]. eapply rtc_l; [apply step_main, m_return; done|]. apply rtc_refl.
Defined.
End TcpServer.
