(* ===== verification/MemoryTransport.v ===== *)
(** * Gossip in memory (services/gossip/adapter/memory)

    The transport between nodes of one process: a socket, which is a buffered channel,
    for every node, and a goroutine that hands its messages to the listener of the
    node.  Senders, registrations, the goroutines and the shutdown are the steps of a
    relation; a message to several nodes is put in their sockets one after the other. *)

From stdpp Require Import base list gmap relations.
From Stdlib Require Import ZArith Lia ZifyBool.
From S2P Require Import Prelude Digest Transport.
Import Transport.

Module MemoryTransport.

Definition SEND_QUEUE_MAX_MESSAGES : nat := 1000.

(** ** Peers (memory_transport.go) *)

(** The goroutine of a peer: it waits for a listener, it takes messages for it, or it
    has ended. *)
Inductive peer_state := Waiting | Accepting | Ended.

(** [received] is what the listener was notified of, [refused] what the socket was not
    given: it was full, or the context of the sender was done. *)
Record peer := mkPeer {
  socket : list (list bytes);
  capacity : nat;
  running : peer_state;
  received : list (list bytes);
  refused : list (list bytes)
}.

Definition newPeer (totalPeers : nat) : peer := mkPeer [] (SEND_QUEUE_MAX_MESSAGES * totalPeers) Waiting [] [].

(** Of the cases of the select that are ready, [withdraw] takes the one of the context. *)
Definition peer_send (ctxDone withdraw : bool) (payloads : list bytes) (p : peer) : peer :=
  if (length (socket p) <? capacity p)%nat && negb (ctxDone && withdraw)
  then mkPeer (socket p ++ [payloads]) (capacity p) (running p) (received p) (refused p)
  else mkPeer (socket p) (capacity p) (running p) (received p) (refused p ++ [payloads]).

Definition attach (p : peer) : option peer :=
  match running p with
  | Waiting => Some (mkPeer (socket p) (capacity p) Accepting (received p) (refused p))
  | _ => None
  end.

(** A round of the loop with a message in the socket. *)
Definition acceptUsing (p : peer) : option peer :=
  match running p, socket p with
  | Accepting, message :: rest => Some (mkPeer rest (capacity p) Accepting (received p ++ [message]) (refused p))
  | _, _ => None
  end.

Definition end_peer (p : peer) : peer := mkPeer (socket p) (capacity p) Ended (received p) (refused p).

(** ** The transport *)

(** A call of [Send] with the recipients that are left. *)
Record sending := mkSending { s_data : TransportData; s_ctxDone : bool; s_left : list bytes }.

(** [lock] is the address whose registration holds the lock of the transport; [started]
    are the messages that were sent, newest first. *)
Record memoryTransport := mkTransport {
  peers : gmap bytes peer;
  lock : option bytes;
  cancelled : bool;
  calls : list sending;
  started : list TransportData
}.

Definition NewTransport (validators : list bytes) : memoryTransport :=
  mkTransport (list_to_map (map (fun a => (a, newPeer (length validators))) validators)) None false [] [].

(** The addresses of a message in the order in which they are served; for a broadcast
    [order] is the order of the iteration over the table of peers.  The mode that leaves
    out a list of nodes is not implemented and panics; an unknown mode sends nothing. *)
Definition recipients (order : list bytes) (data : TransportData) : outcome unit (list bytes) :=
  match RecipientMode data with
  | RECIPIENT_LIST_MODE_BROADCAST => Ok (filter (fun key => key <> SenderNodeAddress data) order)
  | RECIPIENT_LIST_MODE_LIST => Ok (RecipientNodeAddresses data)
  | RECIPIENT_LIST_MODE_ALL_BUT_LIST => Panic
  | RECIPIENT_LIST_MODE_RESERVED => Ok []
  end.

(** The call of [send] on a peer that is not in the table dereferences nil. *)
Definition transmit (ctxDone withdraw : bool) (peerAddress : bytes) (data : TransportData) (ps : gmap bytes peer)
    : outcome unit (gmap bytes peer) :=
  match ps !! peerAddress with
  | Some p => Ok (<[peerAddress := peer_send ctxDone withdraw (Payloads data) p]> ps)
  | None => Panic
  end.

Inductive step : memoryTransport -> memoryTransport -> Prop :=
| step_Send t order ctxDone data left :
    order ≡ₚ (map_to_list (peers t)).*1 -> recipients order data = Ok left ->
    step t (mkTransport (peers t) (lock t) (cancelled t) (mkSending data ctxDone left :: calls t) (data :: started t))
| step_transmit t before data ctxDone withdraw key left after ps :
    calls t = before ++ mkSending data ctxDone (key :: left) :: after ->
    transmit ctxDone withdraw key data (peers t) = Ok ps ->
    step t (mkTransport ps (lock t) (cancelled t) (before ++ mkSending data ctxDone left :: after) (started t))
| step_RegisterListener t key p :
    lock t = None -> peers t !! key = Some p ->
    step t (mkTransport (peers t) (Some key) (cancelled t) (calls t) (started t))
| step_attach t key p p' :
    lock t = Some key -> peers t !! key = Some p -> attach p = Some p' ->
    step t (mkTransport (<[key := p']> (peers t)) None (cancelled t) (calls t) (started t))
| step_accept t key p p' :
    peers t !! key = Some p -> acceptUsing p = Some p' ->
    step t (mkTransport (<[key := p']> (peers t)) (lock t) (cancelled t) (calls t) (started t))
| step_GracefulShutdown t :
    lock t = None -> step t (mkTransport (peers t) None true (calls t) (started t))
| step_end t key p :
    cancelled t = true -> peers t !! key = Some p ->
    step t (mkTransport (<[key := end_peer p]> (peers t)) (lock t) (cancelled t) (calls t) (started t)).

Definition reachable (validators : list bytes) : memoryTransport -> Prop := rtc step (NewTransport validators).

(** ** What becomes of a message *)

(** How often a message goes to a node, for nodes with the addresses [nodes]. *)
Definition copies (nodes : gset bytes) (key : bytes) (data : TransportData) : nat :=
  match RecipientMode data with
  | RECIPIENT_LIST_MODE_BROADCAST => if decide (key ∈ nodes /\ key <> SenderNodeAddress data) then 1 else 0
  | RECIPIENT_LIST_MODE_LIST => length (filter (fun a => a = key) (RecipientNodeAddresses data))
  | _ => 0
  end.

(** The messages that were sent to a node. *)
Definition addressed (t : memoryTransport) (key : bytes) : list (list bytes) :=
  started t ≫= fun data => replicate (copies (dom (peers t)) key data) (Payloads data).

(** The messages of calls that did not come to the node yet. *)
Definition owed (cs : list sending) (key : bytes) : list (list bytes) :=
  cs ≫= fun c => replicate (length (filter (fun a => a = key) (s_left c))) (Payloads (s_data c)).

Lemma recipients_copies order nodes data left key :
  NoDup order -> (forall k, k ∈ order <-> k ∈ nodes) -> recipients order data = Ok left ->
  length (filter (fun a => a = key) left) = copies nodes key data.
Proof.
  intros Hnd Hin. unfold recipients, copies. destruct (RecipientMode data); [by intros [= <-]| |by intros [= <-]|done].
  intros [= <-]. rewrite list_filter_filter.
  rewrite (decide_ext _ (key ∈ order /\ key <> SenderNodeAddress data)) by by rewrite Hin.
  rewrite (list_filter_iff _ (fun a => a = key /\ key <> SenderNodeAddress data)) by naive_solver.
  clear Hin. induction Hnd as [|a order Ha Hnd IH]; [by rewrite decide_False by set_solver|].
  rewrite filter_cons. destruct (decide (a = key /\ _)) as [[-> Hs]|Hno].
  - rewrite decide_True by set_solver. cbn [length]. by rewrite IH, decide_False by naive_solver.
  - rewrite IH. apply decide_ext. set_solver.
Qed.

Lemma owed_app cs1 cs2 key : owed (cs1 ++ cs2) key = owed cs1 key ++ owed cs2 key.
Proof. apply bind_app. Qed.

Lemma owed_cons c cs key :
  owed (c :: cs) key = replicate (length (filter (fun a => a = key) (s_left c))) (Payloads (s_data c)) ++ owed cs key.
Proof. done. Qed.

(** All that a peer was given or refused. *)
Definition handled (p : peer) : list (list bytes) := received p ++ socket p ++ refused p.

(** A message is refused for a reason. *)
Definition excused (t : memoryTransport) (key : bytes) (p : peer) : Prop :=
  refused p = [] \/ Exists (fun c => s_ctxDone c = true) (calls t) \/ (capacity p < length (addressed t key))%nat.

Definition peer_inv (t : memoryTransport) (key : bytes) (p : peer) : Prop :=
  handled p ++ owed (calls t) key ≡ₚ addressed t key /\
  (length (socket p) <= capacity p)%nat /\ excused t key p.

Definition transport_inv (t : memoryTransport) : Prop := forall key p, peers t !! key = Some p -> peer_inv t key p.

(** Steps of the goroutine of a peer keep what it holds. *)
Lemma transport_inv_peer t key p p' l b :
  transport_inv t -> peers t !! key = Some p ->
  handled p' = handled p -> refused p' = refused p -> capacity p' = capacity p -> (length (socket p') <= length (socket p))%nat ->
  transport_inv (mkTransport (<[key := p']> (peers t)) l b (calls t) (started t)).
Proof.
  intros Hinv Hp Hh Hr Hc Hs k q. cbn [peers].
  assert (forall k', addressed (mkTransport (<[key := p']> (peers t)) l b (calls t) (started t)) k' = addressed t k') as Ha.
  { intros k'. unfold addressed. cbn [peers started]. by rewrite dom_insert_lookup_L by by eexists. }
  unfold peer_inv, excused. rewrite Ha. cbn [calls]. destruct (decide (k = key)) as [->|Hne].
  - rewrite lookup_insert_eq. intros [= <-]. destruct (Hinv key p Hp) as (H1 & H2 & H3). rewrite Hh, Hr, Hc.
    split_and!; [done|lia|done].
  - rewrite lookup_insert_ne by done. apply Hinv.
Qed.

Lemma elem_of_keys (ps : gmap bytes peer) k : k ∈ (map_to_list ps).*1 <-> k ∈ dom ps.
Proof.
  rewrite list_elem_of_fmap, elem_of_dom. split.
  - intros ([k' q] & -> & Hq%elem_of_map_to_list). by exists q.
  - intros [q Hq]. exists (k, q). split; [done|]. by apply elem_of_map_to_list.
Qed.

Lemma transport_inv_Send t order ctxDone data left :
  transport_inv t -> order ≡ₚ (map_to_list (peers t)).*1 -> recipients order data = Ok left ->
  transport_inv (mkTransport (peers t) (lock t) (cancelled t) (mkSending data ctxDone left :: calls t) (data :: started t)).
Proof.
  intros Hinv Hord Hrec k q Hq. destruct (Hinv k q Hq) as (H1 & H2 & H3).
  unfold peer_inv, excused, addressed in *. cbn [peers started calls] in *. rewrite owed_cons. cbn [s_left s_data].
  rewrite (recipients_copies order (dom (peers t)) data left k); [| |intros k'; rewrite Hord; apply elem_of_keys|done].
  2: { rewrite Hord. apply NoDup_fst_map_to_list. }
  split_and!; [|done|].
  - rewrite bind_cons, <-H1. solve_Permutation.
  - rewrite bind_cons, length_app, Exists_cons. destruct H3 as [H3|[H3|H3]]; [by left|right; left; by right|right; right; lia].
Qed.

Lemma handled_send ctxDone withdraw payloads p :
  handled (peer_send ctxDone withdraw payloads p) ≡ₚ payloads :: handled p.
Proof. unfold peer_send, handled. destruct (_ && _); cbn; solve_Permutation. Qed.

Lemma filter_hit (key : bytes) left :
  length (filter (fun a => a = key) (key :: left)) = S (length (filter (fun a => a = key) left)).
Proof. by rewrite filter_cons_True by done. Qed.

Lemma owed_transmit before data ctxDone key left after k :
  owed (before ++ mkSending data ctxDone (key :: left) :: after) k ≡ₚ
  (if decide (k = key) then [Payloads data] else []) ++ owed (before ++ mkSending data ctxDone left :: after) k.
Proof.
  rewrite !owed_app, !owed_cons. cbn [s_left s_data]. destruct (decide (k = key)) as [->|Hne].
  - rewrite filter_hit. cbn [replicate]. solve_Permutation.
  - by rewrite filter_cons_False by auto.
Qed.

Lemma transport_inv_transmit t before data ctxDone withdraw key left after ps :
  transport_inv t -> calls t = before ++ mkSending data ctxDone (key :: left) :: after ->
  transmit ctxDone withdraw key data (peers t) = Ok ps ->
  transport_inv (mkTransport ps (lock t) (cancelled t) (before ++ mkSending data ctxDone left :: after) (started t)).
Proof.
  intros Hinv Hc. unfold transmit. destruct (peers t !! key) as [p|] eqn:Hp; [|done]. intros [= <-] k q Hq. cbn [peers] in Hq.
  assert (exists q0, peers t !! k = Some q0 /\
    q = if decide (k = key) then peer_send ctxDone withdraw (Payloads data) q0 else q0) as (q0 & Hq0 & ->).
  { destruct (decide (k = key)) as [->|Hne]; [rewrite lookup_insert_eq in Hq|rewrite lookup_insert_ne in Hq by done]; naive_solver. }
  destruct (Hinv k q0 Hq0) as (H1 & H2 & H3). unfold peer_inv, excused, addressed in *. cbn [peers started calls] in *.
  rewrite dom_insert_lookup_L by by eexists. rewrite Hc, owed_transmit in H1. rewrite Hc in H3.
  rewrite !Exists_app, !Exists_cons in *. cbn [s_ctxDone] in *. destruct (decide (k = key)) as [->|Hne]; [|by split_and!].
  rewrite handled_send. split; [rewrite <-H1; solve_Permutation|].
  pose proof (Permutation_length H1) as Hlen. unfold handled in Hlen. rewrite !length_app in Hlen. cbn [length] in Hlen.
  unfold peer_send. destruct (Nat.ltb_spec (length (socket q0)) (capacity q0)); cbn [andb].
  - destruct ctxDone; cbn [andb negb].
    + split; [destruct withdraw; cbn; rewrite ?length_app; cbn; lia|]. right. left. right. by left.
    + cbn. rewrite length_app. cbn. split; [lia|]. naive_solver.
  - cbn. split; [lia|]. right. right. lia.
Qed.

Lemma step_inv t t' : step t t' -> transport_inv t -> transport_inv t'.
Proof.
  intros Hstep Hinv. destruct Hstep as [| | |t key p p' _ Hp Hatt|t key p p' Hp Hacc| |t key p _ Hp].
  - by apply (transport_inv_Send t order ctxDone data left).
  - by apply (transport_inv_transmit t before data ctxDone withdraw key left after).
  - exact Hinv.
  - unfold attach in Hatt. destruct (running p); [|done..]. injection Hatt as <-. by apply (transport_inv_peer t key p).
  - unfold acceptUsing in Hacc. destruct (running p), (socket p) as [|m rest] eqn:Hs; try done. injection Hacc as <-.
    apply (transport_inv_peer t key p); try done; [|cbn; rewrite Hs; cbn; lia].
    unfold handled. cbn. rewrite Hs. by rewrite <-!app_assoc.
  - exact Hinv.
  - by apply (transport_inv_peer t key p).
Qed.

Lemma NewTransport_inv validators : transport_inv (NewTransport validators).
Proof.
  intros key p Hp%elem_of_list_to_map_2. apply list_elem_of_fmap in Hp as (a & [= -> ->] & _).
  split_and!; [done|cbn; lia|by left].
Qed.

Lemma reachable_transport_inv validators t : reachable validators t -> transport_inv t.
Proof.
  unfold reachable. intros Hr. pose proof (NewTransport_inv validators) as Hinv. revert Hinv.
  induction Hr as [|t0 t1 t2 Hs _ IH]; [done|]. intros Hinv. by apply IH, (step_inv t0).
Qed.

(** What was put in a socket stays in its place. *)
Lemma step_fifo t t' key p :
  step t t' -> peers t !! key = Some p ->
  exists p', peers t' !! key = Some p' /\ (received p ++ socket p) `prefix_of` (received p' ++ socket p').
Proof.
  intros Hstep Hp.
  assert (forall k q q', peers t !! k = Some q -> (received q ++ socket q) `prefix_of` (received q' ++ socket q') ->
    exists p', <[k := q']> (peers t) !! key = Some p' /\ (received p ++ socket p) `prefix_of` (received p' ++ socket p')) as Hins.
  { intros k q q' Hq Hpre. destruct (decide (k = key)) as [->|Hne].
    - rewrite lookup_insert_eq. exists q'. split; [done|]. by simplify_eq.
    - rewrite lookup_insert_ne by done. by exists p. }
  destruct Hstep as [|t before data ctxDone withdraw k left after ps _ Htr| |t k q q' _ Hq Hatt|t k q q' Hq Hacc| |t k q _ Hq];
    cbn [peers]; try (by exists p).
  - unfold transmit in Htr. destruct (peers t !! k) as [q|] eqn:Hq; [|done]. injection Htr as <-. apply (Hins k q _ Hq).
    unfold peer_send. destruct (_ && _); cbn; [|done]. rewrite app_assoc. by apply prefix_app_r.
  - unfold attach in Hatt. destruct (running q); [|done..]. injection Hatt as <-. by apply (Hins k q _ Hq).
  - unfold acceptUsing in Hacc. destruct (running q), (socket q) as [|m rest] eqn:Hs; try done. injection Hacc as <-.
    apply (Hins k q _ Hq). cbn. by rewrite Hs, <-app_assoc.
  - by apply (Hins k q _ Hq).
Qed.


(** A second listener for a node never gets in and holds the lock of the transport from
    then on, so that a shutdown waits for ever. *)
Lemma second_listener_blocks t t' key p :
  lock t = Some key -> peers t !! key = Some p -> running p <> Waiting -> rtc step t t' ->
  lock t' = Some key /\ cancelled t' = cancelled t.
Proof.
  intros Hl Hp Hw Hrun. revert p Hl Hp Hw. induction Hrun as [t|t t1 t2 Hs Hr IH]; intros p Hl Hp Hw; [done|].
  assert (lock t1 = Some key /\ cancelled t1 = cancelled t /\ exists p1, peers t1 !! key = Some p1 /\ running p1 <> Waiting)
    as (Hl1 & <- & p1 & Hp1 & Hw1); [|by apply (IH p1)].
  clear IH Hr. destruct Hs as [|t before data ctxDone withdraw k left after ps _ Htr|t k q Hl'|t k q q' Hl' Hq Hatt|t k q q' Hq Hacc|t Hl'|t k q Hc Hq];
    cbn [lock cancelled peers]; try congruence; try (split; [exact Hl|split; [done|]]).
  - by exists p.
  - unfold transmit in Htr. destruct (peers t !! k) as [q|] eqn:Hq; [|done]. injection Htr as <-.
    destruct (decide (k = key)) as [->|Hne]; [rewrite lookup_insert_eq|rewrite lookup_insert_ne by done; by exists p].
    simplify_eq. eexists. split; [done|]. unfold peer_send. by destruct (_ && _).
  - assert (k = key) as -> by congruence. rewrite Hp in Hq. injection Hq as <-. unfold attach in Hatt. by destruct (running p).
  - destruct (decide (k = key)) as [->|Hne]; [rewrite lookup_insert_eq|rewrite lookup_insert_ne by done; by exists p].
    rewrite Hp in Hq. injection Hq as <-. exists q'. split; [done|]. unfold acceptUsing in Hacc.
    by destruct (running p), (socket p); simplify_eq.
  - destruct (decide (k = key)) as [->|Hne]; [rewrite lookup_insert_eq; by eexists|rewrite lookup_insert_ne by done; by exists p].
Qed.

(** ** Example *)

Module Example.

Definition nodes : list bytes := [[1]; [2]].
Definition hello : TransportData := mkData [1] RECIPIENT_LIST_MODE_BROADCAST [] [[7]].
Definition new_peer : peer := newPeer 2.

(** The first node broadcasts, a listener is registered for the second and receives. *)
Definition waiting : memoryTransport := NewTransport nodes.
Definition sent : memoryTransport := mkTransport (peers waiting) None false [mkSending hello false [[2]]] [hello].
Definition filled : peer := mkPeer [[[7]]] (capacity new_peer) Waiting [] [].
Definition deposited : memoryTransport :=
  mkTransport (<[ [2] := filled ]> (peers waiting)) None false [mkSending hello false []] [hello].

Lemma deposited_reachable : reachable nodes deposited.
Proof.
  eapply rtc_l; [|eapply rtc_l; [|apply rtc_refl]].
  - apply (step_Send waiting ((map_to_list (peers waiting)).*1) false hello [[2]]); [done|]. vm_compute. reflexivity.
  - apply (step_transmit sent [] hello false false [2] [] []); [done|]. reflexivity.
Qed.

End Example.
End MemoryTransport.
