(* ===== verification/Signer.v ===== *)
(** * Signers (crypto/signer, services/signer, bootstrap/signer)

    A node signs with a private key of its own, or asks a signer server over HTTP.
    The client, the server with its handler and the vault service are modelled, and
    that both ways of signing agree.

    The network between client and server is an argument, and so are the messages of
    the vault, which the membuffers library reads and writes. *)

From stdpp Require Import base strings gmap list.
From Stdlib Require Import ZArith Lia.
From S2P Require Import Prelude Hash Digest Encoding GoStd HttpServer.
Import HttpServer.

Module Signer.

(** ** Messages of the vault *)

Class VaultMessages := {
  NodeSignInput_Raw : bytes -> bytes;
  NodeSignInputReader_Data : bytes -> bytes;
  NodeSignOutput_Raw : bytes -> bytes;
  NodeSignOutputReader_Signature : bytes -> bytes
}.

(** What is written is read back. *)
Class VaultMessagesLaws `{VaultMessages} := {
  input_read data : NodeSignInputReader_Data (NodeSignInput_Raw data) = data;
  output_read sig : NodeSignOutputReader_Signature (NodeSignOutput_Raw sig) = sig
}.

Section Signers.
Context `{Sha256} `{NodeKeys} `{VaultMessages}.

Inductive signer_error :=
| ErrSign (e : signature_error)
| ErrCreatingRequest
| ErrSendingRequest
| ErrResponseCode
| ErrParseResponse
| ErrKeyConfiguration.

(** ** The server (services/signer/service.go, bootstrap/signer) *)

Definition local_Sign (privateKey input : bytes) : outcome signature_error bytes := SignAsNode privateKey input.

(** The raw input and the raw output. *)
Definition NodeSign (NodePrivateKey input : bytes) : outcome signature_error bytes :=
  let! signature := local_Sign NodePrivateKey (NodeSignInputReader_Data input) in
  Ok (NodeSignOutput_Raw signature).

(** The body of a request that a server gets is never nil. *)
Definition SignHandler (NodePrivateKey : bytes) (writer : ResponseWriter) (request : Request) : outcome unit ResponseWriter :=
  match r_Body request with
  | BrokenBody => Ok (WriteHeader StatusBadRequest writer)
  | b =>
      let input := match b with Body data => data | _ => [] end in
      match NodeSign NodePrivateKey input with
      | Ok signature => Ok (Write signature writer)
      | Err _ => Ok (WriteHeader StatusInternalServerError writer)
      | Panic => Panic
      end
  end.

(** The router has one path. *)
Definition StartSignerServer (NodePrivateKey : bytes) (r : Request) : outcome unit Response :=
  if String.eqb (RequestURI r) "*" then Ok (finish (WriteHeader StatusBadRequest new_writer))
  else
    let path := if String.eqb (Method r) "CONNECT" then URL_Path r else cleanPath (URL_Path r) in
    if negb (String.eqb path (URL_Path r)) then Ok (Redirected path)
    else if String.eqb path "/sign" then let! w := SignHandler NodePrivateKey new_writer r in Ok (finish w)
    else Ok (finish (http_NotFound new_writer)).

(** ** The client (crypto/signer/signer.go) *)

(** What comes of a request: it cannot be made, it fails, or it is answered with a
    code and a body, which may break off. *)
Inductive exchange := BadAddress | NoAnswer | Answered (StatusCode : Z) (data : option bytes).

(** [http.Post] of a body to an address. *)
Variable Do : string -> bytes -> exchange.

Definition client_Sign (address : string) (input : bytes) : outcome signer_error bytes :=
  match Do (address ++ "/sign")%string (NodeSignInput_Raw input) with
  | BadAddress => Err ErrCreatingRequest
  | NoAnswer => Err ErrSendingRequest
  | Answered StatusCode data =>
      if negb (StatusCode =? StatusOK) then Err ErrResponseCode
      else match data with
           | None => Err ErrParseResponse
           | Some data => Ok (NodeSignOutputReader_Signature data)
           end
  end.

Inductive signer := local (privateKey : bytes) | client (address : string).

Definition New (NodePrivateKey : option bytes) (SignerEndpoint : string) : outcome signer_error signer :=
  match NodePrivateKey with
  | Some privateKey => Ok (local privateKey)
  | None => if String.eqb SignerEndpoint "" then Err ErrKeyConfiguration else Ok (client SignerEndpoint)
  end.

Definition Sign (s : signer) (input : bytes) : outcome signer_error bytes :=
  match s with
  | local privateKey =>
      match local_Sign privateKey input with Ok sig => Ok sig | Err e => Err (ErrSign e) | Panic => Panic end
  | client address => client_Sign address input
  end.

(** ** Both signers agree *)

(** The answer that a client gets when the request reaches the server and the answer
    the client; the path of the client is not redirected. *)
Definition answer_of (response : outcome unit Response) : exchange :=
  match response with
  | Ok (Responded code _ data) => Answered code (Some data)
  | _ => NoAnswer
  end.

Definition connected (address : string) (privateKey : bytes) : Prop :=
  forall data, Do (address ++ "/sign")%string data =
    answer_of (StartSignerServer privateKey (mkRequest "POST" "/sign" "/sign" (Body data))).

Lemma server_answers privateKey data :
  answer_of (StartSignerServer privateKey (mkRequest "POST" "/sign" "/sign" (Body data))) =
  match NodeSign privateKey data with
  | Ok out => Answered StatusOK (Some out)
  | Err _ => Answered StatusInternalServerError (Some [])
  | Panic => NoAnswer
  end.
Proof.
  unfold StartSignerServer. cbn [RequestURI Method URL_Path].
  change (String.eqb (cleanPath "/sign") "/sign") with true. unfold SignHandler. cbn [r_Body].
  change (String.eqb "/sign" "*") with false. change (String.eqb "POST" "CONNECT") with false. cbn [negb].
  change (String.eqb (cleanPath "/sign") "/sign") with true. cbn [negb].
  by destruct (NodeSign privateKey data).
Qed.

Context `{!VaultMessagesLaws}.

Lemma remote_sign address privateKey input :
  connected address privateKey ->
  client_Sign address input =
  match SignAsNode privateKey input with Ok sig => Ok sig | Err _ => Err ErrResponseCode | Panic => Err ErrSendingRequest end.
Proof.
  intros Hnet. unfold client_Sign. rewrite Hnet, server_answers. unfold NodeSign, local_Sign. rewrite input_read.
  destruct (SignAsNode privateKey input); cbn; [by rewrite output_read|done..].
Qed.

(** A key pair: what is signed with the private key recovers to the public key. *)
Definition key_pair (privateKey publicKey : bytes) : Prop :=
  length privateKey = ECDSA_SECP256K1_PRIVATE_KEY_SIZE_BYTES /\
  length publicKey = ECDSA_SECP256K1_PUBLIC_KEY_SIZE_BYTES /\
  forall hash, exists sig, secp256k1_Sign hash privateKey = Some sig /\
    length sig = ECDSA_SECP256K1_SIGNATURE_SIZE_BYTES /\ secp256k1_RecoverPubkey hash sig = Some (4 :: publicKey).

Lemma SignAsNode_verifies privateKey publicKey data :
  key_pair privateKey publicKey -> length (CalcKeccak256 publicKey) = 32%nat ->
  exists sig, SignAsNode privateKey data = Ok sig /\
    VerifyNodeSignature (CalcNodeAddressFromPublicKey publicKey) data sig = Ok tt.
Proof.
  intros (Hpriv & Hpub & Hsign) Hk. destruct (Hsign (CalcSha256 [data])) as (sig & Hs & Hl & Hr). exists sig.
  unfold SignAsNode, SignEcdsaSecp256K1, VerifyNodeSignature, RecoverEcdsaSecp256K1, CalcNodeAddressFromPublicKey.
  rewrite length_drop, Hk. rewrite !bool_decide_eq_false_2 by (cbn; auto). rewrite Hs, Hr.
  rewrite bool_decide_eq_false_2 by (cbn [length]; rewrite Hpub; auto). split; [done|].
  change (drop 1 (4 :: publicKey)) with publicKey. cbn [bindO]. by rewrite bool_decide_eq_false_2 by auto.
Qed.

(** C29. Signing with the key of the node and signing by a signer server agree: for a
    server that holds the private key of the pair and is reached, a node configured
    with either gets the same signature of every message, one that all nodes accept
    for its address; and a node that is configured with neither does not start. *)
Theorem remote_signer_agrees address privateKey publicKey input :
  address <> EmptyString -> connected address privateKey ->
  key_pair privateKey publicKey -> length (CalcKeccak256 publicKey) = 32%nat ->
  (exists here there sig,
     New (Some privateKey) address = Ok here /\ New None address = Ok there /\
     Sign here input = Ok sig /\ Sign there input = Ok sig /\
     VerifyNodeSignature (CalcNodeAddressFromPublicKey publicKey) input sig = Ok tt) /\
  New None EmptyString = Err ErrKeyConfiguration.
Proof.
  intros Ha Hnet Hpair Hk. split; [|done]. destruct (SignAsNode_verifies privateKey publicKey input Hpair Hk) as (sig & Hs & Hv).
  exists (local privateKey), (client address), sig. split_and!; [done| | | |done].
  - unfold New. by rewrite (proj2 (String.eqb_neq _ _) Ha).
  - cbn. unfold local_Sign. by rewrite Hs.
  - cbn [Sign]. rewrite (remote_sign address privateKey) by done. by rewrite Hs.
Qed.
End Signers.

(** ** Example *)

Module Example.

(** Hashes are the first bytes, the signature of a hash is the hash with the first
    byte of the key. *)
#[local] Instance sha : Sha256 := fun b => take 32 (b ++ replicate 32 0).
#[local] Instance keys : NodeKeys := {
  CalcKeccak256 b := take 32 (b ++ replicate 32 0);
  secp256k1_Sign hash privateKey := Some (take 65 (take 1 privateKey ++ hash ++ replicate 65 0));
  secp256k1_RecoverPubkey hash sig := Some (4 :: take 64 (take 1 sig ++ replicate 64 0))
}.
#[local] Instance vault : VaultMessages := {
  NodeSignInput_Raw data := 1 :: data;
  NodeSignInputReader_Data := drop 1;
  NodeSignOutput_Raw sig := 2 :: sig;
  NodeSignOutputReader_Signature := drop 1
}.
#[local] Instance vault_laws : VaultMessagesLaws.
Proof. by constructor. Qed.

Definition privateKey : bytes := replicate 32 7.
Definition publicKey : bytes := take 64 (7 :: replicate 64 0).

Definition network (address : string) (data : bytes) : exchange :=
  if String.eqb address "http://signer/sign"
  then answer_of (StartSignerServer privateKey (mkRequest "POST" "/sign" "/sign" (Body data)))
  else NoAnswer.

Lemma remote_signer_agrees_witness :
  exists sig, Sign network (client "http://signer") [1; 2; 3] = Ok sig /\
    VerifyNodeSignature (CalcNodeAddressFromPublicKey publicKey) [1; 2; 3] sig = Ok tt.
Proof.
  destruct (remote_signer_agrees network "http://signer" privateKey publicKey [1; 2; 3]) as [(here & there & sig & _ & Ht & _ & Hs & Hv) _].
  - discriminate.
  - intros data. reflexivity.
  - split_and!; [reflexivity..|]. intros hash. eexists. split_and!; [reflexivity| |reflexivity].
    change (length (take 65 (take 1 privateKey ++ hash ++ replicate 65 0)) = 65%nat).
    rewrite length_take, !length_app, length_replicate. lia.
  - reflexivity.
  - exists sig. cbn in Ht. injection Ht as <-. split; [exact Hs|exact Hv].
Defined.
End Example.
End Signer.
